(* ===== verification/_CoqProject ===== *)
-Q . S2P
Prelude.v
Params.v
ArithUint256.v
Serialize.v
Der.v
TreeDB.v
Primality.v
Limbs.v
Inverse.v
Scalar.v
Sha256.v
Keygen.v
HashToField.v
Crypto.v
Merkle.v
Script.v
OutPoint.v
Address.v
Transaction.v
Coins.v
Compressor.v
Blst.v
BlstNode.v
Emscripten.v
Runnable.v
PeerDiscovery.v
Trust.v
Heartbeat.v
ValidatorDB.v
Delegation.v
Accounts.v
Chain.v
Pow.v
Block.v
Pos.v
Mpos.v
Tiers.v
Headers.v
VersionBits.v
Locks.v
Connect.v
