(* ===== verification/Prelude.v ===== *)
(** * WATTx: a verification development

    WATTx is a proof-of-stake node forked from Qtum and Bitcoin Core.  This library
    models the parts the fork adds or relies on for consensus, and proves what makes
    them correct, in Rocq with stdpp.  Definitions keep the source's names; sources
    are under src/src/.

    ** The program and how its parts interact

    - Numbers and bytes.  arith_uint256.{h,cpp} are the 256-bit numbers of targets and
      work; serialize.h is the stream format every message and database uses.
    - Consensus constants.  consensus/params.h and kernel/chainparams.cpp parametrise
      everything; validation.cpp turns them into the block subsidy.
    - The block tree.  node/blockstorage.cpp adds headers to the index, chain.cpp gives
      ancestors by skip list, common ancestors and the active chain, pow.cpp the
      difficulty the next block must meet, for proof of work and proof of stake.
      validation.cpp accepts headers into it, with median times, checkpoints and the
      blocks known to be invalid; versionbits.cpp decides deployments by the versions of
      the blocks of a branch.
    - Proof of stake.  pos.cpp checks the kernel of a coinstake, the delegation of the
      stake, spent coins on forks and the signatures of headers and blocks; it shares
      rewards among recent stakers (MPoS) through the stake and delegate indexes of
      node/blockstorage.cpp, which validation.cpp keeps; and it sorts stakers into tiers
      by their trust.
    - Transactions and blocks.  script/ encodes and classifies output scripts, with the
      contract outputs of Qtum; primitives/ holds transactions, headers and blocks with
      their encodings and identifiers; consensus/merkle.cpp and merkleblock.cpp commit to
      the transactions of a block; consensus/tx_check.cpp and validation.cpp
      ([CheckBlock]) check what needs no context.
    - Unspent outputs.  coins.cpp stacks caches on the database of txdb.cpp; validation.cpp
      connects blocks to and disconnects them from such a stack, checks the reward and
      counts the money supply.  compressor.cpp and undo.h give coins and undo data their
      stored form, addresstype.cpp names the destinations of scripts, tx_verify.cpp the
      lock times of transactions.
    - Validators.  trust/ scores validators by the heartbeats they send
      (trustscore.cpp), spreads heartbeats and registrations over the network
      (heartbeat_net.cpp, dispatched from net_processing.cpp) and learns peers from
      them (PeerDiscoveryManager).  validators/ keeps the database of validators
      (validatordb.cpp) and of the stake delegated to them (delegation.cpp), which
      updates the former.
    - Signatures.  blst/ is the vendored BLS library: multi-precision limbs
      (no_asm.h, bytes.h), scalars (exports.c, recip.c), SHA-256, HMAC and HKDF key
      generation (sha256.h, keygen.c), hashing to field elements (hash_to_field.c),
      the pairing context (aggregate.c), the C++ classes over them (blst.hpp), the
      SWIG wrappers for Node (blst.swg), the TypeScript declarations of those
      (blst.hpp.ts), the glue for WebAssembly (emscripten/build.py) and three example
      programs.

    ** Files

    - Prelude.v (this file): machine integers with written-out wrap-around and the
      tactics [no_wrap], [case_if]; ordered traversal of maps ([in_order]); sums over
      maps ([msum]); the monad of operations under mutexes ([locked], [LOCK]).
    - Params.v: [Params], [main_params], [GetBlockSubsidy], [GetTieredBlockSubsidy].
    - ArithUint256.v: [base_uint] as eight 32-bit limbs with every operator, the
      compact form and the byte conversions.
    - Serialize.v: a [codec] pairs a writer with a reader; the class [RoundTrip] states
      that reading gives back what was written, [Canonical] that only what would be
      written is read, with instances for integers, compact
      sizes, variable-length integers, strings, vectors, pairs, maps, enumerations.
    - Der.v: the strict DER test of signatures (script/interpreter.cpp).
    - TreeDB.v: the ordered key-value store of the block tree with its cursors, the
      height, stake and delegate indexes (node/blockstorage.cpp).
    - Crypto.v: the class [Crypto] is the interface to keys, signatures and hashes
      (key.h, pubkey.h, hash.h over libsecp256k1), [CryptoLaws] what is assumed.
    - Primality.v: primality by Pocklington's criterion, with certificates a
      computation checks.
    - Limbs.v: no_asm.h and bytes.h over a list of limbs of either width: modular
      addition, subtraction, shifts, Montgomery multiplication and reduction.
    - Inverse.v: [ct_inverse_mod_n], the constant-time inverse with approximations.
    - Scalar.v: the constants of the group order, the exported scalar operations.
    - Sha256.v, Keygen.v, HashToField.v: the hash with its streaming context; HMAC,
      HKDF, [keygen] and EIP-2333; [expand_message_xmd] and [hash_to_field].
    - Blst.v: the pairing context over the class [Curve] with its laws [CurveLaws].
    - BlstNode.v: the classes of blst.hpp as SWIG exposes them to JavaScript: a heap
      of C++ objects and wrappers, typemaps, overload resolution, and blst.hpp.ts as
      data ([SecretKey_interface] and the others).
    - Emscripten.v: the same classes through the glue of emscripten/build.py, with its own
      argument checks and errors.
    - Runnable.v: the example programs over the two bindings.
    - PeerDiscovery.v: [PeerDiscoveryManager] over the class [NetAddress].
    - Trust.v: [TrustScoreManager]; Heartbeat.v: [HeartbeatManager] and messages.
    - OutPoint.v: [COutPoint] and the outpoint indexes both databases keep.
    - Merkle.v: [ComputeMerkleRoot], the constant-space [MerkleComputation] with paths,
      and [CPartialMerkleTree].
    - Script.v: instructions, numbers, the parameters of contract outputs, [Solver].
    - Address.v: [CTxDestination], [ExtractDestination], [GetScriptForDestination].
    - Transaction.v: [CTransaction], both encodings, identifiers, [CheckTransaction].
    - Coins.v: [Coin], the class [CCoinsView] with its laws [CCoinsViewLaws], the database
      and the cache as instances, the cache over any instance.
    - Compressor.v: the compact encodings of amounts, scripts, coins and undo data, over
      the class [PubKeys] (CPubKey) with its laws [PubKeysLaws].
    - Block.v: [CBlock], headers, the signature and delegation field, [CheckBlock].
    - Connect.v: [CheckTxInputs], [UpdateCoins], [ConnectBlock], [CheckReward],
      [DisconnectBlock].
    - ValidatorDB.v: entries, signed updates, rewards, [ValidatorDB].
    - Delegation.v: delegations, requests, [DelegationDB] over both databases.
    - Accounts.v: the totals of one database against the delegations of the other.
    - Chain.v: [CBlockIndex], [AddToBlockIndex], [GetAncestor], [CChain].
    - Pow.v: [GetNextWorkRequired], [CalculateNextWorkRequired], the hash check.
    - Pos.v: [CheckStakeKernelHash], [CheckProofOfStake], [CheckKernel] with its cache,
      [CheckHeaderPoS], block signatures, delegated fees; failing checks, null pointers
      and exceptions are results of the monad [M].
    - Mpos.v: [GetMPoSOutputs], the script cache, and the node that writes the indexes as
      it connects and disconnects blocks, as a step relation with restarts.
    - Tiers.v: [CheckTieredProofOfStake] and the tiered rewards.
    - Headers.v: [AcceptBlockHeader], [ProcessNewBlockHeaders], [GetMedianTimePast],
      checkpoints.
    - VersionBits.v: [GetStateFor] with its caches, [ComputeBlockVersion], the deployment
      queries.
    - Locks.v: [CalculateSequenceLocks], [SequenceLocks].

    State is passed explicitly: an operation takes a record and returns a result and a
    record; maps are [gmap]s, pointers to map elements are their keys, a null pointer
    is [None].  Databases and managers are state machines (relations [step], [steps],
    [built]) and their invariants hold in every state reachable from the empty one.
    Handlers that take mutexes run in the lock monad, where locking a mutex the thread
    already holds is [Deadlock].  Key ids and hashes are numbers whose order is that
    of the bytes.

    ** What the theorems show

    - Arithmetic and encodings: the limb operations are those of the integers modulo
      2^256; compact targets decode as documented and survive re-encoding; compact
      sizes are read back and accepted only in canonical form.
    - Issuance: the main network's subsidy is the halving schedule at every height,
      and the supply has the cap it implies.
    - Block tree: the skip list finds exactly the ancestors parents lead to; common
      ancestors, fork points and the active chain are right after every change of tip;
      the best header has the most work.
    - Headers: a header is accepted exactly when it keeps the rules of its branch and no
      ancestor is known to be invalid; whatever is offered, the invariants of the index
      stay and no failed block gets a descendant.
    - Deployments: whatever is cached, the answer is the state of the machine that goes
      period by period; as long as median times do not fall back, which only headers of
      proof of stake are held to, signalling activates and every deployment is decided after
      its timeout; medians that fall make the node forget.
    - Proof of stake: [CheckProofOfStake] and [CheckHeaderPoS] accept exactly what the
      rules on coins, maturity, delegation, kernel and signature allow and never follow a
      null pointer; the search for spent coins ends; the kernel cache changes nothing;
      MPoS rewards are those the active chain defines through reorganisations, lost
      writes and restarts; the reasons for rejections by tier are given in exactly known
      cases; and the defects found: erasures that erase nothing of theirs, a fee recorded as
      0, tiers nobody enforces.
    - Indexes: reading, erasing and wiping the height index touch exactly the records of
      the heights asked for; what the erasures of the other two indexes do is exact too.
    - Difficulty: on the main network the required work is always defined, and the
      proof-of-stake target moves within proved bounds; the hash check is exact.
    - Commitments and encodings: transactions, headers and blocks are read back and have
      one encoding; identifiers and Merkle roots determine what they commit to up to
      collisions of named byte strings; both root computations agree; what a partial tree
      with the block's number of transactions proves is in the block.  Stored coins and undo data are read back, destinations and
      scripts determine each other, and the DER test accepts exactly the shortest
      encodings of two integers.
    - Checks: [CheckTransaction] accepts exactly the transactions that keep its rules,
      [CheckBlock] leaves blocks of a fixed shape, [Solver] takes exactly the described
      scripts for contracts; script numbers and contract parameters are read back;
      [SequenceLocks] holds a transaction back exactly until all its inputs are old enough.
    - Unspent outputs: for callers that keep its rules a stack of caches behaves as one map;
      flushing publishes it, an interrupted write to the database is recovered.  Connecting a block changes the map
      as its transactions say and overwrites nothing, disconnecting restores it, and the
      supply grows by at most the subsidy; and the defects found: a proof-of-work block
      with a coinstake can mint, the check of the supply overflows.
    - Validator database and delegations: index and entry invariants, reload, reward
      split, claims paid once, and agreement of the totals of both databases where no
      delegation is divided; and the
      defects found: a distribution that deadlocks, an undelegation of everything that
      stops at one, an escape from jail, a reward that overflows.
    - Trust and heartbeats: invariants and rate limits; registrations made by a node
      are accepted; and the defects: heartbeats nobody authenticates, a flood that
      deadlocks, a silent validator that keeps its tier.
    - BLS arithmetic and hashing: the limb algorithms compute modulo the group order,
      which is prime (products, sums and differences; the inverse only as far as the
      Euclidean loop, which is executable, inverts); bytes become scalars by reduction; SHA-256 in pieces is SHA-256;
      key generation, child keys and message expansion are those of the standards.
    - BLS signatures: the buffered pairing context computes the textbook product of
      pairings, merged contexts agree with one, every reachable context is safe.
    - Bindings: every call and constructor TypeScript accepts throws exactly a computed
      exception or returns a value of the declared type; three calls on which the two
      bindings differ; and the example programs print OK, each over its bindings.

    ** Bounds and fuel

    Widths are those of the C++ types; theorems about intended arithmetic carry the
    bounds under which nothing wraps.  Loops over lists are structural.  Fuel is used
    where the source loops on a condition, always with a theorem that the amount given
    is enough: the height of an entry bounds every walk to the root (Chain.v, Pow.v,
    Pos.v, Headers.v, VersionBits.v);
    257 rounds bound the exponential, whose terms halve (Pow.v); the bit length bounds
    division and variable-length integers (ArithUint256.v, Serialize.v); the number of
    leaves bounds the levels of a Merkle tree, the length of a script its instructions
    (Merkle.v, Script.v); [AccessByTxid] counts up to a limit that is its fuel (Coins.v);
    nine rounds take the zeros off an amount (Compressor.v).  Cursors over a database are
    the lists of records still ahead, so their loops are structural (TreeDB.v).  The loop of
    [keygen] repeats while the key is zero, which no bound excludes: its theorem
    relates it to a reference with the same fuel and decides the first round.

    ** Not modelled

    Code outside the sources enters as interfaces with stated laws and a concrete
    instance for the witnesses: elliptic curves, keys and hashes, address parsing, the curve
    arithmetic and the map to the curve below the pairing context.  [std::sort] is [merge_sort]: a sorted
    permutation, which is all the theorems use.  Interleavings of threads are not
    modelled, only the locks one thread takes.  Logging, files other than the peer
    list, networking, wallet, RPC and the user interface are input and output.  The
    script interpreter, the EVM, the mempool and the activation of the best chain are not
    part of the library; what they say of a transaction is an argument of [ConnectBlock],
    what the delegation contract says of a staker an argument of the proof of stake.  Block
    files, pruning, locators, the address, spent and timestamp indexes, and the warnings
    about unknown deployments have no part in what is proved and are left out. *)

From stdpp Require Import gmap strings list sorting.
From Stdlib Require Import ZArith Lia.

Open Scope Z_scope.

(** ** Machine integers

    C++ integers are [Z] with their width written out.  [u32]/[u64] wrap modulo
    [2^w]; [i32]/[i64] wrap in two's complement, which is what the supported
    targets compute where the standard leaves signed overflow undefined.  Every
    theorem about the intended arithmetic carries the bounds under which no wrap
    happens. *)

Definition u8 (z : Z) : Z := z mod 256.
Definition u32 (z : Z) : Z := z mod 4294967296.
Definition u64 (z : Z) : Z := z mod 18446744073709551616.
Definition i32 (z : Z) : Z := (z + 2147483648) mod 4294967296 - 2147483648.
Definition i64 (z : Z) : Z :=
  (z + 9223372036854775808) mod 18446744073709551616 - 9223372036854775808.

Definition in_u32 (z : Z) : Prop := 0 <= z < 4294967296.
Definition in_u64 (z : Z) : Prop := 0 <= z < 18446744073709551616.
Definition in_i32 (z : Z) : Prop := -2147483648 <= z <= 2147483647.
Definition in_i64 (z : Z) : Prop := -9223372036854775808 <= z <= 9223372036854775807.

Create HintDb wattx.

Lemma u32_id z : in_u32 z -> u32 z = z.
Proof. unfold in_u32, u32. intros. apply Z.mod_small. lia. Qed.

Lemma u64_id z : in_u64 z -> u64 z = z.
Proof. unfold in_u64, u64. intros. apply Z.mod_small. lia. Qed.

Lemma i32_id z : in_i32 z -> i32 z = z.
Proof. unfold in_i32, i32. intros. rewrite Z.mod_small; lia. Qed.

Lemma i64_id z : in_i64 z -> i64 z = z.
Proof. unfold in_i64, i64. intros. rewrite Z.mod_small; lia. Qed.

Lemma u32_range z : in_u32 (u32 z).
Proof. unfold in_u32, u32. apply Z.mod_pos_bound. lia. Qed.

Lemma u64_range z : in_u64 (u64 z).
Proof. unfold in_u64, u64. apply Z.mod_pos_bound. lia. Qed.

Lemma i32_range z : in_i32 (i32 z).
Proof.
  unfold in_i32, i32.
  pose proof (Z.mod_pos_bound (z + 2147483648) 4294967296 ltac:(lia)). lia.
Qed.

Lemma i64_range z : in_i64 (i64 z).
Proof.
  unfold in_i64, i64.
  pose proof (Z.mod_pos_bound (z + 9223372036854775808) 18446744073709551616 ltac:(lia)). lia.
Qed.

#[export] Hint Resolve u32_range u64_range i32_range i64_range : wattx.

(** [no_wrap] removes every wrap whose argument [lia] can bound; [solve_width]
    discharges the range side conditions. *)
Ltac unfold_width := unfold in_u32, in_u64, in_i32, in_i64 in *.

Ltac solve_width := unfold_width; first [ lia | nia ].

(** The rewriting goes innermost first, so that a wrapped argument is known to be
    in range before the enclosing wrap is considered. *)
Ltac wrap_free z :=
  lazymatch z with
  | context [i64 _] => fail
  | context [i32 _] => fail
  | context [u32 _] => fail
  | context [u64 _] => fail
  | _ => idtac
  end.

Ltac no_wrap :=
  repeat match goal with
  | |- context [i64 ?z] => wrap_free z; rewrite (i64_id z) by solve_width
  | |- context [i32 ?z] => wrap_free z; rewrite (i32_id z) by solve_width
  | |- context [u32 ?z] => wrap_free z; rewrite (u32_id z) by solve_width
  | |- context [u64 ?z] => wrap_free z; rewrite (u64_id z) by solve_width
  end.

Ltac no_wrap_in H :=
  repeat match type of H with
  | context [i64 ?z] => wrap_free z; rewrite (i64_id z) in H by solve_width
  | context [i32 ?z] => wrap_free z; rewrite (i32_id z) in H by solve_width
  | context [u32 ?z] => wrap_free z; rewrite (u32_id z) in H by solve_width
  | context [u64 ?z] => wrap_free z; rewrite (u64_id z) in H by solve_width
  end.

(** [case_if] splits the boolean test of the next [if] and turns it into a
    proposition [lia] reads. *)
Ltac bool_to_prop :=
  repeat match goal with
  | H : (_ =? _) = true |- _ => apply Z.eqb_eq in H
  | H : (_ =? _) = false |- _ => apply Z.eqb_neq in H
  | H : (_ <? _) = true |- _ => apply Z.ltb_lt in H
  | H : (_ <? _) = false |- _ => apply Z.ltb_ge in H
  | H : (_ <=? _) = true |- _ => apply Z.leb_le in H
  | H : (_ <=? _) = false |- _ => apply Z.leb_gt in H
  | H : (_ || _)%bool = true |- _ => apply orb_true_iff in H
  | H : (_ || _)%bool = false |- _ => apply orb_false_iff in H as [? ?]
  | H : (_ && _)%bool = true |- _ => apply andb_true_iff in H as [? ?]
  | H : (_ && _)%bool = false |- _ => apply andb_false_iff in H
  | H : negb _ = true |- _ => apply negb_true_iff in H
  | H : negb _ = false |- _ => apply negb_false_iff in H
  | H : bool_decide _ = true |- _ => apply bool_decide_eq_true in H
  | H : bool_decide _ = false |- _ => apply bool_decide_eq_false in H
  end.

Ltac case_if :=
  match goal with
  | |- context [if ?b then _ else _] =>
      let E := fresh "E" in destruct b eqn:E; bool_to_prop
  end.

Ltac case_if_in H :=
  match type of H with
  | context [if ?b then _ else _] =>
      let E := fresh "E" in destruct b eqn:E; bool_to_prop
  end.

(** ** Bit fields *)

Lemma lor_fields lo hi n :
  0 <= n -> 0 <= lo < 2 ^ n -> Z.lor lo (Z.shiftl hi n) = lo + hi * 2 ^ n.
Proof.
  intros Hn Hlo. pose proof (Z.add_lor_land lo (Z.shiftl hi n)) as E.
  assert (Z.land lo (Z.shiftl hi n) = 0) as E0.
  { apply Z.bits_inj'. intros m Hm. rewrite Z.land_spec, Z.testbit_0_l, Z.shiftl_spec by done.
    destruct (Z.lt_ge_cases m n); [rewrite (Z.testbit_neg_r hi) by lia; apply andb_false_r|].
    rewrite <- (Z.mod_small lo (2 ^ n)), Z.mod_pow2_bits_high by (done || lia). done. }
  rewrite Z.shiftl_mul_pow2 in * by done. lia.
Qed.

(** ** Strings *)

Lemma string_app_nil_r s : (s +:+ "")%string = s.
Proof. induction s as [|c s IH]; [done|]. exact (f_equal (String c) IH). Qed.

Lemma string_app_assoc s t u : ((s +:+ t) +:+ u)%string = (s +:+ (t +:+ u))%string.
Proof. induction s as [|c s IH]; [done|]. exact (f_equal (String c) IH). Qed.

Lemma string_length_app s t : String.length (s +:+ t) = (String.length s + String.length t)%nat.
Proof. induction s as [|c s IH]; [done|]. exact (f_equal S IH). Qed.

(** ** Ordered maps

    A [std::map] keyed by hashes or key ids is a [gmap]; its iteration visits the
    keys in increasing order. *)

Section InOrder.
Context {V : Type}.

Definition key_le (x y : N * V) : Prop := (x.1 <= y.1)%N.

#[export] Instance key_le_dec : RelDecision key_le.
Proof. intros x y. unfold key_le. apply _. Defined.

#[export] Instance key_le_total : Total key_le.
Proof. intros x y. unfold key_le. lia. Qed.

#[export] Instance key_le_trans : Transitive key_le.
Proof. intros x y z. unfold key_le. lia. Qed.

Definition in_order (m : gmap N V) : list (N * V) := merge_sort key_le (map_to_list m).

Lemma in_order_perm m : in_order m ≡ₚ map_to_list m.
Proof. apply merge_sort_Permutation. Qed.

Lemma elem_of_in_order m k v : (k, v) ∈ in_order m <-> m !! k = Some v.
Proof. rewrite in_order_perm. apply elem_of_map_to_list. Qed.

Lemma in_order_sorted m : StronglySorted key_le (in_order m).
Proof. apply (StronglySorted_merge_sort key_le). Qed.

Lemma in_order_NoDup m : NoDup (in_order m).*1.
Proof. rewrite in_order_perm. apply NoDup_fst_map_to_list. Qed.

Lemma list_to_map_in_order m : list_to_map (in_order m) = m.
Proof.
  rewrite <- (list_to_map_to_list m) at 2. symmetry. apply list_to_map_proper.
  - apply NoDup_fst_map_to_list.
  - symmetry. apply in_order_perm.
Qed.

Lemma in_order_length m : length (in_order m) = size m.
Proof. rewrite in_order_perm. by rewrite length_map_to_list. Qed.
End InOrder.

(** ** Sums over a map *)

Section msum.
Context {V : Type}.
Implicit Types (f : V -> Z) (m : gmap N V).

Definition msum f m : Z := map_fold (fun _ e acc => f e + acc) 0 m.

Lemma msum_empty f : msum f ∅ = 0.
Proof. apply map_fold_empty. Qed.

Lemma msum_new f m k e : m !! k = None -> msum f (<[k := e]> m) = f e + msum f m.
Proof. intros H. unfold msum. rewrite map_fold_insert_L; [done|intros; lia|done]. Qed.

Lemma msum_lookup f m k e : m !! k = Some e -> msum f m = f e + msum f (delete k m).
Proof.
  intros H. rewrite <- (insert_delete_id m k e H) at 1. by rewrite msum_new by apply lookup_delete_eq.
Qed.

Lemma msum_update f m k e e' : m !! k = Some e -> msum f (<[k := e']> m) = msum f m - f e + f e'.
Proof.
  intros H. rewrite <- insert_delete_eq, msum_new by apply lookup_delete_eq.
  rewrite (msum_lookup f m k e H). lia.
Qed.

Lemma msum_fmap f (g : V -> V) m : msum f (g <$> m) = msum (fun e => f (g e)) m.
Proof.
  induction m as [|k e m Hk IH] using map_ind; [by rewrite fmap_empty, !msum_empty|].
  rewrite fmap_insert, !msum_new by (by rewrite ?lookup_fmap, ?Hk). by rewrite IH.
Qed.

Lemma msum_mono f f' m :
  (forall k e, m !! k = Some e -> f e <= f' e) -> msum f m <= msum f' m.
Proof.
  induction m as [|k e m Hk IH] using map_ind; intros H; [by rewrite !msum_empty|].
  rewrite !msum_new by done. pose proof (H k e (lookup_insert_eq _ _ _)).
  assert (msum f m <= msum f' m); [|lia]. apply IH. intros j x Hj.
  apply (H j). rewrite lookup_insert_ne; [done|]. by intros ->; rewrite Hk in Hj.
Qed.

Lemma msum_ext f f' m :
  (forall k e, m !! k = Some e -> f e = f' e) -> msum f m = msum f' m.
Proof. intros H. apply Z.le_antisymm; apply msum_mono; intros; by rewrite (H _ _ ltac:(done)). Qed.

Lemma msum_zero m : msum (fun _ => 0) m = 0.
Proof.
  induction m as [|k e m Hk IH] using map_ind; [apply msum_empty|]. by rewrite msum_new, IH by done.
Qed.

Lemma msum_elem_le f m k e :
  (forall k e, m !! k = Some e -> 0 <= f e) -> m !! k = Some e -> f e <= msum f m.
Proof.
  intros Hf He. rewrite (msum_lookup f m k e He).
  assert (msum (fun _ => 0) (delete k m) <= msum f (delete k m)); [|rewrite msum_zero in *; lia].
  apply msum_mono. intros j x [_ Hx]%lookup_delete_Some. eauto.
Qed.

Lemma msum_scale c f m : msum (fun e => c * f e) m = c * msum f m.
Proof.
  induction m as [|k e m Hk IH] using map_ind; [rewrite !msum_empty; lia|].
  rewrite !msum_new, IH by done. lia.
Qed.
End msum.

(** ** Locks

    The managers guard their state with non-recursive mutexes (sync.h: [Mutex] is
    an annotated [std::mutex]).  An operation runs with the list of mutexes its
    thread already holds; locking one of them again never returns. *)

Inductive mutex := cs_validators | cs_delegations | cs_heartbeat | cs_peers.

#[export] Instance mutex_eq : EqDecision mutex.
Proof. solve_decision. Defined.

Inductive outcome (S A : Type) :=
  | Done (a : A) (s : S)
  | Deadlock.
Arguments Done {S A}.
Arguments Deadlock {S A}.

Definition locked (S A : Type) : Type := list mutex -> S -> outcome S A.

#[export] Instance locked_ret S : MRet (locked S) := fun A a _ s => Done a s.
#[export] Instance locked_bind S : MBind (locked S) := fun A B k m held s =>
  match m held s with
  | Done a s => k a held s
  | Deadlock => Deadlock
  end.

Definition get_state {S} : locked S S := fun _ s => Done s s.
Definition put_state {S} (s : S) : locked S () := fun _ _ => Done () s.

(** [LOCK(cs)] for the rest of the enclosing scope [body]. *)
Definition LOCK {S A} (cs : mutex) (body : locked S A) : locked S A := fun held s =>
  if bool_decide (cs ∈ held) then Deadlock else body (cs :: held) s.
