(* ===== verification/Params.v ===== *)
(** * Consensus parameters and the block subsidy

    [Params] is the part of [Consensus::Params] (src/src/consensus/params.h) that
    the modelled code reads, with its height-dependent accessors; [main_params]
    are the values of [CMainParams] (src/src/kernel/chainparams.cpp).
    [GetBlockSubsidy] and [GetTieredBlockSubsidy] are those of
    src/src/validation.cpp, with the issuance theorems. *)

From stdpp Require Import prelude.
From Stdlib Require Import ZArith Lia.
From S2P Require Import Prelude.

Open Scope Z_scope.

(** ** Amounts (consensus/amount.h) *)

Definition COIN : Z := 100000000.
Definition MAX_MONEY : Z := 107822406 * COIN + 25 * (COIN / 100).
Definition MoneyRange (nValue : Z) : bool := (0 <=? nValue) && (nValue <=? MAX_MONEY).

(** ** Parameters *)

Record Params := mkParams {
  nSubsidyHalvingInterval : Z;
  nSubsidyHalvingIntervalV2 : Z;
  QIP9Height : Z;
  nReduceBlocktimeHeight : Z;
  powLimit : list Z;
  posLimit : list Z;
  QIP9PosLimit : list Z;
  RBTPosLimit : list Z;
  fPowAllowMinDifficultyBlocks : bool;
  enforce_BIP94 : bool;
  fPowNoRetargeting : bool;
  fPoSNoRetargeting : bool;
  nPowTargetSpacing : Z;
  nRBTPowTargetSpacing : Z;
  nPowTargetTimespan : Z;
  nPowTargetTimespanV2 : Z;
  nRBTPowTargetTimespan : Z;
  nLastBigReward : Z;
  nMPoSRewardRecipients : Z;
  nStakeTimestampMask : Z;
  nRBTStakeTimestampMask : Z;
  nBlocktimeDownscaleFactor : Z;
  nCoinbaseMaturity : Z;
  nRBTCoinbaseMaturity : Z;
  nMinValidatorStake : Z;
  nHeartbeatInterval : Z;
  nUptimeWindow : Z;
  nBronzeUptimeThreshold : Z;
  nSilverUptimeThreshold : Z;
  nGoldUptimeThreshold : Z;
  nPlatinumUptimeThreshold : Z;
  nBronzeRewardMultiplier : Z;
  nSilverRewardMultiplier : Z;
  nGoldRewardMultiplier : Z;
  nPlatinumRewardMultiplier : Z;
  nBaseBlockReward : Z;
  nTrustTierActivationHeight : Z
}.

Section Accessors.
Context (p : Params).

Definition StakeTimestampMask (height : Z) : Z :=
  if height <? nReduceBlocktimeHeight p then nStakeTimestampMask p else nRBTStakeTimestampMask p.

Definition SubsidyHalvingInterval (height : Z) : Z :=
  if height <? nReduceBlocktimeHeight p
  then nSubsidyHalvingInterval p else nSubsidyHalvingIntervalV2 p.

Definition BlocktimeDownscaleFactor (height : Z) : Z :=
  if height <? nReduceBlocktimeHeight p then 1 else nBlocktimeDownscaleFactor p.

Definition TargetSpacing (height : Z) : Z :=
  if height <? nReduceBlocktimeHeight p then nPowTargetSpacing p else nRBTPowTargetSpacing p.

Definition SubsidyHalvingWeight (height : Z) : Z :=
  if height <=? nLastBigReward p then 0
  else
    let blocktimeDownscaleFactor := i32 (BlocktimeDownscaleFactor height) in
    let blockCount := i32 (height - nLastBigReward p) in
    let beforeDownscale :=
      if blocktimeDownscaleFactor =? 1 then 0
      else i32 (i32 (nReduceBlocktimeHeight p - nLastBigReward p) - 1) in
    i32 (i32 (blockCount - beforeDownscale) + i32 (beforeDownscale * blocktimeDownscaleFactor)).

Definition TargetTimespan (height : Z) : Z :=
  if height <? QIP9Height p then nPowTargetTimespan p
  else if height <? nReduceBlocktimeHeight p
       then nPowTargetTimespanV2 p else nRBTPowTargetTimespan p.

Definition DifficultyAdjustmentInterval (height : Z) : Z :=
  Z.quot (TargetTimespan height) (TargetSpacing height).

Definition CoinbaseMaturity (height : Z) : Z :=
  if height <? nReduceBlocktimeHeight p then nCoinbaseMaturity p else nRBTCoinbaseMaturity p.
End Accessors.

(** A [uint256] constant written in hex shows its bytes most significant first;
    in memory (and in the model) the least significant byte comes first. *)
Definition uint256_of_Z (z : Z) : list Z :=
  map (fun i => Z.shiftr z (8 * Z.of_nat i) mod 256) (seq 0 32).

Definition main_params : Params := {|
  nSubsidyHalvingInterval := 126000000;
  nSubsidyHalvingIntervalV2 := 126000000;
  QIP9Height := 0;
  nReduceBlocktimeHeight := 0;
  powLimit := uint256_of_Z 0x0000ffffffffffffffffffffffffffffffffffffffffffffffffffffffffffff;
  posLimit := uint256_of_Z 0x00000000ffffffffffffffffffffffffffffffffffffffffffffffffffffffff;
  QIP9PosLimit := uint256_of_Z 0x0000000000001fffffffffffffffffffffffffffffffffffffffffffffffffff;
  RBTPosLimit := uint256_of_Z 0x0000000fffffffffffffffffffffffffffffffffffffffffffffffffffffffff;
  fPowAllowMinDifficultyBlocks := false;
  enforce_BIP94 := false;
  fPowNoRetargeting := true;
  fPoSNoRetargeting := false;
  nPowTargetSpacing := 1;
  nRBTPowTargetSpacing := 1;
  nPowTargetTimespan := 600;
  nPowTargetTimespanV2 := 600;
  nRBTPowTargetTimespan := 600;
  nLastBigReward := 0;
  nMPoSRewardRecipients := 10;
  nStakeTimestampMask := 0;
  nRBTStakeTimestampMask := 0;
  nBlocktimeDownscaleFactor := 1;
  nCoinbaseMaturity := 600;
  nRBTCoinbaseMaturity := 600;
  nMinValidatorStake := 100000 * COIN;
  nHeartbeatInterval := 600;
  nUptimeWindow := 2592000;
  nBronzeUptimeThreshold := 950;
  nSilverUptimeThreshold := 970;
  nGoldUptimeThreshold := 990;
  nPlatinumUptimeThreshold := 999;
  nBronzeRewardMultiplier := 100;
  nSilverRewardMultiplier := 125;
  nGoldRewardMultiplier := 150;
  nPlatinumRewardMultiplier := 200;
  nBaseBlockReward := 8333333;
  nTrustTierActivationHeight := 1001
|}.

(** ** Block subsidy (validation.cpp) *)

Definition GetBlockSubsidy (nHeight : Z) (p : Params) : Z :=
  if nHeight <=? nLastBigReward p then i64 (20000 * COIN)
  else
    let nBaseReward := nBaseBlockReward p in
    let subsidyHalvingInterval := SubsidyHalvingInterval p nHeight in
    let subsidyHalvingWeight := SubsidyHalvingWeight p nHeight in
    let halvings := Z.quot (i32 (subsidyHalvingWeight - 1)) subsidyHalvingInterval in
    if 7 <=? halvings then 0
    else Z.shiftr nBaseReward halvings.

Definition GetTieredBlockSubsidy (nHeight : Z) (p : Params) (tierMultiplier : Z) : Z :=
  let nBaseSubsidy := GetBlockSubsidy nHeight p in
  if (0 <? tierMultiplier) && (nTrustTierActivationHeight p <=? nHeight)
  then Z.quot (i64 (nBaseSubsidy * tierMultiplier)) 100
  else nBaseSubsidy.

(** ** The main-network schedule *)

(** The reference schedule: [8333333] satoshis, halved every 126,000,000 blocks,
    seven times. *)
Definition schedule (h : Z) : Z :=
  let k := (h - 1) / 126000000 in
  if 7 <=? k then 0 else 8333333 / 2 ^ k.

Lemma main_halving_weight h :
  0 < h -> in_i32 h -> SubsidyHalvingWeight main_params h = h.
Proof.
  intros Hh Hr. unfold SubsidyHalvingWeight, BlocktimeDownscaleFactor. cbn.
  destruct (Z.leb_spec h 0); [lia|]. destruct (Z.ltb_spec h 0); [lia|].
  change (i32 1 =? 1) with true. cbv iota. rewrite Z.sub_0_r, Z.mul_0_l.
  change (i32 0) with 0. no_wrap. lia.
Qed.

Lemma main_subsidy_base h :
  0 < h -> in_i32 h -> GetBlockSubsidy h main_params = schedule h.
Proof.
  intros Hh Hr. unfold GetBlockSubsidy, schedule. rewrite main_halving_weight by done.
  cbn [nLastBigReward main_params nBaseBlockReward].
  destruct (Z.leb_spec h 0); [lia|].
  replace (SubsidyHalvingInterval main_params h) with 126000000
    by (unfold SubsidyHalvingInterval; cbn; by destruct (h <? 0)).
  no_wrap. rewrite Z.quot_div_nonneg by lia.
  rewrite Z.shiftr_div_pow2; [done|]. apply Z.div_pos; lia.
Qed.

(** Closed form of the coins issued by the schedule up to height [n]. *)
Definition era (n k : Z) : Z := Z.min (Z.max (n - 126000000 * k) 0) 126000000.
Definition issued_by (n : Z) : Z :=
  8333333 * era n 0 + 4166666 * era n 1 + 2083333 * era n 2 + 1041666 * era n 3
  + 520833 * era n 4 + 260416 * era n 5 + 130208 * era n 6.

Lemma era_step n j :
  0 <= n -> 0 <= j -> era (n + 1) j = era n j + (if j =? n / 126000000 then 1 else 0).
Proof.
  intros Hn Hj. unfold era.
  pose proof (Z.div_mod n 126000000 ltac:(lia)).
  pose proof (Z.mod_pos_bound n 126000000 ltac:(lia)).
  destruct (Z.eqb_spec j (n / 126000000)); lia.
Qed.

Lemma era_bounds n k : 0 <= era n k <= 126000000.
Proof. unfold era. lia. Qed.

Lemma schedule_step n : 0 <= n -> issued_by (n + 1) = issued_by n + schedule (n + 1).
Proof.
  intros Hn. unfold schedule, issued_by. rewrite Z.add_simpl_r, !era_step by lia.
  assert (Hk : 0 <= n / 126000000) by (apply Z.div_pos; lia).
  revert Hk. generalize (n / 126000000). intros k Hk.
  destruct (Z.leb_spec 7 k).
  - repeat match goal with |- context [?j =? k] => destruct (Z.eqb_spec j k); [lia|] end. lia.
  - assert (k = 0 \/ k = 1 \/ k = 2 \/ k = 3 \/ k = 4 \/ k = 5 \/ k = 6) as Hc by lia.
    destruct Hc as [->|[->|[->|[->|[->|[->| ->]]]]]];
    match goal with |- context [8333333 / 2 ^ ?j] =>
      let v := eval vm_compute in (8333333 / 2 ^ j) in change (8333333 / 2 ^ j) with v end;
    cbn [Z.eqb Pos.eqb]; lia.
Qed.

Lemma issued_by_bounds n : 0 <= issued_by n <= 2083593330000000.
Proof.
  unfold issued_by. pose proof (era_bounds n) as He.
  pose proof (He 0). pose proof (He 1). pose proof (He 2). pose proof (He 3).
  pose proof (He 4). pose proof (He 5). pose proof (He 6). lia.
Qed.

Lemma issued_by_final n : 882000000 <= n -> issued_by n = 2083593330000000.
Proof.
  intros Hn. assert (forall k, k <= 6 -> era n k = 126000000) as He by (intros; unfold era; lia).
  unfold issued_by. rewrite !He by lia. reflexivity.
Qed.

(** Coins issued by blocks [1 .. n], with the tier multiplier of each height. *)
Fixpoint issued (p : Params) (tier : Z -> Z) (n : nat) : Z :=
  match n with
  | O => 0
  | S m => issued p tier m + GetTieredBlockSubsidy (Z.of_nat n) p (tier (Z.of_nat n))
  end.

Lemma schedule_bounds h : 0 < h -> 0 <= schedule h <= 8333333.
Proof.
  intros Hh. unfold schedule.
  assert (0 <= (h - 1) / 126000000) by (apply Z.div_pos; lia).
  destruct (Z.leb_spec 7 ((h - 1) / 126000000)); [lia|].
  assert (0 < 2 ^ ((h - 1) / 126000000)) by (apply Z.pow_pos_nonneg; lia).
  split; [apply Z.div_pos; lia|]. apply Z.div_le_upper_bound; nia.
Qed.

Lemma tiered_main h t :
  0 < h -> in_i32 h -> 0 <= t <= 200 ->
  0 <= GetTieredBlockSubsidy h main_params t <= 2 * schedule h /\
  (t = 100 -> GetTieredBlockSubsidy h main_params t = schedule h).
Proof.
  intros Hh Hr Ht. unfold GetTieredBlockSubsidy. rewrite main_subsidy_base by done.
  pose proof (schedule_bounds h Hh). case_if; [|split; [lia|done]].
  no_wrap. rewrite Z.quot_div_nonneg by nia. split.
  - split; [apply Z.div_pos; nia|]. apply Z.div_le_upper_bound; nia.
  - intros ->. apply Z.div_mul. lia.
Qed.

(** On the main network every height that fits an [int] pays exactly the
    halving schedule: 8,333,333 satoshis halved (rounding down) every 126,000,000
    blocks and nothing from the eighth era on, although the code computes it
    through the halving weight, 32-bit arithmetic and a truncating division. *)
Theorem main_subsidy_schedule h :
  0 < h -> in_i32 h -> GetBlockSubsidy h main_params = schedule h.
Proof. apply main_subsidy_base. Qed.

Lemma main_subsidy_schedule_witness :
  GetBlockSubsidy 126000000 main_params = 8333333 /\
  GetBlockSubsidy 126000001 main_params = 4166666 /\
  GetBlockSubsidy 882000001 main_params = 0.
Proof.
  split_and!; (etrans; [apply main_subsidy_schedule; unfold_width; lia | reflexivity]).
Defined.

(** At the base rate (tier multiplier 100) the coins issued by blocks
    [1 .. n] never exceed 20,835,933.3 WATTx, and equal it from height
    882,000,000 on: the supply is capped and the cap is reached. *)
Theorem main_supply n :
  Z.of_nat n <= 2147483647 ->
  0 <= issued main_params (fun _ => 100) n <= 2083593330000000 /\
  (882000000 <= Z.of_nat n -> issued main_params (fun _ => 100) n = 2083593330000000).
Proof.
  intros Hn.
  assert (issued main_params (fun _ => 100) n = issued_by (Z.of_nat n)) as ->.
  { induction n as [|n IH]; [reflexivity|]. cbn [issued]. rewrite IH by lia.
    rewrite (proj2 (tiered_main (Z.of_nat (S n)) 100 ltac:(lia) ltac:(solve_width) ltac:(lia))) by done.
    rewrite Nat2Z.inj_succ, <- Z.add_1_r. symmetry. apply schedule_step. lia. }
  split; [apply issued_by_bounds|]. intros. by apply issued_by_final.
Qed.

Lemma main_supply_witness :
  issued main_params (fun _ => 100) (Z.to_nat 882000000) = 2083593330000000.
Proof.
  assert (Z.of_nat (Z.to_nat 882000000) = 882000000) as E by (rewrite Z2Nat.id; lia).
  apply (main_supply (Z.to_nat 882000000)); rewrite E; lia.
Defined.

(** Whatever tier multiplier of at most 200 each block gets, the coins issued
    up to any [int] height stay within [MoneyRange]: the trust-tier bonus cannot
    break the supply sanity bound and the 64-bit product never wraps. *)
Theorem tiered_supply_in_money_range tier n :
  Z.of_nat n <= 2147483647 ->
  (forall h, 0 <= tier h <= 200) ->
  MoneyRange (issued main_params tier n) = true.
Proof.
  intros Hn Ht.
  assert (0 <= issued main_params tier n <= 2 * issued_by (Z.of_nat n)) as [H0 H1].
  { induction n as [|n IH]; [done|]. specialize (IH ltac:(lia)). cbn [issued].
    pose proof (proj1 (tiered_main (Z.of_nat (S n)) (tier (Z.of_nat (S n)))
                         ltac:(lia) ltac:(solve_width) (Ht _))).
    rewrite Nat2Z.inj_succ, <- Z.add_1_r in *. rewrite schedule_step by lia. lia. }
  pose proof (issued_by_bounds (Z.of_nat n)).
  unfold MoneyRange. apply andb_true_iff. split; apply Z.leb_le; [lia|].
  replace MAX_MONEY with 10782240625000000 by reflexivity. lia.
Qed.

Lemma tiered_supply_in_money_range_witness :
  MoneyRange (issued main_params (fun h => if h <? 2000000 then 200 else 125) (Z.to_nat 2000000000)) = true.
Proof.
  apply tiered_supply_in_money_range.
  - assert (Z.of_nat (Z.to_nat 2000000000) = 2000000000) as -> by (rewrite Z2Nat.id; lia). lia.
  - intros h. destruct (h <? 2000000); lia.
Defined.
