(* ===== verification/ArithUint256.v ===== *)
(** * 256-bit unsigned arithmetic

    [base_uint<256>] and [arith_uint256] of src/src/arith_uint256.{h,cpp}: a number
    is its eight 32-bit limbs, least significant first, and every operator is the
    limb loop of the source.  [val] reads the limbs as an integer; the refinement
    theorems say that each operator computes the corresponding operation of [Z]
    modulo [2^256], that [/=] is the floor division the shift-and-subtract loop is
    meant to be, and that the compact encoding behaves as documented. *)

From stdpp Require Import prelude list.
From Stdlib Require Import ZArith Lia.
From S2P Require Import Prelude.

Open Scope Z_scope.

(** ** Representation *)

Definition WIDTH : nat := 8.

(** [pn[WIDTH]], least significant limb first. *)
Abbreviation base_uint := (list Z).

Definition limb (a : base_uint) (i : nat) : Z := nth i a 0.

Fixpoint val (a : base_uint) : Z :=
  match a with
  | [] => 0
  | x :: t => x + 4294967296 * val t
  end.

Definition limbs_ok (a : base_uint) : Prop := Forall in_u32 a.
Definition wf (a : base_uint) : Prop := length a = WIDTH /\ limbs_ok a.

(** ** Construction *)

Definition zero : base_uint := repeat 0 WIDTH.

Definition of_u64 (b : Z) : base_uint :=
  u32 b :: u32 (Z.shiftr b 32) :: repeat 0 (WIDTH - 2).

(** ** Operators *)

Definition bnot (a : base_uint) : base_uint := map (fun x => 4294967295 - x) a.

(** [operator++]: the carry runs up while a limb becomes zero. *)
Fixpoint incr (a : base_uint) : base_uint :=
  match a with
  | [] => []
  | x :: t => if u32 (x + 1) =? 0 then u32 (x + 1) :: incr t else u32 (x + 1) :: t
  end.

Definition neg (a : base_uint) : base_uint := incr (bnot a).

(** The loop of [operator+=]; the loop index is the position in the list. *)
Fixpoint add_loop (carry : Z) (a b : base_uint) : base_uint :=
  match a, b with
  | x :: a', y :: b' =>
      let n := u64 (u64 (carry + x) + y) in
      Z.land n 0xffffffff :: add_loop (Z.shiftr n 32) a' b'
  | _, _ => []
  end.

Definition add (a b : base_uint) : base_uint := add_loop 0 a b.
Definition sub (a b : base_uint) : base_uint := add a (neg b).

(** [operator*=(uint32_t)]. *)
Fixpoint mul32_loop (carry b32 : Z) (a : base_uint) : base_uint :=
  match a with
  | [] => []
  | x :: a' =>
      let n := u64 (carry + u64 (b32 * x)) in
      Z.land n 0xffffffff :: mul32_loop (Z.shiftr n 32) b32 a'
  end.

Definition mul32 (a : base_uint) (b32 : Z) : base_uint := mul32_loop 0 b32 a.

(** [operator*=(const base_uint&)]: the inner loop for [pn[j]] adds [pn[j] * b]
    into the accumulator from limb [j] on; the outer loop then moves to the next
    limb, leaving limb [j] final. *)
Fixpoint mul_row (carry x : Z) (acc b : base_uint) : base_uint :=
  match acc, b with
  | r :: acc', y :: b' =>
      let n := u64 (u64 (carry + r) + u64 (x * y)) in
      Z.land n 0xffffffff :: mul_row (Z.shiftr n 32) x acc' b'
  | _, _ => []
  end.

Fixpoint mul_outer (pn acc b : base_uint) : base_uint :=
  match pn with
  | [] => []
  | x :: pn' =>
      match mul_row 0 x acc b with
      | [] => []
      | h :: rest => h :: mul_outer pn' rest b
      end
  end.

Definition mul (a b : base_uint) : base_uint := mul_outer a zero b.

(** [pn[i] |= v]. *)
Definition or_at (pn : base_uint) (i : nat) (v : Z) : base_uint :=
  <[i := Z.lor (limb pn i) v]> pn.

(** [operator<<=] and [operator>>=]. *)
Definition shl (a : base_uint) (shift : Z) : base_uint :=
  let k := Z.to_nat (shift / 32) in
  let s := shift mod 32 in
  foldl (fun pn i =>
    let pn1 :=
      if ((i + k + 1 <? WIDTH)%nat && negb (s =? 0))%bool
      then or_at pn (i + k + 1) (Z.shiftr (limb a i) (32 - s)) else pn in
    if (i + k <? WIDTH)%nat
    then or_at pn1 (i + k) (u32 (Z.shiftl (limb a i) s)) else pn1)
    zero (seq 0 WIDTH).

Definition shr (a : base_uint) (shift : Z) : base_uint :=
  let k := Z.to_nat (shift / 32) in
  let s := shift mod 32 in
  foldl (fun pn i =>
    let pn1 :=
      if ((k + 1 <=? i)%nat && negb (s =? 0))%bool
      then or_at pn (i - k - 1) (u32 (Z.shiftl (limb a i) (32 - s))) else pn in
    if (k <=? i)%nat
    then or_at pn1 (i - k) (Z.shiftr (limb a i) s) else pn1)
    zero (seq 0 WIDTH).

(** [CompareTo]: from the most significant limb down. *)
Fixpoint compare_from (i : nat) (a b : base_uint) : Z :=
  match i with
  | O => 0
  | S j =>
      if limb a j <? limb b j then -1
      else if limb b j <? limb a j then 1
      else compare_from j a b
  end.

Definition CompareTo (a b : base_uint) : Z := compare_from WIDTH a b.
Definition gt (a b : base_uint) : bool := 0 <? CompareTo a b.
Definition lt (a b : base_uint) : bool := CompareTo a b <? 0.
Definition ge (a b : base_uint) : bool := 0 <=? CompareTo a b.
Definition le (a b : base_uint) : bool := CompareTo a b <=? 0.

(** [EqualTo]. *)
Definition EqualTo (a : base_uint) (b : Z) : bool :=
  if existsb (fun i => negb (limb a i =? 0)) (rev (seq 2 (WIDTH - 2))) then false
  else if negb (limb a 1 =? Z.shiftr b 32) then false
  else if negb (limb a 0 =? Z.land b 0xffffffff) then false
  else true.

(** [bits]: position of the highest set bit plus one. *)
Fixpoint bits_limb (nbits : nat) (x : Z) : Z :=
  match nbits with
  | O => 0
  | S m => if negb (Z.land x (Z.shiftl 1 (Z.of_nat nbits)) =? 0) then Z.of_nat nbits
           else bits_limb m x
  end.

Fixpoint bits_from (i : nat) (a : base_uint) : Z :=
  match i with
  | O => 0
  | S pos =>
      if negb (limb a pos =? 0)
      then 32 * Z.of_nat pos + bits_limb 31 (limb a pos) + 1
      else bits_from pos a
  end.

Definition bits (a : base_uint) : Z := bits_from WIDTH a.

(** [operator/=]: [None] is the [uint_error] thrown on division by zero. *)
Fixpoint div_loop (n : nat) (num dv q : base_uint) : base_uint :=
  let q' :=
    if ge num dv
    then or_at q (n / 32) (u32 (Z.shiftl 1 (Z.of_nat n mod 32))) else q in
  let num' := if ge num dv then sub num dv else num in
  match n with
  | O => q'
  | S m => div_loop m num' (shr dv 1) q'
  end.

Definition div (a b : base_uint) : option base_uint :=
  let num_bits := bits a in
  let div_bits := bits b in
  if div_bits =? 0 then None
  else if num_bits <? div_bits then Some zero
  else
    let shift := num_bits - div_bits in
    Some (div_loop (Z.to_nat shift) a (shl b shift) zero).

Definition GetLow64 (a : base_uint) : Z := Z.lor (limb a 0) (Z.shiftl (limb a 1) 32).

Lemma EqualTo_0 a : wf a -> EqualTo a 0 = (val a =? 0).
Proof.
  intros [Hl Ho]. destruct a as [|x0 [|x1 [|x2 [|x3 [|x4 [|x5 [|x6 [|x7 [|]]]]]]]]]; try done.
  unfold limbs_ok in Ho. rewrite !Forall_cons in Ho. unfold in_u32 in Ho.
  unfold EqualTo, limb, WIDTH. cbn -[Z.eqb Z.mul Z.add]. change (Z.shiftr 0 32) with 0. change (Z.land 0 4294967295) with 0.
  destruct Ho as (? & ? & ? & ? & ? & ? & ? & ? & _).
  destruct (Z.eqb_spec x7 0), (Z.eqb_spec x6 0), (Z.eqb_spec x5 0), (Z.eqb_spec x4 0), (Z.eqb_spec x3 0),
    (Z.eqb_spec x2 0), (Z.eqb_spec x1 0), (Z.eqb_spec x0 0); cbn -[Z.eqb Z.mul Z.add];
    symmetry; (apply Z.eqb_eq || apply Z.eqb_neq); lia.
Qed.

(** ** Compact encoding *)

Definition SetCompact (nCompact : Z) : base_uint * bool * bool :=
  let nSize := Z.shiftr nCompact 24 in
  let nWord := Z.land nCompact 0x007fffff in
  let nWord' := if nSize <=? 3 then Z.shiftr nWord (8 * (3 - nSize)) else nWord in
  let v := if nSize <=? 3 then of_u64 nWord' else shl (of_u64 nWord) (8 * (nSize - 3)) in
  let fNegative := negb (nWord' =? 0) && negb (Z.land nCompact 0x00800000 =? 0) in
  let fOverflow :=
    negb (nWord' =? 0) &&
    ((34 <? nSize) || ((0xff <? nWord') && (33 <? nSize)) || ((0xffff <? nWord') && (32 <? nSize))) in
  (v, fNegative, fOverflow).

Definition SetCompact_value (nCompact : Z) : base_uint := (SetCompact nCompact).1.1.

Definition GetCompact (a : base_uint) (fNegative : bool) : Z :=
  let nSize := Z.quot (bits a + 7) 8 in
  let nCompact :=
    if nSize <=? 3 then u32 (u64 (Z.shiftl (GetLow64 a) (8 * (3 - nSize))))
    else u32 (GetLow64 (shr a (8 * (nSize - 3)))) in
  let big := negb (Z.land nCompact 0x00800000 =? 0) in
  let nCompact := if big then Z.shiftr nCompact 8 else nCompact in
  let nSize := if big then nSize + 1 else nSize in
  let nCompact := Z.lor nCompact (u32 (Z.shiftl nSize 24)) in
  Z.lor nCompact (if fNegative && negb (Z.land nCompact 0x007fffff =? 0) then 0x00800000 else 0).

(** ** Conversion with the byte blob [uint256] *)

Definition ReadLE32 (p : list Z) : Z :=
  Z.lor (Z.lor (Z.lor (nth 0 p 0) (Z.shiftl (nth 1 p 0) 8)) (Z.shiftl (nth 2 p 0) 16))
        (Z.shiftl (nth 3 p 0) 24).

Definition WriteLE32 (x : Z) : list Z :=
  map (fun i => Z.land (Z.shiftr x (8 * Z.of_nat i)) 0xff) (seq 0 4).

Definition UintToArith256 (a : list Z) : base_uint :=
  map (fun x => ReadLE32 (drop (4 * x) a)) (seq 0 WIDTH).

Definition ArithToUint256 (a : base_uint) : list Z :=
  flat_map (fun x => WriteLE32 (limb a x)) (seq 0 WIDTH).

Definition blob_ok (a : list Z) : Prop := length a = 32%nat /\ Forall (fun x => 0 <= x < 256) a.

(** ** Values of limb lists *)

Definition B : Z := 4294967296.

Lemma val_cons x a : val (x :: a) = x + B * val a.
Proof. reflexivity. Qed.

Lemma land_ones32 n : Z.land n 0xffffffff = n mod B.
Proof. change 0xffffffff with (Z.ones 32). by rewrite Z.land_ones. Qed.

Lemma shiftr32 n : Z.shiftr n 32 = n / B.
Proof. by rewrite Z.shiftr_div_pow2. Qed.

Lemma val_bounds a : limbs_ok a -> 0 <= val a < B ^ Z.of_nat (length a).
Proof.
  induction 1 as [|x a Hx _ IH]; [done|].
  cbn [length]. rewrite val_cons, Nat2Z.inj_succ, Z.pow_succ_r by lia.
  unfold in_u32 in Hx. change 4294967296 with B in Hx. nia.
Qed.

Lemma val_wf_bounds a : wf a -> 0 <= val a < 2 ^ 256.
Proof. intros [Hl Ho]. apply val_bounds in Ho. rewrite Hl in Ho. exact Ho. Qed.

Lemma mod_in_u32 n : in_u32 (n mod B).
Proof. apply Z.mod_pos_bound. reflexivity. Qed.

(** One step of a carry loop: the low limb of [x] stays, the rest is carried. *)
Lemma carry_step x y M :
  0 < M -> x mod B + B * ((x / B + y) mod M) = (x + B * y) mod (B * M).
Proof.
  intros HM. rewrite Z.rem_mul_r by (unfold B; lia).
  rewrite (Z.mul_comm B y), Z.mod_add, Z.div_add by (unfold B; lia). reflexivity.
Qed.

Lemma pow_B_pos n : 0 < B ^ Z.of_nat n.
Proof. apply Z.pow_pos_nonneg; unfold B; lia. Qed.

Lemma pow_B_S n : B ^ Z.of_nat (S n) = B * B ^ Z.of_nat n.
Proof. rewrite Nat2Z.inj_succ, Z.pow_succ_r; lia. Qed.

#[export] Hint Resolve mod_in_u32 pow_B_pos : wattx.

(** ** Carry loops *)

Lemma add_loop_spec a : forall b carry,
  limbs_ok a -> limbs_ok b -> length a = length b -> 0 <= carry <= 1 ->
  let r := add_loop carry a b in
  length r = length a /\ limbs_ok r /\
  val r = (carry + val a + val b) mod B ^ Z.of_nat (length a).
Proof.
  induction a as [|x a IH]; intros [|y b] carry Ha Hb Hl Hc; try done.
  { cbn. rewrite Z.mod_1_r. by repeat split; try constructor. }
  apply Forall_cons_1 in Ha as [Hx Ha]. apply Forall_cons_1 in Hb as [Hy Hb].
  cbn [add_loop length]. no_wrap. rewrite land_ones32, shiftr32.
  set (n := carry + x + y).
  assert (0 <= n / B <= 1) as Hn.
  { unfold in_u32, B in *. split; [apply Z.div_pos; lia|].
    assert (n / 4294967296 < 2) by (apply Z.div_lt_upper_bound; lia). lia. }
  destruct (IH b (n / B) Ha Hb ltac:(cbn in Hl; lia) Hn) as (L & O & V).
  split; [by rewrite L|]. split; [constructor; auto with wattx|].
  rewrite !val_cons, V, pow_B_S, <- Z.add_assoc, carry_step by auto with wattx.
  f_equal. unfold n. ring.
Qed.

Lemma bnot_spec a :
  limbs_ok a ->
  length (bnot a) = length a /\ limbs_ok (bnot a) /\
  val (bnot a) = B ^ Z.of_nat (length a) - 1 - val a.
Proof.
  induction 1 as [|x a Hx Ha (L & O & V)]; [by repeat split; try constructor|].
  split; [cbn; f_equal; exact L|]. split.
  { constructor; [unfold in_u32 in *; lia|exact O]. }
  change (bnot (x :: a)) with ((4294967295 - x) :: bnot a).
  cbn [length]. rewrite !val_cons, V, pow_B_S. change 4294967295 with (B - 1). ring.
Qed.

Lemma incr_spec a :
  limbs_ok a ->
  length (incr a) = length a /\ limbs_ok (incr a) /\
  val (incr a) = (val a + 1) mod B ^ Z.of_nat (length a).
Proof.
  induction 1 as [|x a Hx Ha (L & O & V)]; [by repeat split; try constructor|].
  pose proof (val_bounds a Ha) as Hv. pose proof (pow_B_pos (length a)).
  cbn [incr length]. rewrite pow_B_S. unfold in_u32 in Hx.
  destruct (Z.eqb_spec (u32 (x + 1)) 0) as [E|E]; rewrite ?E.
  - assert (x = B - 1) as ->.
    { destruct (Z.eq_dec x (B - 1)); [done|]. rewrite u32_id in E; unfold in_u32, B in *; lia. }
    cbn [length]. rewrite L, !val_cons, V. split; [done|]. split; [constructor; [unfold in_u32; lia|done]|].
    rewrite Z.add_0_l, <- Z.mul_mod_distr_l by (unfold B; lia). f_equal. ring.
  - assert (x + 1 < B).
    { destruct (Z.eq_dec x (B - 1)) as [->|]; [done|]. unfold B in *; lia. }
    rewrite u32_id by (unfold in_u32, B in *; lia).
    split; [done|]. split; [constructor; [unfold in_u32, B in *; lia|done]|].
    rewrite !val_cons, Z.mod_small; [ring|nia].
Qed.

Lemma mul32_loop_spec b32 a : in_u32 b32 -> forall carry,
  limbs_ok a -> in_u32 carry ->
  let r := mul32_loop carry b32 a in
  length r = length a /\ limbs_ok r /\
  val r = (carry + b32 * val a) mod B ^ Z.of_nat (length a).
Proof.
  intros Hb. induction a as [|x a IH]; intros carry Ha Hc.
  { cbn. rewrite Z.mod_1_r. by repeat split; try constructor. }
  apply Forall_cons_1 in Ha as [Hx Ha]. cbn [mul32_loop length].
  assert (0 <= b32 * x <= (B - 1) * (B - 1)) by (unfold in_u32, B in *; nia).
  rewrite (u64_id (b32 * x)) by (unfold in_u64, B in *; lia).
  rewrite u64_id by (unfold in_u64, in_u32, B in *; lia).
  rewrite land_ones32, shiftr32. set (n := carry + b32 * x).
  assert (in_u32 (n / B)) as Hn.
  { unfold in_u32, B in *. split; [apply Z.div_pos; lia|]. apply Z.div_lt_upper_bound; lia. }
  destruct (IH (n / B) Ha Hn) as (L & O & V).
  split; [by rewrite L|]. split; [constructor; auto with wattx|].
  rewrite !val_cons, V, pow_B_S, carry_step by auto with wattx. f_equal. unfold n. ring.
Qed.

Lemma mul_row_spec x acc : in_u32 x -> forall b carry,
  limbs_ok acc -> limbs_ok b -> (length acc <= length b)%nat -> in_u32 carry ->
  let r := mul_row carry x acc b in
  length r = length acc /\ limbs_ok r /\
  val r = (carry + val acc + x * val b) mod B ^ Z.of_nat (length acc).
Proof.
  intros Hx. induction acc as [|r acc IH]; intros b carry Ha Hb Hl Hc.
  { destruct b; cbn; rewrite Z.mod_1_r; by repeat split; try constructor. }
  destruct b as [|y b]; [cbn in Hl; lia|].
  apply Forall_cons_1 in Ha as [Hr Ha]. apply Forall_cons_1 in Hb as [Hy Hb].
  cbn [mul_row length].
  assert (0 <= x * y <= (B - 1) * (B - 1)) by (unfold in_u32, B in *; nia).
  rewrite (u64_id (x * y)) by (unfold in_u64, B in *; lia).
  rewrite (u64_id (carry + r)) by (unfold in_u64, in_u32, B in *; lia).
  rewrite u64_id by (unfold in_u64, in_u32, B in *; lia).
  rewrite land_ones32, shiftr32. set (n := carry + r + x * y).
  assert (in_u32 (n / B)) as Hn.
  { unfold in_u32, B in *. split; [apply Z.div_pos; lia|]. apply Z.div_lt_upper_bound; lia. }
  destruct (IH b (n / B) Ha Hb ltac:(cbn in Hl; lia) Hn) as (L & O & V).
  split; [by rewrite L|]. split; [constructor; auto with wattx|].
  rewrite !val_cons, V, pow_B_S, <- Z.add_assoc, carry_step by auto with wattx.
  f_equal. unfold n. ring.
Qed.

Lemma mul_outer_spec pn b : limbs_ok b -> forall acc,
  limbs_ok pn -> limbs_ok acc -> length pn = length acc -> (length acc <= length b)%nat ->
  let r := mul_outer pn acc b in
  length r = length acc /\ limbs_ok r /\
  val r = (val acc + val pn * val b) mod B ^ Z.of_nat (length acc).
Proof.
  intros Hb. induction pn as [|x pn IH]; intros acc Hp Ha Hl Hlb.
  { destruct acc; [|done]. cbn. rewrite Z.mod_1_r. by repeat split; try constructor. }
  apply Forall_cons_1 in Hp as [Hx Hp]. cbn [mul_outer].
  destruct (mul_row_spec x acc Hx b 0 Ha Hb Hlb ltac:(unfold in_u32; lia)) as (L & O & V).
  destruct acc as [|r acc]; [done|]. destruct (mul_row 0 x (r :: acc) b) as [|h rest]; [done|].
  apply Forall_cons_1 in O as [Hh O]. cbn [length] in *.
  destruct (IH rest Hp O ltac:(lia) ltac:(lia)) as (L' & O' & V').
  assert (length rest = length acc) as Hlen by lia.
  split; [by rewrite L'|]. split; [by constructor|].
  rewrite pow_B_S, Z.add_0_l in V. rewrite pow_B_S.
  set (W := val (r :: acc) + x * val b) in *.
  replace (val (r :: acc) + val (x :: pn) * val b) with (W + B * (val pn * val b))
    by (unfold W; rewrite (val_cons x); ring).
  rewrite <- carry_step by auto with wattx. rewrite val_cons, V', Hlen.
  rewrite val_cons, Z.rem_mul_r in V by (auto with wattx; unfold B; lia).
  assert (h = W mod B /\ val rest = (W / B) mod B ^ Z.of_nat (length acc)) as [-> ->].
  { pose proof (Z.mod_pos_bound W B ltac:(unfold B; lia)). unfold in_u32 in Hh. unfold B in *. lia. }
  f_equal. f_equal. by rewrite Z.add_mod_idemp_l by (pose proof (pow_B_pos (length acc)); lia).
Qed.

(** ** The operators on well-formed numbers *)

Lemma pow_B_width : B ^ Z.of_nat WIDTH = 2 ^ 256.
Proof. reflexivity. Qed.

Lemma wf_zero : wf zero /\ val zero = 0.
Proof. split; [split; [done|]|done]. repeat constructor; unfold in_u32; lia. Qed.

Lemma wf_of_u64 b : in_u64 b -> wf (of_u64 b) /\ val (of_u64 b) = b.
Proof.
  intros Hb. unfold of_u64. rewrite shiftr32.
  assert (in_u32 (b / B)) as Hh.
  { unfold in_u32, in_u64, B in *. split; [apply Z.div_pos; lia|]. apply Z.div_lt_upper_bound; lia. }
  rewrite (u32_id (b / B)) by done. split.
  - split; [done|]. constructor; [apply u32_range|]. constructor; [done|].
    repeat constructor; unfold in_u32; lia.
  - cbn -[Z.mul B u32]. unfold u32. change 4294967296 with B.
    pose proof (Z.div_mod b B ltac:(unfold B; lia)). lia.
Qed.

Lemma add_spec a b : wf a -> wf b -> wf (add a b) /\ val (add a b) = (val a + val b) mod 2 ^ 256.
Proof.
  intros [La Oa] [Lb Ob].
  destruct (add_loop_spec a b 0 Oa Ob ltac:(congruence) ltac:(lia)) as (L & O & V).
  rewrite La in *. by repeat split.
Qed.

Lemma neg_spec a : wf a -> wf (neg a) /\ val (neg a) = (- val a) mod 2 ^ 256.
Proof.
  intros [La Oa]. destruct (bnot_spec a Oa) as (L1 & O1 & V1).
  destruct (incr_spec (bnot a) O1) as (L2 & O2 & V2). unfold neg.
  rewrite L1, La in *. repeat split; [done|done|].
  rewrite V2, V1, pow_B_width.
  replace (2 ^ 256 - 1 - val a + 1) with (- val a + 1 * 2 ^ 256) by ring. by rewrite Z.mod_add.
Qed.

Lemma sub_spec a b : wf a -> wf b -> wf (sub a b) /\ val (sub a b) = (val a - val b) mod 2 ^ 256.
Proof.
  intros Ha Hb. destruct (neg_spec b Hb) as [Hn Vn].
  destruct (add_spec a (neg b) Ha Hn) as [Hs Vs]. split; [done|].
  unfold sub. rewrite Vs, Vn. by rewrite Z.add_mod_idemp_r.
Qed.

Lemma mul32_spec a b : wf a -> in_u32 b -> wf (mul32 a b) /\ val (mul32 a b) = (val a * b) mod 2 ^ 256.
Proof.
  intros [La Oa] Hb.
  destruct (mul32_loop_spec b a Hb 0 Oa ltac:(unfold in_u32; lia)) as (L & O & V).
  rewrite La in *. repeat split; [done|done|]. unfold mul32. rewrite V. f_equal. ring.
Qed.

Lemma mul_spec a b : wf a -> wf b -> wf (mul a b) /\ val (mul a b) = (val a * val b) mod 2 ^ 256.
Proof.
  intros [La Oa] [Lb Ob]. destruct wf_zero as [[Lz Oz] Vz].
  destruct (mul_outer_spec a b Ob zero Oa Oz ltac:(by rewrite La) ltac:(by rewrite Lb)) as (L & O & V).
  rewrite Vz, Z.add_0_l in V. by repeat split.
Qed.

(** ** Limbs and bits *)

Lemma wf_limb a i : wf a -> in_u32 (limb a i).
Proof.
  intros [La Oa]. unfold limb. destruct (Nat.lt_ge_cases i (length a)).
  - unfold limbs_ok in Oa. rewrite Forall_forall in Oa. apply Oa, list_elem_of_In, nth_In. done.
  - rewrite nth_overflow by done. unfold in_u32. lia.
Qed.

Lemma wf_of_limbs a : length a = WIDTH -> (forall i, (i < WIDTH)%nat -> in_u32 (limb a i)) -> wf a.
Proof.
  intros Hl H. split; [done|]. unfold limbs_ok. apply Forall_forall. intros x Hx.
  apply list_elem_of_In, (In_nth _ _ 0) in Hx as (i & Hi & <-). apply H. by rewrite <- Hl.
Qed.

Lemma val_testbit a n :
  limbs_ok a -> 0 <= n ->
  Z.testbit (val a) n = Z.testbit (limb a (Z.to_nat (n / 32))) (n mod 32).
Proof.
  intros Ha. revert n. induction Ha as [|x a Hx Ha IH]; intros n Hn.
  { unfold limb. by destruct (Z.to_nat (n / 32)); cbn; rewrite !Z.testbit_0_l. }
  rewrite val_cons. unfold in_u32 in Hx. destruct (Z.lt_ge_cases n 32) as [Hlt|Hge].
  - rewrite Z.div_small, Z.mod_small by lia. cbn.
    rewrite <- (Z.mod_pow2_bits_low _ 32) by lia. change (2 ^ 32) with B.
    rewrite Z.mul_comm, Z.mod_add, Z.mod_small by (unfold B; lia). done.
  - replace n with ((n - 32) + 32) at 1 by lia. rewrite <- Z.div_pow2_bits by lia.
    change (2 ^ 32) with B. rewrite Z.mul_comm, Z.div_add by (unfold B; lia).
    rewrite Z.div_small, Z.add_0_l, IH by (unfold B; lia).
    replace (n / 32) with ((n - 32) / 32 + 1).
    2:{ replace n with (n - 32 + 1 * 32) at 2 by lia. by rewrite Z.div_add. }
    replace (Z.to_nat ((n - 32) / 32 + 1)) with (S (Z.to_nat ((n - 32) / 32)))
      by (assert (0 <= (n - 32) / 32) by (apply Z.div_pos; lia); lia).
    f_equal. replace n with (n - 32 + 1 * 32) at 2 by lia. by rewrite Z.mod_add.
Qed.

(** The limbs a shift produces. *)
Lemma shl_limb a sh m :
  length a = WIDTH -> (m < WIDTH)%nat ->
  let k := Z.to_nat (sh / 32) in let s := sh mod 32 in
  limb (shl a sh) m =
    Z.lor (if ((k + 1 <=? m)%nat && negb (s =? 0))%bool then Z.shiftr (limb a (m - k - 1)) (32 - s) else 0)
          (if (k <=? m)%nat then u32 (Z.shiftl (limb a (m - k)) s) else 0).
Proof.
  intros Hl Hm. cbv zeta. unfold shl.
  generalize (Z.to_nat (sh / 32)) (sh mod 32). intros k s.
  do 8 (destruct a as [|? a]; [done|]). destruct a; [|done].
  do 8 (destruct k as [|k]; [
    destruct (s =? 0); do 8 (destruct m as [|m]; [reflexivity|]); unfold WIDTH in Hm; lia |]).
  do 8 (destruct m as [|m]; [reflexivity|]); unfold WIDTH in Hm; lia.
Qed.

Lemma shr_limb a sh m :
  length a = WIDTH -> (m < WIDTH)%nat ->
  let k := Z.to_nat (sh / 32) in let s := sh mod 32 in
  limb (shr a sh) m =
    let lo := if (m + k <? WIDTH)%nat then Z.shiftr (limb a (m + k)) s else 0 in
    if ((m + k + 1 <? WIDTH)%nat && negb (s =? 0))%bool
    then Z.lor lo (u32 (Z.shiftl (limb a (m + k + 1)) (32 - s))) else lo.
Proof.
  intros Hl Hm. cbv zeta. unfold shr.
  generalize (Z.to_nat (sh / 32)) (sh mod 32). intros k s.
  do 8 (destruct a as [|? a]; [done|]). destruct a; [|done].
  do 8 (destruct k as [|k]; [
    destruct (s =? 0); do 8 (destruct m as [|m]; [reflexivity|]); unfold WIDTH in Hm; lia |]).
  do 8 (destruct m as [|m]; [reflexivity|]); unfold WIDTH in Hm; lia.
Qed.

Lemma or_at_length pn i v : length (or_at pn i v) = length pn.
Proof. apply length_insert. Qed.

Lemma foldl_length {A} (f : list A -> nat -> list A) l : forall pn,
  (forall pn i, length (f pn i) = length pn) -> length (foldl f pn l) = length pn.
Proof. induction l as [|i l IH]; intros pn H; [done|]. cbn. by rewrite IH, H. Qed.

Lemma shl_length a sh : length (shl a sh) = WIDTH.
Proof. unfold shl. cbv zeta. rewrite foldl_length; [done|]. intros. by repeat case_if; rewrite ?or_at_length. Qed.

Lemma shr_length a sh : length (shr a sh) = WIDTH.
Proof. unfold shr. cbv zeta. rewrite foldl_length; [done|]. intros. by repeat case_if; rewrite ?or_at_length. Qed.

(** Bits of 32-bit limbs. *)
Lemma in_u32_bits x : in_u32 x <-> 0 <= x /\ (forall r, 32 <= r -> Z.testbit x r = false).
Proof.
  unfold in_u32. split.
  - intros [H0 H1]. split; [done|]. intros r Hr.
    rewrite <- (Z.mod_small x (2 ^ 32)) by (change (2 ^ 32) with 4294967296; lia).
    apply Z.mod_pow2_bits_high. lia.
  - intros [H0 H]. split; [done|]. change 4294967296 with (2 ^ 32).
    destruct (Z.eq_dec x 0) as [->|]; [lia|]. apply Z.log2_lt_pow2; [lia|].
    destruct (Z.lt_ge_cases (Z.log2 x) 32); [done|].
    specialize (H (Z.log2 x) ltac:(done)). rewrite Z.bit_log2 in H by lia. done.
Qed.

Lemma u32_testbit x r : 0 <= r < 32 -> Z.testbit (u32 x) r = Z.testbit x r.
Proof. intros. unfold u32. change 4294967296 with (2 ^ 32). apply Z.mod_pow2_bits_low. lia. Qed.

Lemma in_u32_lor x y : in_u32 x -> in_u32 y -> in_u32 (Z.lor x y).
Proof.
  rewrite !in_u32_bits. intros [H0 H1] [H2 H3]. split; [by apply Z.lor_nonneg|].
  intros r Hr. by rewrite Z.lor_spec, H1, H3.
Qed.

Lemma in_u32_shiftr x s : in_u32 x -> 0 <= s -> in_u32 (Z.shiftr x s).
Proof.
  rewrite !in_u32_bits. intros [H0 H1] Hs. split; [by apply Z.shiftr_nonneg|].
  intros r Hr. rewrite Z.shiftr_spec by lia. apply H1. lia.
Qed.

Lemma in_u32_0 : in_u32 0.
Proof. unfold in_u32. lia. Qed.

#[export] Hint Resolve wf_limb in_u32_lor in_u32_shiftr in_u32_0 u32_range : wattx.

Lemma shl_wf a sh : wf a -> 0 <= sh -> wf (shl a sh).
Proof.
  intros Ha Hsh. apply wf_of_limbs; [apply shl_length|]. intros m Hm.
  pose proof (Z.mod_pos_bound sh 32 ltac:(lia)).
  rewrite (shl_limb a sh m) by (apply Ha || done). cbv zeta.
  apply in_u32_lor; case_if; auto with wattx lia.
Qed.

Lemma shr_wf a sh : wf a -> 0 <= sh -> wf (shr a sh).
Proof.
  intros Ha Hsh. apply wf_of_limbs; [apply shr_length|]. intros m Hm.
  pose proof (Z.mod_pos_bound sh 32 ltac:(lia)).
  rewrite (shr_limb a sh m) by (apply Ha || done). cbv zeta.
  repeat case_if; auto with wattx lia.
Qed.

Lemma div_mod_32 n : 0 <= n -> exists m r, n = 32 * Z.of_nat m + r /\ 0 <= r < 32 /\
  Z.to_nat (n / 32) = m /\ n mod 32 = r.
Proof.
  intros Hn. exists (Z.to_nat (n / 32)), (n mod 32).
  pose proof (Z.div_mod n 32 ltac:(lia)). pose proof (Z.mod_pos_bound n 32 ltac:(lia)).
  assert (0 <= n / 32) by (apply Z.div_pos; lia).
  rewrite Z2Nat.id by done. lia.
Qed.

(** Reading bit [32 m + r] of a number, [r] possibly negative or above 31. *)
Lemma val_bit a m r :
  wf a -> 0 <= r < 32 -> Z.testbit (val a) (32 * Z.of_nat m + r) = Z.testbit (limb a m) r.
Proof.
  intros [_ Ha] Hr. rewrite val_testbit by (done || lia).
  replace (32 * Z.of_nat m + r) with (r + Z.of_nat m * 32) by lia.
  rewrite Z.div_add, Z.mod_add, Z.div_small, Z.mod_small by lia.
  by rewrite Z.add_0_l, Nat2Z.id.
Qed.

Lemma limb_high_bit a m r : wf a -> 32 <= r -> Z.testbit (limb a m) r = false.
Proof. intros Ha. apply in_u32_bits. by apply wf_limb. Qed.

Lemma limb_beyond a m : wf a -> (WIDTH <= m)%nat -> limb a m = 0.
Proof. intros [Hl _] Hm. unfold limb. apply nth_overflow. lia. Qed.

Lemma val_high_bit a n : wf a -> 256 <= n -> Z.testbit (val a) n = false.
Proof.
  intros Ha Hn. pose proof (val_wf_bounds a Ha).
  rewrite <- (Z.mod_small (val a) (2 ^ 256)) by done. apply Z.mod_pow2_bits_high. lia.
Qed.

Lemma shl_bit a sh n :
  wf a -> 0 <= sh -> 0 <= n < 256 -> Z.testbit (val (shl a sh)) n = Z.testbit (val a) (n - sh).
Proof.
  intros Ha Hsh Hn. pose proof (shl_wf a sh Ha Hsh) as Hw.
  destruct (div_mod_32 n ltac:(lia)) as (m & r & En & Hr & _).
  destruct (div_mod_32 sh Hsh) as (k & s & Es & Hs & Ek & Em).
  rewrite En at 1. rewrite val_bit by done.
  rewrite (shl_limb a sh m) by (apply Ha || (unfold WIDTH; lia)). cbv zeta. rewrite Ek, Em.
  rewrite Z.lor_spec.
  destruct (Z.le_gt_cases s r) as [Hle|Hgt].
  - assert (Z.testbit (if (k + 1 <=? m)%nat && negb (s =? 0) then limb a (m - k - 1) ≫ (32 - s) else 0) r = false) as ->.
    { case_if; [|apply Z.testbit_0_l]. rewrite Z.shiftr_spec by lia. apply limb_high_bit; [done|lia]. }
    cbn. case_if.
    + apply Nat.leb_le in E. rewrite u32_testbit, Z.shiftl_spec by lia.
      replace (n - sh) with (32 * Z.of_nat (m - k) + (r - s)) by lia. by rewrite val_bit by (done || lia).
    + apply Nat.leb_gt in E. rewrite Z.testbit_0_l, Z.testbit_neg_r; [done|lia].
  - assert (Z.testbit (if (k <=? m)%nat then u32 (limb a (m - k) ≪ s) else 0) r = false) as ->.
    { case_if; [|apply Z.testbit_0_l]. rewrite u32_testbit, Z.shiftl_spec, Z.testbit_neg_r by lia. done. }
    rewrite orb_false_r. replace (s =? 0) with false by (symmetry; apply Z.eqb_neq; lia).
    rewrite andb_true_r. case_if.
    + apply Nat.leb_le in E. rewrite Z.shiftr_spec by lia.
      replace (n - sh) with (32 * Z.of_nat (m - k - 1) + (r + (32 - s))) by lia.
      by rewrite val_bit by (done || lia).
    + apply Nat.leb_gt in E. rewrite Z.testbit_0_l, Z.testbit_neg_r; [done|lia].
Qed.

Lemma shr_bit a sh n :
  wf a -> 0 <= sh -> 0 <= n -> Z.testbit (val (shr a sh)) n = Z.testbit (val a) (n + sh).
Proof.
  intros Ha Hsh Hn. pose proof (shr_wf a sh Ha Hsh) as Hw.
  destruct (Z.lt_ge_cases n 256) as [Hlt|Hge].
  2:{ rewrite !val_high_bit; [done|done|lia|done|lia]. }
  destruct (div_mod_32 n Hn) as (m & r & En & Hr & _).
  destruct (div_mod_32 sh Hsh) as (k & s & Es & Hs & Ek & Em).
  rewrite En at 1. rewrite val_bit by done.
  rewrite (shr_limb a sh m) by (apply Ha || (unfold WIDTH; lia)). cbv zeta. rewrite Ek, Em.
  replace (if (m + k <? WIDTH)%nat then limb a (m + k) ≫ s else 0) with (limb a (m + k) ≫ s).
  2:{ case_if; [done|]. apply Nat.ltb_ge in E. by rewrite limb_beyond, Z.shiftr_0_l. }
  destruct (Z.lt_ge_cases (r + s) 32) as [Hlo|Hhi].
  - replace (n + sh) with (32 * Z.of_nat (m + k) + (r + s)) by lia. rewrite val_bit by (done || lia).
    case_if; [|by rewrite Z.shiftr_spec by lia].
    rewrite Z.lor_spec, Z.shiftr_spec, u32_testbit, Z.shiftl_spec, (Z.testbit_neg_r _ (r - (32 - s))) by lia.
    apply orb_false_r.
  - replace (n + sh) with (32 * Z.of_nat (m + k + 1) + (r - (32 - s))) by lia.
    rewrite val_bit by (done || lia).
    replace (s =? 0) with false by (symmetry; apply Z.eqb_neq; lia). rewrite andb_true_r.
    case_if.
    + rewrite Z.lor_spec, Z.shiftr_spec, u32_testbit, Z.shiftl_spec, limb_high_bit by (done || lia). done.
    + apply Nat.ltb_ge in E. rewrite Z.shiftr_spec, limb_high_bit by (done || lia).
      rewrite limb_beyond by (done || lia). by rewrite Z.testbit_0_l.
Qed.

Lemma shl_spec a sh :
  wf a -> 0 <= sh -> wf (shl a sh) /\ val (shl a sh) = (val a * 2 ^ sh) mod 2 ^ 256.
Proof.
  intros Ha Hsh. split; [by apply shl_wf|]. apply Z.bits_inj'. intros n Hn.
  rewrite Z.testbit_mod_pow2 by lia. destruct (Z.ltb_spec n 256).
  - by rewrite shl_bit, Z.mul_pow2_bits by (done || lia).
  - rewrite val_high_bit; [done|by apply shl_wf|done].
Qed.

Lemma shr_spec a sh :
  wf a -> 0 <= sh -> wf (shr a sh) /\ val (shr a sh) = val a / 2 ^ sh.
Proof.
  intros Ha Hsh. split; [by apply shr_wf|]. apply Z.bits_inj'. intros n Hn.
  by rewrite shr_bit, Z.div_pow2_bits by (done || lia).
Qed.

(** ** Comparison *)

Lemma val_snoc l x : val (l ++ [x]) = val l + B ^ Z.of_nat (length l) * x.
Proof.
  induction l as [|y l IH]; [cbn; lia|].
  cbn [app length]. rewrite !val_cons, IH, pow_B_S. ring.
Qed.

Lemma val_take_S c i :
  limbs_ok c -> (S i <= length c)%nat ->
  val (take (S i) c) = val (take i c) + B ^ Z.of_nat i * limb c i /\
  0 <= val (take i c) < B ^ Z.of_nat i.
Proof.
  intros Hc Lc. destruct (nth_lookup_or_length c i 0) as [E|]; [|lia].
  rewrite (take_S_r c i _ E), val_snoc, length_take_le by lia. split; [done|].
  pose proof (val_bounds (take i c) ltac:(by apply Forall_take)) as Hv.
  by rewrite length_take_le in Hv by lia.
Qed.

Lemma compare_from_spec i a b :
  limbs_ok a -> limbs_ok b -> (i <= length a)%nat -> (i <= length b)%nat ->
  compare_from i a b = match val (take i a) ?= val (take i b) with Eq => 0 | Lt => -1 | Gt => 1 end.
Proof.
  intros Ha Hb. induction i as [|i IH]; intros La Lb; [done|].
  cbn [compare_from].
  destruct (val_take_S a i Ha La) as [-> Va]. destruct (val_take_S b i Hb Lb) as [-> Vb].
  pose proof (pow_B_pos i). repeat case_if.
  - replace (_ ?= _) with Lt; [done|]. symmetry. apply Z.compare_lt_iff. nia.
  - replace (_ ?= _) with Gt; [done|]. symmetry. apply Z.compare_gt_iff. nia.
  - assert (limb a i = limb b i) as -> by lia. rewrite IH by lia. by rewrite !(Z.add_comm (val _)), Z.add_compare_mono_l.
Qed.

Lemma CompareTo_spec a b :
  wf a -> wf b ->
  CompareTo a b = match val a ?= val b with Eq => 0 | Lt => -1 | Gt => 1 end.
Proof.
  intros [La Oa] [Lb Ob]. unfold CompareTo. rewrite compare_from_spec by (done || lia).
  by rewrite !take_ge by lia.
Qed.

Lemma gt_spec a b : wf a -> wf b -> gt a b = (val b <? val a).
Proof.
  intros. unfold gt. rewrite CompareTo_spec by done. unfold Z.ltb at 2.
  rewrite (Z.compare_antisym (val a)). by destruct (val a ?= val b).
Qed.

Lemma ge_spec a b : wf a -> wf b -> ge a b = (val b <=? val a).
Proof.
  intros. unfold ge. rewrite CompareTo_spec by done. unfold Z.leb at 2.
  rewrite (Z.compare_antisym (val a)). by destruct (val a ?= val b).
Qed.

Lemma lt_spec a b : wf a -> wf b -> lt a b = (val a <? val b).
Proof. intros. unfold lt. rewrite CompareTo_spec by done. unfold Z.ltb at 2. by destruct (val a ?= val b). Qed.

Lemma le_spec a b : wf a -> wf b -> le a b = (val a <=? val b).
Proof. intros. unfold le. rewrite CompareTo_spec by done. unfold Z.leb at 2. by destruct (val a ?= val b). Qed.

(** ** Highest set bit *)

Lemma land_bit x n : 0 <= n -> (Z.land x (Z.shiftl 1 n) =? 0) = negb (Z.testbit x n).
Proof.
  intros Hn. rewrite Z.shiftl_1_l. destruct (Z.testbit x n) eqn:E; cbn; bool_to_prop.
  - apply Z.eqb_neq. intros H. apply (f_equal (fun z => Z.testbit z n)) in H.
    rewrite Z.land_spec, E, Z.pow2_bits_true, Z.testbit_0_l in H by done. done.
  - apply Z.eqb_eq. apply Z.bits_inj'. intros m Hm. rewrite Z.land_spec, Z.testbit_0_l, Z.pow2_bits_eqb by done.
    destruct (Z.eqb_spec n m) as [<-|]; [by rewrite E|by rewrite andb_false_r].
Qed.

Lemma bits_limb_spec n x :
  0 < x < 2 ^ (Z.of_nat n + 1) -> bits_limb n x = Z.log2 x.
Proof.
  induction n as [|n IH]; intros Hx.
  - cbn in *. assert (x = 1) as -> by lia. done.
  - cbn [bits_limb]. rewrite land_bit, negb_involutive by lia.
    pose proof (proj1 (Z.log2_lt_pow2 _ _ (proj1 Hx)) (proj2 Hx)) as Hlog.
    destruct (Z.testbit x (Z.of_nat (S n))) eqn:E.
    + destruct (Z.lt_ge_cases (Z.log2 x) (Z.of_nat (S n))); [|lia].
      rewrite Z.bits_above_log2 in E by lia. done.
    + apply IH. split; [lia|]. apply Z.log2_lt_pow2; [lia|].
      destruct (Z.eq_dec (Z.log2 x) (Z.of_nat (S n))) as [El|]; [|lia].
      rewrite <- El, Z.bit_log2 in E by lia. done.
Qed.

Lemma log2_limb_top x y M :
  0 < y -> 0 <= x < 2 ^ M -> 0 <= M -> Z.log2 (x + 2 ^ M * y) = M + Z.log2 y.
Proof.
  intros Hy Hx HM. pose proof (Z.log2_spec y Hy). pose proof (Z.log2_nonneg y).
  apply Z.log2_unique; [lia|]. rewrite <- Z.add_succ_r, !Z.pow_add_r by lia. nia.
Qed.

Lemma bits_from_spec i a :
  limbs_ok a -> (i <= length a)%nat ->
  bits_from i a = if val (take i a) =? 0 then 0 else Z.log2 (val (take i a)) + 1.
Proof.
  intros Ha. induction i as [|i IH]; intros Li; [done|].
  cbn [bits_from]. destruct (val_take_S a i Ha Li) as [-> Hv].
  assert (in_u32 (limb a i)) as Hl.
  { unfold limb, limbs_ok in *. rewrite Forall_forall in Ha. apply Ha, list_elem_of_In, nth_In. lia. }
  assert (B ^ Z.of_nat i = 2 ^ (32 * Z.of_nat i)) as HB by (rewrite Z.pow_mul_r by lia; done).
  destruct (Z.eqb_spec (limb a i) 0) as [E|E]; cbn [negb].
  - rewrite E, Z.mul_0_r, Z.add_0_r. apply IH. lia.
  - unfold in_u32 in Hl. rewrite bits_limb_spec by (cbn; lia).
    replace (_ =? 0) with false by (symmetry; apply Z.eqb_neq; nia).
    rewrite HB, log2_limb_top by (rewrite <- ?HB; lia). done.
Qed.

Lemma bits_spec a : wf a -> bits a = if val a =? 0 then 0 else Z.log2 (val a) + 1.
Proof.
  intros [La Oa]. unfold bits. rewrite bits_from_spec by (done || lia). by rewrite take_ge by lia.
Qed.

(** [bits] is the least [n] with [val a < 2^n]. *)
Lemma bits_bounds a :
  wf a -> 0 <= bits a <= 256 /\ val a < 2 ^ bits a /\ (0 < val a -> 2 ^ (bits a - 1) <= val a).
Proof.
  intros Ha. pose proof (val_wf_bounds a Ha). rewrite bits_spec by done.
  destruct (Z.eqb_spec (val a) 0) as [->|]; [cbn; lia|].
  pose proof (Z.log2_spec (val a) ltac:(lia)). pose proof (Z.log2_nonneg (val a)).
  pose proof (proj1 (Z.log2_lt_pow2 (val a) 256 ltac:(lia)) ltac:(lia)).
  rewrite Z.add_simpl_r, Z.add_1_r. lia.
Qed.

(** ** Division *)

Lemma limb_or_at q i v m :
  (i < length q)%nat -> limb (or_at q i v) m = if (m =? i)%nat then Z.lor (limb q i) v else limb q m.
Proof.
  intros Hi. unfold limb at 1, or_at. rewrite nth_lookup.
  destruct (Nat.eqb_spec m i) as [->|].
  - by rewrite list_lookup_insert_eq.
  - rewrite list_lookup_insert_ne by done. by rewrite <- nth_lookup.
Qed.

Lemma or_at_bit_spec q n :
  wf q -> (n < 256)%nat ->
  let r := or_at q (n / 32) (u32 (Z.shiftl 1 (Z.of_nat n mod 32))) in
  wf r /\ val r = Z.lor (val q) (2 ^ Z.of_nat n).
Proof.
  intros Hq Hn r. pose proof (Z.mod_pos_bound (Z.of_nat n) 32 ltac:(lia)) as Hm.
  assert (u32 (Z.shiftl 1 (Z.of_nat n mod 32)) = 2 ^ (Z.of_nat n mod 32)) as E.
  { rewrite Z.shiftl_1_l. apply u32_id. unfold in_u32. change 4294967296 with (2 ^ 32).
    split; [apply Z.pow_nonneg; lia|]. apply Z.pow_lt_mono_r; lia. }
  assert (n / 32 < length q)%nat as Hi.
  { rewrite (proj1 Hq). apply Nat.Div0.div_lt_upper_bound. unfold WIDTH; lia. }
  assert (wf r) as Hr.
  { apply wf_of_limbs; [unfold r; rewrite or_at_length; apply Hq|]. intros m Hlt.
    unfold r. rewrite limb_or_at by done. case_if; auto with wattx. }
  split; [done|]. apply Z.bits_inj'. intros j Hj. rewrite Z.lor_spec, Z.pow2_bits_eqb by lia.
  rewrite !val_testbit by (done || apply Hr || apply Hq). unfold r. rewrite limb_or_at, E by done.
  destruct (div_mod_32 j Hj) as (m & b & -> & Hb & -> & ->).
  assert (Z.of_nat n = 32 * Z.of_nat (n / 32) + Z.of_nat n mod 32) as En.
  { pose proof (Z.div_mod (Z.of_nat n) 32 ltac:(lia)). rewrite Nat2Z.inj_div. lia. }
  destruct (Nat.eqb_spec m (n / 32)) as [->|].
  - rewrite Z.lor_spec, Z.pow2_bits_eqb by lia. f_equal. apply eq_true_iff_eq. rewrite !Z.eqb_eq. lia.
  - replace (Z.of_nat n =? _) with false; [by rewrite orb_false_r|].
    symmetry. apply Z.eqb_neq. lia.
Qed.

Lemma lor_add_pow2 x n : 0 <= n -> (2 ^ (n + 1) | x) -> Z.lor x (2 ^ n) = x + 2 ^ n.
Proof.
  intros Hn [t ->]. rewrite <- (Z.add_lor_land (t * 2 ^ (n + 1)) (2 ^ n)).
  replace (Z.land (t * 2 ^ (n + 1)) (2 ^ n)) with 0; [lia|].
  symmetry. apply Z.eqb_eq. rewrite <- (Z.shiftl_1_l n), land_bit by done.
  rewrite Z.mul_pow2_bits_low by lia. done.
Qed.

Lemma div_loop_spec D n : 0 < D -> (n < 256)%nat -> forall num dv q,
  wf num -> wf dv -> wf q ->
  val dv = D * 2 ^ Z.of_nat n -> val num < D * 2 ^ (Z.of_nat n + 1) ->
  (2 ^ (Z.of_nat n + 1) | val q) ->
  wf (div_loop n num dv q) /\ val (div_loop n num dv q) = val q + val num / D.
Proof.
  intros HD. induction n as [|n IH]; intros Hn num dv q Hnum Hdv Hq Vd Vn Vq;
    cbn [div_loop]; rewrite !ge_spec by done;
    pose proof (val_wf_bounds num Hnum) as Bn;
    pose proof (val_wf_bounds dv Hdv) as Bd;
    pose proof (sub_spec num dv Hnum Hdv) as [Hs Vs].
  - change (Z.of_nat 0) with 0 in *. rewrite Z.mul_1_r in Vd. case_if.
    + destruct (or_at_bit_spec q 0 Hq Hn) as [Hr Vr]. change (Z.of_nat 0) with 0 in *. split; [done|]. rewrite Vr, lor_add_pow2 by (done || lia).
      f_equal. cbn in *. apply (Z.div_unique _ _ _ (val num - D)); lia.
    + split; [done|]. rewrite Z.div_small; lia.
  - set (p := 2 ^ Z.of_nat n). assert (0 < p) by (apply Z.pow_pos_nonneg; lia).
    assert (Z.of_nat (S n) = Z.of_nat n + 1) as ES by lia. rewrite ES in Vd, Vn, Vq.
    rewrite (Z.pow_add_r 2 (Z.of_nat n) 1) in Vd by lia.
    rewrite (Z.pow_add_r 2 (Z.of_nat n + 1) 1), (Z.pow_add_r 2 (Z.of_nat n) 1) in Vn by lia.
    fold p in Vd, Vn. change (2 ^ 1) with 2 in *.
    destruct (shr_spec dv 1 Hdv ltac:(lia)) as [Hh Vh].
    rewrite Vd, Z.mul_assoc, Z.div_mul in Vh by lia.
    assert (Vq' : (2 ^ (Z.of_nat n + 1) | val q)).
    { destruct Vq as [t ->]. exists (t * 2). rewrite (Z.pow_add_r 2 (Z.of_nat n + 1) 1) by lia. change (2 ^ 1) with 2. ring. }
    case_if.
    + destruct (or_at_bit_spec q (S n) Hq Hn) as [Hr Vr].
      rewrite lor_add_pow2 in Vr by (rewrite ES; done || lia).
      rewrite Z.mod_small in Vs by lia.
      destruct (IH ltac:(lia) (sub num dv) (shr dv 1) _ Hs Hh Hr) as [Hw Vw].
      * exact Vh.
      * rewrite Vs, Vd, Z.pow_add_r by lia. fold p. change (2 ^ 1) with 2. lia.
      * rewrite Vr, ES. apply Z.divide_add_r; [done|]. by exists 1; rewrite Z.mul_1_l.
      * split; [done|]. rewrite Vw, Vr, Vs, Vd, ES.
        replace (val num) with (val num - D * (p * 2) + (p * 2) * D) at 2 by ring.
        rewrite Z.div_add by lia. rewrite Z.pow_add_r by lia. fold p. change (2 ^ 1) with 2. ring.
    + apply IH; try done; [lia|]. rewrite Z.pow_add_r by lia. fold p. change (2 ^ 1) with 2. lia.
Qed.

Lemma div_spec a b :
  wf a -> wf b ->
  match div a b with
  | None => val b = 0
  | Some q => val b <> 0 /\ wf q /\ val q = val a / val b
  end.
Proof.
  intros Ha Hb. unfold div.
  pose proof (val_wf_bounds a Ha) as Ba. pose proof (val_wf_bounds b Hb) as Bb.
  destruct (bits_bounds a Ha) as (Na & Ua & La). destruct (bits_bounds b Hb) as (Nb & Ub & Lb).
  case_if.
  { rewrite E in Ub. change (2 ^ 0) with 1 in Ub. lia. }
  assert (val b <> 0) as Hnz.
  { intros H0. rewrite bits_spec, H0 in E by done. done. }
  case_if.
  { split; [done|]. destruct wf_zero as [Hz ->]. split; [done|]. rewrite Z.div_small; [done|].
    assert (2 ^ bits a <= 2 ^ (bits b - 1)) by (apply Z.pow_le_mono_r; lia). lia. }
  set (sh := bits a - bits b) in *.
  destruct (shl_spec b sh Hb ltac:(lia)) as [Hs Vs].
  assert (0 < 2 ^ sh) by (apply Z.pow_pos_nonneg; lia).
  assert (2 ^ bits a = 2 ^ bits b * 2 ^ sh) as Hp.
  { rewrite <- Z.pow_add_r by lia. f_equal. lia. }
  assert (2 ^ bits a <= 2 ^ 256) by (apply Z.pow_le_mono_r; lia).
  rewrite Z.mod_small in Vs by nia.
  destruct wf_zero as [Hz Vz].
  assert (2 ^ bits b = 2 ^ (bits b - 1) * 2) as Hb2.
  { change 2 with (2 ^ 1) at 3. rewrite <- Z.pow_add_r by lia. f_equal. lia. }
  destruct (div_loop_spec (val b) (Z.to_nat sh) ltac:(lia) ltac:(lia) a (shl b sh) zero Ha Hs Hz) as [Hw Vw].
  - by rewrite Z2Nat.id by lia.
  - rewrite Z2Nat.id, Z.pow_add_r by lia. change (2 ^ 1) with 2. specialize (Lb ltac:(lia)). nia.
  - rewrite Vz. apply Z.divide_0_r.
  - rewrite Vz, Z.add_0_l in Vw. done.
Qed.

(** ** Compact encoding *)

Lemma val_inj a b : wf a -> wf b -> val a = val b -> a = b.
Proof.
  intros [La Oa] [Lb Ob]. rewrite <- Lb in La. clear Lb.
  revert b Ob La. induction Oa as [|x a Hx _ IH]; intros [|y b] Ob Hl Hv; try done.
  apply Forall_cons_1 in Ob as [Hy Ob]. rewrite !val_cons in Hv. unfold in_u32 in *.
  assert (x = y /\ val a = val b) as [-> Hv'] by (unfold B in Hv; lia).
  f_equal. apply IH; [done|cbn in Hl; lia|done].
Qed.

(** Disjoint bit fields add up. *)

Lemma GetLow64_spec a : wf a -> GetLow64 a = val a mod 2 ^ 64.
Proof.
  intros [La Oa]. unfold GetLow64.
  destruct a as [|x [|y a]]; [done|done|]. unfold limb; cbn [nth].
  apply Forall_cons_1 in Oa as [Hx Oa]. apply Forall_cons_1 in Oa as [Hy Oa].
  rewrite !val_cons. unfold in_u32 in *. rewrite lor_fields by (cbn; lia).
  replace (x + B * (y + B * val a)) with (x + y * 2 ^ 32 + val a * 2 ^ 64)
    by (change (2 ^ 64) with (B * B); change (2 ^ 32) with B; ring).
  rewrite Z.mod_add, Z.mod_small by (cbn; lia). done.
Qed.

Lemma decode_compact m e :
  0 <= m < 2 ^ 23 -> 0 <= e < 256 ->
  let c := m + e * 2 ^ 24 in
  in_u32 c /\ Z.shiftr c 24 = e /\ Z.land c 0x007fffff = m /\ Z.land c 0x00800000 = 0.
Proof.
  intros Hm He c. change (2 ^ 23) with 8388608 in *. change (2 ^ 24) with 16777216 in *.
  split; [unfold in_u32, c; lia|]. split.
  { rewrite Z.shiftr_div_pow2 by lia. unfold c. rewrite Z.div_add, Z.div_small by (cbn; lia). done. }
  split.
  { change 0x007fffff with (Z.ones 23). rewrite Z.land_ones by lia.
    unfold c. replace (e * 16777216) with (e * 2 * 2 ^ 23) by (cbn; lia).
    rewrite Z.mod_add, Z.mod_small by (cbn; lia). done. }
  apply Z.eqb_eq. change 0x00800000 with (Z.shiftl 1 23). rewrite land_bit by lia.
  apply negb_true_iff. replace 23 with (0 + 23) at 1 by lia. rewrite <- Z.div_pow2_bits by lia.
  unfold c. replace (e * 16777216) with (e * 2 * 2 ^ 23) by (cbn; lia).
  rewrite Z.div_add, Z.div_small by (cbn; lia). rewrite Z.add_0_l, Z.mul_comm.
  apply Z.testbit_even_0.
Qed.

(** The mantissa of a number at exponent [sz]: the three leading bytes. *)
Definition mantissa (v sz : Z) : Z :=
  if sz <=? 3 then v * 256 ^ (3 - sz) else v / 256 ^ (sz - 3).

Lemma mantissa_step v sz : mantissa v (sz + 1) = mantissa v sz / 256.
Proof.
  unfold mantissa. destruct (Z.leb_spec sz 3), (Z.leb_spec (sz + 1) 3); try lia.
  - replace (3 - sz) with (3 - (sz + 1) + 1) by lia. rewrite Z.pow_add_r, Z.mul_assoc, Z.div_mul by lia. done.
  - assert (sz = 3) as -> by lia. cbn. by rewrite Z.mul_1_r.
  - replace (sz + 1 - 3) with (sz - 3 + 1) by lia. rewrite Z.pow_add_r by lia.
    rewrite Z.div_div; [done| |lia]. apply Z.pow_nonzero; lia.
Qed.

Lemma mantissa_mono v sz d : 0 <= v -> 0 <= d -> mantissa v (sz + d) <= mantissa v sz.
Proof.
  intros Hv. revert d. apply natlike_ind; [by rewrite Z.add_0_r|].
  intros d Hd IH. rewrite <- Z.add_1_r, Z.add_assoc, mantissa_step.
  assert (0 <= mantissa v (sz + d)).
  { unfold mantissa. case_if; [apply Z.mul_nonneg_nonneg; [done|apply Z.pow_nonneg; lia]|].
    apply Z.div_pos; [done|apply Z.pow_pos_nonneg; lia]. }
  assert (mantissa v (sz + d) / 256 <= mantissa v (sz + d)) by (apply Z.div_le_upper_bound; lia). lia.
Qed.

(** A normalised pair is determined by the number. *)
Lemma mantissa_unique v s1 s2 :
  0 <= v ->
  2 ^ 15 <= mantissa v s1 < 2 ^ 23 -> 2 ^ 15 <= mantissa v s2 < 2 ^ 23 -> s1 = s2.
Proof.
  intros Hv. assert (forall s t, 2 ^ 15 <= mantissa v s < 2 ^ 23 ->
    2 ^ 15 <= mantissa v t < 2 ^ 23 -> s < t -> False) as H.
  { intros s t Hs Ht Hlt. pose proof (mantissa_mono v (s + 1) (t - (s + 1)) Hv ltac:(lia)) as Hm.
    replace (s + 1 + (t - (s + 1))) with t in Hm by lia. rewrite mantissa_step in Hm.
    assert (mantissa v s / 256 < 2 ^ 15) by (apply Z.div_lt_upper_bound; cbn in *; lia). lia. }
  intros H1 H2. destruct (Z.lt_trichotomy s1 s2) as [|[|]]; [|done|]; exfalso; eauto.
Qed.

Lemma top_bit m n : 0 <= n -> 0 <= m < 2 ^ (n + 1) -> Z.testbit m n = (2 ^ n <=? m).
Proof.
  intros Hn Hm. destruct (Z.leb_spec (2 ^ n) m) as [H|H].
  - assert (0 < 2 ^ n) by (apply Z.pow_pos_nonneg; lia).
    assert (Z.log2 m = n) as E by (apply Z.log2_unique; [done|]; rewrite <- Z.add_1_r; lia).
    rewrite <- E. apply Z.bit_log2. lia.
  - destruct (Z.eq_dec m 0) as [->|]; [apply Z.testbit_0_l|].
    apply Z.bits_above_log2; [lia|]. apply Z.log2_lt_pow2; lia.
Qed.

Lemma pow256 k : 0 <= k -> 256 ^ k = 2 ^ (8 * k).
Proof. intros. change 256 with (2 ^ 8). by rewrite <- Z.pow_mul_r by lia. Qed.

(** [bits], rounded up to bytes, leaves a three-byte mantissa with a nonzero top byte. *)
Lemma mantissa_of_bits v n :
  0 < n -> 2 ^ (n - 1) <= v < 2 ^ n -> 2 ^ 16 <= mantissa v ((n + 7) / 8) < 2 ^ 24.
Proof.
  intros Hn [Hl Hu]. set (sz := (n + 7) / 8).
  assert (8 * sz - 7 <= n <= 8 * sz) as Hs.
  { unfold sz. pose proof (Z.div_mod (n + 7) 8 ltac:(lia)). pose proof (Z.mod_pos_bound (n + 7) 8 ltac:(lia)). lia. }
  assert (2 ^ (8 * (sz - 1)) <= 2 ^ (n - 1)) by (apply Z.pow_le_mono_r; lia).
  assert (2 ^ n <= 2 ^ (8 * sz)) by (apply Z.pow_le_mono_r; lia).
  unfold mantissa. destruct (Z.leb_spec sz 3); rewrite pow256 by lia.
  - assert (0 < 2 ^ (8 * (3 - sz))) by (apply Z.pow_pos_nonneg; lia).
    replace 16 with (8 * (sz - 1) + 8 * (3 - sz)) by lia.
    replace 24 with (8 * sz + 8 * (3 - sz)) by lia. rewrite !Z.pow_add_r by lia. nia.
  - assert (0 < 2 ^ (8 * (sz - 3))) by (apply Z.pow_pos_nonneg; lia). split.
    + apply Z.div_le_lower_bound; [done|]. rewrite <- Z.pow_add_r by lia.
      replace (8 * (sz - 3) + 16) with (8 * (sz - 1)) by lia. lia.
    + apply Z.div_lt_upper_bound; [done|]. rewrite <- Z.pow_add_r by lia.
      replace (8 * (sz - 3) + 24) with (8 * sz) by lia. lia.
Qed.

(** The word [GetCompact] extracts before normalising the sign bit. *)
Lemma GetCompact_word a :
  wf a -> 0 < val a ->
  let sz := (bits a + 7) / 8 in
  (if sz <=? 3 then u32 (u64 (Z.shiftl (GetLow64 a) (8 * (3 - sz))))
   else u32 (GetLow64 (shr a (8 * (sz - 3))))) = mantissa (val a) sz.
Proof.
  intros Ha Hp sz. destruct (bits_bounds a Ha) as (Nb & Ub & Lb). specialize (Lb Hp).
  assert (0 < bits a).
  { destruct (Z.eq_dec (bits a) 0) as [E|]; [rewrite E in Ub; change (2 ^ 0) with 1 in Ub; lia|lia]. }
  pose proof (mantissa_of_bits (val a) (bits a) ltac:(done) ltac:(done)) as Hm. fold sz in Hm.
  assert (0 <= sz) by (unfold sz; apply Z.div_pos; lia).
  change (2 ^ 24) with 16777216 in Hm. change (2 ^ 16) with 65536 in Hm.
  unfold mantissa in *. destruct (Z.leb_spec sz 3).
  - rewrite GetLow64_spec, Z.shiftl_mul_pow2, <- pow256 by (done || lia).
    assert (0 < 256 ^ (3 - sz)) by (apply Z.pow_pos_nonneg; lia).
    rewrite (Z.mod_small (val a)) by (change (2 ^ 64) with 18446744073709551616; nia). no_wrap. done.
  - destruct (shr_spec a (8 * (sz - 3)) Ha ltac:(lia)) as [Hs Vs].
    rewrite <- pow256 in Vs by lia. rewrite GetLow64_spec, Vs by done.
    rewrite (Z.mod_small (val a / _)) by (change (2 ^ 64) with 18446744073709551616; lia). no_wrap. done.
Qed.

Lemma size_field e : 0 <= e < 256 -> u32 (Z.shiftl e 24) = Z.shiftl e 24.
Proof. intros. rewrite Z.shiftl_mul_pow2 by lia. apply u32_id. unfold in_u32. cbn. lia. Qed.

Lemma GetCompact_norm a :
  wf a -> 0 < val a ->
  exists sz, 1 <= sz <= 33 /\ 2 ^ 15 <= mantissa (val a) sz < 2 ^ 23 /\
             GetCompact a false = mantissa (val a) sz + sz * 2 ^ 24.
Proof.
  intros Ha Hp. pose proof (GetCompact_word a Ha Hp) as Hw. cbv zeta in Hw.
  destruct (bits_bounds a Ha) as (Nb & Ub & Lb). specialize (Lb Hp).
  assert (0 < bits a).
  { destruct (Z.eq_dec (bits a) 0) as [E|]; [rewrite E in Ub; change (2 ^ 0) with 1 in Ub; lia|lia]. }
  pose proof (mantissa_of_bits (val a) (bits a) ltac:(done) ltac:(done)) as Hm.
  unfold GetCompact. rewrite Z.quot_div_nonneg, Hw by lia. clear Hw.
  set (sz := (bits a + 7) / 8) in *.
  assert (1 <= sz <= 32).
  { unfold sz. pose proof (Z.div_mod (bits a + 7) 8 ltac:(lia)).
    pose proof (Z.mod_pos_bound (bits a + 7) 8 ltac:(lia)). lia. }
  rewrite andb_false_l, Z.lor_0_r. change 0x00800000 with (Z.shiftl 1 23).
  rewrite land_bit, negb_involutive, top_bit by (cbn in *; lia).
  destruct (Z.leb_spec (2 ^ 23) (mantissa (val a) sz)) as [Hb|Hb].
  - exists (sz + 1). rewrite mantissa_step, Z.shiftr_div_pow2 by lia. change (2 ^ 8) with 256.
    assert (2 ^ 15 <= mantissa (val a) sz / 256 < 2 ^ 23).
    { split; [apply Z.div_le_lower_bound; cbn in *; lia|apply Z.div_lt_upper_bound; cbn in *; lia]. }
    split; [lia|]. split; [done|]. rewrite size_field by lia. apply lor_fields; cbn in *; lia.
  - exists sz. split; [lia|]. split; [cbn in *; lia|].
    rewrite size_field by lia. apply lor_fields; cbn in *; lia.
Qed.

Lemma GetCompact_zero a : wf a -> val a = 0 -> GetCompact a false = 0.
Proof.
  intros Ha Hz. destruct wf_zero as [Wz Vz]. by rewrite (val_inj a zero Ha Wz ltac:(congruence)).
Qed.

(** The value a compact word denotes, before reduction to 256 bits. *)
Definition compact_exact (c : Z) : Z :=
  let e := c / 2 ^ 24 in let m := c mod 2 ^ 23 in
  if e <=? 3 then m / 256 ^ (3 - e) else m * 256 ^ (e - 3).

Lemma SetCompact_parts c :
  in_u32 c ->
  Z.shiftr c 24 = c / 2 ^ 24 /\ Z.land c 0x007fffff = c mod 2 ^ 23 /\
  0 <= c / 2 ^ 24 < 256 /\ 0 <= c mod 2 ^ 23 < 2 ^ 23.
Proof.
  intros Hc. unfold in_u32 in Hc. rewrite Z.shiftr_div_pow2 by lia.
  change 0x007fffff with (Z.ones 23). rewrite Z.land_ones by lia.
  split; [done|]. split; [done|]. split.
  - split; [apply Z.div_pos; lia|]. apply Z.div_lt_upper_bound; lia.
  - apply Z.mod_pos_bound. lia.
Qed.

Lemma SetCompact_value_spec c :
  in_u32 c -> wf (SetCompact_value c) /\ val (SetCompact_value c) = compact_exact c mod 2 ^ 256.
Proof.
  intros Hc. destruct (SetCompact_parts c Hc) as (E1 & E2 & He & Hm).
  unfold SetCompact_value, SetCompact, compact_exact. cbn [fst]. rewrite E1, E2.
  set (e := c / 2 ^ 24) in *. set (m := c mod 2 ^ 23) in *. change (2 ^ 23) with 8388608 in Hm.
  destruct (Z.leb_spec e 3).
  - rewrite Z.shiftr_div_pow2, <- pow256 by lia.
    assert (0 < 256 ^ (3 - e)) by (apply Z.pow_pos_nonneg; lia).
    assert (0 <= m / 256 ^ (3 - e) <= m).
    { split; [apply Z.div_pos; lia|]. apply Z.div_le_upper_bound; nia. }
    destruct (wf_of_u64 (m / 256 ^ (3 - e)) ltac:(unfold in_u64; lia)) as [Hw Vw].
    split; [done|]. rewrite Vw, Z.mod_small; [done|].
    change (2 ^ 256) with 115792089237316195423570985008687907853269984665640564039457584007913129639936. lia.
  - destruct (wf_of_u64 m ltac:(unfold in_u64; lia)) as [Hw Vw].
    destruct (shl_spec (of_u64 m) (8 * (e - 3)) Hw ltac:(lia)) as [Hs Vs].
    split; [done|]. by rewrite Vs, Vw, pow256 by lia.
Qed.

(** The overflow test of [SetCompact] is exact. *)
Lemma overflow_exact e m :
  3 < e -> 0 <= m < 2 ^ 23 ->
  (negb (m =? 0) && ((34 <? e) || ((0xff <? m) && (33 <? e)) || ((0xffff <? m) && (32 <? e))) = true
   <-> 2 ^ 256 <= m * 256 ^ (e - 3)).
Proof.
  intros He Hm. change (2 ^ 23) with 8388608 in Hm.
  assert (forall k, 0 <= k -> e - 3 >= k -> 256 ^ k <= 256 ^ (e - 3)) as Hle
    by (intros; apply Z.pow_le_mono_r; lia).
  change (2 ^ 256) with (256 ^ 32).
  destruct (Z.eqb_spec m 0) as [->|Hm0]; cbn [negb andb].
  { rewrite Z.mul_0_l. split; [done|]. pose proof (Z.pow_pos_nonneg 256 32). lia. }
  destruct (Z.ltb_spec 34 e) as [H34|H34]; cbn [orb].
  { split; [|done]. intros _. specialize (Hle 32). nia. }
  assert (e = 34 \/ e = 33 \/ e <= 32) as [->|[->|H32]] by lia.
  - change (256 ^ 32) with (256 * 256 ^ (34 - 3)).
    rewrite <- Z.mul_le_mono_pos_r by (apply Z.pow_pos_nonneg; lia).
    rewrite !orb_true_iff, !andb_true_iff, !Z.ltb_lt. lia.
  - change (256 ^ 32) with (65536 * 256 ^ (33 - 3)).
    rewrite <- Z.mul_le_mono_pos_r by (apply Z.pow_pos_nonneg; lia).
    rewrite !orb_true_iff, !andb_true_iff, !Z.ltb_lt. lia.
  - replace (33 <? e) with false by (symmetry; apply Z.ltb_ge; lia).
    replace (32 <? e) with false by (symmetry; apply Z.ltb_ge; lia). rewrite !andb_false_r.
    split; [done|]. intros H. exfalso.
    assert (256 ^ (e - 3) <= 256 ^ 29) by (apply Z.pow_le_mono_r; lia).
    change (256 ^ 32) with (16777216 * 256 ^ 29) in H. pose proof (Z.pow_pos_nonneg 256 29). nia.
Qed.

(** ** Theorems *)

(** [base_uint<256>] implements arithmetic modulo [2^256]: on well-formed
    operands every operator returns a well-formed number whose value is the sum,
    difference, product or shift modulo [2^256] (floor for the right shift), the
    comparisons agree with those of the values, and [bits] is the bit length. *)
Theorem base_uint_refines_Z a b s x :
  wf a -> wf b -> 0 <= s -> in_u32 x ->
  (wf (add a b) /\ val (add a b) = (val a + val b) mod 2 ^ 256) /\
  (wf (sub a b) /\ val (sub a b) = (val a - val b) mod 2 ^ 256) /\
  (wf (mul a b) /\ val (mul a b) = (val a * val b) mod 2 ^ 256) /\
  (wf (mul32 a x) /\ val (mul32 a x) = (val a * x) mod 2 ^ 256) /\
  (wf (shl a s) /\ val (shl a s) = (val a * 2 ^ s) mod 2 ^ 256) /\
  (wf (shr a s) /\ val (shr a s) = val a / 2 ^ s) /\
  (gt a b = (val b <? val a)) /\ (lt a b = (val a <? val b)) /\
  (ge a b = (val b <=? val a)) /\ (le a b = (val a <=? val b)) /\
  (bits a = if val a =? 0 then 0 else Z.log2 (val a) + 1).
Proof.
  intros. split_and!;
    first [ by apply add_spec | by apply sub_spec | by apply mul_spec | by apply mul32_spec
          | by apply shl_spec | by apply shr_spec | by apply gt_spec | by apply lt_spec
          | by apply ge_spec | by apply le_spec | by apply bits_spec ].
Qed.

Lemma base_uint_refines_Z_witness :
  val (mul (of_u64 18446744073709551615) (of_u64 18446744073709551615))
  = 340282366920938463426481119284349108225 /\
  val (sub (of_u64 1) (of_u64 2)) = 2 ^ 256 - 1.
Proof.
  assert (wf (of_u64 18446744073709551615)) as W1 by (apply wf_of_u64; unfold in_u64; lia).
  assert (wf (of_u64 1)) as W2 by (apply wf_of_u64; unfold in_u64; lia).
  assert (wf (of_u64 2)) as W3 by (apply wf_of_u64; unfold in_u64; lia).
  split.
  - destruct (base_uint_refines_Z _ _ 0 0 W1 W1 ltac:(lia) in_u32_0) as (_ & _ & [_ ->] & _).
    vm_compute. reflexivity.
  - destruct (base_uint_refines_Z _ _ 0 0 W2 W3 ltac:(lia) in_u32_0) as (_ & [_ ->] & _).
    vm_compute. reflexivity.
Defined.

Lemma SetCompact_spec c :
  in_u32 c ->
  let '(v, fNegative, fOverflow) := SetCompact c in
  wf v /\ val v = compact_exact c mod 2 ^ 256 /\
  (fOverflow = true <-> 2 ^ 256 <= compact_exact c) /\
  (fNegative = true <-> compact_exact c <> 0 /\ Z.testbit c 23 = true).
Proof.
  intros Hc. destruct (SetCompact_value_spec c Hc) as [Hw Vw].
  unfold SetCompact_value in *. destruct (SetCompact c) as [[v ng] ov] eqn:E. cbn [fst] in *.
  split; [done|]. split; [done|]. clear Hw Vw. unfold SetCompact, compact_exact in *.
  destruct (SetCompact_parts c Hc) as (E1 & E2 & He & Hm). rewrite E1, E2 in E.
  set (e := c / 2 ^ 24) in *. set (m := c mod 2 ^ 23) in *.
  change (Z.land c 0x00800000) with (Z.land c (Z.shiftl 1 23)) in E.
  rewrite (land_bit c 23), negb_involutive in E by lia. injection E as _ <- <-.
  destruct (Z.leb_spec e 3).
  - rewrite Z.shiftr_div_pow2, <- pow256 by lia. change (2 ^ 23) with 8388608 in Hm.
    assert (0 < 256 ^ (3 - e)) by (apply Z.pow_pos_nonneg; lia).
    assert (m / 256 ^ (3 - e) <= m) by (apply Z.div_le_upper_bound; nia).
    replace (34 <? e) with false by (symmetry; apply Z.ltb_ge; lia).
    replace (33 <? e) with false by (symmetry; apply Z.ltb_ge; lia).
    replace (32 <? e) with false by (symmetry; apply Z.ltb_ge; lia). rewrite !andb_false_r.
    split.
    + split; [done|]. intros. exfalso.
      assert (8388608 < 2 ^ 256) by reflexivity. lia.
    + rewrite andb_true_iff, negb_true_iff, Z.eqb_neq. done.
  - split; [by apply overflow_exact|].
    rewrite andb_true_iff, negb_true_iff, Z.eqb_neq.
    assert (0 < 256 ^ (e - 3)) by (apply Z.pow_pos_nonneg; lia).
    split; intros [? ?]; (split; [nia|done]).
Qed.

(** [SetCompact] decodes the documented format [mantissa * 256^(exponent-3)]:
    the number is that value modulo [2^256], the overflow flag is raised exactly
    when the value needs more than 256 bits, and the negative flag exactly when the
    sign bit is set and the decoded word is not zero. *)
Theorem SetCompact_decodes c :
  in_u32 c ->
  let '(v, fNegative, fOverflow) := SetCompact c in
  wf v /\ val v = compact_exact c mod 2 ^ 256 /\
  (fOverflow = true <-> 2 ^ 256 <= compact_exact c) /\
  (fNegative = true <-> compact_exact c <> 0 /\ Z.testbit c 23 = true).
Proof. apply SetCompact_spec. Qed.

Lemma SetCompact_decodes_witness :
  val (SetCompact_value 0x1f00ffff) = 0xffff * 256 ^ 28.
Proof.
  assert (in_u32 0x1f00ffff) as H by (unfold in_u32; lia).
  pose proof (SetCompact_decodes 0x1f00ffff H) as D. unfold SetCompact_value.
  destruct (SetCompact 0x1f00ffff) as [[v n] o]. cbn [fst]. destruct D as (_ & -> & _). vm_compute. reflexivity.
Defined.

Lemma compact_exact_encode m e :
  0 <= m < 2 ^ 23 -> 0 <= e < 256 ->
  compact_exact (m + e * 2 ^ 24) = if e <=? 3 then m / 256 ^ (3 - e) else m * 256 ^ (e - 3).
Proof.
  intros Hm He. destruct (decode_compact m e Hm He) as (Hc & E1 & E2 & _).
  destruct (SetCompact_parts _ Hc) as (E3 & E4 & _). rewrite E1 in E3. rewrite E2 in E4.
  unfold compact_exact. by rewrite <- E3, <- E4.
Qed.

(** The number decoded from a normalised mantissa at exponent [sz]. *)
Lemma decode_mantissa v sz :
  0 <= v -> 0 <= sz < 256 -> 0 <= mantissa v sz < 2 ^ 23 ->
  compact_exact (mantissa v sz + sz * 2 ^ 24) = v - v mod 256 ^ Z.max 0 (sz - 3).
Proof.
  intros Hv Hs Hm. rewrite compact_exact_encode by done. unfold mantissa in *.
  destruct (Z.leb_spec sz 3).
  - rewrite Z.div_mul by (apply Z.pow_nonzero; lia). rewrite Z.max_l by lia.
    cbn. rewrite Z.mod_1_r. lia.
  - rewrite Z.max_r by lia. pose proof (Z.pow_pos_nonneg 256 (sz - 3) ltac:(lia) ltac:(lia)).
    pose proof (Z.div_mod v (256 ^ (sz - 3)) ltac:(lia)). lia.
Qed.

(** Truncation leaves the mantissa unchanged. *)
Lemma mantissa_trunc v sz :
  mantissa (v - v mod 256 ^ Z.max 0 (sz - 3)) sz = mantissa v sz.
Proof.
  unfold mantissa. destruct (Z.leb_spec sz 3).
  - rewrite Z.max_l by lia. cbn. by rewrite Z.mod_1_r, Z.sub_0_r.
  - rewrite Z.max_r by lia. set (p := 256 ^ (sz - 3)).
    assert (0 < p) by (apply Z.pow_pos_nonneg; lia).
    pose proof (Z.div_mod v p ltac:(lia)).
    replace (v - v mod p) with (v / p * p) by lia. apply Z.div_mul. lia.
Qed.

Lemma compact_roundtrip_spec a :
  wf a ->
  let c := GetCompact a false in
  let '(v, fNegative, fOverflow) := SetCompact c in
  in_u32 c /\ fNegative = false /\ fOverflow = false /\ wf v /\
  val v = val a - val a mod 256 ^ Z.max 0 (c / 2 ^ 24 - 3) /\
  (val a - val v) * 2 ^ 15 <= val a /\
  GetCompact v false = c.
Proof.
  intros Ha c. pose proof (val_wf_bounds a Ha) as Ba.
  destruct (Z.eq_dec (val a) 0) as [E0|E0].
  { destruct wf_zero as [Wz Vz]. unfold c. rewrite GetCompact_zero by done.
    change (SetCompact 0) with (zero, false, false). rewrite E0, Vz, GetCompact_zero by done.
    change (0 / 2 ^ 24) with 0. cbn. split_and!; try done. }
  destruct (GetCompact_norm a Ha ltac:(lia)) as (sz & Hsz & Hm & Ec). fold c in Ec.
  destruct (decode_compact (mantissa (val a) sz) sz ltac:(lia) ltac:(lia)) as (Hc & Es & Ew & Eb).
  rewrite <- Ec in *. pose proof (SetCompact_spec c Hc) as D.
  destruct (SetCompact c) as [[v ng] ov]. destruct D as (Hv & Vv & Hov & Hng).
  rewrite Ec in Vv, Hov at 1. rewrite decode_mantissa in Vv, Hov by lia.
  assert (c / 2 ^ 24 = sz) as -> by (rewrite <- Es, Z.shiftr_div_pow2 by lia; done).
  set (p := 256 ^ Z.max 0 (sz - 3)) in *.
  assert (0 < p) by (apply Z.pow_pos_nonneg; lia).
  pose proof (Z.mod_pos_bound (val a) p ltac:(lia)) as Hr.
  pose proof (Z.mod_le (val a) p ltac:(lia) ltac:(lia)).
  rewrite Z.mod_small in Vv by lia.
  assert (ng = false) as ->.
  { destruct ng; [|done]. destruct (proj1 Hng eq_refl) as [_ Hb].
    apply Z.eqb_eq in Eb. change 0x00800000 with (Z.shiftl 1 23) in Eb. rewrite land_bit, Hb in Eb by lia. done. }
  assert (ov = false) as -> by (destruct ov; [pose proof (proj1 Hov eq_refl); lia|done]).
  split_and!; try done.
  - rewrite Vv. unfold mantissa in Hm. unfold p in *. destruct (Z.leb_spec sz 3).
    + rewrite Z.max_l in * by lia. change (256 ^ 0) with 1 in *. lia.
    + rewrite Z.max_r in * by lia. set (P := 256 ^ (sz - 3)) in *.
      pose proof (Z.div_mod (val a) P ltac:(lia)).
      replace (val a - (val a - val a mod P)) with (val a mod P) by ring.
      transitivity (P * (val a / P)); [|lia]. apply Z.mul_le_mono_nonneg; [lia|lia|done|lia].
  - assert (val v <> 0).
    { intros Hz. assert (mantissa (val v) sz = mantissa (val a) sz) as E by (rewrite Vv; apply mantissa_trunc).
      rewrite Hz in E. unfold mantissa in E at 1. destruct (Z.leb_spec sz 3); [lia|].
      rewrite Z.div_0_l in E by (apply Z.pow_nonzero; lia). lia. }
    destruct (GetCompact_norm v Hv ltac:(lia)) as (sz' & Hsz' & Hm' & ->).
    assert (mantissa (val v) sz = mantissa (val a) sz) as E by (rewrite Vv; apply mantissa_trunc).
    assert (sz' = sz) as -> by (apply (mantissa_unique (val v)); [lia|done|by rewrite E]).
    by rewrite E.
Qed.

(** A target survives its compact encoding: decoding [GetCompact a] raises no
    flag and gives [a] rounded down to its leading bytes, losing less than one part
    in [2^15], and encoding the result again gives the same word. *)
Theorem compact_roundtrip a :
  wf a ->
  let c := GetCompact a false in
  let '(v, fNegative, fOverflow) := SetCompact c in
  in_u32 c /\ fNegative = false /\ fOverflow = false /\ wf v /\
  val v = val a - val a mod 256 ^ Z.max 0 (c / 2 ^ 24 - 3) /\
  (val a - val v) * 2 ^ 15 <= val a /\
  GetCompact v false = c.
Proof. apply compact_roundtrip_spec. Qed.

Lemma compact_roundtrip_witness :
  GetCompact (SetCompact_value (GetCompact (of_u64 0x123456789abcdef) false)) false
  = GetCompact (of_u64 0x123456789abcdef) false.
Proof.
  assert (wf (of_u64 0x123456789abcdef)) as W by (apply wf_of_u64; unfold in_u64; lia).
  pose proof (compact_roundtrip _ W) as H. cbv zeta in H. unfold SetCompact_value.
  destruct (SetCompact _) as [[v n] o]. cbn [fst]. apply H.
Defined.

(** ** Blobs *)

Lemma ReadLE32_sum b0 b1 b2 b3 l :
  0 <= b0 < 256 -> 0 <= b1 < 256 -> 0 <= b2 < 256 ->
  ReadLE32 (b0 :: b1 :: b2 :: b3 :: l) = b0 + b1 * 2 ^ 8 + b2 * 2 ^ 16 + b3 * 2 ^ 24.
Proof.
  intros. unfold ReadLE32. cbn [nth]. rewrite (lor_fields b0 b1 8) by lia.
  rewrite (lor_fields (b0 + b1 * 2 ^ 8) b2 16) by lia.
  by rewrite (lor_fields (b0 + b1 * 2 ^ 8 + b2 * 2 ^ 16) b3 24) by lia.
Qed.

Lemma WriteLE32_bytes x :
  WriteLE32 x = [x mod 256; x / 2 ^ 8 mod 256; x / 2 ^ 16 mod 256; x / 2 ^ 24 mod 256].
Proof.
  unfold WriteLE32. cbn [seq map]. change 0xff with (Z.ones 8). rewrite !Z.land_ones by lia.
  rewrite !Z.shiftr_div_pow2 by lia. change (2 ^ 8) with 256. by rewrite Z.div_1_r.
Qed.

Ltac bytes_lia := change (2 ^ 8) with 256 in *; change (2 ^ 16) with 65536 in *;
  change (2 ^ 24) with 16777216 in *; Z.div_mod_to_equations; lia.

Lemma Write_Read b0 b1 b2 b3 l :
  0 <= b0 < 256 -> 0 <= b1 < 256 -> 0 <= b2 < 256 -> 0 <= b3 < 256 ->
  WriteLE32 (ReadLE32 (b0 :: b1 :: b2 :: b3 :: l)) = [b0; b1; b2; b3].
Proof.
  intros. rewrite ReadLE32_sum, WriteLE32_bytes by done. repeat f_equal; bytes_lia.
Qed.

Lemma Read_Write x l :
  in_u32 x ->
  ReadLE32 (x mod 256 :: x / 2 ^ 8 mod 256 :: x / 2 ^ 16 mod 256 :: x / 2 ^ 24 mod 256 :: l) = x.
Proof.
  intros Hx. unfold in_u32 in Hx.
  rewrite ReadLE32_sum by (apply Z.mod_pos_bound; lia). bytes_lia.
Qed.

(** [ArithToUint256] and [UintToArith256] are inverse to each other: a number
    keeps its value through the little-endian byte blob and back. *)
Lemma blob_roundtrip a b :
  wf a -> blob_ok b ->
  UintToArith256 (ArithToUint256 a) = a /\
  blob_ok (ArithToUint256 a) /\
  ArithToUint256 (UintToArith256 b) = b /\
  wf (UintToArith256 b).
Proof.
  intros [La Oa] [Lb Ob]. split_and!.
  - do 8 (destruct a as [|? a]; [done|]). destruct a; [|done].
    unfold limbs_ok in Oa. rewrite !Forall_cons in Oa. destruct_and! Oa.
    unfold ArithToUint256, limb. cbn [seq flat_map nth WIDTH]. unfold UintToArith256. cbn [seq map WIDTH].
    rewrite !WriteLE32_bytes. cbn [app drop Nat.mul Nat.add].
    by rewrite !Read_Write by done.
  - unfold blob_ok, ArithToUint256. cbn [seq flat_map WIDTH]. rewrite !WriteLE32_bytes. cbn [app].
    split; [done|]. repeat constructor; apply Z.mod_pos_bound; lia.
  - do 32 (destruct b as [|? b]; [done|]). destruct b; [|done].
    rewrite !Forall_cons in Ob. destruct_and! Ob.
    unfold ArithToUint256, UintToArith256, limb. cbn [seq flat_map map nth WIDTH drop Nat.mul Nat.add].
    by rewrite !Write_Read by done.
  - do 32 (destruct b as [|? b]; [done|]). destruct b; [|done].
    rewrite !Forall_cons in Ob. destruct_and! Ob.
    apply wf_of_limbs; [done|]. unfold limb, UintToArith256. intros i Hi.
    cbn [seq map WIDTH drop Nat.mul Nat.add].
    rewrite !ReadLE32_sum by done.
    do 8 (destruct i as [|i]; [cbn [nth]; unfold in_u32; bytes_lia|]). unfold WIDTH in Hi. lia.
Qed.
