(* ===== verification/Serialize.v ===== *)
(** * Serialization (src/src/serialize.h)

    A stream is the list of bytes still to be read; writing appends bytes, reading
    returns the object and the rest, and an exception is [None].  A [codec] packs
    the two directions of one type with the values it is meant for; the class
    [RoundTrip] says that reading back what was written, in front of any other
    data, returns the object and leaves exactly the other data. *)

From stdpp Require Import gmap list.
From Stdlib Require Import ZArith Lia.
From S2P Require Import Prelude.

Open Scope Z_scope.

(** ** Streams *)

Definition stream : Type := list Z.

Definition read (n : nat) (s : stream) : option (list Z * stream) :=
  if (n <=? length s)%nat then Some (take n s, drop n s) else None.

Definition byte_ok (b : Z) : Prop := 0 <= b < 256.

(** ** Codecs *)

Record codec (A : Type) := mkCodec {
  enc : A -> stream;
  dec : stream -> option (A * stream);
  valid : A -> Prop
}.
Arguments mkCodec {A}.
Arguments enc {A}.
Arguments dec {A}.
Arguments valid {A}.

Class RoundTrip {A} (c : codec A) : Prop :=
  roundtrip a rest : valid c a -> dec c (enc c a ++ rest) = Some (a, rest).

(** ** Fixed-width integers: least significant byte first *)

Fixpoint le_bytes (n : nat) (z : Z) : list Z :=
  match n with
  | O => []
  | S n => z mod 256 :: le_bytes n (z / 256)
  end.

Fixpoint le_value (l : list Z) : Z :=
  match l with
  | [] => 0
  | b :: l => b + 256 * le_value l
  end.

Definition ser_writedata8 (z : Z) : stream := le_bytes 1 z.
Definition ser_writedata16 (z : Z) : stream := le_bytes 2 z.
Definition ser_writedata32 (z : Z) : stream := le_bytes 4 z.
Definition ser_writedata64 (z : Z) : stream := le_bytes 8 z.

Definition ser_readdata (n : nat) (s : stream) : option (Z * stream) :=
  '(l, s) ← read n s; Some (le_value l, s).
Definition ser_readdata8 := ser_readdata 1.
Definition ser_readdata16 := ser_readdata 2.
Definition ser_readdata32 := ser_readdata 4.
Definition ser_readdata64 := ser_readdata 8.

Definition u8_codec : codec Z := mkCodec ser_writedata8 ser_readdata8 (fun z => 0 <= z < 256).
Definition u16_codec : codec Z := mkCodec ser_writedata16 ser_readdata16 (fun z => 0 <= z < 65536).
Definition u32_codec : codec Z := mkCodec ser_writedata32 ser_readdata32 in_u32.
Definition u64_codec : codec Z := mkCodec ser_writedata64 ser_readdata64 in_u64.
Definition i32_codec : codec Z :=
  mkCodec ser_writedata32 (fun s : stream => '(z, s) ← ser_readdata32 s; Some (i32 z, s)) in_i32.
Definition i64_codec : codec Z :=
  mkCodec ser_writedata64 (fun s : stream => '(z, s) ← ser_readdata64 s; Some (i64 z, s)) in_i64.
Definition bool_codec : codec bool :=
  mkCodec (A:=bool) (fun b => ser_writedata8 (if b then 1 else 0))
          (fun s : stream => '(f, s) ← ser_readdata8 s; Some (negb (f =? 0), s)) (fun _ => True).

(** ** Compact sizes *)

Definition MAX_SIZE : Z := 0x10000000.

Definition GetSizeOfCompactSize (nSize : Z) : nat :=
  if nSize <? 253 then 1
  else if nSize <=? 65535 then 3
  else if nSize <=? 4294967295 then 5
  else 9.

Definition WriteCompactSize (nSize : Z) : stream :=
  if nSize <? 253 then ser_writedata8 nSize
  else if nSize <=? 65535 then ser_writedata8 253 ++ ser_writedata16 nSize
  else if nSize <=? 4294967295 then ser_writedata8 254 ++ ser_writedata32 nSize
  else ser_writedata8 255 ++ ser_writedata64 nSize.

Definition ReadCompactSize (range_check : bool) (s : stream) : option (Z * stream) :=
  '(chSize, s) ← ser_readdata8 s;
  '(nSizeRet, s) ←
    (if chSize <? 253 then Some (chSize, s)
     else if chSize =? 253 then
       '(n, s) ← ser_readdata16 s; if n <? 253 then None else Some (n, s)
     else if chSize =? 254 then
       '(n, s) ← ser_readdata32 s; if n <? 0x10000 then None else Some (n, s)
     else
       '(n, s) ← ser_readdata64 s; if n <? 0x100000000 then None else Some (n, s));
  if range_check && (MAX_SIZE <? nSizeRet) then None else Some (nSizeRet, s).

Definition compact_codec : codec Z :=
  mkCodec WriteCompactSize (ReadCompactSize true) (fun z => 0 <= z <= MAX_SIZE).

(** ** Variable-length integers

    The writer fills a temporary array from the least significant group of seven
    bits and emits it backwards; [bits] is the width of the integer type. *)

Fixpoint varint_groups (fuel : nat) (n : Z) (first : bool) : list Z :=
  match fuel with
  | O => []
  | S fuel =>
      let b := Z.lor (Z.land n 0x7f) (if first then 0 else 0x80) in
      if n <=? 0x7f then [b]
      else b :: varint_groups fuel (Z.shiftr n 7 - 1) false
  end.

Definition WriteVarInt (bits : Z) (n : Z) : stream :=
  reverse (varint_groups (Z.to_nat ((bits + 6) / 7)) n true).

Fixpoint ReadVarInt_from (max : Z) (s : stream) (n : Z) : option (Z * stream) :=
  match s with
  | [] => None
  | chData :: s =>
      if Z.shiftr max 7 <? n then None
      else
        let n := Z.lor (Z.shiftl n 7) (Z.land chData 0x7f) in
        if negb (Z.land chData 0x80 =? 0) then
          if n =? max then None else ReadVarInt_from max s (n + 1)
        else Some (n, s)
  end.

Definition ReadVarInt (bits : Z) (s : stream) : option (Z * stream) :=
  ReadVarInt_from (2 ^ bits - 1) s 0.

Definition varint_codec (bits : Z) : codec Z :=
  mkCodec (WriteVarInt bits) (ReadVarInt bits) (fun n => 0 <= n < 2 ^ bits).

(** ** Byte arrays, strings and byte vectors *)

Definition blob_codec (n : nat) : codec (list Z) :=
  mkCodec (fun l => l) (read n) (fun l => length l = n).

Definition bytes_codec : codec (list Z) :=
  mkCodec (fun l => WriteCompactSize (Z.of_nat (length l)) ++ l)
          (fun s : stream => '(nSize, s) ← ReadCompactSize true s; read (Z.to_nat nSize) s)
          (fun l => Z.of_nat (length l) <= MAX_SIZE).

(** A hash or key id of [n] bytes is a number whose first byte is the most
    significant one, so that the order of numbers is that of [memcmp]. *)
Definition id_bytes (n : nat) (id : N) : list Z := reverse (le_bytes n (Z.of_N id)).

Definition id_codec (n : nat) : codec N :=
  mkCodec (id_bytes n)
          (fun s : stream => '(l, s) ← read n s; Some (Z.to_N (le_value (reverse l)), s))
          (fun id => (Z.of_N id < 256 ^ Z.of_nat n)).

(** ** Pairs, vectors, maps *)

Definition pair_codec {A B} (ca : codec A) (cb : codec B) : codec (A * B) :=
  mkCodec (fun x => enc ca x.1 ++ enc cb x.2)
          (fun s : stream => '(a, s) ← dec ca s; '(b, s) ← dec cb s; Some ((a, b), s))
          (fun x => valid ca x.1 /\ valid cb x.2).

Fixpoint read_n {A} (c : codec A) (n : nat) (s : stream) : option (list A * stream) :=
  match n with
  | O => Some ([], s)
  | S n =>
      '(a, s) ← dec c s;
      '(l, s) ← read_n c n s;
      Some (a :: l, s)
  end.

Definition vector_codec {A} (c : codec A) : codec (list A) :=
  mkCodec (fun l => WriteCompactSize (Z.of_nat (length l)) ++ flat_map (enc c) l)
          (fun s : stream => '(size, s) ← ReadCompactSize true s; read_n c (Z.to_nat size) s)
          (fun l => Forall (valid c) l /\ Z.of_nat (length l) <= MAX_SIZE).

(** [std::map]: the entries in key order; reading inserts them one by one and
    keeps the first entry of a repeated key. *)
Definition insert_new {V} (m : gmap N V) (kv : N * V) : gmap N V :=
  match m !! kv.1 with
  | Some _ => m
  | None => <[kv.1 := kv.2]> m
  end.

Definition map_codec {V} (ck : codec N) (cv : codec V) : codec (gmap N V) :=
  let c := pair_codec ck cv in
  mkCodec (fun m => WriteCompactSize (Z.of_nat (size m)) ++ flat_map (enc c) (in_order m))
          (fun s : stream => '(nSize, s) ← ReadCompactSize true s;
                     '(l, s) ← read_n c (Z.to_nat nSize) s;
                     Some (foldl insert_new ∅ l, s))
          (fun m => map_Forall (fun k v => valid ck k /\ valid cv v) m /\ Z.of_nat (size m) <= MAX_SIZE).

(** A class with [SERIALIZE_METHODS] writes its members one after the other: its
    codec is that of the tuple of members. *)
Definition class_codec {A B} (to : A -> B) (build : B -> A) (c : codec B) : codec A :=
  mkCodec (fun a => enc c (to a))
          (fun s : stream => '(b, s) ← dec c s; Some (build b, s))
          (fun a => valid c (to a) /\ build (to a) = a).

(** [CustomUintFormatter<1>] on an enumeration. *)
Definition enum_codec {A} (code : A -> Z) (of_code : Z -> A) : codec A :=
  mkCodec (fun a => ser_writedata8 (code a))
          (fun s : stream => '(z, s) ← ser_readdata8 s; Some (of_code z, s))
          (fun a => 0 <= code a < 256 /\ of_code (code a) = a).

(** ** Reading back *)

Lemma read_app n l rest : length l = n -> read n (l ++ rest) = Some (l, rest).
Proof.
  intros <-. unfold read. rewrite length_app.
  destruct (Nat.leb_spec (length l) (length l + length rest)); [|lia].
  by rewrite take_app_length, drop_app_length.
Qed.

Lemma read_inv n s l rest : read n s = Some (l, rest) -> s = l ++ rest /\ length l = n.
Proof.
  unfold read. destruct (Nat.leb_spec n (length s)); intros [= <- <-].
  split; [by rewrite take_drop|]. rewrite length_take. lia.
Qed.

Lemma length_le_bytes n : forall z, length (le_bytes n z) = n.
Proof. induction n as [|n IH]; intros z; cbn; [done|]. by rewrite IH. Qed.

Lemma le_bytes_ok n : forall z, Forall byte_ok (le_bytes n z).
Proof.
  induction n as [|n IH]; intros z; cbn; constructor; [|done]. apply Z.mod_pos_bound. lia.
Qed.

Lemma le_value_bytes n : forall z, le_value (le_bytes n z) = z mod 256 ^ Z.of_nat n.
Proof.
  induction n as [|n IH]; intros z; [by rewrite Z.mod_1_r|].
  cbn [le_bytes le_value]. rewrite IH, Nat2Z.inj_succ, Z.pow_succ_r by lia.
  rewrite Z.rem_mul_r by (try lia; apply Z.pow_pos_nonneg; lia). lia.
Qed.

Lemma le_value_range l : Forall byte_ok l -> 0 <= le_value l < 256 ^ Z.of_nat (length l).
Proof.
  induction 1 as [|b l Hb Hl IH]; [cbn; lia|]. cbn [le_value length].
  rewrite Nat2Z.inj_succ, Z.pow_succ_r by lia. unfold byte_ok in Hb. lia.
Qed.

Lemma le_bytes_value l : Forall byte_ok l -> le_bytes (length l) (le_value l) = l.
Proof.
  induction 1 as [|b l Hb Hl IH]; [done|]. cbn [le_value length le_bytes]. unfold byte_ok in Hb.
  rewrite (Z.mul_comm 256), Z.mod_add, Z.mod_small, Z.div_add, Z.div_small by lia.
  by rewrite Z.add_0_l, IH.
Qed.

Lemma ser_readdata_app n z rest :
  ser_readdata n (le_bytes n z ++ rest) = Some (z mod 256 ^ Z.of_nat n, rest).
Proof. unfold ser_readdata. rewrite read_app by apply length_le_bytes. cbn. by rewrite le_value_bytes. Qed.

Lemma ser_readdata_small n z rest :
  0 <= z < 256 ^ Z.of_nat n -> ser_readdata n (le_bytes n z ++ rest) = Some (z, rest).
Proof. intros. by rewrite ser_readdata_app, Z.mod_small by done. Qed.

Lemma ser_readdata_inv n s z rest :
  Forall byte_ok s -> ser_readdata n s = Some (z, rest) ->
  s = le_bytes n z ++ rest /\ 0 <= z < 256 ^ Z.of_nat n /\ Forall byte_ok rest.
Proof.
  unfold ser_readdata. intros Hs. destruct (read n s) as [[l s']|] eqn:E; cbn; [|done].
  intros [= <- <-]. apply read_inv in E as [-> <-]. apply Forall_app in Hs as [Hl Hr].
  rewrite le_bytes_value by done. split_and!; try done; by apply le_value_range.
Qed.

#[export] Instance u8_roundtrip : RoundTrip u8_codec.
Proof. intros z rest H. by apply (ser_readdata_small 1). Qed.
#[export] Instance u16_roundtrip : RoundTrip u16_codec.
Proof. intros z rest H. by apply (ser_readdata_small 2). Qed.
#[export] Instance u32_roundtrip : RoundTrip u32_codec.
Proof. intros z rest H. by apply (ser_readdata_small 4). Qed.
#[export] Instance u64_roundtrip : RoundTrip u64_codec.
Proof. intros z rest H. by apply (ser_readdata_small 8). Qed.

#[export] Instance i32_roundtrip : RoundTrip i32_codec.
Proof.
  intros z rest H. cbn [dec enc i32_codec]. unfold ser_readdata32, ser_writedata32.
  rewrite ser_readdata_app. cbn [mbind option_bind].
  change (256 ^ Z.of_nat 4) with 4294967296. do 2 f_equal. unfold i32.
  rewrite Zplus_mod_idemp_l. apply (i32_id z H).
Qed.

#[export] Instance i64_roundtrip : RoundTrip i64_codec.
Proof.
  intros z rest H. cbn [dec enc i64_codec]. unfold ser_readdata64, ser_writedata64.
  rewrite ser_readdata_app. cbn [mbind option_bind].
  change (256 ^ Z.of_nat 8) with 18446744073709551616. do 2 f_equal. unfold i64.
  rewrite Zplus_mod_idemp_l. apply (i64_id z H).
Qed.

#[export] Instance bool_roundtrip : RoundTrip bool_codec.
Proof. intros [] rest _; reflexivity. Qed.

(** [solve_read] runs the reader on explicitly written integers. *)
Ltac solve_read :=
  repeat match goal with
  | |- context [ser_readdata ?n (le_bytes ?n ?z ++ ?r)] =>
      rewrite (ser_readdata_small n z r) by
        (change (256 ^ Z.of_nat 1) with 256; change (256 ^ Z.of_nat 2) with 65536;
         change (256 ^ Z.of_nat 4) with 4294967296;
         change (256 ^ Z.of_nat 8) with 18446744073709551616; lia);
      cbn [mbind option_bind]
  end.

Lemma ReadCompactSize_app rc n rest :
  in_u64 n -> (rc = true -> n <= MAX_SIZE) ->
  ReadCompactSize rc (WriteCompactSize n ++ rest) = Some (n, rest).
Proof.
  unfold in_u64. intros Hn Hrc.
  unfold ReadCompactSize, WriteCompactSize, ser_readdata8, ser_readdata16, ser_readdata32,
    ser_readdata64, ser_writedata8, ser_writedata16, ser_writedata32, ser_writedata64.
  assert ((rc && (MAX_SIZE <? n)) = false) as Hc.
  { destruct rc; [|done]. apply Z.ltb_ge. by apply Hrc. }
  destruct (Z.ltb_spec n 253); [|destruct (Z.leb_spec n 65535); [|destruct (Z.leb_spec n 4294967295)]];
    rewrite <- ?app_assoc; solve_read.
  - destruct (Z.ltb_spec n 253); [|lia]. cbn. by rewrite Hc.
  - cbn [Z.ltb Z.compare Pos.compare Pos.compare_cont Z.eqb Pos.eqb]. solve_read.
    destruct (Z.ltb_spec n 253); [lia|]. cbn. by rewrite Hc.
  - cbn [Z.ltb Z.compare Pos.compare Pos.compare_cont Z.eqb Pos.eqb]. solve_read.
    destruct (Z.ltb_spec n 65536); [lia|]. cbn. by rewrite Hc.
  - cbn [Z.ltb Z.compare Pos.compare Pos.compare_cont Z.eqb Pos.eqb]. solve_read.
    destruct (Z.ltb_spec n 4294967296); [lia|]. cbn. by rewrite Hc.
Qed.

#[export] Instance compact_roundtrip_ : RoundTrip compact_codec.
Proof.
  intros n rest [H0 H1]. apply ReadCompactSize_app; [|done]. unfold in_u64. unfold MAX_SIZE in H1. lia.
Qed.

Lemma WriteCompactSize_length n : length (WriteCompactSize n) = GetSizeOfCompactSize n.
Proof. unfold WriteCompactSize, GetSizeOfCompactSize. repeat case_if; reflexivity. Qed.

(** ** Variable-length integers *)

Lemma land_7f n : Z.land n 0x7f = n mod 128.
Proof. change 0x7f with (Z.ones 7). by rewrite Z.land_ones by lia. Qed.

Lemma shiftr_7 n : Z.shiftr n 7 = n / 128.
Proof. by rewrite Z.shiftr_div_pow2 by lia. Qed.

Lemma group_join n : Z.lor (Z.shiftl (n / 128) 7) (n mod 128) = n.
Proof.
  rewrite Z.lor_comm, lor_fields by (try lia; apply Z.mod_pos_bound; lia).
  change (2 ^ 7) with 128. pose proof (Z.div_mod n 128). lia.
Qed.

Lemma group_byte n (first : bool) :
  let b := Z.lor (n mod 128) (if first then 0 else 0x80) in
  Z.land b 0x7f = n mod 128 /\ Z.land b 0x80 = if first then 0 else 0x80.
Proof.
  pose proof (Z.mod_pos_bound n 128 ltac:(lia)) as Hn. revert Hn. generalize (n mod 128). intros m Hm.
  assert (forallb (fun k => let m := Z.of_nat k in
            (Z.land (Z.lor m 0) 0x7f =? m) && (Z.land (Z.lor m 0) 0x80 =? 0) &&
            (Z.land (Z.lor m 0x80) 0x7f =? m) && (Z.land (Z.lor m 0x80) 0x80 =? 0x80)) (seq 0 128) = true)
    as H by (vm_compute; reflexivity).
  rewrite forallb_forall in H. specialize (H (Z.to_nat m) ltac:(apply in_seq; lia)).
  cbv zeta in H. rewrite Z2Nat.id in H by lia. bool_to_prop. by destruct first.
Qed.

(** The continuation groups of [m] bring the accumulator from 0 to [m + 1]. *)
Lemma ReadVarInt_groups max fuel : forall m rest,
  fuel <> O -> 0 <= m < 2 ^ (7 * Z.of_nat fuel) -> m < max ->
  ReadVarInt_from max (reverse (varint_groups fuel m false) ++ rest) 0 =
  ReadVarInt_from max rest (m + 1).
Proof.
  induction fuel as [|fuel IH]; intros m rest H0 Hm Hmax; [done|].
  cbn [varint_groups]. rewrite land_7f, shiftr_7.
  destruct (group_byte m false) as [Hlo Hhi]. set (b := Z.lor (m mod 128) 0x80) in *.
  destruct (Z.leb_spec m 0x7f).
  - cbn [reverse app rev_append]. cbn [ReadVarInt_from].
    rewrite shiftr_7. destruct (Z.ltb_spec (max / 128) 0); [pose proof (Z.div_pos max 128); lia|].
    rewrite Hlo, Hhi, Z.shiftl_0_l, Z.lor_0_l, Z.mod_small by lia. cbn [Z.eqb negb].
    destruct (Z.eqb_spec m max); [lia|]. done.
  - rewrite reverse_cons, <- app_assoc. rewrite IH; cbn [app].
    + rewrite Z.sub_add. cbn [ReadVarInt_from]. rewrite shiftr_7.
      destruct (Z.ltb_spec (max / 128) (m / 128)); [pose proof (Z.div_le_mono m max 128); lia|].
      rewrite Hlo, Hhi, group_join. cbn [Z.eqb negb]. destruct (Z.eqb_spec m max); [lia|]. done.
    + intros ->. cbn in Hm. lia.
    + assert (2 ^ (7 * Z.of_nat (S fuel)) = 128 * 2 ^ (7 * Z.of_nat fuel)) as E.
      { rewrite Nat2Z.inj_succ, Z.mul_succ_r, Z.add_comm, Z.pow_add_r by lia. reflexivity. }
      pose proof (Z.div_lt_upper_bound m 128 (2 ^ (7 * Z.of_nat fuel)) ltac:(lia) ltac:(lia)).
      pose proof (Z.div_le_lower_bound m 128 1). lia.
    + pose proof (Z.div_lt m 128). lia.
Qed.

Lemma varint_fuel bits : 0 < bits -> bits <= 7 * Z.of_nat (Z.to_nat ((bits + 6) / 7)).
Proof.
  intros H. rewrite Z2Nat.id by (apply Z.div_pos; lia). pose proof (Z.div_mod (bits + 6) 7).
  pose proof (Z.mod_pos_bound (bits + 6) 7). lia.
Qed.

Lemma varint_roundtrip_at bits n rest :
  7 <= bits -> 0 <= n < 2 ^ bits -> ReadVarInt bits (WriteVarInt bits n ++ rest) = Some (n, rest).
Proof.
  intros Hb Hn. unfold ReadVarInt, WriteVarInt.
  pose proof (varint_fuel bits ltac:(lia)) as Hf.
  assert (2 ^ bits <= 2 ^ (7 * Z.of_nat (Z.to_nat ((bits + 6) / 7)))) by (apply Z.pow_le_mono_r; lia).
  assert (2 ^ 7 <= 2 ^ bits) by (apply Z.pow_le_mono_r; lia). change (2 ^ 7) with 128 in *.
  destruct (Z.to_nat ((bits + 6) / 7)) as [|fuel]; [lia|].
  cbn [varint_groups]. rewrite land_7f, shiftr_7.
  destruct (group_byte n true) as [Hlo Hhi]. set (b := Z.lor (n mod 128) 0) in *.
  set (max := 2 ^ bits - 1) in *.
  assert (forall k, 0 <= k <= n / 128 -> k = n / 128 ->
    ReadVarInt_from max (b :: rest) k = Some (n, rest)) as Hlast.
  { intros k _ ->. cbn [ReadVarInt_from]. rewrite shiftr_7.
    destruct (Z.ltb_spec (max / 128) (n / 128)); [pose proof (Z.div_le_mono n max 128); lia|].
    by rewrite Hlo, Hhi, group_join. }
  pose proof (Z.div_pos n 128).
  destruct (Z.leb_spec n 0x7f).
  - cbn [reverse rev_append app]. apply Hlast; [|rewrite Z.div_small]; lia.
  - rewrite reverse_cons, <- app_assoc. cbn [app].
    assert (2 ^ (7 * Z.of_nat (S fuel)) = 128 * 2 ^ (7 * Z.of_nat fuel)) as E.
    { rewrite Nat2Z.inj_succ, Z.mul_succ_r, Z.add_comm, Z.pow_add_r by lia. reflexivity. }
    pose proof (Z.div_lt_upper_bound n 128 (2 ^ (7 * Z.of_nat fuel)) ltac:(lia) ltac:(lia)).
    pose proof (Z.div_le_lower_bound n 128 1). pose proof (Z.div_lt n 128).
    assert (fuel <> O) by (intros ->; cbn in *; lia).
    rewrite ReadVarInt_groups, Z.sub_add by (done || lia). apply Hlast; lia.
Qed.

#[export] Instance varint32_roundtrip : RoundTrip (varint_codec 32).
Proof. intros n rest H. by apply varint_roundtrip_at. Qed.
#[export] Instance varint64_roundtrip : RoundTrip (varint_codec 64).
Proof. intros n rest H. by apply varint_roundtrip_at. Qed.

(** ** Composite codecs *)

#[export] Instance blob_codec_roundtrip n : RoundTrip (blob_codec n).
Proof. intros l rest H. by apply read_app. Qed.

#[export] Instance bytes_roundtrip : RoundTrip bytes_codec.
Proof.
  intros l rest H. cbn [dec enc bytes_codec valid] in *. rewrite <- app_assoc.
  rewrite ReadCompactSize_app by (unfold in_u64, MAX_SIZE in *; lia). cbn [mbind option_bind].
  apply read_app. lia.
Qed.

#[export] Instance id_roundtrip n : RoundTrip (id_codec n).
Proof.
  intros id rest H. cbn [dec enc id_codec valid] in *. unfold id_bytes.
  rewrite read_app by (rewrite length_reverse; apply length_le_bytes). cbn [mbind option_bind].
  rewrite reverse_involutive, le_value_bytes, Z.mod_small by lia. by rewrite N2Z.id.
Qed.

#[export] Instance pair_roundtrip {A B} (ca : codec A) (cb : codec B) :
  RoundTrip ca -> RoundTrip cb -> RoundTrip (pair_codec ca cb).
Proof.
  intros Ha Hb [a b] rest [Va Vb]. cbn [dec enc pair_codec fst snd] in *. rewrite <- app_assoc.
  rewrite (Ha a _ Va). cbn [mbind option_bind]. by rewrite (Hb b _ Vb).
Qed.

Lemma read_n_app {A} (c : codec A) `{!RoundTrip c} l rest :
  Forall (valid c) l -> read_n c (length l) (flat_map (enc c) l ++ rest) = Some (l, rest).
Proof.
  induction 1 as [|a l Ha Hl IH]; [done|]. cbn [read_n length flat_map]. rewrite <- app_assoc.
  rewrite roundtrip by done. cbn [mbind option_bind]. by rewrite IH.
Qed.

#[export] Instance vector_roundtrip {A} (c : codec A) : RoundTrip c -> RoundTrip (vector_codec c).
Proof.
  intros Hc l rest [Hv Hl]. cbn [dec enc vector_codec]. rewrite <- app_assoc.
  rewrite ReadCompactSize_app by (unfold in_u64, MAX_SIZE in *; lia). cbn [mbind option_bind].
  rewrite Nat2Z.id. by apply read_n_app.
Qed.

Lemma insert_new_fresh {V} (l : list (N * V)) : forall m,
  NoDup l.*1 -> (forall k, k ∈ l.*1 -> m !! k = None) ->
  foldl insert_new m l = list_to_map l ∪ m.
Proof.
  induction l as [|[k v] l IH]; intros m Hnd Hf; cbn.
  - by rewrite (left_id_L ∅ (∪)).
  - cbn in Hnd. apply NoDup_cons in Hnd as [Hk Hnd]. unfold insert_new at 2. cbn.
    rewrite (Hf k) by (cbn; left). rewrite IH; [|done|].
    + rewrite <- insert_union_l, <- insert_union_r; [done|]. by apply not_elem_of_list_to_map_1.
    + intros k' Hk'. rewrite lookup_insert_ne by (intros ->; done). apply Hf. cbn. by right.
Qed.

#[export] Instance map_roundtrip {V} (ck : codec N) (cv : codec V) :
  RoundTrip ck -> RoundTrip cv -> RoundTrip (map_codec ck cv).
Proof.
  intros Hk Hv m rest [Hm Hs]. cbn [dec enc map_codec]. rewrite <- app_assoc.
  rewrite ReadCompactSize_app by (unfold in_u64, MAX_SIZE in *; lia). cbn [mbind option_bind].
  rewrite Nat2Z.id, <- in_order_length, (read_n_app (pair_codec ck cv)).
  - cbn [mbind option_bind]. rewrite insert_new_fresh.
    + by rewrite list_to_map_in_order, (right_id_L ∅ (∪)).
    + apply in_order_NoDup.
    + intros. apply lookup_empty.
  - apply Forall_forall. intros [k v] Hkv. apply elem_of_in_order in Hkv. by apply (Hm k v).
Qed.

#[export] Instance class_roundtrip {A B} (to : A -> B) (build : B -> A) (c : codec B) :
  RoundTrip c -> RoundTrip (class_codec to build c).
Proof.
  intros Hc a rest [Hv Hb]. cbn [dec enc class_codec]. rewrite (Hc _ _ Hv). cbn [mbind option_bind].
  by rewrite Hb.
Qed.

#[export] Instance enum_roundtrip {A} (code : A -> Z) (of_code : Z -> A) :
  RoundTrip (enum_codec code of_code).
Proof.
  intros a rest [Hv Hb]. cbn [dec enc enum_codec]. unfold ser_readdata8, ser_writedata8.
  rewrite ser_readdata_small by done. cbn [mbind option_bind]. by rewrite Hb.
Qed.

(** Two values with the same encoding in front of the same data are equal. *)
Lemma enc_inj {A} (c : codec A) `{!RoundTrip c} a b r r' :
  valid c a -> valid c b -> enc c a ++ r = enc c b ++ r' -> a = b /\ r = r'.
Proof.
  intros Ha Hb E. pose proof (roundtrip a r Ha) as H. rewrite E, roundtrip in H by done.
  by simplify_eq.
Qed.

(** The reader accepts only what the writer produces. *)
Lemma ReadCompactSize_inv rc s k r :
  Forall byte_ok s -> ReadCompactSize rc s = Some (k, r) -> s = WriteCompactSize k ++ r.
Proof.
  intros Hs. unfold ReadCompactSize.
  destruct (ser_readdata8 s) as [[ch s1]|] eqn:E; cbn [mbind option_bind]; [|done].
  apply ser_readdata_inv in E as (-> & Hch & Hs1); [|done]. change (256 ^ Z.of_nat 1) with 256 in Hch.
  assert (forall (b : bool) n (t : stream), (if b then None else Some (n, t)) = Some (k, r) -> n = k /\ t = r)
    as Hout by (by intros [] ?? [= -> ->]).
  destruct (Z.ltb_spec ch 253).
  - intros H1. cbn [mbind option_bind] in H1. apply Hout in H1 as [-> ->]. unfold WriteCompactSize.
    destruct (Z.ltb_spec k 253); [done|lia].
  - assert (forall w n t, ser_readdata w s1 = Some (n, t) ->
              s1 = le_bytes w n ++ t /\ 0 <= n < 256 ^ Z.of_nat w) as Hread.
    { intros w n t H1. apply ser_readdata_inv in H1; tauto. }
    unfold ser_readdata16, ser_readdata32, ser_readdata64.
    destruct (Z.eqb_spec ch 253) as [->|N1]; [|destruct (Z.eqb_spec ch 254) as [->|N2]];
      (edestruct (ser_readdata _ s1) as [[n t]|] eqn:E; cbn [mbind option_bind]; [|done]);
      apply Hread in E as [-> Hn]; intros H2;
      (destruct (n <? _) eqn:E; cbn [mbind option_bind] in H2; [done|]; apply Z.ltb_ge in E);
      apply Hout in H2 as [-> ->]; unfold WriteCompactSize.
    + change (256 ^ Z.of_nat 2) with 65536 in Hn.
      destruct (Z.ltb_spec k 253); [lia|]. destruct (Z.leb_spec k 65535); [done|lia].
    + change (256 ^ Z.of_nat 4) with 4294967296 in Hn.
      destruct (Z.ltb_spec k 253); [lia|]. destruct (Z.leb_spec k 65535); [lia|].
      destruct (Z.leb_spec k 4294967295); [done|lia].
    + destruct (Z.ltb_spec k 253); [lia|]. destruct (Z.leb_spec k 65535); [lia|].
      destruct (Z.leb_spec k 4294967295); [lia|].
      replace ch with 255 by lia. done.
Qed.

(** ** Canonical encodings

    A codec is canonical when its reader accepts nothing but what its writer produces. *)

Class Canonical {A} (c : codec A) : Prop :=
  canonical s a rest : Forall byte_ok s -> dec c s = Some (a, rest) -> s = enc c a ++ rest /\ valid c a.

Lemma canonical_rest {A} (c : codec A) `{!Canonical c} s a rest :
  Forall byte_ok s -> dec c s = Some (a, rest) -> s = enc c a ++ rest /\ valid c a /\ Forall byte_ok rest.
Proof. intros Hs E. destruct (canonical s a rest Hs E) as [-> Hv]. apply Forall_app in Hs. tauto. Qed.

Lemma le_bytes_wrap n z z' : z mod 256 ^ Z.of_nat n = z' mod 256 ^ Z.of_nat n -> le_bytes n z = le_bytes n z'.
Proof.
  intros E. rewrite <- (le_bytes_value (le_bytes n z)), <- (le_bytes_value (le_bytes n z')) by apply le_bytes_ok.
  by rewrite !length_le_bytes, !le_value_bytes, E.
Qed.

#[export] Instance u8_canonical : Canonical u8_codec.
Proof. intros s z rest Hs E. by apply (ser_readdata_inv 1) in E as (-> & ? & _). Qed.
#[export] Instance u32_canonical : Canonical u32_codec.
Proof. intros s z rest Hs E. by apply (ser_readdata_inv 4) in E as (-> & ? & _). Qed.
#[export] Instance u64_canonical : Canonical u64_codec.
Proof. intros s z rest Hs E. by apply (ser_readdata_inv 8) in E as (-> & ? & _). Qed.

#[export] Instance i64_canonical : Canonical i64_codec.
Proof.
  intros s z rest Hs. cbn [dec enc i64_codec valid]. destruct (ser_readdata64 s) as [[x s']|] eqn:E; [|done].
  cbn [mbind option_bind]. intros [= <- <-]. apply (ser_readdata_inv 8) in E as (-> & Hx & _); [|done]. split; [|apply i64_range].
  apply (f_equal (fun l => l ++ s')). unfold ser_writedata64. apply le_bytes_wrap. change (256 ^ Z.of_nat 8) with 18446744073709551616. unfold i64.
  rewrite Zminus_mod_idemp_l. f_equal. lia.
Qed.

Lemma ReadCompactSize_range s k r : Forall byte_ok s -> ReadCompactSize true s = Some (k, r) -> 0 <= k <= MAX_SIZE.
Proof.
  intros Hs. unfold ReadCompactSize. destruct (ser_readdata8 s) as [[ch s1]|] eqn:E; cbn [mbind option_bind]; [|done].
  apply ser_readdata_inv in E as (-> & Hch & Hs1); [|done].
  destruct (if ch <? 253 then _ else _) as [[n t]|] eqn:E; cbn [mbind option_bind]; [|done].
  assert (0 <= n) as Hn.
  { destruct (ch <? 253); [by simplify_eq; lia|]. unfold ser_readdata16, ser_readdata32, ser_readdata64 in E.
    repeat match type of E with
    | (if ?b then _ else _) = _ => destruct b; try done
    | mbind _ ?m = _ => destruct m as [[x t']|] eqn:E1; cbn [mbind option_bind] in E; [|done]
    end; apply ser_readdata_inv in E1 as (_ & Hx & _); simplify_eq; lia || done. }
  destruct (Z.ltb_spec MAX_SIZE n); [done|]. intros [= <- <-]. lia.
Qed.

#[export] Instance bytes_canonical : Canonical bytes_codec.
Proof.
  intros s l rest Hs. cbn [dec enc bytes_codec valid]. destruct (ReadCompactSize true s) as [[k r]|] eqn:E; [|done].
  cbn [mbind option_bind]. intros [-> Hl]%read_inv. pose proof (ReadCompactSize_range _ _ _ Hs E).
  apply ReadCompactSize_inv in E as ->; [|done]. rewrite Hl, Z2Nat.id by lia. rewrite app_assoc. split; [done|lia].
Qed.

#[export] Instance id_canonical n : Canonical (id_codec n).
Proof.
  intros s id rest Hs. cbn [dec enc id_codec valid]. destruct (read n s) as [[l r]|] eqn:E; [|done]. cbn [mbind option_bind].
  intros [= <- <-]. apply read_inv in E as [-> <-]. apply Forall_app in Hs as [Hl _]. apply Forall_reverse in Hl.
  pose proof (le_value_range _ Hl) as Hr. rewrite length_reverse in Hr. unfold id_bytes. rewrite Z2N.id by lia. split; [|lia].
  rewrite <- (length_reverse l), le_bytes_value by done. by rewrite reverse_involutive.
Qed.

#[export] Instance pair_canonical {A B} (ca : codec A) (cb : codec B) : Canonical ca -> Canonical cb -> Canonical (pair_codec ca cb).
Proof.
  intros Ha Hb s [a b] rest Hs. cbn [dec enc pair_codec valid fst snd]. destruct (dec ca s) as [[a' s1]|] eqn:E; [|done].
  cbn [mbind option_bind]. destruct (dec cb s1) as [[b' s2]|] eqn:E'; [|done]. intros [= -> -> ->].
  apply (canonical_rest ca) in E as (-> & Va & Hs1); [|done]. apply (canonical_rest cb) in E' as (-> & Vb & _); [|done].
  by rewrite app_assoc.
Qed.

Lemma read_n_inv {A} (c : codec A) `{!Canonical c} k : forall s l rest, Forall byte_ok s -> read_n c k s = Some (l, rest) ->
  s = flat_map (enc c) l ++ rest /\ Forall (valid c) l /\ length l = k.
Proof.
  induction k as [|k IH]; intros s l rest Hs; cbn [read_n]; [by intros [= <- <-]|].
  destruct (dec c s) as [[a s1]|] eqn:E; [|done]. cbn [mbind option_bind]. destruct (read_n c k s1) as [[l' s2]|] eqn:E'; [|done].
  intros [= <- <-]. apply (canonical_rest c) in E as (-> & Va & Hs1); [|done]. apply IH in E' as (-> & Vl & <-); [|done].
  cbn [flat_map]. rewrite app_assoc. split; [done|]. split; [by constructor|done].
Qed.

#[export] Instance vector_canonical {A} (c : codec A) : Canonical c -> Canonical (vector_codec c).
Proof.
  intros Hc s l rest Hs. cbn [dec enc vector_codec valid]. destruct (ReadCompactSize true s) as [[k r]|] eqn:E; [|done].
  cbn [mbind option_bind]. intros El. pose proof (ReadCompactSize_range _ _ _ Hs E).
  apply ReadCompactSize_inv in E as ->; [|done]. apply Forall_app in Hs as [_ Hr].
  apply read_n_inv in El as (-> & Vl & Hl); [|done..]. rewrite Hl, Z2Nat.id by lia. rewrite app_assoc. split; [done|]. split; [done|lia].
Qed.

Lemma class_canonical {A B} (to : A -> B) (build : B -> A) (c : codec B) : (forall b, to (build b) = b) ->
  Canonical c -> Canonical (class_codec to build c).
Proof.
  intros Hb Hc s a rest Hs. cbn [dec enc class_codec valid]. destruct (dec c s) as [[b r]|] eqn:E; [|done]. cbn [mbind option_bind].
  intros [= <- <-]. apply canonical in E as [-> Hv]; [|done]. by rewrite Hb.
Qed.

(** ** Big-endian numbers *)

Definition be_value (l : list Z) : Z := le_value (reverse l).

Lemma le_value_app l l' : le_value (l ++ l') = le_value l + 256 ^ Z.of_nat (length l) * le_value l'.
Proof.
  induction l as [|x l IH]; cbn [app le_value length]; [lia|].
  rewrite IH, Nat2Z.inj_succ, Z.pow_succ_r by lia. lia.
Qed.

Lemma be_value_cons x l : be_value (x :: l) = x * 256 ^ Z.of_nat (length l) + be_value l.
Proof. unfold be_value. rewrite reverse_cons, le_value_app, length_reverse. cbn [le_value]. lia. Qed.

Lemma be_value_range l : Forall byte_ok l -> 0 <= be_value l < 256 ^ Z.of_nat (length l).
Proof. intros H. rewrite <- (length_reverse l). apply le_value_range. by apply Forall_reverse. Qed.

(** ** Properties *)

(** Compact sizes are a bijection on what the reader accepts.  Every 64-bit size
    reads back in front of any data (up to [MAX_SIZE] with the range check), the
    written length is what [GetSizeOfCompactSize] predicts, and conversely the
    reader accepts only the canonical encoding: whatever it returns, the bytes it
    consumed are the ones the writer produces. *)
Theorem compact_size_canonical rc n rest s :
  in_u64 n -> (rc = true -> n <= MAX_SIZE) -> Forall byte_ok s ->
  ReadCompactSize rc (WriteCompactSize n ++ rest) = Some (n, rest) /\
  length (WriteCompactSize n) = GetSizeOfCompactSize n /\
  (forall k r, ReadCompactSize rc s = Some (k, r) -> s = WriteCompactSize k ++ r).
Proof.
  intros Hn Hrc Hs. split; [by apply ReadCompactSize_app|].
  split; [apply WriteCompactSize_length|]. intros k r. apply ReadCompactSize_inv, Hs.
Qed.

Lemma compact_size_canonical_witness :
  ReadCompactSize true (WriteCompactSize 1000 ++ [1; 2]) = Some (1000, [1; 2]) /\
  length (WriteCompactSize 1000) = 3%nat /\
  ReadCompactSize true [253; 252; 0] = None.
Proof.
  destruct (compact_size_canonical true 1000 [1; 2] [253; 252; 0]) as (H1 & H2 & H3).
  - unfold in_u64. lia.
  - intros _. unfold MAX_SIZE. lia.
  - repeat constructor; unfold byte_ok; lia.
  - split; [exact H1|]. split; [exact H2|reflexivity].
Defined.
