(* ===== verification/Der.v ===== *)
(** * DER signatures (script/interpreter.cpp)

    The strict encoding of signatures that scripts and block headers require, and what it
    means: two integers in the shortest form, and one encoding for each pair. *)

From stdpp Require Import list.
From Stdlib Require Import ZArith Lia.
From S2P Require Import Prelude Serialize.

Open Scope Z_scope.

Module Der.

Definition size (s : list Z) : Z := Z.of_nat (length s).
Definition byte_at (s : list Z) (i : Z) : Z := nth (Z.to_nat i) s 0.

Definition IsValidSignatureEncoding (sig : list Z) (haveHashType : bool) : bool :=
  if size sig <? 9 then false
  else if 73 <? size sig then false
  else if negb (byte_at sig 0 =? 0x30) then false
  else if negb (byte_at sig 1 =? size sig - (if haveHashType then 3 else 2)) then false
  else
    let lenR := byte_at sig 3 in
    if size sig <=? 5 + lenR then false
    else
      let lenS := byte_at sig (5 + lenR) in
      if negb (lenR + lenS + (if haveHashType then 7 else 6) =? size sig) then false
      else if negb (byte_at sig 2 =? 0x02) then false
      else if lenR =? 0 then false
      else if negb (Z.land (byte_at sig 4) 0x80 =? 0) then false
      else if (1 <? lenR) && (byte_at sig 4 =? 0) && (Z.land (byte_at sig 5) 0x80 =? 0) then false
      else if negb (byte_at sig (lenR + 4) =? 0x02) then false
      else if lenS =? 0 then false
      else if negb (Z.land (byte_at sig (lenR + 6)) 0x80 =? 0) then false
      else if (1 <? lenS) && (byte_at sig (lenR + 6) =? 0) && (Z.land (byte_at sig (lenR + 7)) 0x80 =? 0) then false
      else true.

(** [CPubKey::CheckLowS] is a function of libsecp256k1. *)
Definition IsLowDERSignature (CheckLowS : list Z -> bool) (vchSig : list Z) (haveHashType : bool) : bool :=
  if negb (IsValidSignatureEncoding vchSig haveHashType) then false
  else CheckLowS (take (length vchSig - (if haveHashType then 1 else 0)) vchSig).

Definition IsDERSignature (vchSig : list Z) (haveHashType : bool) : bool := IsValidSignatureEncoding vchSig haveHashType.

(** ** The encoding it accepts *)

(** A non-negative integer in the fewest bytes that leave its sign bit clear. *)
Definition int_length (n : Z) : nat := Z.to_nat ((Z.log2 n + 1) / 8 + 1).
Definition der_int (n : Z) : list Z := reverse (le_bytes (int_length n) n).

Definition der_element (n : Z) : list Z := 0x02 :: size (der_int n) :: der_int n.
Definition der_signature (r s : Z) : list Z := 0x30 :: size (der_element r ++ der_element s) :: der_element r ++ der_element s.

(** The conditions on the bytes of an integer. *)
Definition int_bytes_ok (l : list Z) : Prop :=
  l <> [] /\ byte_at l 0 < 128 /\ (1 < size l -> byte_at l 0 = 0 -> 128 <= byte_at l 1).

Lemma high_bit b : byte_ok b -> (Z.land b 0x80 =? 0) = (b <? 128).
Proof.
  intros Hb. assert (HA : Forall (fun b => (Z.land b 0x80 =? 0) = (b <? 128)) (seqZ 0 256)).
  { apply Forall_forall. intros x Hx. apply elem_of_seqZ in Hx.
    assert (HT : forallb (fun b => Bool.eqb (Z.land b 0x80 =? 0) (b <? 128)) (seqZ 0 256) = true) by (vm_compute; reflexivity).
    rewrite forallb_forall in HT. apply Bool.eqb_prop, HT. apply list_elem_of_In, elem_of_seqZ. lia. }
  rewrite Forall_forall in HA. apply HA, elem_of_seqZ. unfold byte_ok in Hb. lia.
Qed.

(** The number of bytes by the size of the number. *)
Lemma int_length_spec n k : 0 <= n ->
  int_length n = S k <-> n < 128 * 256 ^ Z.of_nat k /\ (k = 0%nat \/ 128 * 256 ^ (Z.of_nat k - 1) <= n).
Proof.
  intros Hn. unfold int_length. pose proof (Z.log2_nonneg n) as HL.
  assert (HD : 0 <= (Z.log2 n + 1) / 8) by (apply Z.div_pos; lia).
  assert (E1 : 128 * 256 ^ Z.of_nat k = 2 ^ (8 * Z.of_nat k + 7)).
  { change 256 with (2 ^ 8). rewrite <- Z.pow_mul_r by lia. rewrite Z.pow_add_r by lia. change (2 ^ 7) with 128. lia. }
  transitivity ((Z.log2 n + 1) / 8 = Z.of_nat k); [lia|].
  destruct (decide (n = 0)) as [->|Hz].
  - change (Z.log2 0) with 0. change ((0 + 1) / 8) with 0. split.
    + intros Hk. assert (k = 0%nat) as -> by lia. split; [reflexivity|by left].
    + intros [_ [->|Hk]]; [done|]. pose proof (Z.pow_nonneg 256 (Z.of_nat k - 1) ltac:(lia)).
      destruct k as [|k]; [done|]. pose proof (Z.pow_pos_nonneg 256 (Z.of_nat (S k) - 1) ltac:(lia) ltac:(lia)). lia.
  - assert (Hp : 0 < n) by lia. rewrite E1.
    assert (HU : n < 2 ^ (8 * Z.of_nat k + 7) <-> Z.log2 n < 8 * Z.of_nat k + 7) by (apply Z.log2_lt_pow2; lia).
    rewrite HU. destruct k as [|k].
    + split; [intros Hk; split; [|by left]|intros [Hk _]]; [|rewrite Z.div_small by lia; done].
      pose proof (Z.mod_pos_bound (Z.log2 n + 1) 8 ltac:(lia)). pose proof (Z.div_mod (Z.log2 n + 1) 8 ltac:(lia)). lia.
    + assert (E2 : 128 * 256 ^ (Z.of_nat (S k) - 1) = 2 ^ (8 * Z.of_nat (S k) - 1)).
      { change 256 with (2 ^ 8). rewrite <- Z.pow_mul_r by lia. change 128 with (2 ^ 7). rewrite <- Z.pow_add_r by lia. f_equal. lia. }
      rewrite E2. assert (HW : 2 ^ (8 * Z.of_nat (S k) - 1) <= n <-> 8 * Z.of_nat (S k) - 1 <= Z.log2 n) by (apply Z.log2_le_pow2; lia).
      rewrite HW. pose proof (Z.mod_pos_bound (Z.log2 n + 1) 8 ltac:(lia)). pose proof (Z.div_mod (Z.log2 n + 1) 8 ltac:(lia)).
      split; [intros Hk; split; [|right]; lia|]. intros [? [?|?]]; [done|]. lia.
Qed.

Lemma der_int_length n : length (der_int n) = int_length n.
Proof. unfold der_int. by rewrite length_reverse, length_le_bytes. Qed.

Lemma der_int_bytes n : Forall byte_ok (der_int n).
Proof. apply Forall_reverse, le_bytes_ok. Qed.

Lemma der_int_value n : 0 <= n -> be_value (der_int n) = n.
Proof.
  intros Hn. unfold be_value, der_int. rewrite reverse_involutive, le_value_bytes, Z.mod_small; [done|]. split; [done|].
  assert (exists k, int_length n = S k) as [k E].
  { unfold int_length. exists (Z.to_nat ((Z.log2 n + 1) / 8)). pose proof (Z.log2_nonneg n).
    assert (0 <= (Z.log2 n + 1) / 8) by (apply Z.div_pos; lia). lia. }
  rewrite E. apply (int_length_spec n k Hn) in E as [E _]. rewrite Nat2Z.inj_succ, Z.pow_succ_r by lia.
  pose proof (Z.pow_pos_nonneg 256 (Z.of_nat k) ltac:(lia) ltac:(lia)). lia.
Qed.

(** The bytes are those of an integer exactly when they are its shortest encoding. *)
Lemma int_bytes_exact l : Forall byte_ok l -> int_bytes_ok l <-> l = der_int (be_value l).
Proof.
  intros Hl. pose proof (be_value_range l Hl) as Hr.
  assert (HE : l = der_int (be_value l) <-> int_length (be_value l) = length l).
  { split; [intros E; rewrite <- der_int_length; by rewrite <- E|]. intros E. unfold der_int. rewrite E. unfold be_value.
    rewrite <- (length_reverse l). rewrite le_bytes_value by (by apply Forall_reverse). by rewrite reverse_involutive. }
  rewrite HE. unfold int_bytes_ok. destruct l as [|x l].
  { split; [by intros [? _]|]. change (be_value []) with 0. by intros E%(f_equal Z.of_nat). }
  cbn [length]. rewrite int_length_spec by lia. apply Forall_cons in Hl as [Hx Hl]. pose proof (be_value_range l Hl) as Hrl.
  rewrite be_value_cons in *. unfold byte_at, size. change (Z.to_nat 0) with 0%nat. change (Z.to_nat 1) with 1%nat. cbn [nth]. unfold byte_ok in Hx.
  set (P := 256 ^ Z.of_nat (length l)) in *. assert (0 < P) by (apply Z.pow_pos_nonneg; lia).
  assert (H1 : x < 128 <-> x * P + be_value l < 128 * P) by nia. rewrite H1. destruct l as [|y l].
  - cbn. split; [intros (_ & ? & _); split; [done|by left]|]. intros [? _]. split; [done|]. split; [done|lia].
  - cbn [length]. apply Forall_cons in Hl as [Hy Hl]. pose proof (be_value_range l Hl) as Hrl'. rewrite be_value_cons in *.
    unfold byte_ok in Hy. replace (Z.of_nat (S (length l)) - 1) with (Z.of_nat (length l)) by lia.
    subst P. cbn [length] in *. rewrite Nat2Z.inj_succ, Z.pow_succ_r in * by lia.
    set (Q := 256 ^ Z.of_nat (length l)) in *. assert (0 < Q) by (apply Z.pow_pos_nonneg; lia).
    cbn [nth]. split.
    + intros (_ & Hlt & Hred). split; [done|]. right. destruct (decide (x = 0)) as [->|]; [|nia]. specialize (Hred ltac:(lia) eq_refl). nia.
    + intros [Hlt [?|Hge]]; [done|]. split; [done|]. split; [done|]. intros _ ->. nia.
Qed.

(** The tests of one element *)
Definition element_ok (l : list Z) : bool :=
  negb (size l =? 0) && (Z.land (byte_at l 0) 0x80 =? 0) && negb ((1 <? size l) && (byte_at l 0 =? 0) && (Z.land (byte_at l 1) 0x80 =? 0)).

Lemma byte_at_ok l i : Forall byte_ok l -> byte_ok (byte_at l i).
Proof.
  intros Hl. unfold byte_at. destruct (nth_in_or_default (Z.to_nat i) l 0) as [Hin| ->]; [|unfold byte_ok; lia].
  rewrite Forall_forall in Hl. apply Hl. by apply list_elem_of_In.
Qed.

Lemma element_ok_spec l : Forall byte_ok l -> element_ok l = true <-> int_bytes_ok l.
Proof.
  intros Hl. unfold element_ok, int_bytes_ok. rewrite !high_bit by (by apply byte_at_ok).
  rewrite !andb_true_iff, !negb_true_iff, !andb_false_iff, Z.eqb_neq, Z.ltb_lt, !Z.ltb_ge, Z.eqb_neq. unfold size.
  assert (l <> [] <-> Z.of_nat (length l) <> 0) as -> by (destruct l; [done|cbn; split; [lia|done]]).
  split; [intros ([? ?] & Hx); split; [done|]; split; [done|]; intros; lia|]. intros (? & ? & Hx). split; [done|].
  destruct (decide (1 < Z.of_nat (length l))); [|left; left; lia]. destruct (decide (byte_at l 0 = 0)); [right; auto|left; by right].
Qed.

Lemma byte_at_cons x l i : 0 < i -> byte_at (x :: l) i = byte_at l (i - 1).
Proof. intros Hi. unfold byte_at. replace (Z.to_nat i) with (S (Z.to_nat (i - 1))) by lia. done. Qed.

Lemma byte_at_app l l' i : size l <= i -> byte_at (l ++ l') i = byte_at l' (i - size l).
Proof. intros Hi. unfold byte_at, size in *. rewrite app_nth2 by lia. f_equal. lia. Qed.

Lemma byte_at_app_l l l' i : 0 <= i < size l -> byte_at (l ++ l') i = byte_at l i.
Proof. intros Hi. unfold byte_at, size in *. by rewrite app_nth1 by lia. Qed.

Lemma length_app_Z l l' : size (l ++ l') = size l + size l'.
Proof. unfold size. rewrite length_app. lia. Qed.

Lemma length_cons_Z x l : size (x :: l) = size l + 1.
Proof. unfold size. cbn [length]. lia. Qed.

(** On an encoding of two elements and a tail the tests are those of the elements. *)
Lemma encoding_shape (R S tail : list Z) a b c d e f (ht : bool) :
  Forall byte_ok R -> Forall byte_ok S ->
  size R = d -> size S = f -> size tail = (if ht then 1 else 0) ->
  let sig := a :: b :: c :: d :: R ++ e :: f :: S ++ tail in
  IsValidSignatureEncoding sig ht =
    (9 <=? size sig) && (size sig <=? 73) && (a =? 0x30) && (b =? d + f + 4) && (c =? 0x02) && element_ok R && (e =? 0x02) && element_ok S.
Proof.
  intros HR HS Hd Hf Ht sig. assert (HRn : 0 <= size R) by (unfold size; lia). assert (HSn : 0 <= size S) by (unfold size; lia).
  assert (HE : size sig = 6 + d + f + (if ht then 1 else 0)).
  { unfold sig. rewrite !length_cons_Z, length_app_Z, !length_cons_Z, length_app_Z. lia. }
  assert (B0 : byte_at sig 0 = a) by done. assert (B1 : byte_at sig 1 = b) by done. assert (B2 : byte_at sig 2 = c) by done. assert (B3 : byte_at sig 3 = d) by done.
  assert (BT : forall i, 0 <= i -> byte_at sig (4 + i) = byte_at (R ++ e :: f :: S ++ tail) i).
  { intros i Hi. unfold sig. rewrite !byte_at_cons by lia. f_equal. lia. }
  assert (BE : byte_at sig (d + 4) = e).
  { replace (d + 4) with (4 + d) by lia. rewrite BT by lia. rewrite byte_at_app by lia. by replace (d - size R) with 0 by lia. }
  assert (BF : byte_at sig (5 + d) = f).
  { replace (5 + d) with (4 + (d + 1)) by lia. rewrite BT by lia. rewrite byte_at_app by lia. by replace (d + 1 - size R) with 1 by lia. }
  assert (BS : forall i, 0 <= i < f -> byte_at sig (d + 6 + i) = byte_at S i).
  { intros i Hi. replace (d + 6 + i) with (4 + (d + 2 + i)) by lia. rewrite BT by lia. rewrite byte_at_app by lia.
    rewrite !byte_at_cons by lia. rewrite byte_at_app_l by lia. f_equal. lia. }
  assert (BR : forall i, 0 <= i < d -> byte_at sig (4 + i) = byte_at R i).
  { intros i Hi. rewrite BT by lia. by rewrite byte_at_app_l by lia. }
  unfold IsValidSignatureEncoding. rewrite B0, B1, B2, B3, BE, BF, HE.
  unfold element_ok. rewrite Hd, Hf.
  destruct (Z.ltb_spec (6 + d + f + (if ht then 1 else 0)) 9); [by rewrite (proj2 (Z.leb_gt 9 _)) by lia|]. rewrite (proj2 (Z.leb_le 9 _)) by lia.
  destruct (Z.ltb_spec 73 (6 + d + f + (if ht then 1 else 0))); [by rewrite (proj2 (Z.leb_gt _ 73)) by lia|]. rewrite (proj2 (Z.leb_le _ 73)) by lia.
  replace (6 + d + f + (if ht then 1 else 0) - (if ht then 3 else 2)) with (d + f + 4) by (destruct ht; lia).
  rewrite (proj2 (Z.leb_gt _ (5 + d))) by (destruct ht; lia).
  rewrite (proj2 (Z.eqb_eq (d + f + (if ht then 7 else 6)) _)) by (destruct ht; lia). cbn [negb andb].
  destruct (a =? 48); [|done]. destruct (b =? d + f + 4); [|done]. destruct (c =? 2); [|done]. cbn [negb andb].
  destruct (Z.eqb_spec d 0); [done|]. pose proof (BR 0 ltac:(lia)) as B4. change (4 + 0) with 4 in B4. rewrite B4. cbn [negb andb].
  destruct (Z.land (byte_at R 0) 128 =? 0); [|done]. cbn [negb andb].
  assert (B5 : 1 < d -> byte_at sig 5 = byte_at R 1) by (intros; by apply (BR 1); lia).
  assert (B7 : 1 < f -> byte_at sig (d + 7) = byte_at S 1) by (intros; replace (d + 7) with (d + 6 + 1) by lia; by apply BS; lia).
  assert (B6 : f <> 0 -> byte_at sig (d + 6) = byte_at S 0) by (intros; replace (d + 6) with (d + 6 + 0) by lia; by apply BS; lia).
  assert (EX : (1 <? d) && (byte_at R 0 =? 0) && (Z.land (byte_at sig 5) 128 =? 0) = (1 <? d) && (byte_at R 0 =? 0) && (Z.land (byte_at R 1) 128 =? 0)).
  { destruct (Z.ltb_spec 1 d); [by rewrite B5|done]. }
  rewrite EX. destruct ((1 <? d) && (byte_at R 0 =? 0) && (Z.land (byte_at R 1) 128 =? 0)); cbn [negb andb]; [done|]. destruct (e =? 2); [|done]. cbn [negb andb].
  destruct (Z.eqb_spec f 0); [done|]. rewrite B6 by done. cbn [negb andb]. destruct (Z.land (byte_at S 0) 128 =? 0); [|done]. cbn [negb andb].
  assert (EY : (1 <? f) && (byte_at S 0 =? 0) && (Z.land (byte_at sig (d + 7)) 128 =? 0) = (1 <? f) && (byte_at S 0 =? 0) && (Z.land (byte_at S 1) 128 =? 0)).
  { destruct (Z.ltb_spec 1 f); [by rewrite B7|done]. }
  rewrite EY. by destruct ((1 <? f) && (byte_at S 0 =? 0) && (Z.land (byte_at S 1) 128 =? 0)).
Qed.

(** Every signature that passes has this shape. *)
Lemma encoding_split sig ht : Forall byte_ok sig -> IsValidSignatureEncoding sig ht = true ->
  exists a b c d R e f S tail, sig = a :: b :: c :: d :: R ++ e :: f :: S ++ tail /\ size R = d /\ size S = f /\ size tail = (if ht then 1 else 0).
Proof.
  intros Hok HV. unfold IsValidSignatureEncoding in HV. destruct (Z.ltb_spec (size sig) 9); [done|]. destruct (73 <? size sig); [done|].
  destruct (negb _); [done|]. destruct (negb _) in HV; [done|]. destruct (Z.leb_spec (size sig) (5 + byte_at sig 3)) as [|Hlen]; [done|].
  destruct (Z.eqb_spec (byte_at sig 3 + byte_at sig (5 + byte_at sig 3) + (if ht then 7 else 6)) (size sig)) as [Hsum|]; [|done]. clear HV.
  pose proof (byte_at_ok sig 3 Hok) as H3. pose proof (byte_at_ok sig (5 + byte_at sig 3) Hok) as HF. unfold byte_ok in *.
  destruct sig as [|a [|b [|c [|d rest]]]]; try (unfold size in *; cbn [length] in *; lia).
  change (byte_at (a :: b :: c :: d :: rest) 3) with d in *. rewrite !length_cons_Z in *.
  assert (HB : byte_at (a :: b :: c :: d :: rest) (5 + d) = byte_at rest (d + 1)).
  { rewrite !byte_at_cons by lia. f_equal. lia. }
  rewrite HB in *. unfold size in *.
  assert (HRl : Z.of_nat (length (take (Z.to_nat d) rest)) = d) by (rewrite length_take; lia).
  assert (HD : rest = take (Z.to_nat d) rest ++ drop (Z.to_nat d) rest) by (by rewrite take_drop).
  set (R := take (Z.to_nat d) rest) in *. clearbody R. destruct (drop (Z.to_nat d) rest) as [|e [|f r2]]; subst rest;
    try (rewrite length_app in *; cbn [length] in *; lia).
  rewrite byte_at_app in * by (unfold size; lia). replace (d + 1 - size R) with 1 in * by (unfold size; lia).
  change (byte_at (e :: f :: r2) 1) with f in *. rewrite length_app in *. cbn [length] in *.
  exists a, b, c, d, R, e, f, (take (Z.to_nat f) r2), (drop (Z.to_nat f) r2). rewrite take_drop. split; [done|].
  rewrite length_take, length_drop. destruct ht; split_and!; lia.
Qed.

(** C30: The strict signature encoding is exact: the byte strings of 9 to 73 bytes that pass
    are the DER encodings of two non-negative integers in their shortest form, followed
    by the hash type where there is one, and each pair of integers has one encoding. *)
Theorem der_encoding_exact sig (ht : bool) : Forall byte_ok sig ->
  (IsValidSignatureEncoding sig ht = true <->
   9 <= size sig <= 73 /\ exists r s tail, 0 <= r /\ 0 <= s /\ size tail = (if ht then 1 else 0) /\ sig = der_signature r s ++ tail) /\
  forall r s r' s' tail tail', 0 <= r -> 0 <= s -> 0 <= r' -> 0 <= s' ->
    der_signature r s ++ tail = der_signature r' s' ++ tail' -> r = r' /\ s = s' /\ tail = tail'.
Proof.
  intros Hok.
  assert (HS : forall r s (tail : list Z), der_signature r s ++ tail =
    0x30 :: (size (der_int r) + size (der_int s) + 4) :: 0x02 :: size (der_int r) :: der_int r ++ 0x02 :: size (der_int s) :: der_int s ++ tail).
  { intros r s tail. unfold der_signature, der_element. rewrite length_app_Z, !length_cons_Z. rewrite <- !app_comm_cons, <- app_assoc.
    cbn [app]. f_equal. f_equal. lia. }
  assert (HI : forall n, 0 <= n -> element_ok (der_int n) = true).
  { intros n Hn. apply element_ok_spec; [apply der_int_bytes|]. apply int_bytes_exact; [apply der_int_bytes|]. by rewrite der_int_value. }
  split; [split|].
  - intros HV. destruct (encoding_split sig ht Hok HV) as (a & b & c & d & R & e & f & S & tail & -> & Hd & Hf & Ht).
    apply Forall_cons in Hok as [_ Hok]. apply Forall_cons in Hok as [_ Hok]. apply Forall_cons in Hok as [_ Hok]. apply Forall_cons in Hok as [_ Hok].
    apply Forall_app in Hok as [HR Hok]. apply Forall_cons in Hok as [_ Hok]. apply Forall_cons in Hok as [_ Hok]. apply Forall_app in Hok as [HSb _].
    rewrite (encoding_shape R S tail a b c d e f ht HR HSb Hd Hf Ht) in HV. rewrite !andb_true_iff, !Z.eqb_eq, !Z.leb_le in HV.
    destruct HV as (((((((? & ?) & ->) & ->) & ->) & ER) & ->) & ES). split; [done|].
    apply element_ok_spec, int_bytes_exact in ER; [|done..]. apply element_ok_spec, int_bytes_exact in ES; [|done..].
    exists (be_value R), (be_value S), tail. split_and!; [by apply be_value_range|by apply be_value_range|done|].
    rewrite HS, <- ER, <- ES, Hd, Hf. done.
  - intros (Hsz & r & s & tail & Hr & Hs & Ht & ->). rewrite HS in *.
    rewrite (encoding_shape (der_int r) (der_int s) tail) by (done || apply der_int_bytes).
    rewrite !HI by done. rewrite !andb_true_iff, !Z.eqb_eq, !Z.leb_le. split_and!; done || lia.
  - intros r s r' s' tail tail' Hr Hs Hr' Hs' E. rewrite !HS in E. injection E as _ El E.
    apply app_inj_1 in E as [ER E]; [|unfold size in El; lia]. injection E as El' E. apply app_inj_1 in E as [ES ->]; [|unfold size in El'; lia].
    rewrite <- (der_int_value r Hr), <- (der_int_value s Hs), ER, ES, !der_int_value by done. done.
Qed.

Lemma der_encoding_exact_witness :
  IsValidSignatureEncoding [0x30; 7; 2; 2; 0; 200; 2; 1; 5] false = true /\ IsValidSignatureEncoding [0x30; 7; 2; 2; 0; 100; 2; 1; 5] false = false.
Proof.
  split; [|reflexivity].
  apply (der_encoding_exact [0x30; 7; 2; 2; 0; 200; 2; 1; 5] false); [repeat constructor; unfold byte_ok; lia|].
  split; [vm_compute; split; discriminate|]. exists 200, 5, []. by vm_compute.
Defined.

End Der.
