(* ===== verification/TreeDB.v ===== *)
(** * The block tree database (node/blockstorage.cpp, node/blockstorage.h, dbwrapper.h)

    The indexes that contracts and staking keep in the block tree database: the height
    index (transactions of a height and contract address), the stake index and the
    delegate index (who staked the block of a height).  The database is a map from byte
    strings to byte strings; an iterator walks a snapshot of it in the order of the keys,
    byte by byte.  Numbers in keys are written as the code writes them: the height index
    big-endian, the other two little-endian. *)

From stdpp Require Import gmap list sorting.
From Stdlib Require Import ZArith Lia.
From S2P Require Import Prelude Serialize.

Open Scope Z_scope.

Module TreeDB.

(** ** LevelDB: keys in byte order, iterators over a snapshot *)

Abbreviation database := (gmap (list Z) (list Z)).
Abbreviation entry := (list Z * list Z)%type.

Fixpoint lex_le (a b : list Z) : bool :=
  match a, b with
  | [], _ => true
  | _ :: _, [] => false
  | x :: a, y :: b => (x <? y) || ((x =? y) && lex_le a b)
  end.
Definition entry_le (e e' : entry) : Prop := lex_le e.1 e'.1 = true.
#[export] Instance entry_le_dec e e' : Decision (entry_le e e').
Proof. unfold entry_le. apply _. Defined.

Definition ordered (d : database) : list entry := merge_sort entry_le (map_to_list d).

(** The entries an iterator still has to visit: [Valid] is a non-empty list, [Next] its
    tail.  A batch is applied after the iteration. *)
Definition Seek (k : list Z) (d : database) : list entry := filter (fun e => lex_le k e.1 = true) (ordered d).

Definition Erase (batch : list (list Z)) (d : database) : database := foldl (fun d k => delete k d) d batch.

(** ** Keys and values *)

Definition DB_HEIGHTINDEX : Z := 104.
Definition DB_STAKEINDEX : Z := 115.
Definition DB_DELEGATEINDEX : Z := 100.

Definition ser_writedata32be (z : Z) : list Z := reverse (le_bytes 4 z).

Record CHeightTxIndexKey := mkHeightKey { height : Z; address : list Z }.
Definition null_height_key : CHeightTxIndexKey := mkHeightKey 0 (replicate 20 0).

Definition ser_height_key (k : CHeightTxIndexKey) : list Z := ser_writedata32be (height k) ++ enc bytes_codec (address k).

(** [dev::h160] of a byte string: zero when it has another length *)
Definition h160 (b : list Z) : list Z := if (length b =? 20)%nat then b else replicate 20 0.

(** [CDBIterator::GetKey] into a [std::pair<uint8_t, CHeightTxIndexKey>]: whether the key
    was read without an exception, and the pair, of which the parts read before the
    exception have been set *)
Definition GetKey (k : list Z) : bool * (Z * CHeightTxIndexKey) :=
  match k with
  | [] => (false, (0, null_height_key))
  | first :: s =>
      match read 4 s with
      | None => (false, (first, null_height_key))
      | Some (b, s) =>
          match dec bytes_codec s with
          | None => (false, (first, mkHeightKey (be_value b) (replicate 20 0)))
          | Some (tmp, _) => (true, (first, mkHeightKey (be_value b) (h160 tmp)))
          end
      end
  end.

(** [DelegateEntry::Unserialize] into an existing entry *)
Definition read_delegate_entry (info : N * Z) (s : list Z) : N * Z :=
  match dec (id_codec 20) s with
  | None => info
  | Some (a, s) => match dec u8_codec s with None => (a, info.2) | Some (f, _) => (a, f) end
  end.
Definition delegate_entry_codec : codec (N * Z) := pair_codec (id_codec 20) u8_codec.

(** ** The height index *)

Definition height_key (k : CHeightTxIndexKey) : list Z := DB_HEIGHTINDEX :: ser_height_key k.

Definition WriteHeightIndex (heightIndex : CHeightTxIndexKey) (hashes : list N) (d : database) : database :=
  <[height_key heightIndex := enc (vector_codec (id_codec 32)) hashes]> d.

(** The keys [EraseHeightIndex], [EraseStakeIndex] and [EraseDelegateIndex] put into
    their batch: the three loops are the same *)
Fixpoint erase_loop (h : Z) (cursor : list entry) : list (list Z) :=
  match cursor with
  | [] => []
  | (k, _) :: cursor =>
      let '(ok, (first, key)) := GetKey k in
      if ok && (first =? DB_HEIGHTINDEX) && (height key =? h)
      then (first :: ser_height_key key) :: erase_loop h cursor else []
  end.

Definition EraseHeightIndex (h : Z) (d : database) : database :=
  Erase (erase_loop h (Seek (DB_HEIGHTINDEX :: ser_writedata32be h) d)) d.

Fixpoint wipe_loop (cursor : list entry) : list (list Z) :=
  match cursor with
  | [] => []
  | (k, _) :: cursor =>
      let '(ok, (first, key)) := GetKey k in
      if ok && (first =? DB_HEIGHTINDEX) then (first :: ser_height_key key) :: wipe_loop cursor else []
  end.
Definition WipeHeightIndex (d : database) : database := Erase (wipe_loop (Seek [DB_HEIGHTINDEX] d)) d.

(** The loop of [ReadHeightIndex]: [tip] is the height of the active chain. *)
Fixpoint read_loop (high minconf tip : Z) (addresses : list (list Z)) (cursor : list entry) (curheight : Z)
  (blocksOfHashes : list (list N)) : Z * list (list N) :=
  match cursor with
  | [] => (curheight, blocksOfHashes)
  | (k, v) :: cursor =>
      let '(ok, (first, key)) := GetKey k in
      if negb ok || negb (first =? DB_HEIGHTINDEX) then (curheight, blocksOfHashes)
      else
        let nextHeight := i32 (height key) in
        if (-1 <? high) && (high <? nextHeight) then (curheight, blocksOfHashes)
        else if (0 <? minconf) && (i32 (tip - nextHeight) <? minconf) then (curheight, blocksOfHashes)
        else if negb (bool_decide (addresses = [])) && negb (bool_decide (address key ∈ addresses))
        then read_loop high minconf tip addresses cursor nextHeight blocksOfHashes
        else match dec (vector_codec (id_codec 32)) v with
             | None => (nextHeight, blocksOfHashes)
             | Some (hashesTx, _) => read_loop high minconf tip addresses cursor nextHeight (blocksOfHashes ++ [hashesTx])
             end
  end.

Definition ReadHeightIndex (low high minconf tip : Z) (addresses : list (list Z)) (d : database) : Z * list (list N) :=
  if ((high <? low) && (-1 <? high)) || ((high =? 0) && (low =? 0)) || ((high <? -1) || (low <? 0)) then (-1, [])
  else read_loop high minconf tip addresses (Seek (DB_HEIGHTINDEX :: ser_writedata32be low) d) 0 [].

(** ** The stake and delegate indexes *)

Definition stake_key (h : Z) : list Z := DB_STAKEINDEX :: ser_writedata32 h.
Definition delegate_key (h : Z) : list Z := DB_DELEGATEINDEX :: ser_writedata32 h.

Definition WriteStakeIndex (h : Z) (a : N) (d : database) : database := <[stake_key h := enc (id_codec 20) a]> d.

(** [None]: false is returned; [address] is the caller's variable. *)
Definition ReadStakeIndex (h : Z) (address : N) (d : database) : option N :=
  match Seek (stake_key h) d with
  | [] => None
  | (k, v) :: _ =>
      if (GetKey k).2.1 =? DB_STAKEINDEX
      then Some (match dec (id_codec 20) v with Some (a, _) => a | None => address end) else None
  end.

Definition EraseStakeIndex (h : Z) (d : database) : database := Erase (erase_loop h (Seek (stake_key h) d)) d.

Definition WriteDelegateIndex (h : Z) (a : N) (fee : Z) (d : database) : database :=
  <[delegate_key h := enc delegate_entry_codec (a, fee)]> d.

Definition ReadDelegateIndex (h : Z) (d : database) : option (N * Z) :=
  match Seek (delegate_key h) d with
  | [] => None
  | (k, v) :: _ => if (GetKey k).2.1 =? DB_DELEGATEINDEX then Some (read_delegate_entry (0%N, 0) v) else None
  end.

Definition EraseDelegateIndex (h : Z) (d : database) : database := Erase (erase_loop h (Seek (delegate_key h) d)) d.

(** ** The byte order *)

Lemma lex_le_refl a : lex_le a a = true.
Proof. induction a as [|x a IH]; [done|]. cbn. by rewrite Z.eqb_refl, IH, orb_true_r. Qed.

Lemma lex_le_cons x y a b : lex_le (x :: a) (y :: b) = true <-> x < y \/ x = y /\ lex_le a b = true.
Proof.
  cbn. rewrite orb_true_iff, andb_true_iff, Z.ltb_lt, Z.eqb_eq. done.
Qed.

Lemma lex_le_trans a : forall b c, lex_le a b = true -> lex_le b c = true -> lex_le a c = true.
Proof.
  induction a as [|x a IH]; [done|]. intros [|y b] [|z c]; [done..|]. rewrite !lex_le_cons.
  intros [?|[-> ?]] [?|[-> ?]]; [left; lia..|]. right. eauto.
Qed.

Lemma lex_le_total a : forall b, lex_le a b = true \/ lex_le b a = true.
Proof.
  induction a as [|x a IH]; [by left|]. intros [|y b]; [by right|]. rewrite !lex_le_cons.
  destruct (Ztrichotomy x y) as [?|[->|?]]; [tauto| |right; left; lia]. destruct (IH b); tauto.
Qed.

Lemma lex_le_antisym a : forall b, lex_le a b = true -> lex_le b a = true -> a = b.
Proof.
  induction a as [|x a IH]; [by intros []|]. intros [|y b]; [done|]. rewrite !lex_le_cons.
  intros [?|[-> ?]] [?|[? ?]]; try lia. by rewrite (IH b).
Qed.

Lemma lex_le_app p s : lex_le p (p ++ s) = true.
Proof. induction p as [|x p IH]; [done|]. cbn. by rewrite Z.eqb_refl, IH, orb_true_r. Qed.

(** What lies between a key and an extension of it extends it. *)
Lemma lex_between p : forall k s, lex_le p k = true -> lex_le k (p ++ s) = true -> exists s', k = p ++ s'.
Proof.
  induction p as [|x p IH]; [intros k; by exists k|]. intros [|y k] s; [done|].
  rewrite <- app_comm_cons, !lex_le_cons. intros [?|[-> ?]] [?|[? ?]]; try lia.
  destruct (IH k s) as [s' ->]; [done..|]. by exists s'.
Qed.

#[export] Instance entry_le_trans : Transitive entry_le.
Proof. intros e e' e''. apply lex_le_trans. Qed.
#[export] Instance entry_le_total : Total entry_le.
Proof. intros e e'. apply lex_le_total. Qed.

(** ** Big-endian numbers in the byte order *)

Lemma lex_le_value a : forall b s s', Forall byte_ok a -> Forall byte_ok b -> length a = length b ->
  lex_le (a ++ s) (b ++ s') = true -> be_value a <= be_value b.
Proof.
  induction a as [|x a IH]; intros [|y b] s s' Ha Hb Hl; [done..|].
  apply Forall_cons in Ha as [Hx Ha]. apply Forall_cons in Hb as [Hy Hb]. injection Hl as Hl.
  rewrite <- !app_comm_cons, lex_le_cons, !be_value_cons, Hl.
  pose proof (be_value_range a Ha) as Ra. pose proof (be_value_range b Hb) as Rb. rewrite Hl in Ra.
  intros [?|[-> ?]]; [nia|]. specialize (IH b s s' Ha Hb Hl). intuition lia.
Qed.

Lemma lex_lt_value a b s s' : Forall byte_ok a -> Forall byte_ok b -> length a = length b ->
  be_value a < be_value b -> lex_le (a ++ s) (b ++ s') = true.
Proof.
  intros Ha Hb Hl Hlt. destruct (lex_le_total (a ++ s) (b ++ s')) as [|Hge]; [done|].
  apply lex_le_value in Hge; [lia|done..].
Qed.

Lemma be32_length z : length (ser_writedata32be z) = 4%nat.
Proof. unfold ser_writedata32be. by rewrite length_reverse, length_le_bytes. Qed.

Lemma be32_bytes z : Forall byte_ok (ser_writedata32be z).
Proof. apply Forall_reverse, le_bytes_ok. Qed.

Lemma be32_value z : in_u32 z -> be_value (ser_writedata32be z) = z.
Proof.
  intros Hz. unfold be_value, ser_writedata32be. rewrite reverse_involutive, le_value_bytes, Z.mod_small; [done|]. by apply Hz.
Qed.

Lemma be32_le z z' s s' : in_u32 z -> in_u32 z' ->
  lex_le (ser_writedata32be z ++ s) (ser_writedata32be z' ++ s') = true -> z <= z'.
Proof.
  intros Hz Hz' Hle. rewrite <- (be32_value z Hz), <- (be32_value z' Hz').
  eapply lex_le_value; eauto using be32_bytes.
Qed.

Lemma be32_lt z z' s s' : in_u32 z -> in_u32 z' -> z < z' ->
  lex_le (ser_writedata32be z ++ s) (ser_writedata32be z' ++ s') = true.
Proof.
  intros Hz Hz' Hlt. apply lex_lt_value; auto using be32_bytes. by rewrite !be32_value.
Qed.

(** ** Iterators *)

Lemma elem_of_ordered d k v : (k, v) ∈ ordered d <-> d !! k = Some v.
Proof. unfold ordered. rewrite merge_sort_Permutation. apply elem_of_map_to_list. Qed.

Lemma ordered_sorted d : StronglySorted entry_le (ordered d).
Proof. apply StronglySorted_merge_sort; apply _. Qed.

Lemma StronglySorted_filter_ {A} (R : A -> A -> Prop) (P : A -> Prop) `{forall x, Decision (P x)} l :
  StronglySorted R l -> StronglySorted R (filter P l).
Proof.
  induction 1 as [|x l Hl IH Hx]; [constructor|]. rewrite filter_cons. case_decide; [|done].
  constructor; [done|]. rewrite Forall_forall in Hx. apply Forall_forall. intros y [_ Hy]%list_elem_of_filter. auto.
Qed.

Lemma seek_sorted k d : StronglySorted entry_le (Seek k d).
Proof. apply StronglySorted_filter_, ordered_sorted. Qed.

Lemma elem_of_seek k d k' v : (k', v) ∈ Seek k d <-> d !! k' = Some v /\ lex_le k k' = true.
Proof. unfold Seek. rewrite list_elem_of_filter, elem_of_ordered. cbn. tauto. Qed.

(** Seeking a key that is present finds it. *)
Lemma seek_present k v d : d !! k = Some v -> exists l, Seek k d = (k, v) :: l.
Proof.
  intros Hk. assert (Hin : (k, v) ∈ Seek k d) by (by apply elem_of_seek; split; [|apply lex_le_refl]).
  pose proof (seek_sorted k d) as HS. destruct (Seek k d) as [|[k' v'] l] eqn:E; [by apply elem_of_nil in Hin|].
  assert (Hh : (k', v') ∈ Seek k d) by (rewrite E; left). apply elem_of_seek in Hh as [Hd Hle].
  assert (k' = k) as ->; [|by simplify_eq; eauto].
  apply elem_of_cons in Hin as [[= -> ->]|Hin]; [done|]. inversion HS as [|?? _ HF]; subst.
  apply lex_le_antisym; [|done]. by apply (proj1 (Forall_forall _ _) HF _ Hin).
Qed.

(** ** What the writes keep true of the height index *)

Definition key_ok (k : CHeightTxIndexKey) : Prop := 0 <= height k < 2147483648 /\ length (address k) = 20%nat.

(** Every key of the height index was written by [WriteHeightIndex]. *)
Definition height_index_ok (d : database) : Prop := forall k v, d !! k = Some v -> head k = Some DB_HEIGHTINDEX ->
  exists hk hashes, key_ok hk /\ k = height_key hk /\
    valid (vector_codec (id_codec 32)) hashes /\ v = enc (vector_codec (id_codec 32)) hashes.

Lemma key_ok_u32 k : key_ok k -> in_u32 (height k).
Proof. unfold key_ok, in_u32. lia. Qed.

Lemma GetKey_height_key k : key_ok k -> GetKey (height_key k) = (true, (DB_HEIGHTINDEX, k)).
Proof.
  intros Hk. destruct k as [h a]. destruct Hk as [Hh Ha]. cbn [height address] in *.
  unfold GetKey, height_key, ser_height_key. cbn [height address].
  rewrite read_app by apply be32_length.
  pose proof (roundtrip (c := bytes_codec) a []) as R. rewrite app_nil_r in R. rewrite R.
  2:{ cbn. rewrite Ha. unfold MAX_SIZE. lia. }
  unfold h160. rewrite Ha. cbn [Nat.eqb]. rewrite be32_value; [done|]. unfold in_u32. lia.
Qed.

Lemma height_index_other k v d : head k <> Some DB_HEIGHTINDEX -> height_index_ok d -> height_index_ok (<[k := v]> d).
Proof.
  intros Hk Hd k' v' [[-> ->]|[_ Hl]]%lookup_insert_Some Hh; [done|]. eauto.
Qed.

Lemma height_index_write hk hashes d : key_ok hk -> valid (vector_codec (id_codec 32)) hashes ->
  height_index_ok d -> height_index_ok (WriteHeightIndex hk hashes d).
Proof.
  intros Hk Hv Hd k' v'. unfold WriteHeightIndex. intros [[<- <-]|[_ Hl]]%lookup_insert_Some Hh; [|eauto]. by exists hk, hashes.
Qed.

Lemma lookup_Erase batch : forall d k, Erase batch d !! k = if bool_decide (k ∈ batch) then None else d !! k.
Proof.
  induction batch as [|b batch IH]; intros d k.
  { rewrite bool_decide_eq_false_2; [done|]. apply not_elem_of_nil. }
  cbn. fold (Erase batch (delete b d)). rewrite IH. repeat case_bool_decide; try done.
  - exfalso. apply H0. by right.
  - apply elem_of_cons in H0 as [->|]; [apply lookup_delete_eq|done].
  - rewrite lookup_delete_ne; [done|]. intros ->. apply H0. by left.
Qed.

Lemma height_index_erase batch d : height_index_ok d -> height_index_ok (Erase batch d).
Proof. intros Hd k v. rewrite lookup_Erase. case_bool_decide; [done|]. apply Hd. Qed.

(** The entries of an iterator over such a database. *)
Definition cursor_ok (p : list Z) (l : list entry) : Prop :=
  StronglySorted entry_le l /\
  Forall (fun e => lex_le p e.1 = true /\
            (head e.1 = Some DB_HEIGHTINDEX -> exists hk hashes, key_ok hk /\ e.1 = height_key hk /\
               valid (vector_codec (id_codec 32)) hashes /\ e.2 = enc (vector_codec (id_codec 32)) hashes)) l.

Lemma seek_cursor_ok p d : height_index_ok d -> cursor_ok p (Seek p d).
Proof.
  intros Hd. split; [apply seek_sorted|]. apply Forall_forall. intros [k v] [Hk Hle]%elem_of_seek. split; [done|].
  cbn. intros Hh. eauto.
Qed.

Lemma cursor_ok_cons p e l : cursor_ok p (e :: l) -> lex_le p e.1 = true /\ Forall (entry_le e) l /\ cursor_ok p l.
Proof.
  intros [HS HF]. inversion HS; subst. apply Forall_cons in HF as [[? ?] ?]. by repeat split.
Qed.

Lemma cursor_ok_head p k v l : cursor_ok p ((k, v) :: l) -> head k = Some DB_HEIGHTINDEX ->
  exists hk hashes, key_ok hk /\ k = height_key hk /\ valid (vector_codec (id_codec 32)) hashes /\ v = enc (vector_codec (id_codec 32)) hashes.
Proof. intros [_ [[_ Hh] _]%Forall_cons]. exact Hh. Qed.

(** In the order of the keys, those that extend the key sought come first. *)
Lemma prefix_first p e l : cursor_ok p (e :: l) -> (forall s, e.1 <> p ++ s) -> forall k v, (k, v) ∈ l -> forall s, k <> p ++ s.
Proof.
  intros (Hp & HF & _)%cursor_ok_cons Hne k v Hin s ->. rewrite Forall_forall in HF.
  destruct (lex_between p e.1 s) as [s' Hs]; [done|by apply (HF _ Hin)|]. by apply (Hne s').
Qed.

(** A parsed key of the index is the key itself. *)
Lemma GetKey_head k : (GetKey k).1 = true -> (GetKey k).2.1 = DB_HEIGHTINDEX -> head k = Some DB_HEIGHTINDEX.
Proof. destruct k as [|c s]; [done|]. cbn. intros _. by repeat case_match; cbn; intros ->. Qed.

Lemma GetKey_cases p k v l : cursor_ok p ((k, v) :: l) ->
  (exists hk, key_ok hk /\ k = height_key hk /\ GetKey k = (true, (DB_HEIGHTINDEX, hk))) \/
  head k <> Some DB_HEIGHTINDEX /\ (GetKey k).1 && ((GetKey k).2.1 =? DB_HEIGHTINDEX) = false.
Proof.
  intros Hc. destruct (decide (head k = Some DB_HEIGHTINDEX)) as [Hh|Hh].
  - left. destruct (cursor_ok_head _ _ _ _ Hc Hh) as (hk & hashes & Hk & -> & _).
    exists hk. by rewrite GetKey_height_key.
  - right. split; [done|]. apply andb_false_iff. destruct ((GetKey k).1) eqn:E; [right|by left].
    apply Z.eqb_neq. intros E'. by apply Hh, GetKey_head.
Qed.

Lemma erase_loop_spec h l : in_u32 h -> cursor_ok (DB_HEIGHTINDEX :: ser_writedata32be h) l -> forall k,
  k ∈ erase_loop h l <-> (exists v, (k, v) ∈ l) /\ exists s, k = (DB_HEIGHTINDEX :: ser_writedata32be h) ++ s.
Proof.
  intros Hh. induction l as [|[k v] l IH]; intros Hc k'.
  { split; [by intros ?%elem_of_nil|]. intros [[v Hv%elem_of_nil] _]. done. }
  assert (Hnone : (forall s, k <> (DB_HEIGHTINDEX :: ser_writedata32be h) ++ s) ->
    k' ∈ (@nil (list Z)) <-> (exists v0, (k', v0) ∈ (k, v) :: l) /\ exists s, k' = (DB_HEIGHTINDEX :: ser_writedata32be h) ++ s).
  { intros Hne. split; [by intros ?%elem_of_nil|]. intros [[v0 [[= -> ->]|Hin]%elem_of_cons] [s Hs]].
    - by apply Hne in Hs.
    - by apply (prefix_first _ _ _ Hc Hne _ _ Hin) in Hs. }
  cbn [erase_loop]. destruct (GetKey_cases _ _ _ _ Hc) as [(hk & Hk & -> & E)|[Hk E]].
  - rewrite E. cbn [andb]. rewrite Z.eqb_refl. cbn [andb]. destruct (Z.eqb_spec (height hk) h) as [<-|Hne].
    + rewrite elem_of_cons, IH by (by apply cursor_ok_cons in Hc as (_ & _ & ?)). unfold height_key at 1.
      split; [intros [->|[[v0 Hv] Hs]]|intros [[v0 [[= -> ->]|Hv]%elem_of_cons] Hs]]; [|by split; [exists v0; right|]|by left|right; by eauto].
      split; [exists v; by left|]. by exists (enc bytes_codec (address hk)).
    + apply Hnone. intros s. unfold height_key, ser_height_key. rewrite <- app_comm_cons. intros Hs%(f_equal tail).
      apply Hne. cbn [tail] in Hs. apply app_inj_1 in Hs as [Hs _]; [|by rewrite !be32_length].
      rewrite <- (be32_value (height hk)), Hs, be32_value; auto using key_ok_u32.
  - destruct (GetKey k) as [ok [f key]]. cbn in E. rewrite E. cbn [andb]. apply Hnone. intros s ->. by apply Hk.
Qed.

Lemma wipe_loop_spec l : cursor_ok [DB_HEIGHTINDEX] l -> forall k,
  k ∈ wipe_loop l <-> (exists v, (k, v) ∈ l) /\ head k = Some DB_HEIGHTINDEX.
Proof.
  induction l as [|[k v] l IH]; intros Hc k'.
  { split; [by intros ?%elem_of_nil|]. intros [[v Hv%elem_of_nil] _]. done. }
  cbn [wipe_loop]. destruct (GetKey_cases _ _ _ _ Hc) as [(hk & Hk & -> & E)|[Hk E]].
  - rewrite E. cbn [andb]. rewrite Z.eqb_refl, elem_of_cons, IH by (by apply cursor_ok_cons in Hc as (_ & _ & ?)).
    split; [intros [->|[[v0 Hv] Hs]]|intros [[v0 [[= -> ->]|Hv]%elem_of_cons] Hs]]; [|by split; [exists v0; right|]|by left|right; by eauto].
    split; [exists v; by left|done].
  - destruct (GetKey k) as [ok [f key]]. cbn in E. rewrite E. split; [by intros ?%elem_of_nil|].
    intros [[v0 [[= -> ->]|Hin]%elem_of_cons] Hh]; [done|]. destruct k' as [|c s]; [done|]. injection Hh as ->.
    eapply (prefix_first _ _ _ Hc) with (s := s) in Hin; [by destruct Hin|]. cbn. intros s' ->. by apply Hk.
Qed.

(** ** Reading a range of the height index *)

Definition key_of (k : list Z) : option CHeightTxIndexKey :=
  let '(ok, (first, key)) := GetKey k in if ok && (first =? DB_HEIGHTINDEX) then Some key else None.

(** Heights from [low] on, up to [high] unless it is negative, with [minconf]
    confirmations if it is positive *)
Definition in_range (low high minconf tip h : Z) : bool :=
  (low <=? h) && ((high <=? -1) || (h <=? high)) && ((minconf <=? 0) || (minconf <=? tip - h)).

Definition selected (low high minconf tip : Z) (e : entry) : option (CHeightTxIndexKey * list Z) :=
  key ← key_of e.1; if in_range low high minconf tip (height key) then Some (key, e.2) else None.

Definition wanted (addresses : list (list Z)) (r : CHeightTxIndexKey * list Z) : option (list N) :=
  if bool_decide (addresses = []) || bool_decide (address r.1 ∈ addresses)
  then fst <$> dec (vector_codec (id_codec 32)) r.2 else None.

Lemma omap_filter_ {A B} (P : A -> Prop) `{forall x, Decision (P x)} (f : A -> option B) (l : list A) :
  (forall x, x ∈ l -> ~ P x -> f x = None) -> omap f (filter P l) = omap f l.
Proof.
  induction l as [|x l IH]; intros Hf; [done|]. rewrite filter_cons. cbn [omap list_omap].
  rewrite <- IH by (intros; apply Hf; [by right|done]). case_decide as Hx; [done|].
  by rewrite Hf; [|left|].
Qed.

Lemma omap_none {A B} (f : A -> option B) (l : list A) : Forall (fun x => f x = None) l -> omap f l = [].
Proof. induction 1 as [|x l Hx _ IH]; [done|]. cbn. by rewrite Hx. Qed.

Lemma key_of_head k hk : key_of k = Some hk -> head k = Some DB_HEIGHTINDEX.
Proof.
  unfold key_of. destruct (GetKey k) as [ok [f key]] eqn:E. destruct (ok && (f =? DB_HEIGHTINDEX)) eqn:E'; [|done].
  apply andb_prop in E' as [-> ->%Z.eqb_eq]. intros _. apply GetKey_head; by rewrite E.
Qed.

Lemma key_of_height_key hk : key_ok hk -> key_of (height_key hk) = Some hk.
Proof. intros Hk. unfold key_of. by rewrite GetKey_height_key. Qed.

Lemma in_range_between low high minconf tip h h' : low <= h -> h <= h' ->
  in_range low high minconf tip h' = true -> in_range low high minconf tip h = true.
Proof. unfold in_range. rewrite !andb_true_iff, !orb_true_iff, !Z.leb_le. lia. Qed.

Section range.
Variables (low high minconf tip : Z) (addresses : list (list Z)).
Hypothesis low_ok : 0 <= low < 2147483648.
Hypothesis tip_ok : 0 <= tip < 2147483648.
Abbreviation start := (DB_HEIGHTINDEX :: ser_writedata32be low).
Abbreviation sel := (selected low high minconf tip).

Lemma start_low k hk s : lex_le start k = true -> k = DB_HEIGHTINDEX :: ser_writedata32be (height hk) ++ s -> key_ok hk ->
  low <= height hk.
Proof.
  intros Hle -> Hk. apply lex_le_cons in Hle as [?|[_ Hle]]; [lia|].
  rewrite <- (app_nil_r (ser_writedata32be low)) in Hle.
  apply be32_le in Hle; [done| |by apply key_ok_u32]. unfold in_u32. lia.
Qed.

(** After an entry that is out of the range none is in it. *)
Lemma range_ends k v l : cursor_ok start ((k, v) :: l) -> sel (k, v) = None -> Forall (fun e => sel e = None) l.
Proof.
  intros Hc Hsel. apply Forall_forall. intros [k' v'] Hin. unfold selected. cbn [fst snd].
  destruct (key_of k') as [hk'|] eqn:E'; [|done]. cbn.
  destruct (in_range low high minconf tip (height hk')) eqn:HR'; [|done]. exfalso.
  pose proof (key_of_head _ _ E') as Hh'. destruct (cursor_ok_cons _ _ _ Hc) as (Hp & HF & Hl).
  destruct (proj1 (Forall_forall _ _) (proj2 Hl) _ Hin) as [_ Hk']. destruct (Hk' Hh') as (hk2 & ? & Hok' & Hke & _).
  cbn [fst] in Hke. subst k'. rewrite key_of_height_key in E' by done. simplify_eq.
  pose proof (proj1 (Forall_forall _ _) HF _ Hin) as Hle. unfold entry_le in Hle. cbn [fst] in Hp, Hle.
  destruct k as [|c s]; [done|]. apply lex_le_cons in Hp as Hp'. unfold height_key in Hle. apply lex_le_cons in Hle.
  assert (c = DB_HEIGHTINDEX) as -> by lia. destruct Hle as [?|[_ Hle]]; [lia|].
  destruct (cursor_ok_head _ _ _ _ Hc eq_refl) as (hk & hashes & Hok & Hke & _).
  assert (Hlow : low <= height hk) by (eapply start_low; [exact Hp|exact Hke|done]).
  unfold height_key in Hke. injection Hke as ->. unfold ser_height_key in Hle. apply be32_le in Hle; [|by apply key_ok_u32..].
  unfold selected in Hsel. cbn [fst] in Hsel.
  change (DB_HEIGHTINDEX :: ser_height_key hk) with (height_key hk) in Hsel. rewrite key_of_height_key in Hsel by done.
  cbn in Hsel. by rewrite (in_range_between _ _ _ _ _ _ Hlow Hle HR') in Hsel.
Qed.

Lemma read_loop_spec l : cursor_ok start l -> forall cur acc,
  read_loop high minconf tip addresses l cur acc =
  (default cur (last ((fun r => height r.1) <$> omap sel l)), acc ++ omap (wanted addresses) (omap sel l)).
Proof.
  induction l as [|[k v] l IH]; intros Hc cur acc; [cbn; by rewrite app_nil_r|].
  assert (Hstop : sel (k, v) = None -> (cur, acc) = (default cur (last ((fun r => height r.1) <$> omap sel ((k, v) :: l))),
      acc ++ omap (wanted addresses) (omap sel ((k, v) :: l)))).
  { intros Hs. rewrite omap_none; [cbn; by rewrite app_nil_r|]. constructor; [done|]. by eapply range_ends. }
  cbn [read_loop]. destruct (GetKey_cases _ _ _ _ Hc) as [(hk & Hk & -> & E)|[Hk E]].
  2:{ destruct (GetKey k) as [ok [f key]] eqn:EK. cbn in E. assert (negb ok || negb (f =? DB_HEIGHTINDEX) = true) as -> by (by rewrite <- negb_andb, E).
      apply Hstop. unfold selected, key_of. cbn [fst]. by rewrite EK, E. }
  rewrite E. cbn [negb orb]. rewrite Z.eqb_refl. cbn [negb orb].
  rewrite i32_id by (destruct Hk; unfold in_i32; lia).
  rewrite i32_id by (destruct Hk; unfold in_i32; lia).
  assert (Hlow : low <= height hk).
  { eapply start_low; [by apply cursor_ok_cons in Hc as [Hp _]; exact Hp|done|done]. }
  assert (Hsel : sel (height_key hk, v) = if in_range low high minconf tip (height hk) then Some (hk, v) else None).
  { unfold selected. cbn [fst]. by rewrite key_of_height_key. }
  unfold in_range in Hsel. rewrite (proj2 (Z.leb_le _ _) Hlow) in Hsel. cbn [andb] in Hsel.
  destruct (Z.ltb_spec (-1) high), (Z.ltb_spec high (height hk)); cbn [andb].
  1:{ apply Hstop. rewrite Hsel. destruct (Z.leb_spec high (-1)), (Z.leb_spec (height hk) high); try lia. done. }
  all: assert ((high <=? -1) || (height hk <=? high) = true) as HR by (apply orb_true_iff; rewrite !Z.leb_le; lia); rewrite HR in Hsel; cbn [andb] in Hsel.
  all: destruct (Z.ltb_spec 0 minconf), (Z.ltb_spec (tip - height hk) minconf); cbn [andb];
    [apply Hstop; rewrite Hsel; destruct (Z.leb_spec minconf 0), (Z.leb_spec minconf (tip - height hk)); try lia; done|..].
  all: assert ((minconf <=? 0) || (minconf <=? tip - height hk) = true) as HM by (apply orb_true_iff; rewrite !Z.leb_le; lia); rewrite HM in Hsel.
  all: destruct (cursor_ok_head _ _ _ _ Hc eq_refl) as (hk2 & hashes & Hok2 & Hke & Hv & ->).
  all: pose proof (roundtrip (c := vector_codec (id_codec 32)) hashes [] Hv) as R; rewrite app_nil_r in R.
  all: cbn [omap list_omap]; rewrite Hsel; cbn [omap list_omap]; unfold wanted at 1; cbn [fst snd]; rewrite R; cbn [fmap option_fmap option_map fst].
  all: rewrite fmap_cons, last_cons; cbn [fst].
  all: destruct (bool_decide (addresses = [])), (bool_decide (address hk ∈ addresses)); cbn [negb andb orb];
    rewrite IH by (by apply cursor_ok_cons in Hc as (_ & _ & ?)); f_equal; try by rewrite <- app_assoc.
  all: by destruct (last _).
Qed.
End range.

(** ** The indexes by height *)

Lemma height_of_prefix h k : in_u32 h -> key_ok k ->
  (exists s, height_key k = (DB_HEIGHTINDEX :: ser_writedata32be h) ++ s) <-> height k = h.
Proof.
  intros Hh Hk. unfold height_key, ser_height_key. split.
  - intros [s Hs%(f_equal tail)]. cbn [tail app] in Hs. apply app_inj_1 in Hs as [Hs _]; [|by rewrite !be32_length].
    rewrite <- (be32_value (height k)), Hs, be32_value; auto using key_ok_u32.
  - intros <-. by eexists.
Qed.

(** C21: The height index is exact, although every operation on it is a walk that stops at
    the first key that does not fit.  Of a database whose keys of this index were written
    by [WriteHeightIndex]: [EraseHeightIndex] removes the keys of its height and nothing
    else; [WipeHeightIndex] removes the keys of the index and nothing else; and
    [ReadHeightIndex] returns, in the order of heights, the hashes of all records from
    [low] to [high] with enough confirmations and one of the addresses, together with the
    last such height of any address. *)
Theorem height_index_exact d h low high minconf tip addresses : height_index_ok d ->
  0 <= h < 2147483648 -> 0 <= low -> 0 <= tip < 2147483648 -> low <= high < 2147483648 -> 0 < high ->
  (forall k, key_ok k -> EraseHeightIndex h d !! height_key k = if height k =? h then None else d !! height_key k) /\
  (forall k, head k <> Some DB_HEIGHTINDEX -> EraseHeightIndex h d !! k = d !! k) /\
  (forall k, WipeHeightIndex d !! k = if bool_decide (head k = Some DB_HEIGHTINDEX) then None else d !! k) /\
  ReadHeightIndex low high minconf tip addresses d =
    (let r := omap (selected low high minconf tip) (ordered d) in
     (default 0 (last ((fun e => height e.1) <$> r)), omap (wanted addresses) r)) /\
  height_index_ok (EraseHeightIndex h d) /\ height_index_ok (WipeHeightIndex d).
Proof.
  intros Hd Hh Hlow Htip Hhigh Hpos. assert (Hu : in_u32 h) by (unfold in_u32; lia). split_and!.
  - intros k Hk. unfold EraseHeightIndex. rewrite lookup_Erase.
    assert (HE : height_key k ∈ erase_loop h (Seek (DB_HEIGHTINDEX :: ser_writedata32be h) d) <->
      (exists v, d !! height_key k = Some v) /\ height k = h).
    { rewrite erase_loop_spec, (height_of_prefix h k) by auto using seek_cursor_ok. setoid_rewrite elem_of_seek.
      split; [intros [[v [Hv _]] ?]; eauto|]. intros [[v Hv] Hkh]. split; [|done]. exists v. split; [done|].
      apply (height_of_prefix h k Hu Hk) in Hkh as [s ->]. apply lex_le_app. }
    case_bool_decide as HB; rewrite HE in HB; destruct (Z.eqb_spec (height k) h); try tauto.
    destruct (d !! height_key k) as [v|]; [|done]. exfalso. apply HB. eauto.
  - intros k Hk. unfold EraseHeightIndex. rewrite lookup_Erase, bool_decide_eq_false_2; [done|].
    rewrite erase_loop_spec by auto using seek_cursor_ok. intros [_ [s ->]]. by apply Hk.
  - intros k. unfold WipeHeightIndex. rewrite lookup_Erase.
    pose proof (wipe_loop_spec _ (seek_cursor_ok [DB_HEIGHTINDEX] d Hd) k) as HE. setoid_rewrite elem_of_seek in HE.
    case_bool_decide as HB; rewrite HE in HB; case_bool_decide as HH; try tauto.
    destruct (d !! k) as [v|] eqn:Ek; [|done]. exfalso. apply HB. split; [|done]. exists v. split; [done|].
    destruct k as [|c s]; [done|]. injection HH as ->. by apply (lex_le_app [DB_HEIGHTINDEX]).
  - unfold ReadHeightIndex. destruct (Z.ltb_spec high low); [lia|]. destruct (Z.eqb_spec high 0); [lia|].
    destruct (Z.ltb_spec high (-1)); [lia|]. destruct (Z.ltb_spec low 0); [lia|]. cbn [andb orb].
    rewrite (read_loop_spec low) by (lia || by apply seek_cursor_ok). unfold Seek. cbn [app].
    rewrite omap_filter_; [done|]. intros [k v] Hin Hn. cbn [fst] in Hn. unfold selected. cbn [fst].
    destruct (key_of k) as [hk|] eqn:E; [|done]. cbn. pose proof (key_of_head _ _ E) as Hk.
    apply elem_of_ordered in Hin. destruct (Hd _ _ Hin Hk) as (hk' & hs & Hok & -> & _).
    rewrite key_of_height_key in E by done. simplify_eq. unfold in_range. destruct (Z.leb_spec low (height hk)); [|done].
    exfalso. apply Hn. apply lex_le_cons. right. split; [done|]. rewrite <- (app_nil_r (ser_writedata32be low)).
    destruct (decide (low = height hk)) as [->|]; [rewrite app_nil_r; apply lex_le_app|].
    apply be32_lt; [unfold in_u32; lia|by apply key_ok_u32|lia].
  - by apply height_index_erase.
  - by apply height_index_erase.
Qed.

Definition wit_key (h a : Z) : CHeightTxIndexKey := mkHeightKey h (replicate 20 a).
Definition wit_index : database :=
  WriteHeightIndex (wit_key 300 2) [5%N] (WriteHeightIndex (wit_key 300 1) [3%N; 4%N]
    (WriteHeightIndex (wit_key 7 1) [2%N] (WriteStakeIndex 300 9 ∅))).

Lemma wit_index_ok : height_index_ok wit_index.
Proof.
  assert (V : forall l, (length l <= 2)%nat -> Forall (fun i => (i < 10)%N) l -> valid (vector_codec (id_codec 32)) l).
  { intros l Hl Hf. split; [|unfold MAX_SIZE; lia]. eapply Forall_impl; [exact Hf|].
    intros i Hi. cbv beta in Hi. apply (Z.lt_trans _ 10); [lia|done]. }
  assert (K : forall h a, 0 <= h < 2147483648 -> key_ok (wit_key h a)) by (intros h a Hh; split; [done|apply length_replicate]).
  repeat apply height_index_write; try (apply K; lia); try (apply V; [cbn; lia|by repeat constructor]).
  apply height_index_other; [done|]. intros k v. by rewrite lookup_empty.
Qed.

Lemma height_index_exact_witness :
  EraseHeightIndex 300 wit_index !! height_key (wit_key 300 2) = None /\
  ReadHeightIndex 0 1000 0 500 [] wit_index = (300, [[2%N]; [3%N; 4%N]; [5%N]]) /\
  ReadHeightIndex 8 1000 0 500 [replicate 20 2] wit_index = (300, [[5%N]]).
Proof.
  destruct (height_index_exact wit_index 300 0 1000 0 500 [] wit_index_ok) as (HE & _ & _ & HR & _); [lia..|].
  split_and!.
  - rewrite HE by (split; [cbn; lia|apply length_replicate]). reflexivity.
  - rewrite HR. vm_compute. reflexivity.
  - vm_compute. reflexivity.
Defined.

(** ** The stake and delegate indexes *)

Lemma stake_index_read h a x d : valid (id_codec 20) x -> d !! stake_key h = Some (enc (id_codec 20) x) ->
  ReadStakeIndex h a d = Some x.
Proof.
  intros Hx Hd. unfold ReadStakeIndex. destruct (seek_present _ _ _ Hd) as [l ->].
  pose proof (roundtrip (c := id_codec 20) x [] Hx) as R. rewrite app_nil_r in R. rewrite R. done.
Qed.

Lemma delegate_index_read h x d : valid delegate_entry_codec x -> d !! delegate_key h = Some (enc delegate_entry_codec x) ->
  ReadDelegateIndex h d = Some x.
Proof.
  intros [Hx Hf] Hd. unfold ReadDelegateIndex. destruct (seek_present _ _ _ Hd) as [l ->]. cbn [GetKey delegate_key].
  unfold read_delegate_entry. destruct x as [a f]. cbn [enc delegate_entry_codec pair_codec fst snd] in *.
  rewrite (roundtrip (c := id_codec 20) a _ Hx).
  pose proof (roundtrip (c := u8_codec) f [] Hf) as R. rewrite app_nil_r in R. by rewrite R.
Qed.

Lemma GetKey_first k : (GetKey k).2.1 = default 0 (head k).
Proof. destruct k as [|c s]; [done|]. cbn. by repeat case_match. Qed.

Lemma erase_loop_stops h k v l : head k <> Some DB_HEIGHTINDEX -> erase_loop h ((k, v) :: l) = [].
Proof.
  intros Hk. cbn. pose proof (GetKey_first k) as HF. destruct (GetKey k) as [ok [f key]]. cbn in HF.
  destruct (Z.eqb_spec f DB_HEIGHTINDEX) as [->|]; [|by rewrite andb_false_r]. destruct k as [|c s]; [done|]. by cbn in HF; subst c.
Qed.

Lemma stake_index_kept h d : EraseStakeIndex h d = d.
Proof.
  unfold EraseStakeIndex. destruct (Seek (stake_key h) d) as [|[k v] l] eqn:E; [done|].
  rewrite erase_loop_stops; [done|]. assert (Hin : (k, v) ∈ Seek (stake_key h) d) by (rewrite E; left).
  apply elem_of_seek in Hin as [_ Hle]. destruct k as [|c s]; [done|]. apply lex_le_cons in Hle.
  unfold DB_STAKEINDEX, DB_HEIGHTINDEX in *. intros [= ->]. lia.
Qed.

Lemma delegate_index_kept h v d : d !! delegate_key h = Some v -> EraseDelegateIndex h d = d.
Proof. intros Hd. unfold EraseDelegateIndex. destruct (seek_present _ _ _ Hd) as [l ->]. by rewrite erase_loop_stops. Qed.

(** The entry an iterator set to [p] stands on: the least key that is not below [p]. *)
Definition next_key (p k : list Z) (d : database) : Prop :=
  is_Some (d !! k) /\ lex_le p k = true /\ forall k', is_Some (d !! k') -> lex_le p k' = true -> lex_le k k' = true.

Lemma next_key_seek p k d : next_key p k d <-> exists v l, Seek p d = (k, v) :: l.
Proof.
  split.
  - intros ([v Hv] & Hp & Hmin). destruct (Seek p d) as [|[k0 v0] l] eqn:E.
    { assert (Hin : (k, v) ∈ Seek p d) by (by apply elem_of_seek). rewrite E in Hin. by apply not_elem_of_nil in Hin. }
    exists v0, l. f_equal. f_equal. assert (Hin : (k0, v0) ∈ Seek p d) by (rewrite E; left). apply elem_of_seek in Hin as [H0 Hp0].
    apply lex_le_antisym; [|by apply Hmin; eauto]. pose proof (seek_sorted p d) as HS. rewrite E in HS. apply StronglySorted_inv in HS as [_ HS].
    assert (Hk : (k, v) ∈ Seek p d) by (by apply elem_of_seek). rewrite E in Hk. apply elem_of_cons in Hk as [[= -> ->]|Hk]; [apply lex_le_refl|].
    rewrite Forall_forall in HS. apply (HS _ Hk).
  - intros (v & l & E). assert (Hin : (k, v) ∈ Seek p d) by (rewrite E; left). apply elem_of_seek in Hin as [H0 Hp0].
    split; [eauto|]. split; [done|]. intros k' [v' Hv'] Hp'. assert (Hk : (k', v') ∈ Seek p d) by (by apply elem_of_seek).
    rewrite E in Hk. apply elem_of_cons in Hk as [[= -> ->]|Hk]; [apply lex_le_refl|].
    pose proof (seek_sorted p d) as HS. rewrite E in HS. apply StronglySorted_inv in HS as [_ HS]. rewrite Forall_forall in HS. apply (HS _ Hk).
Qed.

Lemma filter_agree {A} (P Q : A -> Prop) `{forall x, Decision (P x)} `{forall x, Decision (Q x)} (l : list A) :
  Forall (fun x => P x <-> Q x) l -> filter P l = filter Q l.
Proof.
  induction 1 as [|x l Hx _ IH]; [done|]. rewrite !filter_cons, IH. destruct (decide (P x)), (decide (Q x)); tauto.
Qed.

(** Iterators set to two keys with nothing between them visit the same entries. *)
Lemma seek_same p q k d : lex_le p q = true -> next_key p k d -> lex_le q k = true -> Seek p d = Seek q d.
Proof.
  intros Hpq (_ & _ & Hmin) Hqk. unfold Seek. apply filter_agree. apply Forall_forall. intros [k' v'] Hin%elem_of_ordered. cbn. split; intros Hle.
  - apply (lex_le_trans _ k); [done|]. by apply Hmin; eauto.
  - by apply (lex_le_trans _ q).
Qed.

(** What [EraseDelegateIndex] erases: the height index's records of the height, when the
    iterator lands on one of them, and else nothing. *)
Lemma delegate_erase_heights h k s d : next_key (delegate_key h) k d -> k = (DB_HEIGHTINDEX :: ser_writedata32be h) ++ s ->
  EraseDelegateIndex h d = EraseHeightIndex h d.
Proof.
  intros Hn ->. unfold EraseDelegateIndex, EraseHeightIndex. assert (Seek (delegate_key h) d = Seek (DB_HEIGHTINDEX :: ser_writedata32be h) d) as ->; [|done].
  eapply seek_same; [|exact Hn|apply lex_le_app]. apply lex_le_cons. by left.
Qed.

Lemma delegate_erase_none h k d : height_index_ok d -> next_key (delegate_key h) k d -> (forall s, k <> (DB_HEIGHTINDEX :: ser_writedata32be h) ++ s) ->
  EraseDelegateIndex h d = d.
Proof.
  intros Hd Hn Hk. apply next_key_seek in Hn as (v & l & E). unfold EraseDelegateIndex. rewrite E.
  pose proof (seek_cursor_ok (delegate_key h) d Hd) as HC. rewrite E in HC.
  destruct (GetKey_cases _ _ _ _ HC) as [(hk & Hhk & -> & EG)|[Hh _]]; [|by rewrite erase_loop_stops].
  cbn [erase_loop]. rewrite EG. destruct (Z.eqb_spec (height hk) h) as [Eh|]; [|by rewrite andb_false_r].
  exfalso. apply (Hk (enc bytes_codec (address hk))). unfold height_key, ser_height_key. by rewrite Eh.
Qed.

Lemma stake_read_next h k a x d : next_key (stake_key h) k d -> head k = Some DB_STAKEINDEX -> valid (id_codec 20) a -> d !! k = Some (enc (id_codec 20) a) ->
  ReadStakeIndex h x d = Some a.
Proof.
  intros Hn Hk Ha Hd. apply next_key_seek in Hn as (v & l & E). unfold ReadStakeIndex. rewrite E, GetKey_first, Hk. cbn [default Z.eqb].
  assert (Hin : (k, v) ∈ Seek (stake_key h) d) by (rewrite E; left). apply elem_of_seek in Hin as [Hv _]. assert (Some v = Some (enc (id_codec 20) a)) as [= ->] by (etransitivity; [symmetry; exact Hv|exact Hd]).
  pose proof (roundtrip (c := id_codec 20) a [] Ha) as R. rewrite app_nil_r in R. change (id_bytes 20 a) with (enc (id_codec 20) a). by rewrite R.
Qed.

(** C39: What is written to the stake and delegate indexes for a block is read back, and
    stays when the block is disconnected: [EraseStakeIndex] erases nothing of any database,
    and [EraseDelegateIndex] erases no delegate record: it compares the keys it visits with
    the prefix of the height index, so that it erases what [EraseHeightIndex] would where no
    key lies between the delegate key and the height index's records of that height, and
    nothing elsewhere (if the keys of that index are those [WriteHeightIndex] writes).  [ReadStakeIndex] returns the record the iterator lands on,
    the stake record of whatever height that has the least key from the one sought on. *)
Theorem stake_records_stay h a a' fee d : valid (id_codec 20) a -> valid delegate_entry_codec (a', fee) ->
  let d' := WriteDelegateIndex h a' fee (WriteStakeIndex h a d) in
  (ReadStakeIndex h 0 d' = Some a /\ ReadDelegateIndex h d' = Some (a', fee) /\ EraseDelegateIndex h (EraseStakeIndex h d') = d') /\
  EraseStakeIndex h d = d /\
  (forall k, next_key (delegate_key h) k d ->
     ((exists s, k = (DB_HEIGHTINDEX :: ser_writedata32be h) ++ s) -> EraseDelegateIndex h d = EraseHeightIndex h d) /\
     (height_index_ok d -> (forall s, k <> (DB_HEIGHTINDEX :: ser_writedata32be h) ++ s) -> EraseDelegateIndex h d = d)) /\
  ((forall k, ~ next_key (delegate_key h) k d) -> EraseDelegateIndex h d = d) /\
  (forall h', next_key (stake_key h) (stake_key h') d -> d !! stake_key h' = Some (enc (id_codec 20) a) -> ReadStakeIndex h 0 d = Some a).
Proof.
  intros Ha Ha' d'. assert (HS : d' !! stake_key h = Some (enc (id_codec 20) a)).
  { unfold d', WriteDelegateIndex. rewrite lookup_insert_ne by done. apply lookup_insert_eq. }
  assert (HD : d' !! delegate_key h = Some (enc delegate_entry_codec (a', fee))) by apply lookup_insert_eq.
  rewrite !stake_index_kept, !(delegate_index_kept _ _ _ HD), (stake_index_read h 0 a), (delegate_index_read h (a', fee)) by done.
  do 2 (split; [done|]). split_and!.
  - intros k Hk. split; [intros [s Es]; by eapply delegate_erase_heights|intros Hd; by apply delegate_erase_none].
  - intros Hn. unfold EraseDelegateIndex. destruct (Seek (delegate_key h) d) as [|[k v] l] eqn:E; [done|].
    exfalso. apply (Hn k), next_key_seek. eauto.
  - intros h' Hn Hk. by eapply stake_read_next.
Qed.

(** The record of height 256 is returned for height 0, and the height index's record of
    height 7 is erased for a block that had no delegate. *)
Lemma stake_records_stay_witness :
  ReadStakeIndex 0 0 (WriteStakeIndex 256 9 ∅) = Some 9%N /\
  EraseStakeIndex 7 wit_index = wit_index /\ EraseDelegateIndex 7 wit_index = EraseHeightIndex 7 wit_index /\ EraseDelegateIndex 7 wit_index <> wit_index.
Proof.
  assert (H5 : forall i, (i < 10)%N -> valid (id_codec 20) i) by (intros i Hi; apply (Z.lt_trans _ 10); [lia|done]).
  assert (H6 : valid delegate_entry_codec (5%N, 20)) by (split; [by apply H5|cbn; lia]).
  split; [|split; [|split]].
  - destruct (stake_records_stay 0 9 5 20 (WriteStakeIndex 256 9 ∅)) as (_ & _ & _ & _ & HR); [by apply H5|done|].
    apply (HR 256); [|apply lookup_insert_eq]. apply next_key_seek. vm_compute. eauto.
  - by apply (stake_records_stay 7 9 5 20 wit_index (H5 9%N eq_refl) H6).
  - destruct (stake_records_stay 7 9 5 20 wit_index (H5 9%N eq_refl) H6) as (_ & _ & HE & _).
    apply (HE (height_key (wit_key 7 1))); [apply next_key_seek; vm_compute; eauto|]. by eexists.
  - intros E. apply (f_equal (fun d => d !! height_key (wit_key 7 1))) in E. vm_compute in E. discriminate.
Defined.

End TreeDB.
