(* ===== verification/Primality.v ===== *)
(** * Primality certificates

    Pocklington's criterion: [n] is prime when a factor [F > sqrt n] of [n - 1] is
    known with its prime factors and some [a] has order divisible by [F] modulo every
    prime divisor of [n].  It certifies the order of the BLS12-381 groups (consts.c). *)

From stdpp Require Import prelude list.
From Stdlib Require Import ZArith Lia Zpow_facts Zmod.
From S2P Require Import Prelude.

Open Scope Z_scope.

(** ** Prime factors and trial division *)

Lemma prime_or_factor n : 1 < n -> Z.prime n \/ exists m, 1 < m < n /\ (m | n) /\ m * m <= n.
Proof.
  intros Hn. destruct (decide (Forall (fun m => n mod m <> 0) (seqZ 2 (n - 2)))) as [D|D].
  - left. split; [done|]. intros m Hm E. rewrite Forall_forall in D. apply (D m).
    + apply elem_of_seqZ. lia.
    + apply Z.mod_divide; [lia|done].
  - right. apply not_Forall_Exists in D; [|apply _]. apply Exists_exists in D as (d & Hd%elem_of_seqZ & D).
    apply dec_stable, Z.mod_divide in D as [k Hk]; [|lia].
    destruct (Z.le_ge_cases d k); [exists d|exists k]; (split; [nia|]); (split; [|nia]).
    + by exists k.
    + exists d. lia.
Qed.

Lemma prime_factor n : 1 < n -> exists q, Z.prime q /\ (q | n).
Proof.
  intros Hn. assert (0 <= n) as H0 by lia. revert n H0 Hn.
  apply (Z_lt_induction (fun n => 1 < n -> exists q, Z.prime q /\ (q | n))). intros n IH Hn.
  destruct (prime_or_factor n Hn) as [Hp|(m & Hm & D & _)]; [by exists n|].
  destruct (IH m ltac:(lia) ltac:(lia)) as (q & Hq & Dq). exists q. split; [done|]. by transitivity m.
Qed.

Lemma prime_by_factors n : 1 < n -> (forall q, Z.prime q -> (q | n) -> n < q * q) -> Z.prime n.
Proof.
  intros Hn K. destruct (prime_or_factor n Hn) as [|(m & Hm & D & Hmm)]; [done|].
  destruct (prime_factor m ltac:(lia)) as (q & Hq & Dq).
  pose proof (K q Hq ltac:(by transitivity m)). apply Z.divide_pos_le in Dq; [|lia].
  pose proof (Z.prime_ge_2 q Hq). nia.
Qed.

Fixpoint no_divisor (n d : Z) (fuel : nat) : bool :=
  match fuel with
  | O => true
  | S fuel => negb (n mod d =? 0) && no_divisor n (d + 1) fuel
  end.

Lemma no_divisor_spec n fuel : forall d e, no_divisor n d fuel = true -> 0 < d ->
  d <= e < d + Z.of_nat fuel -> ~ (e | n).
Proof.
  induction fuel as [|fuel IH]; intros d e; cbn [no_divisor]; [lia|].
  intros [H1 H2]%andb_prop Hd He. apply negb_true_iff, Z.eqb_neq in H1.
  destruct (Z.eq_dec e d) as [-> |Hne]; [|apply (IH (d + 1)); [done|lia|lia]].
  by rewrite <- Z.mod_divide by lia.
Qed.

Lemma prime_by_trial n s : 1 < n -> 0 <= s -> no_divisor n 2 (Z.to_nat s) = true ->
  n < (s + 2) * (s + 2) -> Z.prime n.
Proof.
  intros Hn Hs0 Hd Hs. apply prime_by_factors; [done|]. intros q Hq D. pose proof (Z.prime_ge_2 q Hq).
  destruct (Z.le_gt_cases (s + 2) q) as [|Hlt]; [nia|].
  destruct (no_divisor_spec n (Z.to_nat s) 2 q Hd ltac:(lia) ltac:(lia) D).
Qed.

(** ** Exponents of one *)

Section Powers.
Context (p b : Z) (Hp : Z.prime p).

Definition unit_power (e : Z) : Prop := b ^ e mod p = 1.

Lemma unit_power_add d e : 0 <= d -> 0 <= e -> unit_power d -> unit_power (d + e) <-> unit_power e.
Proof.
  unfold unit_power. intros Hd He Ed. pose proof (Z.prime_ge_2 p Hp).
  by rewrite Z.pow_add_r, <- Z.mul_mod_idemp_l, Ed, Z.mul_1_l by lia.
Qed.

Lemma unit_power_mul d e : 0 <= d -> 0 <= e -> (d | e) -> unit_power d -> unit_power e.
Proof.
  intros Hd He [k ->] Ed. unfold unit_power in *. pose proof (Z.prime_ge_2 p Hp).
  destruct (Z.eq_dec d 0) as [-> |]; [by rewrite Z.mul_0_r|].
  rewrite (Z.mul_comm k), Z.pow_mul_r by nia.
  rewrite <- Z.mod_pow_l, Ed. rewrite Z.pow_1_l by nia. apply Z.mod_1_l. lia.
Qed.

Lemma unit_power_gcd d e : 0 <= d -> 0 <= e -> unit_power d -> unit_power e -> unit_power (Z.gcd d e).
Proof.
  intros Hd He. assert (0 <= d + e) as Hn by lia. remember (d + e) as n eqn:En.
  revert n Hn d e En Hd He.
  apply (Z_lt_induction (fun n => forall d e, n = d + e -> 0 <= d -> 0 <= e ->
    unit_power d -> unit_power e -> unit_power (Z.gcd d e))).
  intros n IH d e -> Hd He Ed Ee.
  destruct (Z.eq_dec d 0) as [-> |]; [by rewrite Z.gcd_0_l, Z.abs_eq|].
  destruct (Z.eq_dec e 0) as [-> |]; [by rewrite Z.gcd_0_r, Z.abs_eq|].
  destruct (Z.le_ge_cases d e).
  - rewrite <- Z.gcd_sub_diag_r. apply (IH (d + (e - d))); try lia; [done|].
    apply (unit_power_add d (e - d)); [lia|lia|done|]. by replace (d + (e - d)) with e by lia.
  - rewrite Z.gcd_comm, <- Z.gcd_sub_diag_r. apply (IH (e + (d - e))); try lia; [done|].
    apply (unit_power_add e (d - e)); [lia|lia|done|]. by replace (e + (d - e)) with d by lia.
Qed.

(** If [b ^ F] is one and no [b ^ (F / q)] is, for [q] a prime factor of [F], then
    [F] divides [p - 1]. *)
Lemma order_divides F : 0 < F -> unit_power F ->
  (forall q, Z.prime q -> (q | F) -> ~ unit_power (F / q)) -> (F | p - 1).
Proof.
  intros HF EF K. pose proof (Z.prime_ge_2 p Hp).
  assert (b mod p <> 0) as Hb.
  { intros E. unfold unit_power in EF. rewrite <- Z.mod_pow_l, E, Z.pow_0_l, Z.mod_0_l in EF by lia. lia. }
  pose proof (Z.fermat_nz p b Hp Hb) as Ef.
  pose proof (unit_power_gcd F (p - 1) ltac:(lia) ltac:(lia) EF Ef) as Eg.
  pose proof (Z.gcd_divide_l F (p - 1)) as [c Hc]. pose proof (Z.gcd_nonneg F (p - 1)).
  pose proof (Z.gcd_divide_r F (p - 1)) as Dr. set (g := Z.gcd F (p - 1)) in *.
  assert (g <> 0) as Hg0 by (intros E0; rewrite E0, Z.mul_0_r in Hc; lia).
  assert (0 < g) as Hg by lia. assert (0 < c) as Hc0 by nia.
  destruct (Z.eq_dec c 1) as [-> |Hc1]; [rewrite Z.mul_1_l in Hc; by rewrite Hc|].
  destruct (prime_factor c ltac:(lia)) as (q & Hq & k & Hk). pose proof (Z.prime_ge_2 q Hq).
  assert (F = (k * g) * q) as E by nia. destruct (K q Hq).
  - exists (k * g). done.
  - rewrite E, Z.div_mul by lia. apply (unit_power_mul g); [lia|nia|by exists k|done].
Qed.
End Powers.

(** ** The certificate *)

Record certificate := {
  cert_base : Z;
  cert_cofactor : Z;                 (* n - 1 = cofactor * product of the factors *)
  cert_factors : list (Z * Z);       (* (prime, exponent) *)
}.

Definition factored (fs : list (Z * Z)) : Z := foldr (fun f acc => fst f ^ snd f * acc) 1 fs.

Definition pocklington (n : Z) (c : certificate) : bool :=
  let F := factored (cert_factors c) in
  let a := cert_base c in
  (1 <? n) && (n - 1 =? cert_cofactor c * F) && (0 <? cert_cofactor c) && (0 <? F) && (n <? F * F) &&
  (Zpow_mod a (n - 1) n =? 1) &&
  forallb (fun f => (0 <=? snd f) && (Z.gcd (Zpow_mod a ((n - 1) / fst f) n - 1) n =? 1)) (cert_factors c).

Lemma factored_prime q fs : Z.prime q -> Forall (fun f => Z.prime (fst f) /\ 0 <= snd f) fs ->
  (q | factored fs) -> q ∈ fst <$> fs.
Proof.
  intros Hq H. induction H as [|f fs [Hf He] _ IH]; cbn [factored foldr fmap list_fmap].
  - intros D. pose proof (Z.prime_ge_2 q Hq). apply Z.divide_pos_le in D; lia.
  - intros D. apply Z.divide_prime_mul in D as [D|D]; [| |done].
    + apply Z.divide_prime_pp in D; [|done..]. subst. left.
    + right. by apply IH.
Qed.

Theorem pocklington_prime n c :
  pocklington n c = true -> Forall (fun f => Z.prime (fst f)) (cert_factors c) -> Z.prime n.
Proof.
  intros H HF. unfold pocklington in H.
  set (F := factored (cert_factors c)) in *. set (a := cert_base c) in *.
  rewrite !andb_true_iff, !Z.ltb_lt, !Z.eqb_eq in H.
  destruct H as ((((((Hn & En) & HR) & HF0) & HFF) & Ea) & Hq).
  rewrite forallb_forall in Hq. rewrite Zpow_mod_correct in Ea by lia.
  apply prime_by_factors; [done|]. intros p Hp Dp. pose proof (Z.prime_ge_2 p Hp).
  assert (forall x, x mod n = 1 -> x mod p = 1) as Kmod.
  { intros x Ex. destruct Dp as [k Hk]. rewrite (Z.div_mod x n) by lia. rewrite Ex, Hk.
    rewrite Z.add_comm, Z.mul_comm, Z.mul_assoc, Z.mod_add by lia. apply Z.mod_1_l. lia. }
  assert (F | p - 1) as D; [|apply Z.divide_pos_le in D; nia].
  apply (order_divides p (a ^ cert_cofactor c) Hp F HF0).
  - unfold unit_power. rewrite <- Z.pow_mul_r, <- En by lia. by apply Kmod.
  - intros q Hqp Dq Eq. pose proof (Z.prime_ge_2 q Hqp).
    assert (q ∈ fst <$> cert_factors c) as Hin.
    { apply factored_prime; [done| |done]. apply Forall_forall. intros f Hf. rewrite Forall_forall in HF.
      split; [by apply HF|]. apply list_elem_of_In, Hq in Hf. lia. }
    apply list_elem_of_fmap in Hin as (f & -> & Hf). apply list_elem_of_In, Hq in Hf.
    rewrite andb_true_iff, Z.eqb_eq in Hf. destruct Hf as [_ Hg].
    rewrite Zpow_mod_correct in Hg by lia. destruct Dq as [k Hk].
    assert ((n - 1) / f.1 = cert_cofactor c * k) as E.
    { rewrite En. fold F. rewrite Hk, Z.mul_assoc, Z.div_mul by lia. done. }
    unfold unit_power in Eq. rewrite <- Z.pow_mul_r in Eq; [|lia|apply Z.div_pos; lia].
    rewrite Hk, Z.div_mul, <- E in Eq by lia.
    assert (p | 1) as D1; [|apply Z.divide_pos_le in D1; lia].
    rewrite <- Hg. apply Z.gcd_greatest; [|done].
    apply Z.mod_divide; [lia|]. rewrite Zminus_mod.
    assert ((a ^ ((n - 1) / f.1) mod n) mod p = 1) as ->.
    { destruct Dp as [j Hj]. rewrite Hj at 2. rewrite Z.mul_comm, <- Eq at 1.
      rewrite Z.rem_mul_r by nia. rewrite Z.mul_comm, Z.mod_add by lia. by rewrite Z.mod_mod, Eq by lia. }
    rewrite Z.mod_1_l by lia. apply Z.mod_0_l. lia.
Qed.
