(* ===== verification/Limbs.v ===== *)
(** * Multi-limb modular arithmetic of the BLS library

    The portable arithmetic of src/src/blst/src/no_asm.h (addition, subtraction,
    doubling, halving, negation and Montgomery multiplication on arrays of limbs), the
    byte conversions of bytes.h and the tests of vect.h.  A limb has [w] bits (LIMB_T_BITS:
    32 for WebAssembly and 32-bit platforms, 64 elsewhere), a double limb 2[w] bits; a vector is the list
    of its limbs, least significant first, and [val] its value.  The constant-time
    selections by masks are modelled as masks, and shown to select. *)

From stdpp Require Import prelude list.
From Stdlib Require Import ZArith Lia Znumtheory.
From S2P Require Import Prelude Serialize.

Open Scope Z_scope.

Section Limbs.
Context (w : Z).

(** [(limb_t)x], [(llimb_t)x] and [(limb_t)(x >> LIMB_T_BITS)] *)
Definition limb (z : Z) : Z := z mod 2 ^ w.
Definition llimb (z : Z) : Z := z mod 2 ^ (2 * w).
Definition hi_limb (z : Z) : Z := limb (Z.shiftr z w).

Fixpoint val (l : list Z) : Z :=
  match l with
  | [] => 0
  | x :: l => x + 2 ^ w * val l
  end.

(** ** The loops over limbs *)

Fixpoint add_limbs (a b : list Z) (carry : Z) : list Z * Z :=
  match a, b with
  | ai :: a, bi :: b =>
      let limbx := llimb (ai + llimb (bi + carry)) in
      let '(r, c) := add_limbs a b (hi_limb limbx) in (limb limbx :: r, c)
  | _, _ => ([], carry)
  end.

Fixpoint sub_limbs (a b : list Z) (borrow : Z) : list Z * Z :=
  match a, b with
  | ai :: a, bi :: b =>
      let limbx := llimb (ai - llimb (bi + borrow)) in
      let '(r, c) := sub_limbs a b (Z.land (hi_limb limbx) 1) in (limb limbx :: r, c)
  | _, _ => ([], borrow)
  end.

(** [tmp[i] = a[i] << 1 | carry; carry = a[i] >> (LIMB_T_BITS-1)] *)
Fixpoint double_limbs (a : list Z) (carry : Z) : list Z * Z :=
  match a with
  | [] => ([], carry)
  | ai :: a =>
      let '(r, c) := double_limbs a (Z.shiftr ai (w - 1)) in
      (Z.lor (limb (Z.shiftl ai 1)) carry :: r, c)
  end.

Fixpoint umul_n (a : list Z) (b : Z) (hi : Z) : list Z * Z :=
  match a with
  | [] => ([], hi)
  | ai :: a =>
      let limbx := llimb (b * ai + hi) in
      let '(r, h) := umul_n a b (hi_limb limbx) in (limb limbx :: r, h)
  end.

Fixpoint mul_add_limbs (mx : Z) (a tmp : list Z) (hi : Z) : list Z * Z :=
  match a, tmp with
  | ai :: a, ti :: tmp =>
      let limbx := llimb (llimb (mx * ai + hi) + ti) in
      let '(r, h) := mul_add_limbs mx a tmp (hi_limb limbx) in (limb limbx :: r, h)
  | _, _ => ([], hi)
  end.

(** [ret[i] = (ret[i] & ~mask) | (tmp[i] & mask)] *)
Definition select_limbs (ret tmp : list Z) (mask : Z) : list Z :=
  zip_with (fun r t => Z.lor (Z.land r (limb (Z.lnot mask))) (Z.land t mask)) ret tmp.

(** The tail most operations share: subtract the modulus unless that borrows from
    [carry]. *)
Definition final_sub (tmp : list Z) (carry : Z) (p : list Z) : list Z :=
  let '(ret, borrow) := sub_limbs tmp p 0 in
  let mask := limb (carry - borrow) in
  select_limbs ret tmp mask.

(** ** Operations modulo [p] *)

Definition add_mod_n (a b p : list Z) : list Z :=
  let '(tmp, carry) := add_limbs a b 0 in final_sub tmp carry p.

Definition sub_mod_n (a b p : list Z) : list Z :=
  let '(ret, borrow) := sub_limbs a b 0 in
  let mask := limb (0 - borrow) in
  (add_limbs ret (map (fun pi => Z.land pi mask) p) 0).1.

Definition mul_by_3_mod_n (a p : list Z) : list Z :=
  let '(tmp, carry) := double_limbs a 0 in
  let two_a := final_sub tmp carry p in
  let '(tmp, carry) := add_limbs a two_a 0 in
  final_sub tmp carry p.

Fixpoint lshift_mod_n (a : list Z) (count : nat) (p : list Z) : list Z :=
  match count with
  | O => a
  | S count =>
      let '(tmp, carry) := double_limbs a 0 in
      lshift_mod_n (final_sub tmp carry p) count p
  end.

(** [is_zero(l)]: [(~l & (l - 1)) >> (LIMB_T_BITS - 1)] *)
Definition is_zero (l : Z) : Z :=
  Z.shiftr (Z.land (limb (Z.lnot l)) (limb (l - 1))) (w - 1).

Definition vec_is_zero (a : list Z) : Z := is_zero (foldl Z.lor 0 a).

Definition cneg_mod_n (a : list Z) (flag : Z) (p : list Z) : list Z :=
  let '(tmp, _) := sub_limbs p a 0 in
  let flag := Z.land flag (Z.lxor (vec_is_zero a) 1) in
  let mask := limb (0 - flag) in
  select_limbs a tmp mask.

(** One round of [rshift_mod_n]: add the modulus if odd, then shift by one bit. *)
Fixpoint shift_right_1 (l : list Z) (carry : Z) : list Z :=
  match l with
  | [] => []
  | [next] => [Z.lor (Z.shiftr next 1) (limb (Z.shiftl carry (w - 1)))]
  | x :: ((next :: _) as l) =>
      Z.lor (Z.shiftr x 1) (limb (Z.shiftl next (w - 1))) :: shift_right_1 l carry
  end.

Fixpoint rshift_mod_n (a : list Z) (count : nat) (p : list Z) : list Z :=
  match count with
  | O => a
  | S count =>
      let mask := limb (0 - Z.land (hd 0 a) 1) in
      let '(ret, carry) := add_limbs a (map (fun pi => Z.land pi mask) p) 0 in
      rshift_mod_n (shift_right_1 ret carry) count p
  end.

(** ** Montgomery multiplication *)

(** The reduction half of a round: [tmp] holds [n] limbs, [top] is [tmp[n]]; one
    multiple of the modulus is added and the lowest limb, now zero, dropped. *)
Definition mont_reduce (tmp : list Z) (top carry mx : Z) (p : list Z) : list Z * Z :=
  match p, tmp with
  | p0 :: p, t0 :: tmp =>
      let limbx := llimb (mx * p0 + t0) in
      let '(r, hi) := mul_add_limbs mx p tmp (hi_limb limbx) in
      let limbx := llimb (top + llimb (hi + carry)) in
      (r ++ [limb limbx], hi_limb limbx)
  | _, _ => ([], carry)
  end.

Fixpoint mont_loop (bs : list Z) (a p : list Z) (n0 : Z) (tmp : list Z) (top carry mx : Z)
    : list Z * Z :=
  let '(tmp, carry) := mont_reduce tmp top carry mx p in
  match bs with
  | [] => (tmp, carry)
  | bj :: bs =>
      let '(tmp, hi) := mul_add_limbs bj a tmp 0 in
      let mx := limb (n0 * hd 0 tmp) in
      let limbx := llimb (hi + carry) in
      mont_loop bs a p n0 tmp (limb limbx) (hi_limb limbx) mx
  end.

Definition mul_mont_n (a b p : list Z) (n0 : Z) : list Z :=
  match b with
  | [] => []
  | b0 :: bs =>
      let '(tmp, hi) := umul_n a b0 0 in
      let mx := limb (n0 * hd 0 tmp) in
      let '(tmp, carry) := mont_loop bs a p n0 tmp hi 0 mx in
      final_sub tmp carry p
  end.

(** [n] rounds of reduction without a multiplication. *)
Fixpoint redc_loop (n : nat) (a p : list Z) (n0 : Z) : list Z :=
  match n with
  | O => a
  | S n =>
      match p, a with
      | p0 :: p', a0 :: a' =>
          let mx := limb (n0 * a0) in
          let limbx := llimb (mx * p0 + a0) in
          let '(r, hi) := mul_add_limbs mx p' a' (hi_limb limbx) in
          redc_loop n (r ++ [hi]) p n0
      | _, _ => []
      end
  end.

Definition from_mont_n (a p : list Z) (n0 : Z) : list Z :=
  let tmp := redc_loop (length p) a p n0 in
  let '(ret, borrow) := sub_limbs tmp p 0 in
  let mask := limb (0 - borrow) in
  select_limbs ret tmp mask.

(** [a] has twice as many limbs as [p]. *)
Definition redc_mont_n (a p : list Z) (n0 : Z) : list Z :=
  let n := length p in
  let tmp := redc_loop n (take n a) p n0 in
  let '(tmp, carry) := add_limbs (drop n a) tmp 0 in
  final_sub tmp carry p.

(** ** Elements of the quadratic extension: pairs of vectors *)

Definition mul_mont_384x (a b : list Z * list Z) (p : list Z) (n0 : Z) : list Z * list Z :=
  let aa := add_mod_n a.1 a.2 p in
  let bb := add_mod_n b.1 b.2 p in
  let bb := mul_mont_n bb aa p n0 in
  let aa := mul_mont_n a.1 b.1 p n0 in
  let cc := mul_mont_n a.2 b.2 p n0 in
  (sub_mod_n aa cc p, sub_mod_n (sub_mod_n bb aa p) cc p).

(** ** Bytes (bytes.h) *)

Definition limb_bytes : nat := Z.to_nat (w / 8).

(** The bytes are read from the most significant one; every step stores the limb
    read so far at the index of the limb the byte belongs to. *)
Fixpoint store_be_bytes (ret : list Z) (inp : list Z) (acc : Z) : list Z :=
  match inp with
  | [] => ret
  | x :: inp =>
      let acc := Z.lor (limb (Z.shiftl acc 8)) x in
      store_be_bytes (<[ (length inp / limb_bytes)%nat := acc ]> ret) inp acc
  end.

Definition limbs_from_be_bytes (ret inp : list Z) : list Z := store_be_bytes ret inp 0.
Definition limbs_from_le_bytes (ret inp : list Z) : list Z := store_be_bytes ret (reverse inp) 0.

Definition be_bytes_from_limbs (inp : list Z) (n : nat) : list Z :=
  (fun k => u8 (Z.shiftr (nth (k / limb_bytes) inp 0) (8 * Z.of_nat (k mod limb_bytes))))
    <$> reverse (seq 0 n).

Fixpoint bytes_of_limb (x : Z) (n : nat) : list Z :=
  match n with
  | O => []
  | S n => u8 x :: bytes_of_limb (Z.shiftr x 8) n
  end.

Definition le_bytes_from_limbs (inp : list Z) (n : nat) : list Z :=
  let r := (n mod limb_bytes)%nat in
  let q := (n / limb_bytes)%nat in
  concat (map (fun x => bytes_of_limb x limb_bytes) (take q inp)) ++
  (if (r =? 0)%nat then [] else bytes_of_limb (nth q inp 0) r).

(** ** Range checks on little-endian numbers *)

Fixpoint limb_of_bytes (a : list Z) (j : Z) : Z :=
  match a with
  | [] => 0
  | x :: a => Z.lor (limb (Z.shiftl x j)) (limb_of_bytes a (j + 8))
  end.

Fixpoint check_mod_loop (a p : list Z) (acc borrow : Z) : Z * Z :=
  match p with
  | [] => (acc, borrow)
  | pi :: p =>
      let ai := limb_of_bytes (take limb_bytes a) 0 in
      let limbx := llimb (ai - llimb (pi + borrow)) in
      check_mod_loop (drop limb_bytes a) p (Z.lor acc ai) (Z.land (hi_limb limbx) 1)
  end.

Definition check_mod_n (a p : list Z) : Z :=
  let '(acc, borrow) := check_mod_loop a p 0 0 in
  Z.land borrow (Z.lxor (is_zero acc) 1).

Definition zeros (n : nat) : list Z := replicate n 0.

Definition add_n_check_mod_n (a b p : list Z) : list Z * Z :=
  let n := length p in
  let a_ := limbs_from_le_bytes (zeros n) a in
  let b_ := limbs_from_le_bytes (zeros n) b in
  let ret_ := add_mod_n a_ b_ p in
  (le_bytes_from_limbs ret_ (n * limb_bytes), Z.lxor (vec_is_zero ret_) 1).

Definition sub_n_check_mod_n (a b p : list Z) : list Z * Z :=
  let n := length p in
  let a_ := limbs_from_le_bytes (zeros n) a in
  let b_ := limbs_from_le_bytes (zeros n) b in
  let ret_ := sub_mod_n a_ b_ p in
  (le_bytes_from_limbs ret_ (n * limb_bytes), Z.lxor (vec_is_zero ret_) 1).


(** ** Shapes: the number of limbs of the results *)

Lemma length_add_limbs a : forall b c, length (add_limbs a b c).1 = Nat.min (length a) (length b).
Proof.
  induction a as [|x a IH]; intros [|y b] c; cbn [add_limbs]; try done.
  pose proof (IH b (hi_limb (llimb (x + llimb (y + c))))) as E. destruct (add_limbs a b _). cbn in *. lia.
Qed.

Lemma length_sub_limbs a : forall b c, length (sub_limbs a b c).1 = Nat.min (length a) (length b).
Proof.
  induction a as [|x a IH]; intros [|y b] c; cbn [sub_limbs]; try done.
  pose proof (IH b (Z.land (hi_limb (llimb (x - llimb (y + c)))) 1)) as E. destruct (sub_limbs a b _). cbn in *. lia.
Qed.

Lemma length_store_be_bytes inp : forall ret limb, length (store_be_bytes ret inp limb) = length ret.
Proof. induction inp as [|b inp IH]; intros ret limb; cbn; [done|]. by rewrite IH, length_insert. Qed.

Lemma length_umul_n a : forall b h, length (umul_n a b h).1 = length a.
Proof.
  induction a as [|x a IH]; intros b h; cbn [umul_n]; [done|].
  pose proof (IH b (hi_limb (llimb (b * x + h)))) as E. destruct (umul_n a b _). cbn in *. lia.
Qed.

Lemma length_mul_add_limbs mx a : forall t h, length (mul_add_limbs mx a t h).1 = Nat.min (length a) (length t).
Proof.
  induction a as [|x a IH]; intros [|y t] h; cbn [mul_add_limbs]; try done.
  pose proof (IH t (hi_limb (llimb (llimb (mx * x + h) + y)))) as E. destruct (mul_add_limbs mx a t _). cbn in *. lia.
Qed.

Lemma length_final_sub t c p : length (final_sub t c p) = Nat.min (length t) (length p).
Proof.
  unfold final_sub, select_limbs. pose proof (length_sub_limbs t p 0) as E. destruct (sub_limbs t p 0).
  cbn in E. rewrite length_zip_with. lia.
Qed.

Lemma length_add_mod_n a b p : length (add_mod_n a b p) = Nat.min (Nat.min (length a) (length b)) (length p).
Proof.
  unfold add_mod_n. pose proof (length_add_limbs a b 0) as E. destruct (add_limbs a b 0). cbn in E.
  by rewrite length_final_sub, E.
Qed.

Lemma length_sub_mod_n a b p : length (sub_mod_n a b p) = Nat.min (Nat.min (length a) (length b)) (length p).
Proof.
  unfold sub_mod_n. pose proof (length_sub_limbs a b 0) as E. destruct (sub_limbs a b 0). cbn in E.
  by rewrite length_add_limbs, length_map, E.
Qed.

Lemma length_redc_loop p n0 k : forall a, length a = length p -> length (redc_loop k a p n0) = length p.
Proof.
  induction k as [|k IH]; intros a Ha; cbn [redc_loop]; [done|].
  destruct p as [|p0 p']; [done|]. destruct a as [|a0 a']; [done|].
  pose proof (length_mul_add_limbs (limb (n0 * a0)) p' a' (hi_limb (llimb (limb (n0 * a0) * p0 + a0)))) as E.
  destruct (mul_add_limbs _ p' a' _) as [r h]. apply IH. cbn in *. rewrite length_app. cbn. lia.
Qed.

Lemma length_from_mont_n a p n0 : length a = length p -> length (from_mont_n a p n0) = length p.
Proof.
  intros Ha. unfold from_mont_n, select_limbs. pose proof (length_redc_loop p n0 (length p) a Ha) as E.
  pose proof (length_sub_limbs (redc_loop (length p) a p n0) p 0) as E'. destruct (sub_limbs _ p 0).
  cbn in E'. rewrite length_zip_with. lia.
Qed.

Lemma length_redc_mont_n a p n0 : length a = (length p + length p)%nat -> length (redc_mont_n a p n0) = length p.
Proof.
  intros Ha. unfold redc_mont_n.
  pose proof (length_redc_loop p n0 (length p) (take (length p) a) ltac:(rewrite length_take; lia)) as E.
  pose proof (length_add_limbs (drop (length p) a) (redc_loop (length p) (take (length p) a) p n0) 0) as E'.
  destruct (add_limbs _ _ 0). cbn in E'. rewrite length_final_sub, E', E, length_drop. lia.
Qed.

Lemma length_mont_loop a p n0 : length a = length p -> forall bs tmp top carry mx, length tmp = length p ->
  length (mont_loop bs a p n0 tmp top carry mx).1 = length p.
Proof.
  intros Ha. assert (forall tmp top carry mx, length tmp = length p -> length (mont_reduce tmp top carry mx p).1 = length p) as R.
  { clear. intros tmp top carry mx Ht. unfold mont_reduce. destruct p as [|p0 p']; [done|]. destruct tmp as [|t0 tmp']; [done|].
    pose proof (length_mul_add_limbs mx p' tmp' (hi_limb (llimb (mx * p0 + t0)))) as E.
    destruct (mul_add_limbs _ p' tmp' _). cbn in *. rewrite length_app. cbn. lia. }
  induction bs as [|bj bs IH]; intros tmp top carry mx Ht; cbn [mont_loop];
    pose proof (R tmp top carry mx Ht) as E; destruct (mont_reduce _ _ _ _ _) as [t c]; [done|].
  cbn in E. pose proof (length_mul_add_limbs bj a t 0) as E'. destruct (mul_add_limbs bj a t 0) as [t' h].
  cbn in E'. apply IH. lia.
Qed.

Lemma length_mul_mont_n a b p n0 : b <> [] -> length a = length p -> length (mul_mont_n a b p n0) = length p.
Proof.
  intros Hb Ha. unfold mul_mont_n. destruct b as [|b0 bs]; [done|]. pose proof (length_umul_n a b0 0) as E.
  destruct (umul_n a b0 0) as [t h]. cbn in E.
  pose proof (length_mont_loop a p n0 Ha bs t h 0 (limb (n0 * hd 0 t)) ltac:(lia)) as E'.
  destruct (mont_loop _ _ _ _ _ _ _ _). cbn in E'. rewrite length_final_sub. lia.
Qed.

(** Any limbs make bytes. *)
Lemma bytes_of_limb_ok n : forall x, Forall byte_ok (bytes_of_limb x n) /\ length (bytes_of_limb x n) = n.
Proof.
  induction n as [|n IH]; intros x; cbn [bytes_of_limb]; [done|]. destruct (IH (Z.shiftr x 8)) as [I1 I2].
  split; [constructor; [apply Z.mod_pos_bound; lia|done]|]. cbn. lia.
Qed.

Lemma le_bytes_from_limbs_ok l n : limb_bytes <> 0%nat -> length l = n ->
  Forall byte_ok (le_bytes_from_limbs l (n * limb_bytes)) /\ length (le_bytes_from_limbs l (n * limb_bytes)) = (n * limb_bytes)%nat.
Proof.
  intros Hz Hl. unfold le_bytes_from_limbs. rewrite Nat.div_mul, Nat.Div0.mod_mul by done. cbn [Nat.eqb]. rewrite app_nil_r.
  rewrite take_ge by lia. revert n Hl. induction l as [|x l IH]; intros n <-; cbn [map concat]; [done|].
  destruct (IH (length l) eq_refl) as [I1 I2], (bytes_of_limb_ok limb_bytes x) as [B1 B2].
  split; [by apply Forall_app|]. rewrite length_app, I2, B2. cbn. lia.
Qed.

(** ** Values *)

Context (Hw : w = 32 \/ w = 64).

Definition limb_ok (x : Z) : Prop := 0 <= x < 2 ^ w.
Definition limbs_ok (l : list Z) : Prop := Forall limb_ok l.

(** [R^n], the bound of a vector of [n] limbs *)
Definition pw (n : nat) : Z := 2 ^ (w * Z.of_nat n).

Lemma base_facts : 4294967296 <= 2 ^ w /\ 2 ^ (2 * w) = 2 ^ w * 2 ^ w.
Proof. destruct Hw as [-> | ->]; split; vm_compute; congruence. Qed.

Lemma pw_0 : pw 0 = 1.
Proof. unfold pw. by rewrite Z.mul_0_r. Qed.

Lemma pw_S n : pw (S n) = 2 ^ w * pw n.
Proof. unfold pw. rewrite Nat2Z.inj_succ, <- Z.pow_add_r by lia. f_equal. lia. Qed.

Lemma pw_add n m : pw (n + m) = pw n * pw m.
Proof. unfold pw. rewrite Nat2Z.inj_add, <- Z.pow_add_r by lia. f_equal. lia. Qed.

Lemma pw_pos n : 0 < pw n.
Proof. unfold pw. apply Z.pow_pos_nonneg; lia. Qed.

Lemma limb_range x : limb_ok (limb x).
Proof. unfold limb_ok, limb. apply Z.mod_pos_bound. pose proof base_facts. lia. Qed.

Lemma hi_limb_range x : limb_ok (hi_limb x).
Proof. apply limb_range. Qed.

Lemma limb_id x : limb_ok x -> limb x = x.
Proof. intros. unfold limb. by apply Z.mod_small. Qed.

Lemma llimb_id x : 0 <= x < 2 ^ w * 2 ^ w -> llimb x = x.
Proof. intros. unfold llimb. apply Z.mod_small. pose proof base_facts. lia. Qed.

Lemma split_limb x : 0 <= x < 2 ^ w * 2 ^ w -> x = limb x + 2 ^ w * hi_limb x.
Proof.
  intros Hx. unfold hi_limb. rewrite Z.shiftr_div_pow2 by lia. pose proof base_facts as [HB HBB].
  rewrite (limb_id (x / 2 ^ w)).
  - unfold limb. pose proof (Z.div_mod x (2 ^ w) ltac:(lia)). lia.
  - split; [apply Z.div_pos; lia|apply Z.div_lt_upper_bound; lia].
Qed.

Lemma val_range l : limbs_ok l -> 0 <= val l < pw (length l).
Proof.
  induction 1 as [|x l Hx Hl IH]; [cbn; rewrite pw_0; lia|]. cbn [val length].
  rewrite pw_S. unfold limb_ok in Hx. nia.
Qed.

Lemma val_app l l' : val (l ++ l') = val l + pw (length l) * val l'.
Proof.
  induction l as [|x l IH]; cbn [app val length]; [rewrite pw_0; lia|]. rewrite IH, pw_S. lia.
Qed.

Lemma val_zeros n : val (zeros n) = 0.
Proof. induction n as [|n IH]; [done|]. cbn. unfold zeros in IH. rewrite IH. lia. Qed.

(** A step of a loop: the two halves of a double limb. *)
Ltac split_step x :=
  let H := fresh "H" in
  pose proof (split_limb x) as H;
  pose proof (limb_range x); pose proof (hi_limb_range x).

Lemma add_limbs_spec a : forall b c r c',
  limbs_ok a -> limbs_ok b -> length a = length b -> 0 <= c <= 1 ->
  add_limbs a b c = (r, c') ->
  val a + val b + c = val r + pw (length a) * c' /\ limbs_ok r /\ length r = length a /\ 0 <= c' <= 1.
Proof.
  pose proof base_facts as [HB HBB].
  induction a as [|x a IH]; intros [|y b] c r c' Ha Hb Hlen Hc; try done; cbn [add_limbs].
  { intros [= <- <-]. cbn. rewrite pw_0. split; [lia|done]. }
  inversion_clear Ha as [|? ? Hx Ha']. inversion_clear Hb as [|? ? Hy Hb'].
  unfold limb_ok in *. rewrite (llimb_id (y + c)), (llimb_id (x + (y + c))) by nia. set (s := x + (y + c)).
  split_step s. unfold limb_ok in *. destruct (add_limbs a b (hi_limb s)) as [r1 c1] eqn:E.
  intros [= <- <-].
  destruct (IH b (hi_limb s) r1 c1) as (V & O & L & C); try done; [by injection Hlen|nia|].
  cbn [val length]. rewrite pw_S. split; [|split; [by constructor|by rewrite L]]. subst s. nia.
Qed.

Lemma borrow_bit x y : limb_ok x -> 0 <= y <= 2 ^ w ->
  x - y = limb (llimb (x - y)) - 2 ^ w * Z.land (hi_limb (llimb (x - y))) 1 /\
  0 <= Z.land (hi_limb (llimb (x - y))) 1 <= 1.
Proof.
  pose proof base_facts as [HB HBB]. unfold limb_ok. intros Hx Hy.
  assert (forall z, Z.land z 1 = z mod 2) as L1 by (intros; apply (Z.land_ones _ 1); lia). rewrite L1.
  split; [|pose proof (Z.mod_pos_bound (hi_limb (llimb (x - y))) 2 ltac:(lia)); lia].
  assert (exists b, (b = 0 \/ b = 1) /\ 0 <= x - y + b * 2 ^ w < 2 ^ w) as (b & Hb & Hr).
  { destruct (Z.lt_ge_cases x y); [exists 1|exists 0]; lia. }
  assert (llimb (x - y) = x - y + b * (2 ^ w * 2 ^ w)) as E.
  { unfold llimb. rewrite HBB. symmetry. apply (Z.mod_unique _ _ (-b)); [left; nia|lia]. }
  assert (x - y + b * (2 ^ w * 2 ^ w) = (x - y + b * 2 ^ w) + 2 ^ w * (b * (2 ^ w - 1))) as E2 by nia.
  rewrite E. unfold hi_limb, limb. rewrite Z.shiftr_div_pow2, E2 by lia.
  rewrite (Z.add_comm (x - y + b * 2 ^ w)), (Z.mul_comm (2 ^ w) (b * _)).
  rewrite Z.div_add_l, Z.div_small, Z.add_0_r by lia.
  rewrite Z.add_comm, Z.mod_add, Z.mod_small by lia.
  rewrite (Z.mod_small (b * _)) by nia.
  assert (exists k, 2 ^ w = 2 * k) as [k Hk] by (exists (2 ^ (w - 1)); rewrite <- Z.pow_succ_r; [f_equal|]; lia).
  assert ((b * (2 ^ w - 1)) mod 2 = b) as ->; [|lia].
  symmetry. apply (Z.mod_unique _ _ (b * (k - 1))); [left; lia|]. rewrite Hk. lia.
Qed.

Lemma sub_limbs_spec a : forall b c r c',
  limbs_ok a -> limbs_ok b -> length a = length b -> 0 <= c <= 1 ->
  sub_limbs a b c = (r, c') ->
  val a - val b - c = val r - pw (length a) * c' /\ limbs_ok r /\ length r = length a /\ 0 <= c' <= 1.
Proof.
  pose proof base_facts as [HB HBB].
  induction a as [|x a IH]; intros [|y b] c r c' Ha Hb Hlen Hc; try done; cbn [sub_limbs].
  { intros [= <- <-]. cbn. rewrite pw_0. split; [lia|done]. }
  inversion_clear Ha as [|? ? Hx Ha']. inversion_clear Hb as [|? ? Hy Hb'].
  unfold limb_ok in Hy. rewrite (llimb_id (y + c)) by nia.
  destruct (borrow_bit x (y + c) Hx ltac:(lia)) as [Hv Hb1].
  set (s := llimb (x - (y + c))) in *.
  destruct (sub_limbs a b (Z.land (hi_limb s) 1)) as [r1 c1] eqn:E. intros [= <- <-].
  destruct (IH b _ r1 c1 Ha' Hb' ltac:(by injection Hlen) Hb1 E) as (V & O & L & C).
  cbn [val length]. rewrite pw_S.
  split; [nia|split; [constructor; [apply limb_range|done]|by rewrite L]].
Qed.

Lemma double_limbs_spec a : forall c r c',
  limbs_ok a -> 0 <= c <= 1 -> double_limbs a c = (r, c') ->
  2 * val a + c = val r + pw (length a) * c' /\ limbs_ok r /\ length r = length a /\ 0 <= c' <= 1.
Proof.
  pose proof base_facts as [HB HBB].
  assert (2 ^ w = 2 * 2 ^ (w - 1)) as Hh by (rewrite <- Z.pow_succ_r; [f_equal|]; lia).
  induction a as [|x a IH]; intros c r c' Ha Hc; cbn [double_limbs].
  { intros [= <- <-]. cbn. rewrite pw_0. split; [lia|done]. }
  inversion_clear Ha as [|? ? Hx Ha']. unfold limb_ok in Hx.
  rewrite Z.shiftr_div_pow2 by lia. set (top := x / 2 ^ (w - 1)).
  assert (0 <= top <= 1) as Ht.
  { subst top. split; [apply Z.div_pos; lia|]. apply Z.lt_succ_r, Z.div_lt_upper_bound; lia. }
  destruct (double_limbs a top) as [r1 c1] eqn:E. intros [= <- <-].
  destruct (IH _ r1 c1 Ha' Ht E) as (V & O & L & C).
  assert (Z.lor (limb (Z.shiftl x 1)) c = 2 * x + c - 2 ^ w * top) as ->.
  { rewrite Z.shiftl_mul_pow2 by lia. unfold limb.
    assert ((x * 2 ^ 1) mod 2 ^ w = 2 * (x mod 2 ^ (w - 1))) as ->.
    { rewrite Hh, (Z.mul_comm x), Z.mul_mod_distr_l by lia. done. }
    pose proof (Z.div_mod x (2 ^ (w - 1)) ltac:(lia)) as D.
    pose proof (Z.mod_pos_bound x (2 ^ (w - 1)) ltac:(lia)).
    rewrite Z.lor_comm, (Z.mul_comm 2), <- (Z.shiftl_mul_pow2 _ 1), lor_fields by lia.
    subst top. rewrite Hh. change (2 ^ 1) with 2. lia. }
  assert (x = 2 ^ (w - 1) * top + x mod 2 ^ (w - 1)) as D by (apply Z.div_mod; lia).
  pose proof (Z.mod_pos_bound x (2 ^ (w - 1)) ltac:(lia)).
  cbn [val length]. rewrite pw_S.
  split; [nia|split; [constructor; [unfold limb_ok; nia|done]|by rewrite L]].
Qed.

Lemma mul_add_limbs_spec mx a : forall t h r h',
  limb_ok mx -> limbs_ok a -> limbs_ok t -> length a = length t -> limb_ok h ->
  mul_add_limbs mx a t h = (r, h') ->
  mx * val a + h + val t = val r + pw (length a) * h' /\ limbs_ok r /\ length r = length a /\ limb_ok h'.
Proof.
  pose proof base_facts as [HB HBB]. unfold limb_ok. intros t h r h' Hm. revert t h r h'.
  induction a as [|x a IH]; intros [|y t] h r h' Ha Ht Hlen Hh; try done; cbn [mul_add_limbs].
  { intros [= <- <-]. cbn. rewrite pw_0. split; [lia|done]. }
  inversion_clear Ha as [|? ? Hx Ha']. inversion_clear Ht as [|? ? Hy Ht'].
  unfold limb_ok in *. rewrite (llimb_id (mx * x + h)), (llimb_id (mx * x + h + y)) by nia. set (s := mx * x + h + y).
  split_step s. unfold limb_ok in *. destruct (mul_add_limbs mx a t (hi_limb s)) as [r1 h1] eqn:E.
  intros [= <- <-].
  destruct (IH t (hi_limb s) r1 h1) as (V & O & L & C); try done; [by injection Hlen|].
  cbn [val length]. rewrite pw_S. split; [|split; [by constructor|by rewrite L]]. subst s. nia.
Qed.

Lemma umul_n_mul_add a : forall b h, limbs_ok a -> limb_ok b -> limb_ok h ->
  umul_n a b h = mul_add_limbs b a (zeros (length a)) h.
Proof.
  pose proof base_facts as [HB HBB]. unfold limb_ok.
  induction a as [|x a IH]; intros b h Ha Hb Hh; [done|]. cbn [umul_n mul_add_limbs zeros length replicate].
  inversion_clear Ha as [|? ? Hx Ha']. unfold limb_ok in Hx.
  rewrite !Z.add_0_r, !(llimb_id (b * x + h)) by nia.
  rewrite IH; [done|done|done|apply hi_limb_range].
Qed.

Lemma zeros_ok n : limbs_ok (zeros n).
Proof. apply Forall_replicate. unfold limb_ok. pose proof base_facts. lia. Qed.

(** ** Masks select *)

Lemma limb_m1 : limb (-1) = Z.ones w.
Proof.
  unfold limb. rewrite Z.ones_equiv. pose proof base_facts.
  symmetry. apply (Z.mod_unique _ _ (-1)); lia.
Qed.

Lemma land_ones_limb x : limb_ok x -> Z.land x (Z.ones w) = x.
Proof. intros H. rewrite Z.land_ones by lia. by apply limb_id. Qed.

Lemma select_0 ret tmp : limbs_ok ret -> length ret = length tmp -> select_limbs ret tmp 0 = ret.
Proof.
  intros Hr Hl. unfold select_limbs. change (Z.lnot 0) with (-1). rewrite limb_m1.
  revert tmp Hl. induction Hr as [|x ret Hx Hr IH]; intros [|y tmp] Hl; try done. cbn.
  rewrite land_ones_limb, Z.land_0_r, Z.lor_0_r by done. f_equal. apply IH. by injection Hl.
Qed.

Lemma select_1 ret tmp : limbs_ok tmp -> length ret = length tmp -> select_limbs ret tmp (limb (-1)) = tmp.
Proof.
  intros Hr Hl. unfold select_limbs. rewrite limb_m1.
  assert (limb (Z.lnot (Z.ones w)) = 0) as ->.
  { unfold limb, Z.lnot. rewrite Z.ones_equiv. replace (Z.pred (- Z.pred (2 ^ w))) with ((-1) * 2 ^ w) by lia.
    apply Z.mod_mul. pose proof base_facts. lia. }
  revert ret Hl. induction Hr as [|y tmp Hy Ht IH]; intros [|x ret] Hl; try done. cbn.
  rewrite Z.land_0_r, land_ones_limb by done. f_equal. apply IH. by injection Hl.
Qed.

Lemma map_mask p (b : Z) : limbs_ok p -> b = 0 \/ b = 1 ->
  limbs_ok (map (fun pi => Z.land pi (limb (0 - b))) p) /\
  val (map (fun pi => Z.land pi (limb (0 - b))) p) = b * val p.
Proof.
  intros Hp [-> | ->].
  - change (limb (0 - 0)) with 0. induction Hp as [|x p Hx Hp [IH1 IH2]]; [by split; [constructor|]|]. cbn -[Z.mul].
    rewrite Z.land_0_r, IH2. split; [|lia]. constructor; [|done]. unfold limb_ok in *. lia.
  - change (0 - 1) with (-1). rewrite limb_m1. induction Hp as [|x p Hx Hp [IH1 IH2]]; [by split; [constructor|]|]. cbn -[Z.mul].
    rewrite land_ones_limb, IH2 by done. split; [by constructor|lia].
Qed.

Lemma final_sub_spec tmp c p :
  limbs_ok tmp -> limbs_ok p -> length tmp = length p -> 0 <= c <= 1 ->
  val tmp + pw (length p) * c < pw (length p) + val p ->
  let T := val tmp + pw (length p) * c in
  val (final_sub tmp c p) = (if T <? val p then T else T - val p) /\
  limbs_ok (final_sub tmp c p) /\ length (final_sub tmp c p) = length p.
Proof.
  intros Ht Hp Hl Hc HT T. unfold final_sub.
  destruct (sub_limbs tmp p 0) as [ret b] eqn:E.
  apply sub_limbs_spec in E as (V & O & L & C); [|done..|lia].
  pose proof (val_range tmp Ht). pose proof (val_range ret O). rewrite L, Hl in *.
  assert ((c = 0 /\ b = 0) \/ (c = 0 /\ b = 1) \/ (c = 1 /\ b = 1) \/ (c = 1 /\ b = 0))
    as [[-> ->]|[[-> ->]|[[-> ->]|[-> ->]]]] by lia.
  - change (limb (0 - 0)) with 0. rewrite select_0 by (done || lia).
    case_if; subst T; (split; [lia|split; [done|lia]]).
  - change (0 - 1) with (-1). rewrite select_1 by (done || lia).
    case_if; subst T; (split; [lia|split; [done|lia]]).
  - change (limb (1 - 1)) with 0. rewrite select_0 by (done || lia).
    case_if; subst T; (split; [lia|split; [done|lia]]).
  - lia.
Qed.

(** The result of an operation: reduced, with the value [z] modulo [p]. *)
Definition vec_is (n : nat) (l : list Z) (z : Z) : Prop := limbs_ok l /\ length l = n /\ val l = z.

Lemma add_mod_n_spec a b p :
  limbs_ok a -> limbs_ok b -> limbs_ok p -> length a = length p -> length b = length p ->
  val a + val b < pw (length p) + val p ->
  vec_is (length p) (add_mod_n a b p) (if val a + val b <? val p then val a + val b else val a + val b - val p).
Proof.
  intros Ha Hb Hp La Lb HT. unfold add_mod_n.
  destruct (add_limbs a b 0) as [t c] eqn:E. apply add_limbs_spec in E as (V & O & L & C); [|done|done|congruence|lia].
  rewrite La in *. destruct (final_sub_spec t c p) as (V' & O' & L'); [done|done|congruence|lia|lia|].
  split; [done|split; [done|]]. rewrite V'. by replace (val t + pw (length p) * c) with (val a + val b) by lia.
Qed.

Lemma sub_mod_n_spec a b p :
  limbs_ok a -> limbs_ok b -> limbs_ok p -> length a = length p -> length b = length p ->
  val b <= val a + val p ->
  vec_is (length p) (sub_mod_n a b p) (if val a <? val b then val a - val b + val p else val a - val b).
Proof.
  intros Ha Hb Hp La Lb HT. unfold sub_mod_n.
  destruct (sub_limbs a b 0) as [t c] eqn:E. apply sub_limbs_spec in E as (V & O & L & C); [|done|done|congruence|lia].
  destruct (map_mask p c Hp ltac:(lia)) as [O1 V1].
  destruct (add_limbs t _ 0) as [r k] eqn:E. cbn.
  apply add_limbs_spec in E as (V2 & O2 & L2 & C2); [|done|done|rewrite length_map; congruence|lia].
  rewrite V1 in V2. split; [done|split; [congruence|]].
  pose proof (val_range t O). pose proof (val_range r O2). pose proof (val_range a Ha).
  pose proof (val_range b Hb). pose proof (val_range p Hp). rewrite ?L2, ?L, ?La, ?Lb in *.
  assert (c = 0 \/ c = 1) as [-> | ->] by lia; assert (k = 0 \/ k = 1) as [-> | ->] by lia;
    case_if; lia.
Qed.

Lemma double_mod a p : let '(t, c) := double_limbs a 0 in
  limbs_ok a -> limbs_ok p -> length a = length p -> 2 * val a < pw (length p) + val p ->
  vec_is (length p) (final_sub t c p) (if 2 * val a <? val p then 2 * val a else 2 * val a - val p).
Proof.
  destruct (double_limbs a 0) as [t c] eqn:E. intros Ha Hp La HT.
  apply double_limbs_spec in E as (V & O & L & C); [|done|lia]. rewrite La in *.
  destruct (final_sub_spec t c p) as (V' & O' & L'); [done|done|congruence|lia|lia|].
  split; [done|split; [done|]]. rewrite V'. by replace (val t + pw (length p) * c) with (2 * val a) by lia.
Qed.

(** A sum of two reduced numbers, reduced by one subtraction. *)
Lemma reduce_once x p : 0 < p -> 0 <= x < 2 * p -> (if x <? p then x else x - p) = x mod p.
Proof.
  intros Hp Hx. case_if; [by rewrite Z.mod_small by lia|].
  apply (Z.mod_unique _ _ 1); lia.
Qed.

(** ** Montgomery reduction *)

Section Mont.
Context (p : list Z) (n0 : Z).
Context (Hp : limbs_ok p) (Hn : p <> []) (Hn0 : (n0 * hd 0 p + 1) mod 2 ^ w = 0).

Lemma mont_lowest t0 : limb_ok t0 -> limb (limb (n0 * t0) * hd 0 p + t0) = 0.
Proof.
  intros _. unfold limb. rewrite Z.add_mod, Z.mul_mod_idemp_l, <- Z.add_mod by (pose proof base_facts; lia).
  replace (n0 * t0 * hd 0 p + t0) with (t0 * (n0 * hd 0 p + 1)) by ring.
  rewrite <- Z.mul_mod_idemp_r, Hn0, Z.mul_0_r by (pose proof base_facts; lia). apply Z.mod_0_l.
  pose proof base_facts. lia.
Qed.

Lemma mont_reduce_spec tmp top carry r c :
  limbs_ok tmp -> length tmp = length p -> limb_ok top -> 0 <= carry <= 1 ->
  mont_reduce tmp top carry (limb (n0 * hd 0 tmp)) p = (r, c) ->
  exists mx, limb_ok mx /\
    val tmp + pw (length p) * (top + carry) + mx * val p = 2 ^ w * (val r + pw (length p) * c) /\
    limbs_ok r /\ length r = length p /\ 0 <= c <= 1.
Proof.
  intros Ht Hl Htop Hc. pose proof base_facts as [HB HBB].
  assert (exists p0 p', p = p0 :: p') as (p0 & p' & Ep) by (destruct p; [done|eauto]).
  destruct tmp as [|t0 t]; [by rewrite Ep in Hl|]. inversion_clear Ht as [|? ? Ht0 Ht'].
  assert (limb_ok p0 /\ limbs_ok p') as [Hp0 Hpp] by (rewrite Ep in Hp; by inversion_clear Hp).
  pose proof (limb_range (n0 * t0)) as Hmx. pose proof (mont_lowest t0 Ht0) as Hlow.
  rewrite Ep in *. cbn [mont_reduce hd] in *. set (mx := limb (n0 * t0)) in *. unfold limb_ok in *.
  rewrite (llimb_id (mx * p0 + t0)) by nia.
  pose proof (split_limb (mx * p0 + t0) ltac:(nia)) as Hs. rewrite Hlow in Hs.
  pose proof (hi_limb_range (mx * p0 + t0)) as Hh. set (h0 := hi_limb (mx * p0 + t0)) in *.
  destruct (mul_add_limbs mx p' t h0) as [r1 h1] eqn:E.
  apply mul_add_limbs_spec in E as (V & O & L & C); [|done|done|done|by injection Hl|done].
  unfold limb_ok in *. rewrite (llimb_id (h1 + carry)), (llimb_id (top + (h1 + carry))) by nia.
  set (s := top + (h1 + carry)). split_step s. unfold limb_ok in *. intros [= <- <-].
  exists mx. split; [done|]. rewrite val_app, length_app, L. cbn [val length]. rewrite !pw_S.
  split; [subst s; nia|]. split; [apply Forall_app; split; [done|by apply Forall_singleton]|].
  split; [lia|subst s; nia].
Qed.

(** The carry out of [hi + carry] has twice the weight of the limb it is later added
    to, so the loop is right only where it never occurs. *)
Definition no_top_carry (a : list Z) (bj : Z) : Prop :=
  (bj + 1) * val a + val p <= 2 ^ w * pw (length p).

Lemma mont_loop_spec a bs : limbs_ok a -> length a = length p -> limbs_ok bs ->
  Forall (no_top_carry a) bs -> forall tmp top r c,
  limbs_ok tmp -> length tmp = length p -> limb_ok top ->
  val tmp + pw (length p) * top < 2 ^ w * val a + val p ->
  mont_loop bs a p n0 tmp top 0 (limb (n0 * hd 0 tmp)) = (r, c) ->
  exists M, 0 <= M < pw (S (length bs)) /\
    val tmp + pw (length p) * top + M * val p + 2 ^ w * (val a * val bs) =
    pw (S (length bs)) * (val r + pw (length p) * c) /\
    limbs_ok r /\ length r = length p /\ 0 <= c <= 1.
Proof.
  intros Ha La Hb. pose proof base_facts as [HB HBB]. pose proof (pw_pos (length p)) as Hpw.
  pose proof (val_range a Ha) as Ra. pose proof (val_range p Hp) as Rp.
  induction Hb as [|bj bs Hbj Hbs IH]; intros Hnc tmp top r c Ht Lt Htop HS; cbn [mont_loop];
    destruct (mont_reduce tmp top 0 _ p) as [t1 c1] eqn:E;
    apply mont_reduce_spec in E as (mx & Hmx & V & O & L & C); [|first [done|lia|congruence|idtac]..];
    unfold limb_ok in Hmx.
  - intros [= <- <-]. exists mx. cbn [val length]. rewrite pw_S, pw_0.
    split; [lia|]. split; [lia|done].
  - inversion_clear Hnc as [|? ? Hnj Hnc']. unfold no_top_carry in Hnj.
    destruct (mul_add_limbs bj a t1 0) as [t2 h2] eqn:E2.
    apply mul_add_limbs_spec in E2 as (V2 & O2 & L2 & C2); [|done|done|done|congruence|unfold limb_ok; lia].
    unfold limb_ok in C2, Hbj. rewrite (llimb_id (h2 + c1)) by nia.
    pose proof (val_range t2 O2) as R2. rewrite La in *.
    assert (mx * val p <= (2 ^ w - 1) * val p) by (apply Z.mul_le_mono_nonneg_r; lia).
    assert (val t1 + pw (length p) * c1 < val a + val p) as HT
      by (apply (Z.mul_lt_mono_pos_l (2 ^ w)); lia).
    assert (0 <= h2 + c1 < 2 ^ w) as Hs by (split; [lia|apply (Z.mul_lt_mono_pos_l (pw (length p))); lia]).
    assert ((bj + 1) * val a <= 2 ^ w * val a) by (apply Z.mul_le_mono_nonneg_r; lia).
    assert (hi_limb (h2 + c1) = 0) as ->.
    { unfold hi_limb. rewrite Z.shiftr_div_pow2, Z.div_small by lia. apply Z.mod_0_l. lia. }
    rewrite (limb_id (h2 + c1)) by done. intros Hr.
    apply IH in Hr as (M & HM & V3 & O3 & L3 & C3); [|done|done|congruence|done|lia].
    exists (mx + 2 ^ w * M). rewrite (pw_S (length (bj :: bs))). cbn [length val].
    assert (2 ^ w * M <= 2 ^ w * (pw (S (length bs)) - 1)) by (apply Z.mul_le_mono_nonneg_l; lia).
    assert (0 <= 2 ^ w * M) by (apply Z.mul_nonneg_nonneg; lia).
    split; [lia|]. split; [|done].
    assert (2 ^ w * (bj * val a + 0 + val t1) = 2 ^ w * (val t2 + pw (length p) * h2)) as E2 by (by rewrite V2).
    rewrite <- Z.mul_assoc, <- V3. lia.
Qed.

Lemma mont_product a b : limbs_ok a -> limbs_ok b -> length a = length p -> length b = length p ->
  0 < val p -> Forall (no_top_carry a) b ->
  exists tmp c M, mul_mont_n a b p n0 = final_sub tmp c p /\ 0 <= M < pw (length p) /\
    val a * val b + M * val p = pw (length p) * (val tmp + pw (length p) * c) /\
    limbs_ok tmp /\ length tmp = length p /\ 0 <= c <= 1.
Proof.
  intros Ha Hb La Lb Hpos Hnc. pose proof base_facts as [HB HBB].
  destruct b as [|b0 bs]; [by destruct p|]. inversion_clear Hb as [|? ? Hb0 Hbs]. cbn [mul_mont_n].
  inversion_clear Hnc as [|? ? Hn1 Hnc'].
  rewrite umul_n_mul_add by (done || unfold limb_ok; lia).
  destruct (mul_add_limbs b0 a (zeros (length a)) 0) as [t h] eqn:E.
  apply mul_add_limbs_spec in E as (V & O & L & C);
    [|done|done|apply zeros_ok|by unfold zeros; rewrite length_replicate|unfold limb_ok; lia].
  rewrite val_zeros in V. rewrite La in *. pose proof (val_range a Ha) as Ra. unfold limb_ok in Hb0.
  destruct (mont_loop bs a p n0 t h 0 _) as [tmp c] eqn:E.
  apply mont_loop_spec in E as (M & HM & V2 & O2 & L2 & C2); [|done..|congruence|done|nia].
  exists tmp, c, M. cbn [length] in Lb. rewrite Lb in *. split; [done|]. split; [done|].
  split; [|done]. rewrite <- V2. cbn [val]. nia.
Qed.

Lemma mul_mont_n_spec a b :
  limbs_ok a -> limbs_ok b -> length a = length p -> length b = length p ->
  0 < val p -> val a * val b < val p * pw (length p) -> Forall (no_top_carry a) b ->
  limbs_ok (mul_mont_n a b p n0) /\ length (mul_mont_n a b p n0) = length p /\
  0 <= val (mul_mont_n a b p n0) < val p /\
  (val (mul_mont_n a b p n0) * pw (length p)) mod val p = (val a * val b) mod val p.
Proof.
  intros Ha Hb La Lb Hpos Hab Hnc. destruct (mont_product a b Ha Hb La Lb Hpos Hnc) as (t & c & M & -> & HM & V & O & L & C).
  pose proof (val_range p Hp) as Rp. pose proof (pw_pos (length p)) as Hpw.
  pose proof (val_range a Ha). pose proof (val_range b Hb).
  set (T := val t + pw (length p) * c) in *. assert (0 <= T < 2 * val p) as HT by nia.
  destruct (final_sub_spec t c p) as (V' & O' & L'); [done|done|done|done|fold T; lia|]. fold T in V'.
  rewrite reduce_once in V' by lia. rewrite V'.
  split; [done|]. split; [done|]. split; [apply Z.mod_pos_bound; lia|].
  rewrite Z.mul_mod_idemp_l by lia. rewrite (Z.mul_comm T), <- V. by rewrite Z.mod_add by lia.
Qed.

Lemma redc_loop_spec k : forall a, limbs_ok a -> length a = length p ->
  exists M, 0 <= M < pw k /\ val a + M * val p = pw k * val (redc_loop k a p n0) /\
    limbs_ok (redc_loop k a p n0) /\ length (redc_loop k a p n0) = length p.
Proof.
  pose proof base_facts as [HB HBB].
  induction k as [|k IH]; intros a Ha La.
  { exists 0. cbn. rewrite pw_0. split; [lia|]. split; [lia|done]. }
  assert (exists p0 p', p = p0 :: p') as (p0 & p' & Ep) by (destruct p; [done|eauto]).
  destruct a as [|a0 a]; [by rewrite Ep in La|]. inversion_clear Ha as [|? ? Ha0 Ha'].
  assert (limb_ok p0 /\ limbs_ok p') as [Hp0 Hp'] by (rewrite Ep in Hp; by inversion_clear Hp).
  cbn [redc_loop]. rewrite Ep. rewrite <- Ep.
  pose proof (limb_range (n0 * a0)) as Hmx. pose proof (mont_lowest a0 Ha0) as Hlow.
  rewrite Ep in Hlow. cbn [hd] in Hlow. set (mx := limb (n0 * a0)) in *. unfold limb_ok in *.
  rewrite (llimb_id (mx * p0 + a0)) by nia.
  pose proof (split_limb (mx * p0 + a0) ltac:(nia)) as Hs. rewrite Hlow in Hs.
  pose proof (hi_limb_range (mx * p0 + a0)) as Hh. set (h0 := hi_limb (mx * p0 + a0)) in *.
  destruct (mul_add_limbs mx p' a h0) as [r1 h1] eqn:E.
  rewrite Ep in La. injection La as La.
  apply mul_add_limbs_spec in E as (V & O & L & C); [|done|done|done|congruence|done].
  destruct (IH (r1 ++ [h1])) as (M & HM & V2 & O2 & L2).
  { apply Forall_app. split; [done|]. by apply Forall_singleton. }
  { rewrite length_app, L, Ep. cbn. lia. }
  exists (mx + 2 ^ w * M). rewrite pw_S. split; [nia|]. split; [|done].
  rewrite val_app in V2. cbn [val] in V2. rewrite L in V2. cbn [val].
  rewrite Ep in *. cbn [val length] in *. nia.
Qed.

Lemma from_mont_n_spec a : limbs_ok a -> length a = length p -> 0 < val p ->
  limbs_ok (from_mont_n a p n0) /\ length (from_mont_n a p n0) = length p /\
  0 <= val (from_mont_n a p n0) < val p /\
  (val (from_mont_n a p n0) * pw (length p)) mod val p = val a mod val p.
Proof.
  intros Ha La HP. destruct (redc_loop_spec (length p) a Ha La) as (M & HM & V & O & L).
  change (from_mont_n a p n0) with (final_sub (redc_loop (length p) a p n0) 0 p).
  set (t := redc_loop (length p) a p n0) in *.
  pose proof (val_range p Hp) as Rp. pose proof (val_range a Ha). pose proof (val_range t O). rewrite La, L in *.
  pose proof (pw_pos (length p)).
  assert (val t <= val p) by nia.
  destruct (final_sub_spec t 0 p) as (V' & O' & L'); [done|done|done|lia|lia|].
  rewrite Z.mul_0_r, Z.add_0_r, reduce_once in V' by lia. rewrite V'.
  split; [done|]. split; [done|]. split; [apply Z.mod_pos_bound; lia|].
  rewrite Z.mul_mod_idemp_l, (Z.mul_comm (val t)), <- V by lia. by rewrite Z.mod_add by lia.
Qed.

Lemma redc_mont_n_spec a : limbs_ok a -> length a = (length p + length p)%nat -> 0 < val p ->
  limbs_ok (redc_mont_n a p n0) /\ length (redc_mont_n a p n0) = length p /\
  (val (redc_mont_n a p n0) * pw (length p)) mod val p = val a mod val p /\
  (val a < val p * pw (length p) -> 0 <= val (redc_mont_n a p n0) < val p).
Proof.
  intros Ha La HP. set (lo := take (length p) a). set (hi := drop (length p) a).
  assert (limbs_ok lo /\ limbs_ok hi) as [Hlo Hhi] by (split; [by apply Forall_take|by apply Forall_drop]).
  assert (length lo = length p) as Llo by (subst lo; rewrite length_take; lia).
  assert (length hi = length p) as Lhi by (subst hi; rewrite length_drop; lia).
  assert (val a = val lo + pw (length p) * val hi) as Va.
  { rewrite <- (take_drop (length p) a), val_app. fold lo hi. by rewrite Llo. }
  destruct (redc_loop_spec (length p) lo Hlo Llo) as (M & HM & V & O & L).
  unfold redc_mont_n. fold lo hi. set (t := redc_loop (length p) lo p n0) in *.
  destruct (add_limbs hi t 0) as [t2 c] eqn:E. apply add_limbs_spec in E as (V2 & O2 & L2 & C2); [|done|done|congruence|lia].
  pose proof (val_range p Hp) as Rp. pose proof (val_range lo Hlo). pose proof (val_range hi Hhi).
  pose proof (val_range t O). rewrite ?Llo, ?Lhi, ?L in *. pose proof (pw_pos (length p)).
  assert (val t <= val p) by nia.
  destruct (final_sub_spec t2 c p) as (V' & O' & L'); [done|done|congruence|lia|lia|].
  set (T := val t2 + pw (length p) * c) in *.
  split; [done|]. split; [done|]. rewrite V'. split.
  - assert (T * pw (length p) = val a + M * val p) as ET by (unfold T; nia).
    rewrite <- (Z.mod_add (val a) M), <- ET by lia. case_if; [done|].
    rewrite Z.mul_sub_distr_r, Zminus_mod, (Z.mul_comm (val p)), Z.mod_mul, Z.sub_0_r by lia.
    by rewrite Z.mod_mod by lia.
  - intros Hb. assert (T < 2 * val p) by (unfold T; nia). assert (0 <= T) by (unfold T; nia). case_if; lia.
Qed.
End Mont.

(** ** The zero test *)

Lemma limb_lnot l : limb_ok l -> limb (Z.lnot l) = 2 ^ w - 1 - l.
Proof.
  unfold limb_ok, limb, Z.lnot. intros H. symmetry. apply (Z.mod_unique _ _ (-1)); lia.
Qed.

Lemma is_zero_spec l : limb_ok l -> is_zero l = if l =? 0 then 1 else 0.
Proof.
  intros H. unfold is_zero. rewrite Z.shiftr_land, limb_lnot by done. unfold limb_ok in H.
  rewrite !Z.shiftr_div_pow2 by lia. pose proof base_facts as [HB HBB].
  assert (2 ^ w = 2 * 2 ^ (w - 1)) as Hh by (rewrite <- Z.pow_succ_r; [f_equal|]; lia).
  case_if.
  - subst l. assert (limb (0 - 1) = 2 ^ w - 1) as -> by (change (0 - 1) with (-1); rewrite limb_m1, Z.ones_equiv; lia).
    assert ((2 ^ w - 1 - 0) / 2 ^ (w - 1) = 1) as -> by (symmetry; apply (Z.div_unique _ _ _ (2 ^ (w - 1) - 1)); lia).
    assert ((2 ^ w - 1) / 2 ^ (w - 1) = 1) as -> by (symmetry; apply (Z.div_unique _ _ _ (2 ^ (w - 1) - 1)); lia).
    done.
  - rewrite limb_id by (unfold limb_ok; lia). destruct (Z.lt_ge_cases l (2 ^ (w - 1))).
    + rewrite (Z.div_small (l - 1)) by lia. apply Z.land_0_r.
    + by rewrite (Z.div_small (2 ^ w - 1 - l)) by lia.
Qed.

Lemma lor_limb x y : limb_ok x -> limb_ok y -> limb_ok (Z.lor x y).
Proof.
  intros Hx Hy. rewrite <- (land_ones_limb x), <- (land_ones_limb y), <- Z.land_lor_distr_l by done.
  rewrite Z.land_ones by lia. apply limb_range.
Qed.

Lemma foldl_lor a : limbs_ok a -> forall acc, limb_ok acc ->
  limb_ok (foldl Z.lor acc a) /\ (foldl Z.lor acc a = 0 <-> acc = 0 /\ val a = 0).
Proof.
  pose proof base_facts as [HB HBB].
  induction 1 as [|x a Hx Ha IH]; intros acc Hacc; cbn; [split; [done|tauto]|].
  destruct (IH (Z.lor acc x) (lor_limb _ _ Hacc Hx)) as [I1 I2]. split; [done|]. rewrite I2, Z.lor_eq_0_iff.
  pose proof (val_range a Ha). pose proof (pw_pos (length a)). unfold limb_ok in *. split; [intros [[-> ->] ->]; lia|].
  intros [-> HV]. assert (val a = 0) by nia. split; [split|]; nia.
Qed.

Lemma vec_is_zero_spec a : limbs_ok a -> vec_is_zero a = if val a =? 0 then 1 else 0.
Proof.
  intros Ha. unfold vec_is_zero. destruct (foldl_lor a Ha 0) as [H1 H2]; [unfold limb_ok; pose proof base_facts; lia|].
  rewrite is_zero_spec by done. destruct (Z.eqb_spec (foldl Z.lor 0 a) 0), (Z.eqb_spec (val a) 0); tauto.
Qed.

(** ** The remaining operations on reduced numbers *)

Section Reduced.
Context (p : list Z) (Hp : limbs_ok p) (Hpos : 0 < val p).

(** A fully reduced vector. *)
Definition reduced (a : list Z) : Prop := limbs_ok a /\ length a = length p /\ val a < val p.

Definition computes (ret : list Z) (z : Z) : Prop := reduced ret /\ val ret = z mod val p.

Lemma computes_intro ret z : vec_is (length p) ret (z mod val p) -> computes ret z.
Proof.
  intros (O & L & V). split; [|done]. split; [done|]. split; [done|]. rewrite V. apply Z.mod_pos_bound. lia.
Qed.

Lemma add_mod_computes a b : reduced a -> reduced b -> computes (add_mod_n a b p) (val a + val b).
Proof.
  intros (Oa & La & Va) (Ob & Lb & Vb). apply computes_intro.
  pose proof (val_range a Oa). pose proof (val_range b Ob). pose proof (val_range p Hp).
  rewrite <- reduce_once by lia. apply add_mod_n_spec; try done. lia.
Qed.

Lemma sub_mod_computes a b : reduced a -> reduced b -> computes (sub_mod_n a b p) (val a - val b).
Proof.
  intros (Oa & La & Va) (Ob & Lb & Vb). apply computes_intro.
  pose proof (val_range a Oa). pose proof (val_range b Ob).
  replace ((val a - val b) mod val p) with (if val a <? val b then val a - val b + val p else val a - val b).
  - apply sub_mod_n_spec; try done. lia.
  - case_if; [apply (Z.mod_unique _ _ (-1)); lia|symmetry; apply Z.mod_small; lia].
Qed.

Lemma double_computes a : reduced a ->
  let '(t, c) := double_limbs a 0 in computes (final_sub t c p) (2 * val a).
Proof.
  intros (Oa & La & Va). pose proof (double_mod a p) as H.
  destruct (double_limbs a 0) as [t c]. apply computes_intro.
  pose proof (val_range a Oa). pose proof (val_range p Hp).
  rewrite <- reduce_once by lia. apply H; try done. lia.
Qed.

Lemma mul_by_3_computes a : reduced a -> computes (mul_by_3_mod_n a p) (3 * val a).
Proof.
  intros Ha. unfold mul_by_3_mod_n. pose proof (double_computes a Ha) as H.
  destruct (double_limbs a 0) as [t c]. destruct H as [Hr Hv].
  change (computes (add_mod_n a (final_sub t c p) p) (3 * val a)).
  destruct (add_mod_computes a (final_sub t c p) Ha Hr) as [Hs Hw']. split; [done|]. rewrite Hw', Hv.
  rewrite Z.add_mod_idemp_r by lia. f_equal. lia.
Qed.

Lemma lshift_computes count : forall a, reduced a ->
  computes (lshift_mod_n a count p) (2 ^ Z.of_nat count * val a).
Proof.
  induction count as [|count IH]; intros a Ha; cbn [lshift_mod_n].
  { split; [done|]. destruct Ha as (Oa & _ & Va). pose proof (val_range a Oa). rewrite Z.mul_1_l. symmetry. apply Z.mod_small. lia. }
  pose proof (double_computes a Ha) as H. destruct (double_limbs a 0) as [t c]. destruct H as [Hr Hv].
  destruct (IH _ Hr) as [Hs Hw']. split; [done|]. rewrite Hw', Hv, Z.mul_mod_idemp_r by lia.
  rewrite Nat2Z.inj_succ, Z.pow_succ_r by lia. f_equal. lia.
Qed.

Lemma cneg_computes a (flag : bool) : reduced a ->
  computes (cneg_mod_n a (if flag then 1 else 0) p) (if flag then - val a else val a).
Proof.
  intros (Oa & La & Va). unfold cneg_mod_n.
  destruct (sub_limbs p a 0) as [t b] eqn:E. apply sub_limbs_spec in E as (V & O & L & C); [|done|done|congruence|lia].
  rewrite vec_is_zero_spec by done. pose proof (val_range a Oa). pose proof (val_range t O). rewrite L in *.
  apply computes_intro. destruct flag; cbn [Z.land].
  - case_if; cbn -[limb].
    + change (limb 0) with 0. rewrite select_0 by (done || congruence). split; [done|]. split; [done|].
      rewrite E. symmetry. apply Z.mod_0_l. lia.
    + rewrite select_1 by (done || congruence).
      split; [done|]. split; [done|]. apply (Z.mod_unique _ _ (-1));
        assert (b = 0 \/ b = 1) as [-> | ->] by lia; lia.
  - change (limb (0 - 0)) with 0. rewrite select_0 by (done || congruence). split; [done|]. split; [done|].
    symmetry. apply Z.mod_small. lia.
Qed.

Lemma shift_right_1_spec l : forall c, limbs_ok l -> l <> [] -> 0 <= c <= 1 ->
  limbs_ok (shift_right_1 l c) /\ length (shift_right_1 l c) = length l /\
  val (shift_right_1 l c) = (val l + pw (length l) * c) / 2.
Proof.
  pose proof base_facts as [HB HBB].
  assert (2 ^ w = 2 * 2 ^ (w - 1)) as Hh by (rewrite <- Z.pow_succ_r; [f_equal|]; lia).
  assert (forall x y, limb_ok x -> Z.lor (Z.shiftr x 1) (limb (Z.shiftl y (w - 1))) = x / 2 + 2 ^ (w - 1) * (y mod 2)) as Hlor.
  { intros x y Hx. unfold limb_ok in Hx. rewrite Z.shiftr_div_pow2, Z.shiftl_mul_pow2 by lia. unfold limb.
    rewrite Hh, (Z.mul_comm 2), (Z.mul_comm y), Z.mul_mod_distr_l by lia. change (2 ^ 1) with 2.
    rewrite (Z.mul_comm (2 ^ (w - 1)) (y mod 2)), <- (Z.shiftl_mul_pow2 (y mod 2) (w - 1)) by lia.
    rewrite lor_fields; [rewrite Z.shiftl_mul_pow2; lia|lia|]. split; [apply Z.div_pos; lia|apply Z.div_lt_upper_bound; lia]. }
  assert (forall x y, limb_ok x -> limb_ok (x / 2 + 2 ^ (w - 1) * (y mod 2))) as Hok.
  { intros x y Hx. unfold limb_ok in *. pose proof (Z.mod_pos_bound y 2 ltac:(lia)).
    pose proof (Z.div_pos x 2 ltac:(lia) ltac:(lia)). pose proof (Z.div_lt_upper_bound x 2 (2 ^ (w - 1))). nia. }
  induction l as [|x [|y l] IH]; intros c Hl Hne Hc; [done| |]; inversion_clear Hl as [|? ? Hx Hl'].
  - cbn [shift_right_1 length val]. rewrite Hlor by done. split; [by apply Forall_singleton, Hok|].
    split; [done|]. rewrite pw_S, pw_0, Hh. rewrite (Z.mod_small c) by lia.
    replace (x + 2 * 2 ^ (w - 1) * 0 + 2 * 2 ^ (w - 1) * 1 * c) with (x + (2 ^ (w - 1) * c) * 2) by lia.
    rewrite Z.div_add by lia. lia.
  - destruct (IH c Hl' ltac:(done) Hc) as (O & L & V). change (shift_right_1 (x :: y :: l) c) with
      (Z.lor (Z.shiftr x 1) (limb (Z.shiftl y (w - 1))) :: shift_right_1 (y :: l) c).
    rewrite Hlor by done. split; [constructor; [by apply Hok|done]|]. split; [cbn in *; lia|].
    cbn [val] in *. rewrite V. cbn [length]. rewrite (pw_S (S _)).
    set (n := pw (S (length l))). set (v := val l).
    assert (y mod 2 = (y + 2 ^ w * v + n * c) mod 2) as ->.
    { unfold n. rewrite pw_S, Hh.
      replace (y + 2 * 2 ^ (w - 1) * v + 2 * 2 ^ (w - 1) * pw (length l) * c)
        with (y + (2 ^ (w - 1) * v + 2 ^ (w - 1) * pw (length l) * c) * 2) by lia. by rewrite Z.mod_add by lia. }
    set (m := y + 2 ^ w * v + n * c). pose proof (Z.div_mod m 2 ltac:(lia)) as D.
    replace (x + 2 ^ w * (y + 2 ^ w * v) + 2 ^ w * n * c) with (x + 2 ^ w * m) by (subst m; lia).
    replace (x + 2 ^ w * m) with (x + (2 ^ (w - 1) * m) * 2) by (rewrite Hh; lia). rewrite Z.div_add by lia.
    rewrite Hh. replace (2 ^ (w - 1) * m) with (2 ^ (w - 1) * (2 * (m / 2) + m mod 2)) by (by rewrite <- D). lia.
Qed.

(** Halving: the result doubled is the argument. *)
Lemma rshift_computes (Hodd : Z.odd (val p) = true) (Hne : p <> []) count : forall a, reduced a ->
  reduced (rshift_mod_n a count p) /\
  (2 ^ Z.of_nat count * val (rshift_mod_n a count p)) mod val p = val a.
Proof.
  induction count as [|count IH]; intros a Ha; cbn [rshift_mod_n].
  { split; [done|]. destruct Ha as (Oa & _ & Va). pose proof (val_range a Oa). rewrite Z.mul_1_l. apply Z.mod_small. lia. }
  destruct Ha as (Oa & La & Va).
  assert (forall z, Z.land z 1 = z mod 2) as L1 by (intros; apply (Z.land_ones _ 1); lia). rewrite L1.
  set (b := hd 0 a mod 2). assert (b = 0 \/ b = 1) as Hb by (pose proof (Z.mod_pos_bound (hd 0 a) 2 ltac:(lia)); lia).
  destruct (map_mask p b Hp Hb) as [O1 V1]. destruct (add_limbs a _ 0) as [t c] eqn:E.
  apply add_limbs_spec in E as (V2 & O2 & L2 & C2); [|done|done|by rewrite length_map|lia].
  rewrite V1 in V2.
  destruct (shift_right_1_spec t c O2) as (O3 & L3 & V3); [destruct t, a, p; cbn in *; done|done|].
  rewrite L2, La in *.
  assert (b = val a mod 2) as Eb.
  { unfold b. destruct a as [|a0 a']; [done|]. cbn [hd val]. pose proof base_facts.
    assert (2 ^ w = 2 * 2 ^ (w - 1)) as -> by (rewrite <- Z.pow_succ_r; [f_equal|]; lia).
    replace (a0 + 2 * 2 ^ (w - 1) * val a') with (a0 + (2 ^ (w - 1) * val a') * 2) by lia. by rewrite Z.mod_add by lia. }
  pose proof (val_range a Oa) as Ra. pose proof (Z.div_mod (val a) 2 ltac:(lia)) as Da.
  assert (2 * val (shift_right_1 t c) = val a + b * val p) as Hhalf.
  { rewrite V3, <- V2, Z.add_0_r. apply Zodd_bool_iff, Zodd_ex in Hodd as [k Hk].
    pose proof (Z.div_mod (val a + b * val p) 2 ltac:(lia)) as D.
    assert ((val a + b * val p) mod 2 = 0); [|lia].
    destruct Hb as [Hb|Hb]; rewrite Hb in *; [rewrite Z.mul_0_l, Z.add_0_r; done|].
    symmetry. apply (Z.mod_unique _ _ (val a / 2 + k + 1)); lia. }
  assert (reduced (shift_right_1 t c)) as Hr by (split; [done|split; [done|destruct Hb; nia]]).
  destruct (IH _ Hr) as [Hs Hv]. split; [done|].
  rewrite Nat2Z.inj_succ, Z.pow_succ_r, <- Z.mul_assoc, <- Z.mul_mod_idemp_r, Hv, Hhalf, Z.mod_add by lia.
  apply Z.mod_small. lia.
Qed.

(** ** Montgomery multiplication of reduced numbers *)

Context (n0 : Z) (Hn0 : (n0 * hd 0 p + 1) mod 2 ^ w = 0).
Context (Htop : (2 ^ w + 1) * val p <= 2 ^ w * pw (length p)).

Lemma p_nonempty : p <> [].
Proof. by intros ->. Qed.

Definition montgomery (ret : list Z) (z : Z) : Prop :=
  reduced ret /\ (val ret * pw (length p)) mod val p = z mod val p.

Lemma mul_mont_computes a b : reduced a -> limbs_ok b -> length b = length p ->
  montgomery (mul_mont_n a b p n0) (val a * val b).
Proof.
  intros (Oa & La & Va) Ob Lb. pose proof (val_range a Oa) as Ra. pose proof (val_range b Ob) as Rb. rewrite Lb in Rb.
  destruct (mul_mont_n_spec p n0 Hp p_nonempty Hn0 a b Oa Ob La Lb Hpos) as (O & L & V & E); [nia| |].
  - eapply Forall_impl; [exact Ob|]. intros x Hx. unfold limb_ok in Hx. unfold no_top_carry. nia.
  - split; [|done]. split; [done|]. split; [done|lia].
Qed.

(** Montgomery products determine their value: the radix is invertible. *)
Lemma montgomery_unique (Hinv : exists ri, (pw (length p) * ri) mod val p = 1 mod val p) x y z :
  reduced x -> reduced y -> montgomery x z -> montgomery y z -> val x = val y.
Proof.
  intros (Ox & _ & Vx) (Oy & _ & Vy) [_ Ex] [_ Ey]. destruct Hinv as [ri Hri].
  pose proof (val_range x Ox). pose proof (val_range y Oy).
  assert (forall v, 0 <= v < val p -> v = (val x * pw (length p) mod val p * ri) mod val p ->
                    v = val x) as K.
  { intros v Hv ->. rewrite Z.mul_mod_idemp_l, <- Z.mul_assoc, <- Z.mul_mod_idemp_r, Hri, Z.mul_mod_idemp_r, Z.mul_1_r by lia.
    apply Z.mod_small. lia. }
  symmetry. apply K; [lia|]. rewrite Ex, <- Ey, Z.mul_mod_idemp_l, <- Z.mul_assoc, <- Z.mul_mod_idemp_r, Hri by lia.
  rewrite Z.mul_mod_idemp_r, Z.mul_1_r by lia. symmetry. apply Z.mod_small. lia.
Qed.
(** ** The quadratic extension *)

Definition reduced_x (a : list Z * list Z) : Prop := reduced a.1 /\ reduced a.2.

Lemma montgomery_sub x y zx zy : montgomery x zx -> montgomery y zy -> montgomery (sub_mod_n x y p) (zx - zy).
Proof.
  intros [Rx Ex] [Ry Ey]. destruct (sub_mod_computes x y Rx Ry) as [Rs Vs]. split; [done|].
  rewrite Vs, Z.mul_mod_idemp_l, Z.mul_sub_distr_r, Zminus_mod, Ex, Ey, <- Zminus_mod by lia. done.
Qed.

Lemma montgomery_eqm x z z' : z mod val p = z' mod val p -> montgomery x z -> montgomery x z'.
Proof. intros E [R M]. split; [done|]. by rewrite M. Qed.

(** Karatsuba's product of [a.1 + a.2 i] and [b.1 + b.2 i], with [i^2 = -1]. *)
Lemma mul_mont_384x_spec a b : reduced_x a -> reduced_x b ->
  montgomery (mul_mont_384x a b p n0).1 (val a.1 * val b.1 - val a.2 * val b.2) /\
  montgomery (mul_mont_384x a b p n0).2 (val a.1 * val b.2 + val a.2 * val b.1).
Proof.
  intros [Ha1 Ha2] [Hb1 Hb2]. unfold mul_mont_384x. cbn [fst snd].
  destruct (add_mod_computes _ _ Ha1 Ha2) as [Raa Vaa]. destruct (add_mod_computes _ _ Hb1 Hb2) as [Rbb Vbb].
  pose proof (mul_mont_computes _ (add_mod_n a.1 a.2 p) Rbb ltac:(apply Raa) ltac:(apply Raa)) as Mbb.
  pose proof (mul_mont_computes a.1 b.1 Ha1 ltac:(apply Hb1) ltac:(apply Hb1)) as Maa.
  pose proof (mul_mont_computes a.2 b.2 Ha2 ltac:(apply Hb2) ltac:(apply Hb2)) as Mcc.
  split; [by apply montgomery_sub|].
  eapply montgomery_eqm; [|apply montgomery_sub; [apply montgomery_sub; [exact Mbb|exact Maa]|exact Mcc]].
  rewrite Vaa, Vbb. set (x := val a.1 * val b.1). set (y := val a.2 * val b.2).
  rewrite <- (Z.sub_add_distr _ x y), <- Z.add_opp_r, <- Z.add_mod_idemp_l, <- Z.mul_mod, Z.add_mod_idemp_l by lia.
  f_equal. lia.
Qed.
End Reduced.

(** ** Bytes and limbs *)

Lemma limb_bytes_facts : w = 8 * Z.of_nat limb_bytes /\ limb_bytes <> 0%nat /\ 2 ^ w = 256 ^ Z.of_nat limb_bytes.
Proof. unfold limb_bytes. destruct Hw as [-> | ->]; split_and!; try done; vm_compute; lia. Qed.

Lemma pw_bytes n : pw n = 256 ^ Z.of_nat (n * limb_bytes).
Proof.
  destruct limb_bytes_facts as (E & _ & _). unfold pw. change 256 with (2 ^ 8).
  rewrite <- Z.pow_mul_r by lia. f_equal. lia.
Qed.

Fixpoint digits (n : nat) (z : Z) : list Z :=
  match n with
  | O => []
  | S n => limb z :: digits n (z / 2 ^ w)
  end.

Lemma length_digits n : forall z, length (digits n z) = n.
Proof. induction n as [|n IH]; intros z; cbn; [done|]. by rewrite IH. Qed.

Lemma digits_ok n : forall z, limbs_ok (digits n z).
Proof. induction n as [|n IH]; intros z; constructor; [apply limb_range|apply IH]. Qed.

Lemma val_digits n : forall z, val (digits n z) = z mod pw n.
Proof.
  pose proof base_facts as [HB HBB].
  induction n as [|n IH]; intros z; [rewrite pw_0, Z.mod_1_r; done|]. cbn [digits val].
  rewrite IH, pw_S. unfold limb. pose proof (pw_pos n). rewrite Z.rem_mul_r by lia. lia.
Qed.

Lemma digits_small n z : 0 <= z < pw n -> val (digits n z) = z.
Proof. intros H. rewrite val_digits. by apply Z.mod_small. Qed.

Lemma lookup_digits n : forall z q, (q < n)%nat -> digits n z !! q = Some (limb (z / pw q)).
Proof.
  pose proof base_facts as [HB HBB].
  induction n as [|n IH]; intros z [|q] Hq; try lia; cbn [digits]; [cbn; by rewrite pw_0, Z.div_1_r|].
  rewrite lookup_cons_ne_0 by done. cbn [Nat.pred]. rewrite IH by lia. pose proof (pw_pos q).
  by rewrite pw_S, Z.div_div by lia.
Qed.

Lemma digits_val l : limbs_ok l -> digits (length l) (val l) = l.
Proof.
  pose proof base_facts as [HB HBB].
  induction 1 as [|x l Hx Hl IH]; [done|]. cbn [val length digits]. unfold limb, limb_ok in *.
  rewrite (Z.mul_comm (2 ^ w)), Z.mod_add, Z.mod_small, Z.div_add, Z.div_small by lia. by rewrite Z.add_0_l, IH.
Qed.

Lemma limb_shift_byte X x : byte_ok x -> Z.lor (limb (Z.shiftl (limb X) 8)) x = limb (X * 256 + x).
Proof.
  intros Hx. unfold byte_ok in Hx. pose proof base_facts as [HB HBB].
  assert (2 ^ w = 256 * 2 ^ (w - 8)) as Hh by (change 256 with (2 ^ 8); rewrite <- Z.pow_add_r; [f_equal|..]; lia).
  assert (0 < 2 ^ (w - 8)) by (apply Z.pow_pos_nonneg; lia).
  assert (limb (X * 256 + x) = 256 * (X mod 2 ^ (w - 8)) + x) as ->.
  { unfold limb. rewrite Hh. pose proof (Z.div_mod X (2 ^ (w - 8)) ltac:(lia)).
    pose proof (Z.mod_pos_bound X (2 ^ (w - 8)) ltac:(lia)).
    symmetry. apply (Z.mod_unique _ _ (X / 2 ^ (w - 8))); [left; nia|]. nia. }
  assert (limb (Z.shiftl (limb X) 8) = Z.shiftl (X mod 2 ^ (w - 8)) 8) as ->.
  { rewrite !Z.shiftl_mul_pow2 by lia. unfold limb. rewrite Z.mul_mod_idemp_l by lia. change (2 ^ 8) with 256.
    rewrite Hh, (Z.mul_comm X), Z.mul_mod_distr_l by lia. lia. }
  rewrite Z.lor_comm, lor_fields by lia. change (2 ^ 8) with 256. lia.
Qed.

Lemma store_be_bytes_spec inp : Forall byte_ok inp -> forall ret X,
  length (store_be_bytes ret inp (limb X)) = length ret /\
  forall q, (q < length ret)%nat -> store_be_bytes ret inp (limb X) !! q =
    if (q * limb_bytes <? length inp)%nat
    then Some (limb ((X * 256 ^ Z.of_nat (length inp) + be_value inp) / pw q)) else ret !! q.
Proof.
  destruct limb_bytes_facts as (_ & Hsz & _).
  induction 1 as [|x inp Hx Hi IH]; intros ret X; cbn [store_be_bytes].
  { split; [done|]. intros q _. by destruct (Nat.ltb_spec (q * limb_bytes) (length (@nil Z))); cbn in *; [lia|]. }
  rewrite limb_shift_byte by done.
  destruct (IH (<[(length inp / limb_bytes)%nat := limb (X * 256 + x)]> ret) (X * 256 + x)) as [L V].
  rewrite length_insert in L, V. split; [done|]. intros q Hq. rewrite (V q Hq). cbn [length].
  replace ((X * 256 + x) * 256 ^ Z.of_nat (length inp) + be_value inp)
    with (X * 256 ^ Z.of_nat (S (length inp)) + be_value (x :: inp))
    by (rewrite be_value_cons, Nat2Z.inj_succ, Z.pow_succ_r by lia; lia).
  destruct (Nat.ltb_spec (q * limb_bytes) (length inp)), (Nat.ltb_spec (q * limb_bytes) (S (length inp))); try lia; [done| |].
  - assert (length inp = (q * limb_bytes)%nat) as El by lia.
    assert ((length inp / limb_bytes)%nat = q) as -> by (rewrite El; by apply Nat.div_mul).
    rewrite list_lookup_insert_eq by done. do 2 f_equal. rewrite pw_bytes, <- El.
    rewrite be_value_cons, Nat2Z.inj_succ, Z.pow_succ_r by lia. pose proof (be_value_range inp Hi).
    replace (X * (256 * 256 ^ Z.of_nat (length inp)) + (x * 256 ^ Z.of_nat (length inp) + be_value inp))
      with ((X * 256 + x) * 256 ^ Z.of_nat (length inp) + be_value inp) by lia.
    rewrite Z.div_add_l, Z.div_small by lia. lia.
  - rewrite list_lookup_insert_ne; [done|]. intros E. pose proof (Nat.Div0.mul_div_le (length inp) limb_bytes). nia.
Qed.

(** Over a vector that is zero above the bytes read. *)
Lemma limbs_from_be_bytes_over n ret inp : Forall byte_ok inp -> (length inp <= n * limb_bytes)%nat -> length ret = n ->
  (forall q, (q < n)%nat -> (length inp <= q * limb_bytes)%nat -> ret !! q = Some 0) ->
  limbs_from_be_bytes ret inp = digits n (be_value inp).
Proof.
  intros Hi Hl Lz Hz. unfold limbs_from_be_bytes. destruct limb_bytes_facts as (_ & Hsz & _).
  destruct (store_be_bytes_spec inp Hi ret 0) as [L V].
  rewrite (limb_id 0) in L, V by (unfold limb_ok; pose proof base_facts; lia). rewrite Lz in *.
  apply list_eq_same_length with n; [by rewrite length_digits|by rewrite L|].
  intros q x y Hq Hx Hy. rewrite (V q Hq) in Hx. rewrite lookup_digits in Hy by done. injection Hy as <-.
  destruct (Nat.ltb_spec (q * limb_bytes) (length inp)).
  - by injection Hx as <-.
  - rewrite Hz in Hx by done. injection Hx as <-. pose proof (be_value_range inp Hi) as R.
    rewrite Z.div_small; [symmetry; apply Z.mod_0_l; pose proof base_facts; lia|].
    rewrite pw_bytes. split; [lia|]. eapply Z.lt_le_trans; [apply R|]. apply Z.pow_le_mono_r; lia.
Qed.

Lemma limbs_from_be_bytes_digits n inp : Forall byte_ok inp -> (length inp <= n * limb_bytes)%nat ->
  limbs_from_be_bytes (zeros n) inp = digits n (be_value inp).
Proof.
  intros Hi Hl. apply limbs_from_be_bytes_over; [done|done|apply length_replicate|].
  intros q Hq _. by apply lookup_replicate_2.
Qed.

Lemma limbs_from_le_bytes_digits n inp : Forall byte_ok inp -> (length inp <= n * limb_bytes)%nat ->
  limbs_from_le_bytes (zeros n) inp = digits n (le_value inp).
Proof.
  intros Hi Hl. change (limbs_from_le_bytes (zeros n) inp) with (limbs_from_be_bytes (zeros n) (reverse inp)).
  rewrite limbs_from_be_bytes_digits by (by apply Forall_reverse || by rewrite length_reverse).
  unfold be_value. by rewrite reverse_involutive.
Qed.

Lemma bytes_of_limb_le x n : bytes_of_limb x n = le_bytes n x.
Proof.
  revert x. induction n as [|n IH]; intros x; cbn; [done|]. rewrite IH. unfold u8.
  by rewrite Z.shiftr_div_pow2 by lia.
Qed.

Lemma le_bytes_app n m : forall z, le_bytes (n + m) z = le_bytes n z ++ le_bytes m (z / 256 ^ Z.of_nat n).
Proof.
  induction n as [|n IH]; intros z; cbn [le_bytes app Nat.add]; [by rewrite Z.div_1_r|].
  rewrite IH, Nat2Z.inj_succ, Z.pow_succ_r, Z.div_div by lia. done.
Qed.

Lemma le_bytes_mod n : forall z, le_bytes n (z mod 256 ^ Z.of_nat n) = le_bytes n z.
Proof.
  intros z. rewrite <- (le_value_bytes n z). rewrite <- (length_le_bytes n z) at 1. apply le_bytes_value, le_bytes_ok.
Qed.

Lemma le_bytes_from_limbs_val l : limbs_ok l ->
  le_bytes_from_limbs l (length l * limb_bytes) = le_bytes (length l * limb_bytes) (val l).
Proof.
  destruct limb_bytes_facts as (_ & Hsz & HB). intros Hl. unfold le_bytes_from_limbs.
  rewrite Nat.Div0.mod_mul, Nat.div_mul by done. cbn [Nat.eqb]. rewrite app_nil_r, take_ge by lia.
  induction Hl as [|x l Hx Hl IH]; [done|]. cbn [map concat val length Nat.mul].
  rewrite bytes_of_limb_le, IH, le_bytes_app, HB. unfold limb_ok in Hx. rewrite HB in Hx.
  rewrite (Z.mul_comm (256 ^ _)), Z.div_add, Z.div_small, Z.add_0_l by lia. f_equal.
  rewrite <- (le_bytes_mod _ (x + _)), Z.mod_add, Z.mod_small by lia. done.
Qed.

Lemma lookup_le_bytes n : forall z k, (k < n)%nat -> le_bytes n z !! k = Some ((z / 256 ^ Z.of_nat k) mod 256).
Proof.
  induction n as [|n IH]; intros z [|k] Hk; try lia; cbn [le_bytes]; [cbn; by rewrite Z.div_1_r|].
  rewrite lookup_cons_ne_0 by done. cbn [Nat.pred]. rewrite IH by lia.
  by rewrite Nat2Z.inj_succ, Z.pow_succ_r, Z.div_div by lia.
Qed.

Lemma nth_limb l q : limbs_ok l -> nth q l 0 = limb (val l / pw q).
Proof.
  intros Hl. destruct (Nat.lt_ge_cases q (length l)) as [Hq|Hq].
  - pose proof (lookup_digits (length l) (val l) q Hq) as E. rewrite digits_val in E by done.
    by apply nth_lookup_Some with (d := 0) in E.
  - rewrite nth_overflow by done. pose proof (val_range l Hl). rewrite Z.div_small.
    + symmetry. apply limb_id. unfold limb_ok. pose proof base_facts. lia.
    + split; [lia|]. eapply Z.lt_le_trans; [apply H|]. unfold pw. apply Z.pow_le_mono_r; nia.
Qed.

Lemma be_bytes_from_limbs_val l n : limbs_ok l -> be_bytes_from_limbs l n = reverse (le_bytes n (val l)).
Proof.
  intros Hl. destruct limb_bytes_facts as (Ew & Hsz & HB). unfold be_bytes_from_limbs.
  rewrite fmap_reverse. f_equal.
  apply list_eq_same_length with n; [apply length_le_bytes|by rewrite length_fmap, length_seq|].
  intros k x y Hk Hx Hy. rewrite lookup_le_bytes in Hy by done. injection Hy as <-.
  rewrite list_lookup_fmap, lookup_seq_lt in Hx by done. injection Hx as <-. cbn [Nat.add].
  rewrite nth_limb by done. pose proof (Nat.div_mod k limb_bytes Hsz) as D.
  pose proof (Nat.mod_upper_bound k limb_bytes Hsz) as Dm.
  set (q := (k / limb_bytes)%nat) in *. set (r := (k mod limb_bytes)%nat) in *.
  unfold u8, limb. rewrite Z.shiftr_div_pow2, pw_bytes, HB by lia.
  replace (2 ^ (8 * Z.of_nat r)) with (256 ^ Z.of_nat r) by (change 256 with (2 ^ 8); rewrite <- Z.pow_mul_r by lia; f_equal; lia).
  replace (Z.of_nat k) with (Z.of_nat (q * limb_bytes) + Z.of_nat r) by lia.
  rewrite Z.pow_add_r, <- Z.div_div by lia. set (v := val l / 256 ^ Z.of_nat (q * limb_bytes)).
  replace (Z.of_nat limb_bytes) with (Z.of_nat r + Z.of_nat (limb_bytes - r)) by lia.
  rewrite Z.pow_add_r by lia. rewrite Z.rem_mul_r by lia.
  rewrite (Z.mul_comm (256 ^ Z.of_nat r)), Z.div_add, Z.div_small, Z.add_0_l by
    (try apply Z.mod_pos_bound; lia).
  replace (Z.of_nat (limb_bytes - r)) with (1 + Z.of_nat (limb_bytes - r - 1)) by lia.
  rewrite Z.pow_add_r, Z.pow_1_r by lia. rewrite Z.rem_mul_r by lia.
  by rewrite Z.mul_comm, Z.mod_add, Z.mod_mod by lia.
Qed.

(** ** The range check *)

Lemma limb_of_bytes_spec l : forall j, Forall byte_ok l -> 0 <= j -> j + 8 * Z.of_nat (length l) <= w ->
  limb_of_bytes l j = Z.shiftl (le_value l) j.
Proof.
  induction l as [|x l IH]; intros j Hl Hj Hle; cbn [limb_of_bytes le_value]; [by rewrite Z.shiftl_0_l|].
  inversion_clear Hl as [|? ? Hx Hl']. cbn [length] in Hle. rewrite IH by (done || lia).
  assert (limb (Z.shiftl x j) = Z.shiftl x j) as ->.
  { apply limb_id. unfold limb_ok, byte_ok in *. rewrite Z.shiftl_mul_pow2 by done. split; [nia|].
    eapply Z.lt_le_trans; [apply Z.mul_lt_mono_pos_r; [apply Z.pow_pos_nonneg; lia|apply Hx]|].
    change 256 with (2 ^ 8). rewrite <- Z.pow_add_r by lia. apply Z.pow_le_mono_r; lia. }
  rewrite (Z.add_comm j 8), <- Z.shiftl_shiftl, <- Z.shiftl_lor by lia. f_equal.
  rewrite lor_fields; [change (2 ^ 8) with 256; lia|lia|]. apply Hx.
Qed.

Lemma check_mod_loop_spec p : forall a acc borrow, Forall byte_ok a ->
  length a = (length p * limb_bytes)%nat ->
  check_mod_loop a p acc borrow =
  (foldl Z.lor acc (digits (length p) (le_value a)), (sub_limbs (digits (length p) (le_value a)) p borrow).2).
Proof.
  destruct limb_bytes_facts as (Hbits & Hnz & Hpow).
  induction p as [|pi p IH]; intros a acc borrow Ha La; cbn [check_mod_loop length digits foldl sub_limbs]; [done|].
  cbn [length] in La. pose proof (Forall_take byte_ok limb_bytes a Ha) as Ht. pose proof (Forall_drop byte_ok limb_bytes a Ha) as Hd.
  assert (length (take limb_bytes a) = limb_bytes) as Lt by (rewrite length_take; lia).
  rewrite limb_of_bytes_spec by (done || lia). rewrite Z.shiftl_0_r.
  assert (le_value a = le_value (take limb_bytes a) + le_value (drop limb_bytes a) * 2 ^ w) as Ea.
  { rewrite <- (take_drop limb_bytes a) at 1. rewrite le_value_app, Lt, Hpow. lia. }
  pose proof (le_value_range _ Ht) as Rt. rewrite Lt, <- Hpow in Rt.
  assert (limb (le_value a) = le_value (take limb_bytes a)) as ->.
  { unfold limb. rewrite Ea, Z.mod_add by lia. by apply Z.mod_small. }
  assert (le_value a / 2 ^ w = le_value (drop limb_bytes a)) as ->.
  { rewrite Ea, Z.div_add by lia. rewrite Z.div_small by done. lia. }
  rewrite IH by (done || (rewrite length_drop; lia)). by destruct (sub_limbs _ p _).
Qed.

(** Canonical and not zero. *)
Lemma check_mod_n_spec a p : Forall byte_ok a -> limbs_ok p -> length a = (length p * limb_bytes)%nat ->
  check_mod_n a p = if (0 <? le_value a) && (le_value a <? val p) then 1 else 0.
Proof.
  intros Ha Hp La. unfold check_mod_n. rewrite check_mod_loop_spec by done.
  pose proof (le_value_range a Ha) as R. rewrite La, <- pw_bytes in R. pose proof base_facts.
  pose proof (digits_ok (length p) (le_value a)) as O. pose proof (length_digits (length p) (le_value a)) as L.
  pose proof (digits_small (length p) (le_value a) R) as V.
  destruct (foldl_lor _ O 0) as [F1 F2]; [unfold limb_ok; lia|]. rewrite is_zero_spec by done.
  destruct (sub_limbs _ p 0) as [r b] eqn:E. apply sub_limbs_spec in E as (Vs & Or & Lr & Hb); [|done|done|done|lia].
  rewrite V, L in *. pose proof (val_range r Or) as Rr. rewrite Lr in Rr. pose proof (val_range p Hp). cbn [snd].
  assert (b = if le_value a <? val p then 1 else 0) as ->.
  { assert (b = 0 \/ b = 1) as [-> | ->] by lia; case_if; lia. }
  destruct (Z.eqb_spec (foldl Z.lor 0 (digits (length p) (le_value a))) 0) as [E0|E0].
  - apply F2 in E0 as [_ ->]. cbn. by case_if.
  - destruct (Z.ltb_spec 0 (le_value a)); [|destruct E0; apply F2; lia]. cbn. by case_if.
Qed.
End Limbs.
