(* ===== verification/Inverse.v ===== *)
(** * Constant-time inversion of the BLS library

    [ct_inverse_mod_n] of src/src/blst/src/no_asm.h and the routines it is built from:
    the binary extended Euclidean algorithm on the leading and trailing limbs of the two
    numbers, [w - 2] halvings at a time, with the cofactors kept on twice the width.
    The definitions run, and Scalar.v evaluates them; that the iterations are enough for
    every input is not proved, only the shape of the results. *)

From stdpp Require Import prelude list.
From Stdlib Require Import ZArith Lia.
From S2P Require Import Prelude Serialize Limbs.

Open Scope Z_scope.

Module Inverse.
Section Definitions.
Context (w : Z).
#[local] Abbreviation limb := (Limbs.limb w).
#[local] Abbreviation llimb := (Limbs.llimb w).
#[local] Abbreviation hi_limb := (Limbs.hi_limb w).
#[local] Abbreviation is_zero := (Limbs.is_zero w).

Definition MSB (x : Z) : Z := Z.shiftr x (w - 1).

(** ** Leading bits *)

(** One step of the search for the top bit: if [l] has bits above [k], they are counted
    and [l] is shifted down. *)
Definition num_bits_step (k : Z) (s : Z * Z) : Z * Z :=
  let '(l, bits) := s in
  let x := Z.shiftr l k in
  let mask := limb (0 - MSB (limb (0 - x))) in
  (Z.lxor l (Z.land (Z.lxor x l) mask), bits + Z.land k mask).

Definition num_bits (l : Z) : Z :=
  let s := (l, Z.lxor (is_zero l) 1) in
  let s := if w =? 64 then num_bits_step 32 s else s in
  let '(l, bits) := num_bits_step 2 (num_bits_step 4 (num_bits_step 8 (num_bits_step 16 s))) in
  bits + Z.shiftr l 1.

Definition lshift_2 (hi lo l : Z) : Z :=
  let r := w - l in
  let mask := limb (0 - Z.lxor (is_zero l) 1) in
  Z.lor (limb (Z.shiftl hi (Z.land l (w - 1)))) (Z.shiftr (Z.land lo mask) (Z.land r (w - 1))).

(** [approximate i]: the loop of [ab_approximation_n] for the indices [i], ..., 1. *)
Fixpoint approximate (i : nat) (a b : list Z) (a_hi a_lo b_hi b_lo : Z) : Z * Z * Z * Z :=
  match i with
  | O => (a_hi, a_lo, b_hi, b_lo)
  | S i' =>
      let mask := limb (0 - is_zero (Z.lor a_hi b_hi)) in
      let a_hi' := Z.lxor (Z.land (Z.lxor a_lo a_hi) mask) a_hi in
      let b_hi' := Z.lxor (Z.land (Z.lxor b_lo b_hi) mask) b_hi in
      let a_lo' := Z.lxor (Z.land (Z.lxor (nth i a 0) a_lo) mask) a_lo in
      let b_lo' := Z.lxor (Z.land (Z.lxor (nth i b 0) b_lo) mask) b_lo in
      approximate i' a b a_hi' a_lo' b_hi' b_lo'
  end.

Definition ab_approximation_n (a b : list Z) : (Z * Z) * (Z * Z) :=
  let n := length a in
  let '(a_hi, a_lo, b_hi, b_lo) :=
    approximate (n - 3) a b (nth (n - 1) a 0) (nth (n - 2) a 0) (nth (n - 1) b 0) (nth (n - 2) b 0) in
  let i := w - num_bits (Z.lor a_hi b_hi) in
  ((nth 0 a 0, lshift_2 a_hi a_lo i), (nth 0 b 0, lshift_2 b_hi b_lo i)).

(** ** The halving loop *)

Record factors := { f0 : Z; g0 : Z; f1 : Z; g1 : Z }.

Fixpoint inner_loop (n : nat) (a_lo a_hi b_lo b_hi : Z) (fg : factors) : factors :=
  match n with
  | O => fg
  | S n =>
      let odd := limb (0 - Z.land a_lo 1) in
      let '(t_lo, t_hi) := (a_lo, a_hi) in
      let limbx := llimb (a_lo - Z.land b_lo odd) in
      let a_lo := limb limbx in
      let borrow := Z.land (hi_limb limbx) 1 in
      let limbx := llimb (a_hi - (Z.land b_hi odd + borrow)) in
      let a_hi := limb limbx in
      let borrow := hi_limb limbx in
      let a_lo := Z.lxor a_lo borrow in
      let a_hi := Z.lxor a_hi borrow in
      let limbx := llimb (a_lo + Z.land borrow 1) in
      let a_lo := limb limbx in
      let a_hi := limb (a_hi + Z.land (hi_limb limbx) 1) in
      let b_lo := Z.lxor (Z.land (Z.lxor t_lo b_lo) borrow) b_lo in
      let b_hi := Z.lxor (Z.land (Z.lxor t_hi b_hi) borrow) b_hi in
      let xorm := Z.land (Z.lxor (f0 fg) (f1 fg)) borrow in
      let f0' := Z.lxor (f0 fg) xorm in
      let f1' := Z.lxor (f1 fg) xorm in
      let xorm := Z.land (Z.lxor (g0 fg) (g1 fg)) borrow in
      let g0' := Z.lxor (g0 fg) xorm in
      let g1' := Z.lxor (g1 fg) xorm in
      let f0' := limb (f0' - Z.land f1' odd) in
      let g0' := limb (g0' - Z.land g1' odd) in
      let f1' := limb (Z.shiftl f1' 1) in
      let g1' := limb (Z.shiftl g1' 1) in
      let a_lo := Z.lor (Z.shiftr a_lo 1) (limb (Z.shiftl a_hi (w - 1))) in
      let a_hi := Z.shiftr a_hi 1 in
      inner_loop n a_lo a_hi b_lo b_hi {| f0 := f0'; g0 := g0'; f1 := f1'; g1 := g1' |}
  end.

Definition inner_loop_n (a_ b_ : Z * Z) (n : Z) : factors :=
  inner_loop (Z.to_nat n) a_.1 a_.2 b_.1 b_.2 {| f0 := 1; g0 := 0; f1 := 0; g1 := 1 |}.

(** ** Signed products *)

(** [a] xored with the mask [neg], plus one if the mask is set; the last limb decides
    the sign returned. *)
Fixpoint cneg_loop (a : list Z) (neg carry last : Z) : list Z * Z :=
  match a with
  | [] => ([], last)
  | ai :: a =>
      let limbx := llimb (Z.lxor ai neg + carry) in
      let '(r, l) := cneg_loop a neg (hi_limb limbx) (limb limbx) in (limb limbx :: r, l)
  end.

Definition cneg_n (a : list Z) (neg : Z) : list Z * Z :=
  let '(ret, last) := cneg_loop a neg (Z.land neg 1) 0 in
  (ret, limb (0 - MSB last)).

Definition add_n (a b : list Z) : list Z * Z := add_limbs w a b 0.

(** The absolute value of a signed limb and its sign, as a mask. *)
Definition sign_mask (f : Z) : Z := limb (0 - MSB f).
Definition absolute (f neg : Z) : Z := limb (Z.lxor f neg - neg).

(** [|a| * |f|] on one more limb. *)
Definition smul_n (a : list Z) (f_ : Z) : list Z :=
  let neg := sign_mask f_ in
  let f := absolute f_ neg in
  let a_ := (cneg_n a neg).1 in
  let '(a_, hi) := umul_n w a_ f 0 in
  a_ ++ [limb (hi - Z.land f neg)].

(** [>> (w - 2)] of a vector with one more limb; the second result is the last limb. *)
Fixpoint shift_n (carry : Z) (rest : list Z) : list Z * Z :=
  match rest with
  | [] => ([], carry)
  | next :: rest =>
      let hi := Z.shiftr carry (w - 2) in
      let '(r, c) := shift_n next rest in
      (Z.lor hi (limb (Z.shiftl next 2)) :: r, c)
  end.

Definition smul_n_shift_n (a : list Z) (f_ : Z) (b : list Z) (g_ : Z) : list Z * Z * Z :=
  let a_ := smul_n a f_ in
  let b_ := smul_n b g_ in
  let a_ := (add_n a_ b_).1 in
  let '(ret, carry) := shift_n (nth 0 a_ 0) (drop 1 a_) in
  let neg := sign_mask carry in
  ((cneg_n ret neg).1, limb (Z.lxor f_ neg - neg), limb (Z.lxor g_ neg - neg)).

Definition smul_2n (u : list Z) (f : Z) (v : list Z) (g : Z) : list Z * Z :=
  let neg := sign_mask f in
  let f := absolute f neg in
  let '(u_, neg) := cneg_n u neg in
  let '(u_, hu) := umul_n w u_ f 0 in
  let hi := limb (hu - Z.land f neg) in
  let neg := sign_mask g in
  let g := absolute g neg in
  let '(v_, neg) := cneg_n v neg in
  let '(v_, hv) := umul_n w v_ g 0 in
  let hi := limb (hi + (hv - Z.land g neg)) in
  let '(ret, c) := add_n u_ v_ in
  (ret, limb (hi + c)).

(** ** The inversion *)

Fixpoint inverse_loop (i : nat) (a b u v : list Z) : list Z * list Z * list Z * list Z :=
  match i with
  | O => (a, b, u, v)
  | S i =>
      let '(a_, b_) := ab_approximation_n a b in
      let fg := inner_loop_n a_ b_ (w - 2) in
      let '(t, f0', g0') := smul_n_shift_n a (f0 fg) b (g0 fg) in
      let '(b', f1', g1') := smul_n_shift_n a (f1 fg) b (g1 fg) in
      let '(t2, _) := smul_2n u f0' v g0' in
      let '(v', _) := smul_2n u f1' v g1' in
      inverse_loop i t b' t2 v'
  end.

Definition ct_inverse_mod_n (inp md modx : list Z) : list Z :=
  let n := length md in
  let bits := 2 * Z.of_nat n * w in
  let '(a, b, u, v) :=
    inverse_loop (Z.to_nat (bits / (w - 2))) inp md (1 :: zeros (2 * n - 1)) (zeros (2 * n)) in
  let fg := inner_loop_n (nth 0 a 0, nth 1 a 0) (nth 0 b 0, nth 1 b 0) (bits mod (w - 2)) in
  let '(ret, top) := smul_2n u (f1 fg) v (g1 fg) in
  let sign := sign_mask top in
  let '(hi, carry) := add_limbs w (drop n ret) (map (fun x => Z.land x sign) modx) 0 in
  let top := limb (top + carry) in
  let sign := limb (0 - top) in
  let top := Z.lor top sign in
  let a := map (fun x => Z.land x top) modx in
  let a := (cneg_n a (sign_mask sign)).1 in
  take n ret ++ (add_n hi a).1.
End Definitions.

(** ** Shapes *)

Section Shapes.
Context (w : Z).

Lemma length_cneg_n a neg : length (cneg_n w a neg).1 = length a.
Proof.
  unfold cneg_n. assert (forall a c l, length (cneg_loop w a neg c l).1 = length a) as K.
  { clear. induction a as [|x a IH]; intros c l; cbn [cneg_loop]; [done|].
    pose proof (IH (hi_limb w (llimb w (Z.lxor x neg + c))) (limb w (llimb w (Z.lxor x neg + c)))) as E.
    destruct (cneg_loop w a neg _ _). cbn in *. lia. }
  pose proof (K a (Z.land neg 1) 0) as E. by destruct (cneg_loop w a neg _ 0).
Qed.

Lemma length_smul_n a f : length (smul_n w a f) = S (length a).
Proof.
  unfold smul_n. set (n := sign_mask w f). pose proof (length_umul_n w (cneg_n w a n).1 (absolute w f n) 0) as E.
  destruct (umul_n w _ _ 0). cbn in E. rewrite length_app, E, length_cneg_n. cbn. lia.
Qed.

Lemma length_shift_n rest : forall c, length (shift_n w c rest).1 = length rest.
Proof.
  induction rest as [|x rest IH]; intros c; cbn [shift_n]; [done|]. pose proof (IH x) as E.
  destruct (shift_n w x rest). cbn in *. lia.
Qed.

Lemma length_smul_n_shift_n a f b g : length a = length b -> length (smul_n_shift_n w a f b g).1.1 = length a.
Proof.
  intros H. unfold smul_n_shift_n. set (s := (add_n w _ _).1). assert (length s = S (length a)) as Ls.
  { unfold s, add_n. rewrite length_add_limbs, !length_smul_n. lia. }
  pose proof (length_shift_n (drop 1 s) (nth 0 s 0)) as E. destruct (shift_n w _ _). cbn in *.
  rewrite length_cneg_n, E, length_drop. lia.
Qed.

Lemma length_smul_2n u f v g : length u = length v -> length (smul_2n w u f v g).1 = length u.
Proof.
  intros H. unfold smul_2n. pose proof (length_cneg_n u (sign_mask w f)) as E1. destruct (cneg_n w u _) as [u1 n1].
  pose proof (length_umul_n w u1 (absolute w f (sign_mask w f)) 0) as E2. destruct (umul_n w u1 _ 0) as [u2 h2].
  pose proof (length_cneg_n v (sign_mask w g)) as E3. destruct (cneg_n w v _) as [v1 n3].
  pose proof (length_umul_n w v1 (absolute w g (sign_mask w g)) 0) as E4. destruct (umul_n w v1 _ 0) as [v2 h4].
  unfold add_n. pose proof (length_add_limbs w u2 v2 0) as E5. destruct (add_limbs w u2 v2 0). cbn in *. lia.
Qed.

Lemma length_inverse_loop i : forall a b u v, length a = length b -> length u = length v ->
  let '(a', b', u', v') := inverse_loop w i a b u v in
  length a' = length a /\ length b' = length a /\ length u' = length u /\ length v' = length u.
Proof.
  induction i as [|i IH]; intros a b u v Hab Huv; cbn [inverse_loop]; [done|].
  destruct (ab_approximation_n w a b) as [a_ b_]. set (fg := inner_loop_n w a_ b_ (w - 2)).
  pose proof (length_smul_n_shift_n a (f0 fg) b (g0 fg) Hab) as E1.
  destruct (smul_n_shift_n w a (f0 fg) b (g0 fg)) as [[t f0'] g0'].
  pose proof (length_smul_n_shift_n a (f1 fg) b (g1 fg) Hab) as E2.
  destruct (smul_n_shift_n w a (f1 fg) b (g1 fg)) as [[b' f1'] g1'].
  pose proof (length_smul_2n u f0' v g0' Huv) as E3. destruct (smul_2n w u f0' v g0') as [t2 c2].
  pose proof (length_smul_2n u f1' v g1' Huv) as E4. destruct (smul_2n w u f1' v g1') as [v' c3]. cbn in *.
  specialize (IH t b' t2 v' ltac:(lia) ltac:(lia)). destruct (inverse_loop w i t b' t2 v') as [[[? ?] ?] ?]. lia.
Qed.

Lemma length_ct_inverse_mod_n inp md modx : length inp = length md -> length modx = length md -> md <> [] ->
  length (ct_inverse_mod_n w inp md modx) = (length md + length md)%nat.
Proof.
  intros H1 H2 Hne. unfold ct_inverse_mod_n. set (n := length md) in *. assert (n <> 0%nat) by (destruct md; done).
  pose proof (length_inverse_loop (Z.to_nat (2 * Z.of_nat n * w / (w - 2))) inp md (1 :: zeros (2 * n - 1)) (zeros (2 * n))) as E.
  destruct (inverse_loop w _ inp md _ _) as [[[a b] u] v].
  assert (length (1 :: zeros (2 * n - 1)) = (2 * n)%nat) as L1 by (cbn; unfold zeros; rewrite length_replicate; lia).
  assert (length (zeros (2 * n)) = (2 * n)%nat) as L2 by apply length_replicate.
  destruct E as (Ea & Eb & Eu & Ev); [lia|lia|].
  set (fg := inner_loop_n w _ _ _).
  pose proof (length_smul_2n u (f1 fg) v (g1 fg) ltac:(lia)) as Es. destruct (smul_2n w u (f1 fg) v (g1 fg)) as [ret top].
  cbn [fst] in Es.
  set (m1 := map _ modx). pose proof (length_add_limbs w (drop n ret) m1 0) as Ed.
  destruct (add_limbs w (drop n ret) m1 0) as [hi c]. cbn [fst] in Ed.
  rewrite length_app, length_take. unfold add_n. rewrite length_add_limbs, length_cneg_n, length_map, Ed.
  unfold m1. rewrite length_map, length_drop. lia.
Qed.
End Shapes.
End Inverse.
