(* ===== verification/Scalar.v ===== *)
(** * Scalars of the BLS library

    The scalar field of BLS12-381: its constants (src/src/blst/src/consts.c) and the
    operations of exports.c and recip.c on scalars, 32 bytes least significant first,
    over the limb arithmetic of Limbs.v.  The theorems say that they compute in the
    integers modulo the group order, for both widths of limbs, and where they do not:
    secret keys that were never reduced, and empty byte strings. *)

From stdpp Require Import prelude list.
From Stdlib Require Import ZArith Lia Zmod.
From S2P Require Import Prelude Primality Serialize Limbs Inverse.

Open Scope Z_scope.

Module Scalar.
Section Definitions.
Context (w : Z).
#[local] Abbreviation limb := (Limbs.limb w).
#[local] Abbreviation check_mod_n := (Limbs.check_mod_n w).
#[local] Abbreviation vec_is_zero := (Limbs.vec_is_zero w).
#[local] Abbreviation add_mod_n := (Limbs.add_mod_n w).
#[local] Abbreviation mul_mont_n := (Limbs.mul_mont_n w).
#[local] Abbreviation from_mont_n := (Limbs.from_mont_n w).
#[local] Abbreviation redc_mont_n := (Limbs.redc_mont_n w).
#[local] Abbreviation limbs_from_le_bytes := (Limbs.limbs_from_le_bytes w).
#[local] Abbreviation limbs_from_be_bytes := (Limbs.limbs_from_be_bytes w).
#[local] Abbreviation le_bytes_from_limbs := (Limbs.le_bytes_from_limbs w).
#[local] Abbreviation be_bytes_from_limbs := (Limbs.be_bytes_from_limbs w).
#[local] Abbreviation add_n_check_mod_n := (Limbs.add_n_check_mod_n w).
#[local] Abbreviation sub_n_check_mod_n := (Limbs.sub_n_check_mod_n w).

(** ** The scalar field (consts.c) *)

(** [TO_LIMB_T]: a 64-bit constant as one limb or two. *)
Definition TO_LIMB_T (x : Z) : list Z :=
  if w =? 64 then [x] else [limb x; limb (Z.shiftr x 32)].

Definition BLS12_381_r : list Z :=
  concat (map TO_LIMB_T [0xffffffff00000001; 0x53bda402fffe5bfe; 0x3339d80809a1d805; 0x73eda753299d7d48]).

Definition BLS12_381_rRR : list Z :=
  concat (map TO_LIMB_T [0xc999e990f3f29c6d; 0x2b6cedcb87925c23; 0x05d314967254398f; 0x0748d9d99f59ff11]).

Definition r0 : Z := limb 0xfffffffeffffffff.

Definition NLIMBS (bits : Z) : nat := Z.to_nat (bits / w).

Definition mul_mont_sparse_256 (a b : list Z) : list Z := mul_mont_n a b BLS12_381_r r0.
Definition add_mod_256 (a b : list Z) : list Z := add_mod_n a b BLS12_381_r.
Definition from_mont_256 (a : list Z) : list Z := from_mont_n a BLS12_381_r r0.
Definition redc_mont_256 (a : list Z) : list Z := redc_mont_n a BLS12_381_r r0.

(** ** Scalars as 32 little-endian bytes (exports.c) *)

Definition blst_sk_check (a : list Z) : bool := negb (check_mod_n a BLS12_381_r =? 0).

Definition bytes_are_zero (a : list Z) : Z :=
  Z.shiftr (limb (foldl Z.lor 0 a - 1)) (w - 1).

Definition blst_scalar_fr_check (a : list Z) : bool :=
  negb (Z.lor (check_mod_n a BLS12_381_r) (bytes_are_zero a) =? 0).

Definition blst_sk_add_n_check (a b : list Z) : list Z * bool :=
  let '(ret, ok) := add_n_check_mod_n a b BLS12_381_r in (ret, negb (ok =? 0)).

Definition blst_sk_sub_n_check (a b : list Z) : list Z * bool :=
  let '(ret, ok) := sub_n_check_mod_n a b BLS12_381_r in (ret, negb (ok =? 0)).

Definition blst_sk_mul_n_check (a b : list Z) : list Z * bool :=
  let t0 := limbs_from_le_bytes (zeros (NLIMBS 256)) a in
  let t1 := limbs_from_le_bytes (zeros (NLIMBS 256)) b in
  let t := mul_mont_sparse_256 BLS12_381_rRR t0 in
  let t := mul_mont_sparse_256 t t1 in
  (le_bytes_from_limbs t 32, negb (Z.lxor (vec_is_zero t) 1 =? 0)).

Definition blst_scalar_from_bendian (a : list Z) : list Z :=
  le_bytes_from_limbs (limbs_from_be_bytes (zeros (NLIMBS 256)) a) 32.
Definition blst_bendian_from_scalar (a : list Z) : list Z :=
  be_bytes_from_limbs (limbs_from_le_bytes (zeros (NLIMBS 256)) a) 32.
Definition blst_scalar_from_lendian (a : list Z) : list Z := take 32 a.
Definition blst_lendian_from_scalar (a : list Z) : list Z := take 32 a.

(** [n] bytes at the offset [off] of a buffer; [None] is a read outside it. *)
Definition read_at (bytes : list Z) (off n : Z) : option (list Z) :=
  if (0 <=? off) && (off + n <=? Z.of_nat (length bytes))
  then Some (take (Z.to_nat n) (drop (Z.to_nat off) bytes)) else None.

(** The offset of a pointer moved by a [size_t], which wraps. *)
Definition move (off d : Z) : Z := i64 (off + d).

Definition scalar_digit (t digit : list Z) : list Z :=
  mul_mont_sparse_256 BLS12_381_rRR (add_mod_256 t digit).

Fixpoint from_le_loop (fuel : nat) (bytes : list Z) (off n : Z) (t : list Z) : option (list Z) :=
  match fuel with
  | O => None
  | S fuel =>
      if n =? 0 then Some t
      else
        let off := move off (-32) in
        d ← read_at bytes off 32;
        let digit := limbs_from_le_bytes (zeros (NLIMBS 256)) d in
        from_le_loop fuel bytes off (u64 (n - 32)) (scalar_digit t digit)
  end.

Definition finish_scalar (t : list Z) : list Z * bool :=
  let t := from_mont_256 t in
  (le_bytes_from_limbs t 32, negb (Z.lxor (vec_is_zero t) 1 =? 0)).

Definition blst_scalar_from_le_bytes (bytes : list Z) : option (list Z * bool) :=
  let n := Z.of_nat (length bytes) in
  let rem := u64 (n - 1) mod 32 + 1 in
  let n := u64 (n - rem) in
  let off := move 0 n in
  d ← read_at bytes off rem;
  let t := limbs_from_le_bytes (zeros (NLIMBS 256)) d in
  let t := mul_mont_sparse_256 BLS12_381_rRR t in
  t ← from_le_loop (S (length bytes)) bytes off n t;
  Some (finish_scalar t).

Fixpoint from_be_loop (fuel : nat) (bytes : list Z) (off n rem : Z) (t : list Z) : option (list Z) :=
  match fuel with
  | O => None
  | S fuel =>
      let n := u64 (n - rem) in
      if n =? 0 then Some t
      else
        let off := move off rem in
        d ← read_at bytes off 32;
        let digit := limbs_from_be_bytes (zeros (NLIMBS 256)) d in
        from_be_loop fuel bytes off n 32 (scalar_digit t digit)
  end.

Definition blst_scalar_from_be_bytes (bytes : list Z) : option (list Z * bool) :=
  let n := Z.of_nat (length bytes) in
  let rem := u64 (n - 1) mod 32 + 1 in
  d ← read_at bytes 0 rem;
  let t := limbs_from_be_bytes (zeros (NLIMBS 256)) d in
  let t := mul_mont_sparse_256 BLS12_381_rRR t in
  t ← from_be_loop (S (length bytes)) bytes 0 n rem t;
  Some (finish_scalar t).

(** ** Inversion (recip.c, exports.c) *)

Definition ct_inverse_mod_256 (inp modx : list Z) : list Z := Inverse.ct_inverse_mod_n w inp BLS12_381_r modx.

(** The left-aligned value of the modulus. *)
Definition rx2 : list Z :=
  concat (map TO_LIMB_T [0xfffffffe00000002; 0xa77b4805fffcb7fd; 0x6673b0101343b00a; 0xe7db4ea6533afa90]).

Definition reciprocal_fr (inp : list Z) : list Z :=
  let temp := ct_inverse_mod_256 inp rx2 in
  let out := redc_mont_256 temp in
  mul_mont_sparse_256 out BLS12_381_rRR.

Definition blst_sk_inverse (a : list Z) : list Z :=
  let out := limbs_from_le_bytes (zeros (NLIMBS 256)) a in
  let out := mul_mont_sparse_256 out BLS12_381_rRR in
  let out := reciprocal_fr out in
  le_bytes_from_limbs (from_mont_256 out) 32.
End Definitions.

(** ** Proofs *)

Section Proofs.
Context (w : Z) (Hw : w = 32 \/ w = 64).
#[local] Abbreviation limb := (Limbs.limb w).
#[local] Abbreviation hi_limb := (Limbs.hi_limb w).
#[local] Abbreviation llimb := (Limbs.llimb w).
#[local] Abbreviation val := (Limbs.val w).
#[local] Abbreviation pw := (Limbs.pw w).
#[local] Abbreviation limbs_ok := (Limbs.limbs_ok w).
#[local] Abbreviation limb_ok := (Limbs.limb_ok w).
#[local] Abbreviation digits := (Limbs.digits w).
#[local] Abbreviation reduced := (Limbs.reduced w).
#[local] Abbreviation computes := (Limbs.computes w).
#[local] Abbreviation limb_bytes := (Limbs.limb_bytes w).
#[local] Abbreviation check_mod_n := (Limbs.check_mod_n w).
#[local] Abbreviation is_zero := (Limbs.is_zero w).
#[local] Abbreviation vec_is_zero := (Limbs.vec_is_zero w).
#[local] Abbreviation add_mod_n := (Limbs.add_mod_n w).
#[local] Abbreviation sub_mod_n := (Limbs.sub_mod_n w).
#[local] Abbreviation mul_mont_n := (Limbs.mul_mont_n w).
#[local] Abbreviation from_mont_n := (Limbs.from_mont_n w).
#[local] Abbreviation redc_mont_n := (Limbs.redc_mont_n w).
#[local] Abbreviation limbs_from_le_bytes := (Limbs.limbs_from_le_bytes w).
#[local] Abbreviation limbs_from_be_bytes := (Limbs.limbs_from_be_bytes w).
#[local] Abbreviation le_bytes_from_limbs := (Limbs.le_bytes_from_limbs w).
#[local] Abbreviation be_bytes_from_limbs := (Limbs.be_bytes_from_limbs w).
#[local] Abbreviation add_n_check_mod_n := (Limbs.add_n_check_mod_n w).
#[local] Abbreviation sub_n_check_mod_n := (Limbs.sub_n_check_mod_n w).
#[local] Abbreviation check_mod_loop := (Limbs.check_mod_loop w).
#[local] Abbreviation limb_of_bytes := (Limbs.limb_of_bytes w).
#[local] Abbreviation TO_LIMB_T := (TO_LIMB_T w).
#[local] Abbreviation BLS12_381_r := (BLS12_381_r w).
#[local] Abbreviation BLS12_381_rRR := (BLS12_381_rRR w).
#[local] Abbreviation r0 := (r0 w).
#[local] Abbreviation NLIMBS := (NLIMBS w).
#[local] Abbreviation mul_mont_sparse_256 := (mul_mont_sparse_256 w).
#[local] Abbreviation add_mod_256 := (add_mod_256 w).
#[local] Abbreviation from_mont_256 := (from_mont_256 w).
#[local] Abbreviation redc_mont_256 := (redc_mont_256 w).
#[local] Abbreviation blst_sk_check := (blst_sk_check w).
#[local] Abbreviation bytes_are_zero := (bytes_are_zero w).
#[local] Abbreviation blst_scalar_fr_check := (blst_scalar_fr_check w).
#[local] Abbreviation blst_sk_add_n_check := (blst_sk_add_n_check w).
#[local] Abbreviation blst_sk_sub_n_check := (blst_sk_sub_n_check w).
#[local] Abbreviation blst_sk_mul_n_check := (blst_sk_mul_n_check w).
#[local] Abbreviation blst_scalar_from_bendian := (blst_scalar_from_bendian w).
#[local] Abbreviation blst_bendian_from_scalar := (blst_bendian_from_scalar w).
#[local] Abbreviation scalar_digit := (scalar_digit w).
#[local] Abbreviation from_le_loop := (from_le_loop w).
#[local] Abbreviation finish_scalar := (finish_scalar w).
#[local] Abbreviation blst_scalar_from_le_bytes := (blst_scalar_from_le_bytes w).
#[local] Abbreviation from_be_loop := (from_be_loop w).
#[local] Abbreviation blst_scalar_from_be_bytes := (blst_scalar_from_be_bytes w).
#[local] Abbreviation ct_inverse_mod_256 := (ct_inverse_mod_256 w).
#[local] Abbreviation rx2 := (rx2 w).
#[local] Abbreviation reciprocal_fr := (reciprocal_fr w).
#[local] Abbreviation blst_sk_inverse := (blst_sk_inverse w).

(** ** The scalar field *)

Definition group_order : Z := 52435875175126190479447740508185965837690552500527637822603658699938581184513.

Lemma r_facts :
  val BLS12_381_r = group_order /\ length BLS12_381_r = NLIMBS 256 /\ pw (NLIMBS 256) = 2 ^ 256 /\
  (r0 * hd 0 BLS12_381_r + 1) mod 2 ^ w = 0 /\ (2 ^ w + 1) * group_order <= 2 ^ w * 2 ^ 256 /\
  val BLS12_381_rRR = 2 ^ 512 mod group_order /\ length BLS12_381_rRR = NLIMBS 256 /\
  (NLIMBS 256 * limb_bytes = 32)%nat.
Proof. destruct Hw as [-> | ->]; split_and!; try apply Z.leb_le; vm_compute; reflexivity. Qed.

Lemma consts_ok : limbs_ok BLS12_381_r /\ limbs_ok BLS12_381_rRR.
Proof.
  assert (forall l, forallb (fun x => (0 <=? x) && (x <? 2 ^ w)) l = true -> limbs_ok l) as K.
  { intros l Hl. apply Forall_forall. intros x Hx. rewrite forallb_forall in Hl.
    apply list_elem_of_In in Hx. specialize (Hl x Hx). bool_to_prop. unfold limb_ok. lia. }
  split; apply K; clear K; destruct Hw as [-> | ->]; vm_compute; reflexivity.
Qed.

Lemma order_facts : 0 < group_order < 2 ^ 256 /\
  (2 ^ 256 * 12549076656233958353659347336803947287922716146853412054870763148006372261952) mod group_order = 1.
Proof. split_and!; try apply Z.ltb_lt; vm_compute; reflexivity. Qed.

Lemma cancel_radix x y : (x * 2 ^ 256) mod group_order = (y * 2 ^ 256) mod group_order ->
  x mod group_order = y mod group_order.
Proof.
  destruct order_facts as [Hr Hi]. set (ri := 12549076656233958353659347336803947287922716146853412054870763148006372261952) in Hi.
  intros E. assert (forall z, z mod group_order = ((z * 2 ^ 256) mod group_order * ri) mod group_order) as K.
  { intros z. rewrite Z.mul_mod_idemp_l, <- Z.mul_assoc, <- Z.mul_mod_idemp_r, Hi, Z.mul_1_r by lia. done. }
  by rewrite (K x), (K y), E.
Qed.

(** A vector of the field, reduced, with the value [z] up to multiples of the order. *)
Definition fr (l : list Z) (z : Z) : Prop :=
  limbs_ok l /\ length l = NLIMBS 256 /\ 0 <= val l < group_order /\ val l mod group_order = z mod group_order.

Lemma fr_val l z : fr l z -> val l = z mod group_order.
Proof. intros (_ & _ & H & E). by rewrite <- E, Z.mod_small. Qed.

Lemma fr_reduced l z : fr l z -> reduced BLS12_381_r l.
Proof.
  intros (O & L & V & _). destruct r_facts as (Vr & Lr & _). split; [done|]. split; [congruence|]. rewrite Vr. lia.
Qed.

Lemma rRR_reduced : reduced BLS12_381_r BLS12_381_rRR.
Proof.
  destruct r_facts as (Vr & Lr & _ & _ & _ & VR & LR & _), consts_ok as [_ O], order_facts as [Hr _].
  split; [done|]. split; [congruence|]. rewrite VR, Vr. apply Z.mod_pos_bound. lia.
Qed.

(** Montgomery multiplication of a reduced vector by any other. *)
Lemma mul_sparse_spec a b z : reduced BLS12_381_r a -> limbs_ok b -> length b = NLIMBS 256 ->
  (val a * val b) mod group_order = (z * 2 ^ 256) mod group_order -> fr (mul_mont_sparse_256 a b) z.
Proof.
  intros Ha Hb Lb E. destruct r_facts as (Vr & Lr & Hpw & H0 & Ht & _), consts_ok as [Or _], order_facts as [Hr _].
  destruct (mul_mont_computes w Hw BLS12_381_r Or ltac:(rewrite Vr; lia) r0 H0 ltac:(by rewrite Vr, Lr, Hpw) a b Ha Hb
              ltac:(congruence)) as [(O & L & V) M].
  fold (mul_mont_sparse_256 a b) in *. rewrite Vr, Lr, Hpw in *.
  split; [done|]. split; [done|]. pose proof (val_range w Hw _ O). split; [lia|]. apply cancel_radix. by rewrite M, E.
Qed.

(** Into Montgomery form, from any vector of four 64-bit words. *)
Lemma to_mont_spec b : limbs_ok b -> length b = NLIMBS 256 ->
  fr (mul_mont_sparse_256 BLS12_381_rRR b) (val b * 2 ^ 256).
Proof.
  intros Hb Lb. apply mul_sparse_spec; [apply rRR_reduced|done|done|].
  destruct r_facts as (_ & _ & _ & _ & _ & -> & _), order_facts as [Hr _].
  rewrite Z.mul_mod_idemp_l by lia. f_equal. change (2 ^ 512) with (2 ^ 256 * 2 ^ 256). lia.
Qed.

Lemma from_mont_spec a z : limbs_ok a -> length a = NLIMBS 256 ->
  val a mod group_order = (z * 2 ^ 256) mod group_order -> fr (from_mont_256 a) z.
Proof.
  intros Ha La E. destruct r_facts as (Vr & Lr & Hpw & H0 & _), consts_ok as [Or _], order_facts as [Hr _].
  assert (BLS12_381_r <> []) as Hne by (intros En; rewrite En in Vr; vm_compute in Vr; congruence).
  destruct (from_mont_n_spec w Hw BLS12_381_r r0 Or Hne H0 a Ha ltac:(congruence) ltac:(rewrite Vr; lia)) as (O & L & V & M).
  fold (from_mont_256 a) in *. rewrite Vr, Lr, Hpw in *.
  split; [done|]. split; [done|]. split; [done|]. apply cancel_radix. by rewrite M, E.
Qed.

Lemma add_256_spec a b z : reduced BLS12_381_r a -> limbs_ok b -> length b = NLIMBS 256 ->
  (val a + val b) mod group_order = z mod group_order ->
  limbs_ok (add_mod_256 a b) /\ length (add_mod_256 a b) = NLIMBS 256 /\
  val (add_mod_256 a b) mod group_order = z mod group_order.
Proof.
  intros (Oa & La & Va) Ob Lb E. destruct r_facts as (Vr & Lr & Hpw & _), consts_ok as [Or _], order_facts as [Hr _].
  pose proof (val_range w Hw b Ob) as Rb. pose proof (val_range w Hw a Oa). rewrite Lb, Hpw in Rb.
  destruct (add_mod_n_spec w Hw a b BLS12_381_r) as (O & L & V); [done|done|done|done|congruence| |].
  { rewrite Lr, Hpw. lia. }
  fold (add_mod_256 a b) in *. split; [done|]. split; [congruence|]. rewrite V, Vr, <- E. case_if; [done|].
  replace (val a + val b - group_order) with (val a + val b + (-1) * group_order) by lia. by rewrite Z.mod_add by lia.
Qed.

(** ** Scalars *)

(** [pow256]: 32 bytes *)
Definition pow256 (a : list Z) : Prop := Forall byte_ok a /\ length a = 32%nat.

Lemma pow256_limbs a : pow256 a ->
  limbs_ok (limbs_from_le_bytes (zeros (NLIMBS 256)) a) /\
  length (limbs_from_le_bytes (zeros (NLIMBS 256)) a) = NLIMBS 256 /\
  val (limbs_from_le_bytes (zeros (NLIMBS 256)) a) = le_value a.
Proof.
  intros [Ha La]. destruct r_facts as (_ & _ & Hpw & _ & _ & _ & _ & Hb).
  rewrite limbs_from_le_bytes_digits by (done || lia). split; [apply (digits_ok w Hw)|]. split; [apply length_digits|].
  apply (digits_small w Hw). rewrite Hpw. pose proof (le_value_range a Ha) as R. rewrite La in R. exact R.
Qed.

Lemma fr_bytes l z : fr l z -> le_bytes_from_limbs l 32 = le_bytes 32 (z mod group_order).
Proof.
  intros H. pose proof (fr_val _ _ H) as V. destruct H as (O & L & _). destruct r_facts as (_ & _ & _ & _ & _ & _ & _ & Hb).
  rewrite <- Hb, <- L, le_bytes_from_limbs_val, V by done. done.
Qed.

Lemma fr_zero l z : fr l z -> negb (Z.lxor (vec_is_zero l) 1 =? 0) = negb (z mod group_order =? 0).
Proof.
  intros H. pose proof (fr_val _ _ H) as V. destruct H as (O & _). rewrite vec_is_zero_spec, V by done.
  by destruct (z mod group_order =? 0).
Qed.

Definition scalar_of (z : Z) : list Z * bool :=
  (le_bytes 32 (z mod group_order), negb (z mod group_order =? 0)).

Lemma fr_scalar l z : fr l z -> (le_bytes_from_limbs l 32, negb (Z.lxor (vec_is_zero l) 1 =? 0)) = scalar_of z.
Proof. intros H. unfold scalar_of. by rewrite (fr_bytes _ z H), (fr_zero _ z H). Qed.

Lemma sk_limbs_reduced a : pow256 a -> le_value a < group_order ->
  reduced BLS12_381_r (limbs_from_le_bytes (zeros (NLIMBS 256)) a).
Proof.
  intros Ha Hlt. destruct (pow256_limbs a Ha) as (O & L & V), r_facts as (Vr & Lr & _).
  split; [done|]. split; [congruence|]. by rewrite V, Vr.
Qed.

Lemma computes_fr l z : computes BLS12_381_r l z -> fr l z.
Proof.
  destruct r_facts as (Vr & Lr & _), order_facts as [Hr _]. intros [(O & L & Vl) V]. rewrite Vr in *.
  pose proof (val_range w Hw _ O). split; [done|]. split; [congruence|]. split; [lia|]. rewrite V. by rewrite Z.mod_mod by lia.
Qed.

Lemma sk_add_spec a b : pow256 a -> pow256 b -> le_value a < group_order -> le_value b < group_order ->
  blst_sk_add_n_check a b = scalar_of (le_value a + le_value b).
Proof.
  intros Ha Hb Va Vb. destruct r_facts as (Vr & Lr & _ & _ & _ & _ & _ & Hn), consts_ok as [Or _], order_facts as [Hr _].
  unfold blst_sk_add_n_check, add_n_check_mod_n. rewrite Lr, Hn. apply fr_scalar, computes_fr.
  destruct (pow256_limbs a Ha) as (_ & _ & <-), (pow256_limbs b Hb) as (_ & _ & <-).
  apply (add_mod_computes w Hw); [done|rewrite Vr; lia|by apply sk_limbs_reduced..].
Qed.

Lemma sk_sub_spec a b : pow256 a -> pow256 b -> le_value a < group_order -> le_value b < group_order ->
  blst_sk_sub_n_check a b = scalar_of (le_value a - le_value b).
Proof.
  intros Ha Hb Va Vb. destruct r_facts as (Vr & Lr & _ & _ & _ & _ & _ & Hn), consts_ok as [Or _], order_facts as [Hr _].
  unfold blst_sk_sub_n_check, sub_n_check_mod_n. rewrite Lr, Hn. apply fr_scalar, computes_fr.
  destruct (pow256_limbs a Ha) as (_ & _ & <-), (pow256_limbs b Hb) as (_ & _ & <-).
  apply (sub_mod_computes w Hw); [done|rewrite Vr; lia|by apply sk_limbs_reduced..].
Qed.

Lemma sk_mul_spec a b : pow256 a -> pow256 b ->
  blst_sk_mul_n_check a b = scalar_of (le_value a * le_value b).
Proof.
  intros Ha Hb. destruct (pow256_limbs a Ha) as (Oa & La & Va), (pow256_limbs b Hb) as (Ob & Lb & Vb).
  unfold blst_sk_mul_n_check. pose proof (to_mont_spec _ Oa La) as H1.
  apply fr_scalar, mul_sparse_spec; [by eapply fr_reduced|done|done|].
  destruct order_facts as [Hr _]. rewrite (fr_val _ _ H1), Z.mul_mod_idemp_l, Va, Vb by lia. f_equal. lia.
Qed.

(** ** Byte strings of any length *)

Lemma scalar_digit_spec t d u z : fr t u -> limbs_ok d -> length d = NLIMBS 256 ->
  (u + val d) mod group_order = z mod group_order -> fr (scalar_digit t d) (z * 2 ^ 256).
Proof.
  intros Ht Od Ld E. pose proof (fr_val _ _ Ht) as Vt. destruct order_facts as [Hr _].
  destruct (add_256_spec t d z (fr_reduced _ _ Ht) Od Ld) as (O & L & V).
  { rewrite Vt, Z.add_mod_idemp_l by lia. done. }
  pose proof (to_mont_spec _ O L) as (O1 & L1 & R1 & V1). unfold Scalar.scalar_digit.
  split; [done|]. split; [done|]. split; [done|]. rewrite V1, <- (Z.mul_mod_idemp_l (val _)), V, Z.mul_mod_idemp_l by lia. done.
Qed.

Lemma read_at_nat bytes o n : (o + n <= length bytes)%nat ->
  read_at bytes (Z.of_nat o) (Z.of_nat n) = Some (take n (drop o bytes)).
Proof.
  intros H. unfold read_at. rewrite (proj2 (Z.leb_le 0 _)), (proj2 (Z.leb_le _ _)) by lia. cbn.
  by rewrite !Nat2Z.id.
Qed.

Lemma chunk_ok bytes o n : Forall byte_ok bytes -> (o + n <= length bytes)%nat ->
  Forall byte_ok (take n (drop o bytes)) /\ length (take n (drop o bytes)) = n.
Proof.
  intros H Hl. split; [by apply Forall_take, Forall_drop|]. rewrite length_take, length_drop. lia.
Qed.

Lemma le_chunk bytes o : (o + 32 <= length bytes)%nat ->
  le_value (drop o bytes) = le_value (take 32 (drop o bytes)) + 2 ^ 256 * le_value (drop (o + 32) bytes).
Proof.
  intros H. rewrite <- (take_drop 32 (drop o bytes)) at 1. rewrite le_value_app, drop_drop.
  by rewrite length_take, length_drop, Nat.min_l by lia.
Qed.

Lemma be_value_app l l' : be_value (l ++ l') = be_value l * 256 ^ Z.of_nat (length l') + be_value l'.
Proof. unfold be_value. rewrite reverse_app, le_value_app, length_reverse. lia. Qed.

Lemma be_limbs l : Forall byte_ok l -> (length l <= 32)%nat ->
  limbs_ok (limbs_from_be_bytes (zeros (NLIMBS 256)) l) /\
  length (limbs_from_be_bytes (zeros (NLIMBS 256)) l) = NLIMBS 256 /\
  val (limbs_from_be_bytes (zeros (NLIMBS 256)) l) = be_value l.
Proof.
  intros Hl Ll. destruct r_facts as (_ & _ & Hpw & _ & _ & _ & _ & Hb).
  rewrite limbs_from_be_bytes_digits by (done || lia). split; [apply (digits_ok w Hw)|]. split; [apply length_digits|].
  apply (digits_small w Hw). rewrite Hpw. pose proof (be_value_range l Hl) as R.
  split; [lia|]. eapply Z.lt_le_trans; [apply R|]. change (2 ^ 256) with (256 ^ 32). apply Z.pow_le_mono_r; lia.
Qed.

Section Bytes.
Context (bytes : list Z) (Hbytes : Forall byte_ok bytes) (Hlen : Z.of_nat (length bytes) < 2 ^ 63).

Lemma from_le_loop_spec k : forall fuel t, (k < fuel)%nat -> (32 * k <= length bytes)%nat ->
  fr t (le_value (drop (32 * k) bytes) * 2 ^ 256) ->
  exists t', from_le_loop fuel bytes (Z.of_nat (32 * k)) (Z.of_nat (32 * k)) t = Some t' /\
             fr t' (le_value bytes * 2 ^ 256).
Proof.
  induction k as [|k IH]; intros [|fuel] t Hf Hk Ht; try lia; cbn [Scalar.from_le_loop].
  { exists t. by rewrite Nat.mul_0_r. }
  rewrite (proj2 (Z.eqb_neq _ 0)) by lia. change (2 ^ 63) with 9223372036854775808 in Hlen.
  assert (move (Z.of_nat (32 * S k)) (-32) = Z.of_nat (32 * k)) as ->.
  { unfold move. rewrite i64_id by (unfold in_i64; lia). lia. }
  assert (u64 (Z.of_nat (32 * S k) - 32) = Z.of_nat (32 * k)) as ->.
  { rewrite u64_id by (unfold in_u64; lia). lia. }
  pose proof (read_at_nat bytes (32 * k) 32 ltac:(lia)) as Er. change (Z.of_nat 32) with 32 in Er.
  rewrite Er. cbn [mbind option_bind].
  destruct (chunk_ok bytes (32 * k) 32 Hbytes ltac:(lia)) as [Hc Lc].
  destruct (pow256_limbs _ (conj Hc Lc)) as (O & L & V).
  apply IH; [lia|lia|]. eapply scalar_digit_spec; [exact Ht|done|done|].
  rewrite V. f_equal. rewrite (le_chunk bytes (32 * k)) by lia. replace (32 * k + 32)%nat with (32 * S k)%nat by lia. lia.
Qed.

Lemma from_be_loop_spec k : forall fuel o rem t, (k < fuel)%nat -> (o + rem + 32 * k = length bytes)%nat ->
  fr t (be_value (take (o + rem) bytes) * 2 ^ 256) ->
  exists t', from_be_loop fuel bytes (Z.of_nat o) (Z.of_nat (length bytes - o)) (Z.of_nat rem) t = Some t' /\
             fr t' (be_value bytes * 2 ^ 256).
Proof.
  change (2 ^ 63) with 9223372036854775808 in Hlen.
  induction k as [|k IH]; intros [|fuel] o rem t Hf Hk Ht; try lia; cbn [Scalar.from_be_loop];
    rewrite (u64_id (Z.of_nat (length bytes - o) - Z.of_nat rem)) by (unfold in_u64; lia).
  { rewrite (proj2 (Z.eqb_eq _ 0)) by lia. exists t. split; [done|]. by rewrite take_ge in Ht by lia. }
  rewrite (proj2 (Z.eqb_neq _ 0)) by lia.
  assert (move (Z.of_nat o) (Z.of_nat rem) = Z.of_nat (o + rem)) as ->.
  { unfold move. rewrite i64_id by (unfold in_i64; lia). lia. }
  pose proof (read_at_nat bytes (o + rem) 32 ltac:(lia)) as Er. change (Z.of_nat 32) with 32 in Er.
  rewrite Er. cbn [mbind option_bind].
  destruct (chunk_ok bytes (o + rem) 32 Hbytes ltac:(lia)) as [Hc Lc].
  destruct (be_limbs _ Hc ltac:(lia)) as (O & L & V).
  replace (Z.of_nat (length bytes - o) - Z.of_nat rem) with (Z.of_nat (length bytes - (o + rem))) by lia.
  apply (IH fuel (o + rem)%nat 32%nat); [lia|lia|]. eapply scalar_digit_spec; [exact Ht|done|done|].
  rewrite V. f_equal. rewrite <- (take_take_drop bytes (o + rem) 32), be_value_app, Lc. done.
Qed.

Lemma first_rem : bytes <> [] ->
  exists k rem, u64 (Z.of_nat (length bytes) - 1) mod 32 + 1 = Z.of_nat rem /\
    (rem <= 32)%nat /\ length bytes = (32 * k + rem)%nat.
Proof.
  intros Hne. assert (1 <= length bytes)%nat by (destruct bytes; cbn; [done|lia]).
  change (2 ^ 63) with 9223372036854775808 in Hlen.
  exists ((length bytes - 1) / 32)%nat, ((length bytes - 1) mod 32 + 1)%nat.
  pose proof (Nat.div_mod (length bytes - 1) 32 ltac:(lia)). pose proof (Nat.mod_upper_bound (length bytes - 1) 32 ltac:(lia)).
  split; [|lia]. rewrite u64_id by (unfold in_u64; lia).
  replace (Z.of_nat (length bytes) - 1) with (Z.of_nat (length bytes - 1)) by lia.
  pose proof (Nat2Z.inj_mod (length bytes - 1) 32) as Em. change (Z.of_nat 32) with 32 in Em. lia.
Qed.

Lemma finish_scalar_spec t z : fr t (z * 2 ^ 256) -> finish_scalar t = scalar_of z.
Proof. intros (O & L & _ & V). apply fr_scalar. by apply from_mont_spec. Qed.

Lemma scalar_from_le_spec : bytes <> [] -> blst_scalar_from_le_bytes bytes = Some (scalar_of (le_value bytes)).
Proof.
  intros Hne. destruct (first_rem Hne) as (k & rem & Hrem & Hr32 & Hl). change (2 ^ 63) with 9223372036854775808 in Hlen.
  unfold Scalar.blst_scalar_from_le_bytes. rewrite Hrem.
  rewrite (u64_id (Z.of_nat (length bytes) - Z.of_nat rem)) by (unfold in_u64; lia).
  replace (Z.of_nat (length bytes) - Z.of_nat rem) with (Z.of_nat (32 * k)) by lia.
  assert (move 0 (Z.of_nat (32 * k)) = Z.of_nat (32 * k)) as -> by (unfold move; apply i64_id; unfold in_i64; lia).
  rewrite read_at_nat by lia. cbn [mbind option_bind].
  destruct (chunk_ok bytes (32 * k) rem Hbytes ltac:(lia)) as [Hc Lc].
  assert (take rem (drop (32 * k) bytes) = drop (32 * k) bytes) as Et by (apply take_ge; rewrite length_drop; lia).
  rewrite Et in *.
  destruct r_facts as (_ & _ & Hpw & _ & _ & _ & _ & Hb).
  rewrite limbs_from_le_bytes_digits by (done || lia).
  destruct (from_le_loop_spec k (S (length bytes))
              (mul_mont_sparse_256 BLS12_381_rRR (digits (NLIMBS 256) (le_value (drop (32 * k) bytes)))))
    as (t & -> & Ht); [lia|lia| |].
  - rewrite <- (digits_small w Hw (NLIMBS 256) (le_value (drop (32 * k) bytes))) at 2.
    + apply to_mont_spec; [apply (digits_ok w Hw)|apply length_digits].
    + rewrite Hpw. pose proof (le_value_range _ Hc) as R. split; [lia|]. eapply Z.lt_le_trans; [apply R|].
      change (2 ^ 256) with (256 ^ 32). apply Z.pow_le_mono_r; lia.
  - cbn [mbind option_bind]. by rewrite (finish_scalar_spec t (le_value bytes)).
Qed.

Lemma scalar_from_be_spec : bytes <> [] -> blst_scalar_from_be_bytes bytes = Some (scalar_of (be_value bytes)).
Proof.
  intros Hne. destruct (first_rem Hne) as (k & rem & Hrem & Hr32 & Hl).
  unfold Scalar.blst_scalar_from_be_bytes. rewrite Hrem. 
  pose proof (read_at_nat bytes 0 rem ltac:(lia)) as Er. change (Z.of_nat 0) with 0 in Er.
  rewrite Er, drop_0. cbn [mbind option_bind].
  destruct (chunk_ok bytes 0 rem Hbytes ltac:(lia)) as [Hc Lc]. rewrite drop_0 in Hc, Lc.
  destruct (be_limbs _ Hc ltac:(lia)) as (O & L & V). pose proof (to_mont_spec _ O L) as Ht. rewrite V in Ht.
  destruct (from_be_loop_spec k (S (length bytes)) 0 rem
              (mul_mont_sparse_256 BLS12_381_rRR (limbs_from_be_bytes (zeros (NLIMBS 256)) (take rem bytes))))
    as (t & E & Ht'); [lia|lia|done|].
  rewrite Nat.sub_0_r in E. change (Z.of_nat 0) with 0 in E. rewrite E. cbn [mbind option_bind].
  by rewrite (finish_scalar_spec t (be_value bytes)).
Qed.
End Bytes.

(** ** Conversions and checks *)

Lemma scalar_from_bendian_reverse a : pow256 a -> blst_scalar_from_bendian a = reverse a.
Proof.
  intros [Ha La]. unfold Scalar.blst_scalar_from_bendian. destruct r_facts as (_ & _ & _ & _ & _ & _ & _ & Hb).
  destruct (be_limbs a Ha ltac:(lia)) as (O & L & V).
  pose proof (le_bytes_from_limbs_val w Hw _ O) as E. rewrite L, Hb, V in E. rewrite E. unfold be_value.
  replace 32%nat with (length (reverse a)) by (by rewrite length_reverse). apply le_bytes_value. by apply Forall_reverse.
Qed.

Lemma bendian_from_scalar_reverse a : pow256 a -> blst_bendian_from_scalar a = reverse a.
Proof.
  intros Ha. destruct (pow256_limbs a Ha) as (O & L & V). destruct Ha as [Ha La]. unfold Scalar.blst_bendian_from_scalar.
  rewrite be_bytes_from_limbs_val, V by done. f_equal. rewrite <- La. by apply le_bytes_value.
Qed.

Lemma foldl_lor_bytes a : Forall byte_ok a -> forall acc, byte_ok acc ->
  byte_ok (foldl Z.lor acc a) /\ (foldl Z.lor acc a = 0 <-> acc = 0 /\ le_value a = 0).
Proof.
  induction 1 as [|x a Hx Ha IH]; intros acc Hacc; cbn [foldl le_value]; [split; [done|tauto]|].
  assert (byte_ok (Z.lor acc x)) as Hl.
  { split; [apply Z.lor_nonneg; split; [apply Hacc|apply Hx]|]. change 256 with (2 ^ 8).
    destruct (Z.eq_dec (Z.lor acc x) 0) as [-> |Hnz]; [done|]. apply Z.log2_lt_pow2.
    - pose proof (proj2 (Z.lor_nonneg acc x) (conj (proj1 Hacc) (proj1 Hx))). lia.
    - rewrite Z.log2_lor by apply Hacc || apply Hx. unfold byte_ok in *. change 256 with (2 ^ 8) in *.
      apply Z.max_lub_lt; [destruct (Z.eq_dec acc 0) as [-> |]|destruct (Z.eq_dec x 0) as [-> |]];
        try done; apply Z.log2_lt_pow2; lia. }
  destruct (IH _ Hl) as [I1 I2]. split; [done|]. rewrite I2, Z.lor_eq_0_iff.
  pose proof (le_value_range a Ha). unfold byte_ok in *. lia.
Qed.

Lemma sk_check_spec a : pow256 a -> blst_sk_check a = (0 <? le_value a) && (le_value a <? group_order).
Proof.
  intros [Ha La]. destruct r_facts as (Vr & Lr & _ & _ & _ & _ & _ & Hb), consts_ok as [Or _].
  unfold Scalar.blst_sk_check. rewrite (check_mod_n_spec w Hw), Vr; [by case_if|done|done|].
  by rewrite Lr, Hb.
Qed.

Lemma scalar_fr_check_spec a : pow256 a -> blst_scalar_fr_check a = (le_value a <? group_order).
Proof.
  intros [Ha La]. destruct r_facts as (Vr & Lr & _ & _ & _ & _ & _ & Hb), consts_ok as [Or _], order_facts as [Hr _].
  unfold Scalar.blst_scalar_fr_check, Scalar.bytes_are_zero.
  rewrite (check_mod_n_spec w Hw), Vr; [|done|done|by rewrite Lr, Hb].
  destruct (foldl_lor_bytes a Ha 0) as [B Z0]; [done|]. set (acc := foldl Z.lor 0 a) in *.
  pose proof (le_value_range a Ha). pose proof (base_facts w Hw) as [HB _].
  assert (2 ^ w = 2 * 2 ^ (w - 1)) as Hh by (rewrite <- Z.pow_succ_r; [f_equal|]; lia).
  assert (Z.shiftr (limb (acc - 1)) (w - 1) = if le_value a =? 0 then 1 else 0) as ->.
  { rewrite Z.shiftr_div_pow2 by lia. unfold byte_ok in B. destruct (Z.eqb_spec (le_value a) 0) as [E|E].
    - rewrite (proj2 Z0) by done. unfold limb. symmetry. rewrite <- (Z.mod_unique (0 - 1) (2 ^ w) (-1) (2 ^ w - 1)) by lia.
      apply (Z.div_unique _ _ _ (2 ^ (w - 1) - 1)); lia.
    - rewrite limb_id by (unfold limb_ok; lia). apply Z.div_small. lia. }
  destruct (Z.eqb_spec (le_value a) 0) as [-> |]; [done|].
  destruct (Z.ltb_spec 0 (le_value a)); [|lia]. cbn [andb]. by case_if.
Qed.

(** ** Inversion *)

(** Into Montgomery form with the constant as the second factor: the first needs not be reduced. *)
Lemma mul_rRR_spec a : limbs_ok a -> length a = NLIMBS 256 ->
  fr (mul_mont_sparse_256 a BLS12_381_rRR) (val a * 2 ^ 256).
Proof.
  intros Oa La. destruct r_facts as (Vr & Lr & Hpw & H0 & Ht & VR & LR & _), consts_ok as [Or OR], order_facts as [Hr _].
  assert (BLS12_381_r <> []) as Hne by (intros En; rewrite En in Vr; vm_compute in Vr; congruence).
  pose proof (val_range w Hw a Oa) as Ra. rewrite La, Hpw in Ra.
  pose proof (Z.mod_pos_bound (2 ^ 512) group_order ltac:(lia)) as RR. rewrite <- VR in RR.
  destruct (mul_mont_n_spec w Hw BLS12_381_r r0 Or Hne H0 a BLS12_381_rRR Oa OR) as (O & L & V & E);
    [congruence|congruence|rewrite Vr; lia|rewrite Vr, Lr, Hpw; nia| |].
  - assert (Forall (fun x => x + 2 <= 2 ^ w) BLS12_381_rRR) as Hx.
    { apply Forall_forall. intros x Hx. apply list_elem_of_In in Hx.
      assert (forallb (fun x => x + 2 <=? 2 ^ w) BLS12_381_rRR = true) as Hf by (clear -Hw; destruct Hw as [-> | ->]; vm_compute; done).
      rewrite forallb_forall in Hf. specialize (Hf x Hx). lia. }
    apply Forall_forall. intros x Hin. rewrite Forall_forall in Hx. specialize (Hx x Hin).
    pose proof (proj1 (Forall_forall _ _) OR x Hin) as Ox. unfold limb_ok in Ox.
    unfold no_top_carry. rewrite Vr, Lr, Hpw. nia.
  - fold (mul_mont_sparse_256 a BLS12_381_rRR) in *. rewrite Vr, Lr, Hpw in *.
    split; [done|]. split; [done|]. split; [lia|]. apply cancel_radix. rewrite E, VR, Z.mul_mod_idemp_r by lia.
    f_equal. change (2 ^ 512) with (2 ^ 256 * 2 ^ 256). lia.
Qed.

Definition euclid_inverts (x : list Z) : Prop :=
  let y := ct_inverse_mod_256 x rx2 in
  limbs_ok y /\ length y = (NLIMBS 256 + NLIMBS 256)%nat /\ (val y * val x) mod group_order = 2 ^ 512 mod group_order.

Lemma reciprocal_spec x z : fr x (z * 2 ^ 256) -> euclid_inverts x ->
  exists v, fr (reciprocal_fr x) (v * 2 ^ 256) /\ (v * z) mod group_order = 1.
Proof.
  intros Hx (Oy & Ly & Vy). destruct r_facts as (Vr & Lr & Hpw & H0 & _), consts_ok as [Or _], order_facts as [Hr Hi].
  assert (BLS12_381_r <> []) as Hne by (intros En; rewrite En in Vr; vm_compute in Vr; congruence).
  unfold Scalar.reciprocal_fr. set (y := ct_inverse_mod_256 x rx2) in *.
  destruct (redc_mont_n_spec w Hw BLS12_381_r r0 Or Hne H0 y Oy ltac:(congruence) ltac:(rewrite Vr; lia)) as (O & L & E & _).
  fold (redc_mont_256 y) in *. rewrite Vr, Lr, Hpw in *.
  exists (val (redc_mont_256 y)). split; [by apply mul_rRR_spec|].
  transitivity (1 mod group_order); [|reflexivity]. apply cancel_radix, cancel_radix. change (1 * 2 ^ 256 * 2 ^ 256) with (2 ^ 512).
  set (o := val (redc_mont_256 y)) in *. rewrite <- Vy.
  replace (o * z * 2 ^ 256 * 2 ^ 256) with ((o * 2 ^ 256) * (z * 2 ^ 256)) by lia.
  destruct Hx as (_ & _ & _ & Ex). rewrite Z.mul_mod, E, <- Ex, <- Z.mul_mod by lia. done.
Qed.

Lemma sk_inverse_spec a : pow256 a ->
  euclid_inverts (mul_mont_sparse_256 (limbs_from_le_bytes (zeros (NLIMBS 256)) a) BLS12_381_rRR) ->
  pow256 (blst_sk_inverse a) /\ 0 <= le_value (blst_sk_inverse a) < group_order /\
  (le_value (blst_sk_inverse a) * le_value a) mod group_order = 1.
Proof.
  intros Ha Hi. destruct (pow256_limbs a Ha) as (Oa & La & Va), order_facts as [Hr _].
  pose proof (mul_rRR_spec _ Oa La) as Hx. rewrite Va in Hx.
  destruct (reciprocal_spec _ _ Hx Hi) as (v & Hv & E). unfold Scalar.blst_sk_inverse.
  destruct Hv as (O & L & R & V). pose proof (from_mont_spec _ v O L V) as Hf.
  rewrite (fr_bytes _ _ Hf). pose proof (Z.mod_pos_bound v group_order ltac:(lia)) as Rv.
  rewrite le_value_bytes. change (256 ^ Z.of_nat 32) with (2 ^ 256). rewrite (Z.mod_small (v mod group_order)) by lia.
  split; [split; [apply le_bytes_ok|apply length_le_bytes]|]. split; [done|]. by rewrite Z.mul_mod_idemp_l by lia.
Qed.

(** ** Every result is 32 bytes, whatever the numbers *)

Lemma limbs_pow256 l : length l = NLIMBS 256 -> pow256 (le_bytes_from_limbs l 32).
Proof.
  intros Hl. destruct r_facts as (_ & _ & _ & _ & _ & _ & _ & Hb), (limb_bytes_facts w Hw) as (_ & Hz & _).
  pose proof (le_bytes_from_limbs_ok w l (NLIMBS 256) Hz Hl) as H. rewrite Hb in H. exact H.
Qed.

Lemma scalar_of_pow256 z : pow256 (scalar_of z).1.
Proof. unfold scalar_of. split; [apply le_bytes_ok|apply length_le_bytes]. Qed.

Lemma sk_add_pow256 a b : pow256 a -> pow256 b -> pow256 (blst_sk_add_n_check a b).1.
Proof.
  intros Ha Hb. destruct r_facts as (_ & Lr & _ & _ & _ & _ & _ & Hn).
  unfold Scalar.blst_sk_add_n_check, Limbs.add_n_check_mod_n. cbn [fst]. rewrite Lr, Hn. apply limbs_pow256.
  destruct (pow256_limbs a Ha) as (_ & La & _), (pow256_limbs b Hb) as (_ & Lb & _). rewrite length_add_mod_n. lia.
Qed.

Lemma sk_sub_pow256 a b : pow256 a -> pow256 b -> pow256 (blst_sk_sub_n_check a b).1.
Proof.
  intros Ha Hb. destruct r_facts as (_ & Lr & _ & _ & _ & _ & _ & Hn).
  unfold Scalar.blst_sk_sub_n_check, Limbs.sub_n_check_mod_n. cbn [fst]. rewrite Lr, Hn. apply limbs_pow256.
  destruct (pow256_limbs a Ha) as (_ & La & _), (pow256_limbs b Hb) as (_ & Lb & _). rewrite length_sub_mod_n. lia.
Qed.

Lemma sk_mul_pow256 a b : pow256 a -> pow256 b -> pow256 (blst_sk_mul_n_check a b).1.
Proof. intros Ha Hb. rewrite sk_mul_spec by done. apply scalar_of_pow256. Qed.

Lemma sk_inverse_pow256 a : pow256 a -> pow256 (blst_sk_inverse a).
Proof.
  intros Ha. destruct r_facts as (_ & Lr & _ & _ & _ & _ & LR & _), (pow256_limbs a Ha) as (_ & La & _).
  assert (BLS12_381_r <> [] /\ BLS12_381_rRR <> [] /\ length rx2 = NLIMBS 256) as (N1 & N2 & Lx)
    by (clear -Hw; destruct Hw as [-> | ->]; vm_compute; split_and!; congruence).
  unfold Scalar.blst_sk_inverse, Scalar.reciprocal_fr, Scalar.mul_mont_sparse_256, Scalar.redc_mont_256, Scalar.ct_inverse_mod_256.
  apply limbs_pow256. unfold Scalar.from_mont_256. rewrite <- Lr. apply length_from_mont_n, length_mul_mont_n; [done|].
  apply length_redc_mont_n, Inverse.length_ct_inverse_mod_n; [|congruence|done].
  apply length_mul_mont_n; [done|congruence].
Qed.
End Proofs.

(** ** The order is prime *)

Definition order_certificate : certificate := {|
  cert_base := 7;
  cert_cofactor := (group_order - 1) / (2 ^ 32 * 906349 ^ 2 * 254760293 ^ 2 * 52437899);
  cert_factors := [(2, 32); (906349, 2); (254760293, 2); (52437899, 1)] |}.

Lemma order_prime : Z.prime group_order.
Proof.
  apply (pocklington_prime group_order order_certificate); [vm_cast_no_check (eq_refl true)|].
  repeat (apply Forall_cons; split); try apply Forall_nil_2.
  - apply Z.prime_2.
  - apply (prime_by_trial _ 1000); [done|done|vm_compute; reflexivity|done].
  - apply (prime_by_trial _ 16000); [done|done|vm_compute; reflexivity|done].
  - apply (prime_by_trial _ 7300); [done|done|vm_compute; reflexivity|done].
Qed.

(** The modulus of the scalar field, four 64-bit or eight 32-bit limbs in consts.c, is a prime
    number; so every scalar that [blst_sk_check] accepts is invertible, and the groups whose
    order it is have no proper subgroups. *)
Theorem scalar_modulus_prime w : w = 32 \/ w = 64 ->
  Z.prime (val w (BLS12_381_r w)) /\
  (forall a, pow256 a -> blst_sk_check w a = true -> exists v, (v * le_value a) mod group_order = 1).
Proof.
  intros Hw. destruct (r_facts w Hw) as [-> _]. pose proof order_prime as Hp. split; [done|].
  intros a Ha. rewrite sk_check_spec by done. intros H. bool_to_prop. exists (le_value a ^ (group_order - 2)).
  rewrite <- (Z.fermat_nz group_order (le_value a) Hp).
  - rewrite Z.mul_comm, <- Z.pow_succ_r by (vm_compute; congruence). done.
  - rewrite Z.mod_small; lia.
Qed.

Lemma scalar_modulus_prime_witness : (64 = 32 \/ 64 = 64) /\ Z.prime (val 64 (BLS12_381_r 64)).
Proof. split; [by right|]. apply (scalar_modulus_prime 64). by right. Defined.

(** ** Arithmetic of scalars *)

(** C13: The scalar operations compute in the integers modulo the group order, for both widths of
    limbs: products of any two 32-byte strings, sums and differences of reduced ones, each
    returned reduced, least significant byte first, with the flag that says that it is not zero;
    the key check accepts exactly the numbers from one to the order less one. *)
Theorem scalar_arithmetic w a b : w = 32 \/ w = 64 -> pow256 a -> pow256 b ->
  blst_sk_mul_n_check w a b = scalar_of (le_value a * le_value b) /\
  (le_value a < group_order -> le_value b < group_order ->
     blst_sk_add_n_check w a b = scalar_of (le_value a + le_value b) /\
     blst_sk_sub_n_check w a b = scalar_of (le_value a - le_value b)) /\
  blst_sk_check w a = (0 <? le_value a) && (le_value a <? group_order) /\
  blst_scalar_fr_check w a = (le_value a <? group_order).
Proof.
  intros Hw Ha Hb. split; [by apply sk_mul_spec|]. split; [|split; [by apply sk_check_spec|by apply scalar_fr_check_spec]].
  intros. split; [by apply sk_add_spec|by apply sk_sub_spec].
Qed.

Lemma pow256_bytes n : pow256 (le_bytes 32 n).
Proof. split; [apply le_bytes_ok|apply length_le_bytes]. Qed.

Lemma scalar_arithmetic_witness :
  blst_sk_mul_n_check 64 (le_bytes 32 3) (le_bytes 32 (group_order - 5)) = scalar_of (-15) /\
  (32 = 32 \/ 32 = 64) /\ pow256 (le_bytes 32 3).
Proof.
  split; [|split; [by left|apply pow256_bytes]].
  destruct (scalar_arithmetic 64 (le_bytes 32 3) (le_bytes 32 (group_order - 5))) as [-> _];
    [by right|apply pow256_bytes|apply pow256_bytes|]. vm_compute. reflexivity.
Defined.

(** Byte strings of any length but zero become scalars by reduction of the number they spell,
    in both byte orders, however many blocks of 32 bytes they have; the two orders agree on
    reversed strings, and the empty string makes the code read outside its buffer. *)
Theorem scalar_from_bytes w bytes : w = 32 \/ w = 64 ->
  Forall byte_ok bytes -> Z.of_nat (length bytes) < 2 ^ 63 ->
  blst_scalar_from_le_bytes w bytes = (if decide (bytes = []) then None else Some (scalar_of (le_value bytes))) /\
  blst_scalar_from_be_bytes w bytes = (if decide (bytes = []) then None else Some (scalar_of (be_value bytes))) /\
  blst_scalar_from_be_bytes w (reverse bytes) = blst_scalar_from_le_bytes w bytes.
Proof.
  intros Hw Hb Hl. assert (forall l, Forall byte_ok l -> Z.of_nat (length l) < 2 ^ 63 ->
    blst_scalar_from_be_bytes w l = (if decide (l = []) then None else Some (scalar_of (be_value l)))) as B.
  { intros l Hl1 Hl2. case_decide as E; [|by apply scalar_from_be_spec]. subst. by destruct Hw as [-> | ->]; vm_compute. }
  assert (blst_scalar_from_le_bytes w bytes = (if decide (bytes = []) then None else Some (scalar_of (le_value bytes)))) as L.
  { case_decide as E; [|by apply scalar_from_le_spec]. rewrite E. by destruct Hw as [-> | ->]; vm_compute. }
  split; [done|]. split; [by apply B|]. rewrite B, L by (by apply Forall_reverse || by rewrite length_reverse).
  unfold be_value. rewrite reverse_involutive. destruct (decide (bytes = [])) as [-> |Hne]; [done|].
  rewrite decide_False; [done|]. intros E. by rewrite <- (reverse_involutive bytes), E in Hne.
Qed.

Lemma scalar_from_bytes_witness :
  Forall byte_ok (replicate 33 255) /\
  blst_scalar_from_le_bytes 64 (replicate 33 255) = Some (scalar_of (2 ^ 264 - 1)).
Proof.
  assert (Forall byte_ok (replicate 33 255)) as H by (by apply Forall_replicate). split; [done|].
  destruct (scalar_from_bytes 64 (replicate 33 255)) as [-> _]; [by right|done|vm_compute; done|].
  reflexivity.
Defined.

(** ** Where the arithmetic is wrong *)

(** A secret key read from 32 bytes is not reduced, and adding one twice to a scalar gives a
    wrong sum: the addition assumes that both numbers are below the order. *)
Theorem unreduced_key_adds_wrong :
  let key := blst_scalar_from_bendian 64 (replicate 32 255) in
  let once := (blst_sk_add_n_check 64 (le_bytes 32 0) key).1 in
  let twice := (blst_sk_add_n_check 64 once key).1 in
  pow256 key /\ le_value twice mod group_order <> (2 * le_value key) mod group_order.
Proof.
  cbn zeta. split; [|vm_compute; congruence].
  rewrite scalar_from_bendian_reverse; [|by right|split; [by apply Forall_replicate|done]].
  split; [by apply Forall_reverse, Forall_replicate|done].
Qed.

(** A prime just below [2 ^ 256], and its Montgomery constant. *)
Definition close_modulus : Z := 2 ^ 256 - 189.

(** The generic Montgomery product loses a carry for moduli close to the full width: the
    square of minus one modulo [2 ^ 256 - 189] is not one, though the result is in range and the
    constants are right. *)
Theorem montgomery_product_drops_carry :
  let p := digits 64 4 close_modulus in
  let a := digits 64 4 (close_modulus - 1) in
  let n0 := 11907422100489763477 in
  (n0 * hd 0 p + 1) mod 2 ^ 64 = 0 /\
  (val 64 (mul_mont_n 64 a a p n0) * 2 ^ 256) mod close_modulus <> 1.
Proof. split; vm_compute; congruence. Qed.

(** The Euclidean algorithm run on one key of each width: the inverse of three. *)
Example inverse_of_three :
  blst_sk_inverse 64 (le_bytes 32 3) = blst_sk_inverse 32 (le_bytes 32 3) /\
  (le_value (blst_sk_inverse 64 (le_bytes 32 3)) * 3) mod group_order = 1.
Proof. vm_compute. done. Qed.
End Scalar.
