(* ===== verification/Sha256.v ===== *)
(** * SHA-256 of the BLS library

    The compression function of src/src/blst/src/no_asm.h and the streaming interface
    of src/src/blst/src/sha256.h: a context that absorbs byte strings in pieces of any
    length.  The reference is the one-shot function of FIPS 180-4 (pad, cut into blocks,
    fold the compression function); the theorem is that pieces do not matter. *)

From stdpp Require Import prelude list.
From Stdlib Require Import ZArith Lia.
From S2P Require Import Prelude Serialize.

Open Scope Z_scope.

(** ** The compression function (no_asm.h) *)

Definition ROTR (x n : Z) : Z := Z.lor (Z.shiftr x n) (u32 (Z.shiftl x (32 - n))).
Definition Sigma0 (x : Z) : Z := Z.lxor (Z.lxor (ROTR x 2) (ROTR x 13)) (ROTR x 22).
Definition Sigma1 (x : Z) : Z := Z.lxor (Z.lxor (ROTR x 6) (ROTR x 11)) (ROTR x 25).
Definition sigma0 (x : Z) : Z := Z.lxor (Z.lxor (ROTR x 7) (ROTR x 18)) (Z.shiftr x 3).
Definition sigma1 (x : Z) : Z := Z.lxor (Z.lxor (ROTR x 17) (ROTR x 19)) (Z.shiftr x 10).
Definition Ch (x y z : Z) : Z := Z.lxor (Z.land x y) (Z.land (u32 (Z.lnot x)) z).
Definition Maj (x y z : Z) : Z := Z.lxor (Z.lxor (Z.land x y) (Z.land x z)) (Z.land y z).

(** The round constants of no_asm.h, in decimal; [K256_cube_roots] compares them with the
    standard's definition. *)
Definition K256 : list Z := [
  1116352408; 1899447441; 3049323471; 3921009573; 961987163; 1508970993; 2453635748; 2870763221;
  3624381080; 310598401; 607225278; 1426881987; 1925078388; 2162078206; 2614888103; 3248222580;
  3835390401; 4022224774; 264347078; 604807628; 770255983; 1249150122; 1555081692; 1996064986;
  2554220882; 2821834349; 2952996808; 3210313671; 3336571891; 3584528711; 113926993; 338241895;
  666307205; 773529912; 1294757372; 1396182291; 1695183700; 1986661051; 2177026350; 2456956037;
  2730485921; 2820302411; 3259730800; 3345764771; 3516065817; 3600352804; 4094571909; 275423344;
  430227734; 506948616; 659060556; 883997877; 958139571; 1322822218; 1537002063; 1747873779;
  1955562222; 2024104815; 2227730452; 2361852424; 2428436474; 2756734187; 3204031479; 3329325298].

(** The working variables [a], ..., [h]. *)
Record regs := mkRegs { ra : Z; rb : Z; rc : Z; rd : Z; re : Z; rf : Z; rg : Z; rh : Z }.

Definition load_regs (v : list Z) : regs :=
  mkRegs (nth 0 v 0) (nth 1 v 0) (nth 2 v 0) (nth 3 v 0) (nth 4 v 0) (nth 5 v 0) (nth 6 v 0) (nth 7 v 0).

(** The second half of both loop bodies: [T1] comes with the schedule word. *)
Definition sha_round (T1 k : Z) (s : regs) : regs :=
  let T1 := u32 (T1 + u32 (rh s + Sigma1 (re s) + Ch (re s) (rf s) (rg s) + k)) in
  let T2 := u32 (Sigma0 (ra s) + Maj (ra s) (rb s) (rc s)) in
  mkRegs (u32 (T1 + T2)) (ra s) (rb s) (rc s) (u32 (rd s + T1)) (re s) (rf s) (rg s).

Definition load_be32 (data : list Z) : Z :=
  let l := Z.shiftl (nth 0 data 0) 24 in
  let l := Z.lor l (Z.shiftl (nth 1 data 0) 16) in
  let l := Z.lor l (Z.shiftl (nth 2 data 0) 8) in
  Z.lor l (nth 3 data 0).

(** Rounds 0 to 15 read the block; [X] is built up. *)
Fixpoint rounds_load (n : nat) (data : list Z) (K : list Z) (X : list Z) (s : regs) : list Z * regs :=
  match n with
  | O => (X, s)
  | S n =>
      let l := load_be32 data in
      rounds_load n (drop 4 data) (drop 1 K) (X ++ [l]) (sha_round l (nth 0 K 0) s)
  end.

(** Rounds 16 to 63 extend the message schedule in place. *)
Fixpoint rounds_mix (n : nat) (round : nat) (X : list Z) (K : list Z) (s : regs) : regs :=
  match n with
  | O => s
  | S n =>
      let s0 := sigma0 (nth ((round + 1) mod 16) X 0) in
      let s1 := sigma1 (nth ((round + 14) mod 16) X 0) in
      let i := (round mod 16)%nat in
      let T1 := u32 (nth i X 0 + u32 (s0 + s1 + nth ((round + 9) mod 16) X 0)) in
      rounds_mix n (S round) (<[i := T1]> X) (drop 1 K) (sha_round T1 (nth 0 K 0) s)
  end.

Definition add_regs (s : regs) (v : list Z) : list Z :=
  [u32 (ra s + nth 0 v 0); u32 (rb s + nth 1 v 0); u32 (rc s + nth 2 v 0); u32 (rd s + nth 3 v 0);
   u32 (re s + nth 4 v 0); u32 (rf s + nth 5 v 0); u32 (rg s + nth 6 v 0); u32 (rh s + nth 7 v 0)].

(** One turn of the loop over blocks. *)
Definition sha256_compress (v block : list Z) : list Z :=
  let '(X, s) := rounds_load 16 block K256 [] (load_regs v) in
  let s := rounds_mix 48 16 X (drop 16 K256) s in
  add_regs s v.

Fixpoint sha256_block_data_order (v inp : list Z) (blocks : nat) : list Z :=
  match blocks with
  | O => v
  | S blocks => sha256_block_data_order (sha256_compress v (take 64 inp)) (drop 64 inp) blocks
  end.

Definition tobe32 (h_i : Z) : list Z :=
  [u8 (Z.shiftr h_i 24); u8 (Z.shiftr h_i 16); u8 (Z.shiftr h_i 8); u8 h_i].

Definition sha256_emit (h : list Z) : list Z := concat (map tobe32 h).

(** ** The streaming interface (sha256.h) *)

Record SHA256_CTX := mkCTX {
  ctx_h : list Z;
  ctx_N : Z;
  ctx_buf : list Z;
  ctx_off : nat;
}.

Definition sha256_init_h : list Z :=
  [0x6a09e667; 0xbb67ae85; 0x3c6ef372; 0xa54ff53a; 0x510e527f; 0x9b05688c; 0x1f83d9ab; 0x5be0cd19].

Definition zero_buf : list Z := replicate 64 0.

Definition sha256_init : SHA256_CTX := mkCTX sha256_init_h 0 zero_buf 0.

(** [len] bytes copied to [buf + n] *)
Definition sha256_bcopy (buf : list Z) (n : nat) (src : list Z) : list Z :=
  take n buf ++ src ++ drop (n + length src) buf.

(** The last two steps of the update: whole blocks straight from the input, the rest
    into the (zeroed) buffer. *)
Definition update_direct (ctx : SHA256_CTX) (inp : list Z) : SHA256_CTX :=
  let n := (length inp / 64)%nat in
  let '(h, rest) := if (0 <? n)%nat
                    then (sha256_block_data_order (ctx_h ctx) inp n, drop (n * 64) inp)
                    else (ctx_h ctx, inp) in
  match rest with
  | [] => mkCTX h (ctx_N ctx) (ctx_buf ctx) (ctx_off ctx)
  | _ => mkCTX h (ctx_N ctx) (sha256_bcopy (ctx_buf ctx) 0 rest) (length rest)
  end.

Definition sha256_update (ctx : SHA256_CTX) (inp : list Z) : SHA256_CTX :=
  let len := length inp in
  let ctx := mkCTX (ctx_h ctx) (u64 (ctx_N ctx + Z.of_nat len)) (ctx_buf ctx) (ctx_off ctx) in
  let n := ctx_off ctx in
  if negb (len =? 0)%nat && negb (n =? 0)%nat then
    let rem := (64 - n)%nat in
    if (len <? rem)%nat
    then mkCTX (ctx_h ctx) (ctx_N ctx) (sha256_bcopy (ctx_buf ctx) n inp) (n + len)
    else
      let buf := sha256_bcopy (ctx_buf ctx) n (take rem inp) in
      update_direct (mkCTX (sha256_block_data_order (ctx_h ctx) buf 1) (ctx_N ctx) zero_buf 0) (drop rem inp)
  else update_direct ctx inp.

Definition sha256_final (ctx : SHA256_CTX) : list Z :=
  let bits := u64 (ctx_N ctx * 8) in
  let n := ctx_off ctx in
  let buf := <[n := 0x80]> (ctx_buf ctx) in
  let n := S n in
  let '(h, buf) := if (56 <? n)%nat
                   then (sha256_block_data_order (ctx_h ctx) buf 1, zero_buf)
                   else (ctx_h ctx, buf) in
  let buf := sha256_bcopy buf 56 (tobe32 (u32 (Z.shiftr bits 32)) ++ tobe32 (u32 bits)) in
  sha256_emit (sha256_block_data_order h buf 1).

(** Hashing the concatenation of pieces, one update each. *)
Definition sha256_pieces (pieces : list (list Z)) : list Z :=
  sha256_final (foldl sha256_update sha256_init pieces).

(** ** The reference *)

(** The message, a one bit, zeros up to 56 modulo 64 bytes, the length in bits. *)
Definition sha_pad (len : nat) : list Z :=
  0x80 :: replicate ((119 - len mod 64) mod 64) 0 ++ tobe32 (u32 (Z.shiftr (8 * Z.of_nat len) 32)) ++ tobe32 (u32 (8 * Z.of_nat len)).

Definition sha256 (msg : list Z) : list Z :=
  let padded := msg ++ sha_pad (length msg) in
  sha256_emit (sha256_block_data_order sha256_init_h padded (length padded / 64)).

(** ** Blocks *)

Lemma block_data_order_app v l l' n m : length l = (64 * n)%nat ->
  sha256_block_data_order v (l ++ l') (n + m) = sha256_block_data_order (sha256_block_data_order v l n) l' m.
Proof.
  revert v l. induction n as [|n IH]; intros v l Hl; cbn [sha256_block_data_order Nat.add].
  { by destruct l. }
  rewrite take_app_le, drop_app_le by lia. apply IH. rewrite length_drop. lia.
Qed.

Lemma block_data_order_take v l n k : (64 * n <= k)%nat ->
  sha256_block_data_order v (take k l) n = sha256_block_data_order v l n.
Proof.
  revert v l k. induction n as [|n IH]; intros v l k Hk; cbn [sha256_block_data_order]; [done|].
  rewrite take_take, Nat.min_l by lia. rewrite skipn_firstn_comm. apply IH. lia.
Qed.

Lemma bcopy_tail tl src k : (length tl + length src <= 64)%nat -> k = (64 - length tl)%nat ->
  sha256_bcopy (tl ++ replicate k 0) (length tl) src =
  tl ++ src ++ replicate (64 - (length tl + length src)) 0.
Proof.
  intros Hl ->. unfold sha256_bcopy. rewrite take_app_length. do 2 f_equal.
  rewrite drop_app_ge, drop_replicate by lia. f_equal. lia.
Qed.

(** ** The round constants *)

(** FIPS 180-4 defines the constants as the first 32 bits of the fractional parts of the
    cube roots of the first 64 primes. *)
Definition is_prime (n : Z) : bool :=
  (1 <? n) && forallb (fun d => negb (n mod d =? 0)) (map Z.of_nat (seq 2 (Z.to_nat n - 2))).
Definition primes_64 : list Z := filter (fun n => is_prime n) (map Z.of_nat (seq 2 310)).
Definition cube_root_fraction (p k : Z) : bool :=
  existsb (fun n => let c := n * 2 ^ 32 + k in (c ^ 3 <=? p * 2 ^ 96) && (p * 2 ^ 96 <? (c + 1) ^ 3))
    (map Z.of_nat (seq 1 6)).

Lemma K256_cube_roots :
  length primes_64 = 64%nat /\ length K256 = 64%nat /\
  forallb (fun '(p, k) => (0 <=? k) && (k <? 2 ^ 32) && cube_root_fraction p k) (zip primes_64 K256) = true.
Proof. by vm_compute. Qed.

(** ** What a context has absorbed *)

(** The message is cut in [k] whole blocks, which are in the hash value, and a tail,
    which is in the buffer. *)
Definition absorbed (ctx : SHA256_CTX) (m : list Z) : Prop :=
  exists k bl tl, m = bl ++ tl /\ length bl = (64 * k)%nat /\ (length tl < 64)%nat /\
  ctx_h ctx = sha256_block_data_order sha256_init_h bl k /\
  ctx_N ctx = u64 (Z.of_nat (length m)) /\
  ctx_off ctx = length tl /\
  ctx_buf ctx = tl ++ replicate (64 - length tl) 0.

Lemma absorbed_init : absorbed sha256_init [].
Proof. exists 0%nat, [], []. split_and!; try done. cbn. lia. Qed.

Lemma update_direct_absorbed h N m k inp : length m = (64 * k)%nat ->
  h = sha256_block_data_order sha256_init_h m k -> N = u64 (Z.of_nat (length (m ++ inp))) ->
  absorbed (update_direct (mkCTX h N zero_buf 0) inp) (m ++ inp).
Proof.
  intros Hm -> ->. set (n := (length inp / 64)%nat).
  pose proof (Nat.div_mod_eq (length inp) 64) as D. pose proof (Nat.mod_upper_bound (length inp) 64 ltac:(lia)) as B.
  fold n in D. set (rest := drop (n * 64) inp).
  assert (length rest = (length inp mod 64)%nat) as Lr by (subst rest; rewrite length_drop; lia).
  assert (length (m ++ take (n * 64) inp) = (64 * (k + n))%nat) as Lb by (rewrite length_app, length_take; lia).
  assert (m ++ inp = (m ++ take (n * 64) inp) ++ rest) as Em by (subst rest; by rewrite <- app_assoc, take_drop).
  assert (update_direct (mkCTX (sha256_block_data_order sha256_init_h m k) (u64 (Z.of_nat (length (m ++ inp)))) zero_buf 0) inp
          = mkCTX (sha256_block_data_order sha256_init_h (m ++ take (n * 64) inp) (k + n))
                  (u64 (Z.of_nat (length (m ++ inp)))) (rest ++ replicate (64 - length rest) 0) (length rest)) as ->.
  { unfold update_direct. fold n rest. cbn [ctx_h ctx_N ctx_buf ctx_off].
    rewrite block_data_order_app, block_data_order_take by (done || lia).
    assert ((if (0 <? n)%nat then (sha256_block_data_order (sha256_block_data_order sha256_init_h m k) inp n, rest)
             else (sha256_block_data_order sha256_init_h m k, inp)) =
            (sha256_block_data_order (sha256_block_data_order sha256_init_h m k) inp n, rest)) as ->.
    { destruct (Nat.ltb_spec 0 n); [done|]. subst rest. by replace n with 0%nat by lia. }
    pose proof (bcopy_tail [] rest 64 ltac:(change (length rest <= 64)%nat; lia) eq_refl) as Eb. cbn [length app] in Eb.
    change (replicate 64 0) with zero_buf in Eb.
    destruct rest; [done|]. by rewrite Eb. }
  exists (k + n)%nat, (m ++ take (n * 64) inp), rest. cbn [ctx_h ctx_N ctx_buf ctx_off]. split_and!; done || lia.
Qed.

Lemma u64_add_len (a b : nat) : u64 (u64 (Z.of_nat a) + Z.of_nat b) = u64 (Z.of_nat (a + b)).
Proof. unfold u64. rewrite Z.add_mod_idemp_l by lia. f_equal. lia. Qed.

Lemma update_absorbed ctx m inp : absorbed ctx m -> absorbed (sha256_update ctx inp) (m ++ inp).
Proof.
  intros (k & bl & tl & -> & Hbl & Htl & Hh & HN & Ho & Hb). unfold sha256_update. cbn [ctx_h ctx_N ctx_buf ctx_off].
  rewrite Hh, HN, Ho, Hb, u64_add_len, <- length_app.
  destruct (Nat.eqb_spec (length inp) 0) as [E0|E0]; cbn [negb andb].
  { destruct inp; [|done]. rewrite !app_nil_r. exists k, bl, tl. unfold update_direct. cbn. by split_and!. }
  destruct (Nat.eqb_spec (length tl) 0) as [E1|E1]; cbn [negb].
  { destruct tl; [|done]. rewrite app_nil_r. cbn [app length Nat.sub]. by apply (update_direct_absorbed _ _ bl k). }
  destruct (Nat.ltb_spec (length inp) (64 - length tl)) as [Hlt|Hge].
  - rewrite bcopy_tail by lia. exists k, bl, (tl ++ inp). cbn [ctx_h ctx_N ctx_buf ctx_off].
    rewrite length_app. split_and!; try done; [by rewrite app_assoc|lia|by rewrite app_assoc].
  - set (rem := (64 - length tl)%nat) in *.
    assert (length (take rem inp) = rem) as Lt by (rewrite length_take; lia).
    rewrite bcopy_tail, Lt by lia. replace (64 - (length tl + rem))%nat with 0%nat by lia. rewrite app_nil_r.
    assert ((bl ++ tl) ++ inp = (bl ++ tl ++ take rem inp) ++ drop rem inp) as E.
    { by rewrite <- !app_assoc, take_drop. }
    rewrite E. apply (update_direct_absorbed _ _ _ (k + 1)); [rewrite !length_app, Lt; lia| |done].
    by rewrite block_data_order_app.
Qed.

Lemma bcopy_end (l src : list Z) : length l = 56%nat -> length src = 8%nat -> forall e, length e = 8%nat ->
  sha256_bcopy (l ++ e) 56 src = l ++ src.
Proof.
  intros Hl Hs e He. unfold sha256_bcopy. rewrite <- Hl at 1. rewrite take_app_length. f_equal.
  rewrite drop_ge; [by rewrite app_nil_r|]. rewrite length_app. lia.
Qed.

Lemma final_absorbed ctx m : absorbed ctx m -> Z.of_nat (length m) < 2 ^ 61 -> sha256_final ctx = sha256 m.
Proof.
  intros (k & bl & tl & -> & Hbl & Htl & Hh & HN & Ho & Hb) Hlen. unfold sha256_final, sha256.
  set (len := length (bl ++ tl)) in *. assert (len mod 64 = length tl)%nat as Em.
  { subst len. rewrite length_app, Hbl, Nat.add_comm, Nat.mul_comm, Nat.Div0.mod_add. by apply Nat.mod_small. }
  assert (u64 (ctx_N ctx * 8) = 8 * Z.of_nat len) as ->.
  { rewrite HN. change (2 ^ 61) with 2305843009213693952 in Hlen. rewrite (u64_id (Z.of_nat len)) by (unfold in_u64; lia).
    rewrite u64_id by (unfold in_u64; lia). lia. }
  unfold sha_pad. rewrite Em. set (src := tobe32 _ ++ tobe32 _). assert (length src = 8%nat) as Ls by done.
  rewrite Ho, Hb, insert_app_r_alt, Nat.sub_diag by lia.
  set (t := length tl) in *. replace (64 - t)%nat with (S (63 - t)) by lia. cbn [replicate insert list_insert].
  rewrite Hh, <- app_assoc.
  destruct (Nat.ltb_spec 56 (S t)) as [Hlt|Hge].
  - assert ((119 - t) mod 64 = 119 - t)%nat as -> by (apply Nat.mod_small; lia).
    replace (119 - t)%nat with ((63 - t) + 56)%nat by lia. rewrite replicate_add.
    change zero_buf with (replicate 56 0 ++ replicate 8 0). rewrite bcopy_end by done.
    f_equal. cbn [app]. rewrite <- !app_assoc.
    set (b1 := tl ++ 128 :: replicate (63 - t) 0). set (b2 := replicate 56 0 ++ src).
    assert (bl ++ tl ++ 128 :: replicate (63 - t) 0 ++ b2 = bl ++ b1 ++ b2) as -> by (subst b1; by rewrite <- app_assoc).
    assert (length b1 = 64%nat) as L1 by (subst b1; rewrite length_app; cbn; rewrite length_replicate; lia).
    assert (length b2 = 64%nat) as L2 by done.
    assert (length (bl ++ b1 ++ b2) / 64 = k + (1 + 1))%nat as ->.
    { rewrite !length_app, Hbl, L1, L2. replace (64 * k + (64 + 64))%nat with ((k + 2) * 64)%nat by lia. apply Nat.div_mul. lia. }
    by rewrite !block_data_order_app.
  - assert ((119 - t) mod 64 = 55 - t)%nat as ->.
    { replace (119 - t)%nat with (55 - t + 1 * 64)%nat by lia. rewrite Nat.Div0.mod_add. apply Nat.mod_small. lia. }
    replace (63 - t)%nat with ((55 - t) + 8)%nat by lia. rewrite replicate_add.
    set (b0 := tl ++ 128 :: replicate (55 - t) 0).
    assert (tl ++ 128 :: replicate (55 - t) 0 ++ replicate 8 0 = b0 ++ replicate 8 0) as -> by (subst b0; by rewrite <- app_assoc).
    assert (length b0 = 56%nat) as L0 by (subst b0; rewrite length_app; cbn; rewrite length_replicate; lia).
    rewrite bcopy_end by done.
    assert (tl ++ (128 :: replicate (55 - t) 0 ++ src) = b0 ++ src) as -> by (subst b0; by rewrite <- app_assoc).
    assert (length (bl ++ b0 ++ src) / 64 = k + 1)%nat as ->.
    { rewrite !length_app, Hbl, L0, Ls. replace (64 * k + (56 + 8))%nat with ((k + 1) * 64)%nat by lia. apply Nat.div_mul. lia. }
    by rewrite block_data_order_app.
Qed.

Lemma updates_absorbed pieces : forall ctx m, absorbed ctx m ->
  absorbed (foldl sha256_update ctx pieces) (m ++ concat pieces).
Proof.
  induction pieces as [|x l IH]; intros ctx m H; cbn [foldl concat]; [by rewrite app_nil_r|].
  rewrite app_assoc. apply IH. by apply update_absorbed.
Qed.

Lemma final_pieces ctx m pieces : absorbed ctx m -> Z.of_nat (length (m ++ concat pieces)) < 2 ^ 61 ->
  sha256_final (foldl sha256_update ctx pieces) = sha256 (m ++ concat pieces).
Proof. intros H Hl. apply final_absorbed; [by apply updates_absorbed|done]. Qed.

(** ** Digests are 32 bytes *)

Lemma tobe32_ok x : Forall byte_ok (tobe32 x).
Proof. repeat (apply Forall_cons; split; [apply Z.mod_pos_bound; lia|]). apply Forall_nil_2. Qed.

Lemma length_block_data_order v inp n : length v = 8%nat -> length (sha256_block_data_order v inp n) = 8%nat.
Proof.
  revert v inp. induction n as [|n IH]; intros v inp Hv; [done|]. cbn [sha256_block_data_order]. apply IH.
  unfold sha256_compress. by destruct (rounds_load _ _ _ _ _).
Qed.

Lemma emit_ok v : length v = 8%nat -> Forall byte_ok (sha256_emit v) /\ length (sha256_emit v) = 32%nat.
Proof.
  intros Hv. unfold sha256_emit. split.
  - apply Forall_concat, Forall_map, Forall_true. intros x. apply tobe32_ok.
  - do 8 (destruct v as [|? v]; [done|]). by destruct v.
Qed.

Lemma sha256_ok m : Forall byte_ok (sha256 m) /\ length (sha256 m) = 32%nat.
Proof. apply emit_ok. by apply length_block_data_order. Qed.

(** Hashing in pieces is hashing: for any pieces of any lengths, initialising a context, updating
    it with each and finalising gives the SHA-256 of their concatenation, up to the length whose
    bit count fits the 64-bit field. *)
Theorem sha256_streaming pieces : Z.of_nat (length (concat pieces)) < 2 ^ 61 ->
  sha256_pieces pieces = sha256 (concat pieces).
Proof. apply (final_pieces sha256_init []). apply absorbed_init. Qed.

(** Three pieces that fill, cross and leave the buffer; the digest is that of the standard's
    second example. *)
Definition fips_pieces : list (list Z) :=
  let msg := concat (map (fun i => map (fun j => Z.of_nat (97 + i + j)) (seq 0 4)) (seq 0 14)) in
  [take 5 msg; []; drop 5 msg].

Lemma sha256_streaming_witness :
  sha256_pieces fips_pieces =
    [36; 141; 106; 97; 210; 6; 56; 184; 229; 192; 38; 147; 12; 62; 96; 57;
     163; 60; 228; 89; 100; 255; 33; 103; 246; 236; 237; 212; 25; 219; 6; 193].
Proof. rewrite (sha256_streaming fips_pieces); [vm_compute; reflexivity|]. vm_compute. reflexivity. Defined.
