(* ===== verification/Keygen.v ===== *)
(** * Key generation of the BLS library

    src/src/blst/src/keygen.c: HMAC and HKDF over SHA-256, the derivation of secret keys
    of the BLS signature draft in the three versions the library keeps, and the key tree
    of EIP-2333.  The code reuses one context, its hash values of the two pads and its
    buffer of 64 bytes for everything; the references are the textbook definitions. *)

From stdpp Require Import prelude list strings.
From Stdlib Require Import ZArith Lia.
From S2P Require Import Prelude Serialize Limbs Scalar Sha256.

Open Scope Z_scope.

Module Keygen.

Definition bytes_of_string (s : string) : list Z :=
  map (fun c => Z.of_nat (Ascii.nat_of_ascii c)) (String.list_ascii_of_string s).

(** ** HMAC *)

Record HMAC_SHA256_CTX := mkHMAC {
  hm_ctx : SHA256_CTX;
  h_ipad : list Z;
  h_opad : list Z;
  hm_tail : list Z;
}.

Definition xor_all (c : Z) (l : list Z) : list Z := map (fun x => Z.lxor x c) l.

Definition HMAC_init (ctx : HMAC_SHA256_CTX) (K : option (list Z)) : HMAC_SHA256_CTX :=
  match K with
  | None => mkHMAC (mkCTX (h_ipad ctx) 64 zero_buf 0) (h_ipad ctx) (h_opad ctx) (hm_tail ctx)
  | Some K =>
      let tail := if (64 <? length K)%nat
                  then sha256_bcopy zero_buf 0 (sha256_final (sha256_update sha256_init K))
                  else sha256_bcopy zero_buf 0 K in
      let tail := xor_all 0x36 tail in
      let c := sha256_update sha256_init tail in
      let tail := xor_all (Z.lxor 0x36 0x5c) tail in
      let h_opad := sha256_block_data_order sha256_init_h tail 1 in
      mkHMAC c (ctx_h c) h_opad (<[63%nat := 0]> (<[62%nat := 3]> (<[32%nat := 0x80]> zero_buf)))
  end.

Definition HMAC_update (ctx : HMAC_SHA256_CTX) (inp : list Z) : HMAC_SHA256_CTX :=
  mkHMAC (sha256_update (hm_ctx ctx) inp) (h_ipad ctx) (h_opad ctx) (hm_tail ctx).

(** The digest, and the context after it: the tail keeps the inner digest. *)
Definition HMAC_final (ctx : HMAC_SHA256_CTX) : list Z * HMAC_SHA256_CTX :=
  let tail := sha256_bcopy (hm_tail ctx) 0 (sha256_final (hm_ctx ctx)) in
  let h := sha256_block_data_order (h_opad ctx) tail 1 in
  (sha256_emit h,
   mkHMAC (mkCTX h (ctx_N (hm_ctx ctx)) (ctx_buf (hm_ctx ctx)) (ctx_off (hm_ctx ctx))) (h_ipad ctx) (h_opad ctx) tail).

(** [HMAC_final(ctx->tail.c, ctx)]: the digest goes to the tail of the context. *)
Definition HMAC_final_tail (ctx : HMAC_SHA256_CTX) : HMAC_SHA256_CTX :=
  let '(md, ctx) := HMAC_final ctx in
  mkHMAC (hm_ctx ctx) (h_ipad ctx) (h_opad ctx) (sha256_bcopy (hm_tail ctx) 0 md).

(** ** HKDF *)

Definition HKDF_Extract (salt : option (list Z)) (IKM : list Z) (IKM_fixup : bool) (ctx : HMAC_SHA256_CTX)
    : list Z * HMAC_SHA256_CTX :=
  let ctx := HMAC_init ctx (Some (default [] salt)) in
  let ctx := HMAC_update ctx IKM in
  let ctx := if IKM_fixup then HMAC_update ctx [0] else ctx in
  HMAC_final ctx.

(** [while (L > 32)]: the output so far comes first. *)
Fixpoint expand_loop (fuel : nat) (OKM : list Z) (L : nat) (info : list Z) (counter : Z) (ctx : HMAC_SHA256_CTX)
    : list Z * HMAC_SHA256_CTX :=
  match fuel with
  | O => (OKM, ctx)
  | S fuel =>
      if (32 <? L)%nat then
        let OKM := OKM ++ take 32 (hm_tail ctx) in
        let counter := u8 (counter + 1) in
        let ctx := HMAC_init ctx None in
        let ctx := HMAC_update ctx (take 32 (hm_tail ctx)) in
        let ctx := HMAC_update ctx (info ++ [counter]) in
        expand_loop fuel OKM (L - 32) info counter (HMAC_final_tail ctx)
      else (OKM ++ take L (hm_tail ctx), ctx)
  end.

Definition HKDF_Expand (L : nat) (PRK info : list Z) (info_fixup : bool) (ctx : HMAC_SHA256_CTX)
    : list Z * HMAC_SHA256_CTX :=
  let ctx := HMAC_init ctx (Some PRK) in
  let info_prime := if info_fixup then info ++ [u8 (Z.shiftr (Z.of_nat L) 8); u8 (Z.of_nat L)] else info in
  let ctx := HMAC_update ctx (info_prime ++ [1]) in
  let ctx := HMAC_final_tail ctx in
  expand_loop (S L) [] L info_prime 1 ctx.

(** ** Secret keys *)

Section Keys.
Context (w : Z).
#[local] Abbreviation NLIMBS := (Scalar.NLIMBS w).

(** [OS2IP(OKM) mod r] *)
Definition key_of_okm (OKM : list Z) : list Z :=
  let key := Limbs.limbs_from_be_bytes w (zeros (NLIMBS 512)) OKM in
  let key := Scalar.redc_mont_256 w key in
  Scalar.mul_mont_sparse_256 w key (Scalar.BLS12_381_rRR w).

(** The [while (1)] of [keygen]; [None] is no result within the fuel. *)
Fixpoint keygen_loop (fuel : nat) (IKM salt info : list Z) (version : Z) (ctx : HMAC_SHA256_CTX) : option (list Z) :=
  match fuel with
  | O => None
  | S fuel =>
      let '(PRK, ctx) := HKDF_Extract (Some salt) IKM true ctx in
      let '(OKM, ctx) := HKDF_Expand 48 PRK info true ctx in
      let key := key_of_okm OKM in
      if (version <? 4) || (Limbs.vec_is_zero w key =? 0)
      then Some (Limbs.le_bytes_from_limbs w key 32)
      else keygen_loop fuel IKM (sha256_final (sha256_update sha256_init salt)) info version ctx
  end.

Definition salt_prime : list Z := bytes_of_string "BLS-SIG-KEYGEN-SALT-".

(** [mem]: what the stack held. *)
Definition keygen (mem : HMAC_SHA256_CTX) (fuel : nat) (IKM : list Z) (salt info : option (list Z)) (version : Z)
    : option (list Z) :=
  if (length IKM <? 32)%nat || ((4 <? version) && bool_decide (salt = None)) then Some (replicate 32 0)
  else
    let info := default [] info in
    let salt := default salt_prime salt in
    let salt := if version =? 4 then sha256_final (sha256_update sha256_init salt) else salt in
    keygen_loop fuel IKM salt info version mem.

Definition blst_keygen mem fuel IKM info := keygen mem fuel IKM None (Some info) 4.
Definition blst_keygen_v3 mem fuel IKM info := keygen mem fuel IKM None (Some info) 3.
Definition blst_keygen_v4_5 mem fuel IKM salt info := keygen mem fuel IKM (Some salt) (Some info) 4.
Definition blst_keygen_v5 mem fuel IKM salt info := keygen mem fuel IKM (Some salt) (Some info) 5.
Definition blst_derive_master_eip2333 mem fuel seed := keygen mem fuel seed None None 4.

(** ** The key tree *)

Fixpoint chunks32 (n : nat) (l : list Z) : list (list Z) :=
  match n with
  | O => []
  | S n => take 32 l :: chunks32 n (drop 32 l)
  end.

(** The digest of one 32-byte string in a prepared buffer. *)
Definition lamport_block (x : list Z) : list Z :=
  let buf := <[63%nat := 0]> (<[62%nat := 1]> (<[32%nat := 0x80]> zero_buf)) in
  sha256_emit (sha256_block_data_order sha256_init_h (sha256_bcopy buf 0 x) 1).

Definition lamport_half (mem : HMAC_SHA256_CTX) (salt IKM : list Z) : list Z * HMAC_SHA256_CTX :=
  let '(PRK, ctx) := HKDF_Extract (Some salt) IKM false mem in
  let '(lamport, ctx) := HKDF_Expand (255 * 32) PRK [] false ctx in
  (concat (map lamport_block (chunks32 255 lamport)), ctx).

Definition parent_SK_to_lamport_PK (mem : HMAC_SHA256_CTX) (parent_SK : list Z) (index : Z) : list Z :=
  let salt := tobe32 index in
  let IKM := reverse parent_SK in
  let '(lamport, ctx) := lamport_half mem salt IKM in
  let ret := sha256_update sha256_init lamport in
  let IKM := map (fun x => u8 (Z.lnot x)) IKM in
  let '(lamport, ctx) := lamport_half ctx salt IKM in
  sha256_final (sha256_update ret lamport).

Definition blst_derive_child_eip2333 (mem : HMAC_SHA256_CTX) (fuel : nat) (parent_SK : list Z) (child_index : Z)
    : option (list Z) :=
  keygen mem fuel (parent_SK_to_lamport_PK mem parent_SK child_index) None None 4.
End Keys.

(** ** References *)

(** RFC 2104: the key padded, or hashed and padded, to one block. *)
Definition hmac_key (K : list Z) : list Z :=
  let K := if (64 <? length K)%nat then sha256 K else K in
  K ++ replicate (64 - length K) 0.

Definition hmac (K m : list Z) : list Z :=
  sha256 (xor_all 0x5c (hmac_key K) ++ sha256 (xor_all 0x36 (hmac_key K) ++ m)).

(** RFC 5869: the blocks [T(i)], [T(i+1)], ... after the block [prev]. *)
Fixpoint hkdf_blocks (n : nat) (i : Z) (PRK prev info : list Z) : list Z :=
  match n with
  | O => []
  | S n => let T := hmac PRK (prev ++ info ++ [i]) in T ++ hkdf_blocks n (i + 1) PRK T info
  end.

Definition hkdf_expand (L : nat) (PRK info : list Z) : list Z :=
  take L (hkdf_blocks (S ((L - 1) / 32)) 1 PRK [] info).

Definition I2OSP2 (n : nat) : list Z := [Z.of_nat n / 256 mod 256; Z.of_nat n mod 256].

(** KeyGen of the BLS signature draft: extract, expand to 48 bytes, reduce; again with the
    hashed salt if the key is zero (from version 4 of the draft on). *)
Definition keygen_okm (IKM salt info : list Z) : Z :=
  be_value (hkdf_expand 48 (hmac salt (IKM ++ [0])) (info ++ I2OSP2 48)).

Fixpoint keygen_ref (fuel : nat) (IKM salt info : list Z) (version : Z) : option Z :=
  match fuel with
  | O => None
  | S fuel =>
      let key := keygen_okm IKM salt info mod Scalar.group_order in
      if (version <? 4) || negb (key =? 0) then Some key
      else keygen_ref fuel IKM (sha256 salt) info version
  end.

(** ** HMAC contexts *)

Lemma xor_xor c d l : xor_all d (xor_all c l) = xor_all (Z.lxor c d) l.
Proof. unfold xor_all. rewrite map_map. apply map_ext. intros x. by rewrite Z.lxor_assoc. Qed.

Lemma length_xor_all c l : length (xor_all c l) = length l.
Proof. apply length_map. Qed.

Lemma length_hmac_key K : length (hmac_key K) = 64%nat.
Proof.
  unfold hmac_key. rewrite length_app, length_replicate.
  destruct (Nat.ltb_spec 64 (length K)) as [H|H]; [rewrite (proj2 (sha256_ok K))|]; lia.
Qed.

Lemma hash_once m : Z.of_nat (length m) < 2 ^ 61 -> sha256_final (sha256_update sha256_init m) = sha256 m.
Proof. intros H. apply final_absorbed; [|done]. by apply (update_absorbed _ []), absorbed_init. Qed.

Lemma bcopy_zero_buf src : (length src <= 64)%nat -> sha256_bcopy zero_buf 0 src = src ++ replicate (64 - length src) 0.
Proof. intros H. by apply (bcopy_tail [] src 64). Qed.

Lemma bcopy_front (x src rest : list Z) : length x = length src -> sha256_bcopy (x ++ rest) 0 src = src ++ rest.
Proof. intros H. unfold sha256_bcopy. cbn [take]. rewrite Nat.add_0_l, <- H, drop_app_length. done. Qed.

Definition hmac_pad : list Z := 0x80 :: replicate 29 0 ++ [3; 0].

(** What the reusable part of a context holds for the key [K]. *)
Definition keyed (K : list Z) (ctx : HMAC_SHA256_CTX) : Prop :=
  h_ipad ctx = sha256_block_data_order sha256_init_h (xor_all 0x36 (hmac_key K)) 1 /\
  h_opad ctx = sha256_block_data_order sha256_init_h (xor_all 0x5c (hmac_key K)) 1 /\
  exists x, length x = 32%nat /\ hm_tail ctx = x ++ hmac_pad.

(** A context in the middle of a message. *)
Definition hashing (K m : list Z) (ctx : HMAC_SHA256_CTX) : Prop :=
  keyed K ctx /\ absorbed (hm_ctx ctx) (xor_all 0x36 (hmac_key K) ++ m).

Lemma init_hashing ctx K : Z.of_nat (length K) < 2 ^ 61 -> hashing K [] (HMAC_init ctx (Some K)).
Proof.
  intros HK. unfold HMAC_init.
  assert ((if (64 <? length K)%nat then sha256_bcopy zero_buf 0 (sha256_final (sha256_update sha256_init K))
           else sha256_bcopy zero_buf 0 K) = hmac_key K) as ->.
  { unfold hmac_key. destruct (Nat.ltb_spec 64 (length K)); [|by apply bcopy_zero_buf].
    rewrite hash_once by done. apply bcopy_zero_buf. rewrite (proj2 (sha256_ok K)). lia. }
  pose proof (length_hmac_key K) as Lk. rewrite xor_xor.
  set (ip := xor_all 0x36 (hmac_key K)). assert (length ip = 64%nat) as Li by (by unfold ip; rewrite length_xor_all).
  split; [split_and!|]; cbn [h_ipad h_opad hm_tail hm_ctx].
  - unfold sha256_update, update_direct. rewrite Li. cbn [ctx_off Nat.eqb negb andb].
    assert (drop (64 / 64 * 64) ip = []) as -> by (apply nil_length_inv; by rewrite length_drop, Li). done.
  - done.
  - exists (replicate 32 0). done.
  - rewrite app_nil_r. by apply (update_absorbed _ []), absorbed_init.
Qed.

Lemma reinit_hashing ctx K : keyed K ctx -> hashing K [] (HMAC_init ctx None).
Proof.
  intros (Hi & Ho & x & Hx & Ht). split; [by split_and!; [..|exists x]|].
  cbn [HMAC_init hm_ctx]. rewrite app_nil_r. exists 1%nat, (xor_all 0x36 (hmac_key K)), [].
  rewrite app_nil_r, length_xor_all, length_hmac_key. cbn [ctx_h ctx_N ctx_off ctx_buf]. split_and!; try done. cbn. lia.
Qed.

Lemma update_hashing ctx K m inp : hashing K m ctx -> hashing K (m ++ inp) (HMAC_update ctx inp).
Proof. intros [Hk Ha]. split; [done|]. rewrite app_assoc. by apply update_absorbed. Qed.

Lemma outer_hash (op d : list Z) : length op = 64%nat -> length d = 32%nat ->
  sha256_emit (sha256_block_data_order (sha256_block_data_order sha256_init_h op 1) (d ++ hmac_pad) 1) = sha256 (op ++ d).
Proof.
  intros Lo Ld. unfold sha256. rewrite length_app, Lo, Ld. rewrite <- app_assoc.
  change (sha_pad (64 + 32)) with hmac_pad. f_equal.
  assert (length (op ++ d ++ hmac_pad) / 64 = 1 + 1)%nat as -> by (by rewrite !length_app, Lo, Ld).
  by rewrite block_data_order_app.
Qed.

Lemma final_hashing ctx K m : hashing K m ctx -> Z.of_nat (length m) < 2 ^ 60 ->
  (HMAC_final ctx).1 = hmac K m /\ keyed K (HMAC_final ctx).2.
Proof.
  intros [(Hi & Ho & x & Hx & Ht) Ha] Hm. unfold HMAC_final. cbn [fst snd].
  pose proof (length_hmac_key K) as Lk.
  assert (sha256_final (hm_ctx ctx) = sha256 (xor_all 0x36 (hmac_key K) ++ m)) as ->.
  { apply final_absorbed; [done|]. rewrite length_app, length_xor_all, Lk.
    change (2 ^ 60) with 1152921504606846976 in Hm. change (2 ^ 61) with 2305843009213693952. lia. }
  set (d := sha256 _). assert (length d = 32%nat) as Ld by apply sha256_ok.
  assert (sha256_bcopy (hm_tail ctx) 0 d = d ++ hmac_pad) as ->.
  { rewrite Ht. apply bcopy_front. congruence. }
  rewrite Ho. split; [by rewrite outer_hash by (by rewrite ?length_xor_all)|].
  split_and!; cbn [h_ipad h_opad hm_tail]; [done|done|by exists d].
Qed.

Lemma length_hmac K m : length (hmac K m) = 32%nat.
Proof. apply sha256_ok. Qed.

Lemma final_tail_hashing ctx K m : hashing K m ctx -> Z.of_nat (length m) < 2 ^ 60 ->
  keyed K (HMAC_final_tail ctx) /\ hm_tail (HMAC_final_tail ctx) = hmac K m ++ hmac_pad.
Proof.
  intros H Hm. destruct (final_hashing ctx K m H Hm) as [Em Hk]. unfold HMAC_final_tail.
  destruct (HMAC_final ctx) as [md c]. cbn [fst snd] in *. subst md.
  destruct Hk as (Hi & Ho & x & Hx & Ht). pose proof (length_hmac K m) as Lh.
  assert (sha256_bcopy (hm_tail c) 0 (hmac K m) = hmac K m ++ hmac_pad) as E.
  { rewrite Ht. apply bcopy_front. congruence. }
  cbn [h_ipad h_opad hm_tail]. rewrite E. split; [|done]. split_and!; cbn [h_ipad h_opad hm_tail]; [done|done|by exists (hmac K m)].
Qed.

(** ** HKDF *)

Lemma extract_spec salt IKM (fix_ : bool) ctx : Z.of_nat (length (default [] salt)) < 2 ^ 61 -> Z.of_nat (length IKM) + 1 < 2 ^ 60 ->
  (HKDF_Extract salt IKM fix_ ctx).1 = hmac (default [] salt) (IKM ++ if fix_ then [0] else []).
Proof.
  intros Hs Hl. unfold HKDF_Extract. change (2 ^ 60) with 1152921504606846976 in *.
  pose proof (update_hashing _ _ _ IKM (init_hashing ctx _ Hs)) as H. cbn [app] in H. destruct fix_.
  - apply final_hashing; [by apply update_hashing|]. rewrite length_app. cbn [length]. change (2 ^ 60) with 1152921504606846976. lia.
  - rewrite app_nil_r. apply final_hashing; [done|]. change (2 ^ 60) with 1152921504606846976. lia.
Qed.

Lemma expand_loop_spec PRK info : Z.of_nat (length info) < 2 ^ 59 -> forall n fuel OKM L prev c ctx,
  (n < fuel)%nat -> (32 * n < L <= 32 * n + 32)%nat -> 0 <= c -> c + Z.of_nat n < 256 ->
  keyed PRK ctx -> length prev = 32%nat -> hm_tail ctx = prev ++ hmac_pad ->
  (expand_loop fuel OKM L info c ctx).1 = OKM ++ take L (prev ++ hkdf_blocks n (c + 1) PRK prev info).
Proof.
  intros Hinfo. change (2 ^ 59) with 576460752303423488 in Hinfo.
  induction n as [|n IH]; intros fuel OKM L prev c ctx Hf HL Hc Hcn Hk Hp Ht;
    (destruct fuel as [|fuel]; [lia|]); cbn [expand_loop hkdf_blocks].
  { destruct (Nat.ltb_spec 32 L); [lia|]. cbn [fst]. by rewrite Ht, app_nil_r, !take_app_le by lia. }
  destruct (Nat.ltb_spec 32 L); [|lia].
  assert (take 32 (hm_tail ctx) = prev) as Ep by (rewrite Ht, <- Hp; apply take_app_length).
  cbn [HMAC_init hm_tail]. rewrite Ep.
  assert (u8 (c + 1) = c + 1) as -> by (unfold u8; apply Z.mod_small; lia).
  pose proof (update_hashing _ _ _ (info ++ [c + 1]) (update_hashing _ _ _ prev (reinit_hashing ctx PRK Hk))) as Hh.
  cbn [app] in Hh.
  destruct (final_tail_hashing _ _ _ Hh) as [Hk' Ht'].
  { rewrite !length_app, Hp. cbn [length]. change (2 ^ 60) with 1152921504606846976. lia. }
  rewrite (IH fuel _ (L - 32)%nat (hmac PRK (prev ++ info ++ [c + 1])) (c + 1) _); [|lia|lia|lia|lia|done|apply length_hmac|done].
  rewrite <- app_assoc. f_equal. rewrite (take_app_ge prev) by lia. by rewrite Hp.
Qed.

Lemma expand_spec L PRK info (fix_ : bool) ctx : (0 < L <= 255 * 32)%nat -> length PRK = 32%nat -> Z.of_nat (length info) < 2 ^ 58 ->
  (HKDF_Expand L PRK info fix_ ctx).1 = hkdf_expand L PRK (info ++ if fix_ then I2OSP2 L else []).
Proof.
  intros HL HP Hi. unfold HKDF_Expand, hkdf_expand. change (2 ^ 58) with 288230376151711744 in *.
  assert ((if fix_ then info ++ [u8 (Z.shiftr (Z.of_nat L) 8); u8 (Z.of_nat L)] else info) =
          info ++ if fix_ then I2OSP2 L else []) as ->.
  { destruct fix_; [|by rewrite app_nil_r]. unfold I2OSP2, u8. by rewrite Z.shiftr_div_pow2 by lia. }
  set (info' := info ++ _). assert (Z.of_nat (length info') < 2 ^ 59) as Hi'.
  { subst info'. rewrite length_app. change (2 ^ 59) with 576460752303423488. destruct fix_; cbn; lia. }
  assert (Z.of_nat (length PRK) < 2 ^ 61) as HP' by (rewrite HP; done).
  pose proof (update_hashing _ _ _ (info' ++ [1]) (init_hashing ctx PRK HP')) as Hh. cbn [app] in Hh.
  destruct (final_tail_hashing _ _ _ Hh) as [Hk Ht].
  { rewrite length_app. cbn [length]. change (2 ^ 60) with 1152921504606846976. change (2 ^ 59) with 576460752303423488 in Hi'. lia. }
  pose proof (Nat.div_mod_eq (L - 1) 32) as D. pose proof (Nat.mod_upper_bound (L - 1) 32 ltac:(lia)) as B.
  rewrite (expand_loop_spec PRK info' Hi' ((L - 1) / 32) (S L) [] L (hmac PRK (info' ++ [1])) 1);
    [done|lia|lia|lia|lia|done|apply length_hmac|done].
Qed.

Lemma hkdf_blocks_ok n : forall i PRK prev info,
  Forall byte_ok (hkdf_blocks n i PRK prev info) /\ length (hkdf_blocks n i PRK prev info) = (32 * n)%nat.
Proof.
  induction n as [|n IH]; intros i PRK prev info; cbn [hkdf_blocks]; [done|].
  destruct (IH (i + 1) PRK (hmac PRK (prev ++ info ++ [i])) info) as [I1 I2].
  destruct (sha256_ok (xor_all 0x5c (hmac_key PRK) ++ sha256 (xor_all 0x36 (hmac_key PRK) ++ prev ++ info ++ [i]))) as [S1 S2].
  split; [by apply Forall_app|]. rewrite length_app, I2. unfold hmac. lia.
Qed.

Lemma hkdf_expand_ok L PRK info : (0 < L)%nat -> Forall byte_ok (hkdf_expand L PRK info) /\ length (hkdf_expand L PRK info) = L.
Proof.
  intros HL. unfold hkdf_expand. destruct (hkdf_blocks_ok (S ((L - 1) / 32)) 1 PRK [] info) as [H1 H2].
  split; [by apply Forall_take|]. rewrite length_take, H2.
  pose proof (Nat.div_mod_eq (L - 1) 32). pose proof (Nat.mod_upper_bound (L - 1) 32 ltac:(lia)). lia.
Qed.

(** ** Keys *)

Section KeyProofs.
Context (w : Z) (Hw : w = 32 \/ w = 64).

Lemma key_of_okm_spec OKM : Forall byte_ok OKM -> length OKM = 48%nat ->
  Scalar.fr w (key_of_okm w OKM) (be_value OKM).
Proof.
  intros Hb Hl. unfold key_of_okm. destruct (Scalar.r_facts w Hw) as (Vr & Lr & Hpw & H0 & _ & _ & _ & Hn), (Scalar.consts_ok w Hw) as [Or _],
    Scalar.order_facts as [Hr _].
  assert (Scalar.NLIMBS w 512 = Scalar.NLIMBS w 256 + Scalar.NLIMBS w 256)%nat as E2 by (by destruct Hw as [-> | ->]).
  assert (Scalar.BLS12_381_r w <> []) as Hne by (intros En; rewrite En in Vr; vm_compute in Vr; congruence).
  rewrite limbs_from_be_bytes_digits by (done || lia).
  pose proof (be_value_range OKM Hb) as R. rewrite Hl in R. change (256 ^ Z.of_nat 48) with (2 ^ 128 * 2 ^ 256) in R.
  assert (val w (digits w (Scalar.NLIMBS w 512) (be_value OKM)) = be_value OKM) as Ev.
  { apply (digits_small w Hw). rewrite E2, pw_add, Hpw by done. nia. }
  destruct (redc_mont_n_spec w Hw _ (Scalar.r0 w) Or Hne H0 (digits w (Scalar.NLIMBS w 512) (be_value OKM)))
    as (O & L & M & _); [apply (digits_ok w Hw)|rewrite length_digits; lia|rewrite Vr; lia|].
  fold (Scalar.redc_mont_256 w (digits w (Scalar.NLIMBS w 512) (be_value OKM))) in *. rewrite Vr, Lr, Hpw, Ev in *.
  destruct (Scalar.mul_rRR_spec w Hw _ O L) as (O1 & L1 & R1 & V1). split; [done|]. split; [done|]. split; [done|].
  by rewrite V1, M.
Qed.

(** A key is 32 bytes, whatever was hashed. *)
Lemma key_of_okm_pow256 OKM : Scalar.pow256 (le_bytes_from_limbs w (key_of_okm w OKM) 32).
Proof.
  destruct (Scalar.r_facts w Hw) as (_ & Lr & _ & _ & _ & _ & LR & _). apply (Scalar.limbs_pow256 w Hw). rewrite <- Lr.
  assert (Scalar.BLS12_381_rRR w <> []) as Hne by (clear -Hw; destruct Hw as [-> | ->]; vm_compute; congruence).
  apply length_mul_mont_n, length_redc_mont_n; [done|]. unfold limbs_from_be_bytes.
  rewrite length_store_be_bytes, Lr. unfold zeros. rewrite length_replicate. by destruct Hw as [-> | ->].
Qed.

Lemma keygen_pow256 mem fuel IKM salt info version SK : keygen w mem fuel IKM salt info version = Some SK -> Scalar.pow256 SK.
Proof.
  unfold keygen. destruct (_ || _); [intros [= <-]; exact (Scalar.pow256_bytes 0)|].
  generalize (if version =? 4 then sha256_final (sha256_update sha256_init (default salt_prime salt)) else default salt_prime salt).
  clear salt. revert mem. induction fuel as [|fuel IH]; intros mem salt; cbn [keygen_loop]; [done|].
  destruct (HKDF_Extract _ _ _ _) as [PRK c], (HKDF_Expand _ _ _ _ _) as [OKM c'].
  destruct (_ || _); [|apply IH]. intros [= <-]. apply key_of_okm_pow256.
Qed.

Lemma keygen_loop_spec IKM info version : Z.of_nat (length IKM) + 1 < 2 ^ 60 -> Z.of_nat (length info) < 2 ^ 58 ->
  forall fuel salt ctx, Z.of_nat (length salt) < 2 ^ 61 ->
  keygen_loop w fuel IKM salt info version ctx = le_bytes 32 <$> keygen_ref fuel IKM salt info version.
Proof.
  intros HI Hi. induction fuel as [|fuel IH]; intros salt ctx Hs; cbn [keygen_loop keygen_ref]; [done|].
  pose proof (extract_spec (Some salt) IKM true ctx Hs HI) as Ex. change (default [] (Some salt)) with salt in Ex.
  destruct (HKDF_Extract (Some salt) IKM true ctx) as [PRK c1]. cbn [fst] in Ex.
  pose proof (expand_spec 48 PRK info true c1 ltac:(lia) ltac:(rewrite Ex; apply length_hmac) Hi) as Eo.
  destruct (HKDF_Expand 48 PRK info true c1) as [OKM c2]. cbn [fst] in Eo.
  destruct (hkdf_expand_ok 48 PRK (info ++ I2OSP2 48) ltac:(lia)) as [Ob Ol]. rewrite <- Eo in Ob, Ol.
  pose proof (key_of_okm_spec OKM Ob Ol) as Hk. pose proof (Scalar.fr_val w _ _ Hk) as Vk.
  assert (keygen_okm IKM salt info = be_value OKM) as Ek by (unfold keygen_okm; rewrite Eo, Ex; done).
  rewrite (vec_is_zero_spec w Hw), Vk, Ek by apply Hk.
  assert (((if be_value OKM mod Scalar.group_order =? 0 then 1 else 0) =? 0) = negb (be_value OKM mod Scalar.group_order =? 0)) as ->
    by (by case_if).
  destruct ((version <? 4) || negb _).
  - cbn. by rewrite (Scalar.fr_bytes w Hw _ _ Hk).
  - rewrite hash_once by done. apply IH. by rewrite (proj2 (sha256_ok salt)).
Qed.

Lemma keygen_ref_range fuel IKM info version : forall salt k, keygen_ref fuel IKM salt info version = Some k ->
  0 <= k < Scalar.group_order /\ (4 <= version -> 0 < k).
Proof.
  destruct Scalar.order_facts as [Hr _].
  induction fuel as [|fuel IH]; intros salt k; cbn [keygen_ref]; [done|].
  pose proof (Z.mod_pos_bound (keygen_okm IKM salt info) Scalar.group_order ltac:(lia)) as R.
  destruct ((version <? 4) || _) eqn:E; [|apply IH]. intros [= <-]. split; [done|]. intros Hv.
  destruct (Z.ltb_spec version 4); [lia|]. rewrite orb_false_l, negb_true_iff, Z.eqb_neq in E. lia.
Qed.

Definition first_salt (salt : option (list Z)) (version : Z) : list Z :=
  if version =? 4 then sha256 (default salt_prime salt) else default salt_prime salt.

Lemma keygen_spec mem fuel IKM salt info version :
  (32 <= length IKM)%nat -> Z.of_nat (length IKM) + 1 < 2 ^ 60 -> Z.of_nat (length (default [] info)) < 2 ^ 58 ->
  Z.of_nat (length (default [] salt)) < 2 ^ 61 -> (4 < version -> salt <> None) ->
  keygen w mem fuel IKM salt info version =
  le_bytes 32 <$> keygen_ref fuel IKM (first_salt salt version) (default [] info) version.
Proof.
  intros H32 HI Hi Hs Hv. unfold keygen, first_salt.
  destruct (Nat.ltb_spec (length IKM) 32); [lia|]. cbn [orb].
  assert ((4 <? version) && bool_decide (salt = None) = false) as ->.
  { destruct (Z.ltb_spec 4 version); [|done]. cbn. apply bool_decide_eq_false. auto. }
  assert (Z.of_nat (length (default salt_prime salt)) < 2 ^ 61) as Hs' by (destruct salt; [done|vm_compute; done]).
  rewrite hash_once by done. apply keygen_loop_spec; [done|done|].
  destruct (version =? 4); [by rewrite (proj2 (sha256_ok _))|done].
Qed.
End KeyProofs.

(** ** The key tree *)

Lemma lamport_block_spec x : length x = 32%nat -> lamport_block x = sha256 x.
Proof.
  intros Lx. unfold lamport_block, sha256. rewrite Lx, length_app, Lx. f_equal.
  change ((32 + length (sha_pad 32)) / 64)%nat with 1%nat. f_equal.
  by apply (bcopy_front (replicate 32 0) x (sha_pad 32)).
Qed.

Lemma chunks32_length n : forall l, (32 * n <= length l)%nat -> Forall (fun c => length c = 32%nat) (chunks32 n l).
Proof.
  induction n as [|n IH]; intros l Hl; cbn [chunks32]; constructor.
  - rewrite length_take. lia.
  - apply IH. rewrite length_drop. lia.
Qed.

(** IKM_to_lamport_SK and the hashing of its 255 pieces. *)
Definition lamport_ref (salt IKM : list Z) : list Z :=
  concat (map sha256 (chunks32 255 (hkdf_expand (255 * 32) (hmac salt IKM) []))).

Lemma length_lamport_ref s i : length (lamport_ref s i) = (32 * 255)%nat.
Proof.
  unfold lamport_ref. generalize (hkdf_expand (255 * 32) (hmac s i) []) as l. generalize 255%nat as n.
  induction n as [|n IH]; intros l; [done|]. cbn [chunks32 map concat].
  rewrite length_app, IH, (proj2 (sha256_ok _)). lia.
Qed.

Lemma lamport_half_spec mem salt IKM : length salt = 4%nat -> length IKM = 32%nat ->
  (lamport_half mem salt IKM).1 = lamport_ref salt IKM.
Proof.
  intros Ls LI. unfold lamport_half, lamport_ref.
  pose proof (extract_spec (Some salt) IKM false mem ltac:(by cbn; rewrite Ls) ltac:(by rewrite LI)) as Ex.
  rewrite app_nil_r in Ex. change (default [] (Some salt)) with salt in Ex.
  destruct (HKDF_Extract (Some salt) IKM false mem) as [PRK c]. cbn [fst] in Ex.
  pose proof (expand_spec (255 * 32) PRK [] false c ltac:(lia) ltac:(rewrite Ex; apply length_hmac) ltac:(done)) as Eo.
  destruct (HKDF_Expand (255 * 32) PRK [] false c) as [OKM c']. cbn [fst app] in *. rewrite <- Ex, Eo. f_equal.
  pose proof (chunks32_length 255 (hkdf_expand (255 * 32) PRK [])) as Hc.
  rewrite (proj2 (hkdf_expand_ok (255 * 32) PRK [] ltac:(lia))) in Hc. specialize (Hc ltac:(lia)).
  revert Hc. generalize (chunks32 255 (hkdf_expand (255 * 32) PRK [])) as l. clear.
  induction 1 as [|x l Hx _ IH]; [done|]. cbn [map]. by rewrite IH, lamport_block_spec.
Qed.

(** ** The theorems *)

(** C15: Key generation is the KeyGen of the BLS signature draft: for either width of limbs and for
    whatever the scratch memory held, the key is the 48-byte HKDF output reduced modulo the group
    order, the salt being hashed first (version 4) and again after a zero key; a key returned by
    version 4 or later passes the key check. *)
Theorem keygen_refines_hkdf w mem fuel IKM salt info version :
  w = 32 \/ w = 64 -> (32 <= length IKM)%nat -> Z.of_nat (length IKM) + 1 < 2 ^ 60 ->
  Z.of_nat (length (default [] info)) < 2 ^ 58 -> Z.of_nat (length (default [] salt)) < 2 ^ 61 ->
  (4 < version -> salt <> None) ->
  keygen w mem fuel IKM salt info version =
    le_bytes 32 <$> keygen_ref fuel IKM (first_salt salt version) (default [] info) version /\
  (forall SK, 4 <= version -> keygen w mem fuel IKM salt info version = Some SK ->
     Scalar.pow256 SK /\ Scalar.blst_sk_check w SK = true).
Proof.
  intros Hw H32 HI Hi Hs Hv. pose proof (keygen_spec w Hw mem fuel IKM salt info version H32 HI Hi Hs Hv) as E.
  split; [done|]. intros SK H4 HS. rewrite E in HS. apply fmap_Some in HS as (k & Hk & ->).
  destruct (keygen_ref_range _ _ _ _ _ _ Hk) as [Hr H0]. destruct Scalar.order_facts as [Hg _].
  pose proof (Scalar.pow256_bytes k) as Hp. split; [done|].
  rewrite Scalar.sk_check_spec, le_value_bytes, Z.mod_small; [|change (256 ^ Z.of_nat 32) with (2 ^ 256); lia|done|done].
  apply andb_true_iff. split; apply Z.ltb_lt; [by apply H0|lia].
Qed.

Definition blank : HMAC_SHA256_CTX := mkHMAC sha256_init [] [] [].
Definition stars : list Z := replicate 32 42.

(** The key of 32 asterisks. *)
Definition stars_key : list Z := le_bytes 32 17036746501831500994723793235310815900793211543197991690819415749656319568254.

Lemma stars_okm : keygen_okm stars (first_salt None 4) [] mod Scalar.group_order =
  17036746501831500994723793235310815900793211543197991690819415749656319568254.
Proof. vm_cast_no_check (eq_refl 17036746501831500994723793235310815900793211543197991690819415749656319568254). Qed.

Lemma stars_keygen w mem fuel : w = 32 \/ w = 64 -> keygen w mem (S fuel) stars None (Some []) 4 = Some stars_key.
Proof.
  intros Hw. rewrite (keygen_spec w Hw); [|by vm_compute; lia|done|done|done|done].
  cbn [keygen_ref]. change (default [] (Some [])) with (@nil Z). rewrite stars_okm. done.
Qed.

Lemma keygen_refines_hkdf_witness : Scalar.blst_sk_check 64 stars_key = true.
Proof.
  apply (keygen_refines_hkdf 64 blank 1 stars None (Some []) 4); [by right|by vm_compute; lia|done|done|done|done|done|].
  apply stars_keygen. by right.
Defined.

(** Child keys are those of EIP-2333: the two Lamport keys of the parent and of its complement,
    each 255 hashed pieces, compressed to 32 bytes, are the seed; the parent bytes are taken most
    significant first. *)
Theorem child_key_refines_eip2333 w mem fuel parent_SK child_index :
  w = 32 \/ w = 64 -> Scalar.pow256 parent_SK ->
  blst_derive_child_eip2333 w mem fuel parent_SK child_index =
  le_bytes 32 <$> keygen_ref fuel
    (sha256 (lamport_ref (tobe32 child_index) (reverse parent_SK) ++
             lamport_ref (tobe32 child_index) (map (fun x => 255 - x) (reverse parent_SK))))
    (sha256 salt_prime) [] 4.
Proof.
  intros Hw [Hp Lp]. unfold blst_derive_child_eip2333.
  assert (parent_SK_to_lamport_PK mem parent_SK child_index =
          sha256 (lamport_ref (tobe32 child_index) (reverse parent_SK) ++
                  lamport_ref (tobe32 child_index) (map (fun x => 255 - x) (reverse parent_SK)))) as E.
  { unfold parent_SK_to_lamport_PK.
    assert (map (fun x => u8 (Z.lnot x)) (reverse parent_SK) = map (fun x => 255 - x) (reverse parent_SK)) as ->.
    { apply Forall_reverse in Hp. revert Hp. generalize (reverse parent_SK). induction 1 as [|x l Hx _ IH]; [done|].
      cbn [map]. f_equal; [|done]. unfold u8, byte_ok in *. rewrite <- (Z.add_0_r (Z.lnot x)).
      symmetry. apply (Z.mod_unique _ _ (-1)); [lia|]. pose proof (Z.add_lnot_diag x). lia. }
    assert (length (reverse parent_SK) = 32%nat) as Lr by (by rewrite length_reverse).
    pose proof (lamport_half_spec mem (tobe32 child_index) (reverse parent_SK) eq_refl Lr) as E1.
    destruct (lamport_half mem _ _) as [l1 c1]. cbn [fst] in E1.
    pose proof (lamport_half_spec c1 (tobe32 child_index) (map (fun x => 255 - x) (reverse parent_SK)) eq_refl
                  ltac:(by rewrite length_map)) as E2.
    destruct (lamport_half c1 _ _) as [l2 c2]. cbn [fst] in E2. rewrite <- E1, <- E2.
    apply final_absorbed; [apply update_absorbed, (update_absorbed _ []), absorbed_init|].
    rewrite length_app, E1, E2, !length_lamport_ref. vm_compute. done. }
  rewrite E. set (m := _ ++ _). apply keygen_spec; [done|rewrite (proj2 (sha256_ok m)); lia|by rewrite (proj2 (sha256_ok m))|done|done|done].
Qed.

Lemma child_key_refines_eip2333_witness : exists seed,
  blst_derive_child_eip2333 64 blank 1 (le_bytes 32 7) 0 = le_bytes 32 <$> keygen_ref 1 (sha256 seed) (sha256 salt_prime) [] 4.
Proof.
  eexists. apply (child_key_refines_eip2333 64 blank 1 (le_bytes 32 7) 0); [by right|apply Scalar.pow256_bytes].
Defined.

(** A seed shorter than 32 bytes is not refused: the key is zero, which the key check rejects. *)
Theorem short_seed_gives_zero_key w mem fuel IKM salt info version :
  w = 32 \/ w = 64 -> (length IKM < 32)%nat ->
  keygen w mem fuel IKM salt info version = Some (le_bytes 32 0) /\
  Scalar.blst_sk_check w (le_bytes 32 0) = false.
Proof.
  intros Hw Hl. unfold keygen. rewrite (proj2 (Nat.ltb_lt _ _)) by done. split; [done|].
  by rewrite Scalar.sk_check_spec by (done || apply Scalar.pow256_bytes).
Qed.

Lemma short_seed_gives_zero_key_witness : keygen 32 blank 0 [1; 2; 3] None None 4 = Some (le_bytes 32 0).
Proof. apply (short_seed_gives_zero_key 32); [by left|cbn; lia]. Defined.
End Keygen.
