(* ===== verification/HashToField.v ===== *)
(** * Hashing to the field

    [expand_message_xmd] and [hash_to_field] of src/src/blst/src/hash_to_field.c, the
    first half of hashing a message to a point: a message, an optional prefix and a
    domain separation tag become pseudo-random bytes, and these become numbers modulo
    the prime of the curve.  The code prepares one padded buffer, hashes it in place with
    the counter advanced and starts from a precomputed hash value; the reference is the
    text of RFC 9380. *)

From stdpp Require Import prelude list strings.
From Stdlib Require Import ZArith Lia.
From S2P Require Import Prelude Serialize Limbs Scalar Sha256 Keygen.

Open Scope Z_scope.

Module HashToField.
Import Keygen.

(** ** expand_message_xmd *)

(** The context after 64 zero bytes. *)
Definition sha256_init_Zpad : SHA256_CTX :=
  mkCTX [0xda5698be; 0x17b9b469; 0x62335799; 0x779fbeca; 0x8ce5d491; 0xc0d26243; 0xbafef9ea; 0x1837a9d8]
        64 zero_buf 0.

Definition vec_xor (a b : list Z) : list Z := zip_with Z.lxor a b.

(** A tag longer than 255 bytes is replaced by its hash. *)
Definition effective_DST (DST : list Z) : list Z :=
  if (255 <? length DST)%nat
  then sha256_final (sha256_update (sha256_update sha256_init (bytes_of_string "H2C-OVERSIZE-DST-")) DST)
  else DST.

Definition b_i_blocks (DST_len : nat) : nat := ((33 + DST_len + 1 + 9 + 63) / 64 * 64)%nat.

(** The buffer for [strxor(b_0, b_(i-1)) || I2OSP(i, 1) || DST_prime] with its padding;
    [mem] is what the stack held. *)
Definition b_i_template (mem DST : list Z) : list Z :=
  let n := length DST in
  let blocks := b_i_blocks n in
  let b := sha256_bcopy mem (blocks - 64) (replicate 64 0) in
  let b := sha256_bcopy b 33 (DST ++ [u8 (Z.of_nat n); 0x80] ++ replicate 7 0) in
  let bits := Z.of_nat (33 + n + 1) * 8 in
  sha256_bcopy b (blocks - 2) [u8 (Z.shiftr bits 8); u8 bits].

(** [++b_i.c[32]] and the hash of the buffer *)
Definition next_block (blocks : nat) (b : list Z) : list Z * list Z :=
  let b := <[32%nat := u8 (nth 32 b 0 + 1)]> b in
  (sha256_emit (sha256_block_data_order sha256_init_h b (blocks / 64)), b).

(** [while (--len_in_bytes)] *)
Fixpoint xmd_loop (n : nat) (blocks : nat) (b_0 prev b : list Z) : list Z :=
  match n with
  | O => []
  | S n =>
      let b := sha256_bcopy b 0 (vec_xor b_0 prev) in
      let '(bytes, b) := next_block blocks b in
      bytes ++ xmd_loop n blocks b_0 bytes b
  end.

(** The bytes written, a multiple of 32; [None]: no bytes are asked for and the loop
    counter wraps, running past the buffer. *)
Definition expand_message_xmd (mem : list Z) (len_in_bytes : nat) (aug msg DST : list Z) : option (list Z) :=
  let DST := effective_DST DST in
  let n := length DST in
  let blocks := b_i_blocks n in
  let b := b_i_template mem DST in
  let ctx := sha256_update (sha256_update sha256_init_Zpad aug) msg in
  let b := <[32%nat := 0]> (<[31%nat := u8 (Z.of_nat len_in_bytes)]>
             (<[30%nat := u8 (Z.shiftr (Z.of_nat len_in_bytes) 8)]> b)) in
  let b_0 := sha256_final (sha256_update ctx (take (3 + n + 1) (drop 30 b))) in
  let b := sha256_bcopy b 0 b_0 in
  let '(bytes, b) := next_block blocks b in
  let ell := ((len_in_bytes + 31) / 32)%nat in
  if (ell =? 0)%nat then None else Some (bytes ++ xmd_loop (ell - 1) blocks b_0 bytes b).

(** The exported function: nothing is written for more than 255 blocks. *)
Definition blst_expand_message_xmd (mem bytes : list Z) (len_in_bytes : nat) (msg DST : list Z) : option (list Z) :=
  let buf_len := ((len_in_bytes + 31) / 32 * 32)%nat in
  if (255 * 32 <? buf_len)%nat then Some bytes
  else take len_in_bytes <$> expand_message_xmd mem len_in_bytes [] msg DST.

(** ** hash_to_field *)

Section Field.
Context (w : Z).

Definition BLS12_381_P : list Z :=
  concat (map (Scalar.TO_LIMB_T w) [0xb9feffffffffaaab; 0x1eabfffeb153ffff; 0x6730d2a0f6b0f624;
                                    0x64774b84f38512bf; 0x4b1ba7b6434bacd7; 0x1a0111ea397fe69a]).
Definition p0 : Z := Limbs.limb w 0x89f3fffcfffcfffd.
Definition BLS12_381_RRRR : list Z :=
  concat (map (Scalar.TO_LIMB_T w) [0xed48ac6bd94ca1e0; 0x315f831e03a7adf8; 0x9a53352a615e29dd;
                                    0x34c04e5e921e1761; 0x2512d43565724728; 0x0aa6346091755d4d]).

Fixpoint elems_loop (nelems : nat) (elem bytes : list Z) : list (list Z) :=
  match nelems with
  | O => []
  | S nelems =>
      let elem := Limbs.limbs_from_be_bytes w elem (take 64 bytes) in
      let e := Limbs.redc_mont_n w elem BLS12_381_P p0 in
      let e := Limbs.mul_mont_n w e BLS12_381_RRRR BLS12_381_P p0 in
      e :: elems_loop nelems elem (drop 64 bytes)
  end.

Definition hash_to_field (mem : list Z) (nelems : nat) (aug msg DST : list Z) : option (list (list Z)) :=
  pseudo_random ← expand_message_xmd mem (64 * nelems) aug msg DST;
  Some (elems_loop nelems (zeros (Scalar.NLIMBS w 768)) pseudo_random).
End Field.

(** ** The reference: RFC 9380, section 5.3.1 *)

Definition DST_prime (DST : list Z) : list Z :=
  let DST := if (255 <? length DST)%nat then sha256 (bytes_of_string "H2C-OVERSIZE-DST-" ++ DST) else DST in
  DST ++ [Z.of_nat (length DST)].

(** [b_i, b_(i+1), ...] after the block [prev] *)
Fixpoint xmd_blocks (n : nat) (i : Z) (b_0 prev dst : list Z) : list Z :=
  match n with
  | O => []
  | S n => let b := sha256 (vec_xor b_0 prev ++ [i] ++ dst) in b ++ xmd_blocks n (i + 1) b_0 b dst
  end.

Definition xmd_ref (len : nat) (msg dst : list Z) : list Z :=
  let b_0 := sha256 (replicate 64 0 ++ msg ++ I2OSP2 len ++ [0] ++ dst) in
  let b_1 := sha256 (b_0 ++ [1] ++ dst) in
  b_1 ++ xmd_blocks ((len + 31) / 32 - 1) 2 b_0 b_1 dst.

(** ** The prepared buffer *)

Lemma length_bcopy buf n src : (n + length src <= length buf)%nat -> length (sha256_bcopy buf n src) = length buf.
Proof. intros H. unfold sha256_bcopy. rewrite !length_app, length_take, length_drop. lia. Qed.

Lemma bcopy_take buf n src : (n + length src <= length buf)%nat ->
  take (n + length src) (sha256_bcopy buf n src) = take n buf ++ src.
Proof.
  intros H. unfold sha256_bcopy. rewrite app_assoc.
  assert (length (take n buf ++ src) = (n + length src)%nat) as L by (rewrite length_app, length_take; lia).
  rewrite <- L. apply take_app_length.
Qed.

Lemma bcopy_drop buf n src : (n + length src <= length buf)%nat ->
  drop n (sha256_bcopy buf n src) = src ++ drop (n + length src) buf.
Proof.
  intros H. unfold sha256_bcopy. assert (length (take n buf) = n) as L by (rewrite length_take; lia).
  rewrite <- L at 1. apply drop_app_length.
Qed.

Lemma blocks_bounds n : (n <= 255)%nat -> (43 + n <= b_i_blocks n <= 106 + n)%nat /\ (64 <= b_i_blocks n <= 320)%nat /\
  exists k, b_i_blocks n = (64 * k)%nat /\ (b_i_blocks n / 64 = k)%nat.
Proof.
  intros Hn. unfold b_i_blocks. pose proof (Nat.div_mod_eq (33 + n + 1 + 9 + 63) 64) as D.
  pose proof (Nat.mod_upper_bound (33 + n + 1 + 9 + 63) 64 ltac:(lia)) as B.
  assert ((33 + n + 1 + 9 + 63) / 64 < 6)%nat by (apply Nat.Div0.div_lt_upper_bound; lia).
  split; [lia|]. split; [lia|]. exists ((33 + n + 1 + 9 + 63) / 64)%nat. split; [lia|]. by rewrite Nat.div_mul.
Qed.

Lemma pad_of_template n : (n <= 255)%nat ->
  sha_pad (34 + n) = 0x80 :: replicate (b_i_blocks n - 37 - n) 0 ++
    [u8 (Z.shiftr (Z.of_nat (33 + n + 1) * 8) 8); u8 (Z.of_nat (33 + n + 1) * 8)].
Proof.
  intros Hn. unfold sha_pad. set (bits := 8 * Z.of_nat (34 + n)).
  assert (Z.of_nat (33 + n + 1) * 8 = bits) as -> by lia.
  assert (0 <= bits < 65536) as Hb by lia.
  assert (forall k, 16 <= k -> Z.shiftr bits k = 0) as Hs.
  { intros k Hk. rewrite Z.shiftr_div_pow2 by lia. apply Z.div_small. split; [lia|].
    apply (Z.lt_le_trans _ (2 ^ 16)); [change (2 ^ 16) with 65536; lia|apply Z.pow_le_mono_r; lia]. }
  rewrite (Hs 32) by lia. change (u32 0) with 0.
  rewrite u32_id by (unfold in_u32; lia).
  assert (tobe32 bits = [0; 0; u8 (Z.shiftr bits 8); u8 bits]) as ->.
  { unfold tobe32. by rewrite (Hs 24), (Hs 16) by lia. }
  f_equal. change (tobe32 0 ++ [0; 0; u8 (Z.shiftr bits 8); u8 bits]) with (replicate 6 0 ++ [u8 (Z.shiftr bits 8); u8 bits]).
  rewrite app_assoc, <- replicate_add. do 2 f_equal.
  destruct (blocks_bounds n Hn) as (B1 & B2 & k & Ek & _).
  pose proof (Nat.div_mod_eq (34 + n) 64) as D. pose proof (Nat.mod_upper_bound (34 + n) 64 ltac:(lia)) as B.
  assert ((119 - (34 + n) mod 64) mod 64 = if ((34 + n) mod 64 <? 56)%nat then 55 - (34 + n) mod 64 else 119 - (34 + n) mod 64)%nat as ->.
  { destruct (Nat.ltb_spec ((34 + n) mod 64) 56); [|apply Nat.mod_small; lia].
    replace (119 - (34 + n) mod 64)%nat with (55 - (34 + n) mod 64 + 1 * 64)%nat by lia.
    rewrite Nat.Div0.mod_add. apply Nat.mod_small. lia. }
  destruct (Nat.ltb_spec ((34 + n) mod 64) 56); lia.
Qed.

Definition template_tail (DST : list Z) : list Z :=
  DST ++ [Z.of_nat (length DST)] ++ sha_pad (34 + length DST).

Lemma template_spec mem DST : length mem = 320%nat -> (length DST <= 255)%nat ->
  length (b_i_template mem DST) = 320%nat /\
  drop 33 (take (b_i_blocks (length DST)) (b_i_template mem DST)) = template_tail DST.
Proof.
  intros Hm Hn. set (n := length DST) in *. destruct (blocks_bounds n Hn) as (B1 & B2 & _).
  unfold b_i_template. fold n. set (b1 := sha256_bcopy mem _ _).
  assert (length b1 = 320%nat) as L1 by (subst b1; rewrite length_bcopy; [done|rewrite length_replicate; lia]).
  assert (u8 (Z.of_nat n) = Z.of_nat n) as Eu by (unfold u8; apply Z.mod_small; lia). rewrite Eu.
  set (src := DST ++ [Z.of_nat n; 128] ++ replicate 7 0).
  assert (length src = (n + 9)%nat) as Ls by (subst src; rewrite length_app; cbn; lia).
  set (b2 := sha256_bcopy b1 33 src).
  assert (length b2 = 320%nat) as L2 by (subst b2; rewrite length_bcopy; lia).
  set (lenb := [_; _]). assert (length lenb = 2%nat) as Ll by done.
  split; [rewrite length_bcopy; lia|].
  replace (b_i_blocks n) with (b_i_blocks n - 2 + length lenb)%nat at 1 by lia.
  rewrite bcopy_take by lia. rewrite drop_app_le by (rewrite length_take; lia).
  rewrite skipn_firstn_comm. subst b2. rewrite bcopy_drop, Ls by lia.
  assert (drop (33 + (n + 9)) b1 = replicate (b_i_blocks n - 42 - n) 0 ++ drop (b_i_blocks n) mem) as ->.
  { subst b1. unfold sha256_bcopy. rewrite drop_app_ge by (rewrite length_take; lia).
    rewrite length_take, drop_app_le by (rewrite length_replicate; lia). rewrite drop_replicate, length_replicate.
    f_equal; f_equal; lia. }
  subst src. unfold template_tail. fold n. rewrite (pad_of_template n Hn). fold lenb. clearbody lenb b1.
  set (m := (b_i_blocks n - 37 - n)%nat).
  assert (forall rest, take (b_i_blocks n - 2 - 33) ((DST ++ [Z.of_nat n; 128] ++ replicate 7 0) ++ replicate (b_i_blocks n - 42 - n) 0 ++ rest)
          = DST ++ [Z.of_nat n; 128] ++ replicate m 0) as E.
  { intros rest. replace (b_i_blocks n - 2 - 33)%nat with (n + (2 + m))%nat by lia.
    rewrite <- !app_assoc. unfold n at 1. rewrite take_app_add. f_equal. cbn [app take Nat.add]. do 2 f_equal.
    rewrite app_assoc, <- replicate_add.
    rewrite take_app_le by (rewrite length_replicate; lia). rewrite take_replicate. f_equal. lia. }
  rewrite E, <- !app_assoc. done.
Qed.

(** The buffer: 33 bytes [x], then the tag, its length and the padding. *)
Definition buf_is (x DST b : list Z) : Prop :=
  length x = 33%nat /\ exists y, b = x ++ template_tail DST ++ y.

Lemma length_template_tail DST : (length DST <= 255)%nat -> (33 + length (template_tail DST) = b_i_blocks (length DST))%nat.
Proof.
  intros Hn. destruct (blocks_bounds _ Hn) as (B1 & B2 & _). unfold template_tail.
  rewrite pad_of_template by done. rewrite !length_app. cbn [length]. rewrite length_app, length_replicate. cbn [length]. lia.
Qed.

Lemma template_buf mem DST : length mem = 320%nat -> (length DST <= 255)%nat -> exists x, buf_is x DST (b_i_template mem DST).
Proof.
  intros Hm Hn. destruct (template_spec mem DST Hm Hn) as [L E]. destruct (blocks_bounds _ Hn) as (B1 & B2 & _).
  set (b := b_i_template mem DST) in *. exists (take 33 b). split; [rewrite length_take; lia|].
  exists (drop (b_i_blocks (length DST)) b). rewrite <- E, app_assoc.
  replace (take 33 b) with (take 33 (take (b_i_blocks (length DST)) b)) by (rewrite take_take; f_equal; lia).
  by rewrite !take_drop.
Qed.

Lemma buf_insert x DST b i v : (i < 33)%nat -> buf_is x DST b -> buf_is (<[i := v]> x) DST (<[i := v]> b).
Proof.
  intros Hi (Lx & y & ->). split; [by rewrite length_insert|]. exists y. apply insert_app_l. lia.
Qed.

Lemma buf_front x DST b src : length src = 32%nat -> buf_is x DST b ->
  buf_is (src ++ [nth 32 x 0]) DST (sha256_bcopy b 0 src).
Proof.
  intros Ls (Lx & y & ->). split; [rewrite length_app; cbn; lia|]. exists y.
  assert (x = take 32 x ++ [nth 32 x 0]) as Ex.
  { rewrite <- (take_drop 32 x) at 1. f_equal. destruct (drop 32 x) as [|c [|]] eqn:E.
    - apply (f_equal length) in E. rewrite length_drop, Lx in E. done.
    - assert (x !! 32%nat = Some c) as Ec by (by rewrite <- (Nat.add_0_r 32), <- lookup_drop, E).
      apply nth_lookup_Some with (d := 0) in Ec. by rewrite Ec.
    - apply (f_equal length) in E. rewrite length_drop, Lx in E. done. }
  rewrite Ex at 1. rewrite <- !app_assoc. apply bcopy_front. rewrite length_take. lia.
Qed.

Lemma buf_hash x DST b : (length DST <= 255)%nat -> buf_is x DST b ->
  sha256_emit (sha256_block_data_order sha256_init_h b (b_i_blocks (length DST) / 64)) =
  sha256 (x ++ DST ++ [Z.of_nat (length DST)]).
Proof.
  intros Hn (Lx & y & ->). destruct (blocks_bounds _ Hn) as (_ & _ & k & Ek & Ek').
  pose proof (length_template_tail DST Hn) as Lt. unfold sha256. rewrite Ek'.
  assert (length (x ++ DST ++ [Z.of_nat (length DST)]) = 34 + length DST)%nat as Lm.
  { rewrite !length_app, Lx. cbn. lia. }
  rewrite Lm.
  assert ((x ++ DST ++ [Z.of_nat (length DST)]) ++ sha_pad (34 + length DST) = x ++ template_tail DST) as ->.
  { unfold template_tail. by rewrite <- !app_assoc. }
  assert (length (x ++ template_tail DST) = 64 * k)%nat as Lb by (rewrite length_app, Lx; lia).
  rewrite Lb, (Nat.mul_comm 64 k), Nat.div_mul by lia. f_equal.
  rewrite app_assoc. pose proof (block_data_order_app sha256_init_h (x ++ template_tail DST) y k 0 Lb) as E.
  rewrite Nat.add_0_r in E. exact E.
Qed.

Lemma nth_snoc (src : list Z) c n : length src = n -> nth n (src ++ [c]) 0 = c.
Proof. intros <-. rewrite app_nth2 by lia. by rewrite Nat.sub_diag. Qed.

(** One block: the counter goes up and the buffer is hashed. *)
Lemma next_block_spec src c DST b : (length DST <= 255)%nat -> length src = 32%nat -> 0 <= c < 255 ->
  buf_is (src ++ [c]) DST b ->
  (next_block (b_i_blocks (length DST)) b).1 = sha256 (src ++ [c + 1] ++ DST ++ [Z.of_nat (length DST)]) /\
  buf_is (src ++ [c + 1]) DST (next_block (b_i_blocks (length DST)) b).2.
Proof.
  intros Hn Ls Hc Hb. unfold next_block. cbn [fst snd].
  assert (nth 32 b 0 = c) as ->.
  { destruct Hb as (_ & y & ->). rewrite app_nth1 by (rewrite length_app; cbn; lia). by apply nth_snoc. }
  assert (u8 (c + 1) = c + 1) as -> by (unfold u8; apply Z.mod_small; lia).
  pose proof (buf_insert _ _ _ 32%nat (c + 1) ltac:(lia) Hb) as Hb'.
  assert (<[32%nat := c + 1]> (src ++ [c]) = src ++ [c + 1]) as E.
  { rewrite insert_app_r_alt by lia. by rewrite Ls. }
  rewrite E in Hb'. split; [|done]. rewrite (buf_hash _ _ _ Hn Hb'). by rewrite <- app_assoc.
Qed.

Lemma xmd_loop_spec DST b_0 : (length DST <= 255)%nat -> length b_0 = 32%nat ->
  forall n prev c b x, length prev = 32%nat -> 0 <= c -> c + Z.of_nat n < 256 -> length x = 32%nat ->
  buf_is (x ++ [c]) DST b ->
  xmd_loop n (b_i_blocks (length DST)) b_0 prev b = xmd_blocks n (c + 1) b_0 prev (DST ++ [Z.of_nat (length DST)]).
Proof.
  intros Hn L0. induction n as [|n IH]; intros prev c b x Lp Hc Hcn Lx Hb; cbn [xmd_loop xmd_blocks]; [done|].
  assert (length (vec_xor b_0 prev) = 32%nat) as Lv by (unfold vec_xor; rewrite length_zip_with; lia).
  pose proof (buf_front _ _ _ _ Lv Hb) as Hb1. rewrite nth_snoc in Hb1 by done.
  destruct (next_block_spec (vec_xor b_0 prev) c DST _ Hn Lv ltac:(lia) Hb1) as [E1 E2].
  destruct (next_block _ _) as [bytes b']. cbn [fst snd] in *. rewrite E1. f_equal.
  apply (IH _ _ _ (vec_xor b_0 prev)); [apply sha256_ok|lia|lia|done|done].
Qed.

Lemma Zpad_absorbed : absorbed sha256_init_Zpad (replicate 64 0).
Proof.
  exists 1%nat, (replicate 64 0), []. split_and!; try done; [cbn; lia].
Qed.

Lemma effective_DST_ok DST : Z.of_nat (length DST) < 2 ^ 60 ->
  (length (effective_DST DST) <= 255)%nat /\
  DST_prime DST = effective_DST DST ++ [Z.of_nat (length (effective_DST DST))].
Proof.
  intros Hl. unfold DST_prime, effective_DST. destruct (Nat.ltb_spec 255 (length DST)); [|done].
  assert (sha256_final (sha256_update (sha256_update sha256_init (bytes_of_string "H2C-OVERSIZE-DST-")) DST) =
          sha256 (bytes_of_string "H2C-OVERSIZE-DST-" ++ DST)) as ->.
  { apply (final_absorbed _ (bytes_of_string "H2C-OVERSIZE-DST-" ++ DST)).
    - apply update_absorbed, (update_absorbed _ []), absorbed_init.
    - rewrite length_app. change (length (bytes_of_string "H2C-OVERSIZE-DST-")) with 17%nat.
      change (2 ^ 60) with 1152921504606846976 in Hl. change (2 ^ 61) with 2305843009213693952. lia. }
  rewrite (proj2 (sha256_ok _)). split; [lia|done].
Qed.

Lemma xmd_spec mem len aug msg DST :
  length mem = 320%nat -> (0 < len <= 255 * 32)%nat ->
  Z.of_nat (length DST) < 2 ^ 60 -> Z.of_nat (length aug + length msg) < 2 ^ 60 ->
  expand_message_xmd mem len aug msg DST = Some (xmd_ref len (aug ++ msg) (DST_prime DST)).
Proof.
  intros Hm Hlen HD Ham. unfold expand_message_xmd, xmd_ref.
  destruct (effective_DST_ok DST HD) as [Hn ->]. set (D := effective_DST DST) in *.
  destruct (template_buf mem D Hm Hn) as [x Hb].
  apply (buf_insert _ _ _ 30%nat (u8 (Z.shiftr (Z.of_nat len) 8)) ltac:(lia)) in Hb.
  apply (buf_insert _ _ _ 31%nat (u8 (Z.of_nat len)) ltac:(lia)) in Hb.
  apply (buf_insert _ _ _ 32%nat 0 ltac:(lia)) in Hb.
  match type of Hb with buf_is ?x1 _ ?b1 => set (x' := x1) in *; set (b := b1) in * end.
  assert (exists x0, length x0 = 30%nat /\ x' = x0 ++ I2OSP2 len ++ [0]) as (x0 & L0 & Ex).
  { destruct Hb as [Lx _]. subst x'. rewrite !length_insert in Lx. exists (take 30 x). split; [rewrite length_take; lia|].
    rewrite <- (take_drop 30 x) at 1. destruct (drop 30 x) as [|a0 [|a1 [|a2 [|]]]] eqn:E;
      try (apply (f_equal length) in E; rewrite length_drop, Lx in E; done).
    assert (length (take 30 x) = 30%nat) as Lt by (rewrite length_take; lia).
    rewrite !insert_app_r_alt by (rewrite ?length_app; lia). rewrite Lt. f_equal. cbn. unfold I2OSP2, u8.
    by rewrite Z.shiftr_div_pow2 by lia. }
  assert (take (3 + length D + 1) (drop 30 b) = I2OSP2 len ++ [0] ++ D ++ [Z.of_nat (length D)]) as ->.
  { destruct Hb as (_ & y & Eb). rewrite Eb, Ex. rewrite <- !app_assoc. rewrite <- L0, drop_app_length.
    unfold template_tail. rewrite <- !app_assoc. rewrite !app_assoc. rewrite take_app_le.
    - rewrite take_app_le; [|rewrite !length_app; cbn; lia]. rewrite take_ge; [done|]. rewrite !length_app. cbn. lia.
    - rewrite !length_app. cbn. lia. }
  assert (sha256_final (sha256_update (sha256_update (sha256_update sha256_init_Zpad aug) msg)
            (I2OSP2 len ++ [0] ++ D ++ [Z.of_nat (length D)])) =
          sha256 (replicate 64 0 ++ (aug ++ msg) ++ I2OSP2 len ++ [0] ++ D ++ [Z.of_nat (length D)])) as ->.
  { rewrite (app_assoc _ (aug ++ msg)), (app_assoc _ aug). apply final_absorbed.
    - apply update_absorbed, update_absorbed, update_absorbed, Zpad_absorbed.
    - rewrite !length_app, length_replicate. cbn [length I2OSP2]. change (2 ^ 60) with 1152921504606846976 in Ham.
      change (2 ^ 61) with 2305843009213693952. lia. }
  set (b_0 := sha256 _). assert (length b_0 = 32%nat) as Lb0 by apply sha256_ok.
  pose proof (buf_front _ _ _ b_0 Lb0 Hb) as Hb1.
  assert (nth 32 x' 0 = 0) as Ez by (rewrite Ex, app_assoc; apply nth_snoc; rewrite length_app; cbn; lia).
  rewrite Ez in Hb1.
  destruct (next_block_spec b_0 0 D _ Hn Lb0 ltac:(lia) Hb1) as [E1 E2]. change (0 + 1) with 1 in *.
  destruct (next_block _ _) as [bytes b']. cbn [fst snd] in *. rewrite E1.
  pose proof (Nat.div_mod_eq (len + 31) 32) as Dv. pose proof (Nat.mod_upper_bound (len + 31) 32 ltac:(lia)) as Bv.
  destruct (Nat.eqb_spec ((len + 31) / 32) 0); [lia|]. do 2 f_equal.
  apply (xmd_loop_spec D b_0 Hn Lb0 _ _ 1 _ b_0); [apply sha256_ok|lia|lia|done|done].
Qed.

(** ** Numbers modulo the prime of the curve *)

Definition curve_prime : Z := 4002409555221667393417789825735904156556882819939007885332058136124031650490837864442687629129015664037894272559787.

(** The curve parameter [z]; the comments of consts.c. *)
Definition curve_z : Z := - 0xd201000000010000.

Section FieldProofs.
Context (w : Z) (Hw : w = 32 \/ w = 64).

Lemma P_facts :
  val w (BLS12_381_P w) = curve_prime /\ length (BLS12_381_P w) = Scalar.NLIMBS w 384 /\
  pw w (Scalar.NLIMBS w 384) = 2 ^ 384 /\
  (p0 w * hd 0 (BLS12_381_P w) + 1) mod 2 ^ w = 0 /\
  (2 ^ w + 1) * curve_prime <= 2 ^ w * 2 ^ 384 /\
  val w (BLS12_381_RRRR w) = 2 ^ 1152 mod curve_prime /\ length (BLS12_381_RRRR w) = Scalar.NLIMBS w 384 /\
  (Scalar.NLIMBS w 768 = Scalar.NLIMBS w 384 + Scalar.NLIMBS w 384)%nat /\
  (Scalar.NLIMBS w 768 * limb_bytes w = 96)%nat.
Proof. destruct Hw as [-> | ->]; split_and!; try apply Z.leb_le; vm_compute; reflexivity. Qed.

Lemma P_consts_ok : limbs_ok w (BLS12_381_P w) /\ limbs_ok w (BLS12_381_RRRR w).
Proof.
  assert (forall l, forallb (fun x => (0 <=? x) && (x <? 2 ^ w)) l = true -> limbs_ok w l) as K.
  { intros l Hl. apply Forall_forall. intros x Hx. rewrite forallb_forall in Hl.
    apply list_elem_of_In in Hx. specialize (Hl x Hx). bool_to_prop. unfold limb_ok. lia. }
  split; apply K; clear K; destruct Hw as [-> | ->]; vm_compute; reflexivity.
Qed.

Lemma prime_facts : 0 < curve_prime < 2 ^ 384 /\
  (2 ^ 384 * 3231460744492646417066832100176244795738767926513225105051837195607029917124509527734802654356338138714468589979680) mod curve_prime = 1.
Proof. split_and!; try apply Z.ltb_lt; vm_compute; reflexivity. Qed.

Lemma cancel_radix_P x y : (x * 2 ^ 384) mod curve_prime = (y * 2 ^ 384) mod curve_prime ->
  x mod curve_prime = y mod curve_prime.
Proof.
  destruct prime_facts as [Hr Hi]. set (ri := 3231460744492646417066832100176244795738767926513225105051837195607029917124509527734802654356338138714468589979680) in Hi.
  intros E. assert (forall z, z mod curve_prime = ((z * 2 ^ 384) mod curve_prime * ri) mod curve_prime) as K.
  { intros z. rewrite Z.mul_mod_idemp_l, <- Z.mul_assoc, <- Z.mul_mod_idemp_r, Hi, Z.mul_1_r by lia. done. }
  by rewrite (K x), (K y), E.
Qed.

Lemma elem_spec V : 0 <= V < 2 ^ 512 ->
  computes w (BLS12_381_P w)
    (Limbs.mul_mont_n w (Limbs.redc_mont_n w (digits w (Scalar.NLIMBS w 768) V) (BLS12_381_P w) (p0 w))
       (BLS12_381_RRRR w) (BLS12_381_P w) (p0 w)) (V * 2 ^ 384).
Proof.
  intros HV. destruct P_facts as (VP & LP & Hpw & H0 & Ht & VR & LR & E2 & _), P_consts_ok as [OP OR], prime_facts as [Hp _].
  assert (BLS12_381_P w <> []) as Hne by (intros En; rewrite En in VP; vm_compute in VP; congruence).
  assert (2 ^ 512 < curve_prime * 2 ^ 384) as Hbig by (apply Z.ltb_lt; vm_compute; reflexivity).
  assert (val w (digits w (Scalar.NLIMBS w 768) V) = V) as Ev.
  { apply (digits_small w Hw). rewrite E2, pw_add, Hpw by done. nia. }
  destruct (redc_mont_n_spec w Hw _ (p0 w) OP Hne H0 (digits w (Scalar.NLIMBS w 768) V)) as (O & L & M & R);
    [apply (digits_ok w Hw)|rewrite length_digits; lia|rewrite VP; lia|].
  set (e := Limbs.redc_mont_n w _ _ _) in *. rewrite VP, LP, Hpw, Ev in *. specialize (R ltac:(lia)).
  destruct (mul_mont_computes w Hw (BLS12_381_P w) OP ltac:(rewrite VP; lia) (p0 w) H0 ltac:(by rewrite VP, LP, Hpw)
              e (BLS12_381_RRRR w)) as [Hr Hm]; [split_and!; [done|congruence|rewrite VP; lia]|done|congruence|].
  split; [done|]. rewrite VP in *. rewrite LP, Hpw, VR in Hm.
  destruct Hr as (Or & _ & Vr). pose proof (val_range w Hw _ Or). rewrite VP in Vr.
  rewrite <- (Z.mod_small (val w _) curve_prime) by lia. apply cancel_radix_P. rewrite Hm, Z.mul_mod_idemp_r by lia.
  change (2 ^ 1152) with (2 ^ 384 * (2 ^ 384 * 2 ^ 384)). rewrite Z.mul_assoc, <- Z.mul_mod_idemp_l, M, Z.mul_mod_idemp_l by lia.
  f_equal. lia.
Qed.

Lemma elems_loop_spec n : forall elem bytes, Forall byte_ok bytes -> length bytes = (64 * n)%nat ->
  length elem = Scalar.NLIMBS w 768 ->
  (forall q, (q < Scalar.NLIMBS w 768)%nat -> (64 <= q * limb_bytes w)%nat -> elem !! q = Some 0) ->
  Forall2 (fun e i => computes w (BLS12_381_P w) e (be_value (take 64 (drop (64 * i) bytes)) * 2 ^ 384))
    (elems_loop w n elem bytes) (seq 0 n).
Proof.
  destruct P_facts as (_ & _ & Hpw & _ & _ & _ & _ & _ & H96).
  induction n as [|n IH]; intros elem bytes Hb Hl Le Hz; cbn [elems_loop seq]; [constructor|].
  assert (length (take 64 bytes) = 64%nat) as Lt by (rewrite length_take; lia).
  assert (Forall byte_ok (take 64 bytes)) as Bt by (by apply Forall_take).
  rewrite (limbs_from_be_bytes_over w Hw (Scalar.NLIMBS w 768)) by (done || (rewrite Lt; lia || done)).
  pose proof (be_value_range _ Bt) as R. rewrite Lt in R. change (256 ^ Z.of_nat 64) with (2 ^ 512) in R.
  constructor; [rewrite Nat.mul_0_r, drop_0; by apply elem_spec|].
  rewrite <- fmap_S_seq, Forall2_fmap_r.
  eapply Forall2_impl; [apply (IH (digits w (Scalar.NLIMBS w 768) (be_value (take 64 bytes))) (drop 64 bytes))|].
  - by apply Forall_drop.
  - rewrite length_drop. lia.
  - apply length_digits.
  - intros q Hq H64. rewrite lookup_digits by done. f_equal. rewrite Z.div_small; [apply Z.mod_0_l; pose proof (base_facts w Hw); lia|].
    rewrite (pw_bytes w Hw). split; [lia|]. eapply Z.lt_le_trans; [apply R|]. change (2 ^ 512) with (256 ^ 64). apply Z.pow_le_mono_r; lia.
  - intros e i H. cbv beta in H. rewrite drop_drop in H. unfold compose. by replace (64 * S i)%nat with (64 + 64 * i)%nat by lia.
Qed.
End FieldProofs.

Lemma xmd_blocks_ok n : forall i b_0 prev dst,
  Forall byte_ok (xmd_blocks n i b_0 prev dst) /\ length (xmd_blocks n i b_0 prev dst) = (32 * n)%nat.
Proof.
  induction n as [|n IH]; intros i b_0 prev dst; cbn [xmd_blocks]; [done|].
  destruct (sha256_ok (vec_xor b_0 prev ++ [i] ++ dst)) as [S1 S2].
  destruct (IH (i + 1) b_0 (sha256 (vec_xor b_0 prev ++ [i] ++ dst)) dst) as [I1 I2].
  split; [by apply Forall_app|]. rewrite length_app, I2, S2. lia.
Qed.

Lemma xmd_ref_ok len msg dst : (0 < len)%nat ->
  Forall byte_ok (xmd_ref len msg dst) /\ length (xmd_ref len msg dst) = (32 * ((len + 31) / 32))%nat.
Proof.
  intros Hl. unfold xmd_ref. cbv zeta. set (b_0 := sha256 (replicate 64 0 ++ _)). destruct (sha256_ok (b_0 ++ [1] ++ dst)) as [S1 S2].
  destruct (xmd_blocks_ok ((len + 31) / 32 - 1) 2 b_0 (sha256 (b_0 ++ [1] ++ dst)) dst) as [I1 I2].
  split; [by apply Forall_app|]. rewrite length_app, I2, S2.
  assert (1 <= (len + 31) / 32)%nat by (apply Nat.div_le_lower_bound; lia). lia.
Qed.

(** ** The theorems *)

(** C35: Message expansion is that of RFC 9380: for any prefix, message and tag, and whatever the
    stack held, the prepared buffer with its padding laid out once, the precomputed hash value of
    the zero block and the in-place counter give the blocks of the standard; tags over 255 bytes
    are hashed first. *)
Theorem expand_message_refines_rfc9380 mem len aug msg DST :
  length mem = 320%nat -> (0 < len <= 255 * 32)%nat ->
  Z.of_nat (length DST) < 2 ^ 60 -> Z.of_nat (length aug + length msg) < 2 ^ 60 ->
  expand_message_xmd mem len aug msg DST = Some (xmd_ref len (aug ++ msg) (DST_prime DST)).
Proof. apply xmd_spec. Qed.

Lemma expand_message_refines_rfc9380_witness :
  expand_message_xmd (replicate 320 99) 48 [] [1; 2; 3] (replicate 256 7) =
  Some (xmd_ref 48 [1; 2; 3] (DST_prime (replicate 256 7))).
Proof. apply (expand_message_refines_rfc9380 (replicate 320 99) 48 [] [1; 2; 3] (replicate 256 7)); [done|lia|done|done]. Defined.

(** The field elements a message is hashed to are the 64-byte blocks of its expansion, read most
    significant byte first and reduced modulo the prime, in Montgomery form, for either width of
    limbs; the prime and the group order are the polynomials of the curve parameter that the
    comments of the constants give. *)
Theorem hash_to_field_correct w mem nelems aug msg DST :
  w = 32 \/ w = 64 -> length mem = 320%nat -> (0 < nelems <= 127)%nat ->
  Z.of_nat (length DST) < 2 ^ 60 -> Z.of_nat (length aug + length msg) < 2 ^ 60 ->
  let bytes := xmd_ref (64 * nelems) (aug ++ msg) (DST_prime DST) in
  (exists elems, hash_to_field w mem nelems aug msg DST = Some elems /\
     Forall2 (fun e i => computes w (BLS12_381_P w) e (be_value (take 64 (drop (64 * i) bytes)) * 2 ^ 384))
       elems (seq 0 nelems)) /\
  3 * val w (BLS12_381_P w) = (curve_z - 1) ^ 2 * val w (Scalar.BLS12_381_r w) + 3 * curve_z /\
  val w (Scalar.BLS12_381_r w) = curve_z ^ 4 - curve_z ^ 2 + 1.
Proof.
  intros Hw Hm Hn HD Ham bytes. destruct (P_facts w Hw) as (-> & _). destruct (Scalar.r_facts w Hw) as (-> & _).
  split; [|split; vm_compute; reflexivity].
  unfold hash_to_field. rewrite (xmd_spec mem (64 * nelems) aug msg DST) by (done || lia). fold bytes. cbn [mbind option_bind].
  eexists. split; [done|].
  destruct (xmd_ref_ok (64 * nelems) (aug ++ msg) (DST_prime DST) ltac:(lia)) as [B L]. fold bytes in B, L.
  apply (elems_loop_spec w Hw); [done| |apply length_replicate|].
  - rewrite L. replace (64 * nelems + 31)%nat with (31 + (2 * nelems) * 32)%nat by lia. rewrite Nat.div_add by lia.
    change (31 / 32)%nat with 0%nat. lia.
  - intros q Hq _. unfold zeros. by apply lookup_replicate_2.
Qed.

Lemma hash_to_field_correct_witness :
  exists elems, hash_to_field 64 (replicate 320 0) 2 [] [97; 98; 99] [7] = Some elems /\ length elems = 2%nat.
Proof.
  destruct (hash_to_field_correct 64 (replicate 320 0) 2 [] [97; 98; 99] [7]) as [(elems & E & F) _];
    [by right|done|lia|done|done|].
  exists elems. split; [exact E|]. apply Forall2_length in F. exact F.
Defined.
End HashToField.
