(* ===== verification/Crypto.v ===== *)
(** * Keys, signatures and hashes

    The elliptic-curve keys of key.h and pubkey.h (over libsecp256k1) and the hash
    of hash.h, as the interface the managers use.  Hashes and key ids are numbers
    (see Serialize.v, [id_bytes]); a public key is its serialized bytes. *)

From stdpp Require Import base list.
From Stdlib Require Import ZArith Lia.
From S2P Require Import Prelude Serialize.

Open Scope Z_scope.

Class Crypto := {
  CKey : Type;
  GetPubKey : CKey -> list Z;
  (** [CPubKey::GetID]: RIPEMD160 of SHA256 of the key *)
  GetID : list Z -> N;
  (** [HashWriter::GetHash]: double SHA256 of the bytes written *)
  Hash256 : list Z -> N;
  (** [CKey::Sign]: [None] is failure *)
  SignHash : CKey -> N -> option (list Z);
  VerifyHash : list Z -> N -> list Z -> bool
}.

(** Signatures made with a key verify under its public key. *)
Class CryptoLaws (C : Crypto) : Prop :=
  sign_verify k h sig : SignHash k h = Some sig -> VerifyHash (GetPubKey k) h sig = true.

(** [CPubKey::GetLen]: the length announced by the first byte. *)
Definition GetLen (chHeader : Z) : Z :=
  if (chHeader =? 2) || (chHeader =? 3) then 33
  else if (chHeader =? 4) || (chHeader =? 6) || (chHeader =? 7) then 65
  else 0.

Definition PUBKEY_SIZE : Z := 65.

(** [CPubKey] in a stream: the length, then the bytes; a length that does not match
    the first byte, or that is too large, gives the invalid (empty) key. *)
Definition pubkey_bytes (pk : list Z) : list Z := WriteCompactSize (Z.of_nat (length pk)) ++ pk.

Definition pubkey_codec : codec (list Z) :=
  mkCodec pubkey_bytes
    (fun s : stream =>
       '(len, s) ← ReadCompactSize true s;
       '(l, s) ← read (Z.to_nat len) s;
       Some (if (len <=? PUBKEY_SIZE) && (len =? match l with [] => 0 | b :: _ => GetLen b end)
             then l else [], s))
    (fun pk => pk = [] \/ exists b l, pk = b :: l /\ Z.of_nat (length pk) = GetLen b).

#[export] Instance pubkey_roundtrip : RoundTrip pubkey_codec.
Proof.
  intros pk rest Hv. cbn [dec enc pubkey_codec valid] in *. unfold pubkey_bytes. rewrite <- app_assoc.
  assert (Z.of_nat (length pk) <= PUBKEY_SIZE /\
          Z.of_nat (length pk) = match pk with [] => 0 | b :: _ => GetLen b end) as [Hl Hh].
  { unfold PUBKEY_SIZE. destruct Hv as [->|(b & l & -> & Hb)]; [done|]. split; [|done].
    rewrite Hb. unfold GetLen. repeat case_match; lia. }
  rewrite ReadCompactSize_app by (unfold in_u64, MAX_SIZE, PUBKEY_SIZE in *; lia).
  cbn [mbind option_bind]. rewrite read_app by lia. cbn [mbind option_bind].
  rewrite <- Hh, Z.eqb_refl. by destruct (Z.leb_spec (Z.of_nat (length pk)) PUBKEY_SIZE); [|lia].
Qed.

(** A transparent instance: the "hash" is the message itself read as a number, a
    signature is the key followed by the hash. *)
Definition toy_crypto : Crypto := {|
  CKey := Z;
  GetPubKey := fun k => [k];
  GetID := fun pk => Z.to_N (le_value pk);
  Hash256 := fun l => Z.to_N (le_value (l ++ [1]));
  SignHash := fun k h => Some [k; Z.of_N h];
  VerifyHash := fun pk h sig => bool_decide (sig = pk ++ [Z.of_N h])
|}.

#[export] Instance toy_crypto_laws : CryptoLaws toy_crypto.
Proof. intros k h sig [= <-]. cbn. by apply bool_decide_eq_true_2. Qed.
