(* ===== verification/Merkle.v ===== *)
(** * Merkle trees

    src/src/consensus/merkle.cpp and src/src/merkleblock.cpp: the root of the transaction
    hashes of a block with the check for duplicated subtrees, the constant-space
    computation of a root and of the path of one leaf, and the partial trees sent to
    filtering clients, built and verified.  The theorems relate all of them to the levels
    of one tree: the constant-space root is the root, its path leads to the root, a
    partial tree gives back the matched hashes and the root, and hashes that neither
    collide nor are leaves at once pin down the transactions. *)

From stdpp Require Import prelude list.
From Stdlib Require Import ZArith Lia.
From S2P Require Import Prelude Serialize Crypto.

Open Scope Z_scope.

Module Merkle.

Section Trees.
Context {K : Crypto}.

(** [Hash(left, right)]: double SHA256 of the 64 bytes *)
Definition Hash (left right : N) : N := Hash256 (id_bytes 32 left ++ id_bytes 32 right).

(** ** The root (ComputeMerkleRoot) *)

(** some neighbours are the same *)
Fixpoint pairs_equal (hashes : list N) : bool :=
  match hashes with
  | a :: b :: hashes => (a =? b)%N || pairs_equal hashes
  | _ => false
  end.

(** [hashes.push_back(hashes.back())] on an odd number *)
Definition duplicate_last (hashes : list N) : list N :=
  if Nat.odd (length hashes) then hashes ++ [List.last hashes 0%N] else hashes.

(** [SHA256D64] over the neighbours *)
Fixpoint SHA256D64 (hashes : list N) : list N :=
  match hashes with
  | a :: b :: hashes => Hash a b :: SHA256D64 hashes
  | _ => []
  end.

(** One turn of the loop. *)
Definition next_level (hashes : list N) : list N := SHA256D64 (duplicate_last hashes).

Fixpoint merkle_loop (fuel : nat) (hashes : list N) (mutation : bool) : list N * bool :=
  match fuel with
  | O => (hashes, mutation)
  | S fuel =>
      if (1 <? length hashes)%nat
      then merkle_loop fuel (next_level hashes) (mutation || pairs_equal hashes)
      else (hashes, mutation)
  end.

(** The number of hashes is fuel enough: it falls with every turn. *)
Definition ComputeMerkleRoot (hashes : list N) : N * bool :=
  let '(hashes, mutation) := merkle_loop (length hashes) hashes false in
  (match hashes with [] => 0%N | h :: _ => h end, mutation).

(** ** Root and path in constant space (MerkleComputation) *)

(** [count & (1 << level)] *)
Definition bit (count : Z) (level : nat) : bool := Z.testbit count (Z.of_nat level).

(** The hash carried up, the levels, whether it depends on the wanted leaf; the path so far. *)
Record climb := mkClimb { c_h : N; c_level : nat; c_matchh : bool; c_path : list N; c_mutated : bool }.

(** One step up from a level that has a hash stored. *)
Definition climb_step (inner : list N) (matchlevel : Z) (c : climb) : climb :=
  let l := nth (c_level c) inner 0%N in
  let '(path, matchh) :=
    if c_matchh c then (c_path c ++ [l], true)
    else if matchlevel =? Z.of_nat (c_level c) then (c_path c ++ [c_h c], true)
    else (c_path c, false) in
  mkClimb (Hash l (c_h c)) (S (c_level c)) matchh path (c_mutated c || (l =? c_h c)%N).

(** [while (!(count & (1 << level)))] with a step in every turn; there are 32 levels. *)
Fixpoint climb_loop (fuel : nat) (count : Z) (inner : list N) (matchlevel : Z) (c : climb) : climb :=
  match fuel with
  | O => c
  | S fuel =>
      if bit count (c_level c) then c
      else climb_loop fuel count inner matchlevel (climb_step inner matchlevel c)
  end.

Record computation := mkComp { inner : list N; matchlevel : Z; path : list N; mutated : bool }.

(** One leaf: [count] is the number of leaves before it. *)
Definition add_leaf (leaf_pos : Z) (count : Z) (h : N) (s : computation) : computation :=
  let count' := u32 (count + 1) in
  let c := climb_loop 32 count' (inner s) (matchlevel s)
             (mkClimb h 0 (count =? leaf_pos) (path s) (mutated s)) in
  mkComp (<[c_level c := c_h c]> (inner s))
    (if c_matchh c then Z.of_nat (c_level c) else matchlevel s) (c_path c) (c_mutated c).

Fixpoint add_leaves (leaf_pos : Z) (count : Z) (leaves : list N) (s : computation) : Z * computation :=
  match leaves with
  | [] => (count, s)
  | h :: leaves => add_leaves leaf_pos (u32 (count + 1)) leaves (add_leaf leaf_pos count h s)
  end.

(** The lowest level with a hash. *)
Fixpoint lowest (fuel : nat) (count : Z) (level : nat) : nat :=
  match fuel with
  | O => level
  | S fuel => if bit count level then level else lowest fuel count (S level)
  end.

(** The sweep over the right edge: the hash combined with itself, then up again. *)
Fixpoint sweep (fuel : nat) (count : Z) (inner : list N) (matchlevel : Z) (c : climb) : climb :=
  match fuel with
  | O => c
  | S fuel =>
      if count =? u32 (Z.shiftl 1 (Z.of_nat (c_level c))) then c
      else
        let path := if c_matchh c then c_path c ++ [c_h c] else c_path c in
        let count := u32 (count + u32 (Z.shiftl 1 (Z.of_nat (c_level c)))) in
        let c' := climb_loop 32 count inner matchlevel
                    (mkClimb (Hash (c_h c) (c_h c)) (S (c_level c)) (c_matchh c) path (c_mutated c)) in
        sweep fuel count inner matchlevel (mkClimb (c_h c') (c_level c') (c_matchh c') (c_path c') (c_mutated c))
  end.

(** [mem] is what the array of 32 hashes held. *)
Definition MerkleComputation (mem : list N) (leaves : list N) (leaf_pos : Z) : N * bool * list N :=
  match leaves with
  | [] => (0%N, false, [])
  | _ =>
      let '(count, s) := add_leaves leaf_pos 0 leaves (mkComp mem (-1) [] false) in
      let level := lowest 32 count 0 in
      let c := sweep 32 count (inner s) (matchlevel s)
                 (mkClimb (nth level (inner s) 0%N) level (matchlevel s =? Z.of_nat level) (path s) (mutated s)) in
      (c_h c, mutated s, c_path c)
  end.

Definition ComputeMerklePath (mem leaves : list N) (position : Z) : list N := (MerkleComputation mem leaves position).2.

(** What a client does with a path: the bits of the position tell left from right. *)
Fixpoint ComputeMerkleRootFromBranch (hash : N) (vMerkleBranch : list N) (nIndex : Z) : N :=
  match vMerkleBranch with
  | [] => hash
  | s :: vMerkleBranch =>
      ComputeMerkleRootFromBranch (if Z.odd nIndex then Hash s hash else Hash hash s) vMerkleBranch (Z.shiftr nIndex 1)
  end.

(** ** Partial trees (CPartialMerkleTree) *)

Definition BitsToBytes (bits : list bool) : list Z :=
  foldl (fun ret p => alter (fun b => Z.lor b (Z.shiftl (if nth p bits false then 1 else 0) (Z.of_nat (p mod 8)))) (p / 8)%nat ret)
    (replicate ((length bits + 7) / 8) 0) (seq 0 (length bits)).

Definition BytesToBits (bytes : list Z) : list bool :=
  map (fun p => negb (Z.land (nth (p / 8) bytes 0) (Z.shiftl 1 (Z.of_nat (p mod 8))) =? 0)) (seq 0 (length bytes * 8)).

Record CPartialMerkleTree := mkPartial { nTransactions : Z; vBits : list bool; vHash : list N; fBad : bool }.

Definition CalcTreeWidth (nTransactions : Z) (height : nat) : Z :=
  Z.shiftr (u32 (nTransactions + Z.shiftl 1 (Z.of_nat height) - 1)) (Z.of_nat height).

(** [while (CalcTreeWidth(nHeight) > 1) nHeight++] *)
Fixpoint tree_height (fuel : nat) (nTransactions : Z) (nHeight : nat) : nat :=
  match fuel with
  | O => nHeight
  | S fuel => if 1 <? CalcTreeWidth nTransactions nHeight then tree_height fuel nTransactions (S nHeight) else nHeight
  end.

Fixpoint CalcHash (n : Z) (height : nat) (pos : Z) (vTxid : list N) : N :=
  match height with
  | O => nth (Z.to_nat pos) vTxid 0%N
  | S height =>
      let l := CalcHash n height (u32 (pos * 2)) vTxid in
      let r := if u32 (pos * 2 + 1) <? CalcTreeWidth n height then CalcHash n height (u32 (pos * 2 + 1)) vTxid else l in
      Hash l r
  end.

(** some leaf below the node is wanted *)
Definition parent_of_match (n : Z) (height : nat) (pos : Z) (vMatch : list bool) : bool :=
  existsb (fun b => b)
    (take (Z.to_nat (Z.min (u32 (Z.shiftl (pos + 1) (Z.of_nat height))) n - u32 (Z.shiftl pos (Z.of_nat height))))
       (drop (Z.to_nat (u32 (Z.shiftl pos (Z.of_nat height)))) vMatch)).

(** The flags and the hashes, in the order they are stored. *)
Fixpoint TraverseAndBuild (n : Z) (height : nat) (pos : Z) (vTxid : list N) (vMatch : list bool) : list bool * list N :=
  let fParentOfMatch := parent_of_match n height pos vMatch in
  match height with
  | O => ([fParentOfMatch], [CalcHash n 0 pos vTxid])
  | S height' =>
      if negb fParentOfMatch then ([fParentOfMatch], [CalcHash n height pos vTxid])
      else
        let '(b1, h1) := TraverseAndBuild n height' (u32 (pos * 2)) vTxid vMatch in
        let '(b2, h2) := if u32 (pos * 2 + 1) <? CalcTreeWidth n height'
                         then TraverseAndBuild n height' (u32 (pos * 2 + 1)) vTxid vMatch else ([], []) in
        (fParentOfMatch :: b1 ++ b2, h1 ++ h2)
  end.

Definition CPartialMerkleTree_new (vTxid : list N) (vMatch : list bool) : CPartialMerkleTree :=
  let n := u32 (Z.of_nat (length vTxid)) in
  let '(bits, hashes) := TraverseAndBuild n (tree_height 32 n 0) 0 vTxid vMatch in
  mkPartial n bits hashes false.

(** What is left to read, what was found, and whether something was wrong. *)
Record extraction := mkExtract { x_bits : list bool; x_hashes : list N; x_match : list N; x_index : list Z; x_bad : bool }.

Fixpoint TraverseAndExtract (n : Z) (height : nat) (pos : Z) (x : extraction) : N * extraction :=
  match x_bits x with
  | [] => (0%N, mkExtract (x_bits x) (x_hashes x) (x_match x) (x_index x) true)
  | fParentOfMatch :: bits =>
      let leaf :=
        match x_hashes x with
        | [] => (0%N, mkExtract bits (x_hashes x) (x_match x) (x_index x) true)
        | hash :: hashes =>
            if (height =? 0)%nat && fParentOfMatch
            then (hash, mkExtract bits hashes (x_match x ++ [hash]) (x_index x ++ [pos]) (x_bad x))
            else (hash, mkExtract bits hashes (x_match x) (x_index x) (x_bad x))
        end in
      match height with
      | O => leaf
      | S height' =>
          if negb fParentOfMatch then leaf
          else
            let '(l, x) := TraverseAndExtract n height' (u32 (pos * 2))
                             (mkExtract bits (x_hashes x) (x_match x) (x_index x) (x_bad x)) in
            if u32 (pos * 2 + 1) <? CalcTreeWidth n height' then
              let '(r, x) := TraverseAndExtract n height' (u32 (pos * 2 + 1)) x in
              (Hash l r, mkExtract (x_bits x) (x_hashes x) (x_match x) (x_index x) (x_bad x || (r =? l)%N))
            else (Hash l l, x)
      end
  end.

(** [dgpMaxBlockSize * WITNESS_SCALE_FACTOR / MIN_TRANSACTION_WEIGHT] *)
Definition max_transactions (dgpMaxBlockSize : Z) : Z := u32 (dgpMaxBlockSize * 4) / 240.

Definition ExtractMatches (dgpMaxBlockSize : Z) (t : CPartialMerkleTree) : N * list N * list Z :=
  if nTransactions t =? 0 then (0%N, [], [])
  else if max_transactions dgpMaxBlockSize <? nTransactions t then (0%N, [], [])
  else if nTransactions t <? Z.of_nat (length (vHash t)) then (0%N, [], [])
  else if (length (vBits t) <? length (vHash t))%nat then (0%N, [], [])
  else
    let '(root, x) := TraverseAndExtract (nTransactions t) (tree_height 32 (nTransactions t) 0) 0
                        (mkExtract (vBits t) (vHash t) [] [] (fBad t)) in
    let used := (length (vBits t) - length (x_bits x))%nat in
    if x_bad x then (0%N, x_match x, x_index x)
    else if negb ((used + 7) / 8 =? (length (vBits t) + 7) / 8)%nat then (0%N, x_match x, x_index x)
    else if negb (length (x_hashes x) =? 0)%nat then (0%N, x_match x, x_index x)
    else (root, x_match x, x_index x).

(** A tree written to a stream and read back: the flags travel in bytes. *)
Definition transmitted (t : CPartialMerkleTree) : CPartialMerkleTree :=
  mkPartial (nTransactions t) (BytesToBits (BitsToBytes (vBits t))) (vHash t) false.
End Trees.

(** ** The levels of the tree *)

Section Levels.
Context {K : Crypto}.

(** [n] leaves have [width n k] nodes at level [k]. *)
Definition width (n k : nat) : nat := ((n + 2 ^ k - 1) / 2 ^ k)%nat.

Fixpoint level (leaves : list N) (k : nat) : list N :=
  match k with
  | O => leaves
  | S k => next_level (level leaves k)
  end.

(** The node at a position of a level. *)
Definition node (leaves : list N) (k : nat) (p : Z) : N := nth (Z.to_nat p) (level leaves k) 0%N.

Lemma pow2_pos k : (0 < 2 ^ k)%nat.
Proof. pose proof (Nat.pow_nonzero 2 k). lia. Qed.

Lemma width_0 n : width n 0 = n.
Proof. unfold width. rewrite Nat.pow_0_r, Nat.div_1_r. lia. Qed.

Lemma width_S n k : width n (S k) = ((width n k + 1) / 2)%nat.
Proof.
  unfold width. rewrite Nat.pow_succ_r'. pose proof (pow2_pos k) as Hk.
  replace ((n + 2 ^ k - 1) / 2 ^ k + 1)%nat with ((n + 2 * 2 ^ k - 1) / 2 ^ k)%nat.
  - by rewrite Nat.Div0.div_div, Nat.mul_comm.
  - replace (n + 2 * 2 ^ k - 1)%nat with ((n + 2 ^ k - 1) + 1 * 2 ^ k)%nat by lia. by rewrite Nat.div_add by lia.
Qed.

Lemma pair_ind (P : list N -> Prop) : P [] -> (forall a, P [a]) -> (forall a b l, P l -> P (a :: b :: l)) -> forall l, P l.
Proof.
  intros H0 H1 H2 l. enough (P l /\ forall a, P (a :: l)) by tauto.
  induction l as [|b l [IH1 IH2]]; [done|]. split; [apply IH2|]. intros a. by apply H2.
Qed.

Lemma length_SHA256D64 l : length (SHA256D64 l) = (length l / 2)%nat.
Proof.
  induction l as [|a|a b l IH] using pair_ind; [done|done|]. cbn [SHA256D64 length]. rewrite IH.
  replace (S (S (length l))) with (length l + 1 * 2)%nat by lia. rewrite Nat.div_add by lia. lia.
Qed.

Lemma SHA256D64_nth l : forall p, (2 * p + 1 < length l)%nat ->
  nth p (SHA256D64 l) 0%N = Hash (nth (2 * p) l 0%N) (nth (2 * p + 1) l 0%N).
Proof.
  induction l as [|a|a b l IH] using pair_ind; intros p Hp; cbn [length] in Hp; [lia|lia|].
  destruct p as [|p]; [done|]. cbn [SHA256D64 nth]. rewrite IH by lia.
  replace (2 * S p)%nat with (S (S (2 * p))) by lia. by replace (S (S (2 * p)) + 1)%nat with (S (S (2 * p + 1))) by lia.
Qed.

Lemma length_duplicate_last l : length (duplicate_last l) = (2 * ((length l + 1) / 2))%nat.
Proof.
  unfold duplicate_last. pose proof (Nat.div_mod (length l) 2). pose proof (Nat.mod_upper_bound (length l) 2).
  pose proof (Nat.div_mod (length l + 1) 2). pose proof (Nat.mod_upper_bound (length l + 1) 2).
  destruct (Nat.odd (length l)) eqn:E.
  - apply Nat.odd_spec in E as [q Hq]. rewrite length_app. cbn [length]. lia.
  - rewrite <- Nat.negb_even, negb_false_iff in E. apply Nat.even_spec in E as [q Hq]. lia.
Qed.

Lemma length_next_level l : length (next_level l) = ((length l + 1) / 2)%nat.
Proof. unfold next_level. rewrite length_SHA256D64, length_duplicate_last, Nat.mul_comm, Nat.div_mul by lia. done. Qed.

Lemma length_level l k : length (level l k) = width (length l) k.
Proof. induction k as [|k IH]; [by rewrite width_0|]. cbn [level]. by rewrite length_next_level, IH, width_S. Qed.

Lemma last_nth (l : list N) d : List.last l d = nth (length l - 1) l d.
Proof.
  induction l as [|a [|b l] IH]; [done|done|]. change (List.last (a :: b :: l) d) with (List.last (b :: l) d).
  rewrite IH. cbn [length]. by replace (S (S (length l)) - 1)%nat with (S (S (length l) - 1)) by lia.
Qed.

(** A node is the hash of its two children, or of its child with itself. *)
(** The neighbours that are hashed together. *)
Lemma duplicate_nth l p : (p < length (next_level l))%nat -> (2 * p + 1 < length (duplicate_last l))%nat /\
  nth (2 * p) (duplicate_last l) 0%N = nth (2 * p) l 0%N /\
  nth (2 * p + 1) (duplicate_last l) 0%N = nth (if 2 * p + 1 <? length l then 2 * p + 1 else 2 * p)%nat l 0%N.
Proof.
  rewrite length_next_level. intros Hp. pose proof (length_duplicate_last l) as Hd. split; [lia|].
  unfold duplicate_last in *. destruct (Nat.odd (length l)) eqn:E.
  - apply Nat.odd_spec in E as [q Hq]. rewrite length_app in Hd. cbn [length] in Hd.
    destruct (Nat.ltb_spec (2 * p + 1) (length l)) as [H|H].
    + by rewrite !app_nth1 by lia.
    + rewrite app_nth1, app_nth2 by lia. replace (2 * p + 1 - length l)%nat with 0%nat by lia. cbn [nth].
      rewrite last_nth. by replace (length l - 1)%nat with (2 * p)%nat by lia.
  - rewrite <- Nat.negb_even, negb_false_iff in E. apply Nat.even_spec in E as [q Hq].
    by rewrite (proj2 (Nat.ltb_lt _ _)) by lia.
Qed.

Lemma next_level_nth l p : (p < length (next_level l))%nat ->
  nth p (next_level l) 0%N =
  Hash (nth (2 * p) l 0%N) (nth (if 2 * p + 1 <? length l then 2 * p + 1 else 2 * p)%nat l 0%N).
Proof. intros Hp. destruct (duplicate_nth l p Hp) as (H & E1 & E2). unfold next_level. by rewrite SHA256D64_nth, E1, E2 by done. Qed.

Lemma node_S l k p : 0 <= p < Z.of_nat (width (length l) (S k)) ->
  node l (S k) p = Hash (node l k (2 * p)) (node l k (if 2 * p + 1 <? Z.of_nat (width (length l) k) then 2 * p + 1 else 2 * p)).
Proof.
  intros Hp. unfold node. change (level l (S k)) with (next_level (level l k)).
  rewrite next_level_nth by (change (next_level (level l k)) with (level l (S k)); rewrite length_level; lia).
  rewrite length_level. replace (2 * Z.to_nat p)%nat with (Z.to_nat (2 * p)) by lia.
  replace (Z.to_nat (2 * p) + 1)%nat with (Z.to_nat (2 * p + 1)) by lia.
  destruct (Nat.ltb_spec (Z.to_nat (2 * p + 1)) (width (length l) k)), (Z.ltb_spec (2 * p + 1) (Z.of_nat (width (length l) k)));
    done || lia.
Qed.
End Levels.

Section Root.
Context {K : Crypto}.

Definition height (n : nat) : nat := Nat.log2_up n.

Lemma width_le n k m : (width n k <= m <-> n <= m * 2 ^ k)%nat.
Proof.
  unfold width. pose proof (pow2_pos k) as Hk. split; intros H.
  - pose proof (Nat.div_mod (n + 2 ^ k - 1) (2 ^ k)) as E. pose proof (Nat.mod_upper_bound (n + 2 ^ k - 1) (2 ^ k)) as B. nia.
  - apply Nat.lt_succ_r, Nat.Div0.div_lt_upper_bound. nia.
Qed.

Lemma width_gt_1 n k : (1 < width n k <-> k < height n)%nat.
Proof.
  destruct (Nat.le_gt_cases n 1) as [Hn|Hn].
  - assert (height n = 0)%nat as -> by (destruct n as [|[|n]]; [done|done|lia]).
    pose proof (proj2 (width_le n k 1)) as H. pose proof (pow2_pos k). nia.
  - unfold height. pose proof (Nat.log2_up_le_pow2 n k ltac:(lia)) as E. pose proof (width_le n k 1). rewrite Nat.mul_1_l in *. lia.
Qed.

Lemma width_top n : (0 < n)%nat -> width n (height n) = 1%nat.
Proof.
  intros Hn. pose proof (width_gt_1 n (height n)). pose proof (width_le n (height n) 0). nia.
Qed.

(** Two equal neighbours at some level below the top. *)
Definition has_twins (l : list N) : bool := existsb (fun k => pairs_equal (level l k)) (seq 0 (height (length l))).

Lemma merkle_loop_spec l d : forall k fuel m, (k + d = height (length l))%nat -> (d <= fuel)%nat ->
  merkle_loop fuel (level l k) m =
  (level l (height (length l)), m || existsb (fun k => pairs_equal (level l k)) (seq k d)).
Proof.
  induction d as [|d IH]; intros k fuel m Hk Hf.
  - rewrite Nat.add_0_r in Hk. subst k. cbn [seq existsb]. rewrite orb_false_r. destruct fuel as [|fuel]; [done|]. cbn [merkle_loop].
    rewrite length_level. rewrite (proj2 (Nat.ltb_ge _ _)); [done|]. pose proof (width_gt_1 (length l) (height (length l))). lia.
  - destruct fuel as [|fuel]; [lia|]. cbn [merkle_loop]. rewrite length_level.
    rewrite (proj2 (Nat.ltb_lt _ _)) by (apply width_gt_1; lia).
    change (next_level (level l k)) with (level l (S k)). rewrite IH by lia. cbn [seq existsb]. by rewrite orb_assoc.
Qed.

Lemma ComputeMerkleRoot_spec l : l <> [] -> ComputeMerkleRoot l = (node l (height (length l)) 0, has_twins l).
Proof.
  intros Hl. unfold ComputeMerkleRoot. assert (0 < length l)%nat as Hn by (destruct l; [done|cbn; lia]).
  change l with (level l 0) at 2. rewrite (merkle_loop_spec l (height (length l))).
  - unfold has_twins, node. cbn [orb Z.to_nat]. pose proof (length_level l (height (length l))) as E.
    rewrite width_top in E by done. destruct (level l (height (length l))); done.
  - done.
  - unfold height. by apply Nat.log2_up_le_lin; lia.
Qed.

Lemma no_twins l : has_twins l = false -> forall k p, 0 <= p -> 2 * p + 1 < Z.of_nat (width (length l) k) ->
  node l k (2 * p) <> node l k (2 * p + 1).
Proof.
  intros H k p Hp Hw. assert (k < height (length l))%nat as Hk by (apply width_gt_1; lia).
  assert (pairs_equal (level l k) = false) as E.
  { destruct (pairs_equal (level l k)) eqn:E; [|done]. rewrite <- H. symmetry. apply existsb_exists.
    exists k. split; [|done]. apply in_seq. lia. }
  unfold node. replace (Z.to_nat (2 * p + 1)) with (2 * Z.to_nat p + 1)%nat by lia.
  replace (Z.to_nat (2 * p)) with (2 * Z.to_nat p)%nat by lia.
  assert (2 * Z.to_nat p + 1 < length (level l k))%nat as Hw' by (rewrite length_level; lia).
  revert E Hw'. generalize (level l k) as L, (Z.to_nat p) as q. clear.
  induction L as [|a|a b L IH] using pair_ind; intros q E Hq; cbn [length pairs_equal] in *; [lia|lia|].
  apply orb_false_iff in E as [Eab E]. destruct q as [|q]; [by apply N.eqb_neq|].
  replace (2 * S q)%nat with (S (S (2 * q))) by lia. cbn [nth Nat.add]. apply IH; [done|lia].
Qed.
End Root.

(** ** The constant-space computation *)

(** the position above [c] at a level *)
Definition up (c : Z) (k : nat) : Z := c / 2 ^ Z.of_nat k.

Section Climb.
Context {K : Crypto} (l : list N) (pos : Z).
#[local] Abbreviation W k := (Z.of_nat (width (length l) k)).

Definition sibling (k : nat) : N :=
  let a := up pos k in
  if Z.odd a then node l k (a - 1) else if a + 1 <? W k then node l k (a + 1) else node l k a.
Definition path_to (k : nat) : list N := map sibling (seq 0 k).

Lemma bit_odd c k : bit c k = Z.odd (up c k).
Proof. unfold bit, up. by rewrite Z.testbit_odd, Z.shiftr_div_pow2 by lia. Qed.

Lemma up_S c k : up c (S k) = up c k / 2.
Proof. unfold up. rewrite Nat2Z.inj_succ, Z.pow_succ_r, Z.mul_comm, Z.div_div by lia. done. Qed.

Lemma up_0 c : up c 0 = c.
Proof. apply Z.div_1_r. Qed.

Lemma path_to_S k : path_to (S k) = path_to k ++ [sibling k].
Proof. unfold path_to. by rewrite seq_S, map_app. Qed.

Lemma even_half c k : bit c k = false -> up c k = 2 * up c (S k).
Proof.
  rewrite bit_odd, up_S. intros E. rewrite <- Z.negb_even, negb_false_iff in E. apply Z.even_spec in E as [q Eq]; rewrite Eq.
  rewrite (Z.mul_comm 2 q), Z.div_mul by lia. lia.
Qed.

Lemma odd_half c k : bit c k = true -> up c k = 2 * up c (S k) + 1.
Proof.
  rewrite bit_odd, up_S. intros E. apply Z.odd_spec in E as [q Eq]; rewrite Eq.
  rewrite (Z.mul_comm 2 q), Z.div_add_l by lia. change (1 / 2) with 0. lia.
Qed.

Section Run.
Context (cnt : Z) (inner : list N) (ml : Z) (t : nat) (path0 : list N).
Context (Ht : bit cnt t = true).

(** The state at a level on the way up to [t], the lowest bit of [cnt]. *)
Definition climb_at (i : nat) (m : bool) : climb :=
  mkClimb (node l i (up cnt i - 1)) i (up pos i =? up cnt i - 1)
    (if up pos i =? up cnt i - 1 then path_to i else path0) m.

Definition climb_ready (i : nat) : Prop :=
  bit cnt i = false /\ nth i inner 0%N = node l i (up cnt i - 2) /\
  (ml =? Z.of_nat i) = (up pos i =? up cnt i - 2) /\
  (up pos i = up cnt i - 2 -> path0 = path_to i) /\ 0 < up cnt i <= W i.

Lemma climb_spec d : forall j fuel m, (j + d = t)%nat -> (d < fuel)%nat ->
  (forall i, (j <= i < t)%nat -> climb_ready i) -> 0 < up cnt t <= W t ->
  exists m', climb_loop fuel cnt inner ml (climb_at j m) = climb_at t m'.
Proof.
  induction d as [|d IH]; intros j fuel m Hj Hf Hr Hwt.
  - assert (j = t) as -> by lia. destruct fuel as [|fuel]; [lia|]. cbn [climb_loop c_level climb_at]. rewrite Ht. by exists m.
  - destruct fuel as [|fuel]; [lia|]. cbn [climb_loop].
    destruct (Hr j ltac:(lia)) as (Hb & Hin & Hml & Hp0 & Hw). change (c_level (climb_at j m)) with j. rewrite Hb.
    assert (0 < up cnt (S j) <= W (S j)) as Hw1.
    { destruct (decide (S j = t)) as [<-|]; [done|]. by destruct (Hr (S j) ltac:(lia)) as (_ & _ & _ & _ & ?). }
    pose proof (even_half cnt j Hb) as He. set (q := up cnt (S j)) in *.
    assert (climb_step inner ml (climb_at j m) = climb_at (S j) (m || (node l j (2 * q - 2) =? node l j (2 * q - 1))%N)) as ->.
    { unfold climb_step, climb_at. cbn [c_level c_h c_matchh c_path c_mutated]. fold q. rewrite Hin, Hml, He, up_S, path_to_S.
      assert (Hash (node l j (2 * q - 2)) (node l j (2 * q - 1)) = node l (S j) (q - 1)) as EH.
      { rewrite node_S by lia. replace (2 * (q - 1) + 1) with (2 * q - 1) by lia. replace (2 * (q - 1)) with (2 * q - 2) by lia.
        by rewrite (proj2 (Z.ltb_lt _ _)) by lia. }
      rewrite EH. unfold sibling. set (a := up pos j) in *.
      pose proof (Z.div_mod a 2 ltac:(lia)) as Ea. pose proof (Z.mod_pos_bound a 2 ltac:(lia)) as Ba.
      destruct (Z.eqb_spec a (2 * q - 1)) as [E1|E1]; [|destruct (Z.eqb_spec a (2 * q - 2)) as [E2|E2]].
      - rewrite (proj2 (Z.eqb_eq (a / 2) (q - 1))) by lia. assert (Z.odd a = true) as -> by (apply Z.odd_spec; exists (q - 1); lia).
        by replace (a - 1) with (2 * q - 2) by lia.
      - rewrite (proj2 (Z.eqb_eq (a / 2) (q - 1))) by lia. rewrite He in Hp0. rewrite (Hp0 E2).
        assert (Z.odd a = false) as -> by (rewrite <- Z.negb_even, negb_false_iff; apply Z.even_spec; exists (q - 1); lia).
        rewrite (proj2 (Z.ltb_lt _ _)) by lia. by replace (a + 1) with (2 * q - 1) by lia.
      - rewrite (proj2 (Z.eqb_neq (a / 2) (q - 1))) by lia. done. }
    apply IH; [lia|lia| |done]. intros i Hi. apply Hr. lia.
Qed.
End Run.
End Climb.

Section Bits.
(** The lowest bit of a positive number. *)
Definition low_bit (c : Z) (t : nat) : Prop := bit c t = true /\ forall i, (i < t)%nat -> bit c i = false.

Lemma low_bit_exists c : 0 < c -> exists t, low_bit c t.
Proof.
  destruct c as [|p|p]; [done| |done]. intros _. induction p as [p IH|p (t & Ht & Hl)|].
  - exists 0%nat. split; [done|lia].
  - exists (S t). assert (forall k, bit (Zpos p~0) (S k) = bit (Zpos p) k) as E.
    { intros k. unfold bit. rewrite Nat2Z.inj_succ, Pos2Z.inj_xO, Z.testbit_even_succ by lia. done. }
    split; [by rewrite E|]. intros [|i] Hi; [done|]. rewrite E. apply Hl. lia.
  - exists 0%nat. split; [done|lia].
Qed.

Lemma low_bit_factor c t : low_bit c t -> c = 2 ^ Z.of_nat t * up c t.
Proof.
  intros [_ Hl]. enough (forall i, (i <= t)%nat -> c = 2 ^ Z.of_nat i * up c i) by auto.
  induction i as [|i IH]; intros Hi; [rewrite up_0; lia|].
  rewrite IH at 1 by lia. rewrite (even_half c i) by (apply Hl; lia). rewrite Nat2Z.inj_succ, Z.pow_succ_r by lia. lia.
Qed.

Lemma up_above a b i m : up a i = up b i -> (i <= m)%nat -> up a m = up b m.
Proof. intros E Hm. induction Hm as [|m _ IH]; [done|]. by rewrite !up_S, IH. Qed.

(** A number below one with the lowest bit [t], by a power of two up to [2 ^ t]. *)
Lemma below_low c' e t i : low_bit c' t -> (e <= i <= t)%nat -> up (c' - 2 ^ Z.of_nat e) i = up c' i - 1.
Proof.
  intros Hl Hi. pose proof (low_bit_factor c' t Hl) as E. set (M := up c' t) in *.
  assert (c' = 2 ^ Z.of_nat i * (2 ^ Z.of_nat (t - i) * M)) as E'.
  { rewrite E at 1. rewrite Z.mul_assoc, <- Z.pow_add_r by lia. do 2 f_equal. lia. }
  pose proof (Z.pow_pos_nonneg 2 (Z.of_nat i) ltac:(lia) ltac:(lia)) as Hp.
  pose proof (Z.pow_pos_nonneg 2 (Z.of_nat e) ltac:(lia) ltac:(lia)) as He.
  assert (2 ^ Z.of_nat e <= 2 ^ Z.of_nat i) as Hle by (apply Z.pow_le_mono_r; lia).
  assert (up c' i = 2 ^ Z.of_nat (t - i) * M) as -> by (unfold up; rewrite E' at 1; rewrite Z.mul_comm, Z.div_mul by lia; done).
  unfold up. symmetry. apply (Z.div_unique_pos _ _ _ (2 ^ Z.of_nat i - 2 ^ Z.of_nat e)); lia.
Qed.

Lemma below_high c' e t i : low_bit c' t -> (e <= t)%nat -> (t < i)%nat -> up (c' - 2 ^ Z.of_nat e) i = up c' i.
Proof.
  intros Hl He Hi. apply (up_above _ _ (S t)); [|lia]. rewrite !up_S, (below_low c' e t t Hl) by lia.
  pose proof (odd_half c' t (proj1 Hl)) as Ho. rewrite up_S in Ho. rewrite Ho at 1.
  set (q := up c' t / 2) in *. replace (2 * q + 1 - 1) with (q * 2) by lia. by rewrite Z.div_mul by lia.
Qed.

Lemma below_bit c' e t i : low_bit c' t -> (e <= i < t)%nat -> bit (c' - 2 ^ Z.of_nat e) i = true.
Proof.
  intros Hl Hi. rewrite bit_odd, (below_low c' e t i) by (done || lia). rewrite (even_half c' i) by (apply Hl; lia).
  rewrite Z.odd_sub, Z.odd_mul. done.
Qed.

Lemma below_bit_high c' e t i : low_bit c' t -> (e <= t)%nat -> (t < i)%nat -> bit (c' - 2 ^ Z.of_nat e) i = bit c' i.
Proof. intros Hl He Hi. by rewrite !bit_odd, (below_high c' e t i). Qed.

Lemma below_bit_at c' e t : low_bit c' t -> (e <= t)%nat -> bit (c' - 2 ^ Z.of_nat e) t = false.
Proof.
  intros Hl He. rewrite bit_odd, (below_low c' e t t) by (done || lia). rewrite (odd_half c' t (proj1 Hl)).
  rewrite Z.odd_sub, Z.odd_add, Z.odd_mul. done.
Qed.

Lemma low_bit_bound c t : 0 < c -> low_bit c t -> 2 ^ Z.of_nat t <= c /\ 0 < up c t.
Proof.
  intros Hc Hl. pose proof (low_bit_factor c t Hl) as E. pose proof (Z.pow_pos_nonneg 2 (Z.of_nat t) ltac:(lia) ltac:(lia)) as Hp.
  assert (0 < up c t) by nia. split; [nia|done].
Qed.

Lemma pow2_index t m : 2 ^ Z.of_nat t <= 2 ^ Z.of_nat m -> (t <= m)%nat.
Proof. intros H. apply Z.pow_le_mono_r_iff in H; lia. Qed.

(** Only one stored subtree has the leaf. *)
Lemma only_one c p i m : bit c i = true -> (i < m)%nat -> up p m = up c m - 1 -> up p i <> up c i - 1.
Proof.
  intros Hb Hm E E'. assert (up p (S i) = up c (S i)) as E1.
  { rewrite !up_S, E', (odd_half c i Hb), up_S. set (q := up c i / 2).
    replace (2 * q + 1 - 1) with (q * 2) by lia. rewrite Z.div_mul by lia.
    replace (2 * q + 1) with (q * 2 + 1) by lia. rewrite Z.div_add_l by lia. change (1 / 2) with 0. lia. }
  apply (up_above _ _ _ m) in E1; lia.
Qed.

Lemma up_to_low c p i t : low_bit c t -> (i <= t)%nat -> up p i = up c i - 1 -> up p t = up c t - 1.
Proof.
  intros Hl Hi. induction Hi as [|j Hi IH] in Hl |- *; [done|]. intros E.
  assert (forall d k, (k + d = S j)%nat -> (i <= k)%nat -> up p k = up c k - 1 -> up p (S j) = up c (S j) - 1) as K.
  { induction d as [|d IHd]; intros k Hk Hik Ek; [by replace (S j) with k by lia|].
    apply (IHd (S k)); [lia|lia|]. rewrite !up_S, Ek. pose proof (even_half c k (proj2 Hl k ltac:(lia))) as He.
    rewrite He, up_S in *. set (q := up c k / 2) in *. rewrite (Z.mul_comm 2 q), Z.div_mul by lia.
    symmetry. apply (Z.div_unique_pos _ _ _ 1); lia. }
  by apply (K (S j - i)%nat i); [lia|lia|].
Qed.
Lemma lowest_spec c t : low_bit c t -> forall d k fuel, (k + d = t)%nat -> (d < fuel)%nat -> lowest fuel c k = t.
Proof.
  intros [Ht Hl]. induction d as [|d IH]; intros k fuel Hk Hf; (destruct fuel as [|fuel]; [lia|]); cbn [lowest].
  - replace k with t by lia. by rewrite Ht.
  - rewrite Hl by lia. apply IH; lia.
Qed.

End Bits.

Lemma up_mono a b i : a <= b -> up a i <= up b i.
Proof. intros H. apply Z.div_le_mono; [apply Z.pow_pos_nonneg; lia|done]. Qed.

Lemma up_nonneg a i : 0 <= a -> 0 <= up a i.
Proof. intros H. apply Z.div_pos; [done|apply Z.pow_pos_nonneg; lia]. Qed.

Lemma up_width (l : list N) c i : c <= Z.of_nat (length l) -> up c i <= Z.of_nat (width (length l) i).
Proof.
  intros H. transitivity (up (Z.of_nat (length l)) i); [by apply up_mono|].
  unfold up, width. change 2 with (Z.of_nat 2) at 1. rewrite <- Nat2Z.inj_pow, <- Nat2Z.inj_div. apply inj_le, Nat.Div0.div_le_mono.
  pose proof (pow2_pos i). lia.
Qed.

Section Computation.
Context {K : Crypto} (l : list N) (pos : Z).
#[local] Abbreviation W k := (Z.of_nat (width (length l) k)).
Context (Hn : 0 < Z.of_nat (length l) <= 2 ^ 31) (Hpos : 0 <= pos < Z.of_nat (length l)).

(** What the array, the matched level and the path are after [c] leaves. *)
Record absorbed (c : Z) (s : computation) : Prop := {
  ab_length : length (inner s) = 32%nat;
  ab_inner i : bit c i = true -> nth i (inner s) 0%N = node l i (up c i - 1);
  ab_match : c <= pos -> matchlevel s = -1 /\ path s = [];
  ab_path : pos < c -> exists m, matchlevel s = Z.of_nat m /\ bit c m = true /\ up pos m = up c m - 1 /\ path s = path_to l pos m
}.

(** Where the leaf is, if it is stored. *)
Lemma match_at c s i : absorbed c s -> bit c i = true ->
  (matchlevel s =? Z.of_nat i) = (up pos i =? up c i - 1) /\ (up pos i = up c i - 1 -> path s = path_to l pos i).
Proof.
  intros [_ _ Hm Hp] Hb. destruct (Z.lt_ge_cases pos c) as [H|H].
  - destruct (Hp H) as (m & E & Hbm & Eu & Ep). rewrite E. destruct (Nat.lt_trichotomy i m) as [Hi|[->|Hi]].
    + pose proof (only_one c pos i m Hb Hi Eu). split; [|done]. rewrite (proj2 (Z.eqb_neq _ _)), (proj2 (Z.eqb_neq _ _)) by lia. done.
    + by rewrite !(proj2 (Z.eqb_eq _ _)).
    + assert (up pos i <> up c i - 1) as Hne by (intros Ei; by apply (only_one c pos m i Hbm Hi Ei)).
      split; [|done]. rewrite (proj2 (Z.eqb_neq _ _)), (proj2 (Z.eqb_neq _ _)) by lia. done.
  - destruct (Hm H) as [-> _]. pose proof (up_mono c pos i H). split; [|lia].
    rewrite (proj2 (Z.eqb_neq _ _)), (proj2 (Z.eqb_neq _ _)) by lia. done.
Qed.

Lemma add_leaf_absorbed c s : 0 <= c < Z.of_nat (length l) -> absorbed c s ->
  absorbed (c + 1) (add_leaf pos c (nth (Z.to_nat c) l 0%N) s).
Proof.
  intros Hc A. destruct (low_bit_exists (c + 1) ltac:(lia)) as [t Ht]. destruct (low_bit_bound (c + 1) t ltac:(lia) Ht) as [Hb Hu].
  assert (t < 32)%nat as Ht32 by (pose proof (pow2_index t 31) as Hi; change (2 ^ Z.of_nat 31) with (2 ^ 31) in Hi; lia).
  assert (forall i, (i <= t)%nat -> up c i = up (c + 1) i - 1) as Elow.
  { intros i Hi. rewrite <- (below_low (c + 1) 0 t i) by (done || lia). f_equal. cbn. lia. }
  assert (forall i, (i < t)%nat -> bit c i = true) as Eset.
  { intros i Hi. rewrite <- (below_bit (c + 1) 0 t i) by (done || lia). f_equal. cbn. lia. }
  assert (forall i, (t < i)%nat -> up c i = up (c + 1) i /\ bit c i = bit (c + 1) i) as Ehigh.
  { intros i Hi. rewrite <- (below_high (c + 1) 0 t i), <- (below_bit_high (c + 1) 0 t i) by (done || lia). split; f_equal; cbn; lia. }
  assert (bit c t = false) as Eat. { rewrite <- (below_bit_at (c + 1) 0 t) by (done || lia). f_equal. cbn. lia. }
  assert (mkClimb (nth (Z.to_nat c) l 0%N) 0 (c =? pos) (path s) (mutated s) = climb_at l pos (c + 1) (path s) 0 (mutated s)) as Estart.
  { unfold climb_at. rewrite !up_0, Z.add_simpl_r, (Z.eqb_sym c pos). f_equal; [done..|].
    destruct (Z.eqb_spec pos c) as [->|]; [|done]. by destruct (ab_match _ _ A ltac:(lia)) as [_ ->]. }
  unfold add_leaf. rewrite u32_id by solve_width. rewrite Estart.
  destruct (climb_spec l pos (c + 1) (inner s) (matchlevel s) t (path s) (proj1 Ht) t 0 32 (mutated s)) as [m' ->]; [lia|lia| | |].
  { intros i Hi. destruct (match_at c s i A (Eset i ltac:(lia))) as [M1 M2]. rewrite Elow in M1, M2 by lia.
    replace (up (c + 1) i - 1 - 1) with (up (c + 1) i - 2) in M1, M2 by lia. split; [apply Ht; lia|]. split.
    { rewrite (ab_inner _ _ A i) by (apply Eset; lia). rewrite Elow by lia. f_equal. lia. }
    split; [done|]. split; [done|]. split; [|apply up_width; lia].
    pose proof (Elow i ltac:(lia)) as E1. pose proof (up_nonneg c i ltac:(lia)). lia. }
  { split; [done|apply up_width; lia]. }
  unfold climb_at. cbn [c_level c_h c_matchh c_path c_mutated]. split; cbn [inner matchlevel path].
  - by rewrite length_insert, (ab_length _ _ A).
  - intros i Hi. rewrite !nth_lookup. destruct (decide (i = t)) as [->|Hne].
    + by rewrite list_lookup_insert_eq by (rewrite (ab_length _ _ A); lia).
    + rewrite list_lookup_insert_ne by done. rewrite <- nth_lookup. destruct (Nat.lt_ge_cases i t) as [H|H].
      { rewrite (proj2 Ht i H) in Hi. done. }
      destruct (Ehigh i ltac:(lia)) as [Eu Eb]. rewrite <- Eu. apply (ab_inner _ _ A). by rewrite Eb.
  - intros H. pose proof (up_mono (c + 1) pos t H). rewrite (proj2 (Z.eqb_neq _ _)) by lia. apply (ab_match _ _ A). lia.
  - intros H. destruct (Z.eqb_spec (up pos t) (up (c + 1) t - 1)) as [E|E]; [by exists t; rewrite (proj1 Ht)|].
    destruct (decide (pos = c)) as [->|Hne]; [rewrite (Elow t) in E by lia; done|].
    destruct (ab_path _ _ A ltac:(lia)) as (m & E1 & E2 & E3 & E4). exists m.
    destruct (Nat.lt_trichotomy m t) as [Hm|[->|Hm]]; [exfalso| |].
    + apply E, (up_to_low (c + 1) pos (S m)); [done|lia|]. rewrite Elow in E3 by lia.
      rewrite up_S, E3, (even_half (c + 1) m) by (apply Ht; lia). replace (2 * up (c + 1) (S m) - 1 - 1) with ((up (c + 1) (S m) - 1) * 2) by lia.
      by rewrite Z.div_mul by lia.
    + rewrite Eat in E2. done.
    + destruct (Ehigh m ltac:(lia)) as [Eu Eb]. by rewrite <- Eu, <- Eb.
Qed.

Lemma add_leaves_absorbed rest : forall c s, 0 <= c -> Z.of_nat (length l) = c + Z.of_nat (length rest) ->
  rest = drop (Z.to_nat c) l -> absorbed c s ->
  exists s', add_leaves pos c rest s = (Z.of_nat (length l), s') /\ absorbed (Z.of_nat (length l)) s'.
Proof.
  induction rest as [|h rest IH]; intros c s Hc Hl Hr A; cbn [add_leaves length] in *.
  - exists s. rewrite Z.add_0_r in Hl. by rewrite Hl.
  - rewrite u32_id by solve_width. assert (nth (Z.to_nat c) l 0%N = h) as <-.
    { rewrite nth_lookup, <- (Nat.add_0_r (Z.to_nat c)), <- lookup_drop, <- Hr. done. }
    apply IH; [lia|lia| |apply add_leaf_absorbed; [lia|done]].
    replace (Z.to_nat (c + 1)) with (Z.to_nat c + 1)%nat by lia. by rewrite <- drop_drop, <- Hr.
Qed.

(** ** The sweep *)

(** [v] leaves would fill the level. *)
Record sweeping (inner : list N) (ml : Z) (path0 : list N) (v : Z) (i : nat) : Prop := {
  sw_low : low_bit v i;
  sw_full : up v i = W i;
  sw_top : (i <= height (length l))%nat;
  sw_high j : (i < j)%nat -> bit v j = true ->
    nth j inner 0%N = node l j (up v j - 1) /\ (ml =? Z.of_nat j) = (up pos j =? up v j - 1) /\
    (up pos j = up v j - 1 -> path0 = path_to l pos j)
}.

Lemma height_31 : (height (length l) <= 31)%nat.
Proof.
  unfold height. apply Nat.log2_up_le_pow2; [lia|]. apply Nat2Z.inj_le. rewrite Nat2Z.inj_pow.
  change (Z.of_nat 2 ^ Z.of_nat 31) with (2 ^ 31). lia.
Qed.

Lemma full_bound v i : (i <= 31)%nat -> v = 2 ^ Z.of_nat i * W i -> v <= 2 ^ 31.
Proof.
  intros Hi ->. replace (2 ^ 31) with (2 ^ Z.of_nat i * 2 ^ Z.of_nat (31 - i)).
  - apply Z.mul_le_mono_nonneg_l; [lia|]. change 2 with (Z.of_nat 2) at 1. rewrite <- Nat2Z.inj_pow. apply inj_le, width_le.
    rewrite <- Nat.pow_add_r. replace (31 - i + i)%nat with 31%nat by lia. apply Nat2Z.inj_le. rewrite Nat2Z.inj_pow.
    change (Z.of_nat 2 ^ Z.of_nat 31) with (2 ^ 31). lia.
  - rewrite <- Z.pow_add_r by lia. f_equal. lia.
Qed.

Lemma W_S k : W (S k) = (W k + 1) / 2.
Proof. rewrite width_S, Nat2Z.inj_div, Nat2Z.inj_add. done. Qed.

(** After the last hash of a level is doubled. *)
Lemma doubled_low v i : low_bit v i -> forall j, (j <= i)%nat -> bit (v + 2 ^ Z.of_nat i) j = false.
Proof.
  intros Hl j Hj. pose proof (low_bit_factor v i Hl) as E. pose proof (odd_half v i (proj1 Hl)) as Ho.
  assert (v + 2 ^ Z.of_nat i = (up v (S i) + 1) * 2 ^ Z.of_nat (S i)) as ->.
  { rewrite E at 1. rewrite Ho, Nat2Z.inj_succ, Z.pow_succ_r by lia. lia. }
  unfold bit. apply Z.mul_pow2_bits_low. lia.
Qed.

Lemma doubled_full v i t : low_bit v i -> up v i = W i -> low_bit (v + 2 ^ Z.of_nat i) t ->
  forall j, (S i <= j <= t)%nat -> up (v + 2 ^ Z.of_nat i) j = W j.
Proof.
  intros Hl Hf Ht j [Hj Hjt]. induction Hj as [|j Hj IH].
  - rewrite up_S, W_S, <- Hf. unfold up. rewrite <- (Z.mul_1_l (2 ^ Z.of_nat i)) at 1. by rewrite Z.div_add by lia.
  - specialize (IH ltac:(lia)). pose proof (even_half _ _ (proj2 Ht j ltac:(lia))) as He. rewrite W_S, <- IH, He.
    apply (Z.div_unique_pos _ _ _ 1); lia.
Qed.

(** One level up with the last hash doubled, then as far as there are partners. *)
Lemma sweep_step inn ml path0 v i : sweeping inn ml path0 v i -> 1 < W i ->
  exists t, (i < t)%nat /\ sweeping inn ml path0 (v + 2 ^ Z.of_nat i) t /\
    forall m, exists m', climb_loop 32 (v + 2 ^ Z.of_nat i) inn ml (climb_at l pos (v + 2 ^ Z.of_nat i) path0 (S i) m) =
                         climb_at l pos (v + 2 ^ Z.of_nat i) path0 t m'.
Proof.
  intros [Hl Hf Htop Hh] Hw. set (v' := v + 2 ^ Z.of_nat i) in *. assert (v = v' - 2 ^ Z.of_nat i) as Ev by lia.
  pose proof (Z.pow_pos_nonneg 2 (Z.of_nat i) ltac:(lia) ltac:(lia)) as Hp.
  assert (0 < v') as Hv'. { pose proof (low_bit_factor v i Hl) as E. rewrite Hf in E. nia. }
  destruct (low_bit_exists v' Hv') as [t Ht]. exists t.
  assert (i < t)%nat as Hit.
  { destruct (Nat.lt_ge_cases i t) as [|H]; [done|]. pose proof (doubled_low v i Hl t H) as E. fold v' in E. by rewrite (proj1 Ht) in E. }
  pose proof (doubled_full v i t Hl Hf Ht) as Hfull. fold v' in Hfull.
  assert (i < height (length l))%nat as Hih by (apply width_gt_1; lia). pose proof height_31 as H31.
  assert (forall j, 0 < W j) as HW by (intros j; pose proof (width_le (length l) j 0); lia).
  assert (t <= height (length l))%nat as Hth.
  { destruct (decide (t = S i)) as [->|Hne]; [lia|]. enough (t - 1 < height (length l))%nat by lia. apply width_gt_1.
    pose proof (even_half v' (t - 1) (proj2 Ht (t - 1)%nat ltac:(lia))) as He. rewrite Hfull in He by lia.
    pose proof (HW (t - 1)%nat). lia. }
  split; [done|]. split.
  - split; [done|apply Hfull; lia|done|].
    intros j Hj Hb. specialize (Hh j ltac:(lia)).
    rewrite Ev, (below_bit_high v' i t j), (below_high v' i t j) in Hh by (done || lia). by apply Hh.
  - intros m. apply (climb_spec l pos v' inn ml t path0 (proj1 Ht) (t - S i)); [lia|lia| |rewrite Hfull by lia; split; [apply HW|lia]].
    intros j Hj. specialize (Hh j ltac:(lia)). rewrite Ev, (below_bit v' i t j), (below_low v' i t j) in Hh by (done || lia).
    destruct (Hh eq_refl) as (H1 & H2 & H3). replace (up v' j - 1 - 1) with (up v' j - 2) in * by lia.
    split; [apply Ht; lia|]. split; [done|]. split; [done|]. split; [done|]. rewrite Hfull by lia. split; [apply HW|lia].
Qed.

(** The doubled hash is the node above. *)
Lemma doubled_climb v i path0 m : low_bit v i -> up v i = W i -> 1 < W i -> 
  mkClimb (Hash (c_h (climb_at l pos v path0 i m)) (c_h (climb_at l pos v path0 i m))) (S i) (c_matchh (climb_at l pos v path0 i m))
    (if c_matchh (climb_at l pos v path0 i m) then c_path (climb_at l pos v path0 i m) ++ [c_h (climb_at l pos v path0 i m)]
     else c_path (climb_at l pos v path0 i m)) m =
  climb_at l pos (v + 2 ^ Z.of_nat i) path0 (S i) m.
Proof.
  intros Hl Hf Hw. unfold climb_at. cbn [c_h c_matchh c_path]. rewrite Hf.
  pose proof (odd_half v i (proj1 Hl)) as Ho. rewrite Hf in Ho.
  assert (up (v + 2 ^ Z.of_nat i) (S i) = W (S i)) as ->.
  { rewrite up_S, W_S, <- Hf. unfold up. rewrite <- (Z.mul_1_l (2 ^ Z.of_nat i)) at 1. by rewrite Z.div_add by lia. }
  assert (W i = 2 * W (S i) - 1) as Ew.
  { rewrite W_S, Ho. set (q := up v (S i)). replace (2 * q + 1 + 1) with ((q + 1) * 2) by lia. rewrite Z.div_mul by lia. lia. }
  assert (up pos i < W i) as Hlt.
  { rewrite <- Hf. apply Z.div_lt_upper_bound; [apply Z.pow_pos_nonneg; lia|]. rewrite <- (low_bit_factor v i Hl).
    pose proof (low_bit_factor v i Hl) as E. rewrite Hf in E. pose proof (width_le (length l) i (width (length l) i)) as B.
    apply proj1 in B. specialize (B ltac:(lia)). apply inj_le in B. rewrite Nat2Z.inj_mul, Nat2Z.inj_pow in B.
    change (Z.of_nat 2) with 2 in B. lia. }
  assert (Hash (node l i (W i - 1)) (node l i (W i - 1)) = node l (S i) (W (S i) - 1)) as <-.
  { rewrite node_S by lia. rewrite (proj2 (Z.ltb_ge _ _)) by lia. by replace (2 * (W (S i) - 1)) with (W i - 1) by lia. }
  assert ((up pos (S i) =? W (S i) - 1) = (up pos i =? W i - 1)) as ->.
  { rewrite up_S. pose proof (Z.div_mod (up pos i) 2 ltac:(lia)). pose proof (Z.mod_pos_bound (up pos i) 2 ltac:(lia)).
    destruct (Z.eqb_spec (up pos i / 2) (W (S i) - 1)), (Z.eqb_spec (up pos i) (W i - 1)); lia || done. }
  f_equal. destruct (Z.eqb_spec (up pos i) (W i - 1)) as [E|]; [|done].
  rewrite path_to_S. do 2 f_equal. unfold sibling. rewrite E.
  assert (Z.odd (W i - 1) = false) as -> by (rewrite Ho, Z.odd_sub, Z.odd_add, Z.odd_mul; done).
  by rewrite (proj2 (Z.ltb_ge _ _)) by lia.
Qed.

Lemma sweep_done inn ml path0 v i m : sweeping inn ml path0 v i -> v = 2 ^ Z.of_nat i ->
  c_h (climb_at l pos v path0 i m) = node l (height (length l)) 0 /\
  c_path (climb_at l pos v path0 i m) = path_to l pos (height (length l)).
Proof.
  intros [Hl Hf Htop _] Ev. assert (up v i = 1) as E1 by (unfold up; rewrite Ev, Z.div_same; [done|]; pose proof (Z.pow_pos_nonneg 2 (Z.of_nat i)); lia).
  assert (i = height (length l)) as ->. { pose proof (width_gt_1 (length l) i). lia. }
  unfold climb_at. cbn [c_h c_path]. rewrite E1. change (1 - 1) with 0.
  assert (up pos (height (length l)) = 0) as ->; [|done].
  apply Z.div_small. split; [lia|]. rewrite <- Ev. pose proof (low_bit_factor v _ Hl) as E. rewrite Hf in E.
  pose proof (width_le (length l) (height (length l)) (width (length l) (height (length l)))) as [B _]. specialize (B ltac:(lia)).
  apply inj_le in B. rewrite Nat2Z.inj_mul, Nat2Z.inj_pow in B. change (Z.of_nat 2) with 2 in B. lia.
Qed.

Lemma sweep_wide inn ml path0 v i : sweeping inn ml path0 v i -> v <> 2 ^ Z.of_nat i -> 1 < W i /\ (i < height (length l))%nat.
Proof.
  intros [Hl Hf _ _] Hne. assert (1 < W i) as H; [|split; [done|apply width_gt_1; lia]].
  pose proof (low_bit_factor v i Hl) as E. rewrite Hf in E. pose proof (width_le (length l) i 0).
  destruct (decide (W i = 1)) as [E1|]; [|lia]. rewrite E1 in E. lia.
Qed.

Lemma sweep_spec inn ml path0 d : forall i fuel v m, sweeping inn ml path0 v i -> (height (length l) - i <= d)%nat -> (d < fuel)%nat ->
  let c := sweep fuel v inn ml (climb_at l pos v path0 i m) in
  c_h c = node l (height (length l)) 0 /\ c_path c = path_to l pos (height (length l)).
Proof.
  induction d as [|d IH]; intros i fuel v m Hs Hd Hf; (destruct fuel as [|fuel]; [lia|]); cbn [sweep];
    change (c_level (climb_at l pos v path0 i m)) with i; pose proof height_31 as H31; pose proof (sw_top _ _ _ _ _ Hs) as Htop;
    rewrite Z.shiftl_1_l, (u32_id (2 ^ Z.of_nat i)) by
      (split; [apply Z.pow_nonneg; lia|apply (Z.le_lt_trans _ (2 ^ 31)); [apply Z.pow_le_mono_r; lia|done]]);
    (destruct (Z.eqb_spec v (2 ^ Z.of_nat i)) as [E|E]; [by apply (sweep_done inn ml)|]);
    destruct (sweep_wide inn ml path0 v i Hs E) as [Hw Hi]; [lia|].
  destruct (sweep_step inn ml path0 v i Hs Hw) as (t & Hit & Hs' & Hc).
  assert (v + 2 ^ Z.of_nat i <= 2 ^ 31) as Hb.
  { apply (full_bound _ (S i)); [lia|]. pose proof (low_bit_factor v i (sw_low _ _ _ _ _ Hs)) as Ev.
    rewrite (sw_full _ _ _ _ _ Hs) in Ev. pose proof (odd_half v i (proj1 (sw_low _ _ _ _ _ Hs))) as Ho.
    rewrite (sw_full _ _ _ _ _ Hs) in Ho. rewrite W_S, Ho. set (q := up v (S i)) in *.
    replace (2 * q + 1 + 1) with ((q + 1) * 2) by lia. rewrite Z.div_mul, Nat2Z.inj_succ, Z.pow_succ_r by lia. nia. }
  rewrite (u32_id (v + 2 ^ Z.of_nat i)) by (pose proof (Z.pow_pos_nonneg 2 (Z.of_nat i)); pose proof (low_bit_factor v i (sw_low _ _ _ _ _ Hs));
    rewrite (sw_full _ _ _ _ _ Hs) in *; solve_width).
  change (c_mutated (climb_at l pos v path0 i m)) with m.
  rewrite (doubled_climb v i path0 m (sw_low _ _ _ _ _ Hs) (sw_full _ _ _ _ _ Hs) Hw). destruct (Hc m) as [m' ->].
  exact (IH t fuel (v + 2 ^ Z.of_nat i) m Hs' ltac:(lia) ltac:(lia)).
Qed.
End Computation.

Section Results.
Context {K : Crypto}.

Lemma MerkleComputation_spec mem l pos : length mem = 32%nat -> 0 < Z.of_nat (length l) <= 2 ^ 31 -> 0 <= pos < Z.of_nat (length l) ->
  (MerkleComputation mem l pos).1.1 = node l (height (length l)) 0 /\
  (MerkleComputation mem l pos).2 = path_to l pos (height (length l)).
Proof.
  intros Hm Hn Hp. unfold MerkleComputation. destruct l as [|h0 l0] eqn:El; [cbn in Hn; lia|]. rewrite <- El in *. clear h0 l0 El.
  destruct (add_leaves_absorbed l pos Hn Hp l 0 (mkComp mem (-1) [] false)) as (s & -> & A); [done|done|done| |].
  { split; cbn [inner matchlevel path]; [done| |done|lia]. intros i. unfold bit. by rewrite Z.bits_0. }
  set (n := Z.of_nat (length l)) in *. destruct (low_bit_exists n ltac:(lia)) as [t Ht].
  destruct (low_bit_bound n t ltac:(lia) Ht) as [Hb Hu].
  assert (t < 32)%nat as Ht32 by (pose proof (pow2_index t 31) as Hi; change (2 ^ Z.of_nat 31) with (2 ^ 31) in Hi; lia).
  rewrite (lowest_spec n t Ht t 0 32) by lia. destruct (match_at l pos n s t A (proj1 Ht)) as [M1 M2].
  assert (up n t = Z.of_nat (width (length l) t)) as Hf.
  { pose proof (low_bit_factor n t Ht) as E. pose proof (up_width l n t ltac:(lia)) as U.
    pose proof (proj2 (width_le (length l) t (Z.to_nat (up n t)))) as B. enough (length l <= Z.to_nat (up n t) * 2 ^ t)%nat by lia.
    apply Nat2Z.inj_le. rewrite Nat2Z.inj_mul, Nat2Z.inj_pow, Z2Nat.id by lia. change (Z.of_nat 2) with 2. lia. }
  assert (mkClimb (nth t (inner s) 0%N) t (matchlevel s =? Z.of_nat t) (path s) (mutated s) = climb_at l pos n (path s) t (mutated s)) as ->.
  { unfold climb_at. rewrite (ab_inner _ _ _ _ A t (proj1 Ht)), M1. f_equal.
    destruct (Z.eqb_spec (up pos t) (up n t - 1)) as [E|]; [|done]. by rewrite <- M2. }
  assert (sweeping l pos (inner s) (matchlevel s) (path s) n t) as Hs.
  { split; [done|done| |].
    - destruct (decide (Z.of_nat (width (length l) t) = 1)) as [E1|E1].
      + rewrite E1 in Hf. pose proof (low_bit_factor n t Ht) as E. rewrite Hf, Z.mul_1_r in E. unfold height.
        assert (length l = 2 ^ t)%nat as -> by (apply Nat2Z.inj; rewrite Nat2Z.inj_pow; exact E). by rewrite Nat.log2_up_pow2 by lia.
      + apply Nat.lt_le_incl, width_gt_1. lia.
    - intros j Hj Hbj. split; [by apply (ab_inner _ _ _ _ A)|]. by apply match_at. }
  pose proof (sweep_spec l pos Hn Hp (inner s) (matchlevel s) (path s) 31 t 32 n (mutated s) Hs) as [H1 H2]; [|lia|done].
  pose proof (height_31 l Hn). lia.
Qed.

Lemma node_from_child l k pos : 0 <= pos < Z.of_nat (length l) ->
  node l (S k) (up pos (S k)) =
  (if Z.odd (up pos k) then Hash (sibling l pos k) (node l k (up pos k)) else Hash (node l k (up pos k)) (sibling l pos k)).
Proof.
  intros Hp. assert (forall i, 0 <= up pos i < Z.of_nat (width (length l) i)) as R.
  { intros i. split; [apply up_nonneg; lia|]. apply Z.div_lt_upper_bound; [apply Z.pow_pos_nonneg; lia|].
    pose proof (width_le (length l) i (width (length l) i)) as [B _]. specialize (B ltac:(lia)).
    apply inj_le in B. rewrite Nat2Z.inj_mul, Nat2Z.inj_pow in B. change (Z.of_nat 2) with 2 in B. lia. }
  rewrite node_S by apply R. rewrite up_S. unfold sibling. pose proof (R k) as Rk. set (a := up pos k) in *.
  destruct (Z.odd a) eqn:E.
  - apply Z.odd_spec in E as [q E]. assert (a / 2 = q) as -> by (symmetry; apply (Z.div_unique_pos _ _ _ 1); lia).
    rewrite (proj2 (Z.ltb_lt _ _)) by lia. by replace (a - 1) with (2 * q) by lia; replace (2 * q + 1) with a by lia.
  - rewrite <- Z.negb_even, negb_false_iff in E. apply Z.even_spec in E as [q E].
    assert (a / 2 = q) as -> by (symmetry; apply (Z.div_unique_pos _ _ _ 0); lia). rewrite <- E.
    destruct (Z.ltb_spec (a + 1) (Z.of_nat (width (length l) k))); done.
Qed.

Lemma root_from_branch_spec l pos d : 0 <= pos < Z.of_nat (length l) -> forall k,
  ComputeMerkleRootFromBranch (node l k (up pos k)) (map (sibling l pos) (seq k d)) (up pos k) = node l (k + d) (up pos (k + d)).
Proof.
  intros Hp. induction d as [|d IH]; intros k; cbn [seq map ComputeMerkleRootFromBranch]; [by rewrite Nat.add_0_r|].
  rewrite Z.shiftr_div_pow2 by lia. change (2 ^ 1) with 2. rewrite <- up_S, <- node_from_child, IH by done. by rewrite Nat.add_succ_r.
Qed.
End Results.

(** ** Partial trees *)

Section Flags.
Lemma nth_replicate {A} (x : A) n : forall j, nth j (replicate n x) x = x.
Proof. induction n as [|n IH]; intros [|j]; [done..|apply IH]. Qed.

(** The byte array after the first [k] flags. *)
Lemma BitsToBytes_prefix (bits : list bool) k : (k <= length bits)%nat ->
  let ret := foldl (fun ret p => alter (fun b => Z.lor b (Z.shiftl (if nth p bits false then 1 else 0) (Z.of_nat (p mod 8)))) (p / 8)%nat ret)
    (replicate ((length bits + 7) / 8) 0) (seq 0 k) in
  length ret = ((length bits + 7) / 8)%nat /\
  forall j q, (q < 8)%nat -> Z.testbit (nth j ret 0) (Z.of_nat q) = (8 * j + q <? k)%nat && nth (8 * j + q) bits false.
Proof.
  induction k as [|k IH]; intros Hk; cbv zeta.
  - cbn [seq foldl]. split; [apply length_replicate|]. intros j q Hq. cbn [Nat.ltb Nat.leb andb].
    rewrite nth_replicate. by rewrite Z.bits_0.
  - rewrite seq_S, foldl_app. cbn [foldl Nat.add]. specialize (IH ltac:(lia)). cbv zeta in IH.
    match goal with |- context [alter _ _ ?r] => set (ret := r) in * end. destruct IH as [Hl IH].
    split; [by rewrite length_alter|]. intros j q Hq. rewrite nth_lookup.
    pose proof (Nat.div_mod k 8) as Ek. pose proof (Nat.mod_upper_bound k 8) as Bk.
    destruct (decide (j = k / 8)%nat) as [->|Hne].
    + rewrite list_lookup_alter_eq. destruct (ret !! (k / 8)%nat) as [b|] eqn:E.
      2: { apply lookup_ge_None in E. rewrite Hl in E. pose proof (Nat.Div0.div_le_mono (k + 8) (length bits + 7) 8 ltac:(lia)) as D.
           replace (k + 8)%nat with (k + 1 * 8)%nat in D by lia. rewrite Nat.div_add in D by lia. lia. }
      match goal with |- context [default 0 (?f <$> Some b)] => change (default 0 (f <$> Some b)) with (f b); cbv beta end. specialize (IH (k / 8)%nat q Hq). rewrite nth_lookup, E in IH.
      rewrite Z.lor_spec. change (default 0 (Some b)) with b in IH. rewrite IH.
      assert (Z.testbit (Z.shiftl (if nth k bits false then 1 else 0) (Z.of_nat (k mod 8))) (Z.of_nat q) = (q =? k mod 8)%nat && nth k bits false) as ->.
      { rewrite Z.shiftl_spec by lia. destruct (nth k bits false).
        - rewrite andb_true_r. destruct (Nat.eqb_spec q (k mod 8)) as [->|Hq']; [by rewrite Z.sub_diag|].
          destruct (Z.lt_ge_cases (Z.of_nat q) (Z.of_nat (k mod 8))); [by rewrite Z.testbit_neg_r by lia|].
          change 1 with (2 ^ 0). rewrite Z.pow2_bits_false by lia. done.
        - rewrite andb_false_r. apply Z.bits_0. }
      destruct (Nat.eqb_spec q (k mod 8)) as [->|Hq'].
      * replace (8 * (k / 8) + k mod 8)%nat with k by lia. rewrite (proj2 (Nat.ltb_ge k k)), (proj2 (Nat.ltb_lt k (S k))) by lia. done.
      * cbn [andb]. rewrite orb_false_r. f_equal. destruct (Nat.ltb_spec (8 * (k / 8) + q) k), (Nat.ltb_spec (8 * (k / 8) + q) (S k)); lia || done.
    + rewrite list_lookup_alter_ne by done. rewrite <- nth_lookup, IH by done. f_equal.
      destruct (Nat.ltb_spec (8 * j + q) k), (Nat.ltb_spec (8 * j + q) (S k)); [done| |lia|done].
      exfalso. apply Hne. apply (Nat.div_unique k 8 j q); lia.
Qed.

(** The flags come back followed by less than a byte of padding. *)
Lemma bits_roundtrip bits : BytesToBits (BitsToBytes bits) = bits ++ replicate ((length bits + 7) / 8 * 8 - length bits) false.
Proof.
  destruct (BitsToBytes_prefix bits (length bits) ltac:(lia)) as [Hl Hb]. fold (BitsToBytes bits) in Hl, Hb.
  pose proof (Nat.div_mod (length bits + 7) 8) as E. pose proof (Nat.mod_upper_bound (length bits + 7) 8) as B.
  apply (nth_ext _ _ false false).
  - unfold BytesToBits. rewrite length_map, length_seq, Hl, length_app, length_replicate. lia.
  - unfold BytesToBits. rewrite length_map, length_seq. intros p Hp.
    rewrite (nth_indep _ false (negb (Z.land (nth (0 / 8) (BitsToBytes bits) 0) (Z.shiftl 1 (Z.of_nat (0 mod 8))) =? 0)))
      by (rewrite length_map, length_seq; done).
    rewrite (map_nth (fun p => negb (Z.land (nth (p / 8) (BitsToBytes bits) 0) (Z.shiftl 1 (Z.of_nat (p mod 8))) =? 0))), seq_nth by done.
    cbn [Nat.add]. pose proof (Nat.div_mod p 8) as Ep. pose proof (Nat.mod_upper_bound p 8) as Bp.
    specialize (Hb (p / 8)%nat (p mod 8)%nat ltac:(lia)). replace (8 * (p / 8) + p mod 8)%nat with p in Hb by lia.
    assert (forall z k, 0 <= k -> negb (Z.land z (Z.shiftl 1 k) =? 0) = Z.testbit z k) as T.
    { intros z k Hk. rewrite Z.shiftl_1_l. destruct (Z.testbit z k) eqn:Et.
      - apply negb_true_iff, Z.eqb_neq. intros H0. apply (f_equal (fun x => Z.testbit x k)) in H0.
        by rewrite Z.land_spec, Et, Z.pow2_bits_true, Z.bits_0 in H0 by done.
      - apply negb_false_iff, Z.eqb_eq. apply Z.bits_inj'. intros i Hi. rewrite Z.land_spec, Z.bits_0.
        destruct (decide (i = k)) as [->|]; [by rewrite Et|]. rewrite Z.pow2_bits_false by lia. apply andb_false_r. }
    rewrite T, Hb by lia. destruct (Nat.ltb_spec p (length bits)) as [H|H].
    + by rewrite app_nth1 by done.
    + rewrite app_nth2, nth_replicate by done. done.
Qed.
End Flags.

Section Partial.
Context {K : Crypto} (l : list N) (vMatch : list bool).
#[local] Abbreviation n := (Z.of_nat (length l)).
#[local] Abbreviation W k := (Z.of_nat (width (length l) k)).
Context (Hn : 0 < n <= 2 ^ 30).

Lemma height_30 : (height (length l) <= 30)%nat.
Proof.
  unfold height. apply Nat.log2_up_le_pow2; [lia|]. apply Nat2Z.inj_le. rewrite Nat2Z.inj_pow.
  change (Z.of_nat 2 ^ Z.of_nat 30) with (2 ^ 30). lia.
Qed.

Lemma pow_30 h : (h <= 30)%nat -> 0 < 2 ^ Z.of_nat h <= 2 ^ 30.
Proof. intros H. split; [apply Z.pow_pos_nonneg; lia|apply Z.pow_le_mono_r; lia]. Qed.

Lemma CalcTreeWidth_spec h : (h <= 30)%nat -> CalcTreeWidth n h = W h.
Proof.
  intros Hh. unfold CalcTreeWidth. pose proof (pow_30 h Hh) as P. rewrite Z.shiftl_1_l, u32_id by (unfold_width; lia).
  rewrite Z.shiftr_div_pow2 by lia. unfold width. rewrite Nat2Z.inj_div, Nat2Z.inj_pow. f_equal.
  pose proof (pow2_pos h). rewrite Nat2Z.inj_sub by lia. rewrite Nat2Z.inj_add, Nat2Z.inj_pow. done.
Qed.

Lemma tree_height_spec d : forall k fuel, (k + d = height (length l))%nat -> (d < fuel)%nat -> tree_height fuel n k = height (length l).
Proof.
  pose proof height_30 as H30. induction d as [|d IH]; intros k fuel Hk Hf; (destruct fuel as [|fuel]; [lia|]); cbn [tree_height];
    rewrite CalcTreeWidth_spec by lia; pose proof (width_gt_1 (length l) k).
  - rewrite (proj2 (Z.ltb_ge _ _)) by lia. lia.
  - rewrite (proj2 (Z.ltb_lt _ _)) by lia. apply IH; lia.
Qed.

Lemma width_30 k : W k <= 2 ^ 30.
Proof.
  pose proof (width_le (length l) k (length l)) as [_ B]. pose proof (pow2_pos k). specialize (B ltac:(nia)). lia.
Qed.

Lemma child_range h p : 0 <= p < W (S h) -> u32 (p * 2) = 2 * p /\ u32 (p * 2 + 1) = 2 * p + 1 /\ 0 <= 2 * p < W h.
Proof.
  intros Hp. pose proof (width_30 (S h)). rewrite !u32_id by solve_width. split; [lia|]. split; [lia|].
  assert (W (S h) = (W h + 1) / 2) as E by (rewrite width_S, Nat2Z.inj_div, Nat2Z.inj_add; done).
  pose proof (Z.div_mod (W h + 1) 2 ltac:(lia)). pose proof (Z.mod_pos_bound (W h + 1) 2 ltac:(lia)). lia.
Qed.

Lemma CalcHash_spec h : (h <= 30)%nat -> forall p, 0 <= p < W h -> CalcHash n h p l = node l h p.
Proof.
  induction h as [|h IH]; intros Hh p Hp; [done|]. cbn [CalcHash]. destruct (child_range h p Hp) as (-> & -> & Hc).
  rewrite CalcTreeWidth_spec, node_S by (done || lia). rewrite IH by (done || lia).
  destruct (Z.ltb_spec (2 * p + 1) (W h)) as [H|H]; [|done]. by rewrite IH by lia.
Qed.

(** The leaves below a node, and the wanted ones among them. *)
Definition leaves_below (h : nat) (p : Z) : list nat :=
  seq (Z.to_nat (p * 2 ^ Z.of_nat h)) (Z.to_nat (Z.min ((p + 1) * 2 ^ Z.of_nat h) n - p * 2 ^ Z.of_nat h)).
Definition matched (h : nat) (p : Z) : list nat := List.filter (fun i => nth i vMatch false) (leaves_below h p).

Lemma node_start h p : 0 <= p < W h -> p * 2 ^ Z.of_nat h < n.
Proof.
  intros Hp. destruct (Z.lt_ge_cases (p * 2 ^ Z.of_nat h) n) as [|H]; [done|].
  pose proof (width_le (length l) h (Z.to_nat p)) as [_ B]. enough (length l <= Z.to_nat p * 2 ^ h)%nat by lia.
  apply Nat2Z.inj_le. rewrite Nat2Z.inj_mul, Nat2Z.inj_pow, Z2Nat.id by lia. exact H.
Qed.

Lemma node_absent h p : 0 <= p -> W h <= p -> n <= p * 2 ^ Z.of_nat h.
Proof.
  intros H0 Hp. pose proof (width_le (length l) h (Z.to_nat p)) as [B _]. specialize (B ltac:(lia)).
  apply inj_le in B. rewrite Nat2Z.inj_mul, Nat2Z.inj_pow, Z2Nat.id in B by lia. exact B.
Qed.

Lemma leaves_below_S h p : 0 <= p < W (S h) ->
  leaves_below (S h) p = leaves_below h (2 * p) ++ (if 2 * p + 1 <? W h then leaves_below h (2 * p + 1) else []).
Proof.
  intros Hp. pose proof (node_start (S h) p Hp) as Hs. unfold leaves_below.
  rewrite Nat2Z.inj_succ, Z.pow_succ_r in * by lia. pose proof (Z.pow_pos_nonneg 2 (Z.of_nat h) ltac:(lia) ltac:(lia)) as Hpow.
  set (e := 2 ^ Z.of_nat h) in *. replace (p * (2 * e)) with (2 * p * e) in * by lia.
  replace ((p + 1) * (2 * e)) with ((2 * p + 2) * e) by lia.
  destruct (Z.ltb_spec (2 * p + 1) (W h)) as [H|H].
  - pose proof (node_start h (2 * p + 1) ltac:(lia)) as Hs'. fold e in Hs'. rewrite (Z.min_l ((2 * p + 1) * e) n) by lia.
    replace (Z.to_nat ((2 * p + 1) * e)) with (Z.to_nat (2 * p * e) + Z.to_nat ((2 * p + 1) * e - 2 * p * e))%nat by lia.
    rewrite <- seq_app. f_equal. replace (2 * p + 1 + 1) with (2 * p + 2) by lia. lia.
  - pose proof (node_absent h (2 * p + 1) ltac:(lia) H) as Ha. fold e in Ha. rewrite app_nil_r. f_equal. lia.
Qed.

Lemma leaves_below_top : leaves_below (height (length l)) 0 = seq 0 (length l).
Proof.
  unfold leaves_below. pose proof (node_absent (height (length l)) 1 ltac:(lia)) as H. rewrite width_top in H by lia.
  specialize (H ltac:(lia)). rewrite Z.mul_0_l. f_equal. lia.
Qed.

Lemma take_drop_nth (v : list bool) a k : (a + k <= length v)%nat -> take k (drop a v) = map (fun i => nth i v false) (seq a k).
Proof.
  revert a. induction k as [|k IH]; intros a Hk; [by rewrite take_0|].
  destruct (drop a v) as [|x r] eqn:E.
  - apply (f_equal length) in E. rewrite length_drop in E. cbn in E. lia.
  - cbn [take seq map]. f_equal.
    + rewrite nth_lookup, <- (Nat.add_0_r a), <- lookup_drop, E. done.
    + rewrite <- IH by lia. f_equal. replace (S a) with (a + 1)%nat by lia. by rewrite <- drop_drop, E.
Qed.

Context (Hv : length vMatch = length l).

Lemma parent_of_match_spec h p : (h <= 30)%nat -> 0 <= p < W h ->
  parent_of_match n h p vMatch = negb (bool_decide (matched h p = [])).
Proof.
  intros Hh Hp. unfold parent_of_match, matched, leaves_below. pose proof (pow_30 h Hh) as P. pose proof (node_start h p Hp) as Hs.
  rewrite !Z.shiftl_mul_pow2 by lia. set (e := 2 ^ Z.of_nat h) in *.
  assert ((p + 1) * e <= 2 ^ 31) as Hb by lia. rewrite !u32_id by (unfold_width; lia).
  rewrite take_drop_nth by lia. generalize (seq (Z.to_nat (p * e)) (Z.to_nat (Z.min ((p + 1) * e) n - p * e))) as js. intros js.
  induction js as [|i js IH]; [done|]. cbn [map existsb List.filter]. destruct (nth i vMatch false); [done|]. exact IH.
Qed.

Lemma matched_S h p : 0 <= p < W (S h) ->
  matched (S h) p = matched h (2 * p) ++ (if 2 * p + 1 <? W h then matched h (2 * p + 1) else []).
Proof.
  intros Hp. unfold matched. rewrite leaves_below_S, List.filter_app by done. by destruct (2 * p + 1 <? W h).
Qed.

Lemma matched_0 p : 0 <= p < W 0 -> matched 0 p = if nth (Z.to_nat p) vMatch false then [Z.to_nat p] else [].
Proof.
  intros Hp. rewrite width_0 in Hp. unfold matched, leaves_below. change (2 ^ Z.of_nat 0) with 1. rewrite !Z.mul_1_r.
  replace (Z.to_nat (Z.min (p + 1) n - p)) with 1%nat by lia. done.
Qed.

Definition found (js : list nat) : list N := map (fun i => nth i l 0%N) js.

Lemma extract_built : has_twins l = false -> forall h, (h <= 30)%nat -> forall p b hs rb rh ms xs bad, 0 <= p < W h ->
  TraverseAndBuild n h p l vMatch = (b, hs) ->
  TraverseAndExtract n h p (mkExtract (b ++ rb) (hs ++ rh) ms xs bad) =
  (node l h p, mkExtract rb rh (ms ++ found (matched h p)) (xs ++ map Z.of_nat (matched h p)) bad).
Proof.
  intros Htw. induction h as [|h IH]; intros Hh p b hs rb rh ms xs bad Hp; cbn [TraverseAndBuild]; rewrite parent_of_match_spec by done.
  - intros [= <- <-]. cbn [app TraverseAndExtract x_bits x_hashes x_match x_index x_bad Nat.eqb andb].
    rewrite matched_0 by done. destruct (nth (Z.to_nat p) vMatch false).
    + rewrite bool_decide_eq_false_2 by done. cbn [negb found map]. by rewrite Z2Nat.id by lia.
    + rewrite bool_decide_eq_true_2 by done. cbn [negb found map]. by rewrite !app_nil_r.
  - destruct (bool_decide_reflect (matched (S h) p = [])) as [E|E]; cbn [negb].
    + rewrite (CalcHash_spec (S h)) by done. intros [= <- <-]. rewrite E.
      cbn [app TraverseAndExtract x_bits x_hashes x_match x_index x_bad Nat.eqb andb negb found map]. by rewrite !app_nil_r.
    + destruct (child_range h p Hp) as (-> & -> & Hc). rewrite CalcTreeWidth_spec by lia.
      destruct (TraverseAndBuild n h (2 * p) l vMatch) as [b1 h1] eqn:E1.
      rewrite node_S, matched_S by done. destruct (Z.ltb_spec (2 * p + 1) (W h)) as [H|H].
      * destruct (TraverseAndBuild n h (2 * p + 1) l vMatch) as [b2 h2] eqn:E2. intros [= <- <-].
        cbn [app TraverseAndExtract x_bits x_hashes x_match x_index x_bad negb]. destruct (child_range h p Hp) as (-> & -> & _).
        rewrite <- !app_assoc. rewrite (IH ltac:(lia) (2 * p) b1 h1) by (done || lia). rewrite CalcTreeWidth_spec by lia.
        rewrite (proj2 (Z.ltb_lt _ _)) by done. rewrite (IH ltac:(lia) (2 * p + 1) b2 h2) by (done || lia).
        cbn [x_bits x_hashes x_match x_index x_bad]. rewrite (proj2 (N.eqb_neq _ _)).
        { unfold found. by rewrite orb_false_r, !map_app, <- !app_assoc. }
        intros Et. symmetry in Et. revert Et. apply (no_twins l Htw); lia.
      * intros [= <- <-]. cbn [app TraverseAndExtract x_bits x_hashes x_match x_index x_bad negb].
        destruct (child_range h p Hp) as (-> & -> & _). rewrite !app_nil_r, (IH ltac:(lia) (2 * p) b1 h1) by (done || lia).
        rewrite CalcTreeWidth_spec by lia. by rewrite (proj2 (Z.ltb_ge _ _)) by done.
Qed.

(** There are no more hashes than leaves, nor than flags. *)
Lemma built_sizes h : (h <= 30)%nat -> forall p b hs, 0 <= p < W h -> TraverseAndBuild n h p l vMatch = (b, hs) ->
  (length hs <= length (leaves_below h p))%nat /\ (length hs <= length b)%nat.
Proof.
  assert (forall h p, 0 <= p < W h -> (1 <= length (leaves_below h p))%nat) as L1.
  { intros h' p Hp. unfold leaves_below. rewrite length_seq. pose proof (node_start h' p Hp).
    pose proof (Z.pow_pos_nonneg 2 (Z.of_nat h') ltac:(lia) ltac:(lia)). nia. }
  induction h as [|h IH]; intros Hh p b hs Hp; cbn [TraverseAndBuild].
  - intros [= <- <-]. cbn [length]. split; [by apply L1|done].
  - destruct (negb _); [intros [= <- <-]; split; [by apply L1|done]|].
    destruct (child_range h p Hp) as (-> & -> & Hc). rewrite CalcTreeWidth_spec by lia. rewrite leaves_below_S by done.
    destruct (TraverseAndBuild n h (2 * p) l vMatch) as [b1 h1] eqn:E1. destruct (IH ltac:(lia) _ _ _ Hc E1) as [S1 S2].
    destruct (Z.ltb_spec (2 * p + 1) (W h)) as [H|H].
    + destruct (TraverseAndBuild n h (2 * p + 1) l vMatch) as [b2 h2] eqn:E2.
      destruct (IH ltac:(lia) (2 * p + 1) b2 h2 ltac:(lia) E2) as [S3 S4]. intros [= <- <-]. cbn [length]. rewrite !length_app. lia.
    + intros [= <- <-]. cbn [length]. rewrite !app_nil_r. lia.
Qed.
End Partial.

Section Binding.
Context {K : Crypto}.

(** Two different pairs with the same hash, one hashed by either computation. *)
Definition collision (P Q : N -> N -> Prop) : Prop := exists a b c d, P a b /\ Q c d /\ (a, b) <> (c, d) /\ Hash a b = Hash c d.

(** The pairs of a level, and the pairs hashed on the way to the root. *)
Definition paired (L : list N) (a b : N) : Prop :=
  exists p, (2 * p + 1 < length L)%nat /\ a = nth (2 * p) L 0%N /\ b = nth (2 * p + 1) L 0%N.
Definition hashed (X : list N) (a b : N) : Prop :=
  exists k, (k < height (length X))%nat /\ paired (duplicate_last (level X k)) a b.

Lemma hash_cases (P Q : N -> N -> Prop) a b c d : P a b -> Q c d -> Hash a b = Hash c d -> (a = c /\ b = d) \/ collision P Q.
Proof.
  intros HP HQ E. destruct (decide ((a, b) = (c, d))) as [[= -> ->]|H]; [by left|]. right. by exists a, b, c, d.
Qed.

Lemma collision_mono (P Q P' Q' : N -> N -> Prop) : (forall a b, P a b -> P' a b) -> (forall a b, Q a b -> Q' a b) -> collision P Q -> collision P' Q'.
Proof. intros HP HQ (a & b & c & d & H). exists a, b, c, d. naive_solver. Qed.

Lemma paired_tail x y L a b : paired L a b -> paired (x :: y :: L) a b.
Proof.
  intros (p & Hp & -> & ->). exists (S p). cbn [length]. split; [lia|].
  replace (2 * S p)%nat with (S (S (2 * p))) by lia. by replace (S (S (2 * p)) + 1)%nat with (S (S (2 * p + 1))) by lia.
Qed.
Lemma paired_head x y L : paired (x :: y :: L) x y.
Proof. exists 0%nat. cbn. split; [lia|done]. Qed.

Lemma SHA256D64_inj X : forall Y, Nat.even (length X) = true -> Nat.even (length Y) = true -> SHA256D64 X = SHA256D64 Y ->
  X = Y \/ collision (paired X) (paired Y).
Proof.
  induction X as [|a|a b X IH] using pair_ind; intros Y HX HY E; [|done|].
  - destruct Y as [|c [|d Y]]; [by left|done|done].
  - destruct Y as [|c [|d Y]]; [done|done|]. cbn [SHA256D64] in E. injection E as Eh E.
    destruct (hash_cases _ _ _ _ _ _ (paired_head a b X) (paired_head c d Y) Eh) as [[-> ->]|]; [|by right].
    destruct (IH Y HX HY E) as [->|C]; [by left|right]. eapply collision_mono; [| |exact C]; intros; by apply paired_tail.
Qed.

Lemma pairs_equal_twins A a : Nat.even (length A) = true -> pairs_equal (A ++ [a; a]) = true.
Proof.
  induction A as [|x|x y A IH] using pair_ind; intros H; [cbn; by rewrite N.eqb_refl|done|].
  cbn [app pairs_equal]. rewrite IH by exact H. apply orb_true_r.
Qed.

Lemma odd_split X : Nat.odd (length X) = true -> exists A a, X = A ++ [a] /\ Nat.even (length A) = true /\ List.last X 0%N = a.
Proof.
  intros H. destruct (@exists_last _ X) as [A [a ->]]; [by intros ->|]. rewrite length_app, Nat.add_1_r, Nat.odd_succ in H.
  exists A, a. split; [done|]. split; [done|]. by rewrite List.last_last.
Qed.

Lemma duplicate_last_even X : Nat.even (length (duplicate_last X)) = true.
Proof. rewrite length_duplicate_last, Nat.even_mul. done. Qed.

(** A level without twins is known from the next one. *)
Lemma next_level_inj X Y : pairs_equal X = false -> pairs_equal Y = false -> next_level X = next_level Y ->
  X = Y \/ collision (paired (duplicate_last X)) (paired (duplicate_last Y)).
Proof.
  intros TX TY E. destruct (SHA256D64_inj _ _ (duplicate_last_even X) (duplicate_last_even Y) E) as [D|]; [|by right]. left.
  unfold duplicate_last in D.
  destruct (Nat.odd (length X)) eqn:OX, (Nat.odd (length Y)) eqn:OY; [|exfalso|exfalso|done].
  - destruct (odd_split X OX) as (A & a & EX & _ & La), (odd_split Y OY) as (B & b & EY & _ & Lb).
    by apply app_inj_tail in D as [-> _].
  - destruct (odd_split X OX) as (A & a & EX & HA & La). rewrite La, EX, <- app_assoc in D. cbn [app] in D. subst Y.
    by rewrite pairs_equal_twins in TY.
  - destruct (odd_split Y OY) as (B & b & EY & HB & Lb). rewrite Lb, EY, <- app_assoc in D. cbn [app] in D. subst X.
    by rewrite pairs_equal_twins in TX.
Qed.

Lemma levels_inj k : forall X Y, (forall j, (j < k)%nat -> pairs_equal (level X j) = false /\ pairs_equal (level Y j) = false) ->
  level X k = level Y k -> X = Y \/
  exists j, (j < k)%nat /\ collision (paired (duplicate_last (level X j))) (paired (duplicate_last (level Y j))).
Proof.
  induction k as [|k IH]; intros X Y T E; [by left|]. destruct (T k ltac:(lia)) as [TX TY].
  destruct (next_level_inj _ _ TX TY E) as [E'|C]; [|right; exists k; split; [lia|done]].
  destruct (IH X Y) as [|(j & Hj & C)]; [intros j Hj; apply T; lia|done|by left|]. right. exists j. split; [lia|done].
Qed.

Lemma level_add X a b : level (level X a) b = level X (a + b).
Proof. induction b as [|b IH]; [by rewrite Nat.add_0_r|]. rewrite Nat.add_succ_r. cbn [level]. by rewrite IH. Qed.

Lemma twin_free X j : has_twins X = false -> (j < height (length X))%nat -> pairs_equal (level X j) = false.
Proof.
  intros H Hj. destruct (pairs_equal (level X j)) eqn:E; [|done]. rewrite <- H. symmetry. apply existsb_exists.
  exists j. split; [apply in_seq; lia|done].
Qed.

Lemma top_level X : X <> [] -> level X (height (length X)) = [node X (height (length X)) 0].
Proof.
  intros HX. assert (0 < length X)%nat as Hn by (destruct X; [done|cbn; lia]).
  pose proof (length_level X (height (length X))) as E. rewrite width_top in E by done. unfold node. cbn [Z.to_nat].
  destruct (level X (height (length X))) as [|h [|]]; done.
Qed.

(** Some leaf of [X] is itself the hash of two nodes below [Y]'s root. *)
Definition leaf_is_node (X Y : list N) : Prop := exists leaf a b, In leaf X /\ hashed Y a b /\ leaf = Hash a b.

Lemma root_binds_le X Y : X <> [] -> Y <> [] -> has_twins X = false -> has_twins Y = false ->
  node X (height (length X)) 0 = node Y (height (length Y)) 0 -> (height (length X) <= height (length Y))%nat ->
  X = Y \/ collision (hashed X) (hashed Y) \/ leaf_is_node X Y.
Proof.
  intros HX HY TX TY E Hh. pose proof (top_level X HX) as LX. pose proof (top_level Y HY) as LY. rewrite <- E, <- LX in LY.
  set (d := (height (length Y) - height (length X))%nat).
  destruct (levels_inj (height (length X)) X (level Y d)) as [Eq|(j & Hj & C)].
  - intros j Hj. split; [by apply twin_free|]. rewrite level_add. apply twin_free; [done|]. unfold d. lia.
  - rewrite level_add. unfold d. by replace (height (length Y) - height (length X) + height (length X))%nat with (height (length Y)) by lia.
  - assert (d <= height (length Y))%nat as Hd by (unfold d; lia). clearbody d. destruct d as [|d]; [by left|]. right; right.
    destruct X as [|x X]; [done|]. change (level Y (S d)) with (next_level (level Y d)) in Eq.
    assert (0 < length (next_level (level Y d)))%nat as Hlt by (rewrite <- Eq; cbn; lia).
    destruct (duplicate_nth _ _ Hlt) as (Hp & _ & _). exists x. do 2 eexists. split; [by left|].
    split; [exists d; split; [lia|]; by exists 0%nat|]. pose proof (f_equal (fun l => nth 0 l 0%N) Eq) as Ex. cbn [nth] in Ex.
    rewrite Ex. unfold next_level. by rewrite SHA256D64_nth.
  - right; left. eapply collision_mono; [| |exact C]; intros a b H.
    + by exists j.
    + rewrite level_add in H. exists (d + j)%nat. split; [unfold d; lia|done].
Qed.

(** An odd number of hashes and the same with the last one twice. *)
Lemma duplicate_same_levels X : Nat.odd (length X) = true -> next_level (X ++ [List.last X 0%N]) = next_level X.
Proof.
  intros H. unfold next_level, duplicate_last at 1. rewrite length_app. cbn [length]. rewrite Nat.add_1_r, Nat.odd_succ.
  rewrite <- Nat.negb_odd, H. cbn [negb]. unfold duplicate_last. by rewrite H.
Qed.
End Binding.

Section Extracted.
Context {K : Crypto}.

(** The pairs an extraction hashes: the recursion of [TraverseAndExtract], with the pairs
    instead of the results. *)
Fixpoint extract_hashed (n : Z) (height : nat) (pos : Z) (x : extraction) : list (N * N) :=
  match x_bits x, height with
  | true :: bits, S height' =>
      let x := mkExtract bits (x_hashes x) (x_match x) (x_index x) (x_bad x) in
      let '(a, x1) := TraverseAndExtract n height' (u32 (pos * 2)) x in
      extract_hashed n height' (u32 (pos * 2)) x ++
      if u32 (pos * 2 + 1) <? CalcTreeWidth n height'
      then extract_hashed n height' (u32 (pos * 2 + 1)) x1 ++ [(a, (TraverseAndExtract n height' (u32 (pos * 2 + 1)) x1).1)]
      else [(a, a)]
  | _, _ => []
  end.

Definition computed (n : Z) (height : nat) (pos : Z) (x : extraction) (a b : N) : Prop := In (a, b) (extract_hashed n height pos x).
End Extracted.

Section Sound.
Context {K : Crypto} (l : list N).
#[local] Abbreviation n := (Z.of_nat (length l)).
#[local] Abbreviation W k := (Z.of_nat (width (length l) k)).
Context (Hn : 0 < n <= 2 ^ 30).

Definition leaf_at (m : N) (j : Z) : Prop := 0 <= j < n /\ m = nth (Z.to_nat j) l 0%N.

Lemma hashed_node k p : (k < height (length l))%nat -> 0 <= p < W (S k) ->
  hashed l (node l k (2 * p)) (node l k (if 2 * p + 1 <? W k then 2 * p + 1 else 2 * p)).
Proof.
  intros Hk Hp. exists k. split; [done|]. exists (Z.to_nat p). unfold node.
  destruct (duplicate_nth (level l k) (Z.to_nat p)) as (H & -> & ->).
  { change (next_level (level l k)) with (level l (S k)). rewrite length_level. lia. }
  split; [done|]. rewrite length_level. replace (2 * Z.to_nat p)%nat with (Z.to_nat (2 * p)) by lia. split; [done|].
  replace (Z.to_nat (2 * p) + 1)%nat with (Z.to_nat (2 * p + 1)) by lia.
  destruct (Nat.ltb_spec (Z.to_nat (2 * p + 1)) (width (length l) k)), (Z.ltb_spec (2 * p + 1) (W k)); done || lia.
Qed.

(** Whatever the flags and hashes sent: a node with the right hash has the right leaves. *)
Lemma extract_sound (P : N -> N -> Prop) h : (h <= height (length l))%nat -> forall p x r x', TraverseAndExtract n h p x = (r, x') ->
  x_bad x' = false -> x_bad x = false /\ exists ms js, x_match x' = x_match x ++ ms /\ x_index x' = x_index x ++ js /\
    (0 <= p < W h -> (forall a b, computed n h p x a b -> P a b) -> r = node l h p -> collision P (hashed l) \/ Forall2 leaf_at ms js).
Proof.
  pose proof (height_30 l Hn) as H30. unfold computed.
  induction h as [|h IH]; intros Hh p x r x'; cbn [TraverseAndExtract extract_hashed].
  - destruct (x_bits x) as [|f bits]; [by intros [= <- <-]|]. destruct (x_hashes x) as [|hash hashes]; [by intros [= <- <-]|].
    cbn [Nat.eqb andb]. destruct f; intros [= <- <-] Hb; cbn [x_bad x_match x_index] in *; (split; [done|]).
    + exists [hash], [p]. split; [done|]. split; [done|]. intros Hp _ E. right. rewrite width_0 in Hp. by repeat constructor; cbn; [lia..|].
    + exists [], []. rewrite !app_nil_r. split; [done|]. split; [done|]. intros _ _ _. by right.
  - destruct (x_bits x) as [|f bits]; [by intros [= <- <-]|]. destruct f; cbn [negb Nat.eqb andb].
    + set (x0 := mkExtract bits _ _ _ _). destruct (TraverseAndExtract n h (u32 (p * 2)) x0) as [r1 x1] eqn:E1.
      rewrite CalcTreeWidth_spec by (done || lia). destruct (u32 (p * 2 + 1) <? W h) eqn:Ew.
      * destruct (TraverseAndExtract n h (u32 (p * 2 + 1)) x1) as [r2 x2] eqn:E2. intros [= <- <-] Hb.
        cbn [x_bad x_match x_index fst] in *. apply orb_false_iff in Hb as [Hb _].
        destruct (IH ltac:(lia) _ _ _ _ E2 Hb) as (B1 & m2 & j2 & M2 & J2 & S2).
        destruct (IH ltac:(lia) _ _ _ _ E1 B1) as (B0 & m1 & j1 & M1 & J1 & S1). split; [done|].
        exists (m1 ++ m2), (j1 ++ j2). rewrite M2, M1, J2, J1. subst x0. cbn [x_match x_index]. rewrite !app_assoc. split; [done|]. split; [done|].
        intros Hp HP E. destruct (child_range l Hn h p Hp) as (Eu & Ev & Hc). pose proof (hashed_node h p ltac:(lia) Hp) as HN.
        rewrite Ev in Ew. rewrite node_S in E by done. rewrite Ew in HN, E. apply Z.ltb_lt in Ew.
        assert (P r1 r2) as HQ by (apply HP; rewrite !in_app_iff; cbn [In]; tauto).
        destruct (hash_cases _ _ _ _ _ _ HQ HN E) as [[Ea Eb]|]; [|by left]. rewrite Eu in *. rewrite Ev in *.
        destruct (S1 Hc ltac:(intros; apply HP; rewrite !in_app_iff; tauto) Ea) as [|F1]; [by left|].
        destruct (S2 ltac:(lia) ltac:(intros; apply HP; rewrite !in_app_iff; tauto) Eb) as [|F2]; [by left|].
        right. by apply Forall2_app.
      * intros [= <- <-] Hb. destruct (IH ltac:(lia) _ _ _ _ E1 Hb) as (B0 & m1 & j1 & M1 & J1 & S1). split; [done|].
        exists m1, j1. split; [done|]. split; [done|]. intros Hp HP E. destruct (child_range l Hn h p Hp) as (Eu & Ev & Hc).
        pose proof (hashed_node h p ltac:(lia) Hp) as HN. rewrite node_S in E by done.
        assert (P r1 r1) as HQ by (apply HP; rewrite !in_app_iff; cbn [In]; tauto).
        destruct (hash_cases _ _ _ _ _ _ HQ HN E) as [[Ea Eb]|]; [|by left]. rewrite Eu in *.
        apply S1; [done|intros; apply HP; rewrite !in_app_iff; tauto|done].
    + destruct (x_hashes x) as [|hash hashes]; intros [= <- <-] Hb; cbn [x_bad x_match x_index] in *; [done|]. split; [done|].
      exists [], []. rewrite !app_nil_r. split; [done|]. split; [done|]. intros _ _ _. by right.
Qed.
End Sound.

Lemma root_binds {K : Crypto} (X Y : list N) : X <> [] -> Y <> [] ->
  (ComputeMerkleRoot X).1 = (ComputeMerkleRoot Y).1 -> (ComputeMerkleRoot X).2 = false -> (ComputeMerkleRoot Y).2 = false ->
  X = Y \/ collision (hashed X) (hashed Y) \/ leaf_is_node X Y \/ leaf_is_node Y X.
Proof.
  intros HX HY. rewrite !ComputeMerkleRoot_spec by done. cbn [fst snd]. intros E TX TY.
  destruct (Nat.le_ge_cases (height (length X)) (height (length Y))) as [H|H].
  - destruct (root_binds_le X Y HX HY TX TY E H) as [|[|]]; tauto.
  - destruct (root_binds_le Y X HY HX TY TX (eq_sym E) H) as [->|[(a & b & c & d & H1 & H2 & Hne & Eh)|]]; [by left| |tauto].
    right; left. exists c, d, a, b. split_and!; [done|done|congruence|done].
Qed.

(** ** Theorems *)

(** Transactions cannot be exchanged under a Merkle root.  Two lists of hashes with
    the same root, neither reported as mutated, are the same list, unless two different
    pairs hashed on the way to the roots have the same hash, or one of the hashes is itself
    that of a pair hashed for the other list.  The report
    is needed: an odd list longer than one and the same list with its last hash repeated
    have the same root, and the second is reported. *)
Theorem merkle_root_binds {K : Crypto} (X Y : list N) : X <> [] -> Y <> [] ->
  ((ComputeMerkleRoot X).1 = (ComputeMerkleRoot Y).1 -> (ComputeMerkleRoot X).2 = false -> (ComputeMerkleRoot Y).2 = false ->
     X = Y \/ collision (hashed X) (hashed Y) \/ leaf_is_node X Y \/ leaf_is_node Y X) /\
  (Nat.odd (length X) = true -> (1 < length X)%nat ->
     ComputeMerkleRoot (X ++ [List.last X 0%N]) = ((ComputeMerkleRoot X).1, true)).
Proof.
  intros HX HY. split; [by apply root_binds|]. rewrite (ComputeMerkleRoot_spec X) by done. cbn [fst].
  intros Ho H1. set (Y' := X ++ [List.last X 0%N]). rewrite ComputeMerkleRoot_spec by (by destruct X).
    assert (length Y' = S (length X)) as Ly by (unfold Y'; rewrite length_app; cbn; lia).
    assert (forall k, level Y' (S k) = level X (S k)) as EL.
    { induction k as [|k IH]; [apply (duplicate_same_levels X Ho)|]. cbn [level] in *. by rewrite IH. }
    assert (height (length Y') = height (length X)) as Eh.
    { apply Nat.le_antisymm.
      - destruct (Nat.le_gt_cases (height (length Y')) (height (length X))) as [|H]; [done|].
        apply width_gt_1 in H. rewrite <- length_level in H. destruct (height (length X)) as [|k] eqn:Ek.
        { pose proof (width_gt_1 (length X) 0). rewrite width_0, Ek in *. lia. }
        rewrite EL, length_level, <- Ek, width_top in H by lia. lia.
      - unfold height. apply Nat.log2_up_le_mono. lia. }
    pose proof (width_gt_1 (length X) 0) as H0. rewrite width_0 in H0. f_equal.
    + rewrite Eh. unfold node. destruct (height (length X)) as [|k] eqn:Ek; [lia|]. by rewrite EL.
    + unfold has_twins. apply existsb_exists. exists 0%nat. split; [apply in_seq; lia|]. cbn [level]. unfold Y'.
      destruct (odd_split X Ho) as (A & a & -> & HA & La). rewrite La, <- app_assoc. by apply pairs_equal_twins.
Qed.

(** The constant-space computation agrees with the level-by-level one.  For up to 2^31
    leaves and any contents of the uninitialized array, its root is the root of
    [ComputeMerkleRoot], and folding the path it returns with the leaf at the position
    gives that root. *)
Theorem constant_space_root_and_path {K : Crypto} mem leaves pos :
  length mem = 32%nat -> 0 < Z.of_nat (length leaves) <= 2 ^ 31 -> 0 <= pos < Z.of_nat (length leaves) ->
  (MerkleComputation mem leaves pos).1.1 = (ComputeMerkleRoot leaves).1 /\
  ComputeMerkleRootFromBranch (nth (Z.to_nat pos) leaves 0%N) (ComputeMerklePath mem leaves pos) pos = (ComputeMerkleRoot leaves).1.
Proof.
  intros Hm Hn Hp. rewrite ComputeMerkleRoot_spec by (intros ->; cbn in Hn; lia). cbn [fst].
  destruct (MerkleComputation_spec mem leaves pos Hm Hn Hp) as [E1 E2]. split; [done|]. unfold ComputeMerklePath. rewrite E2.
  pose proof (root_from_branch_spec leaves pos (height (length leaves)) Hp 0) as E. rewrite up_0 in E. cbn [Nat.add] in E.
  unfold path_to. unfold node in E at 1. cbn [level] in E. rewrite E. f_equal.
  apply Z.div_small. split; [lia|]. pose proof (width_le (length leaves) (height (length leaves)) 1) as [B _].
  rewrite width_top in B by lia. specialize (B ltac:(lia)). apply inj_le in B. rewrite Nat2Z.inj_mul, Nat2Z.inj_pow in B.
  change (Z.of_nat 2) with 2 in B. change (Z.of_nat 1) with 1 in B. lia.
Qed.

(** A partial tree proves what it was built for.  From the tree built over a block's
    hashes and a selection, written to a stream and read back, extraction gives the root
    of the block and exactly the selected hashes with their positions, if the block is
    within the size limit and its root is not reported as mutated. *)
Theorem partial_tree_roundtrip {K : Crypto} (vTxid : list N) (vMatch : list bool) dgpMaxBlockSize :
  vTxid <> [] -> length vMatch = length vTxid -> Z.of_nat (length vTxid) <= max_transactions dgpMaxBlockSize ->
  (ComputeMerkleRoot vTxid).2 = false ->
  let js := List.filter (fun i => nth i vMatch false) (seq 0 (length vTxid)) in
  ExtractMatches dgpMaxBlockSize (transmitted (CPartialMerkleTree_new vTxid vMatch)) =
  ((ComputeMerkleRoot vTxid).1, map (fun i => nth i vTxid 0%N) js, map Z.of_nat js).
Proof.
  intros Hne Hv Hmax Htw js. rewrite ComputeMerkleRoot_spec in Htw |- * by done. cbn [fst snd] in Htw |- *.
  assert (0 < Z.of_nat (length vTxid) <= 2 ^ 30) as Hn.
  { split; [destruct vTxid; [done|cbn; lia]|]. transitivity (max_transactions dgpMaxBlockSize); [done|]. unfold max_transactions.
    pose proof (u32_range (dgpMaxBlockSize * 4)). apply Z.div_le_upper_bound; unfold_width; lia. }
  pose proof (height_30 vTxid Hn) as H30.
  assert (tree_height 32 (Z.of_nat (length vTxid)) 0 = height (length vTxid)) as Eh by (apply (tree_height_spec vTxid Hn (height (length vTxid))); lia).
  unfold CPartialMerkleTree_new. rewrite u32_id by solve_width. rewrite Eh.
  destruct (TraverseAndBuild _ _ _ _ _) as [b hs] eqn:Eb.
  assert (0 <= 0 < Z.of_nat (width (length vTxid) (height (length vTxid)))) as Hp by (rewrite width_top; lia).
  destruct (built_sizes vTxid vMatch Hn Hv _ H30 0 b hs Hp Eb) as [S1 S2]. rewrite leaves_below_top, length_seq in S1 by done.
  unfold transmitted, ExtractMatches. cbn [nTransactions vBits vHash fBad]. rewrite bits_roundtrip. rewrite length_app, length_replicate.
  rewrite (proj2 (Z.eqb_neq _ _)), (proj2 (Z.ltb_ge _ _)), (proj2 (Z.ltb_ge _ _)), (proj2 (Nat.ltb_ge _ _)) by lia.
  rewrite Eh, <- (app_nil_r hs).
  rewrite (extract_built vTxid vMatch Hn Hv Htw _ H30 0 b hs) by done. cbn [x_bits x_hashes x_match x_index x_bad length app].
  rewrite length_replicate. pose proof (Nat.div_mod (length b + 7) 8) as D. pose proof (Nat.mod_upper_bound (length b + 7) 8) as B.
  set (c := ((length b + 7) / 8)%nat) in *.
  replace (length b + (c * 8 - length b) - (c * 8 - length b))%nat with (length b) by lia. fold c.
  assert ((length b + (c * 8 - length b) + 7) / 8 = c)%nat as -> by (symmetry; apply (Nat.div_unique _ 8 c 7); lia).
  rewrite Nat.eqb_refl. cbn [negb Nat.eqb]. unfold matched. by rewrite leaves_below_top.
Qed.

(** C26: A partial tree that states the number of transactions of the block cannot lie.  If
    extraction from any tree, however it was made, gives the root of a block whose number of
    transactions the tree states, then every hash it reports is the hash of the block at the
    position it reports, unless a pair hashed by the extraction and a different one hashed for
    the block's root collide.  The root alone does not bind the number: a tree of one
    transaction whose only hash is the root of a block extracts that root as a transaction,
    so the number has to be compared, as [verifytxoutproof] does (rpc/txoutproof.cpp). *)
Theorem partial_tree_sound {K : Crypto} (vTxid : list N) dgpMaxBlockSize t root ms js :
  ExtractMatches dgpMaxBlockSize t = (root, ms, js) -> root = (ComputeMerkleRoot vTxid).1 -> root <> 0%N ->
  (nTransactions t = Z.of_nat (length vTxid) ->
   collision (computed (nTransactions t) (tree_height 32 (nTransactions t) 0) 0 (mkExtract (vBits t) (vHash t) [] [] (fBad t))) (hashed vTxid) \/
   Forall2 (leaf_at vTxid) ms js) /\
  (1 <= max_transactions dgpMaxBlockSize -> ExtractMatches dgpMaxBlockSize (mkPartial 1 [true] [root] false) = (root, [root], [0])).
Proof.
  intros Hx Hr H0. split.
  2:{ intros H1. unfold ExtractMatches. cbn [nTransactions]. by rewrite (proj2 (Z.ltb_ge _ _)). }
  intros Hn. unfold ExtractMatches in Hx. rewrite Hn in *.
  destruct (Z.eqb_spec (Z.of_nat (length vTxid)) 0) as [|Hz]; [by injection Hx as <- <- <-|].
  destruct (Z.ltb_spec (max_transactions dgpMaxBlockSize) (Z.of_nat (length vTxid))) as [|Hmax]; [by injection Hx as <- <- <-|].
  destruct (Z.of_nat (length vTxid) <? _); [by injection Hx as <- <- <-|].
  destruct (length (vBits t) <? length (vHash t))%nat; [by injection Hx as <- <- <-|].
  assert (0 < Z.of_nat (length vTxid) <= 2 ^ 30) as Hb.
  { split; [lia|]. transitivity (max_transactions dgpMaxBlockSize); [done|]. unfold max_transactions.
    pose proof (u32_range (dgpMaxBlockSize * 4)). apply Z.div_le_upper_bound; unfold_width; lia. }
  pose proof (height_30 vTxid Hb) as H30.
  rewrite (tree_height_spec vTxid Hb (height (length vTxid))) in * by lia.
  destruct (TraverseAndExtract _ _ _ _) as [r x] eqn:E.
  destruct (x_bad x) eqn:Eb; [by injection Hx as <- <- <-|]. destruct (negb _); [by injection Hx as <- <- <-|].
  destruct (negb _); [by injection Hx as <- <- <-|]. injection Hx as -> <- <-.
  match goal with |- collision ?P _ \/ _ =>
    destruct (extract_sound vTxid Hb P _ (le_n _) _ _ _ _ E Eb) as (_ & ms & js & -> & -> & S) end. cbn [x_match x_index app].
  apply S; [rewrite width_top; lia|done|]. rewrite ComputeMerkleRoot_spec in Hr by (intros ->; done). exact Hr.
Qed.

Lemma merkle_root_binds_witness :
  @ComputeMerkleRoot toy_crypto [1; 2; 3; 3]%N = ((@ComputeMerkleRoot toy_crypto [1; 2; 3]%N).1, true).
Proof. apply (@merkle_root_binds toy_crypto [1; 2; 3]%N [1]%N); [done|done|done|cbn; lia]. Defined.

Lemma constant_space_root_and_path_witness :
  @ComputeMerkleRootFromBranch toy_crypto 5%N (@ComputeMerklePath toy_crypto (replicate 32 9%N) [1; 2; 3; 4; 5]%N 4) 4 =
  (@ComputeMerkleRoot toy_crypto [1; 2; 3; 4; 5]%N).1.
Proof. apply (@constant_space_root_and_path toy_crypto (replicate 32 9%N) [1; 2; 3; 4; 5]%N 4); done. Defined.

Definition five_matched : @CPartialMerkleTree := transmitted (@CPartialMerkleTree_new toy_crypto [1; 2; 3; 4; 5]%N [false; true; false; false; true]).

Lemma partial_tree_roundtrip_witness :
  @ExtractMatches toy_crypto 2000000 five_matched = ((@ComputeMerkleRoot toy_crypto [1; 2; 3; 4; 5]%N).1, [2; 5]%N, [1; 4]).
Proof.
  apply (@partial_tree_roundtrip toy_crypto [1; 2; 3; 4; 5]%N [false; true; false; false; true] 2000000); [done|done|done|].
  vm_compute. done.
Defined.

Lemma partial_tree_sound_witness :
  @collision toy_crypto (@computed toy_crypto 5 3 0 (mkExtract (vBits five_matched) (vHash five_matched) [] [] false)) (@hashed toy_crypto [1; 2; 3; 4; 5]%N) \/
  Forall2 (leaf_at [1; 2; 3; 4; 5]%N) [2; 5]%N [1; 4].
Proof.
  refine (proj1 (@partial_tree_sound toy_crypto [1; 2; 3; 4; 5]%N 2000000 five_matched (@ComputeMerkleRoot toy_crypto [1; 2; 3; 4; 5]%N).1 _ _ _ _ _) _);
    [vm_compute; done|done|vm_compute; done|done].
Defined.
End Merkle.
