(* ===== verification/Script.v ===== *)
(** * Scripts (script/script.h, script/script.cpp, script/solver.cpp)

    A [CScript] is its bytes.  The file has the instruction reader [GetScriptOp] and the
    loops over it, the writers ([operator<<], [CScriptNum::serialize]), the parameter
    editing the fork uses for contract outputs ([ReplaceParam], [FindParam]), and the
    classification of output scripts ([Solver] with [MatchContract]).  The theorems: numbers
    survive the script format, what a contract sender signs does not depend on the
    signature, and the contract calls consensus accepts are exactly those described. *)

From stdpp Require Import prelude list.
From Stdlib Require Import ZArith Lia.
From S2P Require Import Prelude Serialize Crypto.

Open Scope Z_scope.

Module Script.

(** ** Opcodes *)

Definition OP_0 : Z := 0x00.
Definition OP_PUSHDATA1 : Z := 0x4c.
Definition OP_PUSHDATA2 : Z := 0x4d.
Definition OP_PUSHDATA4 : Z := 0x4e.
Definition OP_1 : Z := 0x51.
Definition OP_16 : Z := 0x60.
Definition OP_RETURN : Z := 0x6a.
Definition OP_DUP : Z := 0x76.
Definition OP_EQUAL : Z := 0x87.
Definition OP_EQUALVERIFY : Z := 0x88.
Definition OP_HASH160 : Z := 0xa9.
Definition OP_CHECKSIG : Z := 0xac.
Definition OP_CHECKSIGVERIFY : Z := 0xad.
Definition OP_CHECKMULTISIG : Z := 0xae.
Definition OP_CHECKMULTISIGVERIFY : Z := 0xaf.
Definition OP_CREATE : Z := 0xc1.
Definition OP_CALL : Z := 0xc2.
Definition OP_SPEND : Z := 0xc3.
Definition OP_SENDER : Z := 0xc4.
Definition OP_ADDRESS_TYPE : Z := 0xf2.
Definition OP_ADDRESS : Z := 0xf3.
Definition OP_SCRIPT_SIG : Z := 0xf4.
Definition OP_GAS_PRICE : Z := 0xf5.
Definition OP_VERSION : Z := 0xf6.
Definition OP_GAS_LIMIT : Z := 0xf7.
Definition OP_DATA : Z := 0xf8.
Definition OP_SMALLINTEGER : Z := 0xfa.
Definition OP_PUBKEYS : Z := 0xfb.
Definition OP_PUBKEYHASH : Z := 0xfd.
Definition OP_PUBKEY : Z := 0xfe.
Definition OP_INVALIDOPCODE : Z := 0xff.

Definition MAX_PUBKEYS_PER_MULTISIG : Z := 20.
Definition MAX_SCRIPT_SIZE : Z := 129000.
Definition MAX_BASE_SCRIPT_SIZE : Z := 10000.

(** [script[i]] *)
Definition at_ (s : list Z) (i : nat) : Z := nth i s 0.
Definition size (s : list Z) : Z := Z.of_nat (length s).
(** [script.back()] *)
Definition back (s : list Z) : Z := List.last s 0.

(** ** Reading instructions *)

(** One instruction: opcode, operand, and what follows. *)
Definition GetScriptOp (pc : list Z) : option (Z * list Z * list Z) :=
  match pc with
  | [] => None
  | opcode :: pc =>
      if opcode <=? OP_PUSHDATA4 then
        '(nSize, pc) ← (if opcode <? OP_PUSHDATA1 then Some (opcode, pc)
                        else if opcode =? OP_PUSHDATA1 then ser_readdata 1 pc
                        else if opcode =? OP_PUSHDATA2 then ser_readdata 2 pc
                        else ser_readdata 4 pc);
        if u32 (size pc) <? nSize then None
        else Some (opcode, take (Z.to_nat nSize) pc, drop (Z.to_nat nSize) pc)
      else Some (opcode, [], pc)
  end.

(** The instructions read until the end or the first failure, each with its operand and
    the position after it, and whether the end was reached; every instruction takes a
    byte, so the length of the script is enough fuel. *)
Fixpoint GetOps_from (fuel : nat) (pc : list Z) : list (Z * list Z * list Z) * bool :=
  match fuel, pc with
  | _, [] => ([], true)
  | O, _ => ([], false)
  | S fuel, _ =>
      match GetScriptOp pc with
      | None => ([], false)
      | Some (opcode, vch, pc) =>
          let '(ops, complete) := GetOps_from fuel pc in ((opcode, vch, pc) :: ops, complete)
      end
  end.
Definition GetOps (s : list Z) : list (Z * list Z * list Z) * bool := GetOps_from (length s) s.

Definition opcode_of (o : Z * list Z * list Z) : Z := o.1.1.
Definition operand_of (o : Z * list Z * list Z) : list Z := o.1.2.

Definition Find (s : list Z) (op : Z) : Z :=
  Z.of_nat (length (filter (fun o => opcode_of o = op) (GetOps s).1)).

Definition HasOpCreate (s : list Z) : bool := Find s OP_CREATE =? 1.
Definition HasOpCall (s : list Z) : bool := Find s OP_CALL =? 1.
Definition HasOpSender (s : list Z) : bool := Find s OP_SENDER =? 1.
Definition HasOpSpend (s : list Z) : bool := (size s =? 1) && (at_ s 0 =? OP_SPEND).
Definition IsUnspendable (s : list Z) : bool :=
  ((0 <? size s) && (at_ s 0 =? OP_RETURN)) || (MAX_SCRIPT_SIZE <? size s).

Definition IsPushOnly (s : list Z) : bool :=
  let '(ops, complete) := GetOps s in forallb (fun o => opcode_of o <=? OP_16) ops && complete.

(** [DecodeOP_N] on an opcode it accepts *)
Definition DecodeOP_N (opcode : Z) : Z := if opcode =? OP_0 then 0 else opcode - (OP_1 - 1).

Fixpoint sigop_loop (fAccurate : bool) (n lastOpcode : Z) (ops : list (Z * list Z * list Z)) : Z :=
  match ops with
  | [] => n
  | o :: ops =>
      let opcode := opcode_of o in
      let n :=
        if (opcode =? OP_CHECKSIG) || (opcode =? OP_CHECKSIGVERIFY) then u32 (n + 1)
        else if (opcode =? OP_CHECKMULTISIG) || (opcode =? OP_CHECKMULTISIGVERIFY) then
          if fAccurate && (OP_1 <=? lastOpcode) && (lastOpcode <=? OP_16) then u32 (n + DecodeOP_N lastOpcode)
          else u32 (n + MAX_PUBKEYS_PER_MULTISIG)
        else n in
      sigop_loop fAccurate n opcode ops
  end.
Definition GetSigOpCount (fAccurate : bool) (s : list Z) : Z :=
  sigop_loop fAccurate 0 OP_INVALIDOPCODE (GetOps s).1.

Definition IsPayToScriptHash (s : list Z) : bool :=
  (size s =? 23) && (at_ s 0 =? OP_HASH160) && (at_ s 1 =? 0x14) && (at_ s 22 =? OP_EQUAL).

(** [GetSigOpCount(scriptSig)]: those of the script the last push of [scriptSig] is *)
Definition GetP2SHSigOps (s scriptSig : list Z) : Z :=
  if negb (IsPayToScriptHash s) then GetSigOpCount true s
  else
    let '(ops, complete) := GetOps scriptSig in
    if negb (complete && forallb (fun o => opcode_of o <=? OP_16) ops) then 0
    else GetSigOpCount true (default [] (operand_of <$> last ops)).

Definition IsPayToAnchor (s : list Z) : bool :=
  (size s =? 4) && (at_ s 0 =? OP_1) && (at_ s 1 =? 0x02) && (at_ s 2 =? 0x4e) && (at_ s 3 =? 0x73).

(** [IsWitnessProgram]: version and program *)
Definition IsWitnessProgram (s : list Z) : option (Z * list Z) :=
  if (size s <? 4) || (42 <? size s) then None
  else if negb (at_ s 0 =? OP_0) && ((at_ s 0 <? OP_1) || (OP_16 <? at_ s 0)) then None
  else if at_ s 1 + 2 =? size s then Some (DecodeOP_N (at_ s 0), drop 2 s)
  else None.

(** ** Writing scripts *)

Definition AppendDataSize (size : Z) : list Z :=
  if size <? OP_PUSHDATA1 then [size]
  else if size <=? 0xff then OP_PUSHDATA1 :: [size]
  else if size <=? 0xffff then OP_PUSHDATA2 :: le_bytes 2 size
  else OP_PUSHDATA4 :: le_bytes 4 size.

(** [<< data] *)
Definition push (data : list Z) : list Z := AppendDataSize (u32 (size data)) ++ data.

(** [while (absvalue)]: the bytes of a number, least significant first *)
Fixpoint magnitude (fuel : nat) (absvalue : Z) : list Z :=
  match fuel with
  | O => []
  | S fuel => if absvalue =? 0 then [] else Z.land absvalue 0xff :: magnitude fuel (Z.shiftr absvalue 8)
  end.

(** [CScriptNum::serialize] *)
Definition serialize (value : Z) : list Z :=
  if value =? 0 then []
  else
    let neg := value <? 0 in
    let absvalue := if neg then u64 (u64 (Z.lnot (u64 value)) + 1) else u64 value in
    let result := magnitude 8 absvalue in
    if negb (Z.land (back result) 0x80 =? 0) then result ++ [if neg then 0x80 else 0]
    else if neg then removelast result ++ [Z.lor (back result) 0x80]
    else result.

Definition push_int64 (n : Z) : list Z :=
  if (n =? -1) || ((1 <=? n) && (n <=? 16)) then [n + (OP_1 - 1)]
  else if n =? 0 then [OP_0]
  else push (serialize n).

(** ** Numbers from scripts *)

(** [result |= vch[i] << 8*i] *)
Fixpoint or_bytes (vch : list Z) (i : Z) (result : Z) : Z :=
  match vch with
  | [] => result
  | b :: vch => or_bytes vch (i + 1) (Z.lor result (Z.shiftl b (8 * i)))
  end.

(** [CScriptNum::vch_to_uint64]; [None] is the exception *)
Definition vch_to_uint64 (vch : list Z) : option Z :=
  if 8 <? size vch then None
  else if (length vch =? 0)%nat then Some 0
  else if negb (Z.land (back vch) 0x80 =? 0) then None
  else Some (u64 (or_bytes vch 0 0)).

(** [CScriptNum::set_vch] *)
Definition set_vch (vch : list Z) : Z :=
  if (length vch =? 0)%nat then 0
  else
    let result := i64 (or_bytes vch 0 0) in
    if negb (Z.land (back vch) 0x80 =? 0)
    then i64 (- i64 (Z.land (u64 result) (u64 (Z.lnot (u64 (Z.shiftl 0x80 (8 * (size vch - 1))))))))
    else result.

(** [CScriptNum(vch, fRequireMinimal, nMaxNumSize)]; [None] is the exception *)
Definition CScriptNum (vch : list Z) (fRequireMinimal : bool) (nMaxNumSize : Z) : option Z :=
  if nMaxNumSize <? size vch then None
  else if fRequireMinimal && (0 <? size vch) && (Z.land (back vch) 0x7f =? 0) &&
          ((size vch <=? 1) || (Z.land (at_ vch (length vch - 2)) 0x80 =? 0)) then None
  else Some (set_vch vch).

Definition getint (m_value : Z) : Z :=
  if 2147483647 <? m_value then 2147483647 else if m_value <? -2147483648 then -2147483648 else m_value.

(** [CheckMinimalPush] *)
Definition CheckMinimalPush (data : list Z) (opcode : Z) : bool :=
  if size data =? 0 then opcode =? OP_0
  else if (size data =? 1) && (1 <=? at_ data 0) && (at_ data 0 <=? 16) then false
  else if (size data =? 1) && (at_ data 0 =? 0x81) then false
  else if size data <=? 75 then opcode =? size data
  else if size data <=? 255 then opcode =? OP_PUSHDATA1
  else if size data <=? 65535 then opcode =? OP_PUSHDATA2
  else true.

(** ** Parameters of contract outputs *)

(** The index of the first instruction [op]. *)
Fixpoint index_of (op : Z) (ops : list (Z * list Z * list Z)) : option nat :=
  match ops with
  | [] => None
  | o :: ops => if opcode_of o =? op then Some O else S <$> index_of op ops
  end.

(** The instruction [posBefore] places before the first [findOp] is replaced by a push of
    [vchParam]: [positions] are the iterators collected before each instruction. *)
Definition ReplaceParam (findOp : Z) (posBefore : Z) (vchParam s : list Z) : option (list Z) :=
  if posBefore <? 0 then None
  else
    m ← index_of findOp (GetOps s).1;
    let positions := s :: map snd (take m (GetOps s).1) in
    let size := Z.of_nat (length positions) in
    if size <=? posBefore + 1 then None
    else
      let firstPart := nth (Z.to_nat (size - 1 - posBefore)) positions [] in
      let secondPart := nth (Z.to_nat (size - posBefore)) positions [] in
      Some (take (length s - length firstPart) s ++ push vchParam ++ secondPart).

Definition FindParam (findOp : Z) (posBefore : Z) (s : list Z) : option (list Z) :=
  if posBefore <? 0 then None
  else
    m ← index_of findOp (GetOps s).1;
    let size := Z.of_nat (S m) in
    if size <=? posBefore + 1 then None
    else operand_of <$> (GetOps s).1 !! Z.to_nat (size - 1 - posBefore).

Definition UpdateSenderSig (scriptSig s : list Z) : option (list Z) := ReplaceParam OP_SENDER 1 scriptSig s.
Definition WithoutSenderSig (s : list Z) : list Z := default s (UpdateSenderSig [] s).

Definition GetData (s : list Z) : option (list Z) :=
  if HasOpCreate s then FindParam OP_CREATE 1 s else if HasOpCall s then FindParam OP_CALL 2 s else None.
Definition SetData (data s : list Z) : option (list Z) :=
  if HasOpCreate s then ReplaceParam OP_CREATE 1 data s
  else if HasOpCall s then ReplaceParam OP_CALL 2 data s else None.

(** ** Classification of output scripts (Solver) *)

Inductive TxoutType :=
  NONSTANDARD | ANCHOR | PUBKEY | PUBKEYHASH | SCRIPTHASH | MULTISIG | NULL_DATA
| WITNESS_V0_SCRIPTHASH | WITNESS_V0_KEYHASH | WITNESS_V1_TAPROOT | WITNESS_UNKNOWN
| CREATE_SENDER | CALL_SENDER | CREATE | CALL.

#[export] Instance TxoutType_eq : EqDecision TxoutType.
Proof. solve_decision. Defined.

(** [CPubKey::ValidSize]: the length the first byte announces *)
Definition ValidSize (vch : list Z) : bool := (0 <? size vch) && (GetLen (at_ vch 0) =? size vch).

Definition MatchPayToPubkey (s : list Z) : option (list Z) :=
  if (size s =? 67) && (at_ s 0 =? 65) && (back s =? OP_CHECKSIG)
  then if ValidSize (take 65 (drop 1 s)) then Some (take 65 (drop 1 s)) else None
  else if (size s =? 35) && (at_ s 0 =? 33) && (back s =? OP_CHECKSIG)
  then if ValidSize (take 33 (drop 1 s)) then Some (take 33 (drop 1 s)) else None
  else None.

Definition MatchPayToPubkeyHash (s : list Z) : option (list Z) :=
  if (size s =? 25) && (at_ s 0 =? OP_DUP) && (at_ s 1 =? OP_HASH160) && (at_ s 2 =? 20) &&
     (at_ s 23 =? OP_EQUALVERIFY) && (at_ s 24 =? OP_CHECKSIG)
  then Some (take 20 (drop 3 s)) else None.

Definition IsSmallInteger (opcode : Z) : bool := (OP_1 <=? opcode) && (opcode <=? OP_16).
Definition IsPushdataOp (opcode : Z) : bool := (OP_0 <? opcode) && (opcode <=? OP_PUSHDATA4).

Definition GetScriptNumber (opcode : Z) (data : list Z) (min max : Z) : option Z :=
  count ← (if IsSmallInteger opcode then Some (DecodeOP_N opcode)
           else if IsPushdataOp opcode then
             if negb (CheckMinimalPush data opcode) then None
             else getint <$> CScriptNum data true 4
           else None);
  if (count <? min) || (max <? count) then None else Some count.

(** [while (script.GetOp(it, opcode, data) && CPubKey::ValidSize(data))]: the keys and the
    instruction that ended the loop *)
Fixpoint key_loop (fuel : nat) (it : list Z) (pubkeys : list (list Z)) : list (list Z) * option (Z * list Z * list Z) :=
  match fuel, GetScriptOp it with
  | S fuel, Some (opcode, data, it) =>
      if ValidSize data then key_loop fuel it (pubkeys ++ [data]) else (pubkeys, Some (opcode, data, it))
  | _, _ => (pubkeys, None)
  end.

Definition MatchMultisig (s : list Z) : option (Z * list (list Z)) :=
  if (size s <? 1) || negb (back s =? OP_CHECKMULTISIG) then None
  else
    '(opcode, data, it) ← GetScriptOp s;
    required_sigs ← GetScriptNumber opcode data 1 MAX_PUBKEYS_PER_MULTISIG;
    let '(pubkeys, stop) := key_loop (length s) it [] in
    '(opcode, data, it) ← stop;
    num_keys ← GetScriptNumber opcode data required_sigs MAX_PUBKEYS_PER_MULTISIG;
    if negb (Z.of_nat (length pubkeys) =? num_keys) then None
    else if size it =? 1 then Some (required_sigs, pubkeys) else None.

(** *** Contracts *)

Definition MAX_BLOCK_GAS_LIMIT_DGP : Z := 1000000000.
Definition DEFAULT_BLOCK_GAS_LIMIT_DGP : Z := 40000000.
Definition STANDARD_MINIMUM_GAS_LIMIT : Z := 10000.
Definition STANDARD_MINIMUM_GAS_PRICE : Z := 1.

(** [VersionVM]: a packed 32-bit word, [format] in its two lowest bits, [rootVM] in the six
    above; [toRaw] and [fromRaw] reinterpret it. *)
Definition rootVM (raw : Z) : Z := Z.land (Z.shiftr raw 2) 63.
Definition GetNoExec : Z := 0.
Definition GetEVMDefault : Z := 4.
(** [version.rootVM=20] of an otherwise unset version *)
Definition unset_version : Z := 80.

Definition mTemplates : list (TxoutType * list Z) := [
  (CREATE_SENDER, [OP_ADDRESS_TYPE; OP_ADDRESS; OP_SCRIPT_SIG; OP_SENDER; OP_VERSION; OP_GAS_LIMIT; OP_GAS_PRICE; OP_DATA; OP_CREATE]);
  (CALL_SENDER, [OP_ADDRESS_TYPE; OP_ADDRESS; OP_SCRIPT_SIG; OP_SENDER; OP_VERSION; OP_GAS_LIMIT; OP_GAS_PRICE; OP_DATA; OP_PUBKEYHASH; OP_CALL]);
  (CREATE, [OP_VERSION; OP_GAS_LIMIT; OP_GAS_PRICE; OP_DATA; OP_CREATE]);
  (CALL, [OP_VERSION; OP_GAS_LIMIT; OP_GAS_PRICE; OP_DATA; OP_PUBKEYHASH; OP_CALL])].

(** What one template says: a match with its solutions, [break] to the next template, or
    [return false]. *)
Inductive verdict := Match (vSolutions : list (list Z)) | Break | Reject.

Definition is_push (opcode : Z) : bool := (0 <=? opcode) && (opcode <=? OP_PUSHDATA4).

(** [ss << GetScriptForDestination(PKHash(vch))]: the length, and the script paying to the
    key hash *)
Definition pay_to_pubkey_hash (h : list Z) : list Z :=
  [OP_DUP; OP_HASH160] ++ push h ++ [OP_EQUALVERIFY; OP_CHECKSIG].
Definition sender_script (h : list Z) : list Z :=
  let s := pay_to_pubkey_hash h in WriteCompactSize (size s) ++ s.

Section Contracts.
Context (contractConsensus allowEmptySenderSig : bool).

Definition gas_limit_ok (version val : Z) : bool :=
  if contractConsensus
  then negb (negb (rootVM version =? 0) && (val <? 1)) && negb (MAX_BLOCK_GAS_LIMIT_DGP <? val)
  else negb (negb (rootVM version =? 0) && (val <? STANDARD_MINIMUM_GAS_LIMIT)) &&
       negb (DEFAULT_BLOCK_GAS_LIMIT_DGP / 2 <? val).

Definition gas_price_ok (version val : Z) : bool :=
  negb (negb (rootVM version =? 0) && (val <? (if contractConsensus then 1 else STANDARD_MINIMUM_GAS_PRICE))).

(** The comparison of a script with a template.  Templates are single opcodes none of
    which carries an operand, so reading one is taking the head of the list; the branches
    for [OP_PUBKEYS], [OP_PUBKEY] and [OP_SMALLINTEGER], which no template has, are left
    out. *)
Fixpoint match_template (tplate : list Z) (script1 : list Z) (addressType version : Z)
    (sols : list (list Z)) : verdict :=
  match tplate with
  | [] => if (length script1 =? 0)%nat then Match sols else Break
  | opcode2 :: tplate =>
      match GetScriptOp script1 with
      | None => Break
      | Some (opcode1, vch1, script1) =>
          let next := match_template tplate script1 in
          if opcode2 =? OP_PUBKEYHASH then
            if negb (size vch1 =? 20) then Break else next addressType version (sols ++ [vch1])
          else if opcode2 =? OP_VERSION then
            if is_push opcode1 then
              if (length vch1 =? 0)%nat || (4 <? size vch1) || negb (Z.land (back vch1) 0x80 =? 0) then Reject
              else
                let raw := u32 (default 0 (vch_to_uint64 vch1)) in
                if (raw =? GetEVMDefault) || (raw =? GetNoExec) then next addressType raw sols else Reject
            else next addressType version sols
          else if opcode2 =? OP_GAS_LIMIT then
            match vch_to_uint64 vch1 with
            | None => Reject
            | Some val => if gas_limit_ok version val then next addressType version sols else Reject
            end
          else if opcode2 =? OP_GAS_PRICE then
            match vch_to_uint64 vch1 with
            | None => Reject
            | Some val => if gas_price_ok version val then next addressType version sols else Reject
            end
          else if opcode2 =? OP_DATA then
            if is_push opcode1 && (length vch1 =? 0)%nat then Break else next addressType version sols
          else if opcode2 =? OP_ADDRESS_TYPE then
            match vch_to_uint64 vch1 with
            | None => Break
            | Some val => if (val <? 1) || (7 <? val) then Break else next val version sols
            end
          else if opcode2 =? OP_ADDRESS then
            if (addressType =? 1) && (size vch1 =? 20) then next addressType version (sols ++ [sender_script vch1])
            else Break
          else if opcode2 =? OP_SCRIPT_SIG then
            if is_push opcode1 then
              if negb allowEmptySenderSig && (length vch1 =? 0)%nat then Break
              else if MAX_BASE_SCRIPT_SIZE <? size vch1 then Reject
              else next addressType version (sols ++ [vch1])
            else next addressType version sols
          else if negb (opcode1 =? opcode2) || negb (length vch1 =? 0)%nat then Break
          else next addressType version sols
      end
  end.

Fixpoint scan_templates (templates : list (TxoutType * list Z)) (s : list Z) : option (TxoutType * list (list Z)) :=
  match templates with
  | [] => None
  | (type, tplate) :: templates =>
      match match_template tplate s 0 unset_version [] with
      | Match sols => Some (type, sols)
      | Break => scan_templates templates s
      | Reject => None
      end
  end.

Definition MatchContract (s : list Z) : option (TxoutType * list (list Z)) := scan_templates mTemplates s.

Definition Solver (s : list Z) : TxoutType * list (list Z) :=
  if IsPayToScriptHash s then (SCRIPTHASH, [take 20 (drop 2 s)])
  else match IsWitnessProgram s with
  | Some (witnessversion, witnessprogram) =>
      if (witnessversion =? 0) && (size witnessprogram =? 20) then (WITNESS_V0_KEYHASH, [witnessprogram])
      else if (witnessversion =? 0) && (size witnessprogram =? 32) then (WITNESS_V0_SCRIPTHASH, [witnessprogram])
      else if (witnessversion =? 1) && (size witnessprogram =? 32) then (WITNESS_V1_TAPROOT, [witnessprogram])
      else if IsPayToAnchor s then (ANCHOR, [])
      else if negb (witnessversion =? 0) then (WITNESS_UNKNOWN, [[witnessversion]; witnessprogram])
      else (NONSTANDARD, [])
  | None =>
      if (1 <=? size s) && (at_ s 0 =? OP_RETURN) && IsPushOnly (drop 1 s) then (NULL_DATA, [])
      else match MatchPayToPubkey s with
      | Some data => (PUBKEY, [data])
      | None =>
          match MatchPayToPubkeyHash s with
          | Some data => (PUBKEYHASH, [data])
          | None =>
              match MatchMultisig s with
              | Some (required, keys) => (MULTISIG, [[required]] ++ keys ++ [[Z.of_nat (length keys)]])
              | None => default (NONSTANDARD, []) (MatchContract s)
              end
          end
      end
  end.
End Contracts.

(** ** Instructions are self-delimiting *)

(** Lengths are compared as 32-bit numbers. *)
Definition short (s : list Z) : Prop := size s < 2 ^ 32.

Lemma size_app s t : size (s ++ t) = size s + size t.
Proof. unfold size. rewrite length_app. lia. Qed.

Lemma size_nonneg s : 0 <= size s.
Proof. unfold size. lia. Qed.

Lemma size_cons b s : size (b :: s) = 1 + size s.
Proof. unfold size. cbn [length]. lia. Qed.

Lemma u32_size s : short s -> u32 (size s) = size s.
Proof. intros H. apply u32_id. unfold short, in_u32 in *. pose proof (size_nonneg s). change (2 ^ 32) with 4294967296 in H. lia. Qed.

Lemma ser_readdata_local k pc z q : ser_readdata k pc = Some (z, q) ->
  exists h, pc = h ++ q /\ forall q', ser_readdata k (h ++ q') = Some (z, q').
Proof.
  unfold ser_readdata. destruct (read k pc) as [[l r]|] eqn:E; [|done]. intros [= <- <-]. apply read_inv in E as [-> Hl].
  exists l. split; [done|]. intros q'. by rewrite read_app.
Qed.

(** Reading does not look beyond the instruction. *)
Lemma GetScriptOp_local pc o v rest : short pc -> GetScriptOp pc = Some (o, v, rest) ->
  exists ins, pc = ins ++ rest /\ ins <> [] /\
    forall rest', short (ins ++ rest') -> GetScriptOp (ins ++ rest') = Some (o, v, rest').
Proof.
  destruct pc as [|op pc]; [done|]. intros Hs. unfold GetScriptOp at 1.
  destruct (op <=? OP_PUSHDATA4) eqn:E1.
  2: { intros [= <- <- <-]. exists [op]. split; [done|]. split; [done|]. intros rest' _. unfold GetScriptOp. cbn [app]. by rewrite E1. }
  set (header := if op <? OP_PUSHDATA1 then Some (op, pc) else _).
  assert (forall nSize q, header = Some (nSize, q) -> exists h, pc = h ++ q /\
    forall q', (if op <? OP_PUSHDATA1 then Some (op, h ++ q')
      else if op =? OP_PUSHDATA1 then ser_readdata 1 (h ++ q')
      else if op =? OP_PUSHDATA2 then ser_readdata 2 (h ++ q') else ser_readdata 4 (h ++ q')) = Some (nSize, q')) as H.
  { intros nSize q. unfold header. clear header. destruct (op <? OP_PUSHDATA1); [intros [= <- <-]; by exists []|].
    destruct (op =? OP_PUSHDATA1); [apply ser_readdata_local|]. destruct (op =? OP_PUSHDATA2); apply ser_readdata_local. }
  destruct header as [[nSize q]|] eqn:Eh; [|done]. destruct (H _ _ eq_refl) as (h & -> & Hh). clear H Eh header.
  cbn [mbind option_bind]. destruct (u32 (size q) <? nSize) eqn:E2; [done|]. intros [= <- <- <-].
  apply Z.ltb_ge in E2. unfold short in Hs. rewrite size_cons, size_app in Hs. pose proof (size_nonneg h). pose proof (size_nonneg q).
  rewrite u32_size in E2 by (unfold short; lia).
  exists ((op :: h) ++ take (Z.to_nat nSize) q). split; [by rewrite <- app_assoc, take_drop|]. split; [done|].
  intros rest' Hs'. rewrite <- app_assoc. cbn [app]. unfold GetScriptOp. rewrite E1, Hh. cbn [mbind option_bind].
  assert (length (take (Z.to_nat nSize) q) = Z.to_nat nSize) as Hl by (rewrite length_take; unfold size in E2; lia).
  unfold short in Hs'. rewrite <- app_assoc in Hs'. cbn [app] in Hs'. rewrite size_cons, size_app in Hs'.
  rewrite u32_size by (unfold short; lia). rewrite (proj2 (Z.ltb_ge _ _)).
  2: { rewrite size_app. unfold size at 1. pose proof (size_nonneg rest'). lia. }
  by rewrite take_app_length', drop_app_length' by done.
Qed.

Lemma GetScriptOp_shorter pc o v rest : short pc -> GetScriptOp pc = Some (o, v, rest) -> (length rest < length pc)%nat.
Proof.
  intros Hs (ins & -> & Hne & _)%GetScriptOp_local; [|done]. rewrite length_app. destruct ins; [done|cbn; lia].
Qed.

(** Writing is read back. *)
Lemma GetScriptOp_push data rest : short (push data ++ rest) -> short data ->
  exists o, 0 <= o <= OP_PUSHDATA4 /\ GetScriptOp (push data ++ rest) = Some (o, data, rest).
Proof.
  intros Hs Hd. unfold push in *. rewrite u32_size in * by done. pose proof (size_nonneg data) as H0.
  rewrite <- app_assoc in *. set (k := size data) in *.
  assert (short (data ++ rest)) as Hr by (unfold short in *; rewrite size_app in Hs; pose proof (size_nonneg (AppendDataSize k)); lia).
  unfold short in Hd.
  assert (forall o h, 0 <= o <= OP_PUSHDATA4 -> AppendDataSize k = o :: h ->
    (if o <? OP_PUSHDATA1 then Some (o, h ++ data ++ rest)
      else if o =? OP_PUSHDATA1 then ser_readdata 1 (h ++ data ++ rest)
      else if o =? OP_PUSHDATA2 then ser_readdata 2 (h ++ data ++ rest) else ser_readdata 4 (h ++ data ++ rest)) = Some (k, data ++ rest) ->
    exists o, 0 <= o <= OP_PUSHDATA4 /\ GetScriptOp (AppendDataSize k ++ data ++ rest) = Some (o, data, rest)) as H.
  { intros o h Ho -> E. exists o. split; [done|]. unfold GetScriptOp. cbn [app]. rewrite (proj2 (Z.leb_le _ _)) by lia.
    rewrite E. cbn [mbind option_bind]. rewrite u32_size by done. rewrite size_app.
    rewrite (proj2 (Z.ltb_ge _ _)) by (fold k; pose proof (size_nonneg rest); lia).
    unfold k, size. rewrite Nat2Z.id. by rewrite take_app_length, drop_app_length. }
  unfold AppendDataSize in *. change OP_PUSHDATA1 with 76 in *. change OP_PUSHDATA2 with 77 in *. change OP_PUSHDATA4 with 78 in *.
  destruct (Z.ltb_spec k 76); [|destruct (Z.leb_spec k 255); [|destruct (Z.leb_spec k 65535)]].
  - apply (H k []); [lia|done|]. rewrite (proj2 (Z.ltb_lt _ _)) by lia. done.
  - apply (H 76 [k]); [lia|done|]. cbn [Z.ltb Z.eqb]. change [k] with (k :: []). 
    pose proof (ser_readdata_small 1 k (data ++ rest)) as E. cbn [le_bytes app] in E.
    rewrite Z.mod_small in E by lia. apply E. cbn. lia.
  - apply (H 77 (le_bytes 2 k)); [lia|done|]. apply ser_readdata_small. cbn. lia.
  - apply (H 78 (le_bytes 4 k)); [lia|done|]. apply ser_readdata_small. cbn. lia.
Qed.

Lemma GetScriptOp_op o rest : OP_PUSHDATA4 < o -> GetScriptOp (o :: rest) = Some (o, [], rest).
Proof. intros H. unfold GetScriptOp. by rewrite (proj2 (Z.leb_gt _ _)). Qed.

(** ** Replacing a parameter *)

(** [ops] are read from [s], leaving [rest]. *)
Inductive reads : list Z -> list (Z * list Z * list Z) -> list Z -> Prop :=
| reads_nil s : reads s [] s
| reads_cons s o v s1 ops rest : GetScriptOp s = Some (o, v, s1) -> reads s1 ops rest -> reads s ((o, v, s1) :: ops) rest.

Lemma short_rest ins rest : short (ins ++ rest) -> short rest.
Proof. unfold short. rewrite size_app. pose proof (size_nonneg ins). lia. Qed.

Lemma short_op s o v s1 : short s -> GetScriptOp s = Some (o, v, s1) -> short s1.
Proof. intros Hs (ins & -> & _)%GetScriptOp_local; [|done]. by apply short_rest in Hs. Qed.

Lemma GetOps_fuel fuel : forall fuel' pc, short pc -> (length pc <= fuel)%nat -> (length pc <= fuel')%nat ->
  GetOps_from fuel pc = GetOps_from fuel' pc.
Proof.
  induction fuel as [|fuel IH]; intros fuel' pc Hs H H'; [by destruct pc, fuel'; cbn in H; try lia|].
  destruct pc as [|b pc]; [by destruct fuel'|]. destruct fuel' as [|fuel']; [cbn in H'; lia|]. cbn [GetOps_from].
  destruct (GetScriptOp (b :: pc)) as [[[o v] s1]|] eqn:E; [|done].
  pose proof (GetScriptOp_shorter _ _ _ _ Hs E). cbn [length] in *.
  rewrite (IH fuel' s1); [done|by eapply short_op|lia|lia].
Qed.

Lemma GetOps_cons s o v s1 : short s -> GetScriptOp s = Some (o, v, s1) ->
  GetOps s = ((o, v, s1) :: (GetOps s1).1, (GetOps s1).2).
Proof.
  intros Hs E. unfold GetOps at 1. pose proof (GetScriptOp_shorter _ _ _ _ Hs E).
  destruct s as [|b s]; [done|]. cbn [length GetOps_from]. rewrite E.
  rewrite (GetOps_fuel (length s) (length s1) s1); [|by eapply short_op|cbn in *; lia|done]. fold (GetOps s1). by destruct (GetOps s1).
Qed.

Lemma reads_GetOps s ops rest : reads s ops rest -> short s ->
  GetOps s = (ops ++ (GetOps rest).1, (GetOps rest).2).
Proof.
  induction 1 as [s|s o v s1 ops rest E H IH]; intros Hs; [by destruct (GetOps s)|].
  rewrite (GetOps_cons _ _ _ _ Hs E), IH by (by eapply short_op). done.
Qed.

(** The first [k] instructions lead to the [k]th position. *)
Lemma GetOps_reads s : short s -> forall k, (k <= length (GetOps s).1)%nat ->
  reads s (take k (GetOps s).1) (nth k (s :: map snd (GetOps s).1) []).
Proof.
  remember (length s) as len eqn:Hlen. revert s Hlen. induction (lt_wf len) as [len _ IH]. intros s -> Hs k Hk.
  destruct k as [|k]; [cbn; constructor|]. destruct (GetScriptOp s) as [[[o v] s1]|] eqn:E.
  - pose proof (GetScriptOp_shorter _ _ _ _ Hs E). rewrite (GetOps_cons _ _ _ _ Hs E) in *. cbn [fst length take map nth] in *.
    econstructor; [done|]. apply (IH (length s1)); [lia|done|by eapply short_op|lia].
  - exfalso. unfold GetOps in Hk. destruct s as [|b s]; [cbn in Hk; lia|]. cbn [length GetOps_from] in Hk. rewrite E in Hk. cbn in Hk. lia.
Qed.

(** What comes after the instructions can be exchanged. *)
Lemma reads_exchange s ops rest : reads s ops rest -> short s -> exists pre, s = pre ++ rest /\
  forall rest', short (pre ++ rest') -> exists ops', reads (pre ++ rest') ops' rest' /\ map fst ops' = map fst ops.
Proof.
  induction 1 as [s|s o v s1 ops rest E H IH]; intros Hs.
  - exists []. split; [done|]. intros rest' _. exists []. split; [constructor|done].
  - destruct (GetScriptOp_local _ _ _ _ Hs E) as (ins & -> & Hne & Hl). destruct IH as (pre & -> & Hx); [by eapply short_rest|].
    exists (ins ++ pre). split; [by rewrite app_assoc|]. intros rest' Hr. rewrite <- app_assoc in *.
    destruct (Hx rest') as (ops' & R & Em); [by eapply short_rest|].
    exists ((o, v, pre ++ rest') :: ops'). split; [econstructor; [by apply Hl|done]|]. cbn. by rewrite Em.
Qed.

Lemma reads_positions s ops rest : reads s ops rest -> nth (length ops) (s :: map snd ops) [] = rest.
Proof. induction 1 as [s|s o v s1 ops rest E H IH]; [done|]. cbn [length map nth snd] in *. exact IH. Qed.

Lemma index_of_app op l l' : index_of op (l ++ l') =
  match index_of op l with Some i => Some i | None => Nat.add (length l) <$> index_of op l' end.
Proof.
  induction l as [|o l IH]; cbn [app index_of length]; [by destruct (index_of op l')|].
  destruct (opcode_of o =? op); [done|]. rewrite IH. by destruct (index_of op l); [|destruct (index_of op l')].
Qed.

Lemma index_of_map op l l' : map fst l = map fst l' -> index_of op l = index_of op l'.
Proof.
  revert l'. induction l as [|[a b] l IH]; intros [|[a' b'] l'] E; cbn [map fst] in E; try done. injection E as -> E.
  cbn [index_of]. unfold opcode_of. cbn [fst]. by rewrite (IH l').
Qed.

Lemma index_of_take op l m : index_of op l = Some m -> index_of op (take m l) = None /\ (m < length l)%nat.
Proof.
  revert m. induction l as [|o l IH]; intros m; cbn [index_of]; [done|]. destruct (opcode_of o =? op) eqn:E.
  - intros [= <-]. cbn. split; [done|lia].
  - destruct (index_of op l) as [i|]; [|done]. cbn. intros [= <-]. destruct (IH i eq_refl) as [H1 H2].
    cbn [take index_of length]. rewrite E, H1. split; [done|lia].
Qed.

Lemma index_of_take_None op l j : index_of op l = None -> index_of op (take j l) = None.
Proof.
  revert j. induction l as [|a l IH]; intros [|j]; try done. cbn [take index_of].
  destruct (opcode_of a =? op); [done|]. destruct (index_of op l); [done|]. intros _. by rewrite IH.
Qed.

(** An instruction in the middle of a script. *)
Lemma GetOps_split s j : short s -> (j < length (GetOps s).1)%nat -> exists pre ins o w post,
  s = pre ++ ins ++ post /\ reads s (take j (GetOps s).1) (ins ++ post) /\ GetScriptOp (ins ++ post) = Some (o, w, post) /\
  (GetOps s).1 = take j (GetOps s).1 ++ [(o, w, post)] ++ (GetOps post).1 /\
  nth j (s :: map snd (GetOps s).1) [] = ins ++ post /\ nth (S j) (s :: map snd (GetOps s).1) [] = post.
Proof.
  intros Hs Hj. pose proof (GetOps_reads s Hs j ltac:(lia)) as R. set (A := (GetOps s).1) in *.
  destruct (reads_exchange _ _ _ R Hs) as (pre & Es & _). set (mid := nth j (s :: map snd A) []) in *.
  assert (short mid) as Hmid by (rewrite Es in Hs; by eapply short_rest).
  pose proof (reads_GetOps _ _ _ R Hs) as G.
  destruct (GetScriptOp mid) as [[[o w] post]|] eqn:Eo.
  - destruct (GetScriptOp_local _ _ _ _ Hmid Eo) as (ins & Emid & _ & _). pose proof (GetOps_cons mid o w post Hmid Eo) as Ec.
    assert (A = take j A ++ [(o, w, post)] ++ (GetOps post).1) as EA by (unfold A at 1; rewrite G; cbn [fst]; by rewrite Ec).
    exists pre, ins, o, w, post. rewrite <- Emid. split_and!; try done.
    cbn [nth]. rewrite EA, map_app, app_nth2; rewrite length_map, length_take; [|lia].
    replace (j - j `min` length A)%nat with O by lia. done.
  - exfalso. assert ((GetOps mid).1 = []) as E0.
    { unfold GetOps. destruct mid as [|b mid'] eqn:Em; [done|]. cbn [length GetOps_from]. by rewrite Eo. }
    apply (f_equal (fun p => length p.1)) in G. cbn [fst] in G. fold A in G. rewrite E0, app_nil_r, length_take in G. lia.
Qed.

(** A replaceable parameter: the script is [pre], an instruction and [post], and the
    first [findOp] comes [k] instructions after the one in the middle. *)
Record replaceable (findOp k : Z) (s pre ins post w : list Z) : Prop := {
  rp_script : s = pre ++ ins ++ post;
  rp_before : exists ops, reads s ops (ins ++ post) /\ index_of findOp ops = None /\ ops <> [];
  rp_here : exists o, GetScriptOp (ins ++ post) = Some (o, w, post) /\ o <> findOp;
  rp_after : exists i, index_of findOp (GetOps post).1 = Some i /\ Z.of_nat i = k - 1
}.

Lemma ReplaceParam_inv findOp k v s s' : short s -> 1 <= k -> ReplaceParam findOp k v s = Some s' ->
  exists pre ins post w, replaceable findOp k s pre ins post w /\ s' = pre ++ push v ++ post.
Proof.
  intros Hs Hk. unfold ReplaceParam. rewrite (proj2 (Z.ltb_ge _ _)) by lia.
  destruct (index_of findOp (GetOps s).1) as [m|] eqn:Em; [|done]. cbn [mbind option_bind].
  destruct (index_of_take _ _ _ Em) as [Hnone Hm]. cbn [length]. rewrite length_map, length_take, Nat.min_l by lia.
  destruct (Z.leb_spec (Z.of_nat (S m)) (k + 1)) as [|Hkm]; [done|]. intros E0. apply (inj Some) in E0. subst s'.
  set (j := (m - Z.to_nat k)%nat). replace (Z.to_nat (Z.of_nat (S m) - 1 - k)) with j by lia.
  replace (Z.to_nat (Z.of_nat (S m) - k)) with (S j) by lia.
  destruct (GetOps_split s j Hs ltac:(lia)) as (pre & ins & o & w & post & Es & R & Eo & EA & N1 & N2).
  set (A := (GetOps s).1) in *.
  assert (forall i, (i <= m)%nat -> nth i (s :: map snd (take m A)) [] = nth i (s :: map snd A) []) as Hnth.
  { intros [|i] Hi; [done|]. cbn [nth]. rewrite !nth_lookup, !list_lookup_fmap, lookup_take_lt by lia. done. }
  rewrite !Hnth, N1, N2 by lia.
  assert (index_of findOp (take j A) = None) as Hn1.
  { assert (take j A = take j (take m A)) as -> by (rewrite take_take; f_equal; lia). by apply index_of_take_None. }
  rewrite EA, index_of_app, Hn1 in Em. cbn [app index_of] in Em. rewrite length_take, Nat.min_l in Em by lia.
  destruct (opcode_of (o, w, post) =? findOp) eqn:Eof; [cbn in Em; injection Em; lia|].
  destruct (index_of findOp (GetOps post).1) as [i|] eqn:Ei; [|done]. cbn in Em. injection Em as Em.
  exists pre, ins, post, w. split.
  - split; [done| | |exists i; split; [done|lia]].
    + exists (take j A). split; [done|]. split; [done|]. intros E0. apply (f_equal length) in E0. rewrite length_take in E0. cbn in E0. lia.
    + exists o. split; [done|]. by apply Z.eqb_neq in Eof.
  - f_equal. rewrite Es at 2. apply take_app_length'. rewrite Es, length_app. lia.
Qed.

Lemma replaceable_ops findOp k s pre ins post w : short s -> replaceable findOp k s pre ins post w ->
  exists ops o m, (GetOps s).1 = ops ++ [(o, w, post)] ++ (GetOps post).1 /\ reads s ops (ins ++ post) /\
    index_of findOp (GetOps s).1 = Some m /\ (length ops < m)%nat /\ Z.of_nat m = Z.of_nat (length ops) + k /\ (0 < length ops)%nat.
Proof.
  intros Hs [Es (ops & R & Hn & Hne) (o & Eo & Ho) (i & Ei & Hi)].
  assert (short (ins ++ post)) as Hmid by (rewrite Es in Hs; by eapply short_rest).
  assert ((GetOps s).1 = ops ++ [(o, w, post)] ++ (GetOps post).1) as EA
    by (rewrite (reads_GetOps _ _ _ R Hs); cbn [fst]; by rewrite (GetOps_cons _ _ _ _ Hmid Eo)).
  exists ops, o, (length ops + S i)%nat. split; [done|]. split; [done|]. split.
  - rewrite EA, index_of_app, Hn. cbn [app index_of]. unfold opcode_of at 1. cbn [fst].
    rewrite (proj2 (Z.eqb_neq _ _)) by done. rewrite Ei. done.
  - destruct ops; [done|cbn]; lia.
Qed.

Lemma replaceable_spec findOp k s pre ins post w v : short s -> 1 <= k -> replaceable findOp k s pre ins post w ->
  ReplaceParam findOp k v s = Some (pre ++ push v ++ post) /\ FindParam findOp k s = Some w.
Proof.
  intros Hs Hk HR. destruct (replaceable_ops _ _ _ _ _ _ _ Hs HR) as (ops & o & m & EA & R & Em & Hm & Ek & H0).
  destruct HR as [Es _ _ _]. unfold ReplaceParam, FindParam. rewrite (proj2 (Z.ltb_ge _ _)), Em by lia. cbn [mbind option_bind].
  set (A := (GetOps s).1) in *. assert (m < length A)%nat as Hl by (apply index_of_take in Em; tauto).
  cbn [length]. rewrite length_map, length_take, Nat.min_l by lia. rewrite !(proj2 (Z.leb_gt _ _)) by lia.
  replace (Z.to_nat (Z.of_nat (S m) - 1 - k)) with (length ops) by lia.
  replace (Z.to_nat (Z.of_nat (S m) - k)) with (S (length ops)) by lia. split.
  - do 2 f_equal.
    + assert (nth (length ops) (s :: map snd (take m A)) [] = ins ++ post) as ->.
      { rewrite <- (reads_positions _ _ _ R). destruct (length ops) as [|q] eqn:Eq; [done|]. cbn [nth].
        rewrite !nth_lookup, !list_lookup_fmap, lookup_take_lt, EA, lookup_app_l by lia. done. }
      rewrite Es at 2. apply take_app_length'. rewrite Es, length_app. lia.
    + f_equal. cbn [nth]. rewrite nth_lookup, list_lookup_fmap, lookup_take_lt, EA by lia. cbn [app]. by rewrite list_lookup_middle.
  - rewrite EA. cbn [app]. by rewrite list_lookup_middle.
Qed.

(** Replacing a parameter twice is replacing it once, and the new parameter is found. *)
Lemma ReplaceParam_spec findOp k v s s' v2 : OP_PUSHDATA4 < findOp -> 1 <= k -> short s -> short s' -> short v ->
  ReplaceParam findOp k v s = Some s' ->
  ReplaceParam findOp k v2 s' = ReplaceParam findOp k v2 s /\ FindParam findOp k s' = Some v /\
  exists pre ins post w, replaceable findOp k s pre ins post w /\ replaceable findOp k s' pre (push v) post v.
Proof.
  intros Hf Hk Hs Hs' Hv E. destruct (ReplaceParam_inv _ _ _ _ _ Hs Hk E) as (pre & ins & post & w & HR & ->).
  pose proof HR as [Es (ops & R & Hn & Hne) _ Ha].
  assert (replaceable findOp k (pre ++ push v ++ post) pre (push v) post v) as HR'.
  { split; [done| | |done].
    - destruct (reads_exchange _ _ _ R Hs) as (pre' & Es' & Hx). rewrite Es in Es'. apply app_inv_tail in Es' as <-.
      destruct (Hx _ Hs') as (ops' & R' & Em). exists ops'. split; [done|]. split; [by rewrite (index_of_map _ _ ops)|].
      intros ->. by destruct ops.
    - destruct (GetScriptOp_push v post) as (o & Ho & Eo); [by eapply short_rest|done|]. exists o. split; [done|lia]. }
  destruct (replaceable_spec _ _ _ _ _ _ _ v2 Hs Hk HR) as [-> _].
  destruct (replaceable_spec _ _ _ _ _ _ _ v2 Hs' Hk HR') as [-> ->]. split; [done|]. split; [done|]. by exists pre, ins, post, w.
Qed.

(** ** Numbers *)

Lemma testbit_above a k i : 0 <= a < 2 ^ k -> k <= i -> Z.testbit a i = false.
Proof.
  intros Ha Hi. assert (0 <= k) by (destruct (Z.neg_nonneg_cases k); [rewrite Z.pow_neg_r in Ha by lia; lia|lia]).
  destruct (Z.eq_dec a 0) as [->|]; [by rewrite Z.testbit_0_l|].
  apply Z.bits_above_log2; [lia|]. assert (Z.log2 a < k); [|lia]. by apply Z.log2_lt_pow2; lia.
Qed.

Lemma lor_pow2 a b k : 0 <= a < 2 ^ k -> 0 <= k -> Z.lor a (Z.shiftl b k) = a + b * 2 ^ k.
Proof.
  intros Ha Hk. rewrite <- Z.shiftl_mul_pow2 by done. rewrite <- Z.lxor_lor, <- Z.add_nocarry_lxor; try done.
  all: apply Z.bits_inj'; intros i Hi; rewrite Z.land_spec, Z.bits_0, Z.shiftl_spec by done.
  all: destruct (Z.lt_ge_cases i k); [rewrite (Z.testbit_neg_r b (i - k)) by lia; apply andb_false_r|].
  all: by rewrite (testbit_above a k i).
Qed.

Lemma or_bytes_spec vch : Forall byte_ok vch -> forall i r, 0 <= i -> 0 <= r < 2 ^ (8 * i) ->
  or_bytes vch i r = r + le_value vch * 2 ^ (8 * i).
Proof.
  induction 1 as [|b vch Hb Hv IH]; intros i r Hi Hr; cbn [or_bytes le_value]; [lia|].
  rewrite lor_pow2 by lia. unfold byte_ok in Hb.
  assert (2 ^ (8 * (i + 1)) = 256 * 2 ^ (8 * i)) as E by (rewrite Z.mul_add_distr_l, Z.pow_add_r by lia; lia).
  rewrite IH, E by (lia || nia). lia.
Qed.

Lemma or_bytes_value vch : Forall byte_ok vch -> or_bytes vch 0 0 = le_value vch.
Proof. intros H. rewrite (or_bytes_spec _ H) by (cbn; lia). cbn. lia. Qed.

Lemma land_ff z : Z.land z 0xff = z mod 256.
Proof. change 0xff with (Z.ones 8). by rewrite Z.land_ones. Qed.

Lemma script_value_app l l' : le_value (l ++ l') = le_value l + 256 ^ Z.of_nat (length l) * le_value l'.
Proof.
  induction l as [|b l IH]; cbn [app le_value length]; [lia|]. rewrite IH, Nat2Z.inj_succ, Z.pow_succ_r by lia. lia.
Qed.

(** The bytes of a number without leading zeros. *)
Definition trimmed (l : list Z) : Prop := Forall byte_ok l /\ (l = [] \/ List.last l 0 <> 0).

Lemma magnitude_spec fuel : forall z, 0 <= z < 256 ^ Z.of_nat fuel ->
  trimmed (magnitude fuel z) /\ le_value (magnitude fuel z) = z /\ (length (magnitude fuel z) <= fuel)%nat.
Proof.
  induction fuel as [|fuel IH]; intros z Hz; cbn [magnitude].
  - cbn in Hz. split; [by split; [constructor|left]|]. cbn. lia.
  - destruct (Z.eqb_spec z 0) as [->|Hne]; [by split; [split; [constructor|left]|cbn; lia]|].
    rewrite Nat2Z.inj_succ, Z.pow_succ_r in Hz by lia. rewrite land_ff, Z.shiftr_div_pow2 by lia. change (2 ^ 8) with 256.
    pose proof (Z.mod_pos_bound z 256 ltac:(lia)). pose proof (Z.div_mod z 256 ltac:(lia)).
    destruct (IH (z / 256)) as ([F N] & V & L); [split; [apply Z.div_pos; lia|apply Z.div_lt_upper_bound; lia]|].
    split; [split; [constructor; [unfold byte_ok; lia|done]|right]|cbn [le_value length]; rewrite V; lia].
    destruct (magnitude fuel (z / 256)) as [|b l] eqn:E; [cbn in V |- *; lia|]. destruct N as [N|N]; [done|exact N].
Qed.

Lemma magnitude_value fuel : forall l, trimmed l -> (length l <= fuel)%nat -> magnitude fuel (le_value l) = l.
Proof.
  induction fuel as [|fuel IH]; intros [|b l] [F N] Hl; cbn [magnitude le_value length] in *; try done; [lia|].
  apply Forall_cons in F as [Hb F]. unfold byte_ok in Hb. pose proof (le_value_range l F) as Hr.
  assert (trimmed l) as Ht by (split; [done|]; destruct N as [N|N]; [done|]; destruct l; [by left|by right]).
  assert (b + 256 * le_value l <> 0) as Hne.
  { destruct N as [N|N]; [done|]. intros E0. assert (le_value l = 0) as E1 by lia.
    pose proof (IH l Ht ltac:(lia)) as E2. rewrite E1 in E2. assert (magnitude fuel 0 = []) as E3 by by destruct fuel.
    rewrite E3 in E2. subst l. cbn in *. lia. }
  rewrite (proj2 (Z.eqb_neq _ _)) by done. rewrite land_ff, Z.shiftr_div_pow2 by lia. change (2 ^ 8) with 256.
  replace (b + 256 * le_value l) with (b + le_value l * 256) by lia. rewrite Z_mod_plus_full, Z.mod_small by lia.
  rewrite Z_div_plus_full, Z.div_small, Z.add_0_l by lia. rewrite IH by (done || lia). done.
Qed.

(** Clearing the sign bit. *)
Lemma clear_bit a k : 0 <= k <= 63 -> 0 <= a < 2 ^ k -> Z.land (a + 2 ^ k) (u64 (Z.lnot (2 ^ k))) = a.
Proof.
  intros Hk Ha. replace (a + 2 ^ k) with (Z.lor a (Z.shiftl 1 k)) by (rewrite lor_pow2 by lia; lia).
  assert (forall z, u64 z = Z.land z (Z.ones 64)) as -> by (intros; rewrite Z.land_ones by lia; done).
  apply Z.bits_inj'. intros i Hi. rewrite !Z.land_spec, Z.lor_spec, Z.lnot_spec, Z.shiftl_spec by done.
  rewrite Z.pow2_bits_eqb by lia. change 1 with (2 ^ 0). rewrite Z.pow2_bits_eqb by lia.
  destruct (Z.eqb_spec k i) as [->|Hne].
  - rewrite (testbit_above a i i) by lia. cbn [negb andb]. by rewrite andb_false_r.
  - rewrite (proj2 (Z.eqb_neq 0 (i - k))) by lia. rewrite orb_false_r. cbn [negb andb].
    destruct (Z.lt_ge_cases i 64); [rewrite Z.ones_spec_low by lia; apply andb_true_r|].
    rewrite (testbit_above a 64 i); [done| |lia]. split; [lia|]. eapply Z.lt_le_trans; [apply Ha|]. apply Z.pow_le_mono_r; lia.
Qed.

Lemma back_app l b : back (l ++ [b]) = b.
Proof. apply last_last. Qed.

(** Facts about single bytes are checked for all of them. *)
Lemma all_bytes (P : Z -> bool) b : forallb P (map Z.of_nat (seq 0 256)) = true -> byte_ok b -> P b = true.
Proof.
  intros H Hb. rewrite forallb_forall in H. apply H. apply in_map_iff. unfold byte_ok in Hb. exists (Z.to_nat b). rewrite in_seq. lia.
Qed.

Lemma vch_top_bit b : byte_ok b -> (Z.land b 0x80 =? 0) = (b <? 128).
Proof. intros Hb. apply eqb_prop. by apply (all_bytes (fun b => Bool.eqb (Z.land b 0x80 =? 0) (b <? 128))). Qed.

Lemma low_bits b : byte_ok b -> Z.land b 0x7f = b mod 128.
Proof. intros _. change 0x7f with (Z.ones 7). by rewrite Z.land_ones. Qed.

Lemma set_top_bit b : byte_ok b -> b < 128 -> Z.lor b 0x80 = b + 128.
Proof. intros Hb H. change 0x80 with (Z.shiftl 1 7). unfold byte_ok in Hb. by rewrite lor_pow2 by lia. Qed.

Definition signed (neg : bool) (z : Z) : Z := if neg then - z else z.

Lemma trimmed_positive l : trimmed l -> l <> [] -> 0 < le_value l.
Proof.
  intros Ht Hne. pose proof (le_value_range l (proj1 Ht)). destruct (Z.eq_dec (le_value l) 0) as [E|]; [|lia].
  pose proof (magnitude_value (length l) l Ht ltac:(lia)) as M. rewrite E in M. by destruct l.
Qed.

Lemma trimmed_snoc init b : Forall byte_ok init -> byte_ok b -> b <> 0 -> trimmed (init ++ [b]).
Proof. intros F Hb Hn. split; [by apply Forall_app_2; [|constructor]|]. right. by rewrite last_last. Qed.

(** The sign goes to the top bit of the last byte, or to a byte of its own. *)
Lemma serialize_magnitude neg init b : trimmed (init ++ [b]) -> (length init < 8)%nat -> le_value (init ++ [b]) < 2 ^ 63 ->
  serialize (signed neg (le_value (init ++ [b]))) =
  if b <? 128 then init ++ [if neg then b + 128 else b] else (init ++ [b]) ++ [if neg then 0x80 else 0].
Proof.
  intros Ht Hl Hv. set (l := init ++ [b]) in *. pose proof (trimmed_positive l Ht ltac:(by destruct init)) as H0.
  assert (byte_ok b) as Hb by (destruct Ht as [F _]; apply Forall_app in F as [_ F]; by inversion F).
  unfold serialize. rewrite (proj2 (Z.eqb_neq _ _)) by (destruct neg; cbn; lia).
  assert ((signed neg (le_value l) <? 0) = neg) as -> by (destruct neg; cbn [signed]; [apply Z.ltb_lt|apply Z.ltb_ge]; lia).
  assert ((if neg then u64 (u64 (Z.lnot (u64 (signed neg (le_value l)))) + 1) else u64 (signed neg (le_value l))) = le_value l) as ->.
  { change (2 ^ 63) with 9223372036854775808 in Hv. destruct neg; cbn [signed]; [|apply u64_id; unfold in_u64; lia].
    assert (u64 (- le_value l) = 18446744073709551616 - le_value l) as ->.
    { unfold u64. rewrite <- (Z.mod_add _ 1) by lia. rewrite Z.mod_small; lia. }
    assert (forall z, Z.lnot z = - z - 1) as -> by (intros; unfold Z.lnot; lia).
    assert (u64 (- (18446744073709551616 - le_value l) - 1) = le_value l - 1) as ->.
    { unfold u64. rewrite <- (Z.mod_add _ 1) by lia. rewrite Z.mod_small; lia. }
    rewrite u64_id; unfold in_u64; lia. }
  rewrite magnitude_value; [|done|unfold l; rewrite length_app; cbn; lia]. unfold l. rewrite back_app, vch_top_bit, removelast_last by done.
  destruct (Z.ltb_spec b 128); cbn [negb]; [|done]. destruct neg; [|done]. by rewrite set_top_bit.
Qed.

Lemma set_vch_spec init b : Forall byte_ok init -> byte_ok b -> (length init < 8)%nat ->
  set_vch (init ++ [b]) = signed (negb (b <? 128)) (le_value (init ++ [if b <? 128 then b else b - 128])).
Proof.
  intros F Hb Hl. unfold set_vch. rewrite (proj2 (Nat.eqb_neq _ _)) by (rewrite length_app; cbn; lia).
  rewrite back_app, vch_top_bit, or_bytes_value by (done || by apply Forall_app_2; [|constructor]).
  rewrite !script_value_app. cbn [le_value]. pose proof (le_value_range init F) as Hr. unfold byte_ok in Hb.
  assert (256 ^ Z.of_nat (length init) <= 2 ^ 56) as H7 by (rewrite <- (Z.pow_mul_r 2 8) by lia; apply Z.pow_le_mono_r; lia).
  change (2 ^ 56) with 72057594037927936 in H7. set (p := 256 ^ Z.of_nat (length init)) in *.
  destruct (Z.ltb_spec b 128); cbn [negb signed]; [apply i64_id; unfold in_i64; nia|].
  assert (Z.shiftl 128 (8 * (size (init ++ [b]) - 1)) = 128 * p) as ->.
  { rewrite size_app. unfold size, p. cbn [length]. rewrite Z.shiftl_mul_pow2 by lia. rewrite <- (Z.pow_mul_r 2 8) by lia. do 2 f_equal. lia. }
  set (v := le_value init + p * (b - 128 + 256 * 0)). assert (0 <= v < 128 * p) by (unfold v; nia).
  replace (le_value init + p * (b + 256 * 0)) with (v + 128 * p) by (unfold v; lia).
  assert (128 * p = 2 ^ (7 + 8 * Z.of_nat (length init))) as Ep
    by (unfold p; rewrite <- (Z.pow_mul_r 2 8), Z.pow_add_r by lia; reflexivity).
  assert (u64 (i64 (v + 128 * p)) = v + 128 * p) as ->.
  { unfold u64, i64. rewrite Zminus_mod_idemp_l, Z.mod_small; lia. }
  rewrite (u64_id (128 * p)) by (unfold in_u64; lia). rewrite Ep, clear_bit by (rewrite <- ?Ep; lia).
  rewrite (i64_id v) by (unfold in_i64; lia). apply i64_id. unfold in_i64. lia.
Qed.

(** A byte string is read as a minimal number exactly if it is the one written for it. *)
Lemma script_number_spec n : - 2 ^ 63 < n < 2 ^ 63 ->
  Forall byte_ok (serialize n) /\ (length (serialize n) <= 8)%nat /\ CScriptNum (serialize n) true 8 = Some n.
Proof.
  intros Hn. destruct (Z.eq_dec n 0) as [->|Hne]; [by split; [constructor|split; [cbn; lia|]]|].
  assert (0 <= Z.abs n < 256 ^ Z.of_nat 8) as Ha by (change (256 ^ Z.of_nat 8) with (2 * 2 ^ 63); lia).
  destruct (magnitude_spec 8 _ Ha) as (Ht & Hv & Hl). set (l := magnitude 8 (Z.abs n)) in *. clearbody l.
  destruct (exists_last (l := l)) as (init & b & ->); [intros ->; cbn in Hv; lia|].
  assert (n = signed (n <? 0) (le_value (init ++ [b]))) as En by (rewrite Hv; destruct (Z.ltb_spec n 0); cbn; lia).
  rewrite length_app in Hl. cbn [length] in Hl. set (neg := n <? 0) in *. clearbody neg.
  assert (le_value (init ++ [b]) < 2 ^ 63) as Hlt by lia.
  rewrite En, serialize_magnitude by (done || lia). clear En.
  pose proof Ht as [F Hb0]. apply Forall_app in F as [F Hb]. inversion Hb as [|? ? Hb' _]; subst. unfold byte_ok in Hb'.
  assert (b <> 0) as Hbn by (destruct Hb0 as [E|E]; [by destruct init|by rewrite last_last in E]).
  assert (forall c, byte_ok c -> Forall byte_ok (init ++ [c])) as Hc by (intros c Hc; by apply Forall_app_2; [|constructor]).
  destruct (Z.ltb_spec b 128).
  - assert (byte_ok (if neg then b + 128 else b)) as Hb2 by (unfold byte_ok; destruct neg; lia).
    split; [by apply Hc|]. split; [rewrite length_app; cbn; lia|].
    unfold CScriptNum. rewrite back_app, low_bits by done. unfold size. rewrite length_app. cbn [length].
    rewrite (proj2 (Z.ltb_ge 8 _)) by lia.
    assert (((if neg then b + 128 else b) mod 128 =? 0) = false) as ->.
    { apply Z.eqb_neq. destruct neg; [rewrite <- (Z.mod_add _ (-1)) by lia|]; rewrite Z.mod_small; lia. }
    rewrite !andb_false_r. cbn [andb]. f_equal. rewrite set_vch_spec by (done || lia).
    destruct neg; [rewrite (proj2 (Z.ltb_ge _ _)) by lia|rewrite (proj2 (Z.ltb_lt _ _)) by lia]; cbn [negb signed]; [|done].
    do 4 f_equal. lia.
  - assert (length init < 7)%nat as Hl7.
    { destruct (Nat.lt_ge_cases (length init) 7); [done|]. exfalso. assert (length init = 7%nat) as E7 by lia.
      rewrite script_value_app in Hlt. cbn [le_value] in Hlt. rewrite E7 in Hlt. pose proof (le_value_range init F).
      change (256 ^ Z.of_nat 7) with 72057594037927936 in Hlt. change (2 ^ 63) with 9223372036854775808 in Hlt. lia. }
    assert (byte_ok (if neg then 128 else 0)) as Hb2 by (unfold byte_ok; destruct neg; lia).
    split; [by apply Forall_app_2; [apply Hc|constructor]|]. split; [rewrite !length_app; cbn; lia|].
    unfold CScriptNum. rewrite back_app. unfold at_. rewrite app_nth1 by (rewrite !length_app; cbn [length]; lia).
    rewrite !length_app. cbn [length]. replace (length init + 1 + 1 - 2)%nat with (length init + 0)%nat by lia.
    rewrite app_nth2_plus. cbn [nth]. rewrite vch_top_bit by done. rewrite (proj2 (Z.ltb_ge b 128)) by lia.
    unfold size. rewrite !length_app. cbn [length]. rewrite (proj2 (Z.ltb_ge 8 _)) by lia.
    rewrite (proj2 (Z.leb_gt _ 1)) by lia. cbn [orb]. rewrite !andb_false_r. f_equal.
    rewrite set_vch_spec; [|by apply Hc|done|rewrite length_app; cbn [length]; lia].
    destruct neg; cbn [negb signed Z.ltb Z.compare Pos.compare Pos.compare_cont]; rewrite script_value_app; cbn [le_value]; lia.
Qed.

Lemma script_number_canonical_spec vch m n : Forall byte_ok vch -> m <= 8 -> CScriptNum vch true m = Some n ->
  serialize n = vch /\ - 2 ^ 63 < n < 2 ^ 63.
Proof.
  intros F Hm. unfold CScriptNum. destruct (Z.ltb_spec m (size vch)) as [|Hs]; [done|].
  destruct vch as [|c vch] using rev_ind; [intros [= <-]; split; [done|cbn; lia]|]. clear IHvch.
  apply Forall_app in F as [F Fc]. inversion Fc as [|? ? Hc _]; subst. pose proof Hc as Hc'. unfold byte_ok in Hc'.
  rewrite size_app in Hs. unfold size in Hs. cbn [length] in Hs.
  rewrite back_app, low_bits by done. rewrite size_app. unfold size at 1 3. cbn [length].
  rewrite (proj2 (Z.ltb_lt 0 _)) by (unfold size; cbn; lia). cbn [andb].
  pose proof (le_value_range vch F) as Hr.
  assert (256 ^ Z.of_nat (length vch) <= 2 ^ 56) as H7 by (rewrite <- (Z.pow_mul_r 2 8) by lia; apply Z.pow_le_mono_r; lia).
  assert (forall d, 0 <= d < 128 -> 0 <= le_value (vch ++ [d]) < 2 ^ 63) as Hd.
  { intros d Hd. rewrite script_value_app. cbn [le_value]. change (2 ^ 56) with 72057594037927936 in H7.
    change (2 ^ 63) with 9223372036854775808. nia. }
  set (d := if c <? 128 then c else c - 128).
  assert (0 <= d < 128 /\ c mod 128 = d /\ c = (if negb (c <? 128) then d + 128 else d)) as (Hd1 & Hmod & Hcd).
  { unfold d. destruct (Z.ltb_spec c 128); cbn [negb]; (split; [lia|]; split; [|lia]).
    - apply Z.mod_small. lia. - rewrite <- (Z.mod_add _ (-1)) by lia. rewrite Z.mod_small; lia. }
  rewrite Hmod. intros E.
  assert (n = signed (negb (c <? 128)) (le_value (vch ++ [d]))) as ->.
  { rewrite <- set_vch_spec by (done || lia). by destruct (_ && _) in E; [|injection E]. }
  specialize (Hd d Hd1). split; [|destruct (negb _); cbn [signed]; lia]. set (neg := negb (c <? 128)) in *. clearbody neg d.
  destruct (Z.eqb_spec d 0) as [->|Hdn].
  - destruct vch as [|e vch] using rev_ind; [done|]. clear IHvch. rewrite !length_app in E. cbn [length] in E.
    unfold at_ in E. rewrite app_nth1 in E by (rewrite length_app; cbn [length]; lia).
    replace (length vch + 1 + 1 - 2)%nat with (length vch + 0)%nat in E by lia. rewrite app_nth2_plus in E. cbn [nth] in E.
    apply Forall_app in F as [F Fe]. inversion Fe as [|? ? He _]; subst. pose proof He as He'. unfold byte_ok in He'.
    rewrite vch_top_bit in E by done. destruct (Z.ltb_spec e 128); [by rewrite orb_true_r in E|].
    assert (le_value ((vch ++ [e]) ++ [0]) = le_value (vch ++ [e])) as E0 by (rewrite (script_value_app (vch ++ [e])); cbn; lia).
    rewrite E0 in *. rewrite length_app in Hs. cbn [length] in Hs.
    rewrite serialize_magnitude; [|by apply trimmed_snoc; [| |lia]|lia|lia]. rewrite (proj2 (Z.ltb_ge _ _)) by lia.
    by destruct neg.
  - rewrite serialize_magnitude; [|by apply trimmed_snoc; [|unfold byte_ok; lia|]|lia|lia].
    rewrite (proj2 (Z.ltb_lt _ _)) by lia. by rewrite Hcd.
Qed.

Lemma vch_to_uint64_spec n : 0 <= n < 2 ^ 63 -> vch_to_uint64 (serialize n) = Some n.
Proof.
  intros Hn. destruct (script_number_spec n ltac:(lia)) as (F & Hl & E). unfold CScriptNum in E.
  destruct (8 <? size (serialize n)) eqn:E8; [done|]. unfold vch_to_uint64. rewrite E8.
  destruct (serialize n) as [|c vch] eqn:Es using rev_ind; [by destruct (_ && _) in E; [|cbn in E; injection E as <-]|]. clear IHvch.
  rewrite (proj2 (Nat.eqb_neq _ _)) by (rewrite length_app; cbn; lia).
  destruct (_ && _) in E; [done|]. injection E as E. pose proof F as F'. apply Forall_app in F as [F Fc].
  inversion Fc as [|? ? Hc _]; subst. rewrite length_app in Hl. cbn [length] in Hl.
  rewrite set_vch_spec in Hn, Es |- * by (done || lia).
  rewrite back_app, vch_top_bit by done. unfold byte_ok in Hc. destruct (Z.ltb_spec c 128); cbn [negb signed] in *.
  - rewrite or_bytes_value by done. f_equal. apply u64_id. unfold in_u64. change (2 ^ 63) with 9223372036854775808 in Hn. lia.
  - exfalso. assert (trimmed (vch ++ [c])) as Ht by (apply trimmed_snoc; [done|done|lia]).
    pose proof (le_value_range (vch ++ [c - 128])) as Hr.
    assert (Forall byte_ok (vch ++ [c - 128])) as F2 by (apply Forall_app_2; [done|constructor; [unfold byte_ok; lia|constructor]]).
    specialize (Hr F2). assert (le_value (vch ++ [c - 128]) = 0) as E0 by lia.
    rewrite E0 in Es. cbn in Es. by destruct vch.
Qed.

(** ** Contract outputs *)

Definition call_script (version gasLimit gasPrice data address : list Z) : list Z :=
  push version ++ push gasLimit ++ push gasPrice ++ push data ++ push address ++ [OP_CALL].
Definition create_script (version gasLimit gasPrice data : list Z) : list Z :=
  push version ++ push gasLimit ++ push gasPrice ++ push data ++ [OP_CREATE].

(** The versions outputs may name: no execution and the default EVM. *)
Definition version_ok (version : list Z) (raw : Z) : Prop :=
  Forall byte_ok version /\ 1 <= size version <= 4 /\ vch_to_uint64 version = Some raw /\ (raw = GetNoExec \/ raw = GetEVMDefault).

(** The gas limit and price a contract output may offer. *)
Definition gas_ok (contractConsensus : bool) (raw : Z) (gasLimit gasPrice : list Z) : bool :=
  match vch_to_uint64 gasLimit, vch_to_uint64 gasPrice with
  | Some limit, Some price => gas_limit_ok contractConsensus raw limit && gas_price_ok contractConsensus raw price
  | _, _ => false
  end.

Lemma push_head version : 1 <= size version <= 4 -> exists rest, push version = size version :: rest.
Proof.
  intros H. unfold push, AppendDataSize. rewrite u32_id by (unfold in_u32; lia). change OP_PUSHDATA1 with 76.
  rewrite (proj2 (Z.ltb_lt _ _)) by lia. by exists version.
Qed.

(** Scripts that start with a short push and end in a contract opcode are of no other class. *)
Lemma Solver_contract cc al version body op : 1 <= size version <= 4 -> op = OP_CREATE \/ op = OP_CALL ->
  Solver cc al (push version ++ body ++ [op]) = default (NONSTANDARD, []) (MatchContract cc al (push version ++ body ++ [op])).
Proof.
  intros Hv Ho. destruct (push_head version Hv) as [rest E]. set (s := push version ++ body ++ [op]).
  assert (at_ s 0 = size version) as H0 by (unfold s; by rewrite E).
  assert (back s = op) as Hb by (unfold s; rewrite app_assoc; apply back_app).
  assert (forall b, b <= 0 \/ 4 < b -> (at_ s 0 =? b) = false) as Hne by (intros; apply Z.eqb_neq; lia).
  unfold Solver, IsPayToScriptHash, IsWitnessProgram, MatchPayToPubkey, MatchPayToPubkeyHash, MatchMultisig.
  rewrite (Hne OP_HASH160), (Hne OP_RETURN), (Hne 65), (Hne 33), (Hne OP_DUP) by (right; done). rewrite (Hne OP_0) by (left; done). rewrite !andb_false_r. cbn [andb negb].
  rewrite (proj2 (Z.ltb_lt (at_ s 0) OP_1)) by (rewrite H0; unfold OP_1; lia). cbn [orb andb].
  assert ((back s =? OP_CHECKMULTISIG) = false) as -> by (rewrite Hb; by destruct Ho as [-> | ->]). cbn [negb]. rewrite orb_true_r.
  destruct ((size s <? 4) || (42 <? size s)); done.
Qed.

Lemma match_version cc al raw version tplate rest at_ v0 sols : version_ok version raw -> short (push version ++ rest) ->
  match_template cc al (OP_VERSION :: tplate) (push version ++ rest) at_ v0 sols = match_template cc al tplate rest at_ raw sols.
Proof.
  intros (F & Hs & Eu & Hr) Hsh. assert (short version) as Hsv by (unfold short; lia).
  destruct (GetScriptOp_push version rest Hsh Hsv) as (o & Ho & E). cbn [match_template]. rewrite E.
  change (OP_VERSION =? OP_PUBKEYHASH) with false. rewrite Z.eqb_refl. cbn match.
  unfold is_push. rewrite !(proj2 (Z.leb_le _ _)) by lia. cbn [andb]. unfold vch_to_uint64 in Eu |- *.
  destruct (8 <? size version); [done|]. rewrite (proj2 (Z.ltb_ge 4 _)) by lia.
  destruct (length version =? 0)%nat eqn:E0; [apply Nat.eqb_eq in E0; unfold size in Hs; lia|].
  destruct (Z.land (back version) 128 =? 0); [|done]. cbn [negb orb] in *. injection Eu as Eu. rewrite Eu. cbn [default].
  rewrite u32_id by (unfold in_u32; destruct Hr as [-> | ->]; cbv; done).
  by destruct Hr as [-> | ->].
Qed.

Lemma match_gas cc al raw gasLimit gasPrice tplate rest at_ sols : short (push gasLimit ++ push gasPrice ++ rest) ->
  short gasLimit -> short gasPrice ->
  match_template cc al (OP_GAS_LIMIT :: OP_GAS_PRICE :: tplate) (push gasLimit ++ push gasPrice ++ rest) at_ raw sols =
  if gas_ok cc raw gasLimit gasPrice then match_template cc al tplate rest at_ raw sols else Reject.
Proof.
  intros Hsh Hl Hp. destruct (GetScriptOp_push gasLimit _ Hsh Hl) as (o & Ho & E).
  destruct (GetScriptOp_push gasPrice rest) as (o' & Ho' & E'); [by eapply short_rest|done|].
  unfold gas_ok. cbn [match_template]. rewrite E. cbn match. destruct (vch_to_uint64 gasLimit) as [limit|]; [|done].
  cbn match. rewrite E'. destruct (gas_limit_ok cc raw limit) eqn:G; [|by destruct (vch_to_uint64 gasPrice)].
  cbn match. by destruct (vch_to_uint64 gasPrice).
Qed.

(** Templates with a sender do not match an output that starts with a version. *)
Lemma match_sender cc al raw version tplate rest v0 : version_ok version raw -> short (push version ++ rest) ->
  match_template cc al (OP_ADDRESS_TYPE :: OP_ADDRESS :: tplate) (push version ++ rest) 0 v0 [] = Break.
Proof.
  intros (F & Hs & Eu & Hr) Hsh. assert (short version) as Hsv by (unfold short; lia).
  destruct (GetScriptOp_push version rest Hsh Hsv) as (o & Ho & E). cbn [match_template]. rewrite E. cbn match.
  rewrite Eu. destruct Hr as [-> | ->]; [done|]. cbn match. by destruct (GetScriptOp rest) as [[[]]|].
Qed.

Lemma match_data cc al data tplate rest at_ raw sols : short (push data ++ rest) -> short data ->
  match_template cc al (OP_DATA :: tplate) (push data ++ rest) at_ raw sols =
  if (length data =? 0)%nat then Break else match_template cc al tplate rest at_ raw sols.
Proof.
  intros Hsh Hd. destruct (GetScriptOp_push data rest Hsh Hd) as (o & Ho & E). cbn [match_template]. rewrite E. cbn match.
  unfold is_push. rewrite !(proj2 (Z.leb_le _ _)) by lia. by destruct (length data =? 0)%nat.
Qed.

Lemma size_zero l : (0 <? size l) = negb (length l =? 0)%nat.
Proof. unfold size. by destruct l. Qed.

Section ContractOutputs.
Context (cc al : bool) (version gasLimit gasPrice data : list Z) (raw : Z).
Hypothesis Hv : version_ok version raw.
Hypothesis Hl : short gasLimit.
Hypothesis Hp : short gasPrice.
Hypothesis Hd : short data.

Lemma call_spec address : short address -> short (call_script version gasLimit gasPrice data address) ->
  Solver cc al (call_script version gasLimit gasPrice data address) =
  if gas_ok cc raw gasLimit gasPrice && (0 <? size data) && (size address =? 20) then (CALL, [address]) else (NONSTANDARD, []).
Proof.
  intros Ha Hs. unfold call_script in *. pose proof Hv as (_ & Hsz & _).
  replace (push gasLimit ++ push gasPrice ++ push data ++ push address ++ [OP_CALL])
    with ((push gasLimit ++ push gasPrice ++ push data ++ push address) ++ [OP_CALL]) by (by rewrite <- !app_assoc).
  rewrite Solver_contract by tauto. rewrite <- !app_assoc. unfold MatchContract, mTemplates. cbn [scan_templates].
  assert (short (push gasLimit ++ push gasPrice ++ push data ++ push address ++ [OP_CALL])) as Hs1 by (by eapply short_rest).
  assert (short (push data ++ push address ++ [OP_CALL])) as Hs2 by (do 2 eapply short_rest; done).
  assert (short (push address ++ [OP_CALL])) as Hs3 by (by eapply short_rest).
  rewrite !(match_sender cc al raw) by done. rewrite !(match_version cc al raw), !match_gas by done.
  destruct (gas_ok cc raw gasLimit gasPrice); [|done]. rewrite !match_data, size_zero by done. cbn [andb].
  destruct (length data =? 0)%nat; [done|]. cbn [negb andb].
  destruct (GetScriptOp_push address _ Hs3 Ha) as (o & Ho & E). cbn [match_template]. rewrite E. cbn match.
  assert ((o =? OP_CREATE) = false) as -> by (apply Z.eqb_neq; unfold OP_PUSHDATA4, OP_CREATE in *; lia). cbn [negb orb].
  by destruct (size address =? 20).
Qed.

Lemma create_spec : short (create_script version gasLimit gasPrice data) ->
  Solver cc al (create_script version gasLimit gasPrice data) =
  if gas_ok cc raw gasLimit gasPrice && (0 <? size data) then (CREATE, []) else (NONSTANDARD, []).
Proof.
  intros Hs. unfold create_script in *. pose proof Hv as (_ & Hsz & _).
  replace (push gasLimit ++ push gasPrice ++ push data ++ [OP_CREATE])
    with ((push gasLimit ++ push gasPrice ++ push data) ++ [OP_CREATE]) by (by rewrite <- !app_assoc).
  rewrite Solver_contract by tauto. rewrite <- !app_assoc. unfold MatchContract, mTemplates. cbn [scan_templates].
  assert (short (push gasLimit ++ push gasPrice ++ push data ++ [OP_CREATE])) as Hs1 by (by eapply short_rest).
  assert (short (push data ++ [OP_CREATE])) as Hs2 by (do 2 eapply short_rest; done).
  rewrite !(match_sender cc al raw) by done. rewrite !(match_version cc al raw), !match_gas by done.
  destruct (gas_ok cc raw gasLimit gasPrice); [|done]. rewrite !match_data, size_zero by done. cbn [andb].
  by destruct (length data =? 0)%nat.
Qed.
End ContractOutputs.

(** An output with [OP_NOP] in place of version and data. *)
Definition opcode_script (gasLimit gasPrice address : list Z) : list Z :=
  97 :: push gasLimit ++ push gasPrice ++ 97 :: push address ++ [OP_CALL].

Lemma opcode_call_spec cc al gasLimit gasPrice address : short gasLimit -> short gasPrice -> short address -> short (opcode_script gasLimit gasPrice address) ->
  Solver cc al (opcode_script gasLimit gasPrice address) =
  if gas_ok cc unset_version gasLimit gasPrice && (size address =? 20) then (CALL, [address]) else (NONSTANDARD, []).
Proof.
  intros Hl Hp Ha Hs. assert (Solver cc al (opcode_script gasLimit gasPrice address) =
    default (NONSTANDARD, []) (MatchContract cc al (opcode_script gasLimit gasPrice address))) as ->.
  { assert (back (opcode_script gasLimit gasPrice address) = OP_CALL) as Hb.
    { unfold opcode_script. rewrite app_comm_cons, !app_assoc, (app_comm_cons _ [OP_CALL]), app_assoc. apply back_app. }
    assert (at_ (opcode_script gasLimit gasPrice address) 0 = 97) as H0 by done. revert Hb H0. generalize (opcode_script gasLimit gasPrice address) as s. intros s Hb H0.
    unfold Solver, IsPayToScriptHash, IsWitnessProgram, MatchPayToPubkey, MatchPayToPubkeyHash, MatchMultisig. rewrite Hb, H0.
    change (97 =? OP_HASH160) with false. change (97 =? OP_RETURN) with false. change (97 =? OP_0) with false. change (97 <? OP_1) with false.
    change (OP_16 <? 97) with true. change (97 =? 65) with false. change (97 =? 33) with false. change (97 =? OP_DUP) with false.
    change (OP_CALL =? OP_CHECKMULTISIG) with false. cbn [negb andb orb]. rewrite !andb_false_r, orb_true_r. cbn [andb]. by destruct (_ || _). }
  assert (forall x, short (97 :: x) -> short x) as Ht by (intros x; unfold short; rewrite size_cons; lia).
  assert (short (97 :: push address ++ [OP_CALL])) as Hs2 by (do 2 eapply short_rest; by apply Ht).
  unfold opcode_script in *. pose proof (Ht _ Hs) as Hs1. pose proof (Ht _ Hs2) as Hs3.
  assert (forall tplate rest v sols, match_template cc al (OP_VERSION :: tplate) (97 :: rest) 0 v sols = match_template cc al tplate rest 0 v sols) as MV by done.
  assert (forall tplate rest v sols, match_template cc al (OP_DATA :: tplate) (97 :: rest) 0 v sols = match_template cc al tplate rest 0 v sols) as MD by done.
  assert (forall tplate rest v, match_template cc al (OP_ADDRESS_TYPE :: tplate) (97 :: rest) 0 v [] = Break) as MA by done.
  unfold MatchContract, mTemplates. cbn [scan_templates]. rewrite !MA, !MV, !match_gas by done.
  destruct (gas_ok cc unset_version gasLimit gasPrice); [|done]. rewrite !MD. cbn [andb].
  destruct (GetScriptOp_push address _ Hs3 Ha) as (o & Ho & E). cbn [match_template]. rewrite E. cbn match.
  assert ((o =? OP_CREATE) = false) as -> by (apply Z.eqb_neq; unfold OP_PUSHDATA4, OP_CREATE in *; lia). cbn [negb orb].
  by destruct (size address =? 20).
Qed.

(** One step of a match, backwards. *)
Section Inversion.
Context (cc al : bool) (tplate s : list Z) (at_ v0 : Z) (sols r : list (list Z)).

Lemma match_version_inv : match_template cc al (OP_VERSION :: tplate) s at_ v0 sols = Match r ->
  exists o v s1 raw, GetScriptOp s = Some (o, v, s1) /\ match_template cc al tplate s1 at_ raw sols = Match r /\
    if is_push o then u32 (default 0 (vch_to_uint64 v)) = raw /\ (raw = GetNoExec \/ raw = GetEVMDefault) else raw = v0.
Proof.
  cbn [match_template]. destruct (GetScriptOp s) as [[[o v] s1]|]; [|done]. cbn match. intros H. exists o, v, s1.
  destruct (is_push o); [|by exists v0]. destruct (_ || _ || _); [done|]. set (raw := u32 _) in *. exists raw.
  destruct (Z.eqb_spec raw GetEVMDefault); [split; [done|split; [done|tauto]]|].
  destruct (Z.eqb_spec raw GetNoExec); [split; [done|split; [done|tauto]]|done].
Qed.

Lemma match_gas_limit_inv : match_template cc al (OP_GAS_LIMIT :: tplate) s at_ v0 sols = Match r ->
  exists o v s1 val, GetScriptOp s = Some (o, v, s1) /\ match_template cc al tplate s1 at_ v0 sols = Match r /\
    vch_to_uint64 v = Some val /\ gas_limit_ok cc v0 val = true.
Proof.
  cbn [match_template]. destruct (GetScriptOp s) as [[[o v] s1]|]; [|done]. cbn match. intros H.
  destruct (vch_to_uint64 v) as [val|] eqn:E; [|done]. destruct (gas_limit_ok cc v0 val) eqn:E'; [|done]. by exists o, v, s1, val.
Qed.

Lemma match_gas_price_inv : match_template cc al (OP_GAS_PRICE :: tplate) s at_ v0 sols = Match r ->
  exists o v s1 val, GetScriptOp s = Some (o, v, s1) /\ match_template cc al tplate s1 at_ v0 sols = Match r /\
    vch_to_uint64 v = Some val /\ gas_price_ok cc v0 val = true.
Proof.
  cbn [match_template]. destruct (GetScriptOp s) as [[[o v] s1]|]; [|done]. cbn match. intros H.
  destruct (vch_to_uint64 v) as [val|] eqn:E; [|done]. destruct (gas_price_ok cc v0 val) eqn:E'; [|done]. by exists o, v, s1, val.
Qed.

Lemma match_data_inv : match_template cc al (OP_DATA :: tplate) s at_ v0 sols = Match r ->
  exists o v s1, GetScriptOp s = Some (o, v, s1) /\ match_template cc al tplate s1 at_ v0 sols = Match r /\
    (is_push o = true -> v <> []).
Proof.
  cbn [match_template]. destruct (GetScriptOp s) as [[[o v] s1]|]; [|done]. cbn match. intros H. exists o, v, s1. split; [done|].
  destruct (is_push o), v; done.
Qed.

Lemma match_address_inv : match_template cc al (OP_PUBKEYHASH :: tplate) s at_ v0 sols = Match r ->
  exists o v s1, GetScriptOp s = Some (o, v, s1) /\ match_template cc al tplate s1 at_ v0 (sols ++ [v]) = Match r /\ size v = 20.
Proof.
  cbn [match_template]. destruct (GetScriptOp s) as [[[o v] s1]|]; [|done]. cbn match. intros H. exists o, v, s1. split; [done|].
  by destruct (Z.eqb_spec (size v) 20).
Qed.
End Inversion.

Lemma match_last_inv cc al op s at_ v0 sols r : op = OP_CALL \/ op = OP_CREATE ->
  match_template cc al [op] s at_ v0 sols = Match r -> GetScriptOp s = Some (op, [], []) /\ r = sols.
Proof.
  intros Ho. cbn [match_template]. destruct (GetScriptOp s) as [[[o v] s1]|]; [|done]. destruct Ho as [-> | ->]; cbn match;
    (match goal with |- context [o =? ?c] => destruct (Z.eqb_spec o c) as [->|]; [|done] end);
    (destruct v; [|done]); cbn [negb orb length Nat.eqb]; (destruct s1; [|done]); by intros [= ->].
Qed.

(** Conversely, an output taken for a call has six instructions: what stands for the
    version, the gas limit and price, the data, the address of 20 bytes, [OP_CALL]. *)
Definition call_instructions (cc : bool) (ops : list (Z * list Z)) (address : list Z) : Prop :=
  exists o0 version raw o1 gasLimit o2 gasPrice o3 data o4,
    ops = [(o0, version); (o1, gasLimit); (o2, gasPrice); (o3, data); (o4, address); (OP_CALL, [])] /\
    (if is_push o0 then u32 (default 0 (vch_to_uint64 version)) = raw /\ (raw = GetNoExec \/ raw = GetEVMDefault) else raw = unset_version) /\
    gas_ok cc raw gasLimit gasPrice = true /\ (is_push o3 = true -> data <> []) /\ size address = 20.

Lemma scan_cons cc al type tplate templates s type' r : scan_templates cc al ((type, tplate) :: templates) s = Some (type', r) ->
  (type = type' /\ match_template cc al tplate s 0 unset_version [] = Match r) \/ scan_templates cc al templates s = Some (type', r).
Proof. cbn [scan_templates]. destruct (match_template _ _ _ _ _ _ _); [intros [= -> ->]; by left|by right|done]. Qed.

Lemma Solver_call cc al s sols : Solver cc al s = (CALL, sols) -> MatchContract cc al s = Some (CALL, sols).
Proof.
  unfold Solver. intros H. repeat match type of H with
    | (if ?b then _ else _) = _ => destruct b; [discriminate H|]
    | match ?m with Some _ => _ | None => _ end = _ => destruct m as [[? ?]|] || destruct m as [?|]; try discriminate H
    end; try discriminate H.
  destruct (MatchContract cc al s) as [x|]; cbn in H; [by rewrite H|discriminate H].
Qed.

Lemma MatchContract_call cc al s sols : MatchContract cc al s = Some (CALL, sols) ->
  match_template cc al [OP_VERSION; OP_GAS_LIMIT; OP_GAS_PRICE; OP_DATA; OP_PUBKEYHASH; OP_CALL] s 0 unset_version [] = Match sols.
Proof.
  unfold MatchContract, mTemplates. intros HM.
  apply scan_cons in HM as [[T _]|HM]; [discriminate T|]. apply scan_cons in HM as [[T _]|HM]; [discriminate T|].
  apply scan_cons in HM as [[T _]|HM]; [discriminate T|]. apply scan_cons in HM as [[_ M]|HM]; [exact M|discriminate HM].
Qed.

Lemma GetOps_nil : GetOps [] = ([], true).
Proof. done. Qed.

Lemma call_inv cc al s sols : short s -> Solver cc al s = (CALL, sols) ->
  exists address, sols = [address] /\ call_instructions cc (map fst (GetOps s).1) address /\ (GetOps s).2 = true.
Proof.
  intros Hs M%Solver_call%MatchContract_call.
  apply match_version_inv in M as (o0 & version & s1 & raw & E0 & M & Hraw). pose proof (short_op _ _ _ _ Hs E0) as Hs1.
  apply match_gas_limit_inv in M as (o1 & gasLimit & s2 & limit & E1 & M & G1 & G2). pose proof (short_op _ _ _ _ Hs1 E1) as Hs2.
  apply match_gas_price_inv in M as (o2 & gasPrice & s3 & price & E2 & M & G3 & G4). pose proof (short_op _ _ _ _ Hs2 E2) as Hs3.
  apply match_data_inv in M as (o3 & data & s4 & E3 & M & D). pose proof (short_op _ _ _ _ Hs3 E3) as Hs4.
  apply match_address_inv in M as (o4 & address & s5 & E4 & M & Ha). pose proof (short_op _ _ _ _ Hs4 E4) as Hs5.
  apply match_last_inv in M as [E5 ->]; [|tauto]. exists address. split; [done|].
  rewrite (GetOps_cons _ _ _ _ Hs E0), (GetOps_cons _ _ _ _ Hs1 E1), (GetOps_cons _ _ _ _ Hs2 E2), (GetOps_cons _ _ _ _ Hs3 E3),
    (GetOps_cons _ _ _ _ Hs4 E4), (GetOps_cons _ _ _ _ Hs5 E5), GetOps_nil. cbn [fst snd map]. split; [|done].
  exists o0, version, raw, o1, gasLimit, o2, gasPrice, o3, data, o4. split; [done|]. split; [done|]. split; [|done].
  unfold gas_ok. by rewrite G1, G3, G2, G4.
Qed.

(** ** Contract data *)

Lemma filter_opcodes op l l' : map fst l = map fst l' ->
  length (filter (fun o => opcode_of o = op) l) = length (filter (fun o => opcode_of o = op) l').
Proof.
  revert l'. induction l as [|[a b] l IH]; intros [|[a' b'] l'] E; cbn [map fst] in E; try done. injection E as -> E.
  rewrite !filter_cons. change (opcode_of (a', b)) with a'.1. change (opcode_of (a', b')) with a'.1.
  by destruct (decide (a'.1 = op)); cbn [length]; rewrite (IH l' E).
Qed.

(** A replacement takes away one instruction other than [findOp], and puts a push there. *)
Lemma replaced_Find findOp k v s s' op : OP_PUSHDATA4 < findOp -> 1 <= k -> short s -> short s' -> short v ->
  ReplaceParam findOp k v s = Some s' -> OP_PUSHDATA4 < op ->
  Find s' op <= Find s op /\ (op = findOp -> Find s' op = Find s op).
Proof.
  intros Hf Hk Hs Hs' Hv E Hop. destruct (ReplaceParam_inv _ _ _ _ _ Hs Hk E) as (pre & ins & post & w & [Es (ops & R & _) (o & Eo & Ho) _] & ->).
  destruct (reads_exchange _ _ _ R Hs) as (pre' & Es' & Hx). rewrite Es in Es'. apply app_inv_tail in Es' as <-.
  destruct (Hx _ Hs') as (ops' & R' & Em). destruct (GetScriptOp_push v post) as (o' & Ho' & Eo'); [by eapply short_rest|done|].
  unfold Find. rewrite (reads_GetOps _ _ _ R Hs), (reads_GetOps _ _ _ R' Hs'). cbn [fst].
  assert (short (ins ++ post)) as Hm by (rewrite Es in Hs; by eapply short_rest).
  assert (short (push v ++ post)) as Hm' by (by eapply short_rest). rewrite (GetOps_cons _ _ _ _ Hm Eo), (GetOps_cons _ _ _ _ Hm' Eo').
  cbn [fst]. rewrite !filter_app, !length_app, (filter_opcodes op ops' ops Em), !filter_cons. 
  change (opcode_of (o, w, post)) with o. change (opcode_of (o', v, post)) with o'.
  rewrite (decide_False (P := o' = op)) by lia. destruct (decide (o = op)) as [->|]; cbn [length]; [|split; lia].
  split; [lia|]. intros ->. done.
Qed.

Lemma SetData_spec data s s' : short s -> short s' -> short data -> Find s OP_CREATE <= 1 ->
  SetData data s = Some s' -> GetData s' = Some data.
Proof.
  intros Hs Hs' Hd H1. unfold SetData, GetData, HasOpCreate, HasOpCall. destruct (Z.eqb_spec (Find s OP_CREATE) 1) as [HC|HC].
  - intros E. destruct (replaced_Find OP_CREATE 1 data s s' OP_CREATE ltac:(done) ltac:(lia) Hs Hs' Hd E ltac:(done)) as [_ HF].
    rewrite (HF eq_refl), HC. by apply (ReplaceParam_spec OP_CREATE 1 data s s' [] ltac:(done) ltac:(lia) Hs Hs' Hd) in E as (_ & E & _).
  - destruct (Z.eqb_spec (Find s OP_CALL) 1) as [HL|]; [|done]. intros E.
    destruct (replaced_Find OP_CALL 2 data s s' OP_CREATE ltac:(done) ltac:(lia) Hs Hs' Hd E ltac:(done)) as [HF _].
    destruct (replaced_Find OP_CALL 2 data s s' OP_CALL ltac:(done) ltac:(lia) Hs Hs' Hd E ltac:(done)) as [_ HF'].
    rewrite (proj2 (Z.eqb_neq (Find s' OP_CREATE) 1)), (HF' eq_refl), HL by lia.
    by apply (ReplaceParam_spec OP_CALL 2 data s s' [] ltac:(done) ltac:(lia) Hs Hs' Hd) in E as (_ & E & _).
Qed.

(** ** Properties *)

(** Numbers and the script format agree, both ways: every 64-bit number but the least
    is written in at most eight bytes that read back, under the minimality rule, as
    itself; every byte string the rule accepts is the one written for its number; and the
    unsigned reader gas limits use agrees on what is not negative. *)
Theorem script_number_roundtrip :
  (forall n, - 2 ^ 63 < n < 2 ^ 63 ->
    Forall byte_ok (serialize n) /\ (length (serialize n) <= 8)%nat /\ CScriptNum (serialize n) true 8 = Some n) /\
  (forall vch m n, Forall byte_ok vch -> m <= 8 -> CScriptNum vch true m = Some n -> serialize n = vch /\ - 2 ^ 63 < n < 2 ^ 63) /\
  (forall n, 0 <= n < 2 ^ 63 -> vch_to_uint64 (serialize n) = Some n).
Proof.
  split; [apply script_number_spec|]. split; [apply script_number_canonical_spec|apply vch_to_uint64_spec].
Qed.

Lemma script_number_roundtrip_witness :
  serialize (-255) = [255; 128] /\ CScriptNum [255; 128] true 8 = Some (-255) /\
  serialize (default 0 (CScriptNum [0; 1] true 4)) = [0; 1] /\ vch_to_uint64 (serialize 250000) = Some 250000.
Proof.
  split; [reflexivity|]. destruct script_number_roundtrip as (H1 & H2 & H3). split.
  { destruct (H1 (-255)) as (_ & _ & E); [lia|]. exact E. }
  split; [|apply H3; lia]. refine (proj1 (H2 [0; 1] 4 256 _ _ _)); [repeat constructor; lia|lia|reflexivity].
Defined.

(** What the sender of a contract output signs does not depend on the signature: the
    script without sender signature is the same before and after one is put in, the
    signature put in is the one found, and the output keeps one sender. *)
Theorem sender_signature_not_signed sig s s' : short s -> short s' -> short sig -> UpdateSenderSig sig s = Some s' ->
  WithoutSenderSig s' = WithoutSenderSig s /\ FindParam OP_SENDER 1 s' = Some sig /\ HasOpSender s' = HasOpSender s.
Proof.
  unfold UpdateSenderSig, WithoutSenderSig, HasOpSender. intros Hs Hs' Hd E.
  destruct (replaced_Find OP_SENDER 1 sig s s' OP_SENDER ltac:(done) ltac:(lia) Hs Hs' Hd E ltac:(done)) as [_ ->]; [|done].
  destruct (ReplaceParam_spec OP_SENDER 1 sig s s' [] ltac:(done) ltac:(lia) Hs Hs' Hd E) as (E' & F & pre & ins & post & w & HR & _).
  unfold UpdateSenderSig. rewrite E'. destruct (replaceable_spec OP_SENDER 1 s pre ins post w [] Hs ltac:(lia) HR) as [-> _]. done.
Qed.

(** A call to [address] with a sender: the address type and address of the sender, its
    signature, [OP_SENDER], and the call. *)
Definition sample_call : list Z := call_script [4] (serialize 250000) (serialize 40) [1; 2; 3; 4] (repeat 7 20).
Definition sample_sender : list Z :=
  push [1] ++ push (repeat 9 20) ++ push [] ++ [OP_SENDER] ++ sample_call.

Lemma sender_signature_not_signed_witness :
  exists s', UpdateSenderSig [48; 1; 2] sample_sender = Some s' /\ s' <> sample_sender /\
    WithoutSenderSig s' = WithoutSenderSig sample_sender /\ FindParam OP_SENDER 1 s' = Some [48; 1; 2].
Proof.
  eexists. split; [vm_compute; reflexivity|]. split; [intros E; vm_compute in E; discriminate E|].
  match goal with |- WithoutSenderSig ?s' = _ /\ _ =>
    destruct (sender_signature_not_signed [48; 1; 2] sample_sender s') as (H1 & H2 & _) end.
  all: try (vm_compute; reflexivity). exact (conj H1 H2).
Defined.

(** C27: What [Solver] takes for contract calls and creations, under the rules of consensus
    and of the mempool.  A script that pushes an allowed version, a gas limit and price, data
    and a target is a call to the target exactly when the gas is in the bounds, the data are
    not empty and the target has 20 bytes, and nonstandard otherwise; likewise a creation.
    Conversely, every output taken for a call has six instructions: gas in the bounds, a
    target of 20 bytes, [OP_CALL], and, where version and data are pushes, an allowed version
    and data that are not empty.  They need not be pushes: with [OP_NOP] in their places the
    version is not checked and the output is a call. *)
Theorem contract_outputs_exact cc al :
  (forall version raw gasLimit gasPrice data address, version_ok version raw ->
    Forall short [gasLimit; gasPrice; data; address; call_script version gasLimit gasPrice data address] ->
    Solver cc al (call_script version gasLimit gasPrice data address) =
    if gas_ok cc raw gasLimit gasPrice && (0 <? size data) && (size address =? 20) then (CALL, [address]) else (NONSTANDARD, [])) /\
  (forall version raw gasLimit gasPrice data, version_ok version raw ->
    Forall short [gasLimit; gasPrice; data; create_script version gasLimit gasPrice data] ->
    Solver cc al (create_script version gasLimit gasPrice data) =
    if gas_ok cc raw gasLimit gasPrice && (0 <? size data) then (CREATE, []) else (NONSTANDARD, [])) /\
  (forall s sols, short s -> Solver cc al s = (CALL, sols) ->
    exists address, sols = [address] /\ call_instructions cc (map fst (GetOps s).1) address /\ (GetOps s).2 = true) /\
  (forall gasLimit gasPrice address, Forall short [gasLimit; gasPrice; address; opcode_script gasLimit gasPrice address] ->
    Solver cc al (opcode_script gasLimit gasPrice address) =
    if gas_ok cc unset_version gasLimit gasPrice && (size address =? 20) then (CALL, [address]) else (NONSTANDARD, [])).
Proof.
  split; [|split; [|split]].
  - intros * Hv HF. rewrite !Forall_cons in HF. destruct HF as (? & ? & ? & ? & ? & _). by apply call_spec.
  - intros * Hv HF. rewrite !Forall_cons in HF. destruct HF as (? & ? & ? & ? & _). by apply create_spec.
  - apply call_inv.
  - intros * HF. rewrite !Forall_cons in HF. destruct HF as (? & ? & ? & ? & _). by apply opcode_call_spec.
Qed.

Lemma contract_outputs_exact_witness :
  Solver true false sample_call = (CALL, [repeat 7 20]) /\ (GetOps sample_call).2 = true /\
  Solver true false (create_script [4] (serialize 2000000000) (serialize 40) [96]) = (NONSTANDARD, []) /\
  Solver true false (opcode_script (serialize 250000) (serialize 40) (repeat 7 20)) = (CALL, [repeat 7 20]).
Proof.
  destruct (contract_outputs_exact true false) as (H1 & H2 & H3 & H4).
  assert (version_ok [4] 4) as Hv.
  { split; [repeat constructor; lia|]. split; [vm_compute; split; discriminate|]. split; [reflexivity|by right]. }
  assert (Solver true false sample_call = (CALL, [repeat 7 20])) as E.
  { unfold sample_call. rewrite (H1 [4] 4); [reflexivity|exact Hv|repeat constructor]. }
  split; [exact E|]. split; [|split].
  - destruct (H3 sample_call _ ltac:(reflexivity) E) as (_ & _ & _ & Ec). exact Ec.
  - rewrite (H2 [4] 4); [reflexivity|exact Hv|repeat constructor].
  - rewrite H4; [reflexivity|repeat constructor].
Defined.

(** Contract data put into an output are the data read from it. *)
Theorem contract_data_roundtrip data s s' : short s -> short s' -> short data -> Find s OP_CREATE <= 1 ->
  SetData data s = Some s' -> GetData s' = Some data.
Proof. apply SetData_spec. Qed.

Lemma contract_data_roundtrip_witness : exists s', SetData [9; 9] sample_sender = Some s' /\ GetData s' = Some [9; 9].
Proof.
  eexists. split; [vm_compute; reflexivity|]. apply (contract_data_roundtrip [9; 9] sample_sender).
  all: try (vm_compute; reflexivity). vm_compute. discriminate.
Defined.
End Script.
