(* ===== verification/OutPoint.v ===== *)
(** * Outpoints and outpoint indexes (primitives/transaction.h)

    [COutPoint], and the pattern both databases of validators/ follow: a map of
    entries that carry an outpoint, with a second map from each non-null outpoint
    back to the key of its entry. *)

From stdpp Require Import gmap list.
From Stdlib Require Import ZArith Lia.
From S2P Require Import Prelude Serialize.

Open Scope Z_scope.

Record COutPoint := mkOutPoint { hash : N; n : Z }.

Definition NULL_INDEX : Z := 4294967295.
Definition IsNull (o : COutPoint) : bool := (hash o =? 0)%N && (n o =? NULL_INDEX).
Definition COutPoint_null : COutPoint := mkOutPoint 0 NULL_INDEX.

#[export] Instance COutPoint_eq : EqDecision COutPoint.
Proof. solve_decision. Defined.

#[export] Instance COutPoint_countable : Countable COutPoint.
Proof.
  refine (inj_countable' (fun o => (hash o, n o)) (fun x => mkOutPoint x.1 x.2) _). by intros [].
Defined.

Definition outpoint_codec : codec COutPoint :=
  class_codec (fun o => (hash o, n o)) (fun x => mkOutPoint x.1 x.2) (pair_codec (id_codec 32) u32_codec).

Definition outpoint_ok (o : COutPoint) : Prop := (hash o < 2 ^ 256)%N /\ in_u32 (n o).

Lemma id20_valid id : (id < 2 ^ 160)%N -> valid (id_codec 20) id.
Proof. intros H. cbn [valid id_codec]. change (256 ^ Z.of_nat 20) with (Z.of_N (2 ^ 160)). lia. Qed.

Lemma outpoint_valid o : outpoint_ok o -> valid outpoint_codec o.
Proof.
  intros [Hh Hn]. split; [|by destruct o]. split; [|done]. cbn [valid id_codec fst].
  change (256 ^ Z.of_nat 32) with (Z.of_N (2 ^ 256)). lia.
Qed.

(** [if (!o.IsNull()) index[o] = id] *)
Definition index_outpoint (o : COutPoint) (id : N) (idx : gmap COutPoint N) : gmap COutPoint N :=
  if IsNull o then idx else <[o := id]> idx.

(** [if (!o.IsNull()) index.erase(o)] *)
Definition unindex_outpoint (o : COutPoint) (idx : gmap COutPoint N) : gmap COutPoint N :=
  if IsNull o then idx else delete o idx.

Section index.
Context {V : Type} (out : V -> COutPoint).

(** The loop that rebuilds an index: entries in key order, later ones win. *)
Definition rebuild_index (vs : gmap N V) : gmap COutPoint N :=
  foldl (fun idx '(id, e) => index_outpoint (out e) id idx) ∅ (in_order vs).

(** Every indexed outpoint is non-null and belongs to the entry it leads to. *)
Definition index_sound (vs : gmap N V) (idx : gmap COutPoint N) : Prop :=
  forall o id, idx !! o = Some id -> IsNull o = false /\ exists e, vs !! id = Some e /\ out e = o.

(** No two entries have the same non-null outpoint. *)
Definition outpoints_distinct (vs : gmap N V) : Prop :=
  forall i j a b, vs !! i = Some a -> vs !! j = Some b ->
    IsNull (out a) = false -> out a = out b -> i = j.

Lemma index_outpoint_lookup o id idx o' id' :
  index_outpoint o id idx !! o' = Some id' ->
  (o' = o /\ id' = id /\ IsNull o = false) \/ idx !! o' = Some id'.
Proof.
  unfold index_outpoint. destruct (IsNull o) eqn:E; [by right|].
  rewrite lookup_insert_Some. intros [[-> ->]|[_ H]]; auto.
Qed.

Lemma unindex_outpoint_lookup o idx o' id' :
  unindex_outpoint o idx !! o' = Some id' ->
  idx !! o' = Some id' /\ (IsNull o = false -> o' <> o).
Proof.
  unfold unindex_outpoint. destruct (IsNull o); [done|]. rewrite lookup_delete_Some. naive_solver.
Qed.

Lemma sound_empty vs : index_sound vs ∅.
Proof. intros o id H. by rewrite lookup_empty in H. Qed.

(** Changes that keep the outpoints of the entries keep the index sound. *)
Lemma sound_update vs idx id e e' :
  index_sound vs idx -> vs !! id = Some e -> out e' = out e -> index_sound (<[id := e']> vs) idx.
Proof.
  intros Hs He Ho o i Hi. destruct (Hs _ _ Hi) as (Hn & x & Hx & Hox). split; [done|].
  destruct (decide (i = id)) as [->|Hne].
  - rewrite lookup_insert_eq. exists e'. simplify_eq. by rewrite Ho.
  - rewrite lookup_insert_ne by done. eauto.
Qed.

Lemma sound_fmap vs idx (f : V -> V) :
  index_sound vs idx -> (forall e, out (f e) = out e) -> index_sound (f <$> vs) idx.
Proof.
  intros Hs Hf o i Hi. destruct (Hs _ _ Hi) as (Hn & x & Hx & Hox). split; [done|].
  exists (f x). rewrite lookup_fmap, Hx. split; [done|]. by rewrite Hf.
Qed.

Lemma sound_new vs idx id e :
  index_sound vs idx -> vs !! id = None ->
  index_sound (<[id := e]> vs) (index_outpoint (out e) id idx).
Proof.
  intros Hs Hnew o i Hi. apply index_outpoint_lookup in Hi as [(-> & -> & Hn)|Hi].
  - split; [done|]. exists e. by rewrite lookup_insert_eq.
  - destruct (Hs _ _ Hi) as (Hn & x & Hx & Hox). split; [done|]. exists x.
    rewrite lookup_insert_ne by congruence. done.
Qed.

(** Moving an entry to a new outpoint, the old one dropped from the index first. *)
Lemma sound_move vs idx id e e' :
  index_sound vs idx -> vs !! id = Some e ->
  index_sound (<[id := e']> vs) (index_outpoint (out e') id (unindex_outpoint (out e) idx)).
Proof.
  intros Hs He o i Hi. apply index_outpoint_lookup in Hi as [(-> & -> & Hn)|Hi].
  - split; [done|]. exists e'. by rewrite lookup_insert_eq.
  - apply unindex_outpoint_lookup in Hi as [Hi Hne].
    destruct (Hs _ _ Hi) as (Hn & x & Hx & Hox). split; [done|].
    destruct (decide (i = id)) as [->|Hd].
    + exfalso. simplify_eq. naive_solver.
    + exists x. by rewrite lookup_insert_ne by done.
Qed.

Lemma rebuild_lookup l : forall idx o id,
  foldl (fun idx '(id, e) => index_outpoint (out e) id idx) idx l !! o = Some id ->
  idx !! o = Some id \/ exists e : V, (id, e) ∈ l /\ out e = o /\ IsNull o = false.
Proof.
  induction l as [|[j x] l IH]; intros idx o id; cbn [foldl]; [by left|].
  intros H. apply IH in H as [H|(e & He & Ho)].
  - apply index_outpoint_lookup in H as [(-> & -> & Hn)|H]; [|by left].
    right. exists x. split_and!; [apply list_elem_of_here|done|done].
  - right. exists e. split; [by apply list_elem_of_further|done].
Qed.

Lemma rebuild_complete l : forall idx o id (e : V),
  ((id, e) ∈ l \/ idx !! o = Some id) -> out e = o -> IsNull o = false ->
  (forall j x, (j, x) ∈ l -> out x = o -> j = id) ->
  foldl (fun idx '(id, e) => index_outpoint (out e) id idx) idx l !! o = Some id.
Proof.
  induction l as [|[j x] l IH]; intros idx o id e Hin Ho Hn Hd; cbn [foldl].
  - destruct Hin as [Hin|Hin]; [by apply elem_of_nil in Hin|done].
  - apply (IH _ o id e); [|done|done|].
    + destruct (decide (out x = o)) as [Hx|Hx].
      * right. rewrite (Hd j x (list_elem_of_here _ _) Hx). unfold index_outpoint. rewrite Hx, Hn.
        apply lookup_insert_eq.
      * destruct Hin as [Hin|Hin].
        -- left. apply elem_of_cons in Hin as [[= -> ->]|Hin]; [done|done].
        -- right. unfold index_outpoint. destruct (IsNull (out x)); [done|].
           by rewrite lookup_insert_ne.
    + intros k y Hk. apply Hd. by apply list_elem_of_further.
Qed.

Lemma rebuild_sound vs : index_sound vs (rebuild_index vs).
Proof.
  intros o id H. apply rebuild_lookup in H as [H|(e & He & Ho & Hn)].
  - by rewrite lookup_empty in H.
  - split; [done|]. exists e. by rewrite <- elem_of_in_order.
Qed.

Lemma rebuild_index_complete vs id e :
  outpoints_distinct vs -> vs !! id = Some e -> IsNull (out e) = false ->
  rebuild_index vs !! out e = Some id.
Proof.
  intros Hd He Hn. apply (rebuild_complete _ _ _ _ e); [|done|done|].
  - left. by apply elem_of_in_order.
  - intros j x Hj Hx. apply elem_of_in_order in Hj. symmetry. by apply (Hd id j e x).
Qed.
End index.
