(* ===== verification/Address.v ===== *)
(** * Destinations (addresstype.h, addresstype.cpp)

    The destination an output script pays to and the script that pays to a destination, over
    the classification of Script.v.  Hashes and key ids are numbers (see Serialize.v,
    [id_bytes]); a public key is its bytes.  The theorems: a destination stands for exactly
    one script, and a script for one destination. *)

From stdpp Require Import prelude list.
From Stdlib Require Import ZArith Lia.
From S2P Require Import Prelude Serialize Crypto Script OutPoint.

Open Scope Z_scope.

Module Address.
Import Script.Script.

(** ** Destinations *)

(** The alternatives of the variant, in its order. *)
Inductive CTxDestination :=
| CNoDestination (m_script : list Z)
| PubKeyDestination (m_pubkey : list Z)
| PKHash (h : N)
| ScriptHash (h : N)
| WitnessV0ScriptHash (h : N)
| WitnessV0KeyHash (h : N)
| WitnessV1Taproot (h : N)
| PayToAnchor
| WitnessUnknown (m_version : Z) (m_program : list Z).

#[export] Instance CTxDestination_eq : EqDecision CTxDestination.
Proof. solve_decision. Defined.

(** [uint160(vch)], [uint256(vch)] and the copies into a hash *)
Definition id_of (vch : list Z) : N := Z.to_N (le_value (reverse vch)).

(** [vSolutions[i]] *)
Definition solution (sols : list (list Z)) (i : nat) : list Z := nth i sols [].

Section Extract.
Context {K : Crypto}.

(** The type, the destination, and the value returned.  A key the classification lets
    through has a valid length, so [CPubKey(vSolutions[0])] keeps its bytes. *)
Definition ExtractDestination (scriptPubKey : list Z) (convertPublicKeyToHash : bool) : TxoutType * CTxDestination * bool :=
  let '(whichType, vSolutions) := Solver false false scriptPubKey in
  let v0 := solution vSolutions 0 in
  let '(address, ret) :=
    match whichType with
    | PUBKEY =>
        if negb (ValidSize v0) then (CNoDestination scriptPubKey, false)
        else if convertPublicKeyToHash then (PKHash (GetID v0), true)
        else (PubKeyDestination v0, false)
    | PUBKEYHASH => (PKHash (id_of v0), true)
    | SCRIPTHASH => (ScriptHash (id_of v0), true)
    | WITNESS_V0_KEYHASH => (WitnessV0KeyHash (id_of v0), true)
    | WITNESS_V0_SCRIPTHASH => (WitnessV0ScriptHash (id_of v0), true)
    | WITNESS_V1_TAPROOT => (WitnessV1Taproot (id_of v0), true)
    | ANCHOR => (PayToAnchor, true)
    | WITNESS_UNKNOWN => (WitnessUnknown (at_ v0 0) (solution vSolutions 1), true)
    | MULTISIG | NULL_DATA | NONSTANDARD | CREATE_SENDER | CALL_SENDER | CREATE | CALL => (CNoDestination scriptPubKey, false)
    end in
  (whichType, address, ret).

(** [std::get<PKHash>], [None] when the variant holds something else *)
Definition get_PKHash (d : CTxDestination) : option N :=
  match d with PKHash h => Some h | _ => None end.

Definition is_key_type (t : TxoutType) : bool := bool_decide (t = PUBKEY) || bool_decide (t = PUBKEYHASH).

(** The hash and [*OK]; [PKHash()] is zero. *)
Definition ExtractPublicKeyHash (scriptPubKey : list Z) : N * bool :=
  let '(txType, address, found) := ExtractDestination scriptPubKey true in
  if found && is_key_type txType
  then match get_PKHash address with Some h => (h, true) | None => (0%N, false) end
  else (0%N, false).

(** [QtumState::createQtumAddress]: RIPEMD160 of SHA256 of the outpoint, as for a key *)
Definition createQtumAddress (o : COutPoint) : N := GetID (id_bytes 32 (hash o) ++ ser_writedata32 (n o)).

(** The overload that knows the outpoint: contracts have an address too.  [None] is the
    value [false], with the destination left as it was. *)
Definition ExtractDestination_of (o : COutPoint) (scriptPubKey : list Z) : TxoutType * option CTxDestination :=
  let '(whichType, vSolutions) := Solver false false scriptPubKey in
  let v0 := solution vSolutions 0 in
  (whichType,
   match whichType with
   | PUBKEY => if ValidSize v0 then Some (PKHash (GetID v0)) else None
   | PUBKEYHASH | CALL => Some (PKHash (id_of v0))
   | SCRIPTHASH => Some (ScriptHash (id_of v0))
   | WITNESS_V0_KEYHASH => Some (WitnessV0KeyHash (id_of v0))
   | WITNESS_V0_SCRIPTHASH => Some (WitnessV0ScriptHash (id_of v0))
   | ANCHOR => Some PayToAnchor
   | WITNESS_V1_TAPROOT => Some (WitnessV1Taproot (id_of v0))
   | WITNESS_UNKNOWN => Some (WitnessUnknown (at_ v0 0) (solution vSolutions 1))
   | CREATE => Some (PKHash (createQtumAddress o))
   | _ => None
   end).
End Extract.

(** ** Scripts *)

(** [None] is the failed assertion. *)
Definition EncodeOP_N (n : Z) : option Z :=
  if negb ((0 <=? n) && (n <=? 16)) then None else Some (if n =? 0 then OP_0 else OP_1 + n - 1).

(** [CScriptVisitor]; an anchor is the unknown program it derives from *)
Definition GetScriptForDestination (dest : CTxDestination) : option (list Z) :=
  let unknown version program := op ← EncodeOP_N version; Some (op :: push program) in
  match dest with
  | CNoDestination s => Some s
  | PubKeyDestination k => Some (push k ++ [OP_CHECKSIG])
  | PKHash h => Some (pay_to_pubkey_hash (id_bytes 20 h))
  | ScriptHash h => Some ([OP_HASH160] ++ push (id_bytes 20 h) ++ [OP_EQUAL])
  | WitnessV0KeyHash h => Some (OP_0 :: push (id_bytes 20 h))
  | WitnessV0ScriptHash h => Some (OP_0 :: push (id_bytes 32 h))
  | WitnessV1Taproot h => Some (OP_1 :: push (id_bytes 32 h))
  | PayToAnchor => unknown 1 [0x4e; 0x73]
  | WitnessUnknown version program => unknown version program
  end.

(** [ValidDestinationVisitor] *)
Definition IsValidDestination (dest : CTxDestination) : bool :=
  match dest with CNoDestination _ | PubKeyDestination _ => false | _ => true end.

Definition IsValidContractSenderAddress (dest : CTxDestination) : bool :=
  match dest with PKHash _ => true | _ => false end.

(** [DataVisitor] *)
Definition destination_data `{Crypto} (dest : CTxDestination) : list Z :=
  match dest with
  | CNoDestination _ | PayToAnchor | WitnessUnknown _ _ => []
  | PubKeyDestination k => id_bytes 20 (GetID k)
  | PKHash h | ScriptHash h | WitnessV0KeyHash h => id_bytes 20 h
  | WitnessV0ScriptHash h | WitnessV1Taproot h => id_bytes 32 h
  end.

(** [dest.index()] *)
Definition index (dest : CTxDestination) : Z :=
  match dest with
  | CNoDestination _ => 0 | PubKeyDestination _ => 1 | PKHash _ => 2 | ScriptHash _ => 3 | WitnessV0ScriptHash _ => 4
  | WitnessV0KeyHash _ => 5 | WitnessV1Taproot _ => 6 | PayToAnchor => 7 | WitnessUnknown _ _ => 8
  end.
Definition GetAddressIndexType (dest : CTxDestination) : Z := if 1 <? index dest then index dest - 1 else index dest.

(** ** Hashes and pushes *)

Lemma id_bytes_length n h : length (id_bytes n h) = n.
Proof. unfold id_bytes. by rewrite length_reverse, length_le_bytes. Qed.

Lemma id_bytes_ok n h : Forall byte_ok (id_bytes n h).
Proof. apply Forall_reverse, le_bytes_ok. Qed.

Lemma id_bytes_of vch : Forall byte_ok vch -> id_bytes (length vch) (id_of vch) = vch.
Proof.
  intros H. apply Forall_reverse in H. pose proof (le_value_range _ H). unfold id_bytes, id_of. rewrite Z2N.id by lia.
  rewrite <- (length_reverse vch), le_bytes_value by done. apply reverse_involutive.
Qed.

Lemma id_of_bytes n h : Z.of_N h < 256 ^ Z.of_nat n -> id_of (id_bytes n h) = h.
Proof. intros H. unfold id_of, id_bytes. rewrite reverse_involutive, le_value_bytes, Z.mod_small by lia. apply N2Z.id. Qed.

Lemma push_short data : size data < 76 -> push data = size data :: data.
Proof.
  intros H. pose proof (size_nonneg data). unfold push. rewrite u32_size by (unfold short; change (2 ^ 32) with 4294967296; lia).
  unfold AppendDataSize. change OP_PUSHDATA1 with 76. by rewrite (proj2 (Z.ltb_lt _ _)).
Qed.

Lemma push_id n h : (n < 76)%nat -> push (id_bytes n h) = Z.of_nat n :: id_bytes n h.
Proof. intros H. rewrite push_short; unfold size; rewrite id_bytes_length; [done|lia]. Qed.

(** A list one longer than [n] is its first [n] elements and a last one. *)
Lemma snoc_split (s : list Z) n : length s = S n -> s = take n s ++ [nth n s 0] /\ length (take n s) = n.
Proof.
  intros H. rewrite length_take. split; [|lia]. rewrite <- (take_drop n s) at 1. f_equal.
  destruct (drop n s) as [|x [|]] eqn:E; apply (f_equal length) in E as El; rewrite length_drop in El; cbn in El; try lia.
  f_equal. rewrite <- (take_drop n s), E, app_nth2; rewrite length_take; [|lia]. by replace (n - n `min` length s)%nat with 0%nat by lia.
Qed.

Lemma nth_from_drop n : forall (s : list Z) k, nth (n + k) s 0 = nth k (drop n s) 0.
Proof. induction n as [|n IH]; intros s k; [done|]. destruct s; cbn [drop Nat.add nth]; [by destruct k|apply IH]. Qed.

Lemma back_snoc (s : list Z) n : length s = S n -> back s = nth n s 0.
Proof. intros [E Hl]%snoc_split. rewrite E at 1. apply back_app. Qed.

(** ** Every script is the script of its destination *)

#[local] Ltac split_tests :=
  repeat match goal with
  | H : _ && _ = true |- _ => apply andb_true_iff in H as [H ?]
  | H : (_ =? _) = true |- _ => apply Z.eqb_eq in H
  end.

Lemma p2sh_inv s : Forall byte_ok s -> IsPayToScriptHash s = true -> GetScriptForDestination (ScriptHash (id_of (take 20 (drop 2 s)))) = Some s.
Proof.
  unfold IsPayToScriptHash. intros Hok H. split_tests. unfold size in *. destruct s as [|a [|b s]]; [done|done|]. cbn [at_ nth length drop] in *.
  destruct (snoc_split s 20 ltac:(lia)) as [E El]. unfold at_ in *. cbn [nth] in *. inversion Hok as [|? ? _ Hok1]; inversion Hok1 as [|? ? _ Hok2]; subst.
  cbn [GetScriptForDestination]. rewrite push_id by lia. rewrite <- El at 2. rewrite id_bytes_of by (by apply Forall_take).
  rewrite E at 2. cbn [app]. do 3 f_equal. f_equal. congruence.
Qed.

Lemma p2pkh_inv s data : Forall byte_ok s -> MatchPayToPubkeyHash s = Some data -> GetScriptForDestination (PKHash (id_of data)) = Some s.
Proof.
  unfold MatchPayToPubkeyHash. intros Hok. destruct (_ && _) eqn:H; [|done]. intros [= <-]. split_tests. unfold size in *.
  destruct s as [|a [|b [|c s]]]; [done|done|done|]. unfold at_ in *. cbn [nth length drop] in *.
  pose proof (nth_from_drop 20 s 0) as E0. pose proof (nth_from_drop 20 s 1) as E1. cbn [Nat.add] in E0, E1.
  assert (length (drop 20 s) = 2%nat) as Ed by (rewrite length_drop; lia). assert (length (take 20 s) = 20%nat) as El by (rewrite length_take; lia).
  pose proof (take_drop 20 s) as E. destruct (drop 20 s) as [|x [|y [|]]]; try done. cbn [nth] in E0, E1.
  apply Forall_cons in Hok as [_ [_ [_ Hok]%Forall_cons]%Forall_cons].
  cbn [GetScriptForDestination]. unfold pay_to_pubkey_hash. rewrite push_id by lia. rewrite <- El at 2. rewrite id_bytes_of by (by apply Forall_take).
  rewrite <- E at 2. change (Z.of_nat 20) with 20. cbn [app]. rewrite drop_0. congruence.
Qed.
Lemma p2pk_inv s data : MatchPayToPubkey s = Some data -> ValidSize data = true /\ GetScriptForDestination (PubKeyDestination data) = Some s.
Proof.
  assert (forall n, size s = Z.of_nat n + 2 -> (n < 76)%nat -> at_ s 0 = Z.of_nat n -> back s = OP_CHECKSIG ->
    GetScriptForDestination (PubKeyDestination (take n (drop 1 s))) = Some s) as Hgen.
  { intros n Hs Hn H0 Hb. unfold size in Hs. rewrite (back_snoc s (S n)) in Hb by lia. destruct s as [|a s]; [cbn in Hs; lia|].
    cbn [at_ nth drop length] in *. destruct (snoc_split s n ltac:(lia)) as [E El]. unfold at_ in H0. cbn [nth] in H0.
    cbn [GetScriptForDestination]. rewrite drop_0, push_short by (unfold size; lia). unfold size. rewrite El. cbn [app]. rewrite E at 2. congruence. }
  unfold MatchPayToPubkey. destruct ((size s =? 67) && _ && _) eqn:H1.
  - destruct (ValidSize _) eqn:Hv; [|done]. intros [= <-]. split_tests. split; [done|]. by apply (Hgen 65%nat); [|lia|..].
  - destruct ((size s =? 35) && _ && _) eqn:H2; [|done]. destruct (ValidSize _) eqn:Hv; [|done]. intros [= <-]. split_tests.
    split; [done|]. by apply (Hgen 33%nat); [|lia|..].
Qed.

(** A witness program: the version, and a direct push of the program. *)
Lemma witness_inv s v prog : IsWitnessProgram s = Some (v, prog) ->
  0 <= v <= 16 /\ 2 <= size prog <= 40 /\ exists op, EncodeOP_N v = Some op /\ s = op :: push prog.
Proof.
  unfold IsWitnessProgram. destruct ((size s <? 4) || (42 <? size s)) eqn:H1; [done|]. apply orb_false_iff in H1 as [H1 H2].
  destruct (negb (at_ s 0 =? OP_0) && _) eqn:H3; [done|]. destruct (at_ s 1 + 2 =? size s) eqn:H4; [|done]. intros [= <- <-].
  apply Z.ltb_ge in H1, H2. apply Z.eqb_eq in H4. destruct s as [|a [|b s]]; [done|done|]. unfold at_ in *. cbn [nth drop] in *.
  rewrite ?drop_0, ?size_cons in *. change OP_0 with 0 in *. change OP_1 with 81 in *. change OP_16 with 96 in *.
  assert (a = 0 \/ 81 <= a <= 96) as Ha.
  { destruct (Z.eqb_spec a 0); [by left|right]. cbn in H3. apply orb_false_iff in H3 as [Hl Hu]. apply Z.ltb_ge in Hl, Hu. lia. }
  unfold DecodeOP_N, EncodeOP_N. change OP_0 with 0. change OP_1 with 81.
  assert (0 <= (if a =? 0 then 0 else a - (81 - 1)) <= 16) as Hv by (destruct (Z.eqb_spec a 0); lia).
  split; [done|]. split; [lia|]. eexists. split.
  { rewrite (proj2 (Z.leb_le _ _)), (proj2 (Z.leb_le _ _)) by lia. cbn [andb negb]. reflexivity. }
  rewrite push_short by lia. f_equal; [|f_equal; lia].
  destruct (Z.eqb_spec a 0); [done|]. destruct (Z.eqb_spec (a - (81 - 1)) 0); lia.
Qed.

Lemma anchor_inv s : IsPayToAnchor s = true -> s = [OP_1; 0x02; 0x4e; 0x73].
Proof.
  unfold IsPayToAnchor. intros H. split_tests. unfold size in *. destruct s as [|a [|b [|c [|d [|]]]]]; cbn [length] in *; try lia.
  unfold at_ in *. cbn [nth] in *. congruence.
Qed.

Lemma contract_types flags flags' s t sols : MatchContract flags flags' s = Some (t, sols) -> t ∈ [CREATE_SENDER; CALL_SENDER; CREATE; CALL].
Proof.
  unfold MatchContract, mTemplates. cbn [scan_templates].
  repeat match goal with |- context [match match_template ?a ?b ?c ?d ?e ?f ?g with _ => _ end] =>
    destruct (match_template a b c d e f g); [intros [= <- <-]; set_solver| |done] end. done.
Qed.

(** The types that have no destination. *)
Definition no_destination (t : TxoutType) : Prop :=
  t ∈ [MULTISIG; NULL_DATA; NONSTANDARD; CREATE_SENDER; CALL_SENDER; CREATE; CALL].

(** What the classification says, by type. *)
Lemma Solver_inv s t sols : Solver false false s = (t, sols) ->
  match t with
  | SCRIPTHASH => IsPayToScriptHash s = true /\ sols = [take 20 (drop 2 s)]
  | WITNESS_V0_KEYHASH => exists prog, IsWitnessProgram s = Some (0, prog) /\ size prog = 20 /\ sols = [prog]
  | WITNESS_V0_SCRIPTHASH => exists prog, IsWitnessProgram s = Some (0, prog) /\ size prog = 32 /\ sols = [prog]
  | WITNESS_V1_TAPROOT => exists prog, IsWitnessProgram s = Some (1, prog) /\ size prog = 32 /\ sols = [prog]
  | ANCHOR => IsPayToAnchor s = true
  | WITNESS_UNKNOWN => exists v prog, IsWitnessProgram s = Some (v, prog) /\ sols = [[v]; prog]
  | PUBKEY => exists data, MatchPayToPubkey s = Some data /\ sols = [data]
  | PUBKEYHASH => exists data, MatchPayToPubkeyHash s = Some data /\ sols = [data]
  | _ => no_destination t
  end.
Proof.
  unfold Solver. destruct (IsPayToScriptHash s) eqn:E1; [by intros [= <- <-]|].
  destruct (IsWitnessProgram s) as [[v prog]|] eqn:E2.
  { destruct ((v =? 0) && (size prog =? 20)) eqn:H1; [intros [= <- <-]; split_tests; subst; eauto|].
    destruct ((v =? 0) && (size prog =? 32)) eqn:H2; [intros [= <- <-]; split_tests; subst; eauto|].
    destruct ((v =? 1) && (size prog =? 32)) eqn:H3; [intros [= <- <-]; split_tests; subst; eauto|].
    destruct (IsPayToAnchor s) eqn:H4; [by intros [= <- <-]|].
    destruct (negb (v =? 0)); [intros [= <- <-]; eauto|]. intros [= <- <-]. unfold no_destination. set_solver. }
  destruct (_ && IsPushOnly _); [intros [= <- <-]; unfold no_destination; set_solver|].
  destruct (MatchPayToPubkey s) as [d|] eqn:E3; [intros [= <- <-]; eauto|].
  destruct (MatchPayToPubkeyHash s) as [d|] eqn:E4; [intros [= <- <-]; eauto|].
  destruct (MatchMultisig s) as [[r keys]|]; [intros [= <- <-]; unfold no_destination; set_solver|].
  destruct (MatchContract false false s) as [[t' sols']|] eqn:E5; cbn [default]; intros [= <- <-]; [|unfold no_destination; set_solver].
  apply contract_types in E5. unfold no_destination.
  repeat (apply elem_of_cons in E5 as [->|E5]; [set_solver|]). by apply not_elem_of_nil in E5.
Qed.

Lemma extract_lossless `{Crypto} s : Forall byte_ok s -> GetScriptForDestination (ExtractDestination s false).1.2 = Some s.
Proof.
  intros Hok. unfold ExtractDestination. destruct (Solver false false s) as [t sols] eqn:E. apply Solver_inv in E.
  assert (forall n v prog, IsWitnessProgram s = Some (v, prog) -> size prog = Z.of_nat n -> id_bytes n (id_of prog) = prog) as Hid.
  { intros n v prog E' Hl. unfold size in Hl. assert (length prog = n) as <- by lia. apply id_bytes_of.
    apply witness_inv in E' as (_ & Hs & op & _ & ->). rewrite push_short in Hok by lia. by apply Forall_cons in Hok as [_ [_ Hok]%Forall_cons]. }
  destruct t; cbn [fst snd solution nth]; try done.
  - apply anchor_inv in E as ->. done.
  - destruct E as (data & [Hv E]%p2pk_inv & ->). cbn [solution nth]. by rewrite Hv.
  - destruct E as (data & E & ->). by apply p2pkh_inv.
  - destruct E as [E ->]. by apply p2sh_inv.
  - destruct E as (prog & E & Hl & ->). cbn [solution nth GetScriptForDestination]. rewrite (Hid 32%nat _ _ E Hl).
    by apply witness_inv in E as (_ & _ & op & [= <-] & ->).
  - destruct E as (prog & E & Hl & ->). cbn [solution nth GetScriptForDestination]. rewrite (Hid 20%nat _ _ E Hl).
    by apply witness_inv in E as (_ & _ & op & [= <-] & ->).
  - destruct E as (prog & E & Hl & ->). cbn [solution nth GetScriptForDestination]. rewrite (Hid 32%nat _ _ E Hl).
    by apply witness_inv in E as (_ & _ & op & [= <-] & ->).
  - destruct E as (v & prog & E & ->). cbn [solution nth GetScriptForDestination at_].
    apply witness_inv in E as (_ & _ & op & E & ->). unfold at_. cbn [nth]. by rewrite E.
Qed.
(** ** Every destination is extracted from its script *)

(** Destinations as the program builds them: hashes of their width, keys of a valid length,
    witness programs that are not one of the known kinds. *)
Definition dest_ok (d : CTxDestination) : Prop :=
  match d with
  | CNoDestination s => no_destination (Solver false false s).1
  | PubKeyDestination k => ValidSize k = true
  | PKHash h | ScriptHash h | WitnessV0KeyHash h => (h < 2 ^ 160)%N
  | WitnessV0ScriptHash h | WitnessV1Taproot h => (h < 2 ^ 256)%N
  | PayToAnchor => True
  | WitnessUnknown v prog => 1 <= v <= 16 /\ 2 <= size prog <= 40 /\ ~ (v = 1 /\ size prog = 32) /\ ~ (v = 1 /\ prog = [0x4e; 0x73])
  end.

Lemma id20 h : (h < 2 ^ 160)%N -> id_of (id_bytes 20 h) = h.
Proof. intros H. apply id_of_bytes. change (256 ^ Z.of_nat 20) with (Z.of_N (2 ^ 160)). lia. Qed.

Lemma id32 h : (h < 2 ^ 256)%N -> id_of (id_bytes 32 h) = h.
Proof. intros H. apply id_of_bytes. change (256 ^ Z.of_nat 32) with (Z.of_N (2 ^ 256)). lia. Qed.

Lemma witness_program_push v op prog : EncodeOP_N v = Some op -> 2 <= size prog <= 40 ->
  IsPayToScriptHash (op :: push prog) = false /\ IsWitnessProgram (op :: push prog) = Some (v, prog).
Proof.
  unfold EncodeOP_N. destruct (negb _) eqn:Hv; [done|]. apply negb_false_iff, andb_true_iff in Hv as [H0%Z.leb_le H1%Z.leb_le].
  intros [= Hop] Hs. change OP_0 with 0 in Hop. change OP_1 with 81 in Hop.
  assert (op = 0 /\ v = 0 \/ 81 <= op <= 96 /\ v = op - 80) as Hc by (destruct (Z.eqb_spec v 0); lia). clear Hop.
  rewrite push_short by lia. unfold IsPayToScriptHash, IsWitnessProgram, at_. cbn [nth]. split.
  - change OP_HASH160 with 169. rewrite (proj2 (Z.eqb_neq op 169)) by lia. by rewrite andb_false_r.
  - rewrite !size_cons. rewrite (proj2 (Z.ltb_ge _ _)), (proj2 (Z.ltb_ge _ _)) by lia. cbn [orb].
    change OP_0 with 0. change OP_1 with 81. change OP_16 with 96.
    assert (negb (op =? 0) && ((op <? 81) || (96 <? op)) = false) as ->.
    { destruct (Z.eqb_spec op 0); [done|]. cbn [negb andb]. rewrite !(proj2 (Z.ltb_ge _ _)) by lia. done. }
    rewrite (proj2 (Z.eqb_eq _ _)) by lia. cbn [drop]. rewrite ?drop_0. unfold DecodeOP_N. change OP_0 with 0. change OP_1 with 81.
    do 2 f_equal. destruct (Z.eqb_spec op 0); lia.
Qed.

Lemma Solver_witness v op prog : EncodeOP_N v = Some op -> 2 <= size prog <= 40 -> Solver false false (op :: push prog) =
  if (v =? 0) && (size prog =? 20) then (WITNESS_V0_KEYHASH, [prog])
  else if (v =? 0) && (size prog =? 32) then (WITNESS_V0_SCRIPTHASH, [prog])
  else if (v =? 1) && (size prog =? 32) then (WITNESS_V1_TAPROOT, [prog])
  else if IsPayToAnchor (op :: push prog) then (ANCHOR, [])
  else if negb (v =? 0) then (WITNESS_UNKNOWN, [[v]; prog]) else (NONSTANDARD, []).
Proof. intros Hv Hs. destruct (witness_program_push v op prog Hv Hs) as [H1 H2]. unfold Solver. by rewrite H1, H2. Qed.

Lemma ValidSize_length k : ValidSize k = true -> (length k = 33 \/ length k = 65)%nat.
Proof.
  unfold ValidSize, size. intros H. apply andb_true_iff in H as [H0%Z.ltb_lt H1%Z.eqb_eq].
  unfold GetLen in H1. destruct (_ || _) in H1; [lia|]. destruct (_ || _) in H1; lia.
Qed.

Lemma Solver_pubkey k : ValidSize k = true -> Solver false false (push k ++ [OP_CHECKSIG]) = (PUBKEY, [k]).
Proof.
  intros Hv. pose proof (ValidSize_length k Hv) as Hl. rewrite push_short by (unfold size; lia). cbn [app].
  assert (forall n, length k = n -> (n = 33 \/ n = 65)%nat -> Solver false false (Z.of_nat n :: k ++ [OP_CHECKSIG]) = (PUBKEY, [k])) as Hgen.
  2: { unfold size. by apply Hgen. }
  intros n Hk Hn. unfold Solver.
  assert (size (Z.of_nat n :: k ++ [OP_CHECKSIG]) = Z.of_nat n + 2) as Hs by (rewrite size_cons, size_app; unfold size; cbn [length]; lia).
  assert (back (Z.of_nat n :: k ++ [OP_CHECKSIG]) = OP_CHECKSIG) as Hb by (change (Z.of_nat n :: k ++ [OP_CHECKSIG]) with ((Z.of_nat n :: k) ++ [OP_CHECKSIG]); apply back_app).
  assert (take n (drop 1 (Z.of_nat n :: k ++ [OP_CHECKSIG])) = k) as Ht by (cbn [drop]; rewrite ?drop_0; by apply take_app_length').
  unfold IsPayToScriptHash, IsWitnessProgram, MatchPayToPubkey. rewrite Hs, Hb. unfold at_. cbn [nth].
  destruct Hn as [-> | ->]; cbn -[take drop ValidSize]; by rewrite Ht, Hv.
Qed.
Lemma explicit_20 (P : list Z -> Prop) :
  (forall a b c d e f g h i j k l m n o p q r s t, P [a; b; c; d; e; f; g; h; i; j; k; l; m; n; o; p; q; r; s; t]) ->
  forall x, length x = 20%nat -> P x.
Proof. intros H x Hx. do 20 (destruct x as [|? x]; [done|]). destruct x; [apply H|done]. Qed.

Lemma Solver_pubkeyhash x : length x = 20%nat -> Solver false false (pay_to_pubkey_hash x) = (PUBKEYHASH, [x]).
Proof. revert x. apply explicit_20. reflexivity. Qed.

Lemma Solver_scripthash x : length x = 20%nat -> Solver false false ([OP_HASH160] ++ push x ++ [OP_EQUAL]) = (SCRIPTHASH, [x]).
Proof. revert x. apply explicit_20. reflexivity. Qed.

Lemma anchor_exact v prog op : EncodeOP_N v = Some op -> 2 <= size prog <= 40 -> IsPayToAnchor (op :: push prog) = true -> v = 1 /\ prog = [0x4e; 0x73].
Proof.
  intros Hv Hs Ha%anchor_inv. rewrite push_short in Ha by lia. injection Ha as -> _ ->. split; [|done].
  unfold EncodeOP_N in Hv. destruct (negb _) in Hv; [done|]. injection Hv as Hv. change OP_0 with 0 in Hv. change OP_1 with 81 in Hv.
  destruct (Z.eqb_spec v 0); lia.
Qed.

Lemma extract_back `{Crypto} d convert : dest_ok d -> exists s t, GetScriptForDestination d = Some s /\
  ExtractDestination s convert =
    match d with
    | PubKeyDestination k => if convert then (t, PKHash (GetID k), true) else (t, d, false)
    | _ => (t, d, IsValidDestination d)
    end.
Proof.
  intros Hd. unfold ExtractDestination. destruct d as [s|k|h|h|h|h|h| |v prog]; cbn [dest_ok GetScriptForDestination IsValidDestination] in *.
  - exists s. destruct (Solver false false s) as [t sols]. exists t. split; [done|]. cbn [fst] in Hd. unfold no_destination in Hd.
    repeat (apply elem_of_cons in Hd as [->|Hd]; [done|]). by apply not_elem_of_nil in Hd.
  - eexists _, PUBKEY. split; [done|]. rewrite Solver_pubkey by done. cbn [solution nth]. rewrite Hd. by destruct convert.
  - eexists _, PUBKEYHASH. split; [done|]. rewrite Solver_pubkeyhash by apply id_bytes_length. cbn [solution nth]. by rewrite id20.
  - eexists _, SCRIPTHASH. split; [done|]. rewrite Solver_scripthash by apply id_bytes_length. cbn [solution nth]. by rewrite id20.
  - eexists _, WITNESS_V0_SCRIPTHASH. split; [done|]. rewrite (Solver_witness 0) by (done || (unfold size; rewrite id_bytes_length; lia)).
    unfold size. rewrite id_bytes_length. change (Z.of_nat 32) with 32 || change (Z.of_nat 20) with 20. cbn [Z.eqb Pos.eqb andb solution nth]. by rewrite id32.
  - eexists _, WITNESS_V0_KEYHASH. split; [done|]. rewrite (Solver_witness 0) by (done || (unfold size; rewrite id_bytes_length; lia)).
    unfold size. rewrite id_bytes_length. change (Z.of_nat 32) with 32 || change (Z.of_nat 20) with 20. cbn [Z.eqb Pos.eqb andb solution nth]. by rewrite id20.
  - eexists _, WITNESS_V1_TAPROOT. split; [done|]. rewrite (Solver_witness 1) by (done || (unfold size; rewrite id_bytes_length; lia)).
    unfold size. rewrite id_bytes_length. change (Z.of_nat 32) with 32 || change (Z.of_nat 20) with 20. cbn [Z.eqb Pos.eqb andb solution nth]. by rewrite id32.
  - eexists _, ANCHOR. split; [done|]. done.
  - destruct Hd as (Hv & Hs & Hn & Ha). assert (exists op, EncodeOP_N v = Some op) as [op Hop].
    { unfold EncodeOP_N. rewrite (proj2 (Z.leb_le 0 v)), (proj2 (Z.leb_le v 16)) by lia. cbn. eauto. }
    rewrite Hop. eexists _, WITNESS_UNKNOWN. split; [done|]. rewrite (Solver_witness v) by done.
    rewrite (proj2 (Z.eqb_neq v 0)) by lia. cbn [andb negb].
    destruct ((v =? 1) && (size prog =? 32)) eqn:E1; [split_tests; tauto|].
    destruct (IsPayToAnchor _) eqn:E2; [apply (anchor_exact v) in E2; tauto|]. done.
Qed.

(** ** Properties *)

(** C29: scripts and destinations determine each other.  Whatever bytes an output script has,
    the destination [ExtractDestination] takes from it (with keys left as keys) gives the
    same script back, so two outputs with one destination have one script: for a script without
    an address too, whose [CNoDestination] carries the script.  And every
    destination of the proper widths is what is extracted from its own script, with
    [IsValidDestination] as the result; with conversion, a bare public key is extracted as
    the hash of the key and nothing else changes. *)
Theorem destinations_determine_scripts `{Crypto} (s : list Z) (d : CTxDestination) (convert : bool) :
  Forall byte_ok s -> dest_ok d ->
  GetScriptForDestination (ExtractDestination s false).1.2 = Some s /\
  exists s' t, GetScriptForDestination d = Some s' /\
    ExtractDestination s' convert =
      match d with
      | PubKeyDestination k => if convert then (t, PKHash (GetID k), true) else (t, d, false)
      | _ => (t, d, IsValidDestination d)
      end.
Proof. intros Hs Hd. split; [by apply extract_lossless|by apply extract_back]. Qed.

Lemma destinations_determine_scripts_witness :
  GetScriptForDestination (@ExtractDestination toy_crypto (pay_to_pubkey_hash (id_bytes 20 77)) false).1.2 = Some (pay_to_pubkey_hash (id_bytes 20 77)) /\
  exists s' t, GetScriptForDestination (PubKeyDestination (2 :: repeat 9 32)) = Some s' /\
    @ExtractDestination toy_crypto s' true = (t, PKHash (@GetID toy_crypto (2 :: repeat 9 32)), true).
Proof.
  apply (@destinations_determine_scripts toy_crypto (pay_to_pubkey_hash (id_bytes 20 77)) (PubKeyDestination (2 :: repeat 9 32)) true).
  - apply (bool_decide_unpack (Forall (fun b => 0 <= b < 256) _)). vm_compute. exact I.
  - reflexivity.
Defined.

(** An output that pays to a key and one that pays to the hash of the key have one key hash,
    the address delegations and rewards are kept under; other outputs have none. *)
Lemma key_hash_of_outputs `{Crypto} k h : ValidSize k = true -> (h < 2 ^ 160)%N ->
  ExtractPublicKeyHash (push k ++ [OP_CHECKSIG]) = (GetID k, true) /\
  ExtractPublicKeyHash (pay_to_pubkey_hash (id_bytes 20 h)) = (h, true).
Proof.
  intros Hk Hh. unfold ExtractPublicKeyHash, ExtractDestination. rewrite Solver_pubkey by done. rewrite Solver_pubkeyhash by apply id_bytes_length.
  cbn [solution nth]. rewrite Hk, id20 by done. done.
Qed.

(** The two overloads agree where both find a destination with an address; the one with the
    outpoint also finds contracts, but not those with a sender. *)
Lemma overloads_agree `{Crypto} o s d t : ExtractDestination s true = (t, d, true) -> ExtractDestination_of o s = (t, Some d).
Proof.
  unfold ExtractDestination, ExtractDestination_of. destruct (Solver false false s) as [t' sols].
  destruct t'; try (by intros [= <- <-]). destruct (ValidSize _); cbn [negb]; [|done]. by intros [= <- <-].
Qed.
End Address.
