(* ===== verification/Transaction.v ===== *)
(** * Transactions (primitives/transaction.h, consensus/tx_check.cpp, consensus/tx_verify.cpp)

    Inputs, outputs and transactions with the two serialization formats (with and without
    witnesses), their identifiers, and the checks that need no context.  The members a
    [CTransaction] caches ([hash], [m_witness_hash], [m_has_witness]) are functions of the
    others and are computed where they are used.  The theorems: a transaction survives both
    formats and every accepted encoding is the canonical one, the identifiers commit to the
    contents, [CheckTransaction] accepts exactly the transactions described, and after it
    the output total is defined. *)

From stdpp Require Import gmap list strings.
From Stdlib Require Import ZArith Lia.
From S2P Require Import Prelude Params Serialize Crypto Merkle Script OutPoint.

Open Scope Z_scope.

Module Transaction.

(** ** Data *)

Record CTxIn := mkTxIn { prevout : COutPoint; scriptSig : list Z; nSequence : Z; scriptWitness : list (list Z) }.

Definition SEQUENCE_FINAL : Z := 0xffffffff.
Definition SEQUENCE_LOCKTIME_DISABLE_FLAG : Z := Z.shiftl 1 31.
Definition SEQUENCE_LOCKTIME_TYPE_FLAG : Z := Z.shiftl 1 22.
Definition SEQUENCE_LOCKTIME_MASK : Z := 0xffff.
Definition SEQUENCE_LOCKTIME_GRANULARITY : Z := 9.

Record CTxOut := mkTxOut { nValue : Z; scriptPubKey : list Z }.

Definition CTxOut_null : CTxOut := mkTxOut (-1) [].
Definition CTxOut_IsNull (o : CTxOut) : bool := nValue o =? -1.
Definition IsEmpty (o : CTxOut) : bool := (nValue o =? 0) && (length (scriptPubKey o) =? 0)%nat.

Record CTransaction := mkTransaction { vin : list CTxIn; vout : list CTxOut; version : Z; nLockTime : Z }.

#[export] Instance CTxIn_eq : EqDecision CTxIn.
Proof. solve_decision. Defined.
#[export] Instance CTxOut_eq : EqDecision CTxOut.
Proof. solve_decision. Defined.
#[export] Instance CTransaction_eq : EqDecision CTransaction.
Proof. solve_decision. Defined.

Definition CURRENT_VERSION : Z := 2.

Definition IsCoinBase (tx : CTransaction) : bool :=
  match vin tx with [i] => IsNull (prevout i) && (1 <=? length (vout tx))%nat | _ => false end.

Definition IsCoinStake (tx : CTransaction) : bool :=
  match vin tx, vout tx with
  | i :: _, o :: _ :: _ => negb (IsNull (prevout i)) && IsEmpty o
  | _, _ => false
  end.

Definition IsNormalTx (tx : CTransaction) : bool := negb (IsCoinBase tx) && negb (IsCoinStake tx).

Definition HasWitness (tx : CTransaction) : bool := existsb (fun i => negb (length (scriptWitness i) =? 0)%nat) (vin tx).

Definition HasCreateOrCall (tx : CTransaction) : bool :=
  existsb (fun v => Script.HasOpCreate (scriptPubKey v) || Script.HasOpCall (scriptPubKey v)) (vout tx).
Definition HasOpSpend (tx : CTransaction) : bool := existsb (fun i => Script.HasOpSpend (scriptSig i)) (vin tx).
Definition HasOpCreate (tx : CTransaction) : bool := existsb (fun v => Script.HasOpCreate (scriptPubKey v)) (vout tx).
Definition HasOpCall (tx : CTransaction) : bool := existsb (fun v => Script.HasOpCall (scriptPubKey v)) (vout tx).
Definition HasOpSender (tx : CTransaction) : bool := existsb (fun v => Script.HasOpSender (scriptPubKey v)) (vout tx).
Definition GetCreateOrCall (tx : CTransaction) : Z := (if HasOpCall tx then 1 else 0) + (if HasOpCreate tx then 2 else 0).

(** ** Serialization *)

(** An input is read without witness: [scriptWitness] is only serialized through the
    transaction. *)
Definition txin_codec : codec CTxIn :=
  class_codec (fun i => (prevout i, (scriptSig i, nSequence i))) (fun x => mkTxIn x.1 x.2.1 x.2.2 [])
              (pair_codec outpoint_codec (pair_codec bytes_codec u32_codec)).
Definition txout_codec : codec CTxOut :=
  class_codec (fun o => (nValue o, scriptPubKey o)) (fun x => mkTxOut x.1 x.2) (pair_codec i64_codec bytes_codec).
Definition witness_codec : codec (list (list Z)) := vector_codec bytes_codec.

Definition SerializeTransaction (fAllowWitness : bool) (tx : CTransaction) : list Z :=
  let flags := if fAllowWitness && HasWitness tx then 1 else 0 in
  enc u32_codec (version tx) ++
  (if flags =? 0 then [] else enc (vector_codec txin_codec) [] ++ enc u8_codec flags) ++
  enc (vector_codec txin_codec) (vin tx) ++
  enc (vector_codec txout_codec) (vout tx) ++
  (if flags =? 0 then [] else flat_map (fun i => enc witness_codec (scriptWitness i)) (vin tx)) ++
  enc u32_codec (nLockTime tx).

(** [for (i < vin.size()) s >> tx.vin[i].scriptWitness.stack] *)
Fixpoint read_witnesses (vin : list CTxIn) (s : stream) : option (list CTxIn * stream) :=
  match vin with
  | [] => Some ([], s)
  | i :: vin =>
      '(stack, s) ← dec witness_codec s;
      '(vin, s) ← read_witnesses vin s;
      Some (mkTxIn (prevout i) (scriptSig i) (nSequence i) stack :: vin, s)
  end.

(** [vin], [vout] and [flags] *)
Definition read_body (fAllowWitness : bool) (s : stream) : option (list CTxIn * list CTxOut * Z * stream) :=
  '(vin, s) ← dec (vector_codec txin_codec) s;
  if (length vin =? 0)%nat && fAllowWitness then
    '(flags, s) ← dec u8_codec s;
    if negb (flags =? 0) then
      '(vin, s) ← dec (vector_codec txin_codec) s;
      '(vout, s) ← dec (vector_codec txout_codec) s;
      Some (vin, vout, flags, s)
    else Some ([], [], flags, s)
  else
    '(vout, s) ← dec (vector_codec txout_codec) s;
    Some (vin, vout, 0, s).

(** The witnesses, when the flag says there are any; the flag is cleared. *)
Definition read_optional (fAllowWitness : bool) (vin : list CTxIn) (flags : Z) (s : stream) : option (list CTxIn * Z * stream) :=
  if negb (Z.land flags 1 =? 0) && fAllowWitness then
    '(vin, s) ← read_witnesses vin s;
    if HasWitness (mkTransaction vin [] 0 0) then Some (vin, Z.lxor flags 1, s) else None
  else Some (vin, flags, s).

Definition UnserializeTransaction (fAllowWitness : bool) (s : stream) : option (CTransaction * stream) :=
  '(version, s) ← dec u32_codec s;
  '(vin, vout, flags, s) ← read_body fAllowWitness s;
  '(vin, flags, s) ← read_optional fAllowWitness vin flags s;
  if negb (flags =? 0) then None
  else '(nLockTime, s) ← dec u32_codec s; Some (mkTransaction vin vout version nLockTime, s).

Definition GetTotalSize (tx : CTransaction) : Z := u32 (Z.of_nat (length (SerializeTransaction true tx))).

(** ** Identifiers *)

Section Hashes.
Context `{Crypto}.

Definition GetHash (tx : CTransaction) : N := Hash256 (SerializeTransaction false tx).
Definition GetWitnessHash (tx : CTransaction) : N :=
  if HasWitness tx then Hash256 (SerializeTransaction true tx) else GetHash tx.
End Hashes.

(** ** Amounts *)

(** [CalculateOutputValue] *)
Definition CalculateOutputValue (tx : CTransaction) : Z := fold_left (fun sum o => i64 (sum + nValue o)) (vout tx) 0.

(** [GetValueOut]: [None] is the exception.  The final [assert] only sees totals the loop
    has let through. *)
Fixpoint value_loop (vout : list CTxOut) (nValueOut : Z) : option Z :=
  match vout with
  | [] => Some nValueOut
  | o :: vout =>
      if negb (MoneyRange (nValue o)) || negb (MoneyRange (i64 (nValueOut + nValue o))) then None
      else value_loop vout (i64 (nValueOut + nValue o))
  end.
Definition GetValueOut (tx : CTransaction) : option Z := value_loop (vout tx) 0.

(** ** Checks that need no context (CheckTransaction)

    [None] is success, [Some reason] the rejection. *)

Definition MAX_TRANSACTION_BASE_SIZE : Z := 1000000.
Definition WITNESS_SCALE_FACTOR : Z := 4.

Definition is_contract (scriptPubKey : list Z) : bool :=
  Script.HasOpCall scriptPubKey || Script.HasOpCreate scriptPubKey || Script.HasOpSender scriptPubKey.
Definition is_nonstandard (scriptPubKey : list Z) : bool :=
  match (Script.Solver true false scriptPubKey).1 with Script.NONSTANDARD => true | _ => false end.

(** The loop over the outputs; [special] says that the transaction is a coinbase or a
    coinstake. *)
Fixpoint check_outputs (special : bool) (vout : list CTxOut) (nValueOut : Z) : option string :=
  match vout with
  | [] => None
  | txout :: vout =>
      if IsEmpty txout && negb special then Some "bad-txns-vout-empty"%string
      else if nValue txout <? 0 then Some "bad-txns-vout-negative"%string
      else if MAX_MONEY <? nValue txout then Some "bad-txns-vout-toolarge"%string
      else
        let nValueOut := i64 (nValueOut + nValue txout) in
        if negb (MoneyRange nValueOut) then Some "bad-txns-txouttotal-toolarge"%string
        else if is_contract (scriptPubKey txout) && is_nonstandard (scriptPubKey txout)
        then Some "bad-txns-contract-nonstandard"%string
        else check_outputs special vout nValueOut
  end.

(** [if (!vInOutPoints.insert(txin.prevout).second)] for every input *)
Fixpoint has_duplicate (vInOutPoints : gset COutPoint) (vin : list CTxIn) : bool :=
  match vin with
  | [] => false
  | txin :: vin =>
      if bool_decide (prevout txin ∈ vInOutPoints) then true
      else has_duplicate ({[prevout txin]} ∪ vInOutPoints) vin
  end.

Definition check_prevouts (tx : CTransaction) : option string :=
  if IsCoinBase tx then
    match vin tx with
    | txin :: _ =>
        if (Z.of_nat (length (scriptSig txin)) <? 2) || (100 <? Z.of_nat (length (scriptSig txin)))
        then Some "bad-cb-length"%string else None
    | [] => None
    end
  else if existsb (fun txin => IsNull (prevout txin)) (vin tx) then Some "bad-txns-prevout-null"%string
  else None.

Definition CheckTransaction (dgpMaxBlockWeight : Z) (tx : CTransaction) : option string :=
  if (length (vin tx) =? 0)%nat then Some "bad-txns-vin-empty"%string
  else if (length (vout tx) =? 0)%nat then Some "bad-txns-vout-empty"%string
  else
    let size := Z.of_nat (length (SerializeTransaction false tx)) in
    if (MAX_TRANSACTION_BASE_SIZE <? size) || (dgpMaxBlockWeight <? u64 (size * WITNESS_SCALE_FACTOR))
    then Some "bad-txns-oversize"%string
    else match check_outputs (IsCoinBase tx || IsCoinStake tx) (vout tx) 0 with
    | Some reason => Some reason
    | None =>
        if has_duplicate ∅ (vin tx) then Some "bad-txns-inputs-duplicate"%string
        else check_prevouts tx
    end.

(** ** Lock time and signature operations *)

Definition LOCKTIME_THRESHOLD : Z := 500000000.

Definition IsFinalTx (tx : CTransaction) (nBlockHeight nBlockTime : Z) : bool :=
  if nLockTime tx =? 0 then true
  else if nLockTime tx <? (if nLockTime tx <? LOCKTIME_THRESHOLD then nBlockHeight else nBlockTime) then true
  else forallb (fun txin => nSequence txin =? SEQUENCE_FINAL) (vin tx).

Definition GetLegacySigOpCount (tx : CTransaction) : Z :=
  let nSigOps := fold_left (fun n txin => u32 (n + Script.GetSigOpCount false (scriptSig txin))) (vin tx) 0 in
  fold_left (fun n txout => u32 (n + Script.GetSigOpCount false (scriptPubKey txout))) (vout tx) nSigOps.

(** ** The Merkle roots of a block's transactions *)

Section Roots.
Context `{Crypto}.

Definition BlockMerkleRoot (vtx : list CTransaction) : N * bool := Merkle.ComputeMerkleRoot (map GetHash vtx).

(** The leaves that are null: that of the coinbase, and that of the coinstake of a
    proof-of-stake block; a block that has not as many transactions writes past the end of
    [leaves], [None]. *)
Definition BlockWitnessMerkleRoot (vtx : list CTransaction) (fProofOfStake : bool) : option (N * bool) :=
  let nulls := if fProofOfStake then 2%nat else 1%nat in
  if (length vtx <? nulls)%nat then None
  else Some (Merkle.ComputeMerkleRoot (replicate nulls 0%N ++ map GetWitnessHash (drop nulls vtx))).
End Roots.

(** ** Serialization: lemmas *)

#[export] Instance outpoint_canonical : Canonical outpoint_codec.
Proof. apply class_canonical; [by intros []|apply _]. Qed.
#[export] Instance txin_canonical : Canonical txin_codec.
Proof. apply class_canonical; [by intros [? []]|apply _]. Qed.
#[export] Instance txout_canonical : Canonical txout_codec.
Proof. apply class_canonical; [by intros []|apply _]. Qed.
#[export] Instance witness_canonical : Canonical witness_codec.
Proof. apply _. Qed.
#[export] Instance outpoint_roundtrip : RoundTrip outpoint_codec.
Proof. apply _. Qed.
#[export] Instance txin_roundtrip : RoundTrip txin_codec.
Proof. apply _. Qed.
#[export] Instance txout_roundtrip : RoundTrip txout_codec.
Proof. apply _. Qed.
#[export] Instance witness_roundtrip : RoundTrip witness_codec.
Proof. apply _. Qed.

(** Without the witnesses. *)
Definition strip_input (i : CTxIn) : CTxIn := mkTxIn (prevout i) (scriptSig i) (nSequence i) [].
Definition strip (tx : CTransaction) : CTransaction :=
  mkTransaction (map strip_input (vin tx)) (vout tx) (version tx) (nLockTime tx).

(** The members are in the range of their types, and no vector is longer than streams
    accept. *)
Record tx_ok (tx : CTransaction) : Prop := {
  ok_vin : valid (vector_codec txin_codec) (map strip_input (vin tx));
  ok_vout : valid (vector_codec txout_codec) (vout tx);
  ok_witness : Forall (fun i => valid witness_codec (scriptWitness i)) (vin tx);
  ok_version : in_u32 (version tx);
  ok_lock : in_u32 (nLockTime tx)
}.

Lemma enc_strip l : enc (vector_codec txin_codec) (map strip_input l) = enc (vector_codec txin_codec) l.
Proof.
  cbn [enc vector_codec]. rewrite length_map. f_equal. induction l as [|i l IH]; [done|]. cbn [map flat_map]. by rewrite IH.
Qed.

Lemma read_witnesses_app l rest : Forall (fun i => valid witness_codec (scriptWitness i)) l ->
  read_witnesses (map strip_input l) (flat_map (fun i => enc witness_codec (scriptWitness i)) l ++ rest) = Some (l, rest).
Proof.
  induction 1 as [|i l Hi Hl IH]; [done|]. cbn [map read_witnesses flat_map]. rewrite <- app_assoc.
  rewrite (roundtrip _ _ Hi). cbn [mbind option_bind]. rewrite IH. cbn [mbind option_bind]. by destruct i.
Qed.

Lemma read_witnesses_inv l : forall s l' rest, Forall byte_ok s -> map strip_input l = l -> read_witnesses l s = Some (l', rest) ->
  s = flat_map (fun i => enc witness_codec (scriptWitness i)) l' ++ rest /\ map strip_input l' = l /\
  Forall (fun i => valid witness_codec (scriptWitness i)) l' /\ Forall byte_ok rest.
Proof.
  induction l as [|i l IH]; intros s l' rest Hs Hl; cbn [read_witnesses]; [intros [= <- <-]; split_and!; try done; by constructor|].
  destruct (dec witness_codec s) as [[w s1]|] eqn:E; [|done]. cbn [mbind option_bind].
  destruct (read_witnesses l s1) as [[l1 s2]|] eqn:E'; [|done]. cbn [mbind option_bind]. intros [= <- <-].
  apply (canonical_rest witness_codec) in E as (-> & Hw & Hs1); [|done]. cbn [map] in Hl. injection Hl as Hi Hl.
  apply IH in E' as (-> & El & Hv & Hr); [|done..]. cbn [flat_map map scriptWitness]. rewrite app_assoc.
  split; [done|]. split; [by rewrite <- Hi, El|]. split; [by constructor|done].
Qed.

Lemma no_witness l : map strip_input l = l -> existsb (fun i => negb (length (scriptWitness i) =? 0)%nat) l = false.
Proof. induction l as [|i l IH]; [done|]. cbn [map existsb]. intros [= <- Hl]. by rewrite IH. Qed.

Lemma no_witness_strip l : existsb (fun i => negb (length (scriptWitness i) =? 0)%nat) l = false -> map strip_input l = l.
Proof.
  induction l as [|i l IH]; [done|]. cbn [map existsb]. intros [Hi Hl]%orb_false_iff. rewrite IH by done. f_equal.
  destruct i as [a b c [|]]; done.
Qed.

Lemma vin_stripped l : valid (vector_codec txin_codec) l -> map strip_input l = l.
Proof. intros [H _]. induction H as [|i l [_ Hi] Hl IH]; [done|]. cbn [map]. by rewrite IH, <- Hi. Qed.

Lemma dec_u32 z rest : in_u32 z -> dec u32_codec (enc u32_codec z ++ rest) = Some (z, rest).
Proof. intros H. exact (roundtrip (c := u32_codec) z rest H). Qed.
Lemma dec_vin l rest : valid (vector_codec txin_codec) l -> dec (vector_codec txin_codec) (enc (vector_codec txin_codec) l ++ rest) = Some (l, rest).
Proof. apply roundtrip. Qed.
Lemma dec_vout l rest : valid (vector_codec txout_codec) l -> dec (vector_codec txout_codec) (enc (vector_codec txout_codec) l ++ rest) = Some (l, rest).
Proof. apply roundtrip. Qed.

#[local] Opaque vector_codec u32_codec u8_codec witness_codec.

Lemma empty_vector {A} (c : codec A) : enc (vector_codec c) [] = [0] /\ valid (vector_codec c) [].
Proof. split; [done|]. split; [done|]. unfold MAX_SIZE. cbn. lia. Qed.
Lemma flag_byte : enc u8_codec 1 = [1].
Proof. done. Qed.
Lemma dec_flags0 rest : dec u8_codec (0 :: rest) = Some (0, rest).
Proof. done. Qed.
Lemma dec_flags1 rest : dec u8_codec (1 :: rest) = Some (1, rest).
Proof. done. Qed.

(** The transaction without witnesses, read in either mode. *)
Lemma read_plain w tx rest : tx_ok tx -> (w = true -> vin tx <> [] \/ vout tx = []) ->
  UnserializeTransaction w (SerializeTransaction false tx ++ rest) = Some (strip tx, rest).
Proof.
  intros [V1 V2 _ V4 V5] Hw. unfold SerializeTransaction, UnserializeTransaction. cbn [andb]. rewrite Z.eqb_refl. cbn [app].
  rewrite <- !app_assoc, dec_u32 by done. cbn [mbind option_bind]. unfold read_body. rewrite <- enc_strip, dec_vin by done.
  cbn [mbind option_bind]. rewrite length_map. destruct ((length (vin tx) =? 0)%nat && w) eqn:E.
  - apply andb_true_iff in E as [E ->]. apply Nat.eqb_eq, length_zero_iff_nil in E. destruct Hw as [|Hw]; [done|done|]. rewrite Hw.
    rewrite (proj1 (empty_vector txout_codec)). cbn [app]. rewrite dec_flags0. cbn [mbind option_bind Z.eqb negb].
    unfold read_optional. change (Z.land 0 1) with 0. cbn [Z.eqb negb andb mbind option_bind]. rewrite dec_u32 by done. cbn [mbind option_bind].
    unfold strip. by rewrite E, Hw.
  - rewrite dec_vout by done. cbn [mbind option_bind]. unfold read_optional. change (Z.land 0 1) with 0. cbn [Z.eqb negb andb mbind option_bind].
    rewrite dec_u32 by done. done.
Qed.

Lemma read_full tx rest : tx_ok tx -> vin tx <> [] \/ vout tx = [] ->
  UnserializeTransaction true (SerializeTransaction true tx ++ rest) = Some (tx, rest).
Proof.
  intros Hok Hne. destruct (HasWitness tx) eqn:HW.
  - destruct Hok as [V1 V2 V3 V4 V5]. unfold SerializeTransaction, UnserializeTransaction. rewrite HW. cbn [andb].
    change (1 =? 0) with false. cbn match. rewrite <- !app_assoc, dec_u32 by done. cbn [mbind option_bind]. unfold read_body.
    rewrite dec_vin by apply empty_vector. cbn [mbind option_bind length Nat.eqb andb]. rewrite flag_byte. cbn [app]. rewrite dec_flags1.
    cbn [mbind option_bind Z.eqb negb]. rewrite <- enc_strip, dec_vin by done. cbn [mbind option_bind].
    rewrite dec_vout by done. cbn [mbind option_bind]. unfold read_optional. change (Z.land 1 1) with 1. cbn [Z.eqb negb andb].
    rewrite read_witnesses_app by done. cbn [mbind option_bind]. unfold HasWitness in *. cbn [vin]. rewrite HW.
    change (Z.lxor 1 1) with 0. cbn [mbind option_bind Z.eqb negb]. rewrite dec_u32 by done. cbn [mbind option_bind]. by destruct tx.
  - replace (SerializeTransaction true tx) with (SerializeTransaction false tx) by (unfold SerializeTransaction; by rewrite HW).
    rewrite (read_plain true tx rest Hok) by done. unfold strip. apply no_witness_strip in HW. rewrite HW. by destruct tx.
Qed.

(** What [read_body] accepts. *)
Lemma read_body_inv w s l o flags rest : Forall byte_ok s -> read_body w s = Some (l, o, flags, rest) ->
  valid (vector_codec txin_codec) l /\ valid (vector_codec txout_codec) o /\ Forall byte_ok rest /\
  ((flags = 0 /\ (w = true -> l <> [] \/ o = []) /\
    s = enc (vector_codec txin_codec) l ++ enc (vector_codec txout_codec) o ++ rest) \/
   (flags <> 0 /\ 0 <= flags < 256 /\ w = true /\
    s = enc (vector_codec txin_codec) [] ++ enc u8_codec flags ++ enc (vector_codec txin_codec) l ++ enc (vector_codec txout_codec) o ++ rest)).
Proof.
  intros Hs. unfold read_body. destruct (dec (vector_codec txin_codec) s) as [[l0 s1]|] eqn:E0; [|done]. cbn [mbind option_bind].
  apply (canonical_rest (vector_codec txin_codec)) in E0 as (-> & V0 & Hs1); [|done].
  destruct ((length l0 =? 0)%nat && w) eqn:Ew.
  - apply andb_true_iff in Ew as [El ->]. apply Nat.eqb_eq, length_zero_iff_nil in El as ->.
    destruct (dec u8_codec s1) as [[f s2]|] eqn:E1; [|done]. cbn [mbind option_bind].
    apply (canonical_rest u8_codec) in E1 as (-> & Vf & Hs2); [|done]. destruct (Z.eqb_spec f 0) as [->|Hf]; cbn [negb].
    + intros [= <- <- <- <-]. split_and!; try apply empty_vector; [done|]. left. split; [done|]. split; [by right|].
      by rewrite (proj1 (empty_vector txout_codec)).
    + destruct (dec (vector_codec txin_codec) s2) as [[l1 s3]|] eqn:E2; [|done]. cbn [mbind option_bind].
      apply (canonical_rest (vector_codec txin_codec)) in E2 as (-> & V1 & Hs3); [|done].
      destruct (dec (vector_codec txout_codec) s3) as [[o1 s4]|] eqn:E3; [|done]. cbn [mbind option_bind].
      apply (canonical_rest (vector_codec txout_codec)) in E3 as (-> & V2 & Hs4); [|done].
      intros [= <- <- <- <-]. split_and!; try done. by right.
  - destruct (dec (vector_codec txout_codec) s1) as [[o1 s2]|] eqn:E1; [|done]. cbn [mbind option_bind].
    apply (canonical_rest (vector_codec txout_codec)) in E1 as (-> & V1 & Hs2); [|done].
    intros [= <- <- <- <-]. split_and!; try done. left. split; [done|]. split; [|done]. intros ->. left. intros ->. done.
Qed.

Lemma read_canonical w s tx rest : Forall byte_ok s -> UnserializeTransaction w s = Some (tx, rest) ->
  s = SerializeTransaction w tx ++ rest /\ tx_ok tx /\ (if w then vin tx <> [] \/ vout tx = [] else strip tx = tx).
Proof.
  intros Hs. unfold UnserializeTransaction. destruct (dec u32_codec s) as [[ver s1]|] eqn:E0; [|done]. cbn [mbind option_bind].
  apply (canonical_rest u32_codec) in E0 as (-> & Vv & Hs1); [|done].
  destruct (read_body w s1) as [[[[l o] flags] s2]|] eqn:E1; [|done]. cbn [mbind option_bind].
  apply read_body_inv in E1 as (Vl & Vo & Hs2 & Eb); [|done]. pose proof (vin_stripped _ Vl) as Sl. unfold read_optional.
  destruct Eb as [(-> & Hw & ->)|(Hf & Hr & -> & ->)].
  - change (Z.land 0 1) with 0. cbn [Z.eqb negb andb mbind option_bind].
    destruct (dec u32_codec s2) as [[lock s3]|] eqn:E2; [|done]. cbn [mbind option_bind]. intros [= <- <-].
    apply (canonical_rest u32_codec) in E2 as (-> & Vk & Hs3); [|done]. split; [|split].
    + unfold SerializeTransaction, HasWitness. cbn [vin vout version nLockTime]. rewrite (no_witness l Sl), andb_false_r, Z.eqb_refl.
      cbn [app]. by rewrite <- !app_assoc.
    + split; cbn [vin vout version nLockTime]; try done; [by rewrite Sl|]. destruct Vl as [Fl _]. eapply Forall_impl; [exact Fl|].
      intros i [_ Hi]. rewrite <- Hi. apply empty_vector.
    + cbn [vin vout]. destruct w; [by apply Hw|]. unfold strip. cbn [vin]. by rewrite Sl.
  - destruct (negb (Z.land flags 1 =? 0)) eqn:E1; cbn [andb].
    + destruct (read_witnesses l s2) as [[l' s3]|] eqn:E2; [|done]. cbn [mbind option_bind].
      apply read_witnesses_inv in E2 as (-> & Sl' & Vw & Hs3); [|done..]. destruct (HasWitness _) eqn:HW; [|done].
      cbn [mbind option_bind]. destruct (Z.eqb_spec (Z.lxor flags 1) 0) as [E2|]; [|done]. cbn [negb]. apply Z.lxor_eq in E2 as ->.
      destruct (dec u32_codec s3) as [[lock s4]|] eqn:E3; [|done]. cbn [mbind option_bind]. intros [= <- <-].
      apply (canonical_rest u32_codec) in E3 as (-> & Vk & Hs4); [|done]. unfold HasWitness in HW. cbn [vin] in HW. split; [|split].
      * unfold SerializeTransaction, HasWitness. cbn [vin vout version nLockTime]. rewrite HW, <- Sl', enc_strip. cbn [andb].
        change (1 =? 0) with false. cbn match. by rewrite <- !app_assoc.
      * split; cbn [vin vout version nLockTime]; try done. by rewrite Sl'.
      * cbn [vin vout]. left. intros ->. done.
    + apply negb_false_iff in E1. cbn [mbind option_bind]. rewrite (proj2 (Z.eqb_neq flags 0)) by done. done.
Qed.

(** The plain format does not depend on the witnesses. *)
Lemma serialize_strip tx : SerializeTransaction false (strip tx) = SerializeTransaction false tx.
Proof. unfold SerializeTransaction, strip. cbn [andb vin vout version nLockTime]. by rewrite enc_strip. Qed.

Lemma plain_inj tx tx' : tx_ok tx -> tx_ok tx' -> SerializeTransaction false tx = SerializeTransaction false tx' -> strip tx = strip tx'.
Proof.
  intros H H' E. pose proof (read_plain false tx [] H ltac:(done)) as R. rewrite E, (read_plain false tx' [] H' ltac:(done)) in R.
  congruence.
Qed.
Lemma full_inj tx tx' : tx_ok tx -> tx_ok tx' -> vin tx <> [] \/ vout tx = [] -> vin tx' <> [] \/ vout tx' = [] ->
  SerializeTransaction true tx = SerializeTransaction true tx' -> tx = tx'.
Proof.
  intros H H' Hn Hn' E. pose proof (read_full tx [] H Hn) as R. rewrite E, (read_full tx' [] H' Hn') in R. congruence.
Qed.

(** ** Checks: lemmas *)

Definition total (l : list CTxOut) : Z := foldr (fun o sum => nValue o + sum) 0 l.

(** What an output must be; [special] says that the transaction is a coinbase or a
    coinstake. *)
Definition output_ok (special : bool) (o : CTxOut) : Prop :=
  (special = false -> IsEmpty o = false) /\ 0 <= nValue o <= MAX_MONEY /\
  (is_contract (scriptPubKey o) = true -> (Script.Solver true false (scriptPubKey o)).1 <> Script.NONSTANDARD).

Lemma total_nonneg l : Forall (fun o => 0 <= nValue o) l -> 0 <= total l.
Proof. unfold total. induction 1 as [|o l Ho Hl IH]; cbn [foldr]; lia. Qed.

Lemma MoneyRange_spec z : MoneyRange z = true <-> 0 <= z <= MAX_MONEY.
Proof. unfold MoneyRange. rewrite andb_true_iff, !Z.leb_le. done. Qed.

Lemma MAX_MONEY_i64 : 0 < MAX_MONEY /\ 2 * MAX_MONEY < 9223372036854775807.
Proof. done. Qed.

Lemma nonstandard_spec s : is_nonstandard s = false <-> (Script.Solver true false s).1 <> Script.NONSTANDARD.
Proof. unfold is_nonstandard. destruct (Script.Solver true false s).1; naive_solver. Qed.

Lemma check_outputs_spec special l : forall acc, 0 <= acc <= MAX_MONEY ->
  check_outputs special l acc = None <-> Forall (output_ok special) l /\ acc + total l <= MAX_MONEY.
Proof.
  pose proof MAX_MONEY_i64 as [HM HM']. induction l as [|o l IH]; intros acc Ha; cbn [check_outputs total foldr].
  { split; [intros _; split; [constructor|lia]|done]. }
  fold (total l). rewrite Forall_cons. unfold output_ok at 1.
  destruct (IsEmpty o && negb special) eqn:E1.
  { split; [done|]. intros [[[H _] _] _]. apply andb_true_iff in E1 as [E1 E2]. apply negb_true_iff in E2. by rewrite H in E1. }
  destruct (Z.ltb_spec (nValue o) 0); [split; [done|lia]|]. destruct (Z.ltb_spec MAX_MONEY (nValue o)); [split; [done|lia]|].
  rewrite i64_id by (unfold in_i64; lia). destruct (MoneyRange (acc + nValue o)) eqn:E2; cbn [negb].
  2:{ split; [done|]. intros [[_ HF] HT]. assert (0 <= total l) by (apply total_nonneg; eapply Forall_impl; [exact HF|]; intros ? (_ & ? & _); lia).
      assert (MoneyRange (acc + nValue o) = true) by (apply MoneyRange_spec; lia). congruence. }
  apply MoneyRange_spec in E2. rewrite <- nonstandard_spec.
  destruct (is_contract (scriptPubKey o)) eqn:E3, (is_nonstandard (scriptPubKey o)) eqn:E4; cbn [andb].
  { split; [done|]. intros [[(_ & _ & H') _] _]. by specialize (H' eq_refl). }
  all: rewrite (IH (acc + nValue o)) by lia; apply andb_false_iff in E1; rewrite negb_false_iff in E1.
  all: assert (special = false -> IsEmpty o = false) as HE by (intros ->; by destruct E1).
  all: split; [intros [HF HT]; repeat split; done || lia|intros [[_ HF] HT]; split; [done|lia]].
Qed.

Lemma has_duplicate_spec l : forall seen, has_duplicate seen l = false <->
  NoDup (map prevout l) /\ Forall (fun i => prevout i ∉ seen) l.
Proof.
  induction l as [|i l IH]; intros seen; cbn [has_duplicate map]; [split; [intros _; split; constructor|done]|].
  rewrite NoDup_cons, Forall_cons. destruct (bool_decide (prevout i ∈ seen)) eqn:E; bool_to_prop; [split; [done|tauto]|].
  rewrite IH, !Forall_forall. split.
  - intros [HN HF]. split_and!; try done.
    + intros Hin. apply list_elem_of_fmap in Hin as (j & Ej & Hj). specialize (HF j Hj). rewrite <- Ej in HF. set_solver.
    + intros j Hj Hs. apply (HF j Hj). set_solver.
  - intros [[Hi HN] [_ HF]]. split; [done|]. intros j Hj Hs. apply elem_of_union in Hs as [Hs%elem_of_singleton|Hs]; [|by apply (HF j Hj)].
    apply Hi. rewrite <- Hs. by apply list_elem_of_fmap_2.
Qed.

(** What [CheckTransaction] is meant to accept. *)
Record tx_valid (dgpMaxBlockWeight : Z) (tx : CTransaction) : Prop := {
  v_inputs : vin tx <> [];
  v_outputs : vout tx <> [];
  v_size : Z.of_nat (length (SerializeTransaction false tx)) <= MAX_TRANSACTION_BASE_SIZE;
  v_weight : Z.of_nat (length (SerializeTransaction false tx)) * WITNESS_SCALE_FACTOR <= dgpMaxBlockWeight;
  v_each : Forall (output_ok (IsCoinBase tx || IsCoinStake tx)) (vout tx);
  v_total : total (vout tx) <= MAX_MONEY;
  v_distinct : NoDup (map prevout (vin tx));
  v_prevouts : IsCoinBase tx = false -> Forall (fun i => IsNull (prevout i) = false) (vin tx);
  v_coinbase : IsCoinBase tx = true -> Forall (fun i => 2 <= Z.of_nat (length (scriptSig i)) <= 100) (vin tx)
}.

Lemma check_prevouts_spec tx : check_prevouts tx = None <->
  (IsCoinBase tx = false -> Forall (fun i => IsNull (prevout i) = false) (vin tx)) /\
  (IsCoinBase tx = true -> Forall (fun i => 2 <= Z.of_nat (length (scriptSig i)) <= 100) (vin tx)).
Proof.
  unfold check_prevouts. destruct (IsCoinBase tx) eqn:E.
  - unfold IsCoinBase in E. destruct (vin tx) as [|i [|]]; try done. rewrite !Forall_singleton.
    destruct (Z.ltb_spec (Z.of_nat (length (scriptSig i))) 2), (Z.ltb_spec 100 (Z.of_nat (length (scriptSig i)))); cbn [orb];
      (split; [intros HL; (discriminate HL || (split; [done|lia]))|intros [_ HL]; specialize (HL eq_refl); done || lia]).
  - destruct (existsb _ _) eqn:E'.
    + split; [done|]. intros [H _]. specialize (H eq_refl). apply existsb_exists in E' as (i & Hi & En).
      rewrite Forall_forall in H. rewrite H in En; [done|]. by apply list_elem_of_In.
    + split; [|done]. intros _. split; [|done]. intros _. apply Forall_forall. intros i Hi. destruct (IsNull (prevout i)) eqn:En; [|done].
      rewrite <- E'. symmetry. apply existsb_exists. exists i. split; [by apply list_elem_of_In|done].
Qed.

Lemma CheckTransaction_spec w tx : CheckTransaction w tx = None <-> tx_valid w tx.
Proof.
  unfold CheckTransaction. set (sz := Z.of_nat (length (SerializeTransaction false tx))).
  destruct (length (vin tx) =? 0)%nat eqn:E1.
  { split; [done|]. intros []. apply Nat.eqb_eq, length_zero_iff_nil in E1. done. }
  destruct (length (vout tx) =? 0)%nat eqn:E2.
  { split; [done|]. intros []. apply Nat.eqb_eq, length_zero_iff_nil in E2. done. }
  apply Nat.eqb_neq in E1, E2. destruct (Z.ltb_spec MAX_TRANSACTION_BASE_SIZE sz) as [|Hs]; cbn [orb].
  { split; [done|]. intros []. fold sz in v_size0. lia. }
  assert (0 <= sz) by lia. rewrite u64_id by (unfold in_u64, MAX_TRANSACTION_BASE_SIZE, WITNESS_SCALE_FACTOR in *; lia).
  destruct (Z.ltb_spec w (sz * WITNESS_SCALE_FACTOR)) as [|Hw].
  { split; [done|]. intros []. fold sz in v_weight0. lia. }
  pose proof (check_outputs_spec (IsCoinBase tx || IsCoinStake tx) (vout tx) 0 ltac:(pose proof MAX_MONEY_i64; lia)) as HO.
  destruct (check_outputs _ _ _) as [reason|].
  { split; [done|]. intros []. destruct HO as [_ HO]. by rewrite HO in * by done. }
  destruct HO as [HO _]. destruct (HO eq_refl) as [HF HT].
  pose proof (has_duplicate_spec (vin tx) ∅) as HD. destruct (has_duplicate ∅ (vin tx)).
  { split; [done|]. intros []. destruct HD as [_ HD]. discriminate HD. split; [done|]. apply Forall_forall. intros; set_solver. }
  destruct HD as [HD _]. destruct (HD eq_refl) as [HN _]. rewrite check_prevouts_spec. split; [|by intros []].
  intros [HP1 HP2]. split; try done; intros E; [apply E1|apply E2]; by rewrite E.
Qed.

Lemma value_loop_spec l : forall acc, 0 <= acc -> Forall (fun o => 0 <= nValue o <= MAX_MONEY) l -> acc + total l <= MAX_MONEY ->
  value_loop l acc = Some (acc + total l).
Proof.
  pose proof MAX_MONEY_i64 as [HM HM']. induction l as [|o l IH]; intros acc Ha HF HT; cbn [value_loop total foldr] in *; [by rewrite Z.add_0_r|].
  fold (total l) in *. apply Forall_cons in HF as [Ho HF].
  assert (0 <= total l) by (apply total_nonneg; eapply Forall_impl; [exact HF|]; cbn; lia).
  rewrite i64_id by (unfold in_i64; lia). rewrite !(proj2 (MoneyRange_spec _)) by lia. cbn [negb orb]. rewrite IH by (done || lia). f_equal. lia.
Qed.

Lemma output_sum_spec l : forall acc, 0 <= acc -> Forall (fun o => 0 <= nValue o <= MAX_MONEY) l -> acc + total l <= MAX_MONEY ->
  fold_left (fun sum o => i64 (sum + nValue o)) l acc = acc + total l.
Proof.
  pose proof MAX_MONEY_i64 as [HM HM']. induction l as [|o l IH]; intros acc Ha HF HT; cbn [fold_left total foldr] in *; [lia|].
  fold (total l) in *. apply Forall_cons in HF as [Ho HF].
  assert (0 <= total l) by (apply total_nonneg; eapply Forall_impl; [exact HF|]; cbn; lia).
  rewrite i64_id by (unfold in_i64; lia). rewrite IH by (done || lia). lia.
Qed.

Lemma GetValueOut_spec w tx : tx_valid w tx -> GetValueOut tx = Some (total (vout tx)) /\
  CalculateOutputValue tx = total (vout tx) /\ 0 <= total (vout tx) <= MAX_MONEY.
Proof.
  intros [_ _ _ _ HF HT _ _ _].
  assert (Forall (fun o => 0 <= nValue o <= MAX_MONEY) (vout tx)) as HF' by (eapply Forall_impl; [exact HF|]; by intros ? (_ & ? & _)).
  split; [by apply value_loop_spec|]. split; [by apply output_sum_spec|]. split; [|done].
  apply total_nonneg. eapply Forall_impl; [exact HF'|]. cbn. lia.
Qed.

(** ** Blocks *)

Section Commitment.
Context `{Crypto}.

Lemma GetWitnessHash_spec tx : GetWitnessHash tx = Hash256 (SerializeTransaction true tx).
Proof. unfold GetWitnessHash, GetHash. destruct (HasWitness tx) eqn:E; [done|]. unfold SerializeTransaction. by rewrite E. Qed.

(** Transactions of the two blocks, or a transaction of one and a pair hashed for the
    root of the other, whose different bytes have the same hash. *)
Definition tx_collision (vtx vtx' : list CTransaction) : Prop := exists tx tx', tx ∈ vtx /\ tx' ∈ vtx' /\
  SerializeTransaction false tx <> SerializeTransaction false tx' /\ GetHash tx = GetHash tx'.
Definition pair_collision (vtx vtx' : list CTransaction) : Prop := exists tx a b, tx ∈ vtx /\ Merkle.hashed (map GetHash vtx') a b /\
  SerializeTransaction false tx <> id_bytes 32 a ++ id_bytes 32 b /\
  GetHash tx = Hash256 (id_bytes 32 a ++ id_bytes 32 b).

Lemma hashes_commit vtx : forall vtx', Forall tx_ok vtx -> Forall tx_ok vtx' -> map GetHash vtx = map GetHash vtx' ->
  map strip vtx = map strip vtx' \/ tx_collision vtx vtx'.
Proof.
  induction vtx as [|tx vtx IH]; intros [|tx' vtx'] HF HF' E; cbn [map] in E; try done; [by left|]. injection E as Eh E.
  apply Forall_cons in HF as [Ht HF]. apply Forall_cons in HF' as [Ht' HF'].
  destruct (decide (SerializeTransaction false tx = SerializeTransaction false tx')) as [Es|Es].
  - destruct (IH vtx' HF HF' E) as [El|(t & t' & H1 & H2 & H3)].
    + left. cbn [map]. by rewrite (plain_inj tx tx' Ht Ht' Es), El.
    + right. exists t, t'. split_and!; [by apply list_elem_of_further|by apply list_elem_of_further|tauto..].
  - right. exists tx, tx'. split_and!; [apply list_elem_of_here|apply list_elem_of_here|done|done].
Qed.

Lemma leaf_collision vtx vtx' : Forall (fun tx => length (SerializeTransaction false tx) <> 64%nat) vtx ->
  Merkle.leaf_is_node (map GetHash vtx) (map GetHash vtx') -> pair_collision vtx vtx'.
Proof.
  intros HF (leaf & a & b & Hl & Hh & E). apply in_map_iff in Hl as (tx & <- & Hin). apply list_elem_of_In in Hin.
  exists tx, a, b. split_and!; [done|done| |exact E]. intros Es. rewrite Forall_forall in HF. apply (HF tx Hin). rewrite Es.
  unfold id_bytes. by rewrite length_app, !length_reverse, !length_le_bytes.
Qed.
End Commitment.

(** ** Properties *)

(** C28: Transactions survive both formats, and every accepted encoding is the one written
    for its transaction.  A transaction with an input, or without outputs, reads back as
    itself with its witnesses; without witnesses any transaction reads back stripped of
    them; whatever bytes either reader accepts are what the writer produces for the result,
    so no two byte strings stand for the same transaction. *)
Theorem transaction_encoding_canonical :
  (forall tx rest, tx_ok tx -> vin tx <> [] \/ vout tx = [] ->
     UnserializeTransaction true (SerializeTransaction true tx ++ rest) = Some (tx, rest)) /\
  (forall tx rest, tx_ok tx -> UnserializeTransaction false (SerializeTransaction false tx ++ rest) = Some (strip tx, rest)) /\
  (forall w s tx rest, Forall byte_ok s -> UnserializeTransaction w s = Some (tx, rest) ->
     s = SerializeTransaction w tx ++ rest /\ tx_ok tx).
Proof.
  split; [apply read_full|]. split; [intros; by apply read_plain|]. intros w s tx rest Hs E.
  destruct (read_canonical w s tx rest Hs E) as (H1 & H2 & _). done.
Qed.

(** A payment with one witness, and the coinbase of its block. *)
Definition sample_tx : CTransaction :=
  mkTransaction [mkTxIn (mkOutPoint 77 1) [] 4294967294 [[1; 2; 3]; []]] [mkTxOut 5000 (Script.pay_to_pubkey_hash (repeat 5 20))] 2 17.
Definition sample_coinbase : CTransaction :=
  mkTransaction [mkTxIn COutPoint_null [1; 9] SEQUENCE_FINAL []] [mkTxOut 0 []] 2 0.

Lemma sample_ok : Forall tx_ok [sample_coinbase; sample_tx].
Proof.
  repeat constructor; cbn; unfold in_u32, in_i64, NULL_INDEX, SEQUENCE_FINAL, MAX_SIZE; lia || done.
Qed.

Lemma transaction_encoding_canonical_witness :
  UnserializeTransaction true (SerializeTransaction true sample_tx ++ [7]) = Some (sample_tx, [7]) /\
  UnserializeTransaction false (SerializeTransaction false sample_tx ++ [7]) = Some (strip sample_tx, [7]) /\
  strip sample_tx <> sample_tx.
Proof.
  pose proof sample_ok as HF. apply Forall_cons in HF as [_ HF]. apply Forall_cons in HF as [Hok _].
  destruct transaction_encoding_canonical as (H1 & H2 & _).
  split; [apply H1; [exact Hok|by left]|]. split; [apply H2; exact Hok|]. intros E. discriminate E.
Defined.

(** The identifiers commit to the contents.  The txid is the hash of an encoding that
    determines everything but the witnesses and does not depend on them; the wtxid is the
    hash of an encoding that determines the transaction. *)
Theorem identifiers_commit `{Crypto} tx tx' : tx_ok tx -> tx_ok tx' -> vin tx <> [] -> vin tx' <> [] ->
  GetHash (strip tx) = GetHash tx /\
  (GetHash tx = Hash256 (SerializeTransaction false tx) /\
   (SerializeTransaction false tx = SerializeTransaction false tx' <-> strip tx = strip tx')) /\
  (GetWitnessHash tx = Hash256 (SerializeTransaction true tx) /\
   (SerializeTransaction true tx = SerializeTransaction true tx' <-> tx = tx')).
Proof.
  intros Ht Ht' Hn Hn'. split; [unfold GetHash; by rewrite serialize_strip|]. split; split; [done| |apply GetWitnessHash_spec|].
  - split; [by apply plain_inj|]. intros E. by rewrite <- serialize_strip, E, serialize_strip.
  - split; [apply full_inj; auto|by intros ->].
Qed.

Lemma identifiers_commit_witness : @GetHash toy_crypto (strip sample_tx) = @GetHash toy_crypto sample_tx.
Proof.
  pose proof sample_ok as HF. apply Forall_cons in HF as [_ HF]. apply Forall_cons in HF as [Hok _].
  refine (proj1 (@identifiers_commit toy_crypto sample_tx sample_tx Hok Hok _ _)); discriminate.
Defined.

(** C25: The Merkle root of a block commits to its transactions.  Two blocks with the same
    root, neither reported as mutated, contain the same transactions up to witnesses,
    unless hashes collide at bytes that occur in the two computations; transactions of 64
    bytes, whose encoding could pass for a pair of hashes, are excluded. *)
Theorem block_root_commits `{Crypto} vtx vtx' : vtx <> [] -> vtx' <> [] -> Forall tx_ok vtx -> Forall tx_ok vtx' ->
  Forall (fun tx => length (SerializeTransaction false tx) <> 64%nat) (vtx ++ vtx') ->
  (BlockMerkleRoot vtx).1 = (BlockMerkleRoot vtx').1 -> (BlockMerkleRoot vtx).2 = false -> (BlockMerkleRoot vtx').2 = false ->
  map strip vtx = map strip vtx' \/
  Merkle.collision (Merkle.hashed (map GetHash vtx)) (Merkle.hashed (map GetHash vtx')) \/
  tx_collision vtx vtx' \/ pair_collision vtx vtx' \/ pair_collision vtx' vtx.
Proof.
  intros Hn Hn' Ht Ht' [H64 H64']%Forall_app. unfold BlockMerkleRoot. intros E M M'.
  destruct (Merkle.root_binds (map GetHash vtx) (map GetHash vtx')) as [El|[|[L|L]]]; [by destruct vtx|by destruct vtx'|done..| | | |].
  - destruct (hashes_commit vtx vtx' Ht Ht' El); tauto.
  - tauto.
  - apply leaf_collision in L; tauto.
  - apply leaf_collision in L; tauto.
Qed.

Lemma block_root_commits_witness :
  let vtx := [sample_coinbase; sample_tx] in let vtx' := [sample_coinbase; strip sample_tx] in
  @BlockMerkleRoot toy_crypto vtx = @BlockMerkleRoot toy_crypto vtx' /\
  (map strip vtx = map strip vtx' \/
   @Merkle.collision toy_crypto (@Merkle.hashed toy_crypto (map (@GetHash toy_crypto) vtx)) (@Merkle.hashed toy_crypto (map (@GetHash toy_crypto) vtx')) \/
   @tx_collision toy_crypto vtx vtx' \/ @pair_collision toy_crypto vtx vtx' \/ @pair_collision toy_crypto vtx' vtx).
Proof.
  cbv zeta. split; [vm_compute; reflexivity|]. apply (@block_root_commits toy_crypto); try done.
  - exact sample_ok.
  - repeat constructor; cbn; unfold in_u32, in_i64, NULL_INDEX, SEQUENCE_FINAL, MAX_SIZE; lia || done.
  - repeat constructor; intros E; vm_compute in E; discriminate E.
Defined.

(** C24: [CheckTransaction] accepts exactly the transactions described: with inputs and
    outputs, within the size and weight limits, every value and the total within the
    money range, no empty output outside coinbase and coinstake, contract outputs of a
    known form, distinct inputs, and null inputs only as that of a coinbase with a
    signature script of 2 to 100 bytes.  After it the total of the outputs is defined, the
    exact sum, and in the money range. *)
Theorem check_transaction_exact dgpMaxBlockWeight tx :
  (CheckTransaction dgpMaxBlockWeight tx = None <-> tx_valid dgpMaxBlockWeight tx) /\
  (CheckTransaction dgpMaxBlockWeight tx = None ->
     GetValueOut tx = Some (total (vout tx)) /\ CalculateOutputValue tx = total (vout tx) /\ 0 <= total (vout tx) <= MAX_MONEY).
Proof. split; [apply CheckTransaction_spec|]. intros E%CheckTransaction_spec. by apply (GetValueOut_spec dgpMaxBlockWeight). Qed.

Lemma check_transaction_exact_witness :
  GetValueOut sample_tx = Some 5000 /\
  CheckTransaction 8000000 (mkTransaction (vin sample_tx ++ vin sample_tx) (vout sample_tx) 2 0) = Some "bad-txns-inputs-duplicate"%string.
Proof. split; [|vm_compute; reflexivity]. refine (proj1 (proj2 (check_transaction_exact 8000000 sample_tx) _)). vm_compute. reflexivity. Defined.
End Transaction.
