(* ===== verification/Coins.v ===== *)
(** * Unspent outputs (coins.h, coins.cpp, txdb.cpp)

    The views of the set of unspent outputs.  What one view asks of the view below it is
    the class [CCoinsView], with what the view below promises in [CCoinsViewLaws]: it shows
    a partial map from outpoints to coins, reading does not change the map, and a batch
    changes it by the dirty entries.  The database ([CCoinsViewDB]) keeps the promise, and
    a cache ([CCoinsViewCache]) keeps it whenever the view it stands on does, so stacks of
    caches of any height do.  The memory accounting of the cache ([cachedCoinsUsage]) is left
    out. *)

From stdpp Require Import gmap list.
From Stdlib Require Import ZArith Lia.
From S2P Require Import Prelude Serialize Script OutPoint Transaction.

Open Scope Z_scope.

Module Coins.
Import Transaction.Transaction.

(** ** Coins and cache entries *)

Record Coin := mkCoin { out : CTxOut; fCoinBase : bool; fCoinStake : bool; nHeight : Z }.

(** [Coin()] and [Clear] *)
Definition coinEmpty : Coin := mkCoin CTxOut_null false false 0.
Definition IsSpent (c : Coin) : bool := CTxOut_IsNull (out c).

#[export] Instance Coin_eq : EqDecision Coin.
Proof. solve_decision. Defined.

Record CCoinsCacheEntry := mkEntry { coin : Coin; IsDirty : bool; IsFresh : bool }.

Definition flagged_entry (e : CCoinsCacheEntry) : bool := IsDirty e || IsFresh e.

(** Entries a cursor walks over, in the order of the list of flagged entries. *)
Definition batch : Type := list (COutPoint * CCoinsCacheEntry).

(** ** The interface *)

(** The methods a cache calls on the view below.  [None] from [BatchWrite] is a failed
    assertion or an exception. *)
Class CCoinsView (V : Type) := {
  view_GetCoin : COutPoint -> V -> option Coin * V;
  view_GetBestBlock : V -> N * V;
  view_BatchWrite : batch -> N -> V -> option V
}.

Definition unspent (c : Coin) : option Coin := if IsSpent c then None else Some c.

(** The coins after a batch: those of the dirty entries, the others as before. *)
Definition after_batch (es : batch) (coins : COutPoint -> option Coin) (o : COutPoint) : option Coin :=
  match (list_to_map es : gmap COutPoint CCoinsCacheEntry) !! o with
  | Some e => if IsDirty e then unspent (coin e) else coins o
  | None => coins o
  end.

(** What the caller of [BatchWrite] must see to: no outpoint comes twice, and a fresh entry
    is one the view has no coin for. *)
Definition batch_ok (coins : COutPoint -> option Coin) (es : batch) : Prop :=
  NoDup es.*1 /\ forall o e, (o, e) ∈ es -> IsDirty e = true -> IsFresh e = true -> coins o = None.

Class CCoinsViewLaws (V : Type) `{CCoinsView V} := {
  view_ok : V -> Prop;
  coins_of : V -> COutPoint -> option Coin;
  best_of : V -> N;
  view_unspent v o c : view_ok v -> coins_of v o = Some c -> IsSpent c = false;
  view_get v o : view_ok v -> exists v', view_GetCoin o v = (coins_of v o, v') /\ view_ok v' /\
    best_of v' = best_of v /\ forall o', coins_of v' o' = coins_of v o';
  view_best v : view_ok v -> exists v', view_GetBestBlock v = (best_of v, v') /\ view_ok v' /\
    best_of v' = best_of v /\ forall o', coins_of v' o' = coins_of v o';
  view_batch v es h : view_ok v -> batch_ok (coins_of v) es -> h <> 0%N ->
    exists v', view_BatchWrite es h v = Some v' /\ view_ok v' /\ best_of v' = h /\
    forall o, coins_of v' o = after_batch es (coins_of v) o
}.

(** ** The database *)

(** What the keys of the database hold: the coins, [DB_BEST_BLOCK] and [DB_HEAD_BLOCKS]. *)
Record CCoinsViewDB := mkDB { db_coins : gmap COutPoint Coin; db_best : option N; db_heads : option (list N) }.

(** One change of a [CDBBatch]; a batch is written whole or not at all. *)
Inductive dbop :=
| EraseCoin (o : COutPoint) | WriteCoin (o : COutPoint) (c : Coin)
| EraseBest | WriteBest (h : N) | EraseHeads | WriteHeads (hs : list N).

Definition apply_op (db : CCoinsViewDB) (op : dbop) : CCoinsViewDB :=
  match op with
  | EraseCoin o => mkDB (delete o (db_coins db)) (db_best db) (db_heads db)
  | WriteCoin o c => mkDB (<[o := c]> (db_coins db)) (db_best db) (db_heads db)
  | EraseBest => mkDB (db_coins db) None (db_heads db)
  | WriteBest h => mkDB (db_coins db) (Some h) (db_heads db)
  | EraseHeads => mkDB (db_coins db) (db_best db) None
  | WriteHeads hs => mkDB (db_coins db) (db_best db) (Some hs)
  end.
Definition WriteBatch (db : CCoinsViewDB) (ops : list dbop) : CCoinsViewDB := fold_left apply_op ops db.

Definition DB_GetBestBlock (db : CCoinsViewDB) : N := default 0%N (db_best db).
Definition GetHeadBlocks (db : CCoinsViewDB) : list N := default [] (db_heads db).

Section DB.
(** [batch.SizeEstimate() > m_options.batch_write_bytes] *)
Context (full : list dbop -> bool).

Definition entry_ops (x : COutPoint * CCoinsCacheEntry) : list dbop :=
  if IsDirty x.2 then [if IsSpent (coin x.2) then EraseCoin x.1 else WriteCoin x.1 (coin x.2)] else [].

(** The batches written, the last one still open. *)
Fixpoint batches (es : batch) (ops : list dbop) : list (list dbop) * list dbop :=
  match es with
  | [] => ([], ops)
  | x :: es =>
      let ops := ops ++ entry_ops x in
      if full ops then let '(written, ops') := batches es [] in (ops :: written, ops') else batches es ops
  end.

(** The tip the database is taken to be at; [None] is the failed assertion. *)
Definition old_tip (db : CCoinsViewDB) (hashBlock : N) : option N :=
  let old_tip := DB_GetBestBlock db in
  if (old_tip =? 0)%N then
    match GetHeadBlocks db with
    | [new; old] => if (new =? hashBlock)%N then Some old else None
    | _ => Some old_tip
    end
  else Some old_tip.

(** All the batches of a [BatchWrite], in order. *)
Definition write_sequence (db : CCoinsViewDB) (es : batch) (hashBlock : N) : option (list (list dbop)) :=
  if (hashBlock =? 0)%N then None
  else
    old ← old_tip db hashBlock;
    let '(written, ops) := batches es [EraseBest; WriteHeads [hashBlock; old]] in
    Some (written ++ [ops ++ [EraseHeads; WriteBest hashBlock]]).

Definition DB_BatchWrite (es : batch) (hashBlock : N) (db : CCoinsViewDB) : option CCoinsViewDB :=
  seq ← write_sequence db es hashBlock; Some (fold_left WriteBatch seq db).

#[export] Instance CCoinsViewDB_view : CCoinsView CCoinsViewDB := {|
  view_GetCoin o db := (db_coins db !! o, db);
  view_GetBestBlock db := (DB_GetBestBlock db, db);
  view_BatchWrite := DB_BatchWrite
|}.
End DB.

(** ** The cache *)

(** [flagged] is the linked list of the entries that have a flag. *)
Record CCoinsViewCache (V : Type) := mkCache {
  cacheCoins : gmap COutPoint CCoinsCacheEntry; flagged : list COutPoint; hashBlock : N; base : V
}.
Arguments mkCache {V}.
Arguments cacheCoins {V}.
Arguments flagged {V}.
Arguments hashBlock {V}.
Arguments base {V}.

Section Cache.
Context {V : Type} `{CCoinsView V}.
Implicit Types (c : CCoinsViewCache V) (o : COutPoint).

Definition empty_entry : CCoinsCacheEntry := mkEntry coinEmpty false false.

(** [try_emplace(outpoint)], then [it->second.coin = coin] *)
Definition set_coin (o : COutPoint) (x : Coin) (c : CCoinsViewCache V) : CCoinsViewCache V :=
  let e := default empty_entry (cacheCoins c !! o) in
  mkCache (<[o := mkEntry x (IsDirty e) (IsFresh e)]> (cacheCoins c)) (flagged c) (hashBlock c) (base c).

(** [AddFlags]: an entry gets into the list with its first flag *)
Definition AddFlags (dirty fresh : bool) (o : COutPoint) (c : CCoinsViewCache V) : CCoinsViewCache V :=
  match cacheCoins c !! o with
  | Some e =>
      mkCache (<[o := mkEntry (coin e) (IsDirty e || dirty) (IsFresh e || fresh)]> (cacheCoins c))
              (if flagged_entry e then flagged c else flagged c ++ [o]) (hashBlock c) (base c)
  | None => c
  end.
Definition SetDirty : COutPoint -> CCoinsViewCache V -> CCoinsViewCache V := AddFlags true false.
Definition SetFresh : COutPoint -> CCoinsViewCache V -> CCoinsViewCache V := AddFlags false true.

Definition unlink (o : COutPoint) (l : list COutPoint) : list COutPoint := filter (fun o' => o' <> o) l.

(** [cacheCoins.erase(it)]: the destructor takes the entry out of the list *)
Definition erase (o : COutPoint) (c : CCoinsViewCache V) : CCoinsViewCache V :=
  mkCache (delete o (cacheCoins c)) (unlink o (flagged c)) (hashBlock c) (base c).

Definition SetClean (o : COutPoint) (c : CCoinsViewCache V) : CCoinsViewCache V :=
  match cacheCoins c !! o with
  | Some e => mkCache (<[o := mkEntry (coin e) false false]> (cacheCoins c)) (unlink o (flagged c)) (hashBlock c) (base c)
  | None => c
  end.

Definition FetchCoin (o : COutPoint) (c : CCoinsViewCache V) : option CCoinsCacheEntry * CCoinsViewCache V :=
  match cacheCoins c !! o with
  | Some e => (Some e, c)
  | None =>
      let '(got, v) := view_GetCoin o (base c) in
      let c := mkCache (cacheCoins c) (flagged c) (hashBlock c) v in
      match got with
      | Some x =>
          let c := set_coin o x c in
          let c := if IsSpent x then SetFresh o c else c in
          (cacheCoins c !! o, c)
      | None => (None, c)
      end
  end.

Definition GetCoin (o : COutPoint) (c : CCoinsViewCache V) : option Coin * CCoinsViewCache V :=
  let '(it, c) := FetchCoin o c in
  (match it with Some e => if negb (IsSpent (coin e)) then Some (coin e) else None | None => None end, c).

Definition AccessCoin (o : COutPoint) (c : CCoinsViewCache V) : Coin * CCoinsViewCache V :=
  let '(it, c) := FetchCoin o c in (match it with Some e => coin e | None => coinEmpty end, c).

Definition HaveCoin (o : COutPoint) (c : CCoinsViewCache V) : bool * CCoinsViewCache V :=
  let '(it, c) := FetchCoin o c in (match it with Some e => negb (IsSpent (coin e)) | None => false end, c).

Definition HaveCoinInCache (o : COutPoint) (c : CCoinsViewCache V) : bool :=
  match cacheCoins c !! o with Some e => negb (IsSpent (coin e)) | None => false end.

(** [None] is the failed assertion or the exception. *)
Definition AddCoin (o : COutPoint) (x : Coin) (possible_overwrite : bool) (c : CCoinsViewCache V) : option (CCoinsViewCache V) :=
  if IsSpent x then None
  else if Script.IsUnspendable (scriptPubKey (out x)) then Some c
  else
    let e := default empty_entry (cacheCoins c !! o) in
    if negb possible_overwrite && negb (IsSpent (coin e)) then None
    else
      let fresh := if possible_overwrite then false else negb (IsDirty e) in
      let c := SetDirty o (set_coin o x c) in
      Some (if fresh then SetFresh o c else c).

Definition EmplaceCoinInternalDANGER (o : COutPoint) (x : Coin) (c : CCoinsViewCache V) : CCoinsViewCache V :=
  match cacheCoins c !! o with
  | Some _ => c
  | None => SetDirty o (set_coin o x c)
  end.

(** The coin moved out, [None] when there is no entry. *)
Definition SpendCoin (o : COutPoint) (c : CCoinsViewCache V) : option Coin * CCoinsViewCache V :=
  let '(it, c) := FetchCoin o c in
  match it with
  | None => (None, c)
  | Some e => (Some (coin e), if IsFresh e then erase o c else set_coin o coinEmpty (SetDirty o c))
  end.

Definition GetBestBlock (c : CCoinsViewCache V) : N * CCoinsViewCache V :=
  if (hashBlock c =? 0)%N then
    let '(h, v) := view_GetBestBlock (base c) in (h, mkCache (cacheCoins c) (flagged c) h v)
  else (hashBlock c, c).

Definition SetBestBlock (h : N) (c : CCoinsViewCache V) : CCoinsViewCache V :=
  mkCache (cacheCoins c) (flagged c) h (base c).

(** One entry of the child's cursor. *)
Definition write_entry (x : COutPoint * CCoinsCacheEntry) (c : CCoinsViewCache V) : option (CCoinsViewCache V) :=
  let '(o, it) := x in
  if negb (IsDirty it) then Some c
  else match cacheCoins c !! o with
  | None =>
      if IsFresh it && IsSpent (coin it) then Some c
      else
        let c := SetDirty o (set_coin o (coin it) c) in
        Some (if IsFresh it then SetFresh o c else c)
  | Some itUs =>
      if IsFresh it && negb (IsSpent (coin itUs)) then None
      else if IsFresh itUs && IsSpent (coin it) then Some (erase o c)
      else Some (SetDirty o (set_coin o (coin it) c))
  end.

Fixpoint write_entries (es : batch) (c : CCoinsViewCache V) : option (CCoinsViewCache V) :=
  match es with
  | [] => Some c
  | x :: es => c ← write_entry x c; write_entries es c
  end.

Definition BatchWrite (es : batch) (h : N) (c : CCoinsViewCache V) : option (CCoinsViewCache V) :=
  c ← write_entries es c; Some (SetBestBlock h c).

(** The entries a cursor yields. *)
Definition cursor (c : CCoinsViewCache V) : batch :=
  omap (fun o => (fun e => (o, e)) <$> cacheCoins c !! o) (flagged c).

(** [NextAndMaybeErase] when the cache is not wiped *)
Definition NextAndMaybeErase (c : CCoinsViewCache V) (o : COutPoint) : CCoinsViewCache V :=
  match cacheCoins c !! o with
  | Some e => if IsSpent (coin e) then erase o c else SetClean o c
  | None => c
  end.

Definition Flush (c : CCoinsViewCache V) : option (CCoinsViewCache V) :=
  v ← view_BatchWrite (cursor c) (hashBlock c) (base c);
  Some (mkCache ∅ [] (hashBlock c) v).

Definition Sync (c : CCoinsViewCache V) : option (CCoinsViewCache V) :=
  v ← view_BatchWrite (cursor c) (hashBlock c) (base c);
  let c := fold_left NextAndMaybeErase (flagged c) (mkCache (cacheCoins c) (flagged c) (hashBlock c) v) in
  match flagged c with [] => Some c | _ => None end.

Definition Uncache (o : COutPoint) (c : CCoinsViewCache V) : CCoinsViewCache V :=
  match cacheCoins c !! o with
  | Some e => if negb (IsDirty e) && negb (IsFresh e) then erase o c else c
  | None => c
  end.

(** [GetValueIn], [HaveInputs] *)
Fixpoint value_in (vin : list CTxIn) (nResult : Z) (c : CCoinsViewCache V) : Z * CCoinsViewCache V :=
  match vin with
  | [] => (nResult, c)
  | i :: vin => let '(x, c) := AccessCoin (prevout i) c in value_in vin (i64 (nResult + nValue (out x))) c
  end.
Definition GetValueIn (tx : CTransaction) (c : CCoinsViewCache V) : Z * CCoinsViewCache V :=
  if IsCoinBase tx then (0, c) else value_in (vin tx) 0 c.

Fixpoint have_all (vin : list CTxIn) (c : CCoinsViewCache V) : bool * CCoinsViewCache V :=
  match vin with
  | [] => (true, c)
  | i :: vin => let '(b, c) := HaveCoin (prevout i) c in if b then have_all vin c else (false, c)
  end.
Definition HaveInputs (tx : CTransaction) (c : CCoinsViewCache V) : bool * CCoinsViewCache V :=
  if IsCoinBase tx then (true, c) else have_all (vin tx) c.

(** [AccessByTxid]: the first unspent output of the transaction *)
Fixpoint access_by_txid (fuel : nat) (hash : N) (n : Z) (c : CCoinsViewCache V) : Coin * CCoinsViewCache V :=
  match fuel with
  | O => (coinEmpty, c)
  | S fuel =>
      let '(alternate, c) := AccessCoin (mkOutPoint hash n) c in
      if negb (IsSpent alternate) then (alternate, c) else access_by_txid fuel hash (n + 1) c
  end.
Definition AccessByTxid (MAX_OUTPUTS_PER_BLOCK : nat) (hash : N) (c : CCoinsViewCache V) : Coin * CCoinsViewCache V :=
  access_by_txid MAX_OUTPUTS_PER_BLOCK hash 0 c.

(** [SanityCheck], without the memory count: the flags of each entry are one of the five
    combinations, and the list has as many entries as there are flagged ones, each with a
    flag. *)
Definition entry_sane (e : CCoinsCacheEntry) : bool :=
  let attr := (if IsDirty e then 1 else 0) + (if IsFresh e then 2 else 0) + (if IsSpent (coin e) then 4 else 0) in
  negb (attr =? 2) && negb (attr =? 4) && negb (attr =? 7).
Definition SanityCheck (c : CCoinsViewCache V) : bool :=
  forallb (fun x => entry_sane x.2) (map_to_list (cacheCoins c)) &&
  forallb (fun o => match cacheCoins c !! o with Some e => flagged_entry e | None => false end) (flagged c) &&
  (length (flagged c) =? length (filter (fun x => flagged_entry x.2 = true) (map_to_list (cacheCoins c))))%nat.

#[export] Instance CCoinsViewCache_view : CCoinsView (CCoinsViewCache V) := {|
  view_GetCoin := GetCoin;
  view_GetBestBlock := GetBestBlock;
  view_BatchWrite := BatchWrite
|}.
End Cache.

(** ** The cache keeps the promise of the interface *)

Section CacheLaws.
Context {V : Type} `{CCoinsViewLaws V}.
Implicit Types (c : CCoinsViewCache V) (o : COutPoint).

(** The coins a cache shows. *)
Definition coins c o : option Coin :=
  match cacheCoins c !! o with Some e => unspent (coin e) | None => coins_of (base c) o end.
Definition best c : N := if (hashBlock c =? 0)%N then best_of (base c) else hashBlock c.

(** What the flags of an entry say about the view below. *)
Record entry_ok (below : option Coin) (e : CCoinsCacheEntry) : Prop := {
  eo_fresh : IsFresh e = true -> below = None /\ IsSpent (coin e) = false;
  eo_clean : IsDirty e = false -> below = Some (coin e) /\ IsSpent (coin e) = false
}.

Record cache_ok c : Prop := {
  co_base : view_ok (base c);
  co_nodup : NoDup (flagged c);
  co_linked o : o ∈ flagged c <-> exists e, cacheCoins c !! o = Some e /\ flagged_entry e = true;
  co_entry o e : cacheCoins c !! o = Some e -> entry_ok (coins_of (base c) o) e
}.

Lemma unspent_None x : unspent x = None <-> IsSpent x = true.
Proof. unfold unspent. by destruct (IsSpent x). Qed.
Lemma unspent_false x : IsSpent x = false -> unspent x = Some x.
Proof. unfold unspent. by intros ->. Qed.
Lemma unspent_Some x y : unspent x = Some y <-> x = y /\ IsSpent x = false.
Proof. unfold unspent. destruct (IsSpent x); naive_solver. Qed.

Lemma coins_unspent c o x : cache_ok c -> coins c o = Some x -> IsSpent x = false.
Proof.
  intros Hc. unfold coins. destruct (cacheCoins c !! o) as [e|] eqn:E.
  - intros [-> ?]%unspent_Some. done.
  - apply view_unspent, Hc.
Qed.

(** An entry that is not dirty is not fresh either. *)
Lemma clean_not_fresh below e : entry_ok below e -> IsDirty e = false -> IsFresh e = false.
Proof. intros [F C] D. destruct (IsFresh e); [|done]. destruct (F eq_refl), (C D). congruence. Qed.

Lemma entry_ok_flagged below e : entry_ok below e -> flagged_entry e = IsDirty e.
Proof.
  intros He. unfold flagged_entry. destruct (IsDirty e) eqn:D; [done|]. by rewrite (clean_not_fresh _ _ He D).
Qed.

(** The three ways an entry changes. *)
Definition put o (e : CCoinsCacheEntry) c : CCoinsViewCache V :=
  mkCache (<[o := e]> (cacheCoins c))
          (if flagged_entry (default empty_entry (cacheCoins c !! o)) then flagged c else flagged c ++ [o]) (hashBlock c) (base c).

Lemma co_flag c o : cache_ok c -> flagged_entry (default empty_entry (cacheCoins c !! o)) = true <-> o ∈ flagged c.
Proof.
  intros Hc. rewrite (co_linked c Hc). destruct (cacheCoins c !! o) as [e|]; cbn; [naive_solver|]. split; [done|naive_solver].
Qed.

Lemma ok_put c o e : cache_ok c -> flagged_entry e = true -> entry_ok (coins_of (base c) o) e ->
  cache_ok (put o e c) /\ forall o', coins (put o e c) o' = if decide (o' = o) then unspent (coin e) else coins c o'.
Proof.
  intros Hc Hf He. split; [split|]; unfold put; cbn [cacheCoins flagged base].
  - apply Hc.
  - destruct (flagged_entry (default _ _)) eqn:E; [apply Hc|]. apply NoDup_app. split; [apply Hc|].
    split; [|apply NoDup_singleton]. intros o' Ho' ->%list_elem_of_singleton. apply (co_flag c o Hc) in Ho'. congruence.
  - intros o'. destruct (decide (o' = o)) as [->|Hne].
    + rewrite lookup_insert_eq. split; [intros _; by exists e|]. intros _. destruct (flagged_entry (default _ _)) eqn:E.
      * by apply (co_flag c o Hc).
      * apply elem_of_app. right. by apply list_elem_of_singleton.
    + rewrite lookup_insert_ne by done. rewrite <- (co_linked c Hc). destruct (flagged_entry (default _ _)); [done|].
      rewrite elem_of_app, list_elem_of_singleton. naive_solver.
  - intros o' e'. rewrite lookup_insert_Some. intros [[<- <-]|[_ E]]; [done|]. by apply (co_entry c Hc).
  - intros o'. unfold coins. cbn [cacheCoins base]. case_decide as E; [subst o'; by rewrite lookup_insert_eq|by rewrite lookup_insert_ne].
Qed.

Lemma ok_erase c o : cache_ok c -> cache_ok (erase o c) /\
  forall o', coins (erase o c) o' = if decide (o' = o) then coins_of (base c) o else coins c o'.
Proof.
  intros Hc. split; [split|]; unfold erase, unlink; cbn [cacheCoins flagged base].
  - apply Hc.
  - apply NoDup_filter, Hc.
  - intros o'. rewrite list_elem_of_filter, (co_linked c Hc). destruct (decide (o' = o)) as [->|Hne].
    + rewrite lookup_delete_eq. naive_solver.
    + rewrite lookup_delete_ne by done. naive_solver.
  - intros o' e'. rewrite lookup_delete_Some. intros [_ E]. by apply (co_entry c Hc).
  - intros o'. unfold coins. cbn [cacheCoins base]. case_decide as E; [subst o'; by rewrite lookup_delete_eq|by rewrite lookup_delete_ne].
Qed.

(** A clean entry for a coin of the view below. *)
Lemma cache_ok_load c o x : cache_ok c -> cacheCoins c !! o = None -> coins_of (base c) o = Some x ->
  cache_ok (set_coin o x c) /\ forall o', coins (set_coin o x c) o' = coins c o'.
Proof.
  intros Hc E Ex. assert (IsSpent x = false) as Hx by (eapply view_unspent; [apply Hc|exact Ex]).
  unfold set_coin. rewrite E. cbn [default]. split; [split|]; cbn [cacheCoins flagged base].
  - apply Hc.
  - apply Hc.
  - intros o'. rewrite (co_linked c Hc). destruct (decide (o' = o)) as [->|Hne].
    + rewrite lookup_insert_eq, E. naive_solver.
    + by rewrite lookup_insert_ne.
  - intros o' e'. rewrite lookup_insert_Some. intros [[<- <-]|[_ E']]; [|by apply (co_entry c Hc)]. by split; cbn.
  - intros o'. unfold coins. cbn [cacheCoins base]. destruct (decide (o' = o)) as [->|Hne].
    + rewrite lookup_insert_eq, E, Ex. cbn. by rewrite unspent_false.
    + by rewrite lookup_insert_ne.
Qed.

(** The view below may be replaced by one with the same coins. *)
Lemma ok_base c v : cache_ok c -> view_ok v -> (forall o, coins_of v o = coins_of (base c) o) ->
  cache_ok (mkCache (cacheCoins c) (flagged c) (hashBlock c) v) /\
  forall o, coins (mkCache (cacheCoins c) (flagged c) (hashBlock c) v) o = coins c o.
Proof.
  intros [H1 H2 H3 H4] Hv Ev. split; [split; try done|]; cbn [cacheCoins base].
  - intros o e E. rewrite Ev. by apply H4.
  - intros o. unfold coins. cbn [cacheCoins base]. by rewrite Ev.
Qed.

Lemma SetDirty_put o x c : SetDirty o (set_coin o x c) = put o (mkEntry x true (IsFresh (default empty_entry (cacheCoins c !! o)))) c.
Proof.
  unfold SetDirty, AddFlags, set_coin, put. cbn [cacheCoins flagged hashBlock base]. rewrite lookup_insert_eq. cbn [coin IsDirty IsFresh].
  rewrite insert_insert_eq, orb_true_r, orb_false_r. done.
Qed.

Lemma SetFresh_put o x fr c : SetFresh o (put o (mkEntry x true fr) c) = put o (mkEntry x true true) c.
Proof.
  unfold SetFresh, AddFlags, put. cbn [cacheCoins flagged hashBlock base]. rewrite lookup_insert_eq. cbn [coin IsDirty IsFresh flagged_entry orb].
  by rewrite insert_insert_eq, orb_true_r.
Qed.

(** Nothing observable changed. *)
Record same c c' : Prop := {
  same_coins o : coins c' o = coins c o;
  same_hash : hashBlock c' = hashBlock c;
  same_best : best_of (base c') = best_of (base c)
}.

#[export] Instance same_refl : Reflexive same.
Proof. by split. Qed.
#[export] Instance same_trans : Transitive same.
Proof. intros a b d [A1 A2 A3] [B1 B2 B3]. split; [intros o; by rewrite B1|congruence|congruence]. Qed.

Lemma FetchCoin_spec o c : cache_ok c -> exists it c', FetchCoin o c = (it, c') /\ cache_ok c' /\ same c c' /\
  match it with
  | Some e => cacheCoins c' !! o = Some e /\ coins c o = unspent (coin e)
  | None => cacheCoins c' !! o = None /\ coins c o = None
  end.
Proof.
  intros Hc. unfold FetchCoin. destruct (cacheCoins c !! o) as [e|] eqn:E.
  { exists (Some e), c. unfold coins. rewrite E. done. }
  destruct (view_get (base c) o (co_base c Hc)) as (v & -> & Hv & Hb & Ev).
  destruct (ok_base c v Hc Hv Ev) as [Hc1 S1]. set (c1 := mkCache (cacheCoins c) (flagged c) (hashBlock c) v) in *.
  assert (coins c o = coins_of (base c) o) as Eo by (unfold coins; by rewrite E).
  destruct (coins_of (base c) o) as [x|] eqn:Ex.
  - assert (IsSpent x = false) as Hx by (eapply view_unspent; [apply Hc|exact Ex]). rewrite Hx.
    destruct (cache_ok_load c1 o x Hc1 E) as [Hc2 S2]; [cbn [base c1]; by rewrite Ev|].
    exists (Some (mkEntry x false false)), (set_coin o x c1). unfold set_coin at 1. cbn [cacheCoins c1]. rewrite E, lookup_insert_eq. cbn [default].
    split; [done|]. split; [done|]. split; [split; [intros; by rewrite S2|done|done]|].
    unfold set_coin. cbn [cacheCoins c1]. rewrite E, lookup_insert_eq. cbn [coin]. by rewrite unspent_false.
  - exists None, c1. split; [done|]. split; [done|]. split; [by split|]. done.
Qed.

Lemma GetCoin_spec o c : cache_ok c -> exists c', GetCoin o c = (coins c o, c') /\ cache_ok c' /\ same c c'.
Proof.
  intros Hc. unfold GetCoin. destruct (FetchCoin_spec o c Hc) as (it & c' & -> & Hc' & S & Hit). exists c'.
  split; [|done]. f_equal. destruct it as [e|]; destruct Hit as [_ ->]; [|done]. unfold unspent. by destruct (IsSpent (coin e)).
Qed.

Lemma AccessCoin_spec o c : cache_ok c -> exists x c', AccessCoin o c = (x, c') /\ cache_ok c' /\ same c c' /\ unspent x = coins c o.
Proof.
  intros Hc. unfold AccessCoin. destruct (FetchCoin_spec o c Hc) as (it & c' & -> & Hc' & S & Hit).
  destruct it as [e|]; destruct Hit as [_ ->]; by do 2 eexists.
Qed.

Lemma HaveCoin_spec o c : cache_ok c -> exists c', HaveCoin o c = (bool_decide (is_Some (coins c o)), c') /\ cache_ok c' /\ same c c'.
Proof.
  intros Hc. unfold HaveCoin. destruct (FetchCoin_spec o c Hc) as (it & c' & -> & Hc' & S & Hit). exists c'.
  split; [|done]. f_equal. destruct it as [e|]; destruct Hit as [_ ->]; [|done]. unfold unspent. by destruct (IsSpent (coin e)).
Qed.

(** What [AddCoin] does to the coins. *)
Definition add_coin (o : COutPoint) (x : Coin) (m : COutPoint -> option Coin) (o' : COutPoint) : option Coin :=
  if Script.IsUnspendable (scriptPubKey (out x)) then m o' else if decide (o' = o) then Some x else m o'.
Definition remove_coin (o : COutPoint) (m : COutPoint -> option Coin) (o' : COutPoint) : option Coin :=
  if decide (o' = o) then None else m o'.

Lemma AddCoin_spec o x po c : cache_ok c -> IsSpent x = false -> po = true \/ coins c o = None ->
  exists c', AddCoin o x po c = Some c' /\ cache_ok c' /\ hashBlock c' = hashBlock c /\ base c' = base c /\
    forall o', coins c' o' = add_coin o x (coins c) o'.
Proof.
  intros Hc Hx Hpo. unfold AddCoin, add_coin. rewrite Hx. destruct (Script.IsUnspendable _); [by exists c|].
  set (e := default empty_entry (cacheCoins c !! o)). rewrite SetDirty_put. fold e.
  assert (IsFresh e = true -> coins_of (base c) o = None) as HF.
  { unfold e. destruct (cacheCoins c !! o) as [e'|] eqn:E; [|done]. cbn. intros F. by apply (co_entry c Hc o e' E). }
  assert (negb po && negb (IsSpent (coin e)) = false) as ->.
  { destruct po; [done|]. destruct Hpo as [|Hn]; [done|]. cbn. unfold e. unfold coins in Hn. destruct (cacheCoins c !! o); [|done].
    cbn. apply unspent_None in Hn. by rewrite Hn. }
  destruct (if po then false else negb (IsDirty e)) eqn:Ef.
  - rewrite SetFresh_put. destruct po; [done|]. destruct Hpo as [|Hn]; [done|]. apply negb_true_iff in Ef.
    assert (coins_of (base c) o = None) as Hb.
    { unfold coins in Hn. unfold e in Ef. destruct (cacheCoins c !! o) as [e'|] eqn:E; [|done]. cbn in Ef.
      destruct (eo_clean _ _ (co_entry c Hc o e' E) Ef) as [_ Hs]. apply unspent_None in Hn. congruence. }
    destruct (ok_put c o (mkEntry x true true) Hc) as [Hc' Hs]; [done|by split|].
    exists (put o (mkEntry x true true) c). split_and!; [done|done|done|done|]. intros o'. rewrite Hs. cbn [coin]. by rewrite unspent_false.
  - destruct (ok_put c o (mkEntry x true (IsFresh e)) Hc) as [Hc' Hs]; [done|by split; cbn; auto|].
    exists (put o (mkEntry x true (IsFresh e)) c). split_and!; [done|done|done|done|]. intros o'. rewrite Hs. cbn [coin]. by rewrite unspent_false.
Qed.

Lemma SetDirty_clear o e c : cacheCoins c !! o = Some e -> set_coin o coinEmpty (SetDirty o c) = put o (mkEntry coinEmpty true (IsFresh e)) c.
Proof.
  intros E. unfold SetDirty, AddFlags, set_coin, put. rewrite E. cbn [cacheCoins flagged hashBlock base default]. rewrite lookup_insert_eq.
  cbn [default coin IsDirty IsFresh]. by rewrite insert_insert_eq, orb_true_r, orb_false_r.
Qed.

Lemma SpendCoin_spec o c : cache_ok c -> exists r c', SpendCoin o c = (r, c') /\ cache_ok c' /\ hashBlock c' = hashBlock c /\
  best_of (base c') = best_of (base c) /\ (r ≫= unspent) = coins c o /\ forall o', coins c' o' = remove_coin o (coins c) o'.
Proof.
  intros Hc. unfold SpendCoin, remove_coin. destruct (FetchCoin_spec o c Hc) as (it & c1 & -> & Hc1 & S & Hit). destruct it as [e|].
  - destruct Hit as [E1 E2]. pose proof (co_entry c1 Hc1 o e E1) as He. exists (Some (coin e)). destruct (IsFresh e) eqn:F.
    + exists (erase o c1). destruct (ok_erase c1 o Hc1) as [Hc2 S2]. split_and!; [done|done|apply S|apply S|done|].
      intros o'. rewrite S2, (same_coins _ _ S). destruct (eo_fresh _ _ He F) as [-> _]. done.
    + rewrite (SetDirty_clear o e c1 E1), F. destruct (ok_put c1 o (mkEntry coinEmpty true false) Hc1) as [Hc2 S2]; [done|by split|].
      exists (put o (mkEntry coinEmpty true false) c1). split_and!; [done|done|apply S|apply S|done|].
      intros o'. rewrite S2, (same_coins _ _ S). done.
  - exists None, c1. split_and!; [done|done|apply S|apply S|by destruct Hit|]. intros o'. rewrite (same_coins _ _ S).
    case_decide as E; [subst o'; apply Hit|done].
Qed.

(** An outpoint the cache would notice: it has an entry, or the view below has no coin for
    it.  [AddCoin] then refuses to overwrite. *)
Definition guarded c o : Prop := coins_of (base c) o = None \/ is_Some (cacheCoins c !! o).

Lemma guarded_None c o : coins c o = None -> guarded c o.
Proof. unfold coins, guarded. destruct (cacheCoins c !! o); [intros _; by right|intros ->; by left]. Qed.

Lemma FetchCoin_guarded o c o' : cache_ok c -> guarded c o' -> guarded (FetchCoin o c).2 o'.
Proof.
  intros Hc Hs. unfold FetchCoin. destruct (cacheCoins c !! o) as [e|] eqn:E; [done|].
  destruct (view_get (base c) o (co_base c Hc)) as (v & -> & Hv & _ & Ev). destruct Hs as [Hs|Hs].
  - left. rewrite <- Ev in Hs. destruct (coins_of (base c) o) as [x|] eqn:Ex; [|done].
    cbn [snd]. by rewrite (view_unspent _ _ _ (co_base c Hc) Ex).
  - right. destruct (coins_of (base c) o) as [x|] eqn:Ex; [|done]. cbn [snd]. rewrite (view_unspent _ _ _ (co_base c Hc) Ex).
    unfold set_coin. cbn [cacheCoins]. rewrite lookup_insert_is_Some'. by right.
Qed.

Lemma HaveCoin_guarded o c o' : cache_ok c -> guarded c o' -> guarded (HaveCoin o c).2 o'.
Proof. intros Hc Hs. unfold HaveCoin. pose proof (FetchCoin_guarded o c o' Hc Hs). by destruct (FetchCoin o c). Qed.

Lemma AccessCoin_guarded o c o' : cache_ok c -> guarded c o' -> guarded (AccessCoin o c).2 o'.
Proof. intros Hc Hs. unfold AccessCoin. pose proof (FetchCoin_guarded o c o' Hc Hs). by destruct (FetchCoin o c). Qed.

Lemma GetCoin_guarded o c o' : cache_ok c -> guarded c o' -> guarded (GetCoin o c).2 o'.
Proof. intros Hc Hs. unfold GetCoin. pose proof (FetchCoin_guarded o c o' Hc Hs). by destruct (FetchCoin o c). Qed.

Lemma put_guarded o e c o' : guarded c o' -> guarded (put o e c) o'.
Proof. intros [Hs|Hs]; [by left|right]. cbn [cacheCoins put]. rewrite lookup_insert_is_Some'. by right. Qed.

Lemma SpendCoin_guarded o c o' : cache_ok c -> guarded c o' -> guarded (SpendCoin o c).2 o'.
Proof.
  intros Hc Hs. unfold SpendCoin. pose proof (FetchCoin_guarded o c o' Hc Hs) as Hs1.
  destruct (FetchCoin_spec o c Hc) as (it & c1 & E & Hc1 & _ & Hit). rewrite E in *. cbn [snd] in *. destruct it as [e|]; [|done].
  destruct Hit as [E1 _]. destruct (IsFresh e) eqn:F; cbn [snd].
  - destruct (decide (o' = o)) as [->|Hne]; [left; by apply (eo_fresh _ _ (co_entry c1 Hc1 o e E1))|].
    destruct Hs1 as [Hs1|Hs1]; [by left|right]. cbn [cacheCoins erase]. by rewrite lookup_delete_ne.
  - rewrite (SetDirty_clear o e c1 E1). by apply put_guarded.
Qed.

Lemma AddCoin_guarded o x po c c' o' : AddCoin o x po c = Some c' -> guarded c o' -> guarded c' o'.
Proof.
  unfold AddCoin. destruct (IsSpent x); [done|]. destruct (Script.IsUnspendable _); [by intros [= <-]|]. destruct (_ && _); [done|].
  rewrite SetDirty_put. intros [= <-] Hs. destruct (if po then false else _); [rewrite SetFresh_put|]; by apply put_guarded.
Qed.

(** An overwrite of a coin the cache would notice is refused. *)
Lemma AddCoin_refused o x y c : IsSpent x = false -> Script.IsUnspendable (scriptPubKey (out x)) = false -> guarded c o -> coins c o = Some y ->
  AddCoin o x false c = None.
Proof.
  intros Hx Hu Hs Hy. unfold AddCoin. rewrite Hx, Hu. unfold coins in Hy. destruct (cacheCoins c !! o) as [e|] eqn:E.
  - apply unspent_Some in Hy as [_ Hy]. cbn. by rewrite Hy.
  - destruct Hs as [Hs|[? Hs]]; congruence.
Qed.

Lemma Uncache_spec o c : cache_ok c -> cache_ok (Uncache o c) /\ same c (Uncache o c).
Proof.
  intros Hc. unfold Uncache. destruct (cacheCoins c !! o) as [e|] eqn:E; [|done].
  destruct (negb (IsDirty e) && negb (IsFresh e)) eqn:F; [|done]. apply andb_true_iff in F as [F _]. apply negb_true_iff in F.
  destruct (ok_erase c o Hc) as [Hc' S]. split; [done|]. split; [|done|done]. intros o'. rewrite S.
  case_decide as Eo; [subst o'|done]. unfold coins. rewrite E. destruct (eo_clean _ _ (co_entry c Hc o e E) F) as [-> Hs]. by rewrite unspent_false.
Qed.

Lemma GetBestBlock_spec c : cache_ok c -> exists c', GetBestBlock c = (best c, c') /\ cache_ok c' /\ best c' = best c /\
  forall o, coins c' o = coins c o.
Proof.
  intros Hc. unfold GetBestBlock, best. destruct (N.eqb_spec (hashBlock c) 0) as [E|E].
  - destruct (view_best (base c) (co_base c Hc)) as (v & -> & Hv & Hb & Ev). destruct (ok_base c v Hc Hv Ev) as [[B1 B2 B3 B4] S].
    eexists. split; [done|]. split; [by split|]. split; [|exact S]. cbn [hashBlock base]. rewrite Hb. by destruct (_ =? 0)%N.
  - exists c. split; [done|]. split; [done|]. split; [|done]. by rewrite (proj2 (N.eqb_neq _ _)).
Qed.

Lemma SetBestBlock_spec h c : cache_ok c -> cache_ok (SetBestBlock h c) /\ forall o, coins (SetBestBlock h c) o = coins c o.
Proof. intros [B1 B2 B3 B4]. by split; [split|]. Qed.

(** ** A cache as the view below *)

(** What an entry of a child does to the coins. *)
Definition after_entry (x : COutPoint * CCoinsCacheEntry) (m : COutPoint -> option Coin) (o : COutPoint) : option Coin :=
  if IsDirty x.2 then if decide (o = x.1) then unspent (coin x.2) else m o else m o.

Lemma write_entry_spec x c : cache_ok c -> (IsDirty x.2 = true -> IsFresh x.2 = true -> coins c x.1 = None) ->
  exists c', write_entry x c = Some c' /\ cache_ok c' /\ hashBlock c' = hashBlock c /\ base c' = base c /\
    forall o, coins c' o = after_entry x (coins c) o.
Proof.
  destruct x as [o it]. cbn [fst snd]. intros Hc HF. unfold write_entry, after_entry. cbn [fst snd].
  destruct (IsDirty it) eqn:D; cbn [negb]; [|by exists c]. specialize (HF eq_refl).
  destruct (cacheCoins c !! o) as [us|] eqn:E.
  - pose proof (co_entry c Hc o us E) as He.
    assert (IsFresh it && negb (IsSpent (coin us)) = false) as ->.
    { destruct (IsFresh it); [|done]. specialize (HF eq_refl). unfold coins in HF. rewrite E in HF. apply unspent_None in HF. by rewrite HF. }
    destruct (IsFresh us && IsSpent (coin it)) eqn:F.
    + apply andb_true_iff in F as [F1 F2]. destruct (ok_erase c o Hc) as [Hc' S]. exists (erase o c). split_and!; [done|done|done|done|].
      intros o'. rewrite S. destruct (eo_fresh _ _ He F1) as [-> _]. rewrite (proj2 (unspent_None _) F2). done.
    + rewrite SetDirty_put, E. cbn [default]. destruct (ok_put c o (mkEntry (coin it) true (IsFresh us)) Hc) as [Hc' S]; [done| |].
      { split; cbn; [|done]. intros F1. destruct (eo_fresh _ _ He F1) as [Hb _]. rewrite F1 in F. split; [done|]. by destruct (IsSpent (coin it)). }
      eexists. split; [done|]. split_and!; [done|done|done|]. intros o'. by rewrite S.
  - destruct (IsFresh it && IsSpent (coin it)) eqn:F.
    + apply andb_true_iff in F as [F1 F2]. exists c. split_and!; [done|done|done|done|]. intros o'.
      case_decide as Eo; [subst o'|done]. rewrite (HF F1). symmetry. by apply unspent_None.
    + rewrite SetDirty_put, E. cbn [default IsFresh empty_entry]. destruct (IsFresh it) eqn:F1.
      * rewrite SetFresh_put. destruct (ok_put c o (mkEntry (coin it) true true) Hc) as [Hc' S]; [done| |].
        { specialize (HF eq_refl). unfold coins in HF. rewrite E in HF. by split. }
        eexists. split; [done|]. split_and!; [done|done|done|]. intros o'. by rewrite S.
      * destruct (ok_put c o (mkEntry (coin it) true false) Hc) as [Hc' S]; [done|by split|].
        eexists. split; [done|]. split_and!; [done|done|done|]. intros o'. by rewrite S.
Qed.

Lemma after_batch_cons x es m o : x.1 ∉ es.*1 -> after_batch (x :: es) m o = after_batch es (after_entry x m) o.
Proof.
  destruct x as [o1 e1]. cbn [fst]. intros Hn. unfold after_batch, after_entry. cbn [list_to_map foldr fst snd uncurry].
  destruct (decide (o = o1)) as [->|Hne].
  - rewrite lookup_insert_eq, (not_elem_of_list_to_map_1 (M := gmap COutPoint) es o1) by done. done.
  - rewrite lookup_insert_ne by done. destruct (_ !! o) as [e|]; [|by destruct (IsDirty e1)]. by destruct (IsDirty e), (IsDirty e1).
Qed.

Lemma write_entries_spec es : forall c, cache_ok c -> batch_ok (coins c) es ->
  exists c', write_entries es c = Some c' /\ cache_ok c' /\ base c' = base c /\ forall o, coins c' o = after_batch es (coins c) o.
Proof.
  induction es as [|x es IH]; intros c Hc [Hnd HF]; cbn [write_entries]; [by exists c|].
  cbn [fmap list_fmap] in Hnd. apply NoDup_cons in Hnd as [Hx Hnd].
  destruct (write_entry_spec x c Hc) as (c1 & -> & Hc1 & _ & Hb & S1).
  { intros. apply (HF x.1 x.2); [destruct x; apply list_elem_of_here|done|done]. }
  cbn [mbind option_bind]. destruct (IH c1 Hc1) as (c2 & E2 & Hc2 & Hb2 & S2).
  { split; [done|]. intros o e Hin D F. rewrite S1. unfold after_entry.
    assert (o <> x.1) as Hne by (intros ->; apply Hx; apply list_elem_of_fmap; by exists (x.1, e)).
    rewrite decide_False by done. destruct (IsDirty x.2); apply (HF o e); try done; by apply list_elem_of_further. }
  exists c2. split; [done|]. split; [done|]. split; [congruence|]. intros o. rewrite after_batch_cons, S2 by done.
  unfold after_batch. destruct (_ !! o) as [e|]; [destruct (IsDirty e)|]; [done|apply S1|apply S1].
Qed.

(** ** Writing to the view below *)

Lemma elem_cursor c o e : (o, e) ∈ cursor c <-> o ∈ flagged c /\ cacheCoins c !! o = Some e.
Proof.
  unfold cursor. rewrite list_elem_of_omap. split.
  - intros (o' & Ho & E). destruct (cacheCoins c !! o') as [e'|] eqn:Ee; [|done]. cbn in E. by simplify_eq.
  - intros [Ho E]. exists o. by rewrite E.
Qed.

Lemma cursor_keys c : cache_ok c -> (cursor c).*1 = flagged c.
Proof.
  intros Hc. unfold cursor. assert (forall o, o ∈ flagged c -> is_Some (cacheCoins c !! o)) as Hl.
  { intros o Ho. apply (co_linked c Hc) in Ho as (e & -> & _). done. }
  induction (flagged c) as [|o l IH]; [done|]. cbn [omap list_omap]. destruct (Hl o) as [e ->]; [apply list_elem_of_here|].
  cbn. f_equal. apply IH. intros. apply Hl. by apply list_elem_of_further.
Qed.

Lemma cursor_lookup c o : cache_ok c -> (list_to_map (cursor c) : gmap COutPoint CCoinsCacheEntry) !! o =
  e ← cacheCoins c !! o; if flagged_entry e then Some e else None.
Proof.
  intros Hc. assert (NoDup (cursor c).*1) as Hnd by (rewrite cursor_keys; [apply Hc|done]).
  destruct (cacheCoins c !! o) as [e|] eqn:E; cbn [mbind option_bind].
  - destruct (flagged_entry e) eqn:F.
    + apply elem_of_list_to_map_1; [done|]. apply elem_cursor. split; [|done]. apply (co_linked c Hc). by exists e.
    + apply not_elem_of_list_to_map_1. rewrite cursor_keys by done. rewrite (co_linked c Hc). intros (e' & E' & F'). congruence.
  - apply not_elem_of_list_to_map_1. rewrite cursor_keys by done. rewrite (co_linked c Hc). intros (e' & E' & F'). congruence.
Qed.

Lemma cursor_ok c : cache_ok c -> batch_ok (coins_of (base c)) (cursor c).
Proof.
  intros Hc. split; [rewrite cursor_keys; [apply Hc|done]|]. intros o e [_ E]%elem_cursor _ F. by apply (co_entry c Hc o e E).
Qed.

(** The flagged entries say all that the cache and the view below differ in. *)
Lemma cursor_after c o : cache_ok c -> after_batch (cursor c) (coins_of (base c)) o = coins c o.
Proof.
  intros Hc. unfold after_batch, coins. rewrite cursor_lookup by done. destruct (cacheCoins c !! o) as [e|] eqn:E; cbn [mbind option_bind]; [|done].
  pose proof (co_entry c Hc o e E) as He. rewrite (entry_ok_flagged _ _ He). destruct (IsDirty e) eqn:D; [by rewrite D|].
  destruct (eo_clean _ _ He D) as [-> Hs]. by rewrite unspent_false.
Qed.

Lemma Flush_spec c : cache_ok c -> hashBlock c <> 0%N -> exists c', Flush c = Some c' /\ cache_ok c' /\
  hashBlock c' = hashBlock c /\ best_of (base c') = hashBlock c /\ cacheCoins c' = ∅ /\
  (forall o, coins c' o = coins c o) /\ forall o, coins_of (base c') o = coins c o.
Proof.
  intros Hc Hh. unfold Flush. destruct (view_batch (base c) (cursor c) (hashBlock c)) as (v & -> & Hv & Hb & Ev);
    [apply Hc|by apply cursor_ok|done|]. cbn [mbind option_bind]. eexists. split; [done|].
  assert (forall o, coins_of v o = coins c o) as Ev' by (intros; by rewrite Ev, cursor_after).
  split; [|split_and!; try done; intros o; apply Ev']. split; cbn [base flagged cacheCoins]; [done|constructor| |].
  - intros o. rewrite lookup_empty. split; [by intros ?%not_elem_of_nil|naive_solver].
  - intros o e. by rewrite lookup_empty.
Qed.

Lemma unlink_absent o l : o ∉ l -> unlink o l = l.
Proof.
  unfold unlink. induction l as [|o' l IH]; [done|]. intros Hn. apply not_elem_of_cons in Hn as [Hne Hn].
  rewrite filter_cons_True by done. by rewrite IH.
Qed.

Lemma sync_fold l : forall c, NoDup l -> flagged c = l -> (forall o, o ∈ l -> is_Some (cacheCoins c !! o)) ->
  let c' := fold_left NextAndMaybeErase l c in
  flagged c' = [] /\ hashBlock c' = hashBlock c /\ base c' = base c /\
  forall o, cacheCoins c' !! o = if decide (o ∈ l) then e ← cacheCoins c !! o; if IsSpent (coin e) then None else Some (mkEntry (coin e) false false)
    else cacheCoins c !! o.
Proof.
  induction l as [|o l IH]; intros c Hnd Hl He; cbn [fold_left].
  { by split_and!. }
  apply NoDup_cons in Hnd as [Ho Hnd]. destruct (He o) as [e Ee]; [apply list_elem_of_here|].
  assert (unlink o (flagged c) = l) as Hu.
  { rewrite Hl. unfold unlink. rewrite filter_cons_False by naive_solver. by apply unlink_absent. }
  set (c1 := NextAndMaybeErase c o).
  assert (flagged c1 = l /\ hashBlock c1 = hashBlock c /\ base c1 = base c /\
    forall o', cacheCoins c1 !! o' = if decide (o' = o) then (if IsSpent (coin e) then None else Some (mkEntry (coin e) false false)) else cacheCoins c !! o') as (F1 & F2 & F3 & F4).
  { unfold c1, NextAndMaybeErase. rewrite Ee. destruct (IsSpent (coin e)); unfold erase, SetClean; rewrite ?Ee;
      cbn [flagged hashBlock base cacheCoins]; split_and!; try done; intros o';
      destruct (decide (o' = o)) as [->|Hne]; rewrite ?lookup_delete_eq, ?lookup_insert_eq, ?lookup_delete_ne, ?lookup_insert_ne by done; done. }
  destruct (IH c1) as (G1 & G2 & G3 & G4); [done|done| |].
  { intros o' Ho'. rewrite F4, decide_False by (by intros ->). apply He. by apply list_elem_of_further. }
  split; [done|]. split; [congruence|]. split; [congruence|]. intros o'. rewrite G4, F4. destruct (decide (o' = o)) as [->|Hne].
  - rewrite decide_False by done. rewrite decide_True by apply list_elem_of_here. by rewrite Ee.
  - destruct (decide (o' ∈ l)) as [Hin|Hin].
    + by rewrite decide_True by (by apply list_elem_of_further).
    + rewrite decide_False; [done|]. intros [?|?]%elem_of_cons; done.
Qed.

Lemma Sync_spec c : cache_ok c -> hashBlock c <> 0%N -> exists c', Sync c = Some c' /\ cache_ok c' /\
  hashBlock c' = hashBlock c /\ best_of (base c') = hashBlock c /\ flagged c' = [] /\
  (forall o, coins c' o = coins c o) /\ forall o, coins_of (base c') o = coins c o.
Proof.
  intros Hc Hh. unfold Sync. destruct (view_batch (base c) (cursor c) (hashBlock c)) as (v & -> & Hv & Hb & Ev);
    [apply Hc|by apply cursor_ok|done|]. cbn [mbind option_bind].
  assert (forall o, coins_of v o = coins c o) as Ev' by (intros; by rewrite Ev, cursor_after).
  destruct (sync_fold (flagged c) (mkCache (cacheCoins c) (flagged c) (hashBlock c) v)) as (F1 & F2 & F3 & F4); [apply Hc|done| |].
  { intros o Ho. cbn [cacheCoins]. apply (co_linked c Hc) in Ho as (e & -> & _). done. }
  set (c' := fold_left _ _ _) in *. rewrite F1. cbn [hashBlock base cacheCoins] in *.
  assert (forall o e, cacheCoins c' !! o = Some e -> entry_ok (coins c o) e /\ flagged_entry e = false /\ unspent (coin e) = coins c o) as HE.
  { intros o e. rewrite F4. unfold coins. destruct (cacheCoins c !! o) as [e0|] eqn:E; [|by destruct (decide (o ∈ flagged c))].
    pose proof (co_entry c Hc o e0 E) as He. destruct (decide (o ∈ flagged c)) as [Hin|Hin]; cbn [mbind option_bind].
    - destruct (IsSpent (coin e0)) eqn:S; [done|]. intros [= <-]. rewrite unspent_false by done. by split_and!; [split; cbn| |apply unspent_false].
    - intros [= <-]. destruct (flagged_entry e0) eqn:F.
      { exfalso. apply Hin. apply (co_linked c Hc). by exists e0. }
      rewrite (entry_ok_flagged _ _ He) in F. destruct (eo_clean _ _ He F) as [Hb' Hs]. rewrite unspent_false by done.
      split_and!; [|done|done]. split; [|done]. rewrite (clean_not_fresh _ _ He F). done. }
  exists c'. split; [done|]. assert (forall o, coins c' o = coins c o) as Hco.
  { intros o. unfold coins at 1. destruct (cacheCoins c' !! o) as [e|] eqn:E; [by apply HE|]. rewrite F3. apply Ev'. }
  split; [|split_and!; try done; [by rewrite F3|intros o; rewrite F3; apply Ev']]. split.
  - by rewrite F3.
  - rewrite F1. constructor.
  - intros o. rewrite F1. split; [by intros ?%not_elem_of_nil|]. intros (e & E & F). destruct (HE o e E) as (_ & ? & _). congruence.
  - intros o e E. rewrite F3, Ev'. by apply HE.
Qed.

#[export] Instance CCoinsViewCache_laws : CCoinsViewLaws (CCoinsViewCache V).
Proof.
  refine {| view_ok := cache_ok; coins_of := coins; best_of := best |}.
  - intros c o x. apply coins_unspent.
  - intros c o Hc. destruct (GetCoin_spec o c Hc) as (c' & E & Hc' & [S1 S2 S3]). exists c'. split; [done|]. split; [done|].
    split; [unfold best; by rewrite S2, S3|exact S1].
  - intros c Hc. by apply GetBestBlock_spec.
  - intros c es h Hc Hes Hh. cbn [view_BatchWrite CCoinsViewCache_view]. unfold BatchWrite.
    destruct (write_entries_spec es c Hc Hes) as (c' & -> & Hc' & _ & S). cbn [mbind option_bind].
    destruct (SetBestBlock_spec h c' Hc') as [Hc2 S2]. exists (SetBestBlock h c'). split; [done|]. split; [done|].
    split; [unfold best, SetBestBlock; cbn [hashBlock]; by rewrite (proj2 (N.eqb_neq _ _))|]. intros o. by rewrite S2.
Defined.

Lemma SanityCheck_spec c : cache_ok c -> SanityCheck c = true.
Proof.
  intros Hc. unfold SanityCheck. apply andb_true_iff. split; [apply andb_true_iff; split|].
  - apply forallb_forall. intros [o e] Hin. apply list_elem_of_In, elem_of_map_to_list in Hin. cbn [snd].
    destruct (co_entry c Hc o e Hin) as [F C]. unfold entry_sane. destruct (IsDirty e), (IsFresh e), (IsSpent (coin e)); try done;
      exfalso; naive_solver congruence.
  - apply forallb_forall. intros o Ho. apply list_elem_of_In, (co_linked c Hc) in Ho as (e & -> & F). done.
  - apply Nat.eqb_eq. rewrite <- (length_fmap fst (filter _ _)). apply Permutation_length, NoDup_Permutation.
    + apply Hc.
    + apply NoDup_fmap_fst; [|apply NoDup_filter, NoDup_map_to_list]. intros o e e' [_ E]%list_elem_of_filter [_ E']%list_elem_of_filter.
      apply elem_of_map_to_list in E, E'. congruence.
    + intros o. rewrite (co_linked c Hc), list_elem_of_fmap. split.
      * intros (e & E & F). exists (o, e). split; [done|]. apply list_elem_of_filter. split; [done|]. by apply elem_of_map_to_list.
      * intros ([o' e] & -> & Hin). apply list_elem_of_filter in Hin as [F Hin]. apply elem_of_map_to_list in Hin. by exists e.
Qed.
End CacheLaws.

(** ** The database keeps the promise *)

Section DBLaws.
Context (full : list dbop -> bool).

Definition db_ok (db : CCoinsViewDB) : Prop := map_Forall (fun _ x => IsSpent x = false) (db_coins db) /\ db_heads db = None.

Lemma batches_concat es : forall ops, concat (batches full es ops).1 ++ (batches full es ops).2 = ops ++ flat_map entry_ops es.
Proof.
  induction es as [|x es IH]; intros ops; cbn [batches flat_map]; [by rewrite app_nil_r|]. destruct (full _).
  - specialize (IH []). destruct (batches full es []) as [w r]. cbn [fst snd concat] in *. by rewrite <- !app_assoc, IH.
  - by rewrite IH, <- app_assoc.
Qed.

(** Whole batches written are the first changes and those of some of the entries. *)
Lemma batches_prefix es : forall ops k, (0 < k <= length (batches full es ops).1)%nat ->
  exists es1 es2, es = es1 ++ es2 /\ concat (take k (batches full es ops).1) = ops ++ flat_map entry_ops es1.
Proof.
  induction es as [|x es IH]; intros ops k Hk; cbn [batches] in *; [cbn in Hk; lia|]. destruct (full (ops ++ entry_ops x)).
  - specialize (IH []). destruct (batches full es []) as [w r]. cbn [fst length] in *. destruct k as [|k]; [lia|]. cbn [take concat].
    destruct k as [|k].
    + exists [x], es. split; [done|]. cbn. by rewrite !app_nil_r.
    + destruct (IH (S k) ltac:(lia)) as (es1 & es2 & -> & E). exists (x :: es1), es2. split; [done|]. rewrite E. cbn. by rewrite <- app_assoc.
  - destruct (IH (ops ++ entry_ops x) k Hk) as (es1 & es2 & -> & E). exists (x :: es1), es2. split; [done|]. rewrite E. cbn. by rewrite <- app_assoc.
Qed.

Lemma fold_WriteBatch seq : forall db, fold_left WriteBatch seq db = fold_left apply_op (concat seq) db.
Proof. induction seq as [|ops seq IH]; intros db; [done|]. cbn [fold_left concat]. by rewrite IH, fold_left_app. Qed.

(** The changes of the entries. *)
Lemma entry_ops_spec es : NoDup es.*1 -> forall db, let db' := fold_left apply_op (flat_map entry_ops es) db in
  db_best db' = db_best db /\ db_heads db' = db_heads db /\
  forall o, db_coins db' !! o = after_batch es (fun o => db_coins db !! o) o.
Proof.
  induction es as [|[o e] es IH]; intros Hnd db; [done|]. cbn [fmap list_fmap fst] in Hnd. apply NoDup_cons in Hnd as [Ho Hnd].
  cbn [flat_map]. rewrite fold_left_app. destruct (IH Hnd (fold_left apply_op (entry_ops (o, e)) db)) as (E1 & E2 & E3). cbv zeta in *.
  assert (db_best (fold_left apply_op (entry_ops (o, e)) db) = db_best db /\ db_heads (fold_left apply_op (entry_ops (o, e)) db) = db_heads db /\
    forall o', db_coins (fold_left apply_op (entry_ops (o, e)) db) !! o' = after_entry (o, e) (fun o => db_coins db !! o) o') as (D1 & D2 & D3).
  { unfold entry_ops, after_entry, unspent. cbn [fst snd]. destruct (IsDirty e); [|done]. cbn [fold_left apply_op].
    destruct (IsSpent (coin e)); cbn [apply_op db_best db_heads db_coins]; split_and!; try done; intros o'; case_decide as Eo.
    - subst o'. by rewrite lookup_delete_eq.
    - by rewrite lookup_delete_ne.
    - subst o'. by rewrite lookup_insert_eq.
    - by rewrite lookup_insert_ne. }
  split; [congruence|]. split; [congruence|]. intros o'. rewrite E3, after_batch_cons by done. unfold after_batch.
  destruct (_ !! o') as [e'|]; [destruct (IsDirty e')|]; [done|apply D3|apply D3].
Qed.

(** The database after all the batches. *)
Lemma written_db db es h old : h <> 0%N -> old_tip db h = Some old -> NoDup es.*1 ->
  exists db', DB_BatchWrite full es h db = Some db' /\ db_best db' = Some h /\ db_heads db' = None /\
    forall o, db_coins db' !! o = after_batch es (fun o => db_coins db !! o) o.
Proof.
  intros Hh Ho Hnd. unfold DB_BatchWrite, write_sequence. rewrite (proj2 (N.eqb_neq _ _)) by done. rewrite Ho. cbn [mbind option_bind].
  pose proof (batches_concat es [EraseBest; WriteHeads [h; old]]) as E. destruct (batches full es _) as [w r]. cbn [fst snd] in E.
  eexists. split; [done|]. rewrite fold_WriteBatch, concat_app. cbn [concat]. rewrite app_nil_r, app_assoc, E, !fold_left_app. cbn [fold_left].
  destruct (entry_ops_spec es Hnd (apply_op (apply_op db EraseBest) (WriteHeads [h; old]))) as (E1 & E2 & E3). cbv zeta in *.
  cbn [apply_op db_best db_heads db_coins]. split_and!; try done.
Qed.

Lemma after_batch_unspent es m o x : after_batch es m o = Some x -> (forall x, m o = Some x -> IsSpent x = false) -> IsSpent x = false.
Proof.
  unfold after_batch. intros E Hm. destruct (_ !! o) as [e|]; [|by apply Hm]. destruct (IsDirty e); [|by apply Hm].
  apply unspent_Some in E as [<- ?]. done.
Qed.

#[export] Instance CCoinsViewDB_laws : @CCoinsViewLaws CCoinsViewDB (CCoinsViewDB_view full).
Proof.
  refine {| view_ok := db_ok; coins_of db o := db_coins db !! o; best_of := DB_GetBestBlock |}.
  - intros db o x [Hs _] E. exact (Hs o x E).
  - intros db o Hdb. by exists db.
  - intros db Hdb. by exists db.
  - intros db es h [Hs Hh0] [Hnd _] Hh. destruct (written_db db es h (DB_GetBestBlock db)) as (db' & E & B & Hd & S); [done| |done|].
    { unfold old_tip, GetHeadBlocks. rewrite Hh0. cbn. by destruct (_ =? 0)%N. }
    exists db'. split; [exact E|]. split; [|split; [unfold DB_GetBestBlock; by rewrite B|exact S]]. split; [|done].
    intros o x Ex. rewrite S in Ex. eapply after_batch_unspent; [exact Ex|]. intros y. apply Hs.
Defined.
End DBLaws.

(** A write interrupted after [k] batches leaves a database that says so, and the same
    write again completes it. *)
Lemma interrupted_spec full full' db es h seq k : db_ok db -> NoDup es.*1 -> write_sequence full db es h = Some seq -> (k < length seq)%nat ->
  let db_k := fold_left WriteBatch (take k seq) db in
  ((0 < k)%nat -> DB_GetBestBlock db_k = 0%N /\ GetHeadBlocks db_k = [h; DB_GetBestBlock db]) /\
  exists db1 db2, DB_BatchWrite full es h db = Some db1 /\ DB_BatchWrite full' es h db_k = Some db2 /\
    db_best db1 = Some h /\ db_best db2 = Some h /\ db_heads db1 = None /\ db_heads db2 = None /\ db_coins db1 = db_coins db2.
Proof.
  intros [_ Hh0] Hnd Hseq Hk. assert (h <> 0%N) as Hh by (intros ->; done).
  assert (old_tip db h = Some (DB_GetBestBlock db)) as Ho by (unfold old_tip, GetHeadBlocks; rewrite Hh0; cbn; by destruct (_ =? 0)%N).
  destruct (written_db full db es h _ Hh Ho Hnd) as (db1 & E1 & B1 & H1 & S1).
  unfold write_sequence in Hseq. rewrite (proj2 (N.eqb_neq _ _)), Ho in Hseq by done. cbn [mbind option_bind] in Hseq.
  destruct (batches full es _) as [w r] eqn:Ew. injection Hseq as <-. rewrite length_app in Hk. cbn [length] in Hk. cbv zeta.
  rewrite take_app_le by lia. destruct k as [|k].
  - split; [lia|]. cbn [take fold_left]. destruct (written_db full' db es h _ Hh Ho Hnd) as (db2 & E2 & B2 & H2 & S2).
    exists db1, db2. split_and!; try done. apply map_eq. intros o. by rewrite S1, S2.
  - destruct (batches_prefix full es [EraseBest; WriteHeads [h; DB_GetBestBlock db]] (S k)) as (es1 & es2 & -> & E); [rewrite Ew; cbn; lia|].
    rewrite Ew in E. cbn [fst] in E. rewrite fold_WriteBatch, E, fold_left_app. cbn [fold_left].
    rewrite fmap_app in Hnd. apply NoDup_app in Hnd as (N1 & N12 & N2).
    destruct (entry_ops_spec es1 N1 (apply_op (apply_op db EraseBest) (WriteHeads [h; DB_GetBestBlock db]))) as (F1 & F2 & F3). cbv zeta in *.
    set (db_k := fold_left apply_op (flat_map entry_ops es1) _) in *. cbn [apply_op db_best db_heads db_coins] in *. split.
    { intros _. unfold DB_GetBestBlock at 1, GetHeadBlocks. by rewrite F1, F2. }
    destruct (written_db full' db_k (es1 ++ es2) h (DB_GetBestBlock db) Hh) as (db2 & E2 & B2 & H2 & S2).
    { unfold old_tip, GetHeadBlocks. unfold DB_GetBestBlock at 1. rewrite F1, F2. cbn. by rewrite N.eqb_refl. }
    { rewrite fmap_app. by apply NoDup_app. }
    exists db1, db2. split_and!; try done. apply map_eq. intros o. rewrite S1, S2. unfold after_batch. rewrite list_to_map_app.
    destruct (_ !! o) as [e|] eqn:Eo; [destruct (IsDirty e) eqn:D; [done|]|].
    + rewrite F3. unfold after_batch. destruct (list_to_map es1 !! o) as [e1|] eqn:Eo1; [|done].
      rewrite (lookup_union_Some_l _ _ _ _ Eo1) in Eo. injection Eo as ->. by rewrite D.
    + rewrite F3. unfold after_batch. apply lookup_union_None in Eo as [-> _]. done.
Qed.

(** ** Sequences of operations

    The reference: a finite map of coins and the hash of the best block. *)

Record utxo := mkUtxo { u_coins : gmap COutPoint Coin; u_best : N }.

Inductive op :=
| OpGet (o : COutPoint) | OpHave (o : COutPoint) | OpAdd (o : COutPoint) (x : Coin) (possible_overwrite : bool)
| OpSpend (o : COutPoint) | OpUncache (o : COutPoint) | OpBest | OpSetBest (h : N) | OpFlush | OpSync.

(** What an operation returns: for [SpendCoin] the unspent coin moved out, if any. *)
Inductive seen := SeenCoin (r : option Coin) | SeenBool (b : bool) | SeenHash (h : N) | SeenNothing.

Definition spec_op (a : op) (u : utxo) : seen * utxo :=
  match a with
  | OpGet o => (SeenCoin (u_coins u !! o), u)
  | OpHave o => (SeenBool (bool_decide (is_Some (u_coins u !! o))), u)
  | OpAdd o x _ =>
      (SeenNothing, if Script.IsUnspendable (scriptPubKey (out x)) then u else mkUtxo (<[o := x]> (u_coins u)) (u_best u))
  | OpSpend o => (SeenCoin (u_coins u !! o), mkUtxo (delete o (u_coins u)) (u_best u))
  | OpBest => (SeenHash (u_best u), u)
  | OpSetBest h => (SeenNothing, mkUtxo (u_coins u) h)
  | OpUncache _ | OpFlush | OpSync => (SeenNothing, u)
  end.

(** What the callers must see to: only unspent coins are added, a coin that may be there is
    added with [possible_overwrite], blocks have hashes. *)
Definition op_allowed (a : op) (u : utxo) : Prop :=
  match a with
  | OpAdd o x possible_overwrite => IsSpent x = false /\ (possible_overwrite = true \/ u_coins u !! o = None)
  | OpSetBest h => h <> 0%N
  | _ => True
  end.

Fixpoint spec_run (ops : list op) (u : utxo) : list seen * utxo :=
  match ops with
  | [] => ([], u)
  | a :: ops => let '(r, u) := spec_op a u in let '(rs, u) := spec_run ops u in (r :: rs, u)
  end.

Fixpoint ops_allowed (ops : list op) (u : utxo) : Prop :=
  match ops with
  | [] => True
  | a :: ops => op_allowed a u /\ ops_allowed ops (spec_op a u).2
  end.

Section Run.
Context {V : Type} `{CCoinsViewLaws V}.
Implicit Types (c : CCoinsViewCache V) (u : utxo).

Definition cache_op (a : op) c : option (seen * CCoinsViewCache V) :=
  match a with
  | OpGet o => let '(r, c) := GetCoin o c in Some (SeenCoin r, c)
  | OpHave o => let '(b, c) := HaveCoin o c in Some (SeenBool b, c)
  | OpAdd o x possible_overwrite => c ← AddCoin o x possible_overwrite c; Some (SeenNothing, c)
  | OpSpend o => let '(r, c) := SpendCoin o c in Some (SeenCoin (r ≫= unspent), c)
  | OpUncache o => Some (SeenNothing, Uncache o c)
  | OpBest => let '(h, c) := GetBestBlock c in Some (SeenHash h, c)
  | OpSetBest h => Some (SeenNothing, SetBestBlock h c)
  | OpFlush => c ← Flush c; Some (SeenNothing, c)
  | OpSync => c ← Sync c; Some (SeenNothing, c)
  end.

Fixpoint cache_run (ops : list op) c : option (list seen * CCoinsViewCache V) :=
  match ops with
  | [] => Some ([], c)
  | a :: ops => '(r, c) ← cache_op a c; '(rs, c) ← cache_run ops c; Some (r :: rs, c)
  end.

(** A cache stands for a map. *)
Record stands_for c u : Prop := {
  sf_ok : cache_ok c;
  sf_coins o : coins c o = u_coins u !! o;
  sf_best : hashBlock c = u_best u;
  sf_hash : u_best u <> 0%N
}.

Lemma best_hash c u : stands_for c u -> best c = u_best u.
Proof. intros [_ _ Hb Hh]. unfold best. rewrite Hb, (proj2 (N.eqb_neq _ _)) by done. done. Qed.

Lemma same_stands c c' u : stands_for c u -> cache_ok c' -> same c c' -> stands_for c' u.
Proof. intros [_ S1 S2 S3] Hc [E1 E2 _]. split; [done|intros; by rewrite E1|congruence|done]. Qed.

Lemma cache_op_spec a c u : stands_for c u -> op_allowed a u ->
  exists c', cache_op a c = Some ((spec_op a u).1, c') /\ stands_for c' (spec_op a u).2.
Proof.
  intros Hs Ha. pose proof Hs as [Hc S1 S2 S3]. destruct a as [o|o|o x po|o|o| |h| |]; cbn [cache_op spec_op fst snd op_allowed] in *.
  - destruct (GetCoin_spec o c Hc) as (c' & -> & Hc' & S). exists c'. rewrite S1. split; [done|by eapply same_stands].
  - destruct (HaveCoin_spec o c Hc) as (c' & -> & Hc' & S). exists c'. rewrite S1. split; [done|by eapply same_stands].
  - destruct Ha as [Hx Hpo]. rewrite <- S1 in Hpo. destruct (AddCoin_spec o x po c Hc Hx Hpo) as (c' & -> & Hc' & E1 & E2 & E3).
    exists c'. split; [done|]. unfold add_coin in E3. destruct (Script.IsUnspendable _).
    + split; [done|intros o'; by rewrite E3|congruence|done].
    + split; [done| |cbn; congruence|done]. intros o'. rewrite E3. cbn [u_coins]. case_decide as E; [subst o'; by rewrite lookup_insert_eq|].
      by rewrite lookup_insert_ne.
  - destruct (SpendCoin_spec o c Hc) as (r & c' & -> & Hc' & E1 & _ & E2 & E3). exists c'. rewrite E2, S1. split; [done|].
    split; [done| |cbn; congruence|done]. intros o'. rewrite E3. unfold remove_coin. cbn [u_coins].
    case_decide as E; [subst o'; by rewrite lookup_delete_eq|by rewrite lookup_delete_ne].
  - destruct (Uncache_spec o c Hc) as [Hc' S]. exists (Uncache o c). split; [done|by eapply same_stands].
  - unfold GetBestBlock. rewrite S2, (proj2 (N.eqb_neq _ _)) by done. by exists c.
  - destruct (SetBestBlock_spec h c Hc) as [Hc' S]. exists (SetBestBlock h c). split; [done|]. split; [done|intros; by rewrite S|done|done].
  - destruct (Flush_spec c Hc) as (c' & -> & Hc' & E1 & _ & _ & E2 & _); [congruence|]. exists c'. split; [done|].
    split; [done|intros; by rewrite E2|congruence|done].
  - destruct (Sync_spec c Hc) as (c' & -> & Hc' & E1 & _ & _ & E2 & _); [congruence|]. exists c'. split; [done|].
    split; [done|intros; by rewrite E2|congruence|done].
Qed.

Lemma cache_run_spec ops : forall c u, stands_for c u -> ops_allowed ops u ->
  exists c', cache_run ops c = Some ((spec_run ops u).1, c') /\ stands_for c' (spec_run ops u).2.
Proof.
  induction ops as [|a ops IH]; intros c u Hs Ha; [by exists c|]. destruct Ha as [Ha Hr].
  destruct (cache_op_spec a c u Hs Ha) as (c1 & E1 & Hs1). destruct (IH c1 _ Hs1 Hr) as (c2 & E2 & Hs2). exists c2.
  cbn [cache_run spec_run]. rewrite E1. cbn [mbind option_bind]. rewrite E2. destruct (spec_op a u) as [r u1]. cbn [fst snd] in *.
  by destruct (spec_run ops u1) as [rs u2].
Qed.
End Run.

(** A cache just made over a view. *)
Definition new_cache {V} (v : V) : CCoinsViewCache V := mkCache ∅ [] 0%N v.

Lemma new_cache_ok {V} `{CCoinsViewLaws V} (v : V) : view_ok v -> cache_ok (new_cache v) /\ forall o, coins (new_cache v) o = coins_of v o.
Proof.
  intros Hv. split; [|done]. split; cbn [base flagged cacheCoins new_cache]; [done|constructor| |].
  - intros o. rewrite lookup_empty. split; [by intros ?%not_elem_of_nil|naive_solver].
  - intros o e. by rewrite lookup_empty.
Qed.

(** ** Properties *)

(** C3: A cache of coins, whatever it stands on, is indistinguishable from the plain map of
    unspent outputs, for callers that keep its rules ([ops_allowed]: only unspent coins are
    added, a coin that may be there is added as a possible overwrite, and a best block has
    a hash that is not null).  Every such sequence of reads, additions, spends, removals from
    memory, writes to the view below and changes of the best block returns what the map
    returns, of a spend the unspent coin it moves out, and leaves a cache that stands for the
    resulting map and passes its own sanity check; nothing fails.  What the rules exclude
    can go wrong ([misapplied_fresh]), and the success [SpendCoin] reports says nothing of a
    coin spent before ([spend_twice]).  The view below may be the database, another cache, or any view that
    keeps the promise of [CCoinsViewLaws]. *)
Theorem coins_cache_refines_map {V} `{CCoinsViewLaws V} (ops : list op) (c : CCoinsViewCache V) (u : utxo) :
  stands_for c u -> ops_allowed ops u ->
  exists c', cache_run ops c = Some ((spec_run ops u).1, c') /\ stands_for c' (spec_run ops u).2 /\ SanityCheck c' = true.
Proof.
  intros Hs Ha. destruct (cache_run_spec ops c u Hs Ha) as (c' & E & Hs'). exists c'. split; [done|]. split; [done|].
  apply SanityCheck_spec, Hs'.
Qed.

(** Batches of the database are written after every second change. *)
Definition two_changes (ops : list dbop) : bool := (2 <=? length ops)%nat.

Definition sample_coin (v : Z) : Coin := mkCoin (mkTxOut v [81]) false false 7.
Definition sample_db : CCoinsViewDB := mkDB {[mkOutPoint 1 0 := sample_coin 10; mkOutPoint 2 0 := sample_coin 20]} (Some 5%N) None.
#[local] Existing Instance CCoinsViewDB_view.
#[local] Existing Instance CCoinsViewDB_laws.

(** A cache over a cache over the database. *)
Definition sample_stack : CCoinsViewCache (CCoinsViewCache CCoinsViewDB) := SetBestBlock 5 (new_cache (SetBestBlock 5 (new_cache sample_db))).
Definition sample_ops : list op :=
  [OpSpend (mkOutPoint 1 0); OpAdd (mkOutPoint 3 0) (sample_coin 30) false; OpSetBest 6; OpFlush; OpHave (mkOutPoint 1 0);
   OpGet (mkOutPoint 3 0); OpSpend (mkOutPoint 3 0); OpSync; OpGet (mkOutPoint 2 0); OpBest].

Lemma coins_cache_refines_map_witness :
  exists c', @cache_run _ (@CCoinsViewCache_view _ (CCoinsViewDB_view two_changes)) sample_ops sample_stack =
    Some ([SeenCoin (Some (sample_coin 10)); SeenNothing; SeenNothing; SeenNothing; SeenBool false; SeenCoin (Some (sample_coin 30));
           SeenCoin (Some (sample_coin 30)); SeenNothing; SeenCoin (Some (sample_coin 20)); SeenHash 6], c') /\ SanityCheck c' = true.
Proof.
  edestruct (@coins_cache_refines_map _ _ (@CCoinsViewCache_laws _ _ (CCoinsViewDB_laws two_changes)) sample_ops sample_stack
    (mkUtxo (db_coins sample_db) 5)) as (c' & E & _ & S).
  - assert (@view_ok _ _ (CCoinsViewDB_laws two_changes) sample_db) as Hdb.
    { split; [|done]. unfold sample_db. cbn [db_coins]. intros o x. rewrite lookup_insert_Some, lookup_singleton_Some. naive_solver. }
    destruct (new_cache_ok sample_db Hdb) as [H1 C1]. destruct (SetBestBlock_spec 5 _ H1) as [H2 C2].
    destruct (@new_cache_ok _ _ (@CCoinsViewCache_laws _ _ (CCoinsViewDB_laws two_changes)) _ H2) as [H3 C3]. destruct (SetBestBlock_spec 5 _ H3) as [H4 C4].
    split; [exact H4|intros o; rewrite C4, C3; cbn [coins_of CCoinsViewCache_laws]; by rewrite C2, C1|done|done].
  - vm_compute. repeat split; (by right) || discriminate.
  - exists c'. split; [exact E|exact S].
Defined.

(** Writing a cache out loses nothing: after [Flush] or [Sync] the view below shows
    exactly the coins the cache showed and has its best block, the cache still shows them,
    [Flush] leaves it empty and [Sync] without changes to write. *)
Theorem flush_publishes {V} `{CCoinsViewLaws V} (c : CCoinsViewCache V) : cache_ok c -> hashBlock c <> 0%N ->
  (exists c', Flush c = Some c' /\ cache_ok c' /\ cacheCoins c' = ∅ /\ best_of (base c') = hashBlock c /\
     forall o, coins_of (base c') o = coins c o /\ coins c' o = coins c o) /\
  (exists c', Sync c = Some c' /\ cache_ok c' /\ flagged c' = [] /\ best_of (base c') = hashBlock c /\
     forall o, coins_of (base c') o = coins c o /\ coins c' o = coins c o).
Proof.
  intros Hc Hh. split.
  - destruct (Flush_spec c Hc Hh) as (c' & E & Hc' & _ & Hb & He & H1 & H2). exists c'. by split_and!.
  - destruct (Sync_spec c Hc Hh) as (c' & E & Hc' & _ & Hb & He & H1 & H2). exists c'. by split_and!.
Qed.

Definition dirty_cache : CCoinsViewCache CCoinsViewDB :=
  mkCache {[mkOutPoint 1 0 := mkEntry coinEmpty true false]} [mkOutPoint 1 0] 6 sample_db.

Lemma flush_publishes_witness :
  exists c', @Flush _ (CCoinsViewDB_view two_changes) dirty_cache = Some c' /\ db_coins (base c') !! mkOutPoint 1 0 = None /\
    db_coins (base c') !! mkOutPoint 2 0 = Some (sample_coin 20).
Proof.
  destruct (@flush_publishes _ _ (CCoinsViewDB_laws two_changes) dirty_cache) as [(c' & E & _ & _ & _ & S) _]; [split|done|].
  - split; [|done]. unfold dirty_cache, sample_db. cbn [base db_coins]. intros o x. rewrite lookup_insert_Some, lookup_singleton_Some. naive_solver.
  - apply NoDup_singleton.
  - intros o. cbn [flagged cacheCoins dirty_cache]. rewrite list_elem_of_singleton. split.
    + intros ->. eexists. by rewrite lookup_singleton_eq.
    + intros (e & [<- _]%lookup_singleton_Some & _). done.
  - intros o e. cbn [cacheCoins dirty_cache]. intros [<- <-]%lookup_singleton_Some. split; [done|discriminate].
  - exists c'. split; [exact E|]. split; apply S.
Defined.

(** C20: An interrupted write to the database is noticed and made good.  However many whole
    batches were written before a crash, if any was, the database has no best block and
    names the two blocks it was between; writing the same entries for the same block again,
    in whatever batches, ends in the database an uninterrupted write would have left. *)
Theorem interrupted_write_recovers full full' db es h seq k : db_ok db -> NoDup es.*1 -> write_sequence full db es h = Some seq ->
  (k < length seq)%nat ->
  let db_k := fold_left WriteBatch (take k seq) db in
  ((0 < k)%nat -> DB_GetBestBlock db_k = 0%N /\ GetHeadBlocks db_k = [h; DB_GetBestBlock db]) /\
  exists db', DB_BatchWrite full es h db = Some db' /\ DB_BatchWrite full' es h db_k = Some db'.
Proof.
  intros Hdb Hnd Hs Hk. destruct (interrupted_spec full full' db es h seq k Hdb Hnd Hs Hk) as [HI (db1 & db2 & E1 & E2 & B1 & B2 & H1 & H2 & Ec)].
  cbv zeta. split; [exact HI|]. exists db1. split; [done|]. rewrite E2. destruct db1, db2. cbn in *. congruence.
Qed.

Definition sample_entries : batch :=
  [(mkOutPoint 1 0, mkEntry coinEmpty true false); (mkOutPoint 4 1, mkEntry (sample_coin 40) true true); (mkOutPoint 2 0, mkEntry coinEmpty true false)].

Lemma interrupted_write_recovers_witness :
  exists seq db', write_sequence two_changes sample_db sample_entries 6 = Some seq /\
    GetHeadBlocks (fold_left WriteBatch (take 1 seq) sample_db) = [6; 5]%N /\
    DB_BatchWrite (fun _ => false) sample_entries 6 (fold_left WriteBatch (take 1 seq) sample_db) = Some db' /\
    DB_BatchWrite two_changes sample_entries 6 sample_db = Some db'.
Proof.
  eexists. edestruct (interrupted_write_recovers two_changes (fun _ => false) sample_db sample_entries 6) with (k := 1%nat) as [H1 (db' & E1 & E2)].
  - split; [|done]. unfold sample_db. cbn [db_coins]. intros o x. rewrite lookup_insert_Some, lookup_singleton_Some. naive_solver.
  - vm_compute. repeat constructor; set_solver.
  - vm_compute. reflexivity.
  - cbn. lia.
  - exists db'. split; [vm_compute; reflexivity|]. split; [apply H1; lia|]. split; [exact E2|exact E1].
Defined.

(** The contract of [AddCoin] is needed: a coin the database has, added without
    [possible_overwrite] and spent, is gone from the cache and still in the database after
    the cache is written. *)
Lemma misapplied_fresh :
  let c := @new_cache CCoinsViewDB sample_db in
  exists c1 c2, @AddCoin _ (mkOutPoint 1 0) (sample_coin 10) false c = Some c1 /\
    @Flush _ (CCoinsViewDB_view two_changes) (SetBestBlock 6 (@SpendCoin _ (CCoinsViewDB_view two_changes) (mkOutPoint 1 0) c1).2) = Some c2 /\
    db_coins (base c2) !! mkOutPoint 1 0 = Some (sample_coin 10).
Proof. do 2 eexists. split; [vm_compute; reflexivity|]. split; vm_compute; reflexivity. Qed.

(** [SpendCoin] reports success on a coin the cache holds as spent already. *)
Lemma spend_twice :
  let c := (@SpendCoin _ (CCoinsViewDB_view two_changes) (mkOutPoint 1 0) (new_cache sample_db)).2 in
  (@HaveCoin _ (CCoinsViewDB_view two_changes) (mkOutPoint 1 0) c).1 = false /\
  (@SpendCoin _ (CCoinsViewDB_view two_changes) (mkOutPoint 1 0) c).1 = Some coinEmpty.
Proof. split; vm_compute; reflexivity. Qed.
End Coins.
