(* ===== verification/Compressor.v ===== *)
(** * Stored coins and undo data (compressor.cpp, coins.h, undo.h, txdb.cpp)

    The compact encodings under which unspent outputs are kept in the database and spent
    ones in the undo files: amounts with their trailing zeros removed, the common scripts
    by their hash or key, a coin with its height and flags in one number. *)

From stdpp Require Import gmap list.
From Stdlib Require Import ZArith Lia.
From S2P Require Import Prelude Params Serialize Script OutPoint Transaction Coins.

Open Scope Z_scope.

Module Compressor.
Import Script.Script Transaction.Transaction Coins.Coins.

(** The points of the curve (libsecp256k1): [CPubKey::IsFullyValid] and [CPubKey::Decompress].
    An uncompressed key that is valid is what its compressed form, of the parity of its
    second coordinate, decompresses to. *)
Class PubKeys := { IsFullyValid : list Z -> bool; Decompress : list Z -> option (list Z) }.
Class PubKeysLaws (K : PubKeys) : Prop := {
  decompress_valid x y : length x = 32%nat -> length y = 32%nat -> IsFullyValid (4 :: x ++ y) = true ->
    Decompress ((2 + Z.land (List.last y 0) 1) :: x) = Some (4 :: x ++ y);
}.

(** ** Amounts *)

(** [while (((n % 10) == 0) && e < 9)], from [e] on *)
Fixpoint strip_zeros (rounds : nat) (n e : Z) : Z * Z :=
  match rounds with
  | O => (n, e)
  | S rounds => if n mod 10 =? 0 then strip_zeros rounds (n / 10) (e + 1) else (n, e)
  end.

(** The arithmetic is that of 64-bit unsigned numbers throughout; it is reduced once. *)
Definition CompressAmount (n : Z) : Z :=
  if n =? 0 then 0
  else
    let '(n, e) := strip_zeros 9 n 0 in
    if e <? 9 then u64 (1 + (n / 10 * 9 + n mod 10 - 1) * 10 + e) else u64 (1 + (n - 1) * 10 + 9).

Fixpoint put_zeros (e : nat) (n : Z) : Z := match e with O => n | S e => put_zeros e (u64 (n * 10)) end.

Definition DecompressAmount (x : Z) : Z :=
  if x =? 0 then 0
  else
    let x := x - 1 in
    let e := x mod 10 in
    let x := x / 10 in
    put_zeros (Z.to_nat e) (if e <? 9 then u64 (x / 9 * 10 + (x mod 9 + 1)) else u64 (x + 1)).

(** [AmountCompression] on a [CAmount] *)
Definition amount_codec : codec Z :=
  mkCodec (fun v => WriteVarInt 64 (CompressAmount (u64 v)))
          (fun s : stream => '(v, s) ← ReadVarInt 64 s; Some (i64 (DecompressAmount v), s))
          (fun v => 0 <= v <= MAX_MONEY).

(** ** Scripts *)

Section Scripts.
Context `{PubKeys}.

Definition IsToKeyID (script : list Z) : option (list Z) :=
  if (size script =? 25) && (at_ script 0 =? OP_DUP) && (at_ script 1 =? OP_HASH160) && (at_ script 2 =? 20) &&
     (at_ script 23 =? OP_EQUALVERIFY) && (at_ script 24 =? OP_CHECKSIG)
  then Some (take 20 (drop 3 script)) else None.

Definition IsToScriptID (script : list Z) : option (list Z) :=
  if (size script =? 23) && (at_ script 0 =? OP_HASH160) && (at_ script 1 =? 20) && (at_ script 22 =? OP_EQUAL)
  then Some (take 20 (drop 2 script)) else None.

(** [CPubKey::Set] keeps the bytes: the first one announces their number. *)
Definition IsToPubKey (script : list Z) : option (list Z) :=
  if (size script =? 35) && (at_ script 0 =? 33) && (at_ script 34 =? OP_CHECKSIG) && ((at_ script 1 =? 2) || (at_ script 1 =? 3))
  then Some (take 33 (drop 1 script))
  else if (size script =? 67) && (at_ script 0 =? 65) && (at_ script 66 =? OP_CHECKSIG) && (at_ script 1 =? 4)
  then let pubkey := take 65 (drop 1 script) in if IsFullyValid pubkey then Some pubkey else None
  else None.

Definition CompressScript (script : list Z) : option (list Z) :=
  match IsToKeyID script with
  | Some keyID => Some (0 :: keyID)
  | None =>
      match IsToScriptID script with
      | Some scriptID => Some (1 :: scriptID)
      | None =>
          match IsToPubKey script with
          | Some pubkey =>
              if (at_ pubkey 0 =? 2) || (at_ pubkey 0 =? 3) then Some (at_ pubkey 0 :: take 32 (drop 1 pubkey))
              else if at_ pubkey 0 =? 4 then Some (Z.lor 4 (Z.land (at_ pubkey 64) 1) :: take 32 (drop 1 pubkey))
              else None
          | None => None
          end
      end
  end.

Definition GetSpecialScriptSize (nSize : Z) : nat :=
  if (nSize =? 0) || (nSize =? 1) then 20
  else if (nSize =? 2) || (nSize =? 3) || (nSize =? 4) || (nSize =? 5) then 32
  else 0.

(** The script afterwards, unchanged on failure, and the value returned *)
Definition DecompressScript (script : list Z) (nSize : Z) (in_ : list Z) : list Z * bool :=
  if nSize =? 0 then ([OP_DUP; OP_HASH160; 20] ++ take 20 in_ ++ [OP_EQUALVERIFY; OP_CHECKSIG], true)
  else if nSize =? 1 then ([OP_HASH160; 20] ++ take 20 in_ ++ [OP_EQUAL], true)
  else if (nSize =? 2) || (nSize =? 3) then ([33; nSize] ++ take 32 in_ ++ [OP_CHECKSIG], true)
  else if (nSize =? 4) || (nSize =? 5) then
    match Decompress ((nSize - 2) :: take 32 in_) with
    | None => (script, false)
    | Some pubkey => ([65] ++ pubkey ++ [OP_CHECKSIG], true)
    end
  else (script, false).

Definition nSpecialScripts : Z := 6.

Definition ScriptCompression_Ser (script : list Z) : stream :=
  match CompressScript script with
  | Some compr => compr
  | None => WriteVarInt 32 (u32 (size script + nSpecialScripts)) ++ script
  end.

(** Into an empty script; [s.ignore] throws at the end of the data. *)
Definition ScriptCompression_Unser (s : stream) : option (list Z * stream) :=
  '(nSize, s) ← ReadVarInt 32 s;
  if nSize <? nSpecialScripts then
    '(vch, s) ← read (GetSpecialScriptSize nSize) s;
    Some ((DecompressScript [] nSize vch).1, s)
  else
    let nSize := nSize - nSpecialScripts in
    if MAX_SCRIPT_SIZE <? nSize then '(_, s) ← read (Z.to_nat nSize) s; Some ([OP_RETURN], s)
    else read (Z.to_nat nSize) s.

Definition script_codec : codec (list Z) :=
  mkCodec ScriptCompression_Ser ScriptCompression_Unser (fun script => Forall byte_ok script /\ size script <= MAX_SCRIPT_SIZE).

(** ** Outputs, coins and undo data *)

(** [TxOutCompression] *)
Definition TxOutCompression : codec CTxOut :=
  class_codec (fun o => (nValue o, scriptPubKey o)) (fun '(v, s) => mkTxOut v s) (pair_codec amount_codec script_codec).

(** The height, a bit field of 30, and the flags of a coin *)
Definition coin_code (c : Coin) : Z := u32 (u32 (Z.shiftl (nHeight c) 2) + (if fCoinBase c then 1 else 0) + (if fCoinStake c then 2 else 0)).
Definition code_height (code : Z) : Z := Z.shiftr code 2.
Definition code_coinbase (code : Z) : bool := negb (Z.land code 1 =? 0).
Definition code_coinstake (code : Z) : bool := negb (Z.land (Z.shiftr code 1) 1 =? 0).

Definition coin_valid (c : Coin) : Prop := 0 <= nHeight c < 2 ^ 30 /\ valid TxOutCompression (out c).

(** [Coin::Serialize] asserts that the coin is not spent. *)
Definition coin_codec : codec Coin :=
  mkCodec (fun c => WriteVarInt 32 (coin_code c) ++ enc TxOutCompression (out c))
          (fun s : stream => '(code, s) ← ReadVarInt 32 s;
             '(o, s) ← dec TxOutCompression s;
             Some (mkCoin o (code_coinbase code) (code_coinstake code) (code_height code), s))
          (fun c => IsSpent c = false /\ coin_valid c).

(** [TxInUndoFormatter]: a zero where older versions kept the version of the transaction *)
Definition undo_codec : codec Coin :=
  mkCodec (fun c => WriteVarInt 32 (coin_code c) ++ (if 0 <? nHeight c then enc u8_codec 0 else []) ++ enc TxOutCompression (out c))
          (fun s : stream => '(code, s) ← ReadVarInt 32 s;
             '(_, s) ← (if 0 <? code_height code then ReadVarInt 32 s else Some (0, s));
             '(o, s) ← dec TxOutCompression s;
             Some (mkCoin o (code_coinbase code) (code_coinstake code) (code_height code), s))
          coin_valid.

(** [CTxUndo] and [CBlockUndo] *)
Definition tx_undo_codec : codec (list Coin) := vector_codec undo_codec.
Definition block_undo_codec : codec (list (list Coin)) := vector_codec tx_undo_codec.
End Scripts.

Definition DB_COIN : Z := 67.
(** The key of a coin in the database *)
Definition CoinEntry : codec COutPoint :=
  mkCodec (fun o => enc u8_codec DB_COIN ++ enc (id_codec 32) (hash o) ++ WriteVarInt 32 (n o))
          (fun s : stream => '(_, s) ← dec u8_codec s; '(h, s) ← dec (id_codec 32) s; '(k, s) ← ReadVarInt 32 s; Some (mkOutPoint h k, s))
          (fun o => valid (id_codec 32) (hash o) /\ in_u32 (n o)).

(** ** Amounts are read back *)

Lemma strip_zeros_spec k : forall n e, 0 < n -> exists n' j, strip_zeros k n e = (n', e + Z.of_nat j) /\ (j <= k)%nat /\ 0 < n' /\
  n = n' * 10 ^ Z.of_nat j /\ ((j < k)%nat -> n' mod 10 <> 0).
Proof.
  induction k as [|k IH]; intros n e Hn; cbn [strip_zeros].
  { exists n, 0%nat. rewrite Z.add_0_r. split_and!; try done; lia. }
  destruct (Z.eqb_spec (n mod 10) 0) as [H0|H0].
  - pose proof (Z.div_mod n 10 ltac:(lia)) as HD. destruct (IH (n / 10) (e + 1)) as (n' & j & -> & Hj & Hp & E & Hm); [lia|].
    exists n', (S j). split; [f_equal; lia|]. split; [lia|]. split; [done|]. split; [|intros; apply Hm; lia].
    rewrite Nat2Z.inj_succ, Z.pow_succ_r by lia. rewrite HD, E. lia.
  - exists n, 0%nat. rewrite Z.add_0_r. split_and!; try done; lia.
Qed.

Lemma put_zeros_spec j : forall n, 0 <= n -> n * 10 ^ Z.of_nat j < 2 ^ 64 -> put_zeros j n = n * 10 ^ Z.of_nat j.
Proof.
  induction j as [|j IH]; intros n Hn Hlt; cbn [put_zeros]; [cbn; lia|]. rewrite Nat2Z.inj_succ, Z.pow_succ_r in * by lia.
  pose proof (Z.pow_pos_nonneg 10 (Z.of_nat j) ltac:(lia) ltac:(lia)). rewrite u64_id by (unfold in_u64; nia). rewrite IH by nia. lia.
Qed.

Lemma amount_roundtrip n : 0 <= n < 2 ^ 60 -> 0 <= CompressAmount n < 2 ^ 64 /\ DecompressAmount (CompressAmount n) = n.
Proof.
  intros Hn. unfold CompressAmount. destruct (Z.eqb_spec n 0) as [->|H0]; [done|].
  destruct (strip_zeros_spec 9 n 0 ltac:(lia)) as (m & j & -> & Hj & Hm & E & Hd). rewrite Z.add_0_l.
  pose proof (Z.pow_pos_nonneg 10 (Z.of_nat j) ltac:(lia) ltac:(lia)) as HP. assert (m <= n) by nia.
  pose proof (Z.div_mod m 10 ltac:(lia)) as HD. pose proof (Z.mod_pos_bound m 10 ltac:(lia)) as HB.
  destruct (Z.ltb_spec (Z.of_nat j) 9) as [Hlt|Hge].
  - specialize (Hd ltac:(lia)). set (q := m / 10) in *. set (d := m mod 10) in *. assert (0 <= q) by nia.
    rewrite u64_id by (unfold in_u64; lia). split; [lia|]. unfold DecompressAmount.
    rewrite (proj2 (Z.eqb_neq _ 0)) by lia. cbv zeta.
    assert ((1 + (q * 9 + d - 1) * 10 + Z.of_nat j - 1) mod 10 = Z.of_nat j) as -> by (symmetry; apply (Z.mod_unique_pos _ _ (q * 9 + d - 1)); lia).
    assert ((1 + (q * 9 + d - 1) * 10 + Z.of_nat j - 1) / 10 = q * 9 + d - 1) as -> by (symmetry; apply (Z.div_unique_pos _ _ _ (Z.of_nat j)); lia).
    rewrite (proj2 (Z.ltb_lt _ _)) by lia.
    assert ((q * 9 + d - 1) / 9 = q) as -> by (symmetry; apply (Z.div_unique_pos _ _ _ (d - 1)); lia).
    assert ((q * 9 + d - 1) mod 9 = d - 1) as -> by (symmetry; apply (Z.mod_unique_pos _ _ q); lia).
    rewrite u64_id by (unfold in_u64; lia). rewrite Nat2Z.id. replace (q * 10 + (d - 1 + 1)) with m by lia. rewrite put_zeros_spec by lia. done.
  - assert (j = 9%nat) as -> by lia. change (Z.of_nat 9) with 9 in *. rewrite u64_id by (unfold in_u64; lia). split; [lia|]. unfold DecompressAmount.
    rewrite (proj2 (Z.eqb_neq _ 0)) by lia. cbv zeta.
    assert ((1 + (m - 1) * 10 + 9 - 1) mod 10 = 9) as -> by (symmetry; apply (Z.mod_unique_pos _ _ (m - 1)); lia).
    assert ((1 + (m - 1) * 10 + 9 - 1) / 10 = m - 1) as -> by (symmetry; apply (Z.div_unique_pos _ _ _ 9); lia).
    cbn [Z.ltb Z.compare Pos.compare Pos.compare_cont]. rewrite u64_id by (unfold in_u64; lia). replace (m - 1 + 1) with m by lia.
    change (Z.to_nat 9) with 9%nat. rewrite put_zeros_spec; [done|lia|]. change (Z.of_nat 9) with 9. lia.
Qed.

#[export] Instance amount_codec_roundtrip : RoundTrip amount_codec.
Proof.
  intros v rest Hv. cbn [valid amount_codec] in Hv. assert (0 <= v < 2 ^ 60) as Hb by (change MAX_MONEY with 10782240625000000 in Hv; lia).
  destruct (amount_roundtrip v Hb) as [Hc Hd]. cbn [enc dec amount_codec]. rewrite u64_id by (unfold in_u64; lia).
  etransitivity; [rewrite varint_roundtrip_at by (lia || done); cbn [mbind option_bind]; reflexivity|]. rewrite Hd, i64_id by (unfold in_i64; lia). done.
Qed.

(** ** Scripts are read back *)

Lemma last_two (l : list Z) k : length l = (k + 2)%nat -> l = take k l ++ [at_ l k; at_ l (S k)].
Proof.
  intros Hl. rewrite <- (take_drop k l) at 1. f_equal. assert (Hd : length (drop k l) = 2%nat) by (rewrite length_drop; lia).
  unfold at_. replace (nth k l 0) with (nth 0 (drop k l) 0) by (rewrite nth_skipn; f_equal; lia).
  replace (nth (S k) l 0) with (nth 1 (drop k l) 0) by (rewrite nth_skipn; f_equal; lia). by destruct (drop k l) as [|a [|b [|]]].
Qed.

Lemma last_one (l : list Z) k : length l = S k -> l = take k l ++ [at_ l k].
Proof.
  intros Hl. rewrite <- (take_drop k l) at 1. f_equal. assert (Hd : length (drop k l) = 1%nat) by (rewrite length_drop; lia).
  unfold at_. replace (nth k l 0) with (nth 0 (drop k l) 0) by (rewrite nth_skipn; f_equal; lia). by destruct (drop k l) as [|a [|]].
Qed.

Section ScriptLaws.
Context {K : PubKeys} {L : PubKeysLaws K}.

Lemma IsToKeyID_spec s h : IsToKeyID s = Some h -> length h = 20%nat /\ s = [OP_DUP; OP_HASH160; 20] ++ h ++ [OP_EQUALVERIFY; OP_CHECKSIG].
Proof.
  unfold IsToKeyID. destruct s as [|a [|b [|c r]]]; try done. unfold size. cbn [length at_ nth drop]. rewrite ?drop_0.
  destruct (_ && _) eqn:E; [|done]. intros [= <-]. rewrite !andb_true_iff, !Z.eqb_eq in E. destruct E as [[[[[Hl ->] ->] ->] H1] H2].
  rewrite length_take. split; [lia|]. cbn [app]. do 3 f_equal. rewrite <- H1, <- H2. apply (last_two r 20). lia.
Qed.

Lemma IsToScriptID_spec s h : IsToScriptID s = Some h -> length h = 20%nat /\ s = [OP_HASH160; 20] ++ h ++ [OP_EQUAL].
Proof.
  unfold IsToScriptID. destruct s as [|a [|b r]]; try done. unfold size. cbn [length at_ nth drop]. rewrite ?drop_0.
  destruct (_ && _) eqn:E; [|done]. intros [= <-]. rewrite !andb_true_iff, !Z.eqb_eq in E. destruct E as [[[Hl ->] ->] H1].
  rewrite length_take. split; [lia|]. cbn [app]. do 2 f_equal. rewrite <- H1. apply (last_one r 20). lia.
Qed.

Lemma IsToPubKey_spec s pk : IsToPubKey s = Some pk ->
  (exists b x, (b = 2 \/ b = 3) /\ pk = b :: x /\ length x = 32%nat /\ s = [33; b] ++ x ++ [OP_CHECKSIG]) \/
  (exists x y, pk = 4 :: x ++ y /\ length x = 32%nat /\ length y = 32%nat /\ IsFullyValid pk = true /\ s = [65] ++ pk ++ [OP_CHECKSIG]).
Proof.
  unfold IsToPubKey. destruct s as [|a [|b r]]; try done. unfold size. cbn [length at_ nth drop]. rewrite ?drop_0.
  destruct ((_ =? 35) && _ && _ && _) eqn:E.
  - intros [= <-]. rewrite !andb_true_iff, orb_true_iff, !Z.eqb_eq in E. destruct E as [[[Hl ->] H1] H2]. left. exists b, (take 32 r).
    split; [done|]. split; [done|]. rewrite length_take. split; [lia|]. cbn [app]. do 2 f_equal. rewrite <- H1. apply (last_one r 32). lia.
  - clear E. destruct ((_ =? 67) && _ && _ && _) eqn:E; [|done]. rewrite !andb_true_iff, !Z.eqb_eq in E. destruct E as [[[Hl ->] H1] ->].
    destruct (IsFullyValid _) eqn:EV; [|done]. intros [= <-]. right. exists (take 32 r), (take 32 (drop 32 r)). cbn [take] in *.
    assert (HT : take 64 r = take 32 r ++ take 32 (drop 32 r)).
    { rewrite <- (take_drop 32 (take 64 r)), take_take, skipn_firstn_comm. f_equal. }
    rewrite <- HT. rewrite !length_take, length_drop. split; [done|]. split; [lia|]. split; [lia|]. split; [done|]. cbn [app]. do 2 f_equal.
    rewrite <- H1. apply (last_one r 64). lia.
Qed.

(** A compressed script: the first byte, and the bytes its kind has *)
Lemma compress_spec s compr : CompressScript s = Some compr ->
  exists b l, compr = b :: l /\ 0 <= b < 6 /\ length l = GetSpecialScriptSize b /\ (DecompressScript [] b l).1 = s.
Proof.
  unfold CompressScript. destruct (IsToKeyID s) as [h|] eqn:E1.
  { intros [= <-]. destruct (IsToKeyID_spec s h E1) as [Hl ->]. exists 0, h. split_and!; try done. cbn [DecompressScript Z.eqb fst]. by rewrite take_ge by lia. }
  destruct (IsToScriptID s) as [h|] eqn:E2.
  { intros [= <-]. destruct (IsToScriptID_spec s h E2) as [Hl ->]. exists 1, h. split_and!; try done. cbn. by rewrite take_ge by lia. }
  destruct (IsToPubKey s) as [pk|] eqn:E3; [|done].
  destruct (IsToPubKey_spec s pk E3) as [(b & x & Hb & -> & Hx & ->)|(x & y & -> & Hx & Hy & HV & ->)]; cbn [at_ nth drop]; rewrite ?drop_0.
  - assert ((b =? 2) || (b =? 3) = true) as -> by (destruct Hb as [-> | ->]; done). intros [= <-]. exists b, (take 32 x). rewrite take_ge by lia.
    split; [done|]. split; [lia|]. destruct Hb as [-> | ->]; (split; [done|]); cbn; by rewrite take_ge by lia.
  - cbn [Z.eqb Pos.eqb orb]. intros [= <-]. assert (Hlast : nth 63 (x ++ y) 0 = List.last y 0).
    { rewrite app_nth2 by lia. rewrite Hx. rewrite (last_one y 31 Hy) at 2. rewrite List.last_last. done. }
    rewrite Hlast. assert (HP : Z.land (List.last y 0) 1 = 0 \/ Z.land (List.last y 0) 1 = 1).
    { pose proof (Z.land_ones (List.last y 0) 1 ltac:(lia)) as HO. change (Z.ones 1) with 1 in HO. rewrite HO. pose proof (Z.mod_pos_bound (List.last y 0) (2 ^ 1) ltac:(lia)). lia. }
    pose proof (decompress_valid x y Hx Hy HV) as HD.
    exists (Z.lor 4 (Z.land (List.last y 0) 1)), x. rewrite take_app_le, take_ge by lia. split; [done|].
    destruct HP as [EP|EP]; rewrite EP in *; [change (Z.lor 4 0) with 4|change (Z.lor 4 1) with 5]; (split; [done|]; split; [done|]); cbn [DecompressScript Z.eqb Pos.eqb orb]; rewrite take_ge by lia.
    + change (4 - 2) with (2 + 0). by rewrite HD.
    + change (5 - 2) with (2 + 1). by rewrite HD.
Qed.

#[export] Instance script_codec_roundtrip : RoundTrip script_codec.
Proof.
  intros s rest [Hb Hs]. cbn [enc dec script_codec]. unfold ScriptCompression_Ser, ScriptCompression_Unser. destruct (CompressScript s) as [compr|] eqn:E.
  - destruct (compress_spec s compr E) as (b & l & -> & Hr & Hl & Hd).
    assert (HV : WriteVarInt 32 b = [b]) by (assert (b = 0 \/ b = 1 \/ b = 2 \/ b = 3 \/ b = 4 \/ b = 5) as [->|[->|[->|[->|[->| ->]]]]] by lia; reflexivity).
    etransitivity; [change ((b :: l) ++ rest) with ([b] ++ (l ++ rest)); rewrite <- HV, varint_roundtrip_at by lia; cbn [mbind option_bind]; reflexivity|].
    rewrite (proj2 (Z.ltb_lt _ _)) by (unfold nSpecialScripts; lia). rewrite read_app by done. cbn [mbind option_bind]. by rewrite Hd.
  - unfold size in *. unfold MAX_SCRIPT_SIZE, nSpecialScripts in *. rewrite u32_id by (unfold in_u32; lia). rewrite <- app_assoc.
    etransitivity; [rewrite varint_roundtrip_at by lia; cbn [mbind option_bind]; reflexivity|].
    rewrite (proj2 (Z.ltb_ge _ _)) by lia. cbv zeta. rewrite (proj2 (Z.ltb_ge _ _)) by lia. apply read_app. lia.
Qed.
End ScriptLaws.

(** ** Coins and undo data are read back *)

Lemma coin_code_spec c : 0 <= nHeight c < 2 ^ 30 ->
  0 <= coin_code c < 2 ^ 32 /\ code_height (coin_code c) = nHeight c /\ code_coinbase (coin_code c) = fCoinBase c /\ code_coinstake (coin_code c) = fCoinStake c.
Proof.
  intros Hh. unfold coin_code, code_height, code_coinbase, code_coinstake. rewrite Z.shiftl_mul_pow2 by lia. change (2 ^ 2) with 4.
  rewrite (u32_id (nHeight c * 4)) by (unfold in_u32; lia). rewrite u32_id by (unfold in_u32; repeat case_match; lia).
  assert (HL : forall a, Z.land a 1 = a mod 2) by (intros a; apply (Z.land_ones a 1); lia). rewrite !HL, !Z.shiftr_div_pow2 by lia. change (2 ^ 2) with 4. change (2 ^ 1) with 2.
  set (a := if fCoinBase c then 1 else 0). set (b := if fCoinStake c then 2 else 0).
  assert (0 <= a <= 1) by (unfold a; case_match; lia). assert (b = 0 \/ b = 2) by (unfold b; case_match; lia).
  split; [lia|]. split; [symmetry; apply (Z.div_unique_pos _ _ _ (a + b)); lia|].
  assert ((nHeight c * 4 + a + b) mod 2 = a) as -> by (symmetry; apply (Z.mod_unique_pos _ _ (nHeight c * 2 + b / 2)); [lia|]; destruct H0 as [-> | ->]; [change (0 / 2) with 0|change (2 / 2) with 1]; lia).
  assert (((nHeight c * 4 + a + b) / 2) mod 2 = b / 2) as ->.
  { assert ((nHeight c * 4 + a + b) / 2 = nHeight c * 2 + b / 2) as -> by (symmetry; apply (Z.div_unique_pos _ _ _ a); [lia|]; destruct H0 as [-> | ->]; [change (0 / 2) with 0|change (2 / 2) with 1]; lia).
    symmetry. apply (Z.mod_unique_pos _ _ (nHeight c)); destruct H0 as [-> | ->]; [change (0 / 2) with 0|change (2 / 2) with 1|change (0 / 2) with 0|change (2 / 2) with 1]; lia. }
  unfold a, b. split; [by destruct (fCoinBase c)|by destruct (fCoinStake c)].
Qed.

Section Stored.
Context {K : PubKeys} {L : PubKeysLaws K}.

#[export] Instance TxOutCompression_roundtrip : RoundTrip TxOutCompression.
Proof. apply class_roundtrip, pair_roundtrip; apply _. Qed.

#[export] Instance coin_codec_roundtrip : RoundTrip coin_codec.
Proof.
  intros c rest [_ [Hh Ho]]. destruct (coin_code_spec c Hh) as (Hc & E1 & E2 & E3). cbn [enc dec coin_codec]. rewrite <- app_assoc.
  etransitivity; [rewrite varint_roundtrip_at by lia; cbn [mbind option_bind]; rewrite (roundtrip (c := TxOutCompression)) by done; cbn [mbind option_bind]; reflexivity|].
  rewrite E1, E2, E3. by destruct c.
Qed.

#[export] Instance undo_codec_roundtrip : RoundTrip undo_codec.
Proof.
  intros c rest [Hh Ho]. destruct (coin_code_spec c Hh) as (Hc & E1 & E2 & E3). cbn [enc dec undo_codec]. rewrite <- !app_assoc.
  etransitivity; [rewrite varint_roundtrip_at by lia; cbn [mbind option_bind]; rewrite E1; reflexivity|]. destruct (0 <? nHeight c); cbn [mbind option_bind app].
  - change (enc u8_codec 0) with (WriteVarInt 32 0).
    etransitivity; [rewrite varint_roundtrip_at by lia; cbn [mbind option_bind]; rewrite (roundtrip (c := TxOutCompression)) by done; cbn [mbind option_bind]; reflexivity|].
    rewrite E2, E3. by destruct c.
  - rewrite (roundtrip (c := TxOutCompression)) by done. cbn [mbind option_bind]. rewrite E2, E3. by destruct c.
Qed.

#[export] Instance tx_undo_roundtrip : RoundTrip tx_undo_codec.
Proof. apply vector_roundtrip; apply _. Qed.
#[export] Instance block_undo_roundtrip : RoundTrip block_undo_codec.
Proof. apply vector_roundtrip; apply _. Qed.

#[export] Instance CoinEntry_roundtrip : RoundTrip CoinEntry.
Proof.
  intros [h k] rest [Hh Hk]. cbn [enc dec CoinEntry hash n]. rewrite <- !app_assoc.
  rewrite (roundtrip (c := u8_codec)) by (split; done). cbn [mbind option_bind].
  rewrite (roundtrip (c := id_codec 32)) by exact Hh. cbn [mbind option_bind]. unfold in_u32 in Hk. cbn in Hk.
  etransitivity; [rewrite varint_roundtrip_at by (cbn; lia); cbn [mbind option_bind]; reflexivity|done].
Qed.

(** C38: What is stored is read back.  Every coin of a value in the money range, with a height
    of 30 bits and a script a block can hold, is read from its compact encoding with
    its amount, script and flags; so is a whole block's undo data, of which
    [DisconnectBlock] restores the coins; and two coins, or two keys of the database, with
    one encoding are the same.  A script above the maximal size, which nobody can spend, is
    replaced by one that is shorter, and what follows it is read unharmed. *)
Theorem stored_coins_survive c c' undo o o' script rest : valid coin_codec c -> valid coin_codec c' -> valid block_undo_codec undo -> valid CoinEntry o -> valid CoinEntry o' ->
  MAX_SCRIPT_SIZE < Z.of_nat (length script) < 2 ^ 32 - 6 ->
  dec coin_codec (enc coin_codec c ++ rest) = Some (c, rest) /\
  dec block_undo_codec (enc block_undo_codec undo ++ rest) = Some (undo, rest) /\
  (enc coin_codec c = enc coin_codec c' -> c = c') /\ (enc CoinEntry o = enc CoinEntry o' -> o = o') /\
  ScriptCompression_Unser (ScriptCompression_Ser script ++ rest) = Some ([OP_RETURN], rest).
Proof.
  intros Hc Hc' Hu Ho Ho' Hs. split; [by apply roundtrip|]. split; [by apply roundtrip|].
  assert (HI : forall {A} (k : codec A) `{!RoundTrip k} a b, valid k a -> valid k b -> enc k a = enc k b -> a = b).
  { intros A k R a b Ha Hb E. pose proof (roundtrip a [] Ha) as H1. rewrite E, (roundtrip b [] Hb) in H1. by injection H1. }
  split; [exact (HI _ coin_codec _ c c' Hc Hc')|]. split; [exact (HI _ CoinEntry _ o o' Ho Ho')|].
  unfold ScriptCompression_Ser, ScriptCompression_Unser. destruct (CompressScript script) as [compr|] eqn:E.
  { exfalso. unfold CompressScript in E. assert (HN : forall h, IsToKeyID script <> Some h) by (intros h [Hl ->]%IsToKeyID_spec; rewrite !length_app in Hs; cbn in Hs; unfold MAX_SCRIPT_SIZE in Hs; lia).
    assert (HN' : forall h, IsToScriptID script <> Some h) by (intros h [Hl ->]%IsToScriptID_spec; rewrite !length_app in Hs; cbn in Hs; unfold MAX_SCRIPT_SIZE in Hs; lia).
    destruct (IsToKeyID script); [by eapply HN|]. destruct (IsToScriptID script); [by eapply HN'|]. destruct (IsToPubKey script) as [pk|] eqn:E3; [|done].
    destruct (IsToPubKey_spec script pk E3) as [(b & x & _ & _ & Hx & ->)|(x & y & -> & Hx & Hy & _ & ->)];
      repeat (rewrite length_app in Hs || cbn [length] in Hs); unfold MAX_SCRIPT_SIZE in Hs; lia. }
  unfold size, MAX_SCRIPT_SIZE, nSpecialScripts in *. rewrite u32_id by (unfold in_u32; lia). rewrite <- app_assoc.
  etransitivity; [rewrite varint_roundtrip_at by lia; cbn [mbind option_bind]; reflexivity|].
  rewrite (proj2 (Z.ltb_ge _ _)) by lia. cbv zeta. rewrite (proj2 (Z.ltb_lt _ _)) by lia. rewrite read_app by lia. done.
Qed.
End Stored.

(** Toy keys whose second coordinate is 0 or 1, a coin that pays to a key hash at the maximal
    value, and a block that spent it once *)
#[local] Instance toy_keys : PubKeys := {|
  IsFullyValid pk := bool_decide (drop 33 pk = replicate 31 0 ++ [0]) || bool_decide (drop 33 pk = replicate 31 0 ++ [1]);
  Decompress vch := match vch with [] => None | b :: x => Some (4 :: x ++ replicate 31 0 ++ [b - 2]) end
|}.
#[local] Instance toy_keys_laws : PubKeysLaws toy_keys.
Proof.
  constructor. intros x y Hx Hy. cbn [IsFullyValid Decompress toy_keys]. change (drop 33 (4 :: x ++ y)) with (drop 32 (x ++ y)).
  rewrite drop_app_length' by done. rewrite orb_true_iff, !bool_decide_eq_true. intros [-> | ->]; reflexivity.
Qed.
Definition stored_coin : Coin := mkCoin (mkTxOut MAX_MONEY (pay_to_pubkey_hash (replicate 20 7))) false true 1000.

Lemma stored_coins_survive_witness : dec coin_codec (enc coin_codec stored_coin ++ [1]) = Some (stored_coin, [1]) /\
  ScriptCompression_Unser (ScriptCompression_Ser (replicate (Z.to_nat 129001) 0) ++ [1]) = Some ([OP_RETURN], [1]).
Proof.
  assert (valid TxOutCompression (out stored_coin)) as Ho.
  { split; [|reflexivity]. split; [split; discriminate|]. split; [repeat constructor; discriminate|discriminate]. }
  assert (valid coin_codec stored_coin) as Hc by (split; [reflexivity|split; [split; [discriminate|reflexivity]|exact Ho]]).
  assert (valid CoinEntry (mkOutPoint 5 0)) as He by (split; split; (discriminate || reflexivity)).
  assert (valid block_undo_codec [[stored_coin]]) as Hu.
  { split; [|discriminate]. constructor; [|constructor]. split; [|discriminate]. constructor; [|constructor]. split; [split; [discriminate|reflexivity]|exact Ho]. }
  destruct (stored_coins_survive stored_coin stored_coin [[stored_coin]] (mkOutPoint 5 0) (mkOutPoint 5 0) (replicate (Z.to_nat 129001) 0) [1] Hc Hc Hu He He) as (H1 & _ & _ & _ & H2).
  - rewrite length_replicate, Z2Nat.id by discriminate. split; reflexivity.
  - split; [exact H1|exact H2].
Defined.
End Compressor.
