(* ===== verification/Blst.v ===== *)
(** * BLS12-381 signatures: the pairing context

    The pairing context of src/src/blst/src/aggregate.c (initialise, aggregate with
    the key in G1 or in G2, commit, merge, verify) is modelled operation by
    operation, with its control word, its buffer of at most [N_MAX] pairs and its
    lazily computed Miller loops.  The curve and tower arithmetic below it (e1.c,
    e2.c, pairing.c, fp12_tower.c, the second half of hashing to a curve) enters as
    the interface [Curve], whose laws [CurveLaws] are the textbook ones: groups of
    the prime order of Scalar.v, scalar multiplication, and a bilinear,
    non-degenerate pairing.  The language bindings on top are in BlstNode.v. *)

From stdpp Require Import prelude strings list.
From Stdlib Require Import ZArith Lia Zmod.
From S2P Require Import Prelude Serialize Scalar.

Open Scope Z_scope.

(** ** Error codes (blst.hpp.ts, blst.h) *)

Inductive BLST_ERROR :=
  | BLST_SUCCESS
  | BLST_BAD_ENCODING
  | BLST_POINT_NOT_ON_CURVE
  | BLST_POINT_NOT_IN_GROUP
  | BLST_AGGR_TYPE_MISMATCH
  | BLST_VERIFY_FAIL
  | BLST_PK_IS_INFINITY
  | BLST_BAD_SCALAR.

#[export] Instance BLST_ERROR_eq : EqDecision BLST_ERROR.
Proof. solve_decision. Defined.

Definition BLST_ERROR_code (e : BLST_ERROR) : Z :=
  match e with
  | BLST_SUCCESS => 0
  | BLST_BAD_ENCODING => 1
  | BLST_POINT_NOT_ON_CURVE => 2
  | BLST_POINT_NOT_IN_GROUP => 3
  | BLST_AGGR_TYPE_MISMATCH => 4
  | BLST_VERIFY_FAIL => 5
  | BLST_PK_IS_INFINITY => 6
  | BLST_BAD_SCALAR => 7
  end.

(** ** The arithmetic below the pairing context

    A curve point is the point itself, whatever its coordinates: conversions
    between affine and Jacobian coordinates are the identity.  [E1] and [E2] are
    all points of the two curves, in the prime-order subgroup or not; the
    all-zero affine representation is the point at infinity. *)

Class Curve := {
  E1 : Type;
  E2 : Type;
  FP12 : Type;
  #[global] E1_eq :: EqDecision E1;
  #[global] E2_eq :: EqDecision E2;
  #[global] FP12_eq :: EqDecision FP12;
  e1_inf : E1;
  e2_inf : E2;
  POINTonE1_dadd : E1 -> E1 -> E1;
  POINTonE2_dadd : E2 -> E2 -> E2;
  POINTonE1_double : E1 -> E1;
  POINTonE2_double : E2 -> E2;
  POINTonE1_cneg : E1 -> bool -> E1;
  POINTonE2_cneg : E2 -> bool -> E2;
  (** the windowed multiplications, and the ones that use the endomorphism *)
  POINTonE1_mult : E1 -> Z -> E1;
  POINTonE2_mult : E2 -> Z -> E2;
  POINTonE1_mult_glv : E1 -> Z -> E1;
  POINTonE2_mult_gls : E2 -> Z -> E2;
  POINTonE1_on_curve : E1 -> bool;
  POINTonE2_on_curve : E2 -> bool;
  POINTonE1_in_G1 : E1 -> bool;
  POINTonE2_in_G2 : E2 -> bool;
  BLS12_381_G1 : E1;
  BLS12_381_G2 : E2;
  fp12_zero : FP12;
  fp12_one : FP12;
  mul_fp12 : FP12 -> FP12 -> FP12;
  sqr_fp12 : FP12 -> FP12;
  fp12_in_group : FP12 -> bool;
  bendian_from_fp12 : FP12 -> list Z;
  conjugate_fp12 : FP12 -> FP12;
  final_exp : FP12 -> FP12;
  (** the interleaved line evaluations of [n] Miller loops *)
  miller_lines : list (E2 * E1) -> FP12;
  Hash_to_G1 : list Z -> list Z -> list Z -> E1;
  Encode_to_G1 : list Z -> list Z -> list Z -> E1;
  Hash_to_G2 : list Z -> list Z -> list Z -> E2;
  Encode_to_G2 : list Z -> list Z -> list Z -> E2;
  blst_p1_serialize : E1 -> list Z;
  blst_p2_serialize : E2 -> list Z;
  blst_p1_compress : E1 -> list Z;
  blst_p2_compress : E2 -> list Z;
  blst_p1_deserialize : list Z -> E1 + BLST_ERROR;
  blst_p2_deserialize : list Z -> E2 + BLST_ERROR;
  (** the bytes of one member of the signature union read as the other *)
  e1_of_e2_bytes : E2 -> E1;
  e2_of_e1_bytes : E1 -> E2
}.

(** The group order, as a number. *)
Definition BLS12_381_r : Z := Scalar.group_order.

(** ** The pairing context (aggregate.c) *)

Definition N_MAX : nat := 8.

Definition AGGR_UNDEFINED : Z := 0.
Definition AGGR_MIN_SIG : Z := 1.
Definition AGGR_MIN_PK : Z := 2.
Definition AGGR_SIGN_SET : Z := 0x10.
Definition AGGR_GT_SET : Z := 0x20.
Definition AGGR_HASH_OR_ENCODE : Z := 0x40.
Definition MIN_SIG_OR_PK : Z := Z.lor AGGR_MIN_SIG AGGR_MIN_PK.

(** [if (ctrl & flag)] *)
Definition flag (ctrl f : Z) : bool := negb (Z.land ctrl f =? 0).

Section Pairing.
Context {C : Curve}.

Inductive AggregatedSignature :=
  | e1 (p : E1)
  | e2 (q : E2).

Definition AggrSign_e1 (u : AggregatedSignature) : E1 :=
  match u with e1 p => p | e2 q => e1_of_e2_bytes q end.
Definition AggrSign_e2 (u : AggregatedSignature) : E2 :=
  match u with e2 q => q | e1 p => e2_of_e1_bytes p end.

Record PAIRING := mkPAIRING {
  ctrl : Z;
  nelems : nat;
  DST : list Z;
  GT : FP12;
  AggrSign : AggregatedSignature;
  Q : list E2;
  P : list E1
}.

Definition set_ctrl (c : Z) (ctx : PAIRING) : PAIRING :=
  mkPAIRING c (nelems ctx) (DST ctx) (GT ctx) (AggrSign ctx) (Q ctx) (P ctx).
Definition set_nelems (n : nat) (ctx : PAIRING) : PAIRING :=
  mkPAIRING (ctrl ctx) n (DST ctx) (GT ctx) (AggrSign ctx) (Q ctx) (P ctx).
Definition set_GT (g : FP12) (ctx : PAIRING) : PAIRING :=
  mkPAIRING (ctrl ctx) (nelems ctx) (DST ctx) g (AggrSign ctx) (Q ctx) (P ctx).
Definition set_AggrSign (u : AggregatedSignature) (ctx : PAIRING) : PAIRING :=
  mkPAIRING (ctrl ctx) (nelems ctx) (DST ctx) (GT ctx) u (Q ctx) (P ctx).
Definition set_QP (qs : list E2) (ps : list E1) (ctx : PAIRING) : PAIRING :=
  mkPAIRING (ctrl ctx) (nelems ctx) (DST ctx) (GT ctx) (AggrSign ctx) qs ps.

(** The initialiser writes the control word, the counter and the tag; the rest of
    the structure keeps what the memory [mem] held. *)
Definition blst_pairing_init (mem : PAIRING) (hash_or_encode : bool) (dst : list Z) : PAIRING :=
  mkPAIRING (Z.lor AGGR_UNDEFINED (if hash_or_encode then AGGR_HASH_OR_ENCODE else 0))
            0 dst (GT mem) (AggrSign mem) (Q mem) (P mem).

(** pairing.c: a single pair with a point at infinity gives the identity; the
    shared loop is run in every other case. *)
Definition miller_loop_n (qs : list E2) (ps : list E1) (n : nat) : FP12 :=
  let l := zip (take n qs) (take n ps) in
  match l with
  | [(q, p)] => if bool_decide (q = e2_inf) || bool_decide (p = e1_inf)
                then fp12_one else miller_lines l
  | _ => miller_lines l
  end.

(** The block shared by the operations that fold the buffered pairs into [GT]. *)
Definition fold_buffer (n : nat) (ctx : PAIRING) : PAIRING :=
  if flag (ctrl ctx) AGGR_GT_SET
  then set_GT (mul_fp12 (GT ctx) (miller_loop_n (Q ctx) (P ctx) n)) ctx
  else set_ctrl (Z.lor (ctrl ctx) AGGR_GT_SET)
         (set_GT (miller_loop_n (Q ctx) (P ctx) n) ctx).

Definition push_pair (q : E2) (p : E1) (ctx : PAIRING) : PAIRING :=
  let n := nelems ctx in
  let ctx := set_QP (<[n := q]> (Q ctx)) (<[n := p]> (P ctx)) ctx in
  let n := S n in
  if Nat.eqb n N_MAX
  then set_nelems 0 (fold_buffer n ctx)
  else set_nelems n ctx.

(** [nbits != 0 && scalar != NULL]; the scalar is its low [nbits] bits. *)
Definition effective_scalar (scalar : option Z) (nbits : Z) : option Z :=
  match scalar with
  | Some s => if nbits =? 0 then None else Some (s mod 2 ^ nbits)
  | None => None
  end.

Definition scaled1 (p : E1) (k : option Z) : E1 :=
  match k with Some s => POINTonE1_mult p s | None => p end.
Definition scaled2 (q : E2) (k : option Z) : E2 :=
  match k with Some s => POINTonE2_mult q s | None => q end.

(** The part of the two aggregate functions that adds the signature: [None] is
    the error return. *)
Definition add_sig_e1 (sig : option E1) (sig_groupcheck : bool) (k : option Z)
    (ctx : PAIRING) : option PAIRING :=
  match sig with
  | Some s =>
      if bool_decide (s = e1_inf) then Some ctx
      else if sig_groupcheck && negb (POINTonE1_in_G1 s) then None
      else if flag (ctrl ctx) AGGR_SIGN_SET
           then Some (set_AggrSign (e1 (POINTonE1_dadd (AggrSign_e1 (AggrSign ctx)) (scaled1 s k))) ctx)
           else Some (set_AggrSign (e1 (scaled1 s k))
                        (set_ctrl (Z.lor (ctrl ctx) AGGR_SIGN_SET) ctx))
  | None => Some ctx
  end.

Definition add_sig_e2 (sig : option E2) (sig_groupcheck : bool) (k : option Z)
    (ctx : PAIRING) : option PAIRING :=
  match sig with
  | Some s =>
      if bool_decide (s = e2_inf) then Some ctx
      else if sig_groupcheck && negb (POINTonE2_in_G2 s) then None
      else if flag (ctrl ctx) AGGR_SIGN_SET
           then Some (set_AggrSign (e2 (POINTonE2_dadd (AggrSign_e2 (AggrSign ctx)) (scaled2 s k))) ctx)
           else Some (set_AggrSign (e2 (scaled2 s k))
                        (set_ctrl (Z.lor (ctrl ctx) AGGR_SIGN_SET) ctx))
  | None => Some ctx
  end.

Definition PAIRING_Aggregate_PK_in_G2 (ctx : PAIRING)
    (PK : option E2) (pk_groupcheck : bool) (sig : option E1) (sig_groupcheck : bool)
    (scalar : option Z) (nbits : Z) (msg aug : list Z) : PAIRING * BLST_ERROR :=
  if flag (ctrl ctx) AGGR_MIN_PK then (ctx, BLST_AGGR_TYPE_MISMATCH)
  else
    let k := effective_scalar scalar nbits in
    let ctx := set_ctrl (Z.lor (ctrl ctx) AGGR_MIN_SIG) ctx in
    match add_sig_e1 sig sig_groupcheck k ctx with
    | None => (ctx, BLST_POINT_NOT_IN_GROUP)
    | Some ctx =>
        match PK with
        | None => (ctx, BLST_SUCCESS)
        | Some pk =>
            if bool_decide (pk = e2_inf) then (ctx, BLST_PK_IS_INFINITY)
            else if pk_groupcheck && negb (POINTonE2_in_G2 pk) then (ctx, BLST_POINT_NOT_IN_GROUP)
            else
              let H := if flag (ctrl ctx) AGGR_HASH_OR_ENCODE
                       then Hash_to_G1 msg (DST ctx) aug else Encode_to_G1 msg (DST ctx) aug in
              (push_pair pk (scaled1 H k) ctx, BLST_SUCCESS)
        end
    end.

Definition PAIRING_Aggregate_PK_in_G1 (ctx : PAIRING)
    (PK : option E1) (pk_groupcheck : bool) (sig : option E2) (sig_groupcheck : bool)
    (scalar : option Z) (nbits : Z) (msg aug : list Z) : PAIRING * BLST_ERROR :=
  if flag (ctrl ctx) AGGR_MIN_SIG then (ctx, BLST_AGGR_TYPE_MISMATCH)
  else
    let k := effective_scalar scalar nbits in
    let ctx := set_ctrl (Z.lor (ctrl ctx) AGGR_MIN_PK) ctx in
    match add_sig_e2 sig sig_groupcheck k ctx with
    | None => (ctx, BLST_POINT_NOT_IN_GROUP)
    | Some ctx =>
        match PK with
        | None => (ctx, BLST_SUCCESS)
        | Some pk =>
            if bool_decide (pk = e1_inf) then (ctx, BLST_PK_IS_INFINITY)
            else if pk_groupcheck && negb (POINTonE1_in_G1 pk) then (ctx, BLST_POINT_NOT_IN_GROUP)
            else
              let H := if flag (ctrl ctx) AGGR_HASH_OR_ENCODE
                       then Hash_to_G2 msg (DST ctx) aug else Encode_to_G2 msg (DST ctx) aug in
              (push_pair H (scaled1 pk k) ctx, BLST_SUCCESS)
        end
    end.

Definition blst_pairing_aggregate_pk_in_g2 ctx PK sig msg aug :=
  PAIRING_Aggregate_PK_in_G2 ctx PK false sig true None 0 msg aug.
Definition blst_pairing_mul_n_aggregate_pk_in_g2 ctx PK sig scalar nbits msg aug :=
  PAIRING_Aggregate_PK_in_G2 ctx PK false sig true scalar nbits msg aug.
Definition blst_pairing_chk_n_aggr_pk_in_g2 ctx PK pk_grpchk sig sig_grpchk msg aug :=
  PAIRING_Aggregate_PK_in_G2 ctx PK pk_grpchk sig sig_grpchk None 0 msg aug.
Definition blst_pairing_chk_n_mul_n_aggr_pk_in_g2 ctx PK pk_grpchk sig sig_grpchk scalar nbits msg aug :=
  PAIRING_Aggregate_PK_in_G2 ctx PK pk_grpchk sig sig_grpchk scalar nbits msg aug.
Definition blst_pairing_aggregate_pk_in_g1 ctx PK sig msg aug :=
  PAIRING_Aggregate_PK_in_G1 ctx PK false sig true None 0 msg aug.
Definition blst_pairing_mul_n_aggregate_pk_in_g1 ctx PK sig scalar nbits msg aug :=
  PAIRING_Aggregate_PK_in_G1 ctx PK false sig true scalar nbits msg aug.
Definition blst_pairing_chk_n_aggr_pk_in_g1 ctx PK pk_grpchk sig sig_grpchk msg aug :=
  PAIRING_Aggregate_PK_in_G1 ctx PK pk_grpchk sig sig_grpchk None 0 msg aug.
Definition blst_pairing_chk_n_mul_n_aggr_pk_in_g1 ctx PK pk_grpchk sig sig_grpchk scalar nbits msg aug :=
  PAIRING_Aggregate_PK_in_G1 ctx PK pk_grpchk sig sig_grpchk scalar nbits msg aug.

Definition PAIRING_Commit (ctx : PAIRING) : PAIRING :=
  if Nat.eqb (nelems ctx) 0 then ctx
  else set_nelems 0 (fold_buffer (nelems ctx) ctx).

(** The blocks of [blst_pairing_merge] that combine the signatures, for either
    union member, and the accumulated Miller loops. *)
Definition merge_sig_e1 (ctx ctx1 : PAIRING) : PAIRING :=
  if flag (Z.land (ctrl ctx) (ctrl ctx1)) AGGR_SIGN_SET
  then set_AggrSign (e1 (POINTonE1_dadd (AggrSign_e1 (AggrSign ctx)) (AggrSign_e1 (AggrSign ctx1)))) ctx
  else if flag (ctrl ctx1) AGGR_SIGN_SET
  then set_AggrSign (e1 (AggrSign_e1 (AggrSign ctx1))) (set_ctrl (Z.lor (ctrl ctx) AGGR_SIGN_SET) ctx)
  else ctx.

Definition merge_sig_e2 (ctx ctx1 : PAIRING) : PAIRING :=
  if flag (Z.land (ctrl ctx) (ctrl ctx1)) AGGR_SIGN_SET
  then set_AggrSign (e2 (POINTonE2_dadd (AggrSign_e2 (AggrSign ctx)) (AggrSign_e2 (AggrSign ctx1)))) ctx
  else if flag (ctrl ctx1) AGGR_SIGN_SET
  then set_AggrSign (e2 (AggrSign_e2 (AggrSign ctx1))) (set_ctrl (Z.lor (ctrl ctx) AGGR_SIGN_SET) ctx)
  else ctx.

Definition merge_GT (ctx ctx1 : PAIRING) : PAIRING :=
  if flag (Z.land (ctrl ctx) (ctrl ctx1)) AGGR_GT_SET
  then set_GT (mul_fp12 (GT ctx) (GT ctx1)) ctx
  else if flag (ctrl ctx1) AGGR_GT_SET
  then set_GT (GT ctx1) (set_ctrl (Z.lor (ctrl ctx) AGGR_GT_SET) ctx)
  else ctx.

Definition blst_pairing_merge (ctx ctx1 : PAIRING) : PAIRING * BLST_ERROR :=
  if negb (Z.land (ctrl ctx) MIN_SIG_OR_PK =? AGGR_UNDEFINED)
     && negb (Z.land (ctrl ctx1) MIN_SIG_OR_PK =? AGGR_UNDEFINED)
     && (Z.land (Z.land (ctrl ctx) (ctrl ctx1)) MIN_SIG_OR_PK =? 0)
  then (ctx, BLST_AGGR_TYPE_MISMATCH)
  else if negb (Nat.eqb (nelems ctx) 0) || negb (Nat.eqb (nelems ctx1) 0)
  then (ctx, BLST_AGGR_TYPE_MISMATCH)
  else
    let ctx := set_ctrl (Z.lor (ctrl ctx) (Z.land (ctrl ctx1) MIN_SIG_OR_PK)) ctx in
    let mode := Z.land (ctrl ctx) MIN_SIG_OR_PK in
    if mode =? AGGR_MIN_SIG then (merge_GT (merge_sig_e1 ctx ctx1) ctx1, BLST_SUCCESS)
    else if mode =? AGGR_MIN_PK then (merge_GT (merge_sig_e2 ctx ctx1) ctx1, BLST_SUCCESS)
    else if mode =? AGGR_UNDEFINED then (merge_GT ctx ctx1, BLST_SUCCESS)
    else (ctx, BLST_AGGR_TYPE_MISMATCH).

Definition PAIRING_FinalVerify (ctx : PAIRING) (GTsig : option FP12) : bool :=
  if negb (flag (ctrl ctx) AGGR_GT_SET) then false
  else
    let gt :=
      match GTsig with
      | Some g => Some g
      | None =>
          if flag (ctrl ctx) AGGR_SIGN_SET then
            let mode := Z.land (ctrl ctx) MIN_SIG_OR_PK in
            if mode =? AGGR_MIN_SIG
            then Some (miller_loop_n [BLS12_381_G2] [AggrSign_e1 (AggrSign ctx)] 1)
            else if mode =? AGGR_MIN_PK
            then Some (miller_loop_n [AggrSign_e2 (AggrSign ctx)] [BLS12_381_G1] 1)
            else None
          else Some fp12_one
      end in
    match gt with
    | None => false
    | Some g => bool_decide (final_exp (mul_fp12 (conjugate_fp12 g) (GT ctx)) = fp12_one)
    end.

Definition blst_fp12_finalverify (GT1 GT2 : FP12) : bool :=
  bool_decide (final_exp (mul_fp12 (conjugate_fp12 GT1) GT2) = fp12_one).

Definition blst_pairing_raw_aggregate (ctx : PAIRING) (q : E2) (p : E1) : PAIRING :=
  if bool_decide (q = e2_inf) && bool_decide (p = e1_inf) then ctx
  else push_pair q p ctx.

Definition blst_pairing_as_fp12 (ctx : PAIRING) : PAIRING * FP12 :=
  let ctx := PAIRING_Commit ctx in (ctx, GT ctx).

Definition blst_aggregated_in_g1 (sig : E1) : FP12 := miller_loop_n [BLS12_381_G2] [sig] 1.
Definition blst_aggregated_in_g2 (sig : E2) : FP12 := miller_loop_n [sig] [BLS12_381_G1] 1.

(** [blst_aggregate_in_g1/2]: add the encoded point to [in] ([None] is NULL); the
    first component is what [out] holds afterwards, [None] if it is not written. *)
Definition blst_aggregate_in_g1 (inp : option E1) (zwire : list Z) : option E1 * BLST_ERROR :=
  match blst_p1_deserialize zwire with
  | inr err => (None, err)
  | inl p =>
      if bool_decide (p = e1_inf)
      then (match inp with None => Some e1_inf | Some _ => None end, BLST_SUCCESS)
      else if negb (POINTonE1_in_G1 p) then (None, BLST_POINT_NOT_IN_GROUP)
      else (Some (match inp with None => p | Some a => POINTonE1_dadd a p end), BLST_SUCCESS)
  end.

Definition blst_aggregate_in_g2 (inp : option E2) (zwire : list Z) : option E2 * BLST_ERROR :=
  match blst_p2_deserialize zwire with
  | inr err => (None, err)
  | inl p =>
      if bool_decide (p = e2_inf)
      then (match inp with None => Some e2_inf | Some _ => None end, BLST_SUCCESS)
      else if negb (POINTonE2_in_G2 p) then (None, BLST_POINT_NOT_IN_GROUP)
      else (Some (match inp with None => p | Some a => POINTonE2_dadd a p end), BLST_SUCCESS)
  end.

(** The stack-allocated context of the two one-shot verifiers: its memory [mem]
    is uninitialised apart from the four fields they set. *)
Definition blst_core_verify_pk_in_g1 (mem : PAIRING) (pk : E1) (signature : E2)
    (hash_or_encode : bool) (msg dst aug : list Z) : BLST_ERROR :=
  let ctx := blst_pairing_init mem hash_or_encode dst in
  let '(ctx, ret) := PAIRING_Aggregate_PK_in_G1 ctx (Some pk) true (Some signature) true None 0 msg aug in
  match ret with
  | BLST_SUCCESS =>
      if PAIRING_FinalVerify (PAIRING_Commit ctx) None then BLST_SUCCESS else BLST_VERIFY_FAIL
  | _ => ret
  end.

Definition blst_core_verify_pk_in_g2 (mem : PAIRING) (pk : E2) (signature : E1)
    (hash_or_encode : bool) (msg dst aug : list Z) : BLST_ERROR :=
  let ctx := blst_pairing_init mem hash_or_encode dst in
  let '(ctx, ret) := PAIRING_Aggregate_PK_in_G2 ctx (Some pk) true (Some signature) true None 0 msg aug in
  match ret with
  | BLST_SUCCESS =>
      if PAIRING_FinalVerify (PAIRING_Commit ctx) None then BLST_SUCCESS else BLST_VERIFY_FAIL
  | _ => ret
  end.
End Pairing.

(** [in[0] & 0x80] selects the compressed length. *)
Definition wire_length_ok (inp : list Z) (short long : nat) : bool :=
  match inp with
  | [] => false
  | b :: _ => Nat.eqb (length inp) (if flag b 0x80 then short else long)
  end.

(** ** The laws of the arithmetic *)

Definition pairing `{Curve} (q : E2) (p : E1) : FP12 := final_exp (miller_loop_n [q] [p] 1).

(** A pair the shared Miller loop is specified on. *)
Definition proper `{Curve} (x : E2 * E1) : Prop :=
  POINTonE2_in_G2 x.1 = true /\ POINTonE1_in_G1 x.2 = true /\ x.1 <> e2_inf /\ x.2 <> e1_inf.

(** An output buffer of [n] bytes. *)
Definition wire_bytes (n : nat) (l : list Z) : Prop := Forall byte_ok l /\ length l = n.

Class CurveLaws (C : Curve) : Prop := {
  e1_assoc : Assoc (=) POINTonE1_dadd;
  e1_comm : Comm (=) POINTonE1_dadd;
  e1_left_id : LeftId (=) e1_inf POINTonE1_dadd;
  e1_mult_0 p : POINTonE1_mult p 0 = e1_inf;
  e1_mult_add p a b : 0 <= a -> 0 <= b ->
    POINTonE1_mult p (a + b) = POINTonE1_dadd (POINTonE1_mult p a) (POINTonE1_mult p b);
  e1_mult_1 p : POINTonE1_mult p 1 = p;
  G1_inf : POINTonE1_in_G1 e1_inf = true;
  G1_add p p' : POINTonE1_in_G1 p = true -> POINTonE1_in_G1 p' = true ->
    POINTonE1_in_G1 (POINTonE1_dadd p p') = true;
  G1_gen : POINTonE1_in_G1 BLS12_381_G1 = true;
  G1_gen_not_inf : BLS12_381_G1 <> e1_inf;
  G1_order p k : POINTonE1_in_G1 p = true -> p <> e1_inf -> 0 <= k ->
    POINTonE1_mult p k = e1_inf -> (BLS12_381_r | k);
  e2_assoc : Assoc (=) POINTonE2_dadd;
  e2_comm : Comm (=) POINTonE2_dadd;
  e2_left_id : LeftId (=) e2_inf POINTonE2_dadd;
  e2_neg q : POINTonE2_in_G2 q = true ->
    exists q', POINTonE2_in_G2 q' = true /\ POINTonE2_dadd q q' = e2_inf;
  e2_mult_0 q : POINTonE2_mult q 0 = e2_inf;
  e2_mult_add q a b : 0 <= a -> 0 <= b ->
    POINTonE2_mult q (a + b) = POINTonE2_dadd (POINTonE2_mult q a) (POINTonE2_mult q b);
  e2_mult_1 q : POINTonE2_mult q 1 = q;
  G2_inf : POINTonE2_in_G2 e2_inf = true;
  G2_add q q' : POINTonE2_in_G2 q = true -> POINTonE2_in_G2 q' = true ->
    POINTonE2_in_G2 (POINTonE2_dadd q q') = true;
  Hash_to_G1_in m d a : POINTonE1_in_G1 (Hash_to_G1 m d a) = true;
  Encode_to_G1_in m d a : POINTonE1_in_G1 (Encode_to_G1 m d a) = true;
  Hash_to_G2_in m d a : POINTonE2_in_G2 (Hash_to_G2 m d a) = true;
  Encode_to_G2_in m d a : POINTonE2_in_G2 (Encode_to_G2 m d a) = true;
  fp12_assoc : Assoc (=) mul_fp12;
  fp12_comm : Comm (=) mul_fp12;
  fp12_left_id : LeftId (=) fp12_one mul_fp12;
  fp12_one_nonzero : fp12_one <> fp12_zero;
  final_exp_one : final_exp fp12_one = fp12_one;
  final_exp_mul a b : final_exp (mul_fp12 a b) = mul_fp12 (final_exp a) (final_exp b);
  final_exp_conj a : a <> fp12_zero ->
    mul_fp12 (final_exp (conjugate_fp12 a)) (final_exp a) = fp12_one;
  miller_nonzero l : Forall proper l -> miller_lines l <> fp12_zero;
  miller_app l l' : l <> [] -> l' <> [] -> Forall proper l -> Forall proper l' ->
    final_exp (miller_lines (l ++ l')) =
    mul_fp12 (final_exp (miller_lines l)) (final_exp (miller_lines l'));
  pairing_add_l q q' p :
    POINTonE2_in_G2 q = true -> POINTonE2_in_G2 q' = true -> POINTonE1_in_G1 p = true ->
    pairing (POINTonE2_dadd q q') p = mul_fp12 (pairing q p) (pairing q' p);
  pairing_add_r q p p' :
    POINTonE2_in_G2 q = true -> POINTonE1_in_G1 p = true -> POINTonE1_in_G1 p' = true ->
    pairing q (POINTonE1_dadd p p') = mul_fp12 (pairing q p) (pairing q p');
  pairing_nondegenerate q :
    POINTonE2_in_G2 q = true -> pairing q BLS12_381_G1 = fp12_one -> q = e2_inf;
  e1_double p : POINTonE1_double p = POINTonE1_dadd p p;
  e2_double q : POINTonE2_double q = POINTonE2_dadd q q;
  e1_cneg p : POINTonE1_cneg p false = p /\ POINTonE1_dadd p (POINTonE1_cneg p true) = e1_inf;
  e2_cneg q : POINTonE2_cneg q false = q /\ POINTonE2_dadd q (POINTonE2_cneg q true) = e2_inf;
  e1_mult_glv p k : POINTonE1_in_G1 p = true -> 0 <= k < BLS12_381_r ->
    POINTonE1_mult_glv p k = POINTonE1_mult p k;
  e2_mult_gls q k : POINTonE2_in_G2 q = true -> 0 <= k < BLS12_381_r ->
    POINTonE2_mult_gls q k = POINTonE2_mult q k;
  e1_on_curve p : POINTonE1_on_curve p = true;
  e2_on_curve q : POINTonE2_on_curve q = true;
  fp12_sqr a : sqr_fp12 a = mul_fp12 a a;
  p1_serialized p : wire_bytes 96 (blst_p1_serialize p);
  p2_serialized q : wire_bytes 192 (blst_p2_serialize q);
  p1_compressed p : wire_bytes 48 (blst_p1_compress p);
  p2_compressed q : wire_bytes 96 (blst_p2_compress q);
  fp12_serialized a : wire_bytes 576 (bendian_from_fp12 a);
  p1_wire p : POINTonE1_in_G1 p = true ->
    wire_length_ok (blst_p1_serialize p) 48 96 = true /\
    blst_p1_deserialize (blst_p1_serialize p) = inl p;
  p2_wire q : POINTonE2_in_G2 q = true ->
    wire_length_ok (blst_p2_serialize q) 96 192 = true /\
    blst_p2_deserialize (blst_p2_serialize q) = inl q;
  p1_wire_short p : POINTonE1_in_G1 p = true ->
    wire_length_ok (blst_p1_compress p) 48 96 = true /\
    blst_p1_deserialize (blst_p1_compress p) = inl p;
  p2_wire_short q : POINTonE2_in_G2 q = true ->
    wire_length_ok (blst_p2_compress q) 96 192 = true /\
    blst_p2_deserialize (blst_p2_compress q) = inl q;
  p1_wire_error l e : blst_p1_deserialize l = inr e -> e = BLST_BAD_ENCODING \/ e = BLST_POINT_NOT_ON_CURVE;
  p2_wire_error l e : blst_p2_deserialize l = inr e -> e = BLST_BAD_ENCODING \/ e = BLST_POINT_NOT_ON_CURVE
}.

(** ** Flags *)

Lemma flag_lor c f g : flag (Z.lor c f) g = flag c g || flag f g.
Proof.
  unfold flag. rewrite Z.land_lor_distr_l.
  destruct (Z.eqb_spec (Z.land c g) 0) as [->|Hc]; cbn.
  - by rewrite Z.lor_0_l.
  - destruct (Z.eqb_spec (Z.lor (Z.land c g) (Z.land f g)) 0) as [H|]; [|done].
    apply Z.lor_eq_0_iff in H. tauto.
Qed.

Lemma flag_land_r c d f k : f = 2 ^ k -> 0 <= k -> flag (Z.land c d) f = flag c f && flag d f.
Proof.
  intros -> Hk. unfold flag.
  assert (forall x, negb (Z.land x (2 ^ k) =? 0) = Z.testbit x k) as E.
  { intros x. destruct (Z.testbit x k) eqn:T.
    - apply negb_true_iff, Z.eqb_neq. intros H.
      assert (Z.testbit (Z.land x (2 ^ k)) k = true) as T'
        by (rewrite Z.land_spec, T, Z.pow2_bits_true; [done|lia]).
      by rewrite H, Z.bits_0 in T'.
    - apply negb_false_iff, Z.eqb_eq, Z.bits_inj'. intros n Hn.
      rewrite Z.land_spec, Z.bits_0, Z.pow2_bits_eqb by lia.
      destruct (Z.eqb_spec k n) as [<-|]; [by rewrite T|by rewrite andb_false_r]. }
  rewrite !E. apply Z.land_spec.
Qed.

Lemma land_flag c k : 0 <= k -> flag c (2 ^ k) = true -> Z.land c (2 ^ k) = 2 ^ k.
Proof.
  intros Hk Hf. apply Z.bits_inj'. intros n Hn.
  rewrite Z.land_spec, Z.pow2_bits_eqb by lia.
  destruct (Z.eqb_spec k n) as [<-|]; [|by rewrite andb_false_r].
  rewrite andb_true_r. unfold flag in Hf. destruct (Z.testbit c k) eqn:T; [done|].
  exfalso. apply negb_true_iff, Z.eqb_neq in Hf. apply Hf, Z.bits_inj'. intros m Hm.
  rewrite Z.land_spec, Z.bits_0, Z.pow2_bits_eqb by lia.
  destruct (Z.eqb_spec k m) as [<-|]; [by rewrite T|by rewrite andb_false_r].
Qed.

Lemma land_noflag c f : flag c f = false -> Z.land c f = 0.
Proof. unfold flag. intros H. by apply negb_false_iff, Z.eqb_eq in H. Qed.

Lemma mode_value c :
  Z.land c MIN_SIG_OR_PK =
  (if flag c AGGR_MIN_SIG then 1 else 0) + (if flag c AGGR_MIN_PK then 2 else 0).
Proof.
  unfold MIN_SIG_OR_PK. rewrite Z.land_lor_distr_r.
  destruct (flag c AGGR_MIN_SIG) eqn:E1, (flag c AGGR_MIN_PK) eqn:E2;
  repeat match goal with
  | H : flag c AGGR_MIN_SIG = true |- _ => rewrite (land_flag c 0 ltac:(lia) H : Z.land c AGGR_MIN_SIG = 1); clear H
  | H : flag c AGGR_MIN_PK = true |- _ => rewrite (land_flag c 1 ltac:(lia) H : Z.land c AGGR_MIN_PK = 2); clear H
  | H : flag c _ = false |- _ => rewrite (land_noflag _ _ H); clear H
  end; reflexivity.
Qed.

(** Every flag test of a control word built by the operations reduces to tests of
    the original word. *)
Ltac flags :=
  repeat match goal with
  | |- context [flag (Z.lor ?c ?f) ?g] => rewrite (flag_lor c f g)
  | H : context [flag (Z.lor ?c ?f) ?g] |- _ => rewrite (flag_lor c f g) in H
  | |- context [flag ?f ?g] =>
      let v := eval vm_compute in (flag f g) in
      match v with true => idtac | false => idtac end; change (flag f g) with v
  | H : context [flag ?f ?g] |- _ =>
      let v := eval vm_compute in (flag f g) in
      match v with true => idtac | false => idtac end; change (flag f g) with v in H
  end; rewrite ?orb_false_r, ?orb_true_r in *.

(** ** Pairing products *)

Section Products.
Context {C : Curve} {L : CurveLaws C}.

Definition pairing_product (l : list (E2 * E1)) : FP12 :=
  foldr (fun x acc => mul_fp12 (pairing x.1 x.2) acc) fp12_one l.

#[local] Existing Instances e1_assoc e1_comm e1_left_id e2_assoc e2_comm e2_left_id
  fp12_assoc fp12_comm fp12_left_id.

Lemma fp12_right_id a : mul_fp12 a fp12_one = a.
Proof. by rewrite (comm_L mul_fp12), (left_id_L fp12_one mul_fp12). Qed.

Lemma e2_right_id q : POINTonE2_dadd q e2_inf = q.
Proof. by rewrite (comm_L POINTonE2_dadd), (left_id_L e2_inf POINTonE2_dadd). Qed.

Lemma pairing_product_app l l' :
  pairing_product (l ++ l') = mul_fp12 (pairing_product l) (pairing_product l').
Proof.
  induction l as [|x l IH]; cbn.
  - by rewrite (left_id_L fp12_one mul_fp12).
  - fold (pairing_product (l ++ l')). rewrite IH. by rewrite (assoc_L mul_fp12).
Qed.

Lemma pairing_lines q p :
  q <> e2_inf -> p <> e1_inf -> pairing q p = final_exp (miller_lines [(q, p)]).
Proof.
  intros Hq Hp. unfold pairing, miller_loop_n. cbn.
  by rewrite !bool_decide_eq_false_2 by done.
Qed.

Lemma miller_product l :
  l <> [] -> Forall proper l -> final_exp (miller_lines l) = pairing_product l.
Proof.
  intros Hl Hp. induction l as [|x l IH]; [done|]. apply Forall_cons in Hp as [Hx Hp].
  destruct (Hx) as (_ & _ & Hq & Hp'). destruct l as [|y l].
  - cbn. rewrite fp12_right_id, pairing_lines by done. by destruct x.
  - change (x :: y :: l) with ([x] ++ y :: l). rewrite miller_app by (done || by constructor).
    rewrite IH by done. destruct x as [q p].
    change (pairing_product ([(q, p)] ++ y :: l)) with (mul_fp12 (pairing q p) (pairing_product (y :: l))).
    by rewrite (pairing_lines q p) by done.
Qed.

Lemma miller_loop_product qs ps n :
  zip (take n qs) (take n ps) <> [] -> Forall proper (zip (take n qs) (take n ps)) ->
  final_exp (miller_loop_n qs ps n) = pairing_product (zip (take n qs) (take n ps)).
Proof.
  intros Hl Hp. rewrite <- miller_product by done. unfold miller_loop_n.
  destruct (zip (take n qs) (take n ps)) as [|[q p] [|y l]]; try done.
  apply Forall_cons in Hp as [(_ & _ & Hq & Hp') _]. cbn in Hq, Hp'.
  by rewrite !bool_decide_eq_false_2 by done.
Qed.

Lemma pairing_inf_l p : pairing e2_inf p = fp12_one.
Proof. unfold pairing, miller_loop_n. cbn. rewrite bool_decide_eq_true_2 by done. apply final_exp_one. Qed.

Lemma pairing_inf_r q : pairing q e1_inf = fp12_one.
Proof.
  unfold pairing, miller_loop_n. cbn. rewrite (bool_decide_eq_true_2 (e1_inf = e1_inf)) by done.
  rewrite orb_true_r. apply final_exp_one.
Qed.

Lemma loop1_nonzero q p :
  POINTonE2_in_G2 q = true -> POINTonE1_in_G1 p = true -> miller_loop_n [q] [p] 1 <> fp12_zero.
Proof.
  intros Hq Hp. unfold miller_loop_n. cbn. repeat case_bool_decide; cbn; try apply fp12_one_nonzero.
  apply miller_nonzero. by repeat constructor.
Qed.

Lemma G2_mult q k : POINTonE2_in_G2 q = true -> 0 <= k -> POINTonE2_in_G2 (POINTonE2_mult q k) = true.
Proof.
  intros Hq. revert k. apply natlike_ind.
  - rewrite e2_mult_0. apply G2_inf.
  - intros k Hk IH. rewrite <- Z.add_1_r, e2_mult_add by lia. apply G2_add; [done|].
    by rewrite e2_mult_1.
Qed.

Lemma G1_mult p k : POINTonE1_in_G1 p = true -> 0 <= k -> POINTonE1_in_G1 (POINTonE1_mult p k) = true.
Proof.
  intros Hq. revert k. apply natlike_ind.
  - rewrite e1_mult_0. apply G1_inf.
  - intros k Hk IH. rewrite <- Z.add_1_r, e1_mult_add by lia. apply G1_add; [done|].
    by rewrite e1_mult_1.
Qed.

(** A scalar moves from one side of the pairing to the other. *)
Lemma pairing_mult q p k :
  POINTonE2_in_G2 q = true -> POINTonE1_in_G1 p = true -> 0 <= k ->
  pairing (POINTonE2_mult q k) p = pairing q (POINTonE1_mult p k).
Proof.
  intros Hq Hp. revert k. apply natlike_ind.
  - by rewrite e2_mult_0, e1_mult_0, pairing_inf_l, pairing_inf_r.
  - intros k Hk IH. rewrite <- Z.add_1_r, e2_mult_add, e1_mult_add by lia.
    rewrite pairing_add_l, pairing_add_r, IH, e1_mult_1, e2_mult_1
      by (done || by apply G2_mult || by apply G1_mult || by rewrite ?e2_mult_1, ?e1_mult_1).
    done.
Qed.

Lemma gen_mult_not_inf k : 0 < k < BLS12_381_r -> POINTonE1_mult BLS12_381_G1 k <> e1_inf.
Proof.
  intros Hk H. apply G1_order in H; [|apply G1_gen|apply G1_gen_not_inf|lia].
  apply Z.divide_pos_le in H; lia.
Qed.

(** The comparison at the end of [PAIRING_FinalVerify]. *)
Lemma final_check g t :
  g <> fp12_zero ->
  final_exp (mul_fp12 (conjugate_fp12 g) t) = fp12_one <-> final_exp t = final_exp g.
Proof.
  intros Hg. rewrite final_exp_mul. pose proof (final_exp_conj g Hg) as Hc. split.
  - intros H. rewrite <- (fp12_right_id (final_exp g)), <- H, (assoc_L mul_fp12),
      (comm_L mul_fp12 (final_exp g)), Hc. by rewrite (left_id_L fp12_one mul_fp12).
  - by intros ->.
Qed.

(** The pairing separates points of G2 paired with the generator. *)
Lemma pairing_gen_inj q q' :
  POINTonE2_in_G2 q = true -> POINTonE2_in_G2 q' = true ->
  pairing q BLS12_381_G1 = pairing q' BLS12_381_G1 -> q = q'.
Proof.
  intros Hq Hq' H. destruct (e2_neg q' Hq') as (n & Hn & Hinv).
  assert (POINTonE2_dadd q n = e2_inf) as E.
  { apply pairing_nondegenerate; [by apply G2_add|].
    rewrite pairing_add_l, H, <- pairing_add_l, Hinv by (done || apply G1_gen).
    apply pairing_inf_l. }
  rewrite <- (e2_right_id q), <- Hinv, (comm_L POINTonE2_dadd q' n), (assoc_L POINTonE2_dadd), E.
  by rewrite (left_id_L e2_inf POINTonE2_dadd).
Qed.
End Products.

(** ** The context as an unbuffered product

    [represents hoe dst ctx pairs sig]: the context stands for the list [pairs] of
    all pairs given to it so far and the sum [sig] of the signatures, wherever they
    currently live (in the buffer, in [GT], nowhere). *)

Section Context_.
Context {C : Curve} {L : CurveLaws C}.

#[local] Existing Instances e1_assoc e1_comm e1_left_id e2_assoc e2_comm e2_left_id
  fp12_assoc fp12_comm fp12_left_id.

Definition buffer (ctx : PAIRING) : list (E2 * E1) :=
  zip (take (nelems ctx) (Q ctx)) (take (nelems ctx) (P ctx)).

Record arrays_ok (ctx : PAIRING) : Prop := {
  Q_length : length (Q ctx) = N_MAX;
  P_length : length (P ctx) = N_MAX
}.

Record represents (hoe : bool) (dst : list Z) (ctx : PAIRING)
    (pairs : list (E2 * E1)) (sig : E2) : Prop := {
  rep_arrays : arrays_ok ctx;
  rep_nelems : (nelems ctx < N_MAX)%nat;
  rep_dst : DST ctx = dst;
  rep_hash : flag (ctrl ctx) AGGR_HASH_OR_ENCODE = hoe;
  rep_mode : flag (ctrl ctx) AGGR_MIN_SIG = false;
  rep_sig : if flag (ctrl ctx) AGGR_SIGN_SET
            then flag (ctrl ctx) AGGR_MIN_PK = true /\ AggrSign ctx = e2 sig
            else sig = e2_inf;
  rep_sig_group : POINTonE2_in_G2 sig = true;
  rep_proper : Forall proper pairs;
  rep_pairs : exists done, pairs = done ++ buffer ctx /\
              if flag (ctrl ctx) AGGR_GT_SET
              then done <> [] /\ final_exp (GT ctx) = pairing_product done
              else done = []
}.

Lemma represents_init mem hoe dst :
  arrays_ok mem -> represents hoe dst (blst_pairing_init mem hoe dst) [] e2_inf.
Proof.
  intros [HQ HP]. assert (POINTonE2_in_G2 e2_inf = true) by apply G2_inf.
  split; try (by destruct hoe); cbn; [unfold N_MAX; lia|]. exists []. by destruct hoe.
Qed.

(** Folding the buffer moves its pairs into [GT]. *)
Lemma represents_fold hoe dst ctx pairs sig :
  represents hoe dst ctx pairs sig -> nelems ctx <> O ->
  represents hoe dst (set_nelems 0 (fold_buffer (nelems ctx) ctx)) pairs sig.
Proof.
  intros [[HQ HP] Hn Hd Hh Hm Hs Hg Hp (done & Hl & HG)] H0.
  assert (buffer ctx <> []) as Hb.
  { unfold buffer. destruct (nelems ctx); [done|]. by destruct (Q ctx), (P ctx). }
  assert (Forall proper (buffer ctx)) as Hpb by (by rewrite Hl in Hp; apply Forall_app in Hp as [_ ?]).
  unfold fold_buffer. destruct (flag (ctrl ctx) AGGR_GT_SET) eqn:E; split; cbn; flags; try done.
  - unfold N_MAX. lia.
  - exists pairs. rewrite E. split; [unfold buffer; cbn; by rewrite app_nil_r|].
    destruct HG as [Hne HG]. split; [by destruct done; rewrite Hl|].
    rewrite final_exp_mul, HG, miller_loop_product by done.
    fold (buffer ctx). by rewrite <- pairing_product_app, <- Hl.
  - unfold N_MAX. lia.
  - exists pairs. subst done. split; [unfold buffer; cbn; by rewrite app_nil_r|].
    cbn in Hl. rewrite Hl, miller_loop_product by done. done.
Qed.

Lemma represents_commit hoe dst ctx pairs sig :
  represents hoe dst ctx pairs sig ->
  represents hoe dst (PAIRING_Commit ctx) pairs sig /\ nelems (PAIRING_Commit ctx) = O.
Proof.
  intros H. unfold PAIRING_Commit. destruct (Nat.eqb_spec (nelems ctx) 0) as [|E]; [done|].
  split; [by apply represents_fold|done].
Qed.

Lemma zip_take_insert (q : E2) (p : E1) n qs ps :
  (n < length qs)%nat -> length ps = length qs ->
  zip (take (S n) (<[n := q]> qs)) (take (S n) (<[n := p]> ps)) =
  zip (take n qs) (take n ps) ++ [(q, p)].
Proof.
  intros Hn Hl.
  rewrite (take_S_r _ _ q) by (apply list_lookup_insert_eq; lia).
  rewrite (take_S_r _ _ p) by (apply list_lookup_insert_eq; lia).
  rewrite !take_insert_ge by lia. rewrite zip_with_app by (rewrite !length_take; lia). done.
Qed.

Lemma represents_push hoe dst ctx pairs sig q p :
  represents hoe dst ctx pairs sig -> proper (q, p) ->
  represents hoe dst (push_pair q p ctx) (pairs ++ [(q, p)]) sig.
Proof.
  intros [[HQ HP] Hn Hd Hh Hm Hs Hg Hp (done & Hl & HG)] Hx.
  assert (Forall proper (pairs ++ [(q, p)])) as Hp' by (apply Forall_app; split; [done|by constructor]).
  set (ctx1 := set_nelems (S (nelems ctx))
                 (set_QP (<[nelems ctx := q]> (Q ctx)) (<[nelems ctx := p]> (P ctx)) ctx)).
  assert (buffer ctx1 = buffer ctx ++ [(q, p)]) as Hb.
  { unfold buffer, ctx1. cbn [nelems Q P set_nelems set_QP]. apply zip_take_insert; lia. }
  assert (pairs ++ [(q, p)] = done ++ buffer ctx1) as Hpairs by (by rewrite Hb, app_assoc, <- Hl).
  unfold push_pair. destruct (Nat.eqb_spec (S (nelems ctx)) N_MAX) as [E|E].
  - (* the buffer is full: fold it *)
    assert (Forall proper (buffer ctx1)) as Hpb
      by (by rewrite Hpairs in Hp'; apply Forall_app in Hp' as [_ ?]).
    assert (buffer ctx1 <> []) as Hne by (rewrite Hb; by destruct (buffer ctx)).
    unfold fold_buffer. cbn [ctrl set_QP].
    destruct (flag (ctrl ctx) AGGR_GT_SET) eqn:EG; split; cbn; flags; try done.
    + split; cbn; by rewrite length_insert.
    + unfold N_MAX. lia.
    + exists (pairs ++ [(q, p)]). rewrite EG. split; [unfold buffer; cbn; by rewrite !app_nil_r|].
      destruct HG as [_ HG]. split; [by destruct pairs|].
      rewrite final_exp_mul, HG, Hpairs, pairing_product_app. f_equal.
      by apply (miller_loop_product (Q ctx1) (P ctx1) (nelems ctx1)).
    + split; cbn; by rewrite length_insert.
    + unfold N_MAX. lia.
    + exists (pairs ++ [(q, p)]). split; [unfold buffer; cbn; by rewrite !app_nil_r|].
      split; [by destruct pairs|]. subst done. rewrite Hpairs.
      by apply (miller_loop_product (Q ctx1) (P ctx1) (nelems ctx1)).
  - split; cbn; try done.
    + split; cbn; by rewrite length_insert.
    + unfold N_MAX in *. lia.
    + by exists done.
Qed.

Lemma represents_add_sig hoe dst ctx pairs sig s k :
  represents hoe dst ctx pairs sig ->
  flag (ctrl ctx) AGGR_MIN_PK = true ->
  s = e2_inf \/ (POINTonE2_in_G2 s = true /\ POINTonE2_in_G2 (scaled2 s k) = true) ->
  exists ctx', add_sig_e2 (Some s) true k ctx = Some ctx' /\
    represents hoe dst ctx' pairs
      (POINTonE2_dadd sig (if bool_decide (s = e2_inf) then e2_inf else scaled2 s k)).
Proof.
  intros HR HM Hs. unfold add_sig_e2. case_bool_decide as Hi.
  - exists ctx. by rewrite e2_right_id.
  - destruct Hs as [|[Hin Hsc]]; [done|]. rewrite Hin. cbn.
    destruct HR as [Ha Hn Hd Hh Hm Hsig Hg Hp HG].
    destruct (flag (ctrl ctx) AGGR_SIGN_SET) eqn:E; eexists; (split; [reflexivity|]);
      split; cbn; flags; rewrite ?E in *; try done.
    + destruct Ha; by split.
    + destruct Hsig as [_ ->]. by rewrite HM.
    + by apply G2_add.
    + destruct Ha; by split.
    + rewrite HM, Hsig. by rewrite (left_id_L e2_inf POINTonE2_dadd).
    + by apply G2_add.
Qed.

(** ** Sequences of aggregate calls *)

Record call := mkCall {
  c_pk : option E1;
  c_sig : option E2;
  c_scalar : option Z;
  c_nbits : Z;
  c_msg : list Z;
  c_aug : list Z
}.

Definition aggregate (ctx : PAIRING) (c : call) : PAIRING * BLST_ERROR :=
  blst_pairing_mul_n_aggregate_pk_in_g1 ctx (c_pk c) (c_sig c) (c_scalar c) (c_nbits c)
    (c_msg c) (c_aug c).

Fixpoint aggregate_all (ctx : PAIRING) (cs : list call) : PAIRING * list BLST_ERROR :=
  match cs with
  | [] => (ctx, [])
  | c :: cs =>
      let '(ctx, err) := aggregate ctx c in
      let '(ctx, errs) := aggregate_all ctx cs in
      (ctx, err :: errs)
  end.

Section Calls.
Context (hoe : bool) (dst : list Z).

Definition call_hash (c : call) : E2 :=
  if hoe then Hash_to_G2 (c_msg c) dst (c_aug c) else Encode_to_G2 (c_msg c) dst (c_aug c).

Definition call_scalar (c : call) : option Z := effective_scalar (c_scalar c) (c_nbits c).

(** What a call contributes to the verification equation. *)
Definition call_pairs (c : call) : list (E2 * E1) :=
  match c_pk c with
  | Some pk => [(call_hash c, scaled1 pk (call_scalar c))]
  | None => []
  end.

Definition call_sig (c : call) : E2 :=
  match c_sig c with
  | Some s => if bool_decide (s = e2_inf) then e2_inf else scaled2 s (call_scalar c)
  | None => e2_inf
  end.

Definition sig_sum (cs : list call) : E2 :=
  foldl (fun acc c => POINTonE2_dadd acc (call_sig c)) e2_inf cs.

(** Vetted input: keys are finite points of G1 (also after scaling), messages do
    not hash to infinity, signatures are infinite or points of G2. *)
Record vetted (c : call) : Prop := {
  vet_nbits : 0 <= c_nbits c;
  vet_pk pk : c_pk c = Some pk ->
    pk <> e1_inf /\ POINTonE1_in_G1 pk = true /\ scaled1 pk (call_scalar c) <> e1_inf /\
    call_hash c <> e2_inf;
  vet_sig s : c_sig c = Some s -> s = e2_inf \/ POINTonE2_in_G2 s = true
}.
End Calls.

Lemma call_scalar_nonneg c k : 0 <= c_nbits c -> call_scalar c = Some k -> 0 <= k.
Proof.
  unfold call_scalar, effective_scalar. intros Hn. destruct (c_scalar c); [|done].
  case_if; intros [= <-]. apply Z.mod_pos_bound, Z.pow_pos_nonneg; lia.
Qed.

Lemma call_hash_in hoe dst c : POINTonE2_in_G2 (call_hash hoe dst c) = true.
Proof. unfold call_hash. destruct hoe; [apply Hash_to_G2_in|apply Encode_to_G2_in]. Qed.

Lemma represents_set_pk hoe dst ctx pairs sig :
  represents hoe dst ctx pairs sig ->
  represents hoe dst (set_ctrl (Z.lor (ctrl ctx) AGGR_MIN_PK) ctx) pairs sig.
Proof.
  intros [[HQ HP] Hn Hd Hh Hm Hs Hg Hp HG]. split; cbn; flags; try done.
  destruct (flag (ctrl ctx) AGGR_SIGN_SET); [|done]. by destruct Hs.
Qed.

(** One successful call extends what the context stands for. *)
Lemma represents_aggregate hoe dst ctx pairs sig c :
  represents hoe dst ctx pairs sig -> vetted hoe dst c ->
  exists ctx', aggregate ctx c = (ctx', BLST_SUCCESS) /\
    represents hoe dst ctx' (pairs ++ call_pairs hoe dst c) (POINTonE2_dadd sig (call_sig c)).
Proof.
  intros HR [Hn Hpk Hsig]. unfold aggregate, blst_pairing_mul_n_aggregate_pk_in_g1,
    PAIRING_Aggregate_PK_in_G1. rewrite (rep_mode _ _ _ _ _ HR). fold (call_scalar c).
  apply represents_set_pk in HR. set (ctx0 := set_ctrl _ ctx) in *.
  assert (flag (ctrl ctx0) AGGR_MIN_PK = true) as HM by (unfold ctx0; cbn; by flags).
  assert (exists ctx1, add_sig_e2 (c_sig c) true (call_scalar c) ctx0 = Some ctx1 /\
            represents hoe dst ctx1 pairs (POINTonE2_dadd sig (call_sig c))) as (ctx1 & -> & HR1).
  { unfold call_sig. destruct (c_sig c) as [s|].
    - apply represents_add_sig; try done. destruct (Hsig s eq_refl) as [->|Hs]; [by left|].
      right. split; [done|]. unfold scaled2. destruct (call_scalar c) eqn:E; [|done].
      apply G2_mult; [done|]. by eapply call_scalar_nonneg.
    - exists ctx0. by rewrite e2_right_id. }
  unfold call_pairs. destruct (c_pk c) as [pk|].
  - destruct (Hpk pk eq_refl) as (Hi & Hg & Hsc & Hh).
    rewrite bool_decide_eq_false_2 by done. cbn [andb].
    rewrite (rep_hash _ _ _ _ _ HR1), (rep_dst _ _ _ _ _ HR1). fold (call_hash hoe dst c).
    eexists. split; [reflexivity|]. apply represents_push; [done|].
    split_and!; cbn; try done; [apply call_hash_in|].
    unfold scaled1 in *. destruct (call_scalar c) eqn:E; [|done].
    apply G1_mult; [done|]. by eapply call_scalar_nonneg.
  - exists ctx1. by rewrite app_nil_r.
Qed.

Lemma represents_aggregate_all hoe dst cs : forall ctx pairs sig,
  represents hoe dst ctx pairs sig -> Forall (vetted hoe dst) cs ->
  exists ctx', aggregate_all ctx cs = (ctx', replicate (length cs) BLST_SUCCESS) /\
    represents hoe dst ctx' (pairs ++ cs ≫= call_pairs hoe dst)
      (foldl (fun acc c => POINTonE2_dadd acc (call_sig c)) sig cs).
Proof.
  induction cs as [|c cs IH]; intros ctx pairs sig HR Hv; cbn.
  - exists ctx. by rewrite app_nil_r.
  - apply Forall_cons in Hv as [Hc Hv].
    destruct (represents_aggregate _ _ _ _ _ _ HR Hc) as (ctx1 & -> & HR1).
    destruct (IH _ _ _ HR1 Hv) as (ctx2 & -> & HR2). eexists. split; [reflexivity|].
    by rewrite app_assoc.
Qed.

(** What the final check decides of a committed context. *)
Lemma represents_verify hoe dst ctx pairs sig :
  represents hoe dst ctx pairs sig -> nelems ctx = O ->
  PAIRING_FinalVerify ctx None =
  negb (bool_decide (pairs = [])) &&
  bool_decide (pairing_product pairs = pairing sig BLS12_381_G1).
Proof.
  intros [_ _ _ _ Hm Hs Hg _ (done & Hl & HG)] H0.
  unfold buffer in Hl. rewrite H0 in Hl. cbn in Hl. rewrite app_nil_r in Hl. subst done.
  unfold PAIRING_FinalVerify. destruct (flag (ctrl ctx) AGGR_GT_SET) eqn:EG; cbn [negb].
  2: { subst pairs. by rewrite bool_decide_eq_true_2. }
  destruct HG as [Hne HG]. rewrite (bool_decide_eq_false_2 (pairs = [])) by done. cbn [negb andb].
  destruct (flag (ctrl ctx) AGGR_SIGN_SET) eqn:ES.
  - destruct Hs as [HM ->]. rewrite mode_value, Hm, HM. cbn -[miller_loop_n].
    apply bool_decide_ext. rewrite final_check by (apply loop1_nonzero; [done|apply G1_gen]).
    by rewrite HG.
  - subst sig. apply bool_decide_ext. rewrite final_check by apply fp12_one_nonzero.
    by rewrite HG, final_exp_one, pairing_inf_l.
Qed.

Lemma represents_merge_sig hoe dst ctx ctx1 pairs pairs1 sig sig1 :
  represents hoe dst ctx pairs sig -> represents hoe dst ctx1 pairs1 sig1 ->
  (flag (ctrl ctx1) AGGR_MIN_PK = true -> flag (ctrl ctx) AGGR_MIN_PK = true) ->
  represents hoe dst (merge_sig_e2 ctx ctx1) pairs (POINTonE2_dadd sig sig1).
Proof.
  intros [[HQ HP] Hn Hd Hh Hm Hs Hg Hp HG] [_ _ _ _ _ Hs1 Hg1 _ _] HM.
  pose proof (G2_add _ _ Hg Hg1) as Hgs.
  unfold merge_sig_e2. rewrite (flag_land_r _ _ AGGR_SIGN_SET 4) by done.
  destruct (flag (ctrl ctx) AGGR_SIGN_SET) eqn:E, (flag (ctrl ctx1) AGGR_SIGN_SET) eqn:E1; cbn [andb];
    repeat match goal with H : _ /\ _ |- _ => destruct H as [? ?] end;
    split; cbn; flags; rewrite ?E; try done.
  - by rewrite H0, H2.
  - split; [done|]. by rewrite Hs1, e2_right_id.
  - split; [by apply HM|]. by rewrite H0, Hs, (left_id_L e2_inf POINTonE2_dadd).
  - by rewrite Hs, Hs1, e2_right_id.
Qed.

Lemma represents_merge_GT hoe dst ctx ctx1 pairs pairs1 sig sig1 :
  represents hoe dst ctx pairs sig -> represents hoe dst ctx1 pairs1 sig1 ->
  nelems ctx = O -> nelems ctx1 = O ->
  represents hoe dst (merge_GT ctx ctx1) (pairs ++ pairs1) sig.
Proof.
  intros [[HQ HP] Hn Hd Hh Hm Hs Hg Hp (done & Hl & HG)] [_ _ _ _ _ _ _ Hp1 (done1 & Hl1 & HG1)] H0 H1.
  unfold buffer in Hl, Hl1. rewrite H0 in Hl. rewrite H1 in Hl1. cbn in Hl, Hl1.
  rewrite app_nil_r in Hl, Hl1. subst done done1.
  pose proof (proj2 (Forall_app proper pairs pairs1) (conj Hp Hp1)) as Hpp.
  unfold merge_GT. rewrite (flag_land_r _ _ AGGR_GT_SET 5) by done.
  destruct (flag (ctrl ctx) AGGR_GT_SET) eqn:E, (flag (ctrl ctx1) AGGR_GT_SET) eqn:E1; cbn [andb];
    repeat match goal with H : _ /\ _ |- _ => destruct H as [? ?] end;
    split; cbn; flags; rewrite ?E; try done;
    exists (pairs ++ pairs1); unfold buffer; cbn; rewrite H0; cbn; rewrite app_nil_r; split; try done;
    rewrite ?E.
  - split; [by destruct pairs|]. rewrite final_exp_mul, pairing_product_app. by f_equal.
  - subst pairs1. by rewrite app_nil_r.
  - by subst pairs.
  - by subst.
Qed.

Lemma merge_same_kind ctx ctx1 :
  flag (ctrl ctx) AGGR_MIN_SIG = false -> flag (ctrl ctx1) AGGR_MIN_SIG = false ->
  (flag (ctrl ctx1) AGGR_SIGN_SET = true -> flag (ctrl ctx1) AGGR_MIN_PK = true) ->
  nelems ctx = O -> nelems ctx1 = O ->
  blst_pairing_merge ctx ctx1 =
  (merge_GT (merge_sig_e2 (set_ctrl (Z.lor (ctrl ctx) (Z.land (ctrl ctx1) MIN_SIG_OR_PK)) ctx) ctx1) ctx1,
   BLST_SUCCESS).
Proof.
  intros Hm Hm1 Hs1 H0 H1. unfold blst_pairing_merge.
  rewrite H0, H1. cbn [Nat.eqb negb orb].
  assert (Z.land (Z.land (ctrl ctx) (ctrl ctx1)) MIN_SIG_OR_PK =
          if flag (ctrl ctx) AGGR_MIN_PK && flag (ctrl ctx1) AGGR_MIN_PK then 2 else 0) as E.
  { rewrite mode_value, (flag_land_r _ _ AGGR_MIN_SIG 0), (flag_land_r _ _ AGGR_MIN_PK 1), Hm by done.
    reflexivity. }
  set (c0 := set_ctrl (Z.lor (ctrl ctx) (Z.land (ctrl ctx1) MIN_SIG_OR_PK)) ctx).
  assert (Z.land (ctrl c0) MIN_SIG_OR_PK =
          if flag (ctrl ctx) AGGR_MIN_PK || flag (ctrl ctx1) AGGR_MIN_PK then 2 else 0) as E0.
  { unfold c0. cbn [ctrl set_ctrl]. rewrite mode_value, (mode_value (ctrl ctx1)), !flag_lor, Hm, Hm1.
    by destruct (flag (ctrl ctx) AGGR_MIN_PK), (flag (ctrl ctx1) AGGR_MIN_PK). }
  rewrite E, E0, (mode_value (ctrl ctx)), (mode_value (ctrl ctx1)), Hm, Hm1. clear E E0. clearbody c0.
  destruct (flag (ctrl ctx) AGGR_MIN_PK), (flag (ctrl ctx1) AGGR_MIN_PK) eqn:E1;
    cbn [orb andb negb]; try reflexivity.
  unfold merge_sig_e2. rewrite (flag_land_r _ _ AGGR_SIGN_SET 4) by done.
  destruct (flag (ctrl ctx1) AGGR_SIGN_SET); [by specialize (Hs1 eq_refl)|].
  rewrite !andb_false_r. reflexivity.
Qed.

(** Merging two committed contexts concatenates what they stand for. *)
Lemma represents_merge hoe dst ctx ctx1 pairs pairs1 sig sig1 :
  represents hoe dst ctx pairs sig -> represents hoe dst ctx1 pairs1 sig1 ->
  nelems ctx = O -> nelems ctx1 = O ->
  exists ctx', blst_pairing_merge ctx ctx1 = (ctx', BLST_SUCCESS) /\ nelems ctx' = O /\
    represents hoe dst ctx' (pairs ++ pairs1) (POINTonE2_dadd sig sig1).
Proof.
  intros HR HR1 H0 H1. pose proof (rep_mode _ _ _ _ _ HR1) as Hm1.
  rewrite merge_same_kind; try done; [|by apply (rep_mode _ _ _ _ _ HR)|].
  2: { intros E. pose proof (rep_sig _ _ _ _ _ HR1) as Hs. rewrite E in Hs. tauto. }
  set (c0 := set_ctrl _ ctx).
  assert (represents hoe dst c0 pairs sig /\
          (flag (ctrl ctx1) AGGR_MIN_PK = true -> flag (ctrl c0) AGGR_MIN_PK = true)) as [HR0 HM].
  { unfold c0. cbn [ctrl set_ctrl]. rewrite mode_value, Hm1.
    destruct (flag (ctrl ctx1) AGGR_MIN_PK); cbn [Z.add].
    - split; [by apply represents_set_pk|]. intros _. by flags.
    - rewrite Z.lor_0_r. split; [by destruct ctx|done]. }
  eexists. split; [reflexivity|]. split.
  - unfold merge_GT, merge_sig_e2. by repeat case_match.
  - apply (represents_merge_GT _ _ _ _ _ _ _ sig1); try done.
    + by apply (represents_merge_sig _ _ _ _ _ pairs1).
    + unfold merge_sig_e2. by repeat case_match.
Qed.

(** One worker's context: initialised, fed its calls, committed. *)
Definition worker (hoe : bool) (dst : list Z) (job : PAIRING * list call) : PAIRING :=
  PAIRING_Commit (aggregate_all (blst_pairing_init job.1 hoe dst) job.2).1.

Fixpoint merge_all (ctx : PAIRING) (ctxs : list PAIRING) : PAIRING * list BLST_ERROR :=
  match ctxs with
  | [] => (ctx, [])
  | c :: ctxs =>
      let '(ctx, err) := blst_pairing_merge ctx c in
      let '(ctx, errs) := merge_all ctx ctxs in
      (ctx, err :: errs)
  end.

Definition job_ok (hoe : bool) (dst : list Z) (job : PAIRING * list call) : Prop :=
  arrays_ok job.1 /\ Forall (vetted hoe dst) job.2.

Definition pairs_of (hoe : bool) (dst : list Z) (cs : list call) : list (E2 * E1) :=
  cs ≫= call_pairs hoe dst.

Lemma worker_represents hoe dst job :
  job_ok hoe dst job ->
  represents hoe dst (worker hoe dst job) (pairs_of hoe dst job.2) (sig_sum job.2) /\
  nelems (worker hoe dst job) = O.
Proof.
  intros [Ha Hv]. unfold worker.
  destruct (represents_aggregate_all hoe dst job.2 _ _ _ (represents_init _ hoe dst Ha) Hv)
    as (ctx & -> & HR). by apply represents_commit.
Qed.

Lemma sig_sum_app cs cs' : sig_sum (cs ++ cs') = POINTonE2_dadd (sig_sum cs) (sig_sum cs').
Proof.
  unfold sig_sum. rewrite foldl_app. generalize (foldl (fun acc c => POINTonE2_dadd acc (call_sig c)) e2_inf cs).
  induction cs' as [|c cs' IH] using rev_ind; intros q; cbn.
  - by rewrite e2_right_id.
  - rewrite !foldl_snoc, IH. by rewrite (assoc_L POINTonE2_dadd).
Qed.

Lemma merge_all_represents hoe dst jobs : forall ctx cs,
  represents hoe dst ctx (pairs_of hoe dst cs) (sig_sum cs) -> nelems ctx = O ->
  Forall (job_ok hoe dst) jobs ->
  exists ctx', merge_all ctx (map (worker hoe dst) jobs) = (ctx', replicate (length jobs) BLST_SUCCESS) /\
    nelems ctx' = O /\
    represents hoe dst ctx' (pairs_of hoe dst (cs ++ concat (map snd jobs)))
      (sig_sum (cs ++ concat (map snd jobs))).
Proof.
  induction jobs as [|j jobs IH]; intros ctx cs HR H0 Hj; cbn.
  - exists ctx. by rewrite app_nil_r.
  - apply Forall_cons in Hj as [Hj Hjs]. destruct (worker_represents _ _ _ Hj) as [HR1 H1].
    destruct (represents_merge _ _ _ _ _ _ _ _ HR HR1 H0 H1) as (ctx1 & -> & H01 & HR01).
    rewrite <- sig_sum_app in HR01.
    assert (pairs_of hoe dst cs ++ pairs_of hoe dst j.2 = pairs_of hoe dst (cs ++ j.2)) as E
      by (unfold pairs_of; by rewrite bind_app).
    rewrite E in HR01. destruct (IH _ _ HR01 H01 Hjs) as (ctx2 & -> & H02 & HR2).
    exists ctx2. by rewrite app_assoc.
Qed.

(** ** States every sequence of operations can reach, whatever its inputs *)

Inductive reachable : PAIRING -> Prop :=
  | reach_init mem hoe dst : arrays_ok mem -> reachable (blst_pairing_init mem hoe dst)
  | reach_g1 ctx PK pkchk sig sigchk scalar nbits msg aug :
      reachable ctx ->
      reachable (PAIRING_Aggregate_PK_in_G1 ctx PK pkchk sig sigchk scalar nbits msg aug).1
  | reach_g2 ctx PK pkchk sig sigchk scalar nbits msg aug :
      reachable ctx ->
      reachable (PAIRING_Aggregate_PK_in_G2 ctx PK pkchk sig sigchk scalar nbits msg aug).1
  | reach_raw ctx q p : reachable ctx -> reachable (blst_pairing_raw_aggregate ctx q p)
  | reach_commit ctx : reachable ctx -> reachable (PAIRING_Commit ctx)
  | reach_merge ctx ctx1 :
      reachable ctx -> reachable ctx1 -> reachable (blst_pairing_merge ctx ctx1).1.

(** The buffer index is in range, at most one kind of aggregation is recorded, and
    a recorded signature is stored in the union member of that kind. *)
Record safe (ctx : PAIRING) : Prop := {
  safe_arrays : arrays_ok ctx;
  safe_nelems : (nelems ctx < N_MAX)%nat;
  safe_mode : flag (ctrl ctx) AGGR_MIN_SIG && flag (ctrl ctx) AGGR_MIN_PK = false;
  safe_sig : flag (ctrl ctx) AGGR_SIGN_SET = true ->
    (flag (ctrl ctx) AGGR_MIN_SIG = true /\ exists p, AggrSign ctx = e1 p) \/
    (flag (ctrl ctx) AGGR_MIN_PK = true /\ exists q, AggrSign ctx = e2 q)
}.

Lemma safe_push ctx q p : safe ctx -> safe (push_pair q p ctx).
Proof.
  intros [[HQ HP] Hn Hm Hs]. unfold push_pair, fold_buffer. cbn [ctrl set_QP].
  destruct (Nat.eqb_spec (S (nelems ctx)) N_MAX) as [E|E];
    [destruct (flag (ctrl ctx) AGGR_GT_SET)|]; split; cbn; flags; try done;
    try (split; cbn; by rewrite length_insert); unfold N_MAX in *; lia.
Qed.

Lemma safe_commit ctx : safe ctx -> safe (PAIRING_Commit ctx).
Proof.
  intros [[HQ HP] Hn Hm Hs]. unfold PAIRING_Commit, fold_buffer.
  destruct (Nat.eqb (nelems ctx) 0); [done|].
  destruct (flag (ctrl ctx) AGGR_GT_SET); split; cbn; flags; try done; unfold N_MAX in *; lia.
Qed.

Lemma safe_add_e1 ctx sig chk k ctx' :
  safe ctx -> flag (ctrl ctx) AGGR_MIN_SIG = true ->
  add_sig_e1 sig chk k ctx = Some ctx' -> safe ctx'.
Proof.
  intros HS HM. unfold add_sig_e1. destruct sig as [s|]; [|by intros [= <-]].
  case_bool_decide; [by intros [= <-]|]. case_match; [done|].
  destruct HS as [[HQ HP] Hn Hm Hs]. case_match; intros [= <-]; split; cbn; flags; try done; eauto.
Qed.

Lemma safe_add_e2 ctx sig chk k ctx' :
  safe ctx -> flag (ctrl ctx) AGGR_MIN_PK = true ->
  add_sig_e2 sig chk k ctx = Some ctx' -> safe ctx'.
Proof.
  intros HS HM. unfold add_sig_e2. destruct sig as [s|]; [|by intros [= <-]].
  case_bool_decide; [by intros [= <-]|]. case_match; [done|].
  destruct HS as [[HQ HP] Hn Hm Hs]. case_match; intros [= <-]; split; cbn; flags; try done; eauto.
Qed.

Lemma safe_set_mode ctx f g :
  (f = AGGR_MIN_SIG /\ g = AGGR_MIN_PK) \/ (f = AGGR_MIN_PK /\ g = AGGR_MIN_SIG) ->
  safe ctx -> flag (ctrl ctx) g = false ->
  safe (set_ctrl (Z.lor (ctrl ctx) f) ctx) /\ flag (Z.lor (ctrl ctx) f) f = true.
Proof.
  intros Hfg [[HQ HP] Hn Hm Hs] Hg.
  destruct Hfg as [[-> ->]|[-> ->]]; (split; [split|]); cbn; flags; rewrite ?Hg; try done; intros E;
    destruct (Hs E) as [[HM ?]|[HM ?]]; rewrite HM in *; try done; [left|right]; done.
Qed.

Lemma safe_g1 ctx PK pkchk sig sigchk scalar nbits msg aug :
  safe ctx -> safe (PAIRING_Aggregate_PK_in_G1 ctx PK pkchk sig sigchk scalar nbits msg aug).1.
Proof.
  intros HS. unfold PAIRING_Aggregate_PK_in_G1. case_match eqn:E; [done|].
  destruct (safe_set_mode ctx AGGR_MIN_PK AGGR_MIN_SIG ltac:(by right) HS E) as [HS0 HM].
  case_match eqn:E1; [|done]. eapply safe_add_e2 in E1; [|done..].
  repeat case_match; cbn; first [done | by apply safe_push].
Qed.

Lemma safe_g2 ctx PK pkchk sig sigchk scalar nbits msg aug :
  safe ctx -> safe (PAIRING_Aggregate_PK_in_G2 ctx PK pkchk sig sigchk scalar nbits msg aug).1.
Proof.
  intros HS. unfold PAIRING_Aggregate_PK_in_G2. case_match eqn:E; [done|].
  destruct (safe_set_mode ctx AGGR_MIN_SIG AGGR_MIN_PK ltac:(by left) HS E) as [HS0 HM].
  case_match eqn:E1; [|done]. eapply safe_add_e1 in E1; [|done..].
  repeat case_match; cbn; first [done | by apply safe_push].
Qed.

(** The control word after the kinds are combined. *)
Lemma merged_flags c c1 :
  flag (Z.lor c (Z.land c1 MIN_SIG_OR_PK)) AGGR_MIN_SIG = flag c AGGR_MIN_SIG || flag c1 AGGR_MIN_SIG /\
  flag (Z.lor c (Z.land c1 MIN_SIG_OR_PK)) AGGR_MIN_PK = flag c AGGR_MIN_PK || flag c1 AGGR_MIN_PK /\
  flag (Z.lor c (Z.land c1 MIN_SIG_OR_PK)) AGGR_SIGN_SET = flag c AGGR_SIGN_SET.
Proof.
  rewrite mode_value, !flag_lor.
  destruct (flag c1 AGGR_MIN_SIG), (flag c1 AGGR_MIN_PK); cbn [Z.add Pos.add Pos.succ]; flags;
    rewrite ?orb_false_r; done.
Qed.

Lemma safe_merge_GT ctx ctx1 : safe ctx -> safe (merge_GT ctx ctx1).
Proof.
  intros [[HQ HP] Hn Hm Hs]. unfold merge_GT. repeat case_match; split; cbn; flags; done.
Qed.

Lemma safe_merge_e1 ctx ctx1 :
  safe ctx -> flag (ctrl ctx) AGGR_MIN_SIG = true -> safe (merge_sig_e1 ctx ctx1).
Proof.
  intros [[HQ HP] Hn Hm Hs] HM. unfold merge_sig_e1.
  repeat case_match; split; cbn; flags; try done; left; eauto.
Qed.

Lemma safe_merge_e2 ctx ctx1 :
  safe ctx -> flag (ctrl ctx) AGGR_MIN_PK = true -> safe (merge_sig_e2 ctx ctx1).
Proof.
  intros [[HQ HP] Hn Hm Hs] HM. unfold merge_sig_e2.
  repeat case_match; split; cbn; flags; try done; right; eauto.
Qed.

Lemma safe_merge_mode ctx ctx1 :
  safe ctx -> safe ctx1 ->
  negb (Z.land (ctrl ctx) MIN_SIG_OR_PK =? AGGR_UNDEFINED)
  && negb (Z.land (ctrl ctx1) MIN_SIG_OR_PK =? AGGR_UNDEFINED)
  && (Z.land (Z.land (ctrl ctx) (ctrl ctx1)) MIN_SIG_OR_PK =? 0) = false ->
  safe (set_ctrl (Z.lor (ctrl ctx) (Z.land (ctrl ctx1) MIN_SIG_OR_PK)) ctx).
Proof.
  intros [[HQ HP] Hn Hm Hs] [_ _ Hm1 _] HG.
  rewrite !mode_value, (flag_land_r _ _ AGGR_MIN_SIG 0), (flag_land_r _ _ AGGR_MIN_PK 1) in HG by done.
  destruct (merged_flags (ctrl ctx) (ctrl ctx1)) as (F1 & F2 & F3).
  split; try done; cbn [ctrl set_ctrl]; rewrite ?F1, ?F2, ?F3.
  - clear -Hm Hm1 HG.
    by destruct (flag (ctrl ctx) AGGR_MIN_SIG), (flag (ctrl ctx) AGGR_MIN_PK),
      (flag (ctrl ctx1) AGGR_MIN_SIG), (flag (ctrl ctx1) AGGR_MIN_PK).
  - intros E. destruct (Hs E) as [[-> ?]|[-> ?]]; [left|right]; done.
Qed.

Lemma safe_merge ctx ctx1 :
  safe ctx -> safe ctx1 -> safe (blst_pairing_merge ctx ctx1).1.
Proof.
  intros HS HS1. unfold blst_pairing_merge.
  case_match eqn:E; [done|]. apply safe_merge_mode in E; [|done..]. case_match; [done|].
  set (c0 := set_ctrl _ ctx) in *. clearbody c0. rewrite mode_value.
  destruct (flag (ctrl c0) AGGR_MIN_SIG) eqn:F1, (flag (ctrl c0) AGGR_MIN_PK) eqn:F2; cbn.
  - done.
  - by apply safe_merge_GT, safe_merge_e1.
  - by apply safe_merge_GT, safe_merge_e2.
  - by apply safe_merge_GT.
Qed.

Lemma represents_verify_gt hoe dst ctx pairs sig s :
  represents hoe dst ctx pairs sig -> nelems ctx = O -> POINTonE2_in_G2 s = true ->
  PAIRING_FinalVerify ctx (Some (blst_aggregated_in_g2 s)) =
  negb (bool_decide (pairs = [])) && bool_decide (pairing_product pairs = pairing s BLS12_381_G1).
Proof.
  intros [_ _ _ _ _ _ _ _ (done & Hl & HG)] H0 Hs.
  unfold buffer in Hl. rewrite H0 in Hl. cbn in Hl. rewrite app_nil_r in Hl. subst done.
  unfold PAIRING_FinalVerify. destruct (flag (ctrl ctx) AGGR_GT_SET) eqn:EG; cbn [negb].
  2: { subst pairs. by rewrite bool_decide_eq_true_2. }
  destruct HG as [Hne HG]. rewrite (bool_decide_eq_false_2 (pairs = [])) by done. cbn [negb andb].
  apply bool_decide_ext. rewrite final_check by (apply loop1_nonzero; [done|apply G1_gen]).
  by rewrite HG.
Qed.

Lemma call_sig_plain c s : c_sig c = Some s -> call_scalar c = None -> call_sig c = s.
Proof. unfold call_sig. intros -> ->. by case_bool_decide. Qed.

(** The one-shot verifier on an arbitrary signature point. *)
Lemma core_verify_pk_in_g1_eq mem pk s (hoe : bool) msg dst aug H :
  arrays_ok mem ->
  H = (if hoe then Hash_to_G2 msg dst aug else Encode_to_G2 msg dst aug) ->
  POINTonE1_in_G1 pk = true -> pk <> e1_inf -> H <> e2_inf ->
  blst_core_verify_pk_in_g1 mem pk s hoe msg dst aug = BLST_SUCCESS <->
  POINTonE2_in_G2 s = true /\ pairing H pk = pairing s BLS12_381_G1.
Proof.
  intros Ha HH Hpk Hi HHi.
  destruct (POINTonE2_in_G2 s) eqn:Hs.
  - set (c := mkCall (Some pk) (Some s) None 0 msg aug).
    assert (vetted hoe dst c) as Hv by (split; cbn; [lia| |]; intros ? [= <-]; rewrite ?HH in *; auto).
    destruct (represents_aggregate _ _ _ _ _ _ (represents_init mem hoe dst Ha) Hv) as (ctx & E & HR).
    assert (PAIRING_Aggregate_PK_in_G1 (blst_pairing_init mem hoe dst) (Some pk) true (Some s) true
              None 0 msg aug = (ctx, BLST_SUCCESS)) as E'.
    { rewrite <- E. unfold aggregate, blst_pairing_mul_n_aggregate_pk_in_g1, PAIRING_Aggregate_PK_in_G1.
      cbn -[blst_pairing_init]. by rewrite Hpk. }
    unfold blst_core_verify_pk_in_g1. rewrite E'.
    apply represents_commit in HR as [HR H0]. rewrite (represents_verify _ _ _ _ _ HR H0).
    rewrite (call_sig_plain c s), (left_id_L e2_inf POINTonE2_dadd) by done.
    assert (call_pairs hoe dst c = [(H, pk)]) as -> by (by rewrite HH).
    cbn. rewrite fp12_right_id. case_bool_decide; [tauto|]. split; [done|]. by intros [_ ?].
  - split; [|by intros [? _]]. unfold blst_core_verify_pk_in_g1, PAIRING_Aggregate_PK_in_G1, add_sig_e2.
    rewrite (rep_mode _ _ _ _ _ (represents_init mem hoe dst Ha)).
    assert (s <> e2_inf) by (intros ->; by rewrite G2_inf in Hs).
    by rewrite bool_decide_eq_false_2, Hs by done.
Qed.

(** One signature by the key, put into a fresh context, verifies. *)
Lemma context_accepts pairing_mem sk m dst aug : arrays_ok pairing_mem -> 0 < sk < BLS12_381_r ->
  let H := Hash_to_G2 m dst aug in
  H <> e2_inf ->
  exists ctx, blst_pairing_aggregate_pk_in_g1 (blst_pairing_init pairing_mem true dst) (Some (POINTonE1_mult BLS12_381_G1 sk))
                (Some (POINTonE2_mult H sk)) m aug = (ctx, BLST_SUCCESS) /\
    PAIRING_FinalVerify (PAIRING_Commit ctx) None = true.
Proof.
  intros Hmem Hsk H HH. assert (POINTonE2_in_G2 H = true) as HG by apply Hash_to_G2_in.
  assert (POINTonE2_in_G2 (POINTonE2_mult H sk) = true) as HS by (apply G2_mult; [done|lia]).
  assert (POINTonE1_in_G1 (POINTonE1_mult BLS12_381_G1 sk) = true) as HP by (apply G1_mult; [apply G1_gen|lia]).
  set (c := mkCall (Some (POINTonE1_mult BLS12_381_G1 sk)) (Some (POINTonE2_mult H sk)) None 0 m aug).
  assert (vetted true dst c) as Hv.
  { split; cbn; [lia| |]; intros ? [= <-]; [|by right]. pose proof (gen_mult_not_inf sk Hsk). auto. }
  destruct (represents_aggregate _ _ _ _ _ _ (represents_init pairing_mem true dst Hmem) Hv) as (ctx & E & HR).
  exists ctx. split; [exact E|]. apply represents_commit in HR as [HR H0].
  rewrite (represents_verify _ _ _ _ _ HR H0), bool_decide_eq_false_2 by done. apply bool_decide_eq_true_2.
  rewrite (call_sig_plain c (POINTonE2_mult H sk)), (left_id_L e2_inf POINTonE2_dadd) by done.
  cbn. rewrite fp12_right_id. symmetry. apply pairing_mult; [done|apply G1_gen|lia].
Qed.

(** C12: the buffered, lazily folded context computes the textbook aggregate
    verification.  After any sequence of vetted aggregate calls (with or without
    scalars, keys and signatures given or omitted) every call succeeds, and the
    final check holds exactly when at least one key was given and the product of
    the pairings of message hashes and keys equals the pairing of the sum of the
    signatures with the generator, however the calls filled and flushed the
    eight-element buffer. *)
Theorem pairing_context_refines_product hoe dst mem cs :
  arrays_ok mem -> Forall (vetted hoe dst) cs ->
  exists ctx,
    aggregate_all (blst_pairing_init mem hoe dst) cs = (ctx, replicate (length cs) BLST_SUCCESS) /\
    PAIRING_FinalVerify (PAIRING_Commit ctx) None =
    negb (bool_decide (pairs_of hoe dst cs = [])) &&
    bool_decide (pairing_product (pairs_of hoe dst cs) = pairing (sig_sum cs) BLS12_381_G1).
Proof.
  intros Ha Hv.
  destruct (represents_aggregate_all hoe dst cs _ _ _ (represents_init _ hoe dst Ha) Hv)
    as (ctx & E & HR). exists ctx. split; [done|].
  apply represents_commit in HR as [HR H0]. by rewrite (represents_verify _ _ _ _ _ HR H0).
Qed.

(** The multi-processor usage pattern is sound.  Contexts fed separate slices of
    the calls and committed merge without an error, the merged context gives the
    verdict a single context fed all the calls would give, and against a separately
    computed aggregate signature [s] it compares the product of all slices with
    the pairing of [s]. *)
Theorem merged_slices_verify_like_one hoe dst j jobs s :
  job_ok hoe dst j -> Forall (job_ok hoe dst) jobs -> POINTonE2_in_G2 s = true ->
  let calls := j.2 ++ concat (map snd jobs) in
  exists ctx,
    merge_all (worker hoe dst j) (map (worker hoe dst) jobs) =
      (ctx, replicate (length jobs) BLST_SUCCESS) /\
    PAIRING_FinalVerify ctx None = PAIRING_FinalVerify (worker hoe dst (j.1, calls)) None /\
    PAIRING_FinalVerify ctx (Some (blst_aggregated_in_g2 s)) =
      negb (bool_decide (pairs_of hoe dst calls = [])) &&
      bool_decide (pairing_product (pairs_of hoe dst calls) = pairing s BLS12_381_G1).
Proof.
  intros Hj Hjs Hs calls. destruct (worker_represents _ _ _ Hj) as [HR H0].
  destruct (merge_all_represents _ _ jobs _ _ HR H0 Hjs) as (ctx & E & H1 & HR1).
  exists ctx. split; [done|].
  assert (job_ok hoe dst (j.1, calls)) as Hjc.
  { destruct Hj as [Ha Hv]. split; [done|]. apply Forall_app. split; [done|].
    apply Forall_concat, Forall_map. by eapply Forall_impl; [exact Hjs|]; intros ? [_ ?]. }
  destruct (worker_represents _ _ _ Hjc) as [HR2 H2]. split.
  - by rewrite (represents_verify _ _ _ _ _ HR1 H1), (represents_verify _ _ _ _ _ HR2 H2).
  - by apply (represents_verify_gt _ _ _ _ _ _ HR1 H1).
Qed.

(** One-shot verification accepts exactly one signature.  For a key
    [sk * G1] other than infinity and a message whose hash is not infinity, the
    verifier accepts a point of the curve if and only if it is [sk] times the
    message hash: every honest signature passes, and nothing else does, points
    outside the prime-order subgroup included. *)
Theorem core_verify_accepts_only_the_signature mem sk s (hoe : bool) msg dst aug :
  let pk := POINTonE1_mult BLS12_381_G1 sk in
  let H := if hoe then Hash_to_G2 msg dst aug else Encode_to_G2 msg dst aug in
  arrays_ok mem -> 0 <= sk -> pk <> e1_inf -> H <> e2_inf ->
  blst_core_verify_pk_in_g1 mem pk s hoe msg dst aug = BLST_SUCCESS <-> s = POINTonE2_mult H sk.
Proof.
  intros pk H Ha Hsk Hpk HH.
  assert (POINTonE2_in_G2 H = true) as HG by (unfold H; destruct hoe; [apply Hash_to_G2_in|apply Encode_to_G2_in]).
  rewrite (core_verify_pk_in_g1_eq mem pk s hoe msg dst aug H) by (done || by apply G1_mult, Hsk; apply G1_gen).
  unfold pk. rewrite <- pairing_mult by (done || apply G1_gen). split.
  - intros [Hs E]. symmetry. apply pairing_gen_inj; [by apply G2_mult|done|done].
  - intros ->. split; [by apply G2_mult|done].
Qed.

(** Whatever the arguments (infinite or non-subgroup points, mixed kinds, raw
    pairs, merges, error returns), in every reachable context the buffer index
    stays below [N_MAX], the key-in-G1 and key-in-G2 kinds are never both
    recorded, and a recorded signature sits in the union member of the recorded
    kind, so no operation writes past the buffer or reads the other member. *)
Theorem reachable_context_safe ctx : reachable ctx -> safe ctx.
Proof.
  induction 1; auto using safe_g1, safe_g2, safe_commit, safe_merge.
  - destruct H as [HQ HP]. split; cbn; try (by destruct hoe). unfold N_MAX; lia.
  - unfold blst_pairing_raw_aggregate. case_match; [done|]. by apply safe_push.
Qed.

End Context_.

(** ** A model of the laws

    Points are a number modulo the group order (the prime-order subgroup) with a
    cofactor bit; the pairing multiplies the two numbers.  It shows that the laws can
    hold together and evaluates the theorems. *)

Abbreviation Zr := (Zmod BLS12_381_r).
Definition zr (k : Z) : Zr := Zmod.of_Z BLS12_381_r k.

#[export] Instance Zr_eq : EqDecision Zr.
Proof.
  intros a b. destruct (Zmod.eqb a b) eqn:E; [left; by apply Zmod.eqb_eq|right].
  intros H. apply Zmod.eqb_eq in H. congruence.
Defined.

Definition toy_point : Type := Zr * bool.
Definition toy_inf : toy_point := (zr 0, false).
Definition toy_add (p p' : toy_point) : toy_point := (Zmod.add p.1 p'.1, xorb p.2 p'.2).
Definition toy_mult (p : toy_point) (k : Z) : toy_point := (Zmod.mul (zr k) p.1, Z.odd k && p.2).
(** right on the subgroup only *)
Definition toy_mult_glv (p : toy_point) (k : Z) : toy_point := if p.2 then toy_inf else toy_mult p k.
Definition toy_cneg (p : toy_point) (neg : bool) : toy_point := if neg then (Zmod.opp p.1, p.2) else p.
Definition toy_mul12 (a b : option Zr) : option Zr :=
  match a, b with Some x, Some y => Some (Zmod.add x y) | _, _ => None end.
Definition toy_serialize (header : Z) (n : nat) (p : toy_point) : list Z :=
  (header + if p.2 then 1 else 0) :: le_bytes 32 (Zmod.to_Z p.1) ++ replicate n 0.
Definition toy_deserialize (l : list Z) : toy_point + BLST_ERROR :=
  match l with
  | b :: l => inl (zr (le_value (take 32 l)), Z.odd b)
  | [] => inr BLST_BAD_ENCODING
  end.

Definition toy_fp12_bytes (a : option Zr) : list Z :=
  match a with Some x => reverse (le_bytes 576 (Zmod.to_Z x)) | None => replicate 576 255 end.

Fixpoint toy_sum (l : list (toy_point * toy_point)) : Zr :=
  match l with
  | [] => zr 0
  | x :: l => Zmod.add (Zmod.mul x.1.1 x.2.1) (toy_sum l)
  end.

Definition toy : Curve := {|
  E1 := toy_point; E2 := toy_point; FP12 := option Zr;
  E1_eq := _; E2_eq := _; FP12_eq := _;
  e1_inf := toy_inf; e2_inf := toy_inf;
  POINTonE1_dadd := toy_add; POINTonE2_dadd := toy_add;
  POINTonE1_double := fun p => toy_add p p; POINTonE2_double := fun p => toy_add p p;
  POINTonE1_cneg := toy_cneg; POINTonE2_cneg := toy_cneg;
  POINTonE1_mult := toy_mult; POINTonE2_mult := toy_mult;
  POINTonE1_mult_glv := toy_mult_glv; POINTonE2_mult_gls := toy_mult_glv;
  POINTonE1_on_curve := fun _ => true; POINTonE2_on_curve := fun _ => true;
  POINTonE1_in_G1 := fun p => negb p.2; POINTonE2_in_G2 := fun p => negb p.2;
  BLS12_381_G1 := (zr 1, false); BLS12_381_G2 := (zr 1, false);
  fp12_zero := None; fp12_one := Some (zr 0); mul_fp12 := toy_mul12; sqr_fp12 := fun a => toy_mul12 a a;
  fp12_in_group := fun a => match a with Some _ => true | None => false end;
  bendian_from_fp12 := toy_fp12_bytes;
  conjugate_fp12 := option_map Zmod.opp; final_exp := fun a => a;
  miller_lines := fun l => Some (toy_sum l);
  Hash_to_G1 := fun _ _ _ => (zr 1, false); Encode_to_G1 := fun _ _ _ => (zr 2, false);
  Hash_to_G2 := fun m _ _ => (if Nat.even (length m) then zr 1 else zr 2, false);
  Encode_to_G2 := fun _ _ _ => (zr 2, false);
  blst_p1_serialize := toy_serialize 0 63; blst_p2_serialize := toy_serialize 0 159;
  blst_p1_compress := toy_serialize 128 15; blst_p2_compress := toy_serialize 128 63;
  blst_p1_deserialize := toy_deserialize; blst_p2_deserialize := toy_deserialize;
  e1_of_e2_bytes := fun q => q; e2_of_e1_bytes := fun p => p
|}.

Add Ring Zr_ring : (Zmod.ring_theory BLS12_381_r).

Lemma zr_0 : zr 0 = Zmod.zero.
Proof. done. Qed.

Lemma zr_add a b : zr (a + b) = Zmod.add (zr a) (zr b).
Proof. unfold zr. by rewrite Zmod.of_Z_add. Qed.

Lemma order_pos : 1 < BLS12_381_r.
Proof. done. Qed.

Lemma zr_range (x : Zr) : 0 <= Zmod.to_Z x < BLS12_381_r.
Proof. pose proof order_pos. pose proof (Zmod.to_Z_range x). lia. Qed.

Lemma toy_add_assoc : Assoc (=) toy_add.
Proof. intros [x a] [y b] [z c]. unfold toy_add. cbn [fst snd]. apply pair_equal_spec. split; [ring|by destruct a, b, c]. Qed.

Lemma toy_add_comm : Comm (=) toy_add.
Proof. intros [x a] [y b]. unfold toy_add. cbn [fst snd]. apply pair_equal_spec. split; [ring|by destruct a, b]. Qed.

Lemma toy_add_id : LeftId (=) toy_inf toy_add.
Proof. intros [x a]. unfold toy_add, toy_inf. rewrite zr_0. cbn [fst snd]. apply pair_equal_spec. split; [ring|by destruct a]. Qed.

Lemma toy_mult_0 p : toy_mult p 0 = toy_inf.
Proof. unfold toy_mult, toy_inf. rewrite zr_0. apply pair_equal_spec. split; [ring|done]. Qed.

Lemma toy_mult_1 p : toy_mult p 1 = p.
Proof. destruct p as [x a]. unfold toy_mult. change (zr 1) with (@Zmod.one BLS12_381_r). cbn [fst snd]. apply pair_equal_spec. split; [ring|done]. Qed.

Lemma toy_mult_add p a b : toy_mult p (a + b) = toy_add (toy_mult p a) (toy_mult p b).
Proof.
  unfold toy_mult, toy_add. rewrite zr_add, Z.odd_add. destruct p as [x c]. cbn [fst snd].
  apply pair_equal_spec. split; [ring|by destruct (Z.odd a), (Z.odd b), c].
Qed.

Lemma toy_order p k : p.2 = false -> p <> toy_inf -> toy_mult p k = toy_inf -> (BLS12_381_r | k).
Proof.
  destruct p as [x c]. cbn. intros -> Hp. unfold toy_mult, toy_inf. intros Hz.
  apply (f_equal fst), (f_equal Zmod.to_Z) in Hz. cbn [fst] in Hz. unfold zr in Hz. rewrite Zmod.to_Z_mul, !Zmod.to_Z_of_Z in Hz.
  rewrite Z.mul_mod_idemp_l, Z.mod_0_l in Hz by done. apply Z.mod_divide in Hz; [|done].
  apply Z.divide_prime_mul in Hz as [Hz|Hz]; [done| |apply Scalar.order_prime].
  destruct Hp. f_equal. rewrite zr_0. apply Zmod.to_Z_inj. rewrite Zmod.to_Z_0.
  pose proof (zr_range x) as R. destruct Hz as [j Hj]. assert (j = 0) by nia. lia.
Qed.

Lemma toy_neg p : toy_cneg p false = p /\ toy_add p (toy_cneg p true) = toy_inf.
Proof.
  destruct p as [x c]. split; [done|]. unfold toy_add, toy_inf, toy_cneg. rewrite zr_0. cbn [fst snd].
  apply pair_equal_spec. split; [ring|by destruct c].
Qed.

Lemma toy_wire header n p short long : (header = 0 /\ S (32 + n) = long) \/ (header = 128 /\ S (32 + n) = short) ->
  wire_length_ok (toy_serialize header n p) short long = true /\ toy_deserialize (toy_serialize header n p) = inl p.
Proof.
  intros H. unfold wire_length_ok, toy_serialize, toy_deserialize. cbn [length].
  rewrite length_app, length_le_bytes, length_replicate. destruct p as [x c]. cbn [fst snd]. split.
  - destruct H as [[-> <-]|[-> <-]], c; apply Nat.eqb_refl.
  - assert (take 32 (le_bytes 32 (Zmod.to_Z x) ++ replicate n 0) = le_bytes 32 (Zmod.to_Z x)) as ->.
    { rewrite take_app_le by (rewrite length_le_bytes; lia). apply take_ge. rewrite length_le_bytes. lia. }
    pose proof (zr_range x) as R. rewrite le_value_bytes, Z.mod_small.
    + unfold zr. rewrite Zmod.of_Z_to_Z. by destruct H as [[-> _]|[-> _]], c.
    + destruct Scalar.order_facts as [Hr _]. unfold BLS12_381_r in *. change (256 ^ Z.of_nat 32) with (2 ^ 256). lia.
Qed.

Lemma toy_serialized header n p : header = 0 \/ header = 128 -> wire_bytes (S (32 + n)) (toy_serialize header n p).
Proof.
  intros H. unfold toy_serialize. split.
  - constructor; [unfold byte_ok; destruct p.2; lia|]. apply Forall_app. split; [apply le_bytes_ok|by apply Forall_replicate].
  - cbn [length]. by rewrite length_app, length_le_bytes, length_replicate.
Qed.

Lemma toy_fp12_serialized a : wire_bytes 576 (toy_fp12_bytes a).
Proof.
  destruct a as [x|]; split; unfold toy_fp12_bytes.
  - apply Forall_reverse, le_bytes_ok.
  - rewrite length_reverse. apply length_le_bytes.
  - by apply Forall_replicate.
  - apply length_replicate.
Qed.

Lemma toy_lines_app (l l' : list (toy_point * toy_point)) :
  @miller_lines toy (l ++ l') = toy_mul12 (@miller_lines toy l) (@miller_lines toy l').
Proof.
  cbn. f_equal. induction l as [|x l IH]; cbn [app toy_sum]; [rewrite zr_0; ring|]. rewrite IH. ring.
Qed.

Lemma toy_pairing (q p : toy_point) : @pairing toy q p = Some (Zmod.mul q.1 p.1).
Proof.
  unfold pairing, miller_loop_n. cbn [zip_with take].
  destruct (decide (q = toy_inf)) as [-> |Hq], (decide (p = toy_inf)) as [-> |Hp].
  1-3: rewrite ?(bool_decide_eq_true_2 (toy_inf = toy_inf)) by done; rewrite ?orb_true_r; cbn; f_equal; rewrite zr_0; ring.
  rewrite !bool_decide_eq_false_2 by done. cbn. f_equal. rewrite zr_0. ring.
Qed.

#[export] Instance toy_laws : CurveLaws toy.
Proof.
  split; try exact toy_add_assoc; try exact toy_add_comm; try exact toy_add_id; try exact toy_mult_0; try exact toy_mult_1;
    try (intros; apply toy_mult_add); try (intros; apply toy_neg); try done.
  - intros [x []] [x' []]; done.
  - intros p k Hp. apply negb_true_iff in Hp. intros. by apply (toy_order p).
  - intros q Hq. exists (toy_cneg q true). split; [by destruct q|apply toy_neg].
  - intros [x []] [x' []]; done.
  - intros [x|] [y|] [z|]; cbn; try done. f_equal. ring.
  - intros [x|] [y|]; cbn; try done. f_equal. ring.
  - intros [x|]; cbn; try done. f_equal. rewrite zr_0. ring.
  - intros [x|]; [|done]. intros _. cbn. f_equal. rewrite zr_0. ring.
  - intros. apply toy_lines_app.
  - intros. rewrite !toy_pairing. cbn. f_equal. ring.
  - intros. rewrite !toy_pairing. cbn. f_equal. ring.
  - intros q Hq E. rewrite toy_pairing in E. destruct q as [x []]; [done|].
    change (Some (Zmod.mul x (zr 1)) = Some (zr 0)) in E. apply (inj Some) in E.
    apply pair_equal_spec. split; [|done]. rewrite <- E.
    change (zr 1) with (@Zmod.one BLS12_381_r). ring.
  - intros [x []] k; [done|]. done.
  - intros [x []] k; [done|]. done.
  - intros p. apply (toy_serialized 0 63). by left.
  - intros p. apply (toy_serialized 0 159). by left.
  - intros p. apply (toy_serialized 128 15). by right.
  - intros p. apply (toy_serialized 128 63). by right.
  - exact toy_fp12_serialized.
  - intros p _. apply toy_wire. by left.
  - intros p _. apply toy_wire. by left.
  - intros p _. apply toy_wire. by right.
  - intros p _. apply toy_wire. by right.
  - intros [|b l] e; [|done]. intros [= <-]. by left.
  - intros [|b l] e; [|done]. intros [= <-]. by left.
Qed.

Definition toy_mem : @PAIRING toy :=
  @mkPAIRING toy 0 0 [] None (@e1 toy (zr 1, true)) (replicate N_MAX (zr 2, true)) (replicate N_MAX (zr 1, true)).

(** Nine signed messages: the eighth fills the buffer, which is then flushed. *)
Definition toy_call (m : list Z) : @call toy :=
  @mkCall toy (Some (zr 2, false)) (Some (toy_mult (@Hash_to_G2 toy m [] []) 2)) None 0 m [].
Definition toy_calls : list (@call toy) := map (fun n => toy_call (replicate n 7)) (seq 0 9).

Lemma toy_call_vetted m : vetted true [] (toy_call m).
Proof.
  split; cbn; [lia| |]; intros ? [= <-].
  - split_and!; try done. unfold call_hash. cbn. by destruct (Nat.even _).
  - right. unfold call_hash, toy_mult. cbn. done.
Qed.

Lemma toy_calls_vetted : Forall (vetted true []) toy_calls.
Proof. apply Forall_map, Forall_forall. intros n _. apply toy_call_vetted. Qed.

Lemma toy_mem_ok : arrays_ok toy_mem.
Proof. by split. Qed.

Lemma pairing_context_refines_product_witness :
  exists ctx,
    aggregate_all (blst_pairing_init toy_mem true []) toy_calls = (ctx, replicate 9 BLST_SUCCESS) /\
    PAIRING_FinalVerify (PAIRING_Commit ctx) None = true.
Proof.
  destruct (@pairing_context_refines_product toy toy_laws true [] toy_mem toy_calls toy_mem_ok
              toy_calls_vetted) as (ctx & E & V).
  exists ctx. split; [exact E|]. rewrite V. vm_compute. reflexivity.
Defined.

Lemma merged_slices_verify_like_one_witness :
  exists ctx,
    merge_all (worker true [] (toy_mem, toy_calls)) [worker true [] (toy_mem, [toy_call [1]])] =
      (ctx, [BLST_SUCCESS]) /\
    PAIRING_FinalVerify ctx None = true /\
    PAIRING_FinalVerify ctx (Some (blst_aggregated_in_g2 ((zr 2, false) : @E2 toy))) = false.
Proof.
  destruct (@merged_slices_verify_like_one toy toy_laws true [] (toy_mem, toy_calls)
              [(toy_mem, [toy_call [1]])] (zr 2, false)) as (ctx & E & V & W).
  - exact (conj toy_mem_ok toy_calls_vetted).
  - constructor; [|constructor]. split; [exact toy_mem_ok|]. constructor; [apply toy_call_vetted|constructor].
  - reflexivity.
  - exists ctx. split; [exact E|]. rewrite V, W. split; vm_compute; reflexivity.
Defined.

Lemma core_verify_accepts_only_the_signature_witness :
  @blst_core_verify_pk_in_g1 toy toy_mem (zr 2, false) (zr 4, false) true [7] [] [] = BLST_SUCCESS.
Proof.
  apply (@core_verify_accepts_only_the_signature toy toy_laws toy_mem 2 (zr 4, false) true [7] [] []).
  - exact toy_mem_ok.
  - lia.
  - vm_compute. discriminate.
  - vm_compute. discriminate.
  - vm_compute. reflexivity.
Defined.

Lemma reachable_context_safe_witness :
  @safe toy (@PAIRING_Aggregate_PK_in_G1 toy (blst_pairing_init toy_mem true []) (Some toy_inf) true
               (Some (zr 1, false)) true None 0 [] []).1.
Proof. apply reachable_context_safe, reach_g1, reach_init, toy_mem_ok. Defined.

