(* ===== verification/BlstNode.v ===== *)
(** * The JavaScript interface of the BLS library

    src/src/blst/bindings/node.js/blst.hpp.ts declares to TypeScript the classes of
    src/src/blst/bindings/blst.hpp as src/src/blst/bindings/blst.swg exposes them to
    Node.  This file has the three of them: the declarations as data (one signature per
    line of the .ts file), the C++ methods as operations on a heap of mutable objects
    behind JavaScript wrappers, and the argument conversions of the SWIG interface
    between the two.  The theorems say what every call that type-checks does (it returns
    what is declared, or throws exactly the exception [failure] computes), and what the
    methods compute. *)

From stdpp Require Import prelude strings list.
From Stdlib Require Import ZArith Lia.
From S2P Require Import Prelude Serialize Limbs Scalar Sha256 Keygen HashToField Blst.

Open Scope Z_scope.

Module BlstNode.

(** ** Classes, objects, values *)

Inductive cls := SecretKey | Scalar_ | P1_Affine | P1 | P2_Affine | P2 | PT | Pairing_.

#[export] Instance cls_eq : EqDecision cls.
Proof. solve_decision. Defined.

Section Objects.
Context {C : Curve}.

(** A C++ object: what the one data member of its class holds. *)
Inductive object :=
  | OSecretKey (key : list Z)
  | OScalar (val : list Z)
  | OP1_Affine (point : E1)
  | OP1 (point : E1)
  | OP2_Affine (point : E2)
  | OP2 (point : E2)
  | OPT (value : FP12)
  | OPairing (ctx : PAIRING).

Definition class_of (o : object) : cls :=
  match o with
  | OSecretKey _ => SecretKey | OScalar _ => Scalar_
  | OP1_Affine _ => P1_Affine | OP1 _ => P1 | OP2_Affine _ => P2_Affine | OP2 _ => P2
  | OPT _ => PT | OPairing _ => Pairing_
  end.

(** JavaScript values; strings are their UTF-8 bytes, an object is its wrapper, and of a
    number only the integral part is kept, which is all the bindings use. *)
Inductive value :=
  | VUndefined
  | VNull
  | VBoolean (b : bool)
  | VNumber (n : Z)
  | VBigInt (n : Z)
  | VString (s : string)
  | VBytes (l : list Z)
  | VObject (i : nat).

(** What a call can throw: a string, an [Error] with a message, an error code of the library as the message of an
    exception, the conversion errors of SWIG ([ThrowTypeError] stands for a TypeError of a
    conversion and for the error SWIG throws when no overload fits the arguments); or it
    never returns, or its behaviour is undefined. *)
Inductive exn :=
  | ThrowString (s : string)
  | ThrowMessage (s : string)
  | ThrowError (e : BLST_ERROR)
  | ThrowTypeError
  | ThrowIndexError
  | ThrowRangeError
  | NoResult
  | UndefinedBehaviour.

(** A JavaScript wrapper: the address of the C++ object, its class, and whether the
    object is deleted when the wrapper is collected. *)
Record wrapper := mkWrapper { w_addr : nat; w_class : cls; w_own : bool }.

(** The process: the C++ objects by address, [None] once deleted; the wrappers; the
    lines written to the console. *)
Record world := mkWorld {
  objects : list (option object);
  wrappers : list wrapper;
  console : list string
}.

Definition M (A : Type) : Type := world -> world * (A + exn).

#[export] Instance M_ret : MRet M := fun A a w => (w, inl a).
#[export] Instance M_bind : MBind M := fun A B k m w =>
  match m w with
  | (w, inl a) => k a w
  | (w, inr e) => (w, inr e)
  end.

Definition throw {A} (e : exn) : M A := fun w => (w, inr e).
Definition console_log (s : string) : M value :=
  fun w => (mkWorld (objects w) (wrappers w) (console w ++ [s]), inl VUndefined).

Definition load (addr : nat) : M object := fun w =>
  match objects w !! addr with
  | Some (Some o) => (w, inl o)
  | _ => (w, inr UndefinedBehaviour)
  end.

Definition store (addr : nat) (o : object) : M () := fun w =>
  (mkWorld (<[addr := Some o]> (objects w)) (wrappers w) (console w), inl ()).

(** [new] of a C++ object with a wrapper that owns it *)
Definition allocate (o : object) : M value := fun w =>
  (mkWorld (objects w ++ [Some o]) (wrappers w ++ [mkWrapper (length (objects w)) (class_of o) true]) (console w),
   inl (VObject (length (wrappers w)))).

(** a second wrapper for an object that exists, which does not own it *)
Definition wrap_pointer (c : cls) (addr : nat) : M value := fun w =>
  (mkWorld (objects w) (wrappers w ++ [mkWrapper addr c false]) (console w), inl (VObject (length (wrappers w)))).

(** The collector finds a wrapper unreachable; the object goes with its owner. *)
Definition collect (i : nat) : M value := fun w =>
  match wrappers w !! i with
  | Some (mkWrapper addr _ true) => (mkWorld (<[addr := None]> (objects w)) (wrappers w) (console w), inl VUndefined)
  | _ => (w, inl VUndefined)
  end.

(** ** Argument conversions (blst.swg) *)

(** The C++ parameters, as SWIG groups them: [BytesOf] is a pointer with a length,
    [Bytes32] a pointer to 32 bytes, [ScalarBits] a pointer with a number of bits. *)
Inductive param :=
  | BytesOf
  | Bytes32
  | StdString
  | Bool
  | UInt
  | ScalarBits
  | Ref (c : cls)
  | Ptr (c : cls).

Definition arg (p : param) : Type :=
  match p with
  | BytesOf | Bytes32 | StdString => list Z
  | Bool => bool
  | UInt => Z
  | ScalarBits => list Z * Z
  | Ref _ => nat
  | Ptr _ => option nat
  end.

Fixpoint args (ps : list param) : Type :=
  match ps with
  | [] => unit
  | p :: ps => arg p * args ps
  end.

(** the number of 64-bit words of a natural number *)
Definition word_count (n : Z) : nat :=
  if n =? 0 then 0%nat else Z.to_nat (Z.log2 n / 64 + 1).

Definition typemap_bytes (v : value) : list Z + exn :=
  match v with
  | VBytes l => inl l
  | VString s => inl (Keygen.bytes_of_string s)
  | VNull => inl []
  | _ => inr ThrowTypeError
  end.

Definition typemap_bytes32 (v : value) : list Z + exn :=
  match v with
  | VBytes l => if (length l =? 32)%nat then inl l else inr ThrowIndexError
  | _ => inr ThrowTypeError
  end.

Definition typemap_scalar (v : value) : (list Z * Z) + exn :=
  match v with
  | VBytes l => inl (l, 8 * Z.of_nat (length l))
  | VBigInt n =>
      if n <? 0 then inr ThrowTypeError
      else inl (le_bytes (8 * word_count n) n, 8 * (8 * Z.of_nat (word_count n)))
  | _ => inr ThrowTypeError
  end.

Definition typemap_ref (w : world) (c : cls) (v : value) : nat + exn :=
  match v with
  | VObject i =>
      match wrappers w !! i with
      | Some o => if bool_decide (w_class o = c) then inl (w_addr o) else inr ThrowTypeError
      | None => inr ThrowTypeError
      end
  | _ => inr ThrowTypeError
  end.

Definition convert (w : world) (p : param) (v : value) : arg p + exn :=
  match p with
  | BytesOf => typemap_bytes v
  | Bytes32 => typemap_bytes32 v
  | StdString => match v with VString s => inl (Keygen.bytes_of_string s) | _ => inr ThrowTypeError end
  | Bool => match v with VBoolean b => inl b | _ => inr ThrowTypeError end
  | UInt => match v with
            | VNumber n => if (0 <=? n) && (n <? 2 ^ 32) then inl n else inr ThrowRangeError
            | _ => inr ThrowTypeError
            end
  | ScalarBits => typemap_scalar v
  | Ref c => typemap_ref w c v
  | Ptr c => match v with
             | VNull => inl None
             | _ => match typemap_ref w c v with inl a => inl (Some a) | inr e => inr e end
             end
  end.

Fixpoint convert_all (w : world) (ps : list param) (vs : list value) : args ps + exn :=
  match ps, vs with
  | [], [] => inl tt
  | p :: ps, v :: vs =>
      match convert w p v with
      | inl a => match convert_all w ps vs with inl l => inl (a, l) | inr e => inr e end
      | inr e => inr e
      end
  | _, _ => inr ThrowTypeError
  end.

(** One C++ function as SWIG wraps it. *)
Record overload := mkOverload {
  params : list param;
  body : args params -> M value
}.

(** The overloads of the right number of arguments are tried in turn. *)
Fixpoint try_overloads (os : list overload) (vs : list value) : M value := fun w =>
  match os with
  | [] => (w, inr ThrowTypeError)
  | o :: os =>
      match convert_all w (params o) vs with
      | inl a => body o a w
      | inr _ => try_overloads os vs w
      end
  end.

(** A function with one signature reports why its arguments do not convert; one with
    several, only that none of them fits. *)
Definition dispatch (os : list overload) (vs : list value) : M value := fun w =>
  match os with
  | [o] => match convert_all w (params o) vs with
           | inl a => body o a w
           | inr e => (w, inr e)
           end
  | _ => try_overloads os vs w
  end.
End Objects.

(** ** The two groups

    The classes of the two curves are the same text twice in blst.hpp; here they are one,
    over the operations of the curve. *)

Section Groups.
Context {C : Curve}.

Record group := mkGroup {
  point : Type;
  point_eq :: EqDecision point;
  c_affine : cls;
  c_jacobian : cls;
  O_affine : point -> object;
  O_jacobian : point -> object;
  affine_of : object -> option point;
  jacobian_of : object -> option point;
  g_inf : point;
  g_generator : point;
  g_dadd : point -> point -> point;
  g_double : point -> point;
  g_cneg : point -> bool -> point;
  g_mult_w : point -> Z -> point;
  g_mult_endo : point -> Z -> point;
  g_endo_bits : Z;
  g_on_curve : point -> bool;
  g_in_group : point -> bool;
  g_hash : list Z -> list Z -> list Z -> point;
  g_encode : list Z -> list Z -> list Z -> point;
  g_serialize : point -> list Z;
  g_compress : point -> list Z;
  g_deserialize : list Z -> point + BLST_ERROR;
  g_short : nat;
  g_long : nat
}.

Definition G1_ops : group := {|
  point := E1; c_affine := P1_Affine; c_jacobian := P1; O_affine := OP1_Affine; O_jacobian := OP1;
  affine_of := fun o => match o with OP1_Affine p => Some p | _ => None end;
  jacobian_of := fun o => match o with OP1 p => Some p | _ => None end;
  g_inf := e1_inf; g_generator := BLS12_381_G1; g_dadd := POINTonE1_dadd; g_double := POINTonE1_double;
  g_cneg := POINTonE1_cneg; g_mult_w := POINTonE1_mult; g_mult_endo := POINTonE1_mult_glv; g_endo_bits := 176;
  g_on_curve := POINTonE1_on_curve; g_in_group := POINTonE1_in_G1; g_hash := Hash_to_G1; g_encode := Encode_to_G1;
  g_serialize := blst_p1_serialize; g_compress := blst_p1_compress; g_deserialize := blst_p1_deserialize;
  g_short := 48; g_long := 96 |}.

Definition G2_ops : group := {|
  point := E2; c_affine := P2_Affine; c_jacobian := P2; O_affine := OP2_Affine; O_jacobian := OP2;
  affine_of := fun o => match o with OP2_Affine p => Some p | _ => None end;
  jacobian_of := fun o => match o with OP2 p => Some p | _ => None end;
  g_inf := e2_inf; g_generator := BLS12_381_G2; g_dadd := POINTonE2_dadd; g_double := POINTonE2_double;
  g_cneg := POINTonE2_cneg; g_mult_w := POINTonE2_mult; g_mult_endo := POINTonE2_mult_gls; g_endo_bits := 144;
  g_on_curve := POINTonE2_on_curve; g_in_group := POINTonE2_in_G2; g_hash := Hash_to_G2; g_encode := Encode_to_G2;
  g_serialize := blst_p2_serialize; g_compress := blst_p2_compress; g_deserialize := blst_p2_deserialize;
  g_short := 96; g_long := 192 |}.
End Groups.

(** ** The methods (blst.hpp) *)

Section Methods.
Context {C : Curve}.
(** The width of the limbs, the turns key generation may take, and what memory held
    before: the scratch of key generation, the stack of the message expansion, a pairing
    context. *)
Context (width : Z) (fuel : nat) (hmac_mem : Keygen.HMAC_SHA256_CTX) (xmd_mem : list Z) (pairing_mem : PAIRING).

(** Reading the data member of an object. *)
Definition load_as {A} (as_ : object -> option A) (addr : nat) : M A :=
  o ← load addr;
  match as_ o with Some a => mret a | None => throw UndefinedBehaviour end.

Definition key_of (o : object) : option (list Z) := match o with OSecretKey k => Some k | _ => None end.
Definition val_of (o : object) : option (list Z) := match o with OScalar v => Some v | _ => None end.
Definition fp12_of (o : object) : option FP12 := match o with OPT v => Some v | _ => None end.
Definition ctx_of (o : object) : option PAIRING := match o with OPairing c => Some c | _ => None end.

(** Default arguments: one overload for each number of arguments given. *)
Definition with_aug (f : list Z -> list Z -> list Z -> M value) : list overload := [
  mkOverload [BytesOf; StdString; BytesOf] (fun '(msg, (DST, (aug, _))) => f msg DST aug);
  mkOverload [BytesOf; StdString] (fun '(msg, (DST, _)) => f msg DST []);
  mkOverload [BytesOf] (fun '(msg, _) => f msg [] [])].

(** *** SecretKey *)

Definition set_key (self : nat) (key : option (list Z)) : M value :=
  match key with
  | Some k => store self (OSecretKey k);; mret VUndefined
  | None => throw NoResult
  end.

Definition SecretKey_new : list overload := [mkOverload [] (fun _ => allocate (OSecretKey (replicate 32 0)))].
Definition SecretKey_keygen (self : nat) : list overload := [
  mkOverload [BytesOf; StdString] (fun '(IKM, (info, _)) => set_key self (Keygen.blst_keygen width hmac_mem fuel IKM info));
  mkOverload [BytesOf] (fun '(IKM, _) => set_key self (Keygen.blst_keygen width hmac_mem fuel IKM []))].
Definition SecretKey_derive_master_eip2333 (self : nat) : list overload := [
  mkOverload [BytesOf] (fun '(IKM, _) => set_key self (Keygen.blst_derive_master_eip2333 width hmac_mem fuel IKM))].
Definition SecretKey_derive_child_eip2333 (self : nat) : list overload := [
  mkOverload [Ref SecretKey; UInt] (fun '(SK, (child_index, _)) =>
    key ← load_as key_of SK;
    set_key self (Keygen.blst_derive_child_eip2333 width hmac_mem fuel key child_index))].
Definition SecretKey_from_bendian (self : nat) : list overload := [
  mkOverload [Bytes32] (fun '(inp, _) => set_key self (Some (Scalar.blst_scalar_from_bendian width inp)))].
Definition SecretKey_from_lendian (self : nat) : list overload := [
  mkOverload [Bytes32] (fun '(inp, _) => set_key self (Some (Scalar.blst_scalar_from_lendian inp)))].
Definition SecretKey_to_bendian (self : nat) : list overload := [
  mkOverload [] (fun _ => key ← load_as key_of self; mret (VBytes (Scalar.blst_bendian_from_scalar width key)))].
Definition SecretKey_to_lendian (self : nat) : list overload := [
  mkOverload [] (fun _ => key ← load_as key_of self; mret (VBytes (Scalar.blst_lendian_from_scalar key)))].

(** *** Scalar *)

(** The value a scalar is set to; [None] reads outside the bytes. *)
Definition set_val (self : nat) (this : value) (r : option (list Z * bool)) : M value :=
  match r with
  | Some (v, _) => store self (OScalar v);; mret this
  | None => throw UndefinedBehaviour
  end.

Definition new_scalar (r : option (list Z * bool)) : M value :=
  match r with
  | Some (v, _) => allocate (OScalar v)
  | None => throw UndefinedBehaviour
  end.

(** 48 bytes expanded from the message, reduced. *)
Definition hash_to_scalar (msg DST : list Z) : option (list Z * bool) :=
  elem ← HashToField.blst_expand_message_xmd xmd_mem (replicate 48 0) 48 msg DST;
  Scalar.blst_scalar_from_be_bytes width elem.

Definition Scalar_new : list overload := [
  mkOverload [] (fun _ => allocate (OScalar (replicate 32 0)));
  mkOverload [ScalarBits] (fun '((scalar, nbits), _) =>
    new_scalar (Scalar.blst_scalar_from_le_bytes width (take (Z.to_nat ((nbits + 7) / 8)) scalar)));
  mkOverload [BytesOf; StdString] (fun '(msg, (DST, _)) => new_scalar (hash_to_scalar msg DST))].

(** [hash_to] returns [this] as a pointer like any other: SWIG makes a new wrapper. *)
Definition Scalar_hash_to (self : nat) : list overload :=
  let f msg DST := set_val self VUndefined (hash_to_scalar msg DST);; wrap_pointer Scalar_ self in
  [mkOverload [BytesOf; StdString] (fun '(msg, (DST, _)) => f msg DST);
   mkOverload [BytesOf] (fun '(msg, _) => f msg [])].

Definition Scalar_dup (self : nat) : list overload := [
  mkOverload [] (fun _ => v ← load_as val_of self; allocate (OScalar v))].
Definition Scalar_from_bendian (self : nat) (this : value) : list overload := [
  mkOverload [BytesOf] (fun '(msg, _) => set_val self this (Scalar.blst_scalar_from_be_bytes width msg))].
Definition Scalar_from_lendian (self : nat) (this : value) : list overload := [
  mkOverload [BytesOf] (fun '(msg, _) => set_val self this (Scalar.blst_scalar_from_le_bytes width msg))].
Definition Scalar_to_bendian (self : nat) : list overload := [
  mkOverload [] (fun _ => v ← load_as val_of self; mret (VBytes (Scalar.blst_bendian_from_scalar width v)))].
Definition Scalar_to_lendian (self : nat) : list overload := [
  mkOverload [] (fun _ => v ← load_as val_of self; mret (VBytes (Scalar.blst_lendian_from_scalar v)))].

(** [throw BLST_BAD_SCALAR] for a zero result, which is stored first; the message is
    looked up in a table that ends before that code. *)
Definition BLST_ERROR_str_length : Z := 7.
Definition throw_error (e : BLST_ERROR) : M value :=
  if BLST_ERROR_code e <? BLST_ERROR_str_length then throw (ThrowError e) else throw UndefinedBehaviour.

Definition update_val (self : nat) (this : value) (r : list Z * bool) : M value :=
  store self (OScalar r.1);; if r.2 then mret this else throw_error BLST_BAD_SCALAR.

Definition Scalar_add (self : nat) (this : value) : list overload := [
  mkOverload [Ref Scalar_] (fun '(a, _) =>
    v ← load_as val_of self; x ← load_as val_of a; update_val self this (Scalar.blst_sk_add_n_check width v x));
  mkOverload [Ref SecretKey] (fun '(a, _) =>
    v ← load_as val_of self; x ← load_as key_of a; update_val self this (Scalar.blst_sk_add_n_check width v x))].
Definition Scalar_sub (self : nat) (this : value) : list overload := [
  mkOverload [Ref Scalar_] (fun '(a, _) =>
    v ← load_as val_of self; x ← load_as val_of a; update_val self this (Scalar.blst_sk_sub_n_check width v x))].
Definition Scalar_mul (self : nat) (this : value) : list overload := [
  mkOverload [Ref Scalar_] (fun '(a, _) =>
    v ← load_as val_of self; x ← load_as val_of a; update_val self this (Scalar.blst_sk_mul_n_check width v x))].
Definition Scalar_inverse (self : nat) (this : value) : list overload := [
  mkOverload [] (fun _ => v ← load_as val_of self; store self (OScalar (Scalar.blst_sk_inverse width v));; mret this)].

(** *** Points *)

Section Points.
Context (G : group).

Definition load_affine (addr : nat) : M (point G) := load_as (affine_of G) addr.
Definition load_jacobian (addr : nat) : M (point G) := load_as (jacobian_of G) addr.

(** The bytes of an encoded point: their number must be the one the first byte says. *)
Definition decode (inp : list Z) : point G + BLST_ERROR :=
  if wire_length_ok inp (g_short G) (g_long G) then g_deserialize G inp else inr BLST_BAD_ENCODING.

Definition new_point (mk : point G -> object) (r : point G + BLST_ERROR) : M value :=
  match r with
  | inl p => allocate (mk p)
  | inr err => throw_error err
  end.

Definition Affine_new : list overload := [
  mkOverload [] (fun _ => allocate (O_affine G (g_inf G)));
  mkOverload [BytesOf] (fun '(inp, _) => new_point (O_affine G) (decode inp));
  mkOverload [Ref (c_jacobian G)] (fun '(j, _) => p ← load_jacobian j; allocate (O_affine G p))].
Definition Affine_dup (self : nat) : list overload := [
  mkOverload [] (fun _ => p ← load_affine self; allocate (O_affine G p))].
Definition Affine_to_jacobian (self : nat) : list overload := [
  mkOverload [] (fun _ => p ← load_affine self; allocate (O_jacobian G p))].
Definition Affine_serialize (self : nat) : list overload := [
  mkOverload [] (fun _ => p ← load_affine self; mret (VBytes (g_serialize G p)))].
Definition Affine_compress (self : nat) : list overload := [
  mkOverload [] (fun _ => p ← load_affine self; mret (VBytes (g_compress G p)))].
Definition Affine_on_curve (self : nat) : list overload := [
  mkOverload [] (fun _ => p ← load_affine self; mret (VBoolean (g_on_curve G p)))].
Definition Affine_in_group (self : nat) : list overload := [
  mkOverload [] (fun _ => p ← load_affine self; mret (VBoolean (g_in_group G p)))].
Definition Affine_is_inf (self : nat) : list overload := [
  mkOverload [] (fun _ => p ← load_affine self; mret (VBoolean (bool_decide (p = g_inf G))))].
Definition Affine_is_equal (self : nat) : list overload := [
  mkOverload [Ref (c_affine G)] (fun '(a, _) =>
    p ← load_affine self; q ← load_affine a; mret (VBoolean (bool_decide (p = q))))].

(** [sk_to_pk] and [sign]: multiplication by the key as it is, by the endomorphism. *)
Definition multiply_by_key (p : point G) (key : list Z) : point G := g_mult_endo G p (le_value key).

Definition Point_new : list overload := [
  mkOverload [] (fun _ => allocate (O_jacobian G (g_inf G)));
  mkOverload [Ref SecretKey] (fun '(sk, _) =>
    key ← load_as key_of sk; allocate (O_jacobian G (multiply_by_key (g_generator G) key)));
  mkOverload [BytesOf] (fun '(inp, _) => new_point (O_jacobian G) (decode inp));
  mkOverload [Ref (c_affine G)] (fun '(a, _) => p ← load_affine a; allocate (O_jacobian G p))].
Definition Point_generator : list overload := [mkOverload [] (fun _ => allocate (O_jacobian G (g_generator G)))].
Definition Point_dup (self : nat) : list overload := [
  mkOverload [] (fun _ => p ← load_jacobian self; allocate (O_jacobian G p))].
Definition Point_to_affine (self : nat) : list overload := [
  mkOverload [] (fun _ => p ← load_jacobian self; allocate (O_affine G p))].
Definition Point_serialize (self : nat) : list overload := [
  mkOverload [] (fun _ => p ← load_jacobian self; mret (VBytes (g_serialize G p)))].
Definition Point_compress (self : nat) : list overload := [
  mkOverload [] (fun _ => p ← load_jacobian self; mret (VBytes (g_compress G p)))].
Definition Point_on_curve (self : nat) : list overload := [
  mkOverload [] (fun _ => p ← load_jacobian self; mret (VBoolean (g_on_curve G p)))].
Definition Point_in_group (self : nat) : list overload := [
  mkOverload [] (fun _ => p ← load_jacobian self; mret (VBoolean (g_in_group G p)))].
Definition Point_is_inf (self : nat) : list overload := [
  mkOverload [] (fun _ => p ← load_jacobian self; mret (VBoolean (bool_decide (p = g_inf G))))].
Definition Point_is_equal (self : nat) : list overload := [
  mkOverload [Ref (c_jacobian G)] (fun '(a, _) =>
    p ← load_jacobian self; q ← load_jacobian a; mret (VBoolean (bool_decide (p = q))))].
Definition Point_aggregate (self : nat) : list overload := [
  mkOverload [Ref (c_affine G)] (fun '(inp, _) =>
    a ← load_affine inp;
    if g_in_group G a
    then p ← load_jacobian self; store self (O_jacobian G (g_dadd G p a));; mret VUndefined
    else throw_error BLST_POINT_NOT_IN_GROUP)].

(** The methods that change the point and return [this]. *)
Definition set_point (self : nat) (this : value) (p : point G) : M value :=
  store self (O_jacobian G p);; mret this.

Definition Point_sign_with (self : nat) (this : value) : list overload := [
  mkOverload [Ref SecretKey] (fun '(sk, _) =>
    key ← load_as key_of sk; p ← load_jacobian self; set_point self this (multiply_by_key p key));
  mkOverload [Ref Scalar_] (fun '(scalar, _) =>
    key ← load_as val_of scalar; p ← load_jacobian self; set_point self this (multiply_by_key p key))].
Definition Point_hash_to (self : nat) (this : value) : list overload :=
  with_aug (fun msg DST aug => set_point self this (g_hash G msg DST aug)).
Definition Point_encode_to (self : nat) (this : value) : list overload :=
  with_aug (fun msg DST aug => set_point self this (g_encode G msg DST aug)).

(** [blst_p1_mult]: short scalars by windows; scalars of up to 256 bits below the order
    by the endomorphism; the others by windows again. *)
Definition point_mult (p : point G) (scalar : list Z) (nbits : Z) : point G :=
  let windows := g_mult_w G p (le_value scalar mod 2 ^ nbits) in
  if nbits <? g_endo_bits G then (if nbits =? 0 then g_inf G else windows)
  else if nbits <=? 256 then
    let top := Z.to_nat ((nbits + 7) / 8) in
    let val := take top scalar ++ replicate (32 - top) 0 in
    if Scalar.blst_sk_check width val then g_mult_endo G p (le_value val) else windows
  else windows.

Definition Point_mult (self : nat) (this : value) : list overload := [
  mkOverload [ScalarBits] (fun '((scalar, nbits), _) =>
    p ← load_jacobian self; set_point self this (point_mult p scalar nbits));
  mkOverload [Ref Scalar_] (fun '(scalar, _) =>
    v ← load_as val_of scalar; p ← load_jacobian self; set_point self this (point_mult p v 255))].
Definition Point_cneg (self : nat) (this : value) : list overload := [
  mkOverload [Bool] (fun '(flag, _) => p ← load_jacobian self; set_point self this (g_cneg G p flag))].
Definition Point_neg (self : nat) (this : value) : list overload := [
  mkOverload [] (fun _ => p ← load_jacobian self; set_point self this (g_cneg G p true))].
Definition Point_add (self : nat) (this : value) : list overload := [
  mkOverload [Ref (c_jacobian G)] (fun '(a, _) =>
    p ← load_jacobian self; q ← load_jacobian a; set_point self this (g_dadd G p q));
  mkOverload [Ref (c_affine G)] (fun '(a, _) =>
    p ← load_jacobian self; q ← load_affine a; set_point self this (g_dadd G p q))].
Definition Point_dbl (self : nat) (this : value) : list overload := [
  mkOverload [] (fun _ => p ← load_jacobian self; set_point self this (g_double G p))].
End Points.

Definition VError (e : BLST_ERROR) : value := VNumber (BLST_ERROR_code e).

(** One-shot verification, with the signature in [this]: the default arguments make
    three overloads. *)
Definition verify_with (c : cls) (f : nat -> bool -> list Z -> list Z -> list Z -> M value) : list overload := [
  mkOverload [Ref c; Bool; BytesOf; StdString; BytesOf] (fun '(pk, (hoe, (msg, (DST, (aug, _))))) => f pk hoe msg DST aug);
  mkOverload [Ref c; Bool; BytesOf; StdString] (fun '(pk, (hoe, (msg, (DST, _)))) => f pk hoe msg DST []);
  mkOverload [Ref c; Bool; BytesOf] (fun '(pk, (hoe, (msg, _))) => f pk hoe msg [] [])].

Definition P1_Affine_core_verify (self : nat) : list overload :=
  verify_with P2_Affine (fun pk hoe msg DST aug =>
    q ← load_affine G2_ops pk; s ← load_affine G1_ops self;
    mret (VError (blst_core_verify_pk_in_g2 pairing_mem q s hoe msg DST aug))).
Definition P2_Affine_core_verify (self : nat) : list overload :=
  verify_with P1_Affine (fun pk hoe msg DST aug =>
    q ← load_affine G1_ops pk; s ← load_affine G2_ops self;
    mret (VError (blst_core_verify_pk_in_g1 pairing_mem q s hoe msg DST aug))).

(** *** PT *)

Definition PT_new : list overload := [
  mkOverload [Ref P1_Affine] (fun '(p, _) => a ← load_affine G1_ops p; allocate (OPT (blst_aggregated_in_g1 a)));
  mkOverload [Ref P2_Affine] (fun '(q, _) => a ← load_affine G2_ops q; allocate (OPT (blst_aggregated_in_g2 a)));
  mkOverload [Ref P2_Affine; Ref P1_Affine] (fun '(q, (p, _)) =>
    b ← load_affine G2_ops q; a ← load_affine G1_ops p; allocate (OPT (miller_loop_n [b] [a] 1)));
  mkOverload [Ref P1_Affine; Ref P2_Affine] (fun '(p, (q, _)) =>
    b ← load_affine G2_ops q; a ← load_affine G1_ops p; allocate (OPT (miller_loop_n [b] [a] 1)));
  mkOverload [Ref P2; Ref P1] (fun '(q, (p, _)) =>
    b ← load_jacobian G2_ops q; a ← load_jacobian G1_ops p; allocate (OPT (miller_loop_n [b] [a] 1)));
  mkOverload [Ref P1; Ref P2] (fun '(p, (q, _)) =>
    b ← load_jacobian G2_ops q; a ← load_jacobian G1_ops p; allocate (OPT (miller_loop_n [b] [a] 1)))].
Definition PT_one : list overload := [mkOverload [] (fun _ => allocate (OPT fp12_one))].
Definition PT_dup (self : nat) : list overload := [
  mkOverload [] (fun _ => v ← load_as fp12_of self; allocate (OPT v))].
Definition PT_is_one (self : nat) : list overload := [
  mkOverload [] (fun _ => v ← load_as fp12_of self; mret (VBoolean (bool_decide (v = fp12_one))))].
Definition PT_is_equal (self : nat) : list overload := [
  mkOverload [Ref PT] (fun '(p, _) =>
    v ← load_as fp12_of self; u ← load_as fp12_of p; mret (VBoolean (bool_decide (v = u))))].
Definition PT_sqr (self : nat) (this : value) : list overload := [
  mkOverload [] (fun _ => v ← load_as fp12_of self; store self (OPT (sqr_fp12 v));; mret this)].
Definition PT_mul (self : nat) (this : value) : list overload := [
  mkOverload [Ref PT] (fun '(p, _) =>
    v ← load_as fp12_of self; u ← load_as fp12_of p; store self (OPT (mul_fp12 v u));; mret this)].
Definition PT_final_exp (self : nat) (this : value) : list overload := [
  mkOverload [] (fun _ => v ← load_as fp12_of self; store self (OPT (final_exp v));; mret this)].
Definition PT_in_group (self : nat) : list overload := [
  mkOverload [] (fun _ => v ← load_as fp12_of self; mret (VBoolean (fp12_in_group v)))].
Definition PT_to_bendian (self : nat) : list overload := [
  mkOverload [] (fun _ => v ← load_as fp12_of self; mret (VBytes (bendian_from_fp12 v)))].

(** *** Pairing *)

(** A null pointer where an object is needed is dereferenced. *)
Definition deref {A} (as_ : object -> option A) (p : option nat) : M A :=
  match p with Some a => load_as as_ a | None => throw UndefinedBehaviour end.

Definition Pairing_new : list overload := [
  mkOverload [Bool; BytesOf] (fun '(hoe, (DST, _)) => allocate (OPairing (blst_pairing_init pairing_mem hoe DST)))].

(** The context after a call that returns an error code. *)
Definition set_ctx (self : nat) (r : PAIRING * BLST_ERROR) : M value :=
  store self (OPairing r.1);; mret (VError r.2).

Definition aggregate_g1 (self : nat) (pk sig : option nat) (scalar : option (list Z * Z)) (msg aug : list Z) : M value :=
  ctx ← load_as ctx_of self;
  p ← deref (affine_of G1_ops) pk; s ← deref (affine_of G2_ops) sig;
  set_ctx self (match scalar with
                | None => blst_pairing_aggregate_pk_in_g1 ctx (Some p) (Some s) msg aug
                | Some (k, nbits) => blst_pairing_mul_n_aggregate_pk_in_g1 ctx (Some p) (Some s) (Some (le_value k)) nbits msg aug
                end).

Definition aggregate_g2 (self : nat) (pk sig : option nat) (scalar : option (list Z * Z)) (msg aug : list Z) : M value :=
  ctx ← load_as ctx_of self;
  p ← deref (affine_of G2_ops) pk; s ← deref (affine_of G1_ops) sig;
  set_ctx self (match scalar with
                | None => blst_pairing_aggregate_pk_in_g2 ctx (Some p) (Some s) msg aug
                | Some (k, nbits) => blst_pairing_mul_n_aggregate_pk_in_g2 ctx (Some p) (Some s) (Some (le_value k)) nbits msg aug
                end).

Definition Pairing_aggregate (self : nat) : list overload := [
  mkOverload [Ptr P1_Affine; Ptr P2_Affine; BytesOf; BytesOf] (fun '(pk, (sig, (msg, (aug, _)))) => aggregate_g1 self pk sig None msg aug);
  mkOverload [Ptr P1_Affine; Ptr P2_Affine; BytesOf] (fun '(pk, (sig, (msg, _))) => aggregate_g1 self pk sig None msg []);
  mkOverload [Ptr P2_Affine; Ptr P1_Affine; BytesOf; BytesOf] (fun '(pk, (sig, (msg, (aug, _)))) => aggregate_g2 self pk sig None msg aug);
  mkOverload [Ptr P2_Affine; Ptr P1_Affine; BytesOf] (fun '(pk, (sig, (msg, _))) => aggregate_g2 self pk sig None msg [])].

Definition Pairing_mul_n_aggregate (self : nat) : list overload := [
  mkOverload [Ptr P1_Affine; Ptr P2_Affine; ScalarBits; BytesOf; BytesOf] (fun '(pk, (sig, (k, (msg, (aug, _))))) => aggregate_g1 self pk sig (Some k) msg aug);
  mkOverload [Ptr P1_Affine; Ptr P2_Affine; ScalarBits; BytesOf] (fun '(pk, (sig, (k, (msg, _)))) => aggregate_g1 self pk sig (Some k) msg []);
  mkOverload [Ptr P2_Affine; Ptr P1_Affine; ScalarBits; BytesOf; BytesOf] (fun '(pk, (sig, (k, (msg, (aug, _))))) => aggregate_g2 self pk sig (Some k) msg aug);
  mkOverload [Ptr P2_Affine; Ptr P1_Affine; ScalarBits; BytesOf] (fun '(pk, (sig, (k, (msg, _)))) => aggregate_g2 self pk sig (Some k) msg [])].

Definition Pairing_commit (self : nat) : list overload := [
  mkOverload [] (fun _ => ctx ← load_as ctx_of self; store self (OPairing (PAIRING_Commit ctx));; mret VUndefined)].
Definition Pairing_merge (self : nat) : list overload := [
  mkOverload [Ptr Pairing_] (fun '(c, _) =>
    ctx ← load_as ctx_of self; ctx1 ← deref ctx_of c; set_ctx self (blst_pairing_merge ctx ctx1))].
Definition Pairing_finalverify (self : nat) : list overload := [
  mkOverload [Ptr PT] (fun '(sig, _) =>
    ctx ← load_as ctx_of self;
    match sig with
    | None => mret (VBoolean (PAIRING_FinalVerify ctx None))
    | Some a => gt ← load_as fp12_of a; mret (VBoolean (PAIRING_FinalVerify ctx (Some gt)))
    end);
  mkOverload [] (fun _ => ctx ← load_as ctx_of self; mret (VBoolean (PAIRING_FinalVerify ctx None)))].
Definition Pairing_raw_aggregate (self : nat) : list overload := [
  mkOverload [Ptr P2_Affine; Ptr P1_Affine] (fun '(q, (p, _)) =>
    ctx ← load_as ctx_of self;
    b ← deref (affine_of G2_ops) q; a ← deref (affine_of G1_ops) p;
    store self (OPairing (blst_pairing_raw_aggregate ctx b a));; mret VUndefined)].
Definition Pairing_as_fp12 (self : nat) : list overload := [
  mkOverload [] (fun _ =>
    ctx ← load_as ctx_of self;
    let '(ctx, gt) := blst_pairing_as_fp12 ctx in
    store self (OPairing ctx);; allocate (OPT gt))].

(** ** Calls by name *)

Definition methods (c : cls) (m : string) (self : nat) (this : value) : list overload :=
  let affine G verify :=
    match m with
    | "dup" => Affine_dup G self | "to_jacobian" => Affine_to_jacobian G self
    | "serialize" => Affine_serialize G self | "compress" => Affine_compress G self
    | "on_curve" => Affine_on_curve G self | "in_group" => Affine_in_group G self
    | "is_inf" => Affine_is_inf G self | "is_equal" => Affine_is_equal G self
    | "core_verify" => verify
    | _ => []
    end in
  let jacobian G :=
    match m with
    | "dup" => Point_dup G self | "to_affine" => Point_to_affine G self
    | "serialize" => Point_serialize G self | "compress" => Point_compress G self
    | "on_curve" => Point_on_curve G self | "in_group" => Point_in_group G self
    | "is_inf" => Point_is_inf G self | "is_equal" => Point_is_equal G self
    | "aggregate" => Point_aggregate G self
    | "sign_with" => Point_sign_with G self this | "hash_to" => Point_hash_to G self this
    | "encode_to" => Point_encode_to G self this | "mult" => Point_mult G self this
    | "cneg" => Point_cneg G self this | "neg" => Point_neg G self this
    | "add" => Point_add G self this | "dbl" => Point_dbl G self this
    | _ => []
    end in
  match c with
  | SecretKey =>
      match m with
      | "keygen" => SecretKey_keygen self
      | "derive_master_eip2333" => SecretKey_derive_master_eip2333 self
      | "derive_child_eip2333" => SecretKey_derive_child_eip2333 self
      | "from_bendian" => SecretKey_from_bendian self | "from_lendian" => SecretKey_from_lendian self
      | "to_bendian" => SecretKey_to_bendian self | "to_lendian" => SecretKey_to_lendian self
      | _ => []
      end
  | Scalar_ =>
      match m with
      | "hash_to" => Scalar_hash_to self | "dup" => Scalar_dup self
      | "from_bendian" => Scalar_from_bendian self this | "from_lendian" => Scalar_from_lendian self this
      | "to_bendian" => Scalar_to_bendian self | "to_lendian" => Scalar_to_lendian self
      | "add" => Scalar_add self this | "sub" => Scalar_sub self this
      | "mul" => Scalar_mul self this | "inverse" => Scalar_inverse self this
      | _ => []
      end
  | P1_Affine => affine G1_ops (P1_Affine_core_verify self)
  | P2_Affine => affine G2_ops (P2_Affine_core_verify self)
  | P1 => jacobian G1_ops
  | P2 => jacobian G2_ops
  | PT =>
      match m with
      | "dup" => PT_dup self | "is_one" => PT_is_one self | "is_equal" => PT_is_equal self
      | "sqr" => PT_sqr self this | "mul" => PT_mul self this | "final_exp" => PT_final_exp self this
      | "in_group" => PT_in_group self | "to_bendian" => PT_to_bendian self
      | _ => []
      end
  | Pairing_ =>
      match m with
      | "aggregate" => Pairing_aggregate self | "mul_n_aggregate" => Pairing_mul_n_aggregate self
      | "commit" => Pairing_commit self | "merge" => Pairing_merge self
      | "finalverify" => Pairing_finalverify self | "raw_aggregate" => Pairing_raw_aggregate self
      | "as_fp12" => Pairing_as_fp12 self
      | _ => []
      end
  end%string.

(** [new blst.c(...)] *)
Definition constructors (c : cls) : list overload :=
  match c with
  | SecretKey => SecretKey_new | Scalar_ => Scalar_new
  | P1_Affine => Affine_new G1_ops | P2_Affine => Affine_new G2_ops
  | P1 => Point_new G1_ops | P2 => Point_new G2_ops
  | PT => PT_new | Pairing_ => Pairing_new
  end.

(** [blst.c.m(...)], and the functions of the module *)
Definition statics (c : cls) (m : string) : list overload :=
  match c, m with
  | P1, "generator" => Point_generator G1_ops
  | P2, "generator" => Point_generator G2_ops
  | PT, "one" => PT_one
  | _, _ => []
  end%string.

Definition js_new (c : cls) (vs : list value) : M value := dispatch (constructors c) vs.
Definition G1 (vs : list value) : M value := dispatch (Point_generator G1_ops) vs.
Definition G2 (vs : list value) : M value := dispatch (Point_generator G2_ops) vs.

(** [this.m(...)]: a wrapper knows its class; what is not an object has no methods. *)
Definition call (this : value) (m : string) (vs : list value) : M value := fun w =>
  match this with
  | VObject i =>
      match wrappers w !! i with
      | Some o => dispatch (methods (w_class o) m (w_addr o) this) vs w
      | None => (w, inr ThrowTypeError)
      end
  | _ => (w, inr ThrowTypeError)
  end.
End Methods.

(** ** The declarations (blst.hpp.ts) *)

Inductive ts_type :=
  | Tvoid
  | Tboolean
  | Tnumber
  | Tstring
  | Tbigint
  | Tbytes
  | Tundefined
  | TBLST_ERROR
  | Tclass (c : cls)
  | Tunion (a b : ts_type).

(** [type bytes = Uint8Array] *)
Definition bytes : ts_type := Tbytes.
(** [type scalar = Scalar | bigint | bytes] *)
Definition scalar : ts_type := Tunion (Tclass Scalar_) (Tunion Tbigint bytes).
(** [type binary_string = string | bytes] *)
Definition binary_string : ts_type := Tunion Tstring bytes.

(** A signature: the parameters that must be given, those that may be left out, the
    result.  [this] is the class the signature is declared in. *)
Record signature := mkSig { required : list ts_type; optional : list ts_type; result : ts_type }.

Definition declarations : Type := list (string * signature).

Definition SecretKeyConstructor : declarations := [("new", mkSig [] [] (Tclass SecretKey))]%string.

Definition SecretKey_interface : declarations := [
  ("keygen", mkSig [binary_string] [Tstring] Tvoid);
  ("derive_master_eip2333", mkSig [binary_string] [] Tvoid);
  ("derive_child_eip2333", mkSig [Tclass SecretKey; Tnumber] [] Tvoid);
  ("from_bendian", mkSig [bytes] [] Tvoid);
  ("from_lendian", mkSig [bytes] [] Tvoid);
  ("to_bendian", mkSig [] [] bytes);
  ("to_lendian", mkSig [] [] bytes)]%string.

Definition ScalarConstructor : declarations := [
  ("new", mkSig [] [] (Tclass Scalar_));
  ("new", mkSig [bytes] [] (Tclass Scalar_));
  ("new", mkSig [binary_string] [Tstring] (Tclass Scalar_))]%string.

Definition Scalar_interface : declarations :=
  let this := Tclass Scalar_ in [
  ("hash_to", mkSig [binary_string] [Tstring] this);
  ("dup", mkSig [] [] (Tclass Scalar_));
  ("from_bendian", mkSig [bytes] [] this);
  ("from_lendian", mkSig [bytes] [] this);
  ("to_bendian", mkSig [] [] bytes);
  ("to_lendian", mkSig [] [] bytes);
  ("add", mkSig [Tunion this (Tclass SecretKey)] [] this);
  ("sub", mkSig [this] [] this);
  ("mul", mkSig [this] [] this);
  ("inverse", mkSig [] [] this)]%string.

Definition P1_AffineConstructor : declarations := [
  ("new", mkSig [] [] (Tclass P1_Affine));
  ("new", mkSig [bytes] [] (Tclass P1_Affine));
  ("new", mkSig [Tclass P1] [] (Tclass P1_Affine))]%string.

Definition P1_Affine_interface : declarations := [
  ("dup", mkSig [] [] (Tclass P1_Affine));
  ("to_jacobian", mkSig [] [] (Tclass P1));
  ("serialize", mkSig [] [] bytes);
  ("compress", mkSig [] [] bytes);
  ("on_curve", mkSig [] [] Tboolean);
  ("in_group", mkSig [] [] Tboolean);
  ("is_inf", mkSig [] [] Tboolean);
  ("is_equal", mkSig [Tclass P1_Affine] [] Tboolean);
  ("core_verify", mkSig [Tclass P2_Affine; Tboolean; binary_string] [Tstring; bytes] TBLST_ERROR)]%string.

Definition P1Constructor : declarations := [
  ("new", mkSig [] [] (Tclass P1));
  ("new", mkSig [Tclass SecretKey] [] (Tclass P1));
  ("new", mkSig [bytes] [] (Tclass P1));
  ("new", mkSig [Tclass P1_Affine] [] (Tclass P1));
  ("generator", mkSig [] [] (Tclass P1))]%string.

Definition P1_interface : declarations :=
  let this := Tclass P1 in [
  ("dup", mkSig [] [] (Tclass P1));
  ("to_affine", mkSig [] [] (Tclass P1_Affine));
  ("serialize", mkSig [] [] bytes);
  ("compress", mkSig [] [] bytes);
  ("on_curve", mkSig [] [] Tboolean);
  ("in_group", mkSig [] [] Tboolean);
  ("is_inf", mkSig [] [] Tboolean);
  ("is_equal", mkSig [Tclass P1] [] Tboolean);
  ("aggregate", mkSig [Tclass P1_Affine] [] Tvoid);
  ("sign_with", mkSig [Tclass SecretKey] [] this);
  ("hash_to", mkSig [binary_string] [Tstring; bytes] this);
  ("encode_to", mkSig [binary_string] [Tstring; bytes] this);
  ("mult", mkSig [scalar] [] this);
  ("cneg", mkSig [Tboolean] [] this);
  ("neg", mkSig [] [] this);
  ("add", mkSig [this] [] this);
  ("add", mkSig [Tclass P1_Affine] [] this);
  ("dbl", mkSig [] [] this)]%string.

Definition P2_AffineConstructor : declarations := [
  ("new", mkSig [] [] (Tclass P2_Affine));
  ("new", mkSig [bytes] [] (Tclass P2_Affine));
  ("new", mkSig [Tclass P2] [] (Tclass P2_Affine))]%string.

Definition P2_Affine_interface : declarations := [
  ("dup", mkSig [] [] (Tclass P2_Affine));
  ("to_jacobian", mkSig [] [] (Tclass P2));
  ("serialize", mkSig [] [] bytes);
  ("compress", mkSig [] [] bytes);
  ("on_curve", mkSig [] [] Tboolean);
  ("in_group", mkSig [] [] Tboolean);
  ("is_inf", mkSig [] [] Tboolean);
  ("is_equal", mkSig [Tclass P2_Affine] [] Tboolean);
  ("core_verify", mkSig [Tclass P1_Affine; Tboolean; binary_string] [Tstring; bytes] TBLST_ERROR)]%string.

Definition P2Constructor : declarations := [
  ("new", mkSig [] [] (Tclass P2));
  ("new", mkSig [Tclass SecretKey] [] (Tclass P2));
  ("new", mkSig [bytes] [] (Tclass P2));
  ("new", mkSig [Tclass P2_Affine] [] (Tclass P2));
  ("generator", mkSig [] [] (Tclass P2))]%string.

Definition P2_interface : declarations :=
  let this := Tclass P2 in [
  ("dup", mkSig [] [] (Tclass P2));
  ("to_affine", mkSig [] [] (Tclass P2_Affine));
  ("serialize", mkSig [] [] bytes);
  ("compress", mkSig [] [] bytes);
  ("on_curve", mkSig [] [] Tboolean);
  ("in_group", mkSig [] [] Tboolean);
  ("is_inf", mkSig [] [] Tboolean);
  ("is_equal", mkSig [Tclass P2] [] Tboolean);
  ("aggregate", mkSig [Tclass P2_Affine] [] Tvoid);
  ("sign_with", mkSig [Tclass SecretKey] [] this);
  ("hash_to", mkSig [binary_string] [Tstring; bytes] this);
  ("encode_to", mkSig [binary_string] [Tstring; bytes] this);
  ("mult", mkSig [scalar] [] this);
  ("cneg", mkSig [Tboolean] [] this);
  ("neg", mkSig [] [] this);
  ("add", mkSig [this] [] this);
  ("add", mkSig [Tclass P2_Affine] [] this);
  ("dbl", mkSig [] [] this)]%string.

Definition PTConstructor : declarations := [
  ("new", mkSig [Tclass P1_Affine] [] (Tclass PT));
  ("new", mkSig [Tclass P2_Affine] [] (Tclass PT));
  ("new", mkSig [Tunion (Tclass P2_Affine) (Tclass P2); Tunion (Tclass P1_Affine) (Tclass P1)] [] (Tclass PT));
  ("new", mkSig [Tunion (Tclass P1_Affine) (Tclass P1); Tunion (Tclass P2_Affine) (Tclass P2)] [] (Tclass PT));
  ("one", mkSig [] [] (Tclass PT))]%string.

Definition PT_interface : declarations :=
  let this := Tclass PT in [
  ("dup", mkSig [] [] (Tclass PT));
  ("is_one", mkSig [] [] Tboolean);
  ("is_equal", mkSig [Tclass PT] [] Tboolean);
  ("sqr", mkSig [] [] this);
  ("mul", mkSig [Tclass PT] [] this);
  ("final_exp", mkSig [] [] this);
  ("in_group", mkSig [] [] Tboolean);
  ("to_bendian", mkSig [] [] bytes)]%string.

Definition PairingConstructor : declarations := [("new", mkSig [Tboolean; Tstring] [] (Tclass Pairing_))]%string.

Definition Pairing_interface : declarations := [
  ("aggregate", mkSig [Tclass P1_Affine; Tclass P2_Affine; binary_string] [bytes] TBLST_ERROR);
  ("aggregate", mkSig [Tclass P2_Affine; Tclass P1_Affine; binary_string] [bytes] TBLST_ERROR);
  ("mul_n_aggregate", mkSig [Tclass P1_Affine; Tclass P2_Affine; scalar; binary_string] [bytes] TBLST_ERROR);
  ("mul_n_aggregate", mkSig [Tclass P2_Affine; Tclass P1_Affine; scalar; binary_string] [bytes] TBLST_ERROR);
  ("commit", mkSig [] [] Tvoid);
  ("merge", mkSig [Tclass Pairing_] [] TBLST_ERROR);
  ("finalverify", mkSig [] [Tclass PT] Tboolean);
  ("raw_aggregate", mkSig [Tclass P2_Affine; Tclass P1_Affine] [] Tvoid);
  ("as_fp12", mkSig [] [] (Tclass PT))]%string.

(** The module: the constructors and the two functions. *)
Definition Blst_constructor (c : cls) : declarations :=
  match c with
  | SecretKey => SecretKeyConstructor | Scalar_ => ScalarConstructor
  | P1_Affine => P1_AffineConstructor | P2_Affine => P2_AffineConstructor
  | P1 => P1Constructor | P2 => P2Constructor
  | PT => PTConstructor | Pairing_ => PairingConstructor
  end.

Definition Blst_functions : declarations := [("G1", mkSig [] [] (Tclass P1)); ("G2", mkSig [] [] (Tclass P2))]%string.

Definition interface (c : cls) : declarations :=
  match c with
  | SecretKey => SecretKey_interface | Scalar_ => Scalar_interface
  | P1_Affine => P1_Affine_interface | P2_Affine => P2_Affine_interface
  | P1 => P1_interface | P2 => P2_interface
  | PT => PT_interface | Pairing_ => Pairing_interface
  end.

(** ** Typing *)

Section Typing.
Context {C : Curve}.

(** Strings and arrays have fewer than [2 ^ 53] elements in every engine. *)
Fixpoint has_type (w : world) (v : value) (t : ts_type) : Prop :=
  match t, v with
  | Tvoid, VUndefined => True
  | Tboolean, VBoolean _ => True
  | Tnumber, VNumber _ => True
  | Tstring, VString s => Z.of_nat (String.length s) < 2 ^ 53
  | Tbigint, VBigInt _ => True
  | Tbytes, VBytes l => Forall byte_ok l /\ Z.of_nat (length l) < 2 ^ 53
  | TBLST_ERROR, VNumber n => 0 <= n <= 7
  | Tclass c, VObject i => exists o, wrappers w !! i = Some o /\ w_class o = c
  | Tunion a b, _ => has_type w v a \/ has_type w v b
  | _, _ => False
  end.

(** TypeScript compares interfaces by their members: those of the two groups have the same
    ones, so that each is accepted where the other is declared. *)
Definition alike (c : cls) : list cls :=
  match c with
  | P1 | P2 => [P1; P2]
  | P1_Affine | P2_Affine => [P1_Affine; P2_Affine]
  | _ => [c]
  end.

Fixpoint accepts (w : world) (v : value) (t : ts_type) : Prop :=
  match t, v with
  | Tclass c, VObject i => exists o, wrappers w !! i = Some o /\ In (w_class o) (alike c)
  | Tunion a b, _ => accepts w v a \/ accepts w v b
  | _, _ => has_type w v t
  end.

(** Arguments that type-check: the optional parameters are left out from some point on, or
    given as [undefined]. *)
Definition typed_args (w : world) (s : signature) (vs : list value) : Prop :=
  exists n, Forall2 (accepts w) vs (required s ++ ((fun t => Tunion t Tundefined) <$> take n (optional s))).

(** The arguments fit a signature as they are: objects of the very classes declared, and
    no [undefined]. *)
Fixpoint fits_type (w : world) (v : value) (t : ts_type) : bool :=
  match t, v with
  | Tvoid, VUndefined | Tboolean, VBoolean _ | Tnumber, VNumber _ | Tstring, VString _ | Tbigint, VBigInt _ | Tbytes, VBytes _
  | TBLST_ERROR, VNumber _ => true
  | Tclass c, VObject i => match wrappers w !! i with Some o => bool_decide (w_class o = c) | None => false end
  | Tunion a b, _ => fits_type w v a || fits_type w v b
  | _, _ => false
  end.

Fixpoint fits_sig (w : world) (required optional : list ts_type) (vs : list value) : bool :=
  match required, optional, vs with
  | t :: required, _, v :: vs => fits_type w v t && fits_sig w required optional vs
  | [], _, [] => true
  | [], t :: optional, v :: vs => fits_type w v t && fits_sig w [] optional vs
  | _, _, _ => false
  end.

Definition fits (w : world) (ds : declarations) (m : string) (vs : list value) : bool :=
  existsb (fun '(m', s) => String.eqb m m' && fits_sig w (required s) (optional s) vs) ds.
End Typing.

(** Evaluates a call up to the method body. *)
Ltac pick :=
  cbv [call methods constructors statics dispatch try_overloads convert_all convert params body typemap_bytes typemap_bytes32
       typemap_scalar typemap_ref with_aug verify_with
       SecretKey_new SecretKey_keygen SecretKey_derive_master_eip2333 SecretKey_derive_child_eip2333 SecretKey_from_bendian
       SecretKey_from_lendian SecretKey_to_bendian SecretKey_to_lendian
       Scalar_new Scalar_hash_to Scalar_dup Scalar_from_bendian Scalar_from_lendian Scalar_to_bendian Scalar_to_lendian
       Scalar_add Scalar_sub Scalar_mul Scalar_inverse
       Affine_new Affine_dup Affine_to_jacobian Affine_serialize Affine_compress Affine_on_curve Affine_in_group Affine_is_inf
       Affine_is_equal Point_new Point_generator Point_dup Point_to_affine Point_serialize Point_compress Point_on_curve
       Point_in_group Point_is_inf Point_is_equal Point_aggregate Point_sign_with Point_hash_to Point_encode_to Point_mult
       Point_cneg Point_neg Point_add Point_dbl P1_Affine_core_verify P2_Affine_core_verify
       PT_new PT_one PT_dup PT_is_one PT_is_equal PT_sqr PT_mul PT_final_exp PT_in_group PT_to_bendian
       Pairing_new Pairing_aggregate Pairing_mul_n_aggregate Pairing_commit Pairing_merge Pairing_finalverify
       Pairing_raw_aggregate Pairing_as_fp12].

(** ** Well-formed worlds *)

Section Soundness.
Context {C : Curve} {L : CurveLaws C}.
Context (width : Z) (Hw : width = 32 \/ width = 64) (fuel : nat) (hmac_mem : Keygen.HMAC_SHA256_CTX).
Context (xmd_mem : list Z) (Hxmd : length xmd_mem = 320%nat) (pairing_mem : PAIRING).

Definition object_ok (o : object) : Prop :=
  match o with
  | OSecretKey key => Scalar.pow256 key
  | OScalar val => Scalar.pow256 val
  | _ => True
  end.

(** Every wrapper has a live object of its class behind it; keys and scalars are 32 bytes. *)
Definition world_ok (w : world) : Prop := forall i o, wrappers w !! i = Some o ->
  exists obj, objects w !! w_addr o = Some (Some obj) /\ class_of obj = w_class o /\ object_ok obj.

(** Wrappers stay what they are. *)
Definition extends (w w' : world) : Prop := forall i o, wrappers w !! i = Some o -> wrappers w' !! i = Some o.

(** A call that fails as [f] says, or returns a value of the type [t]. *)
Definition run_ok (w : world) (t : ts_type) (f : option exn) (r : world * (value + exn)) : Prop :=
  world_ok r.1 /\ extends w r.1 /\
  match f with
  | None => exists v, r.2 = inl v /\ has_type r.1 v t
  | Some e => r.2 = inr e
  end.

(** ** Rules for the pieces of a method *)

Lemma ok_ret w t v : world_ok w -> has_type w v t -> run_ok w t None ((mret v : M value) w).
Proof. intros Hk Ht. split; [done|]. split; [by intros ?|by exists v]. Qed.

Lemma ok_throw w t e : world_ok w -> run_ok w t (Some e) ((throw e : M value) w).
Proof. intros Hk. split; [done|]. by split; [intros ?|]. Qed.

Lemma ok_load {A} (f : object -> option A) a x w t e (k : A -> M value) :
  load_as f a w = (w, inl x) -> run_ok w t e (k x w) -> run_ok w t e ((load_as f a ≫= k) w).
Proof. intros E H. unfold mbind, M_bind. by rewrite E. Qed.

Lemma ok_allocate w o t : world_ok w -> object_ok o -> t = Tclass (class_of o) -> run_ok w t None (allocate o w).
Proof.
  intros Hk Ho ->. unfold run_ok, allocate. cbn [fst snd]. split_and!.
  - intros i wr H. cbn [wrappers objects] in *. apply lookup_app_Some in H as [H|[Hi H]].
    + destruct (Hk i wr H) as (obj & E & R). exists obj. split; [by apply lookup_app_l_Some|done].
    + apply list_lookup_singleton_Some in H as [_ <-]. exists o. cbn. split; [|done].
      rewrite lookup_app_r, Nat.sub_diag by lia. done.
  - intros i wr H. by apply lookup_app_l_Some.
  - eexists. split; [done|]. cbn. exists (mkWrapper (length (objects w)) (class_of o) true). split; [|done].
    rewrite lookup_app_r, Nat.sub_diag by lia. done.
Qed.

Lemma ok_store w i wr o t e (k : () -> M value) : world_ok w -> wrappers w !! i = Some wr ->
  class_of o = w_class wr -> object_ok o ->
  (forall w', world_ok w' -> wrappers w' = wrappers w -> run_ok w' t e (k () w')) ->
  run_ok w t e ((store (w_addr wr) o ≫= k) w).
Proof.
  intros Hk Hi Hc Ho Hrest. unfold mbind, M_bind, store.
  set (w' := mkWorld _ _ _). assert (world_ok w') as Hk'.
  { intros j wj Hj. cbn in Hj. destruct (Hk j wj Hj) as (obj & E & Ec & Eo). cbn [objects w'].
    destruct (decide (w_addr wj = w_addr wr)) as [Ea|Ea].
    - exists o. rewrite Ea, list_lookup_insert_eq by (apply lookup_lt_Some in E; by rewrite <- Ea). split; [done|].
      split; [|done]. destruct (Hk i wr Hi) as (obj' & E' & Ec' & _). rewrite Ea, E' in E. injection E as ->. congruence.
    - exists obj. by rewrite list_lookup_insert_ne by done. }
  destruct (Hrest w' Hk' eq_refl) as (R1 & R2 & R3). split_and!; [done| |done]. exact R2.
Qed.

Lemma ok_wrap w i wr t : world_ok w -> wrappers w !! i = Some wr -> t = Tclass (w_class wr) ->
  run_ok w t None (wrap_pointer (w_class wr) (w_addr wr) w).
Proof.
  intros Hk Hi ->. unfold run_ok, wrap_pointer. cbn [fst snd]. split_and!.
  - intros j wj H. cbn [wrappers objects] in *. apply lookup_app_Some in H as [H|[Hj H]]; [by apply Hk in H|].
    apply list_lookup_singleton_Some in H as [_ <-]. cbn. by apply (Hk i wr).
  - intros j wj H. by apply lookup_app_l_Some.
  - eexists. split; [done|]. cbn. exists (mkWrapper (w_addr wr) (w_class wr) false). split; [|done].
    rewrite lookup_app_r, Nat.sub_diag by lia. done.
Qed.

Lemma load_live w i wr : world_ok w -> wrappers w !! i = Some wr ->
  exists obj, load (w_addr wr) w = (w, inl obj) /\ class_of obj = w_class wr /\ object_ok obj.
Proof. intros Hk Hi. destruct (Hk i wr Hi) as (obj & E & R). exists obj. unfold load. by rewrite E. Qed.

(** Reading an object of a known class. *)
Lemma load_class {A} (f : object -> option A) (P : A -> Prop) c w i a own : world_ok w ->
  wrappers w !! i = Some (mkWrapper a c own) ->
  (forall o, class_of o = c -> object_ok o -> exists x, f o = Some x /\ P x) ->
  exists x, load_as f a w = (w, inl x) /\ P x.
Proof.
  intros Hk Hi Hf. destruct (load_live w i _ Hk Hi) as (o & E & Ec & Eo). destruct (Hf o Ec Eo) as (x & Ex & Px).
  exists x. split; [|done]. unfold load_as, mbind, M_bind. cbn in E. by rewrite E, Ex.
Qed.

Lemma load_key w i a own : world_ok w -> wrappers w !! i = Some (mkWrapper a SecretKey own) ->
  exists x, load_as key_of a w = (w, inl x) /\ Scalar.pow256 x.
Proof. intros Hk Hi. eapply load_class; [done..|]. intros [] Hc Ho; try done. by exists key. Qed.

Lemma load_val w i a own : world_ok w -> wrappers w !! i = Some (mkWrapper a Scalar_ own) ->
  exists x, load_as val_of a w = (w, inl x) /\ Scalar.pow256 x.
Proof. intros Hk Hi. eapply load_class; [done..|]. intros [] Hc Ho; try done. by exists val. Qed.

Lemma load_p1a w i a own : world_ok w -> wrappers w !! i = Some (mkWrapper a P1_Affine own) ->
  exists x, load_as (affine_of G1_ops) a w = (w, inl x) /\ True.
Proof. intros Hk Hi. eapply load_class; [done..|]. intros [] Hc Ho; try done. by exists point0. Qed.

Lemma load_p1 w i a own : world_ok w -> wrappers w !! i = Some (mkWrapper a P1 own) ->
  exists x, load_as (jacobian_of G1_ops) a w = (w, inl x) /\ True.
Proof. intros Hk Hi. eapply load_class; [done..|]. intros [] Hc Ho; try done. by exists point0. Qed.

Lemma load_p2a w i a own : world_ok w -> wrappers w !! i = Some (mkWrapper a P2_Affine own) ->
  exists x, load_as (affine_of G2_ops) a w = (w, inl x) /\ True.
Proof. intros Hk Hi. eapply load_class; [done..|]. intros [] Hc Ho; try done. by exists point0. Qed.

Lemma load_p2 w i a own : world_ok w -> wrappers w !! i = Some (mkWrapper a P2 own) ->
  exists x, load_as (jacobian_of G2_ops) a w = (w, inl x) /\ True.
Proof. intros Hk Hi. eapply load_class; [done..|]. intros [] Hc Ho; try done. by exists point0. Qed.

Lemma load_pt w i a own : world_ok w -> wrappers w !! i = Some (mkWrapper a PT own) ->
  exists x, load_as fp12_of a w = (w, inl x) /\ True.
Proof. intros Hk Hi. eapply load_class; [done..|]. intros [] Hc Ho; try done. by exists value0. Qed.

Lemma load_pairing w i a own : world_ok w -> wrappers w !! i = Some (mkWrapper a Pairing_ own) ->
  exists x, load_as ctx_of a w = (w, inl x) /\ True.
Proof. intros Hk Hi. eapply load_class; [done..|]. intros [] Hc Ho; try done. by exists ctx. Qed.

(** ** What the calls that type-check do *)

(** The bytes of the key or scalar behind a wrapper. *)
Definition bytes_at (w : world) (v : value) : option (list Z) :=
  match v with
  | VObject i =>
      match wrappers w !! i with
      | Some o => match objects w !! w_addr o with
                  | Some (Some (OSecretKey k)) => Some k
                  | Some (Some (OScalar v)) => Some v
                  | _ => None
                  end
      | None => None
      end
  | _ => None
  end.

(** The data member of the object behind a wrapper. *)
Definition member_at {A} (as_ : object -> option A) (w : world) (v : value) : option A :=
  match v with
  | VObject i => o ← wrappers w !! i; match objects w !! w_addr o with Some (Some obj) => as_ obj | _ => None end
  | _ => None
  end.

(** The bytes of a string or of an array of bytes. *)
Definition text (v : value) : list Z :=
  match v with VBytes l => l | VString s => Keygen.bytes_of_string s | _ => [] end.

Definition no_key (key : option (list Z)) : option exn := match key with Some _ => None | None => Some NoResult end.

(** The operation that the scalar method stands for gives zero: the message of the error is
    outside the table of messages. *)
Definition zero_result (op : list Z -> list Z -> list Z * bool) (w : world) (this a : value) : option exn :=
  match bytes_at w this, bytes_at w a with
  | Some v, Some x => if (op v x).2 then None else Some UndefinedBehaviour
  | _, _ => None
  end.

Definition not_in_group (G : group) (w : world) (a : value) : option exn :=
  p ← member_at (affine_of G) w a; if g_in_group G p then None else Some (ThrowError BLST_POINT_NOT_IN_GROUP).

Definition negative (n : Z) : option exn := if n <? 0 then Some ThrowTypeError else None.

(** What a call whose arguments fit a declaration throws, if anything. *)
Definition failing (w : world) (c : cls) (this : value) (m : string) (vs : list value) : option exn :=
  match c with
  | SecretKey =>
      match m, vs with
      | "keygen", IKM :: info => no_key (Keygen.blst_keygen width hmac_mem fuel (text IKM) (match info with v :: _ => text v | [] => [] end))
      | "derive_master_eip2333", IKM :: _ => no_key (Keygen.blst_derive_master_eip2333 width hmac_mem fuel (text IKM))
      | "derive_child_eip2333", [SK; VNumber n] =>
          if ((0 <=? n) && (n <? 2 ^ 32))%Z
          then match bytes_at w SK with Some key => no_key (Keygen.blst_derive_child_eip2333 width hmac_mem fuel key n) | None => None end
          else Some ThrowRangeError
      | "from_bendian", [VBytes l] | "from_lendian", [VBytes l] => if (length l =? 32)%nat then None else Some ThrowIndexError
      | _, _ => None
      end
  | Scalar_ =>
      match m, vs with
      | "from_bendian", [VBytes []] | "from_lendian", [VBytes []] => Some UndefinedBehaviour
      | "add", [a] => zero_result (Scalar.blst_sk_add_n_check width) w this a
      | "sub", [a] => zero_result (Scalar.blst_sk_sub_n_check width) w this a
      | "mul", [a] => zero_result (Scalar.blst_sk_mul_n_check width) w this a
      | _, _ => None
      end
  | P1 =>
      match m, vs with
      | "aggregate", [a] => not_in_group G1_ops w a
      | "mult", [VBigInt n] => negative n
      | _, _ => None
      end
  | P2 =>
      match m, vs with
      | "aggregate", [a] => not_in_group G2_ops w a
      | "mult", [VBigInt n] => negative n
      | _, _ => None
      end
  | Pairing_ =>
      match m, vs with
      | "mul_n_aggregate", _ :: _ :: VObject _ :: _ => Some ThrowTypeError
      | "mul_n_aggregate", _ :: _ :: VBigInt n :: _ => negative n
      | _, _ => None
      end
  | _ => None
  end%string.

(** What a call that type-checks throws, if anything: an object of the other group, or
    [undefined], does not convert. *)
Definition failure (w : world) (c : cls) (this : value) (m : string) (vs : list value) : option exn :=
  if fits w (interface c) m vs then failing w c this m vs else Some ThrowTypeError.

(** Strings as bytes. *)
Lemma bytes_of_string_ok s : Forall byte_ok (Keygen.bytes_of_string s) /\ length (Keygen.bytes_of_string s) = String.length s.
Proof.
  unfold Keygen.bytes_of_string. induction s as [|a s [IH1 IH2]]; cbn; [done|]. split; [|by f_equal].
  constructor; [|done]. unfold byte_ok. pose proof (Ascii.nat_ascii_bounded a). lia.
Qed.

Lemma hash_to_scalar_ok msg DST : Z.of_nat (length msg) < 2 ^ 53 -> Z.of_nat (length DST) < 2 ^ 53 ->
  exists v b, hash_to_scalar width xmd_mem msg DST = Some (v, b) /\ Scalar.pow256 v.
Proof.
  intros Hm Hd. unfold hash_to_scalar, HashToField.blst_expand_message_xmd.
  change (255 * 32 <? (48 + 31) / 32 * 32)%nat with false. cbv iota.
  rewrite (HashToField.xmd_spec xmd_mem 48 [] msg DST Hxmd ltac:(lia) ltac:(lia) ltac:(cbn [length Nat.add]; lia)), app_nil_l.
  change (?f <$> Some ?x) with (Some (f x)).
  pose proof (HashToField.xmd_ref_ok 48 msg (HashToField.DST_prime DST) ltac:(lia)) as K. revert K.
  generalize (HashToField.xmd_ref 48 msg (HashToField.DST_prime DST)) as bs. intros bs [Kb Kl].
  change (mbind ?f (Some ?x)) with (f x). change (32 * ((48 + 31) / 32))%nat with 64%nat in Kl.
  assert (length (take 48 bs) = 48%nat) as Kt by (rewrite length_take; lia). apply (Forall_take byte_ok 48) in Kb.
  generalize dependent (take 48 bs). clear bs Kl. intros bs Kb Kl.
  rewrite (Scalar.scalar_from_be_spec width Hw bs Kb) by first [rewrite Kl; lia | by intros ->].
  pose proof (Scalar.scalar_of_pow256 (be_value bs)) as P. destruct (Scalar.scalar_of _) as [v b]. by exists v, b.
Qed.

#[local] Opaque Scalar.blst_sk_inverse Scalar.blst_sk_add_n_check Scalar.blst_sk_sub_n_check Scalar.blst_sk_mul_n_check
  Scalar.blst_scalar_from_be_bytes Scalar.blst_scalar_from_le_bytes hash_to_scalar Scalar.blst_scalar_from_bendian
  Scalar.blst_bendian_from_scalar Keygen.keygen Keygen.parent_SK_to_lamport_PK.

(** The argument list of a declared call, taken apart. *)
Ltac typed_list H :=
  repeat match type of H with
  | Forall2 _ _ (_ :: _) => let v := fresh "v" in let Ht := fresh "Ht" in
      apply Forall2_cons_inv_r in H as (v & ? & Ht & H & ->)
  | Forall2 _ _ [] => apply Forall2_nil_inv_r in H; subst
  end.

Ltac typed_value Ht :=
  cbn [accepts has_type binary_string bytes scalar] in Ht;
  lazymatch type of Ht with
  | _ \/ _ => destruct Ht as [Ht|Ht]; typed_value Ht
  | _ => idtac
  end.

Ltac typed :=
  match goal with H : typed_args _ _ _ |- _ =>
    let n := fresh "n" in destruct H as [n H]; cbn [required optional] in H;
    first [rewrite take_nil in H; cbn [app fmap list_fmap] in H
          |destruct n as [|[|n]]; cbn [take app] in H; rewrite ?take_nil in H; cbn [app fmap list_fmap] in H]; typed_list H
  end;
  repeat match goal with Ht : accepts _ ?v _ |- _ => typed_value Ht; destruct v; try (exfalso; exact Ht) end;
  repeat match goal with Ht : has_type _ ?v _ |- _ => typed_value Ht; destruct v; try (exfalso; exact Ht) end;
  repeat match goal with
  | Ht : exists o, wrappers _ !! _ = Some o /\ In (w_class o) _ |- _ =>
      destruct Ht as ([? ? ?] & ? & Ht); cbn [w_class alike In] in Ht; repeat destruct Ht as [Ht|Ht]; try destruct Ht; subst
  | Ht : exists o, wrappers _ !! _ = Some o /\ w_class o = _ |- _ =>
      destruct Ht as ([? ? ?] & ? & Ht); cbn [w_class] in Ht; subst
  end.

(** Whether the arguments fit, decided. *)
Ltac fit :=
  match goal with |- context [if fits ?w ?ds ?m ?vs then _ else _] =>
    let F := fresh "F" in let b := fresh "b" in evar (b : bool); assert (F : fits w ds m vs = b);
    [cbv -[wrappers lookup list_lookup bool_decide b];
     repeat match goal with Hi : wrappers w !! ?i = Some _ |- context [wrappers w !! ?i] => rewrite Hi end; vm_compute; reflexivity
    |rewrite F; subst b; clear F; cbv iota]
  end.

Ltac refs :=
  change (c_affine G1_ops) with P1_Affine; change (c_jacobian G1_ops) with P1;
  change (c_affine G2_ops) with P2_Affine; change (c_jacobian G2_ops) with P2;
  repeat (match goal with
  | Hi : wrappers ?w !! ?i = Some _ |- context [wrappers ?w !! ?i] => rewrite Hi
  | |- context [bool_decide (?c = ?c)] => rewrite (bool_decide_eq_true_2 (c = c) eq_refl)
  | |- context [bool_decide (?c = ?c' :> cls)] => rewrite (bool_decide_eq_false_2 (c = c')) by discriminate
  end; pick; cbn [w_addr w_class]).

Lemma wire_typed n l : wire_bytes n l -> Z.of_nat n < 2 ^ 53 -> Forall byte_ok l /\ Z.of_nat (length l) < 2 ^ 53.
Proof. by intros [Hl ->] Hn. Qed.

Lemma code_range e : 0 <= BLST_ERROR_code e <= 7.
Proof. destruct e; cbn; lia. Qed.

Lemma pow256_typed x : Scalar.pow256 x -> Forall byte_ok x /\ Z.of_nat (length x) < 2 ^ 53.
Proof. by intros [Hx ->]. Qed.

Lemma pow256_reverse x : Scalar.pow256 x -> Scalar.pow256 (reverse x).
Proof. intros [Hx Hl]. split; [by apply Forall_reverse|by rewrite length_reverse]. Qed.

Lemma bendian_typed x : Scalar.pow256 x -> Forall byte_ok (Scalar.blst_bendian_from_scalar width x) /\
  Z.of_nat (length (Scalar.blst_bendian_from_scalar width x)) < 2 ^ 53.
Proof. intros Hx. rewrite (Scalar.bendian_from_scalar_reverse width Hw) by done. by apply pow256_typed, pow256_reverse. Qed.

Lemma bendian_key l : Forall byte_ok l -> (length l =? 32)%nat = true -> Scalar.pow256 (Scalar.blst_scalar_from_bendian width l).
Proof.
  intros Hl En%Nat.eqb_eq. assert (Scalar.pow256 l) as P by (by split).
  rewrite (Scalar.scalar_from_bendian_reverse width Hw) by done. by apply pow256_reverse.
Qed.

Lemma lendian_key l : Forall byte_ok l -> (length l =? 32)%nat = true -> Scalar.pow256 (Scalar.blst_scalar_from_lendian l).
Proof.
  intros Hl En%Nat.eqb_eq. unfold Scalar.blst_scalar_from_lendian. rewrite take_ge by lia. by split.
Qed.

Lemma lendian_typed x : Scalar.pow256 x ->
  Forall byte_ok (Scalar.blst_lendian_from_scalar x) /\ Z.of_nat (length (Scalar.blst_lendian_from_scalar x)) < 2 ^ 53.
Proof. intros Hx. unfold Scalar.blst_lendian_from_scalar. rewrite take_ge by (destruct Hx; lia). by apply pow256_typed. Qed.

Lemma ok_set_key w i a own key : world_ok w -> wrappers w !! i = Some (mkWrapper a SecretKey own) ->
  (forall k, key = Some k -> Scalar.pow256 k) -> run_ok w Tvoid (no_key key) (set_key a key w).
Proof.
  intros Hk Hi Hp. unfold set_key. destruct key as [k|]; [|by apply ok_throw].
  apply (ok_store w i (mkWrapper a SecretKey own)); [done|done|done|by apply Hp|]. intros w' Hk' _. by apply ok_ret.
Qed.

Lemma ok_keygen w i a own salt IKM info version : world_ok w -> wrappers w !! i = Some (mkWrapper a SecretKey own) ->
  run_ok w Tvoid (no_key (Keygen.keygen width hmac_mem fuel IKM salt info version)) (set_key a (Keygen.keygen width hmac_mem fuel IKM salt info version) w).
Proof. intros Hk Hi. apply (ok_set_key w i a own); [done|done|]. intros k. apply (Keygen.keygen_pow256 width Hw). Qed.

Lemma ok_set_val w i a own this v b t e (k : value -> M value) : world_ok w -> wrappers w !! i = Some (mkWrapper a Scalar_ own) ->
  Scalar.pow256 v -> (forall w', world_ok w' -> wrappers w' = wrappers w -> run_ok w' t e (k this w')) ->
  run_ok w t e ((set_val a this (Some (v, b)) ≫= k) w).
Proof. intros Hk Hi Hv Hrest. apply (ok_store w i (mkWrapper a Scalar_ own) (OScalar v) t e (fun _ => k this)); done. Qed.

Lemma ok_hash_to w i a own msg DST : world_ok w -> wrappers w !! i = Some (mkWrapper a Scalar_ own) ->
  Z.of_nat (length msg) < 2 ^ 53 -> Z.of_nat (length DST) < 2 ^ 53 ->
  run_ok w (Tclass Scalar_) None ((set_val a VUndefined (hash_to_scalar width xmd_mem msg DST) ≫= fun _ => wrap_pointer Scalar_ a) w).
Proof.
  intros Hk Hi Hm Hd. destruct (hash_to_scalar_ok msg DST Hm Hd) as (v & b & -> & Hv).
  apply (ok_set_val w i a own); [done|done|done|]. intros w' Hk' E. rewrite <- E in Hi.
  by apply (ok_wrap w' i (mkWrapper a Scalar_ own)).
Qed.

Lemma ok_from_bytes w i a own (r : option (list Z * bool)) z : world_ok w -> wrappers w !! i = Some (mkWrapper a Scalar_ own) ->
  r = Some (Scalar.scalar_of z) -> run_ok w (Tclass Scalar_) None (set_val a (VObject i) r w).
Proof.
  intros Hk Hi ->. pose proof (Scalar.scalar_of_pow256 z) as P. destruct (Scalar.scalar_of z) as [v b].
  apply (ok_store w i (mkWrapper a Scalar_ own)); [done|done|done|done|]. intros w' Hk' E. apply ok_ret; [done|].
  exists (mkWrapper a Scalar_ own). by rewrite E.
Qed.

Lemma ok_from_any w i a own (r : option (list Z * bool)) (l : list Z) z : world_ok w -> wrappers w !! i = Some (mkWrapper a Scalar_ own) ->
  (l = [] -> r = None) -> (l <> [] -> r = Some (Scalar.scalar_of z)) ->
  run_ok w (Tclass Scalar_) (match l with [] => Some UndefinedBehaviour | _ => None end) (set_val a (VObject i) r w).
Proof.
  intros Hk Hi H0 H1. destruct l as [|x l]; [rewrite H0 by done; by apply ok_throw|]. by eapply ok_from_bytes; [..|apply H1].
Qed.

Lemma bytes_at_val w i a own x : wrappers w !! i = Some (mkWrapper a Scalar_ own) -> load_as val_of a w = (w, inl x) ->
  bytes_at w (VObject i) = Some x.
Proof.
  intros Hi. unfold bytes_at. rewrite Hi. cbn [w_addr]. unfold load_as, load, mbind, M_bind.
  destruct (objects w !! a) as [[[]|]|]; cbn; try done. by intros [= ->].
Qed.

Lemma bytes_at_key w i a own x : wrappers w !! i = Some (mkWrapper a SecretKey own) -> load_as key_of a w = (w, inl x) ->
  bytes_at w (VObject i) = Some x.
Proof.
  intros Hi. unfold bytes_at. rewrite Hi. cbn [w_addr]. unfold load_as, load, mbind, M_bind.
  destruct (objects w !! a) as [[[]|]|]; cbn; try done. by intros [= ->].
Qed.

Lemma member_at_load {A} (f : object -> option A) w i a c own x : wrappers w !! i = Some (mkWrapper a c own) -> load_as f a w = (w, inl x) ->
  member_at f w (VObject i) = Some x.
Proof.
  intros Hi. unfold member_at. rewrite Hi. cbn [w_addr mbind option_bind]. unfold load_as, load, mbind, M_bind.
  destruct (objects w !! a) as [[o|]|]; cbn; try done. destruct (f o); [|done]. by intros [= ->].
Qed.

(** One step of a method: read an object, write one, or finish. *)
Ltac reads lem a :=
  match goal with Hk : world_ok ?w, Hi : wrappers ?w !! _ = Some (mkWrapper a _ _) |- run_ok ?w _ _ _ =>
    let x := fresh "x" in let E := fresh "E" in let Hx := fresh "Hx" in
    destruct (lem _ _ _ _ Hk Hi) as (x & E & Hx); apply (ok_load _ _ _ _ _ _ _ E);
    try first [rewrite (bytes_at_val _ _ _ _ _ Hi E)|rewrite (bytes_at_key _ _ _ _ _ Hi E)|rewrite (member_at_load _ _ _ _ _ _ _ Hi E); cbn [mbind option_bind]]
  end.
Ltac step :=
  cbv [load_affine load_jacobian deref set_point set_val set_ctx update_val new_scalar aggregate_g1 aggregate_g2];
  lazymatch goal with
  | |- run_ok _ _ _ ((load_as key_of ?a ≫= _) _) => reads load_key a
  | |- run_ok _ _ _ ((load_as val_of ?a ≫= _) _) => reads load_val a
  | |- run_ok _ _ _ ((load_as fp12_of ?a ≫= _) _) => reads load_pt a
  | |- run_ok _ _ _ ((load_as ctx_of ?a ≫= _) _) => reads load_pairing a
  | |- run_ok _ _ _ ((load_as (affine_of G1_ops) ?a ≫= _) _) => reads load_p1a a
  | |- run_ok _ _ _ ((load_as (affine_of G2_ops) ?a ≫= _) _) => reads load_p2a a
  | |- run_ok _ _ _ ((load_as (jacobian_of G1_ops) ?a ≫= _) _) => reads load_p1 a
  | |- run_ok _ _ _ ((load_as (jacobian_of G2_ops) ?a ≫= _) _) => reads load_p2 a
  | Hi : wrappers ?w !! ?i = Some (mkWrapper ?a ?c ?own) |- run_ok ?w _ _ ((store ?a _ ≫= _) ?w) =>
      let w' := fresh "w" in let Hk := fresh "Hk" in let E := fresh "E" in
      apply (ok_store w i (mkWrapper a c own)); [assumption|assumption|reflexivity| |intros w' Hk E;
        repeat match goal with H : wrappers w !! _ = Some _ |- _ => rewrite <- E in H end]
  | |- run_ok _ _ _ (allocate _ _) => apply ok_allocate; [assumption| |reflexivity]
  | |- run_ok _ _ _ (mret _ _) => apply ok_ret; [assumption|]
  | |- run_ok _ _ _ (throw _ _) => apply ok_throw; assumption
  | |- run_ok _ _ _ (throw_error BLST_BAD_SCALAR _) => change (throw_error BLST_BAD_SCALAR) with (@throw _ value UndefinedBehaviour)
  | |- run_ok _ _ _ (throw_error ?e _) => change (throw_error e) with (@throw _ value (ThrowError e))
  | |- run_ok _ _ _ (wrap_pointer _ _ _) => eapply ok_wrap; [assumption|eassumption|reflexivity]
  | |- run_ok _ _ _ (set_key _ _ _) => first [eapply ok_keygen; eassumption|eapply ok_set_key; [eassumption|eassumption|intros ? [= <-]]]
  | |- run_ok _ ?t ?f (?w, inr ?e) => change (run_ok w t f ((throw e : M value) w))
  | |- run_ok _ _ _ (match (match (if ?b then _ else _) with _ => _ end) with _ => _ end) => destruct b eqn:?; cbv iota beta
  | |- run_ok _ _ _ (match (match (match (if ?b then _ else _) with _ => _ end) with _ => _ end) with _ => _ end) =>
      destruct b eqn:?; cbv iota beta
  | |- run_ok _ _ _ ((if ?b then _ else _) _) => destruct b eqn:?
  | |- run_ok _ _ _ ((let '(_, _) := ?p in _) _) => destruct p
  end.
Ltac finish :=
  cbn [has_type object_ok bytes];
  lazymatch goal with
  | |- True => exact I
  | |- object_ok _ => exact I
  | |- match O_affine _ _ with _ => _ end => exact I
  | |- match O_jacobian _ _ with _ => _ end => exact I
  | |- exists o, _ => eexists; split; [eassumption|reflexivity]
  | |- Forall byte_ok _ /\ _ =>
      try (eapply wire_typed; [first [apply p1_serialized|apply p2_serialized|apply p1_compressed|apply p2_compressed|apply fp12_serialized]|done])
  | |- match VError _ with _ => _ end => exact (code_range _)
  | |- _ => idtac
  end.
Ltac steps := repeat step; finish.


Definition characterised (c : cls) : Prop := forall w this m s vs, world_ok w -> has_type w this (Tclass c) ->
  In (m, s) (interface c) -> typed_args w s vs ->
  run_ok w (result s) (failure w c this m vs) (call width fuel hmac_mem xmd_mem pairing_mem this m vs w).

Ltac each :=
  match goal with H : In _ _ |- _ =>
    cbn [interface] in H; cbv [SecretKey_interface Scalar_interface P1_Affine_interface P2_Affine_interface P1_interface P2_interface PT_interface
         Pairing_interface] in H; cbv zeta in H;
    repeat (destruct H as [H|H]; [injection H as <- <-; cbn [result]|]); [..|destruct H]
  end.
Ltac method := typed; unfold failure; fit; cbv [failing zero_result not_in_group negative text]; pick; refs;
  try match goal with |- run_ok _ _ (if ?n <? 0 then _ else _) _ => destruct (n <? 0); cbv iota beta; refs end; steps.

Lemma P1_methods : characterised P1.
Proof. intros w this m s vs Hk Ht Hm Ha. each; method. Qed.

Lemma P2_methods : characterised P2.
Proof. intros w this m s vs Hk Ht Hm Ha. each; method. Qed.

Lemma PT_methods : characterised PT.
Proof. intros w this m s vs Hk Ht Hm Ha. each; method. Qed.

Lemma P1_Affine_methods : characterised P1_Affine.
Proof. intros w this m s vs Hk Ht Hm Ha. each; method. Qed.

Lemma P2_Affine_methods : characterised P2_Affine.
Proof. intros w this m s vs Hk Ht Hm Ha. each; method. Qed.

Lemma Pairing_methods : characterised Pairing_.
Proof. intros w this m s vs Hk Ht Hm Ha. each; method. Qed.

Lemma SecretKey_methods : characterised SecretKey.
Proof.
  intros w this m s vs Hk Ht Hm Ha. each; method.
  - apply bendian_key; tauto.
  - apply lendian_key; tauto.
  - by apply bendian_typed.
  - by apply lendian_typed.
Qed.

Lemma string_fits s : Z.of_nat (String.length s) < 2 ^ 53 -> Z.of_nat (length (Keygen.bytes_of_string s)) < 2 ^ 53.
Proof. by rewrite (proj2 (bytes_of_string_ok s)). Qed.

Lemma from_no_bytes : Scalar.blst_scalar_from_be_bytes width [] = None /\ Scalar.blst_scalar_from_le_bytes width [] = None.
Proof. destruct Hw as [-> | ->]; by vm_compute. Qed.

Lemma Scalar_methods : characterised Scalar_.
Proof.
  intros w this m s vs Hk Ht Hm Ha. each; method; try assumption;
    try (eapply ok_hash_to; [eassumption|eassumption|..]; first [done|by apply string_fits|tauto]).
  - by eapply ok_from_any; [done|done|by intros ->; apply from_no_bytes|intros Hl; apply (Scalar.scalar_from_be_spec width Hw); [tauto|lia|]].
  - by eapply ok_from_any; [done|done|by intros ->; apply from_no_bytes|intros Hl; apply (Scalar.scalar_from_le_spec width Hw); [tauto|lia|]].
  - by apply bendian_typed.
  - by apply lendian_typed.
  - by apply (Scalar.sk_add_pow256 width Hw).
  - by apply (Scalar.sk_add_pow256 width Hw).
  - by apply (Scalar.sk_sub_pow256 width Hw).
  - by apply (Scalar.sk_mul_pow256 width Hw).
  - by apply (Scalar.sk_inverse_pow256 width Hw).
Qed.

Lemma all_methods c : characterised c.
Proof.
  destruct c; [apply SecretKey_methods|apply Scalar_methods|apply P1_Affine_methods|apply P1_methods|apply P2_Affine_methods
              |apply P2_methods|apply PT_methods|apply Pairing_methods].
Qed.

(** ** Constructors and functions *)

(** [new blst.c(...)] and [blst.c.m(...)] *)
Definition call_static (c : cls) (m : string) (vs : list value) : M value :=
  if String.eqb m "new" then js_new width xmd_mem pairing_mem c vs else dispatch (statics c m) vs.

Definition mixed (c c' : cls) : bool :=
  match c, c' with
  | P1, P2_Affine | P1_Affine, P2 | P2, P1_Affine | P2_Affine, P1 => true
  | _, _ => false
  end.

(** What a constructor whose arguments fit a declaration throws: the error of the decoder;
    a scalar hashed without a domain does not convert, nor does the pair of an affine and a
    projective point, and a scalar is not read from no bytes. *)
Definition failing_new (w : world) (c : cls) (vs : list value) : option exn :=
  match c, vs with
  | Scalar_, [VString _] => Some ThrowTypeError
  | Scalar_, [VBytes []] => Some UndefinedBehaviour
  | P1_Affine, [VBytes l] | P1, [VBytes l] => match decode G1_ops l with inl _ => None | inr e => Some (ThrowError e) end
  | P2_Affine, [VBytes l] | P2, [VBytes l] => match decode G2_ops l with inl _ => None | inr e => Some (ThrowError e) end
  | PT, [VObject i; VObject j] =>
      match wrappers w !! i, wrappers w !! j with
      | Some o, Some o' => if mixed (w_class o) (w_class o') then Some ThrowTypeError else None
      | _, _ => None
      end
  | _, _ => None
  end.

Definition failure_new (w : world) (c : cls) (m : string) (vs : list value) : option exn :=
  if fits w (Blst_constructor c) m vs then failing_new w c vs else Some ThrowTypeError.

Ltac each_new :=
  match goal with H : In _ _ |- _ =>
    cbn [Blst_constructor] in H;
    cbv [SecretKeyConstructor ScalarConstructor P1_AffineConstructor P2_AffineConstructor P1Constructor P2Constructor PTConstructor
         PairingConstructor] in H;
    repeat (destruct H as [H|H]; [injection H as <- <-; cbn [result]|]); [..|destruct H]
  end.
Ltac pick_new := cbv [call_static js_new String.eqb Ascii.eqb Bool.eqb]; pick; refs.
Lemma ok_new_bytes w l : world_ok w -> Forall byte_ok l /\ Z.of_nat (length l) < 2 ^ 53 -> l <> [] ->
  run_ok w (Tclass Scalar_) None
    (new_scalar (Scalar.blst_scalar_from_le_bytes width (take (Z.to_nat ((8 * Z.of_nat (length l) + 7) / 8)) l)) w).
Proof.
  intros Hk [Hl Hn] Hne.
  rewrite take_ge by (rewrite <- (Z.div_unique _ 8 (Z.of_nat (length l)) 7); lia).
  rewrite (Scalar.scalar_from_le_spec width Hw l Hl) by (done || lia).
  pose proof (Scalar.scalar_of_pow256 (le_value l)) as P. destruct (Scalar.scalar_of _) as [v b]. by apply ok_allocate.
Qed.

Lemma ok_new_hash w msg DST : world_ok w -> Z.of_nat (length msg) < 2 ^ 53 -> Z.of_nat (length DST) < 2 ^ 53 ->
  run_ok w (Tclass Scalar_) None (new_scalar (hash_to_scalar width xmd_mem msg DST) w).
Proof.
  intros Hk Hm Hd. destruct (hash_to_scalar_ok msg DST Hm Hd) as (v & b & -> & Hv). by apply ok_allocate.
Qed.

Lemma ok_new_point G mk r w t : world_ok w -> (forall p, object_ok (mk p)) -> (forall p, t = Tclass (class_of (mk p))) ->
  (forall e, r = inr e -> e = BLST_BAD_ENCODING \/ e = BLST_POINT_NOT_ON_CURVE) ->
  run_ok w t (match r with inl _ => None | inr e => Some (ThrowError e) end) (new_point G mk r w).
Proof.
  intros Hk Ho Ht He. unfold new_point. destruct r as [p|e]; [by apply ok_allocate|].
  destruct (He e eq_refl) as [-> | ->]; by apply ok_throw.
Qed.

Lemma decode_error G l e : (forall l e, g_deserialize G l = inr e -> e = BLST_BAD_ENCODING \/ e = BLST_POINT_NOT_ON_CURVE) ->
  decode G l = inr e -> e = BLST_BAD_ENCODING \/ e = BLST_POINT_NOT_ON_CURVE.
Proof. intros Hd. unfold decode. destruct (wire_length_ok _ _ _); [apply Hd|]. intros [= <-]. by left. Qed.

Lemma ok_new_any w l : world_ok w -> Forall byte_ok l /\ Z.of_nat (length l) < 2 ^ 53 ->
  run_ok w (Tclass Scalar_) (match l with [] => Some UndefinedBehaviour | _ => None end)
    (new_scalar (Scalar.blst_scalar_from_le_bytes width (take (Z.to_nat ((8 * Z.of_nat (length l) + 7) / 8)) l)) w).
Proof.
  intros Hk Hl. destruct l as [|x l]; [|by apply (ok_new_bytes w (x :: l))]. rewrite take_nil, (proj2 from_no_bytes). by apply ok_throw.
Qed.

Lemma nil_or_not {A B} (l : list A) (x : B) : match l with [] => x | _ :: _ => x end = x.
Proof. by destruct l. Qed.

Lemma all_constructors c w m s vs : world_ok w -> In (m, s) (Blst_constructor c) -> typed_args w s vs ->
  run_ok w (result s) (failure_new w c m vs) (call_static c m vs w).
Proof.
  intros Hk Hm Ha. destruct c; each_new; typed; unfold failure_new; fit; cbv [failing_new mixed]; pick_new; steps;
    try exact (Scalar.pow256_bytes 0); try (by apply ok_new_any);
    try (rewrite ?nil_or_not; apply ok_new_hash; first [done|by apply string_fits|tauto]);
    (apply ok_new_point; [done|done|done|intros e; apply decode_error; first [exact p1_wire_error|exact p2_wire_error]]).
Qed.

(** [hash_to] gives the result a wrapper of its own, which does not keep the object. *)
Lemma hash_to_spec w i a own msg dst : wrappers w !! i = Some (mkWrapper a Scalar_ own) ->
  Z.of_nat (length msg) < 2 ^ 53 -> Z.of_nat (String.length dst) < 2 ^ 53 ->
  exists v, Scalar.pow256 v /\
    call width fuel hmac_mem xmd_mem pairing_mem (VObject i) "hash_to" [VBytes msg; VString dst] w =
    (mkWorld (<[a := Some (OScalar v)]> (objects w)) (wrappers w ++ [mkWrapper a Scalar_ false]) (console w),
     inl (VObject (length (wrappers w)))).
Proof.
  intros Hi Hm Hd. apply string_fits in Hd. destruct (hash_to_scalar_ok msg _ Hm Hd) as (v & b & E & Hv). exists v. split; [done|].
  pick. rewrite Hi. cbv iota beta. cbn [w_class w_addr]. pick. rewrite E. done.
Qed.

Lemma hash_to_dangles_spec w i a msg dst : wrappers w !! i = Some (mkWrapper a Scalar_ true) -> (a < length (objects w))%nat ->
  Z.of_nat (length msg) < 2 ^ 53 -> Z.of_nat (String.length dst) < 2 ^ 53 ->
  exists w1 j, call width fuel hmac_mem xmd_mem pairing_mem (VObject i) "hash_to" [VBytes msg; VString dst] w = (w1, inl (VObject j)) /\
    i <> j /\
    call width fuel hmac_mem xmd_mem pairing_mem (VObject j) "to_bendian" [] (collect i w1).1 =
    ((collect i w1).1, inr UndefinedBehaviour).
Proof.
  intros Hi Ha Hm Hd. destruct (hash_to_spec w i a true msg dst Hi Hm Hd) as (v & _ & E). eexists _, _. split; [exact E|].
  pose proof (lookup_lt_Some _ _ _ Hi) as Hlt. split; [lia|]. unfold collect. cbn [wrappers objects console].
  rewrite (lookup_app_l_Some _ _ _ _ Hi). cbn [fst].
  unfold call. cbn [wrappers]. rewrite lookup_app_r, Nat.sub_diag by lia. cbn [w_class w_addr lookup list_lookup].
  pick. unfold load_as, load, mbind, M_bind. cbn [objects]. by rewrite list_lookup_insert_eq by (rewrite length_insert; lia).
Qed.
End Soundness.

Section Multiplication.
Context {C : Curve} {L : CurveLaws C}.
Context (width : Z) (Hw : width = 32 \/ width = 64) (fuel : nat) (hmac_mem : Keygen.HMAC_SHA256_CTX) (xmd_mem : list Z).
Context (pairing_mem : PAIRING).

(** ** Multiplication *)

(** What the binding computes for a scalar given as bytes, whatever the path taken. *)
Record group_laws (G : group) : Prop := {
  gl_mult_0 p : g_mult_w G p 0 = g_inf G;
  gl_endo p k : g_in_group G p = true -> 0 <= k < BLS12_381_r -> g_mult_endo G p k = g_mult_w G p k;
  gl_bits : 0 < g_endo_bits G <= 255
}.

Lemma G1_laws : group_laws G1_ops.
Proof. split; [exact e1_mult_0|exact e1_mult_glv|done]. Qed.

Lemma G2_laws : group_laws G2_ops.
Proof. split; [exact e2_mult_0|exact e2_mult_gls|done]. Qed.

Lemma le_value_zeros n : le_value (replicate n 0) = 0.
Proof. induction n as [|n IH]; [done|]. cbn [replicate le_value]. rewrite IH. done. Qed.

(** Any bytes: the number they are. *)
Lemma point_mult_bytes G p l : group_laws G -> g_in_group G p = true -> Forall byte_ok l ->
  point_mult width G p l (8 * Z.of_nat (length l)) = g_mult_w G p (le_value l).
Proof.
  intros HG Hp Hl. unfold point_mult. set (nbits := 8 * Z.of_nat (length l)).
  pose proof (le_value_range l Hl) as R. assert (256 ^ Z.of_nat (length l) = 2 ^ nbits) as E.
  { unfold nbits. rewrite Z.pow_mul_r by lia. done. }
  rewrite E in R. rewrite (Z.mod_small _ _ R).
  destruct (nbits <? g_endo_bits G); [destruct (Z.eqb_spec nbits 0) as [En|En]; [|done]|].
  - assert (l = []) as -> by (destruct l; [done|unfold nbits in En; cbn [length] in En; lia]). by rewrite gl_mult_0.
  - destruct (Z.leb_spec nbits 256) as [Hn|Hn]; [|done].
    assert (Z.to_nat ((nbits + 7) / 8) = length l) as ->.
    { unfold nbits. rewrite <- (Z.div_unique _ 8 (Z.of_nat (length l)) 7) by lia. lia. }
    rewrite take_ge by lia. assert (Scalar.pow256 (l ++ replicate (32 - length l) 0)) as P.
    { split; [apply Forall_app; split; [done|by apply Forall_replicate]|rewrite length_app, length_replicate; unfold nbits in Hn; lia]. }
    rewrite (Scalar.sk_check_spec width Hw) by done. rewrite le_value_app, le_value_zeros, Z.mul_0_r, Z.add_0_r.
    destruct (0 <? le_value l) eqn:E0, (le_value l <? Scalar.group_order) eqn:E1; cbn [andb]; try done.
    apply Z.ltb_lt in E0, E1. apply gl_endo; [done|done|]. unfold BLS12_381_r. lia.
Qed.

Lemma word_count_fits n : 0 <= n -> n < 256 ^ Z.of_nat (8 * word_count n).
Proof.
  intros Hn. unfold word_count. destruct (Z.eqb_spec n 0) as [->|H0]; [done|].
  pose proof (Z.log2_nonneg n) as Hl. pose proof (Z.div_pos (Z.log2 n) 64 Hl ltac:(lia)) as Hd.
  change 256 with (2 ^ 8). rewrite <- Z.pow_mul_r, Nat2Z.inj_mul, Z2Nat.id by lia. apply Z.log2_lt_pow2; [lia|].
  pose proof (Z.div_mod (Z.log2 n) 64 ltac:(lia)). pose proof (Z.mod_pos_bound (Z.log2 n) 64 ltac:(lia)). lia.
Qed.

Lemma point_mult_bigint G p n : group_laws G -> g_in_group G p = true -> 0 <= n ->
  point_mult width G p (le_bytes (8 * word_count n) n) (8 * (8 * Z.of_nat (word_count n))) = g_mult_w G p n.
Proof.
  intros HG Hp Hn. pose proof (point_mult_bytes G p (le_bytes (8 * word_count n) n) HG Hp (le_bytes_ok _ _)) as E.
  rewrite length_le_bytes, le_value_bytes, Nat2Z.inj_mul, Z.mod_small in E; [exact E|]. split; [done|].
  rewrite <- Nat2Z.inj_mul. by apply word_count_fits.
Qed.

Lemma point_mult_scalar G p v : group_laws G -> g_in_group G p = true -> Scalar.pow256 v -> le_value v < BLS12_381_r ->
  point_mult width G p v 255 = g_mult_w G p (le_value v).
Proof.
  intros HG Hp Hv Hr. unfold point_mult. destruct (gl_bits G HG) as [_ Hb], Hv as [Hv Hl].
  rewrite (proj2 (Z.ltb_ge 255 (g_endo_bits G))) by lia. change (255 <=? 256) with true. cbv iota.
  change (Z.to_nat ((255 + 7) / 8)) with 32%nat. rewrite take_ge, Nat.sub_diag, app_nil_r by lia.
  pose proof (le_value_range v Hv) as R. rewrite (Scalar.sk_check_spec width Hw) by (by split).
  destruct (0 <? le_value v) eqn:E0; cbn [andb].
  - rewrite (proj2 (Z.ltb_lt _ _)) by exact Hr. apply gl_endo; [done|done|lia].
  - f_equal. apply Z.ltb_ge in E0. assert (le_value v = 0) as -> by lia. done.
Qed.

(** The number a scalar argument stands for. *)
Definition denotes (w : world) (v : value) (k : Z) : Prop :=
  match v with
  | VBytes l => Forall byte_ok l /\ k = le_value l
  | VBigInt n => k = n /\ 0 <= n
  | VObject i => exists a own x, wrappers w !! i = Some (mkWrapper a Scalar_ own) /\
      objects w !! a = Some (Some (OScalar x)) /\ Scalar.pow256 x /\ k = le_value x /\ k < BLS12_381_r
  | _ => False
  end.

Lemma load_at {A} (f : object -> option A) a o x w : objects w !! a = Some (Some o) -> f o = Some x -> load_as f a w = (w, inl x).
Proof. intros E Ef. unfold load_as, load, mbind, M_bind. by rewrite E, Ef. Qed.

Lemma mult_spec G w i a own p v k : G = G1_ops \/ G = G2_ops -> wrappers w !! i = Some (mkWrapper a (c_jacobian G) own) ->
  objects w !! a = Some (Some (O_jacobian G p)) -> g_in_group G p = true -> denotes w v k ->
  call width fuel hmac_mem xmd_mem pairing_mem (VObject i) "mult" [v] w =
  (mkWorld (<[a := Some (O_jacobian G (g_mult_w G p k))]> (objects w)) (wrappers w) (console w), inl (VObject i)).
Proof.
  intros HG Hi Ho Hp Hd. assert (group_laws G) as GL by (destruct HG as [-> | ->]; [apply G1_laws|apply G2_laws]).
  assert (jacobian_of G (O_jacobian G p) = Some p) as Hj by (by destruct HG as [-> | ->]).
  assert (call width fuel hmac_mem xmd_mem pairing_mem (VObject i) "mult" [v] w =
          dispatch (Point_mult width G a (VObject i)) [v] w) as ->.
  { unfold call. rewrite Hi. cbn [w_class w_addr]. by destruct HG as [-> | ->]. }
  pose proof (load_at (jacobian_of G) a _ p w Ho Hj) as Lp.
  destruct v as [| | | |n| |l|j]; cbn [denotes] in Hd; try done; pick.
  - destruct Hd as [-> Hn]. rewrite (proj2 (Z.ltb_ge n 0)) by done. cbv iota beta.
    unfold load_jacobian, mbind, M_bind at 1. rewrite Lp. by rewrite point_mult_bigint.
  - destruct Hd as [Hl ->]. unfold load_jacobian, mbind, M_bind at 1. rewrite Lp. by rewrite point_mult_bytes.
  - destruct Hd as (b & own' & x & Hj' & Hx & Px & -> & Hr). rewrite Hj'.
    rewrite (bool_decide_eq_true_2 (w_class _ = Scalar_)) by done. cbv iota beta. cbn [w_addr].
    unfold mbind at 1, M_bind at 1. rewrite (load_at val_of b _ x w Hx eq_refl).
    unfold load_jacobian, mbind, M_bind at 1. rewrite Lp. by rewrite point_mult_scalar.
Qed.
End Multiplication.


(** ** Theorems *)



(** [mult] multiplies by the number its argument is, in each of the three forms a
    scalar may have: bytes of any number, a bigint that is not negative, a [Scalar] below
    the group order; for points of the group, whichever of the windowed ladder and the
    endomorphism the length selects.  Only the object of [this] changes. *)
Theorem mult_computes {C : Curve} {L : CurveLaws C} width fuel hmac_mem xmd_mem pairing_mem G w i a own p v k :
  width = 32 \/ width = 64 -> G = G1_ops \/ G = G2_ops -> wrappers w !! i = Some (mkWrapper a (c_jacobian G) own) ->
  objects w !! a = Some (Some (O_jacobian G p)) -> g_in_group G p = true -> denotes w v k ->
  call width fuel hmac_mem xmd_mem pairing_mem (VObject i) "mult" [v] w =
  (mkWorld (<[a := Some (O_jacobian G (g_mult_w G p k))]> (objects w)) (wrappers w) (console w), inl (VObject i)).
Proof. intros Hw HG Hi Ho Hp Hd. by apply (mult_spec width Hw fuel hmac_mem xmd_mem pairing_mem G w i a own p v k). Qed.

(** [Scalar.hash_to] does not return [this]: once the object it was called on is
    collected, as it may be in [new blst.Scalar().hash_to(msg, DST)], the result refers to
    freed memory. *)
Theorem hash_to_result_dangles {C : Curve} width fuel hmac_mem xmd_mem pairing_mem w i a msg dst :
  width = 32 \/ width = 64 -> length xmd_mem = 320%nat ->
  wrappers w !! i = Some (mkWrapper a Scalar_ true) -> (a < length (objects w))%nat ->
  Z.of_nat (length msg) < 2 ^ 53 -> Z.of_nat (String.length dst) < 2 ^ 53 ->
  exists w1 j, call width fuel hmac_mem xmd_mem pairing_mem (VObject i) "hash_to" [VBytes msg; VString dst] w = (w1, inl (VObject j)) /\
    i <> j /\
    call width fuel hmac_mem xmd_mem pairing_mem (VObject j) "to_bendian" [] (collect i w1).1 =
    ((collect i w1).1, inr UndefinedBehaviour).
Proof. intros Hw Hx. by apply (hash_to_dangles_spec width Hw fuel hmac_mem xmd_mem Hx). Qed.

(** A point and a scalar. *)
Definition toy_world : @world toy :=
  mkWorld [Some (@OP1 toy (zr 1, false)); Some (@OScalar toy (le_bytes 32 5))]
    [mkWrapper 0 P1 true; mkWrapper 1 Scalar_ true] [].
Definition stack : list Z := replicate (64 * 5) 0.

Lemma toy_world_ok : world_ok toy_world.
Proof.
  intros [|[|i]] o; intros [= <-]; (eexists; split; [reflexivity|split; [reflexivity|]]); [done|apply Scalar.pow256_bytes].
Qed.



Lemma mult_computes_witness :
  @call toy 64 0 Keygen.blank stack toy_mem (VObject 0) "mult" [VObject 1] toy_world =
  (mkWorld [Some (@OP1 toy (@POINTonE1_mult toy (zr 1, false) 5)); Some (@OScalar toy (le_bytes 32 5))]
     (wrappers toy_world) [], inl (VObject 0)).
Proof.
  apply (@mult_computes toy toy_laws 64 0 Keygen.blank stack toy_mem G1_ops toy_world 0 0 true (zr 1, false) (VObject 1) 5);
    [by right|by left|done|done|done|].
  exists 1%nat, true, (le_bytes 32 5). split; [done|]. split; [done|]. split; [apply Scalar.pow256_bytes|]. by vm_compute.
Defined.

Lemma hash_to_result_dangles_witness : exists w1 j,
  @call toy 64 0 Keygen.blank stack toy_mem (VObject 1) "hash_to" [VBytes [1; 2; 3]; VString "D"] toy_world = (w1, inl (VObject j)) /\
  1%nat <> j /\
  @call toy 64 0 Keygen.blank stack toy_mem (VObject j) "to_bendian" [] (collect 1 w1).1 = ((collect 1 w1).1, inr UndefinedBehaviour).
Proof. apply (@hash_to_result_dangles toy 64 0 Keygen.blank stack toy_mem toy_world 1 1); [by right|done|done|cbn; lia|done|done]. Defined.
End BlstNode.
