(* ===== verification/Emscripten.v ===== *)
(** * The emscripten bindings of the BLS library

    src/src/blst/bindings/emscripten/build.py writes the glue between JavaScript and the
    classes of src/src/blst/bindings/blst.hpp compiled to WebAssembly: for each method a C
    function and a JavaScript function that checks and copies the arguments.  The objects and
    what the C++ methods do to them are those of BlstNode; this file has the argument checks,
    the error messages and the dispatch of the glue, which differ from those of the SWIG
    bindings.  The classes of the second group are the text of the first with the digits
    exchanged, here one definition over the group.

    Of the code build.py does not contain, the copies [ensureInt8] and [ensureString] make of
    bytes and strings, and the conversion of a JavaScript value to a pointer or an unsigned
    number, are modelled as documented.  Objects are deleted by [__destroy__] only, and their
    addresses are not used again.  A context as raw memory ([asArrayBuffer], and [merge] with
    such a buffer) is not modelled. *)

From stdpp Require Import prelude strings list pretty.
From Stdlib Require Import ZArith Lia.
From S2P Require Import Prelude Serialize Limbs Scalar Sha256 Keygen HashToField Blst BlstNode.

Open Scope Z_scope.

Module Emscripten.
Import BlstNode.

Section Glue.
Context {C : Curve}.
Context (width : Z) (fuel : nat) (hmac_mem : Keygen.HMAC_SHA256_CTX) (xmd_mem : list Z) (pairing_mem : PAIRING).
(** The number a string spells, zero if none. *)
Context (StringToNumber : string -> Z).
(** What the constants BLS12_381_NEG_G1 and BLS12_381_NEG_G2 hold. *)
Context (NEG_G1 : E1) (NEG_G2 : E2).

(** ** Errors and arguments *)

Definition BLST_ERROR_str : list string := [
  "BLST_ERROR: success";
  "BLST_ERROR: bad point encoding";
  "BLST_ERROR: point is not on curve";
  "BLST_ERROR: point is not in group";
  "BLST_ERROR: context type mismatch";
  "BLST_ERROR: verify failed";
  "BLST_ERROR: public key is infinite";
  "BLST_ERROR: bad scalar"]%string.

Definition blst_exception {A} (code : BLST_ERROR) : M A :=
  throw (ThrowMessage (default "undefined"%string (BLST_ERROR_str !! Z.to_nat (BLST_ERROR_code code)))).

Definition class_name (c : cls) : string :=
  match c with
  | SecretKey => "SecretKey" | Scalar_ => "Scalar" | P1_Affine => "P1_Affine" | P1 => "P1"
  | P2_Affine => "P2_Affine" | P2 => "P2" | PT => "PT" | Pairing_ => "Pairing"
  end.

(** [!!v] *)
Definition truthy (v : value) : bool :=
  match v with
  | VUndefined | VNull => false
  | VBoolean b => b
  | VNumber n | VBigInt n => negb (n =? 0)
  | VString s => negb (bool_decide (s = ""%string))
  | VBytes _ | VObject _ => true
  end.

(** [v.constructor.name] *)
Definition constructor_name (w : world) (v : value) : string :=
  match v with
  | VUndefined | VNull => ""
  | VBoolean _ => "Boolean" | VNumber _ => "Number" | VBigInt _ => "BigInt" | VString _ => "String" | VBytes _ => "Uint8Array"
  | VObject i => match wrappers w !! i with Some o => class_name (w_class o) | None => "" end
  end.

Definition unsupported (w : world) (type extra : value) : string :=
  let name v := if truthy v then constructor_name w v else "none"%string in
  match extra with
  | VUndefined => name type +:+ ": unsupported type"
  | _ => name type +:+ "/" +:+ name extra +:+ ": unsupported types or combination thereof"
  end.

Definition throw_unsupported {A} (type extra : value) : M A := fun w => (w, inr (ThrowMessage (unsupported w type extra))).

(** The bytes of a natural number, least significant first, as many as it has. *)
Definition bigint_bytes (n : Z) : list Z := le_bytes (if n =? 0 then 0 else Z.to_nat (Z.log2 n / 8 + 1)) n.

(** The address and length [ensureAny] returns, as the bytes there. *)
Definition ensureAny (v : value) : M (list Z) :=
  match v with
  | VNull => mret []
  | VUndefined => throw ThrowTypeError
  | VString s => mret (Keygen.bytes_of_string s)
  | VBigInt n => if n <? 0 then throw (ThrowMessage "expecting unsigned BigInt value") else mret (bigint_bytes n)
  | VBytes l => mret l
  | _ => throw_unsupported v VUndefined
  end.

(** The conversion of a value passed where WebAssembly has an integer. *)
Definition to_integer (v : value) : M Z :=
  match v with
  | VUndefined | VNull => mret 0
  | VBoolean b => mret (if b then 1 else 0)
  | VNumber n => mret n
  | VBigInt _ => throw ThrowTypeError
  | VString s => mret (StringToNumber s)
  | VBytes l => mret (StringToNumber (String.concat "," (pretty <$> l)))
  | VObject _ => mret (StringToNumber "[object Object]")
  end.

Fixpoint until_nul (s : list Z) : list Z :=
  match s with
  | [] => []
  | c :: s => if c =? 0 then [] else c :: until_nul s
  end.

(** [ensureString], and the C++ string of the pointer, or of none: what is not a string
    becomes a pointer as it is. *)
Definition c_string (v : value) : M (list Z) :=
  match v with
  | VString s => mret (until_nul (Keygen.bytes_of_string s))
  | _ => n ← to_integer v; if n mod 2 ^ 32 =? 0 then mret [] else throw UndefinedBehaviour
  end.

Definition instanceof (v : value) (c : cls) : M (option nat) := fun w =>
  (w, inl (match v with
           | VObject i => o ← wrappers w !! i; if bool_decide (w_class o = c) then Some (w_addr o) else None
           | _ => None
           end)).

(** [new] of a C++ object, and the wrapper that is put into the cache of its class *)
Definition create (o : object) : M value := fun w =>
  (mkWorld (objects w ++ [Some o]) (wrappers w ++ [mkWrapper (length (objects w)) (class_of o) false]) (console w),
   inl (VObject (length (wrappers w)))).

(** Arguments that are not given are undefined. *)
Definition nth_arg (vs : list value) (n : nat) : value := default VUndefined (vs !! n).

Definition absent (v : value) : bool := match v with VUndefined | VNull => true | _ => false end.

(** ** P1 and P2 *)

Section Points.
Context (G : group).

Definition em_new_point (mk : point G -> object) (r : point G + BLST_ERROR) : M value :=
  match r with inl p => create (mk p) | inr e => blst_exception e end.

Definition Affine_constructor (vs : list value) : M value :=
  let input := nth_arg vs 0 in
  if absent input then create (O_affine G (g_inf G))
  else match input with
       | VBytes l => em_new_point (O_affine G) (decode G l)
       | _ =>
           j ← instanceof input (c_jacobian G);
           match j with
           | Some a => p ← load_jacobian G a; create (O_affine G p)
           | None => throw_unsupported input VUndefined
           end
       end.

Definition Point_constructor (vs : list value) : M value :=
  let input := nth_arg vs 0 in
  if absent input then create (O_jacobian G (g_inf G))
  else match input with
       | VBytes l => em_new_point (O_jacobian G) (decode G l)
       | _ =>
           affine ← instanceof input (c_affine G);
           sk ← instanceof input SecretKey;
           match affine, sk with
           | Some a, _ => p ← load_affine G a; create (O_jacobian G p)
           | None, Some a => key ← load_as key_of a; create (O_jacobian G (multiply_by_key G (g_generator G) key))
           | None, None => throw_unsupported input VUndefined
           end
       end.

(** [is_equal] *)
Definition em_is_equal (c : cls) (load_ : nat -> M (point G)) (self : nat) (p : value) : M value :=
  a ← instanceof p c;
  match a with
  | Some a => x ← load_ self; y ← load_ a; mret (VBoolean (bool_decide (x = y)))
  | None => throw_unsupported p VUndefined
  end.

(** [hash_to] and [encode_to]: the pointer for [DST] is converted last. *)
Definition em_hash (f : list Z -> list Z -> list Z -> point G) (self : nat) (this : value) (vs : list value) : M value :=
  msg ← ensureAny (nth_arg vs 0);
  aug ← ensureAny (nth_arg vs 2);
  DST ← c_string (nth_arg vs 1);
  set_point G self this (f msg DST aug).

Definition em_aggregate (self : nat) (p : value) : M value :=
  a ← instanceof p (c_affine G);
  match a with
  | Some a =>
      x ← load_affine G a;
      if g_in_group G x
      then y ← load_jacobian G self; store self (O_jacobian G (g_dadd G y x));; mret VUndefined
      else blst_exception BLST_POINT_NOT_IN_GROUP
  | None => throw_unsupported p VUndefined
  end.

Definition em_sign_with (self : nat) (this sk : value) : M value :=
  a ← instanceof sk SecretKey;
  match a with
  | Some a => key ← load_as key_of a; p ← load_jacobian G self; set_point G self this (multiply_by_key G p key)
  | None => throw_unsupported sk VUndefined
  end.

Definition em_mult (self : nat) (this scalar : value) : M value :=
  a ← instanceof scalar Scalar_;
  match a, scalar with
  | Some a, _ => v ← load_as val_of a; p ← load_jacobian G self; set_point G self this (point_mult width G p v 255)
  | None, VString _ => throw_unsupported scalar VUndefined
  | None, _ =>
      bytes ← ensureAny scalar;
      p ← load_jacobian G self; set_point G self this (point_mult width G p bytes (8 * Z.of_nat (length bytes)))
  end.

Definition em_add (self : nat) (this p : value) : M value :=
  j ← instanceof p (c_jacobian G);
  a ← instanceof p (c_affine G);
  match j, a with
  | Some j, _ => x ← load_jacobian G self; y ← load_jacobian G j; set_point G self this (g_dadd G x y)
  | None, Some a => x ← load_jacobian G self; y ← load_affine G a; set_point G self this (g_dadd G x y)
  | None, None => throw_unsupported p VUndefined
  end.

(** [to_affine] returns a [P1] made from the affine point under the name of a
    [P1_Affine], whose two coordinates are the first of the three. *)
Definition Affine_methods (core_verify : nat -> list value -> M value) (m : string) (self : nat) (this : value) (vs : list value) : M value :=
  match m with
  | "dup" => p ← load_affine G self; create (O_affine G p)
  | "to_jacobian" => p ← load_affine G self; create (O_jacobian G p)
  | "serialize" => p ← load_affine G self; mret (VBytes (g_serialize G p))
  | "compress" => p ← load_affine G self; mret (VBytes (g_compress G p))
  | "on_curve" => p ← load_affine G self; mret (VBoolean (g_on_curve G p))
  | "in_group" => p ← load_affine G self; mret (VBoolean (g_in_group G p))
  | "is_inf" => p ← load_affine G self; mret (VBoolean (bool_decide (p = g_inf G)))
  | "is_equal" => em_is_equal (c_affine G) (load_affine G) self (nth_arg vs 0)
  | "core_verify" => core_verify self vs
  | _ => throw ThrowTypeError
  end%string.

Definition Point_methods (m : string) (self : nat) (this : value) (vs : list value) : M value :=
  match m with
  | "dup" => p ← load_jacobian G self; create (O_jacobian G p)
  | "to_affine" => p ← load_jacobian G self; create (O_affine G p)
  | "serialize" => p ← load_jacobian G self; mret (VBytes (g_serialize G p))
  | "compress" => p ← load_jacobian G self; mret (VBytes (g_compress G p))
  | "on_curve" => p ← load_jacobian G self; mret (VBoolean (g_on_curve G p))
  | "in_group" => p ← load_jacobian G self; mret (VBoolean (g_in_group G p))
  | "is_inf" => p ← load_jacobian G self; mret (VBoolean (bool_decide (p = g_inf G)))
  | "is_equal" => em_is_equal (c_jacobian G) (load_jacobian G) self (nth_arg vs 0)
  | "aggregate" => em_aggregate self (nth_arg vs 0)
  | "sign_with" => em_sign_with self this (nth_arg vs 0)
  | "hash_to" => em_hash (g_hash G) self this vs
  | "encode_to" => em_hash (g_encode G) self this vs
  | "mult" => em_mult self this (nth_arg vs 0)
  | "cneg" => p ← load_jacobian G self; set_point G self this (g_cneg G p (truthy (nth_arg vs 0)))
  | "neg" => p ← load_jacobian G self; set_point G self this (g_cneg G p true)
  | "add" => em_add self this (nth_arg vs 0)
  | "dbl" => p ← load_jacobian G self; set_point G self this (g_double G p)
  | _ => throw ThrowTypeError
  end%string.

Definition generator : M value := create (O_jacobian G (g_generator G)).
Definition Affine_generator : M value := create (O_affine G (g_generator G)).
End Points.

(** [core_verify], with the signature in [this] *)
Definition em_core_verify (c : cls) (verify : nat -> nat -> bool -> list Z -> list Z -> list Z -> M value) (self : nat) (vs : list value) : M value :=
  pk ← instanceof (nth_arg vs 0) c;
  match pk with
  | None => throw_unsupported (nth_arg vs 0) VUndefined
  | Some pk =>
      msg ← ensureAny (nth_arg vs 2);
      aug ← ensureAny (nth_arg vs 4);
      DST ← c_string (nth_arg vs 3);
      verify self pk (truthy (nth_arg vs 1)) msg DST aug
  end.

Definition P1_Affine_verify : nat -> list value -> M value :=
  em_core_verify P2_Affine (fun self pk hoe msg DST aug =>
    q ← load_affine G2_ops pk; s ← load_affine G1_ops self;
    mret (VError (blst_core_verify_pk_in_g2 pairing_mem q s hoe msg DST aug))).
Definition P2_Affine_verify : nat -> list value -> M value :=
  em_core_verify P1_Affine (fun self pk hoe msg DST aug =>
    q ← load_affine G1_ops pk; s ← load_affine G2_ops self;
    mret (VError (blst_core_verify_pk_in_g1 pairing_mem q s hoe msg DST aug))).

(** ** SecretKey *)

Definition SecretKey_constructor (vs : list value) : M value := create (OSecretKey (replicate 32 0)).

(** Seeds of fewer than 32 bytes are refused; the copy of the seed is wiped. *)
Definition em_keygen (self : nat) (vs : list value) : M value :=
  IKM ← ensureAny (nth_arg vs 0);
  if (length IKM <? 32)%nat then throw (ThrowMessage "BLST_ERROR: bad scalar")
  else info ← c_string (nth_arg vs 1); set_key self (Keygen.blst_keygen width hmac_mem fuel IKM info).

Definition em_derive_master (self : nat) (vs : list value) : M value :=
  IKM ← ensureAny (nth_arg vs 0);
  if (length IKM <? 32)%nat then throw (ThrowMessage "BLST_ERROR: bad scalar")
  else set_key self (Keygen.blst_derive_master_eip2333 width hmac_mem fuel IKM).

Definition em_derive_child (self : nat) (vs : list value) : M value :=
  sk ← instanceof (nth_arg vs 0) SecretKey;
  match sk with
  | None => throw_unsupported (nth_arg vs 0) VUndefined
  | Some sk =>
      n ← to_integer (nth_arg vs 1);
      key ← load_as key_of sk;
      set_key self (Keygen.blst_derive_child_eip2333 width hmac_mem fuel key (n mod 2 ^ 32))
  end.

(** [from_bendian] and [from_lendian] *)
Definition em_set_key (f : list Z -> list Z) (self : nat) (sk : value) : M value :=
  match sk with
  | VBytes l => if (length l =? 32)%nat then set_key self (Some (f l)) else throw_unsupported sk VUndefined
  | _ => throw_unsupported sk VUndefined
  end.

Definition SecretKey_methods (m : string) (self : nat) (vs : list value) : M value :=
  match m with
  | "keygen" => em_keygen self vs
  | "derive_master_eip2333" => em_derive_master self vs
  | "derive_child_eip2333" => em_derive_child self vs
  | "from_bendian" => em_set_key (Scalar.blst_scalar_from_bendian width) self (nth_arg vs 0)
  | "from_lendian" => em_set_key Scalar.blst_scalar_from_lendian self (nth_arg vs 0)
  | "to_bendian" => key ← load_as key_of self; mret (VBytes (Scalar.blst_bendian_from_scalar width key))
  | "to_lendian" => key ← load_as key_of self; mret (VBytes (Scalar.blst_lendian_from_scalar key))
  | _ => throw ThrowTypeError
  end%string.

(** ** Scalar *)

(** A [new] from bytes; [None] reads outside them. *)
Definition em_new_scalar (r : option (list Z * bool)) : M value :=
  match r with Some (v, _) => create (OScalar v) | None => throw UndefinedBehaviour end.

Definition Scalar_constructor (vs : list value) : M value :=
  let scalar := nth_arg vs 0 in
  if absent scalar then create (OScalar (replicate 32 0))
  else
    bytes ← ensureAny scalar;
    match nth_arg vs 1 with
    | (VString _ | VNull) as DST => dst ← c_string DST; em_new_scalar (hash_to_scalar width xmd_mem bytes dst)
    | _ => em_new_scalar (Scalar.blst_scalar_from_le_bytes width bytes)
    end.

(** A [SecretKey] is passed where a [Scalar] is meant: both are the one number. *)
Definition bytes_of_object (o : object) : option (list Z) :=
  match o with OScalar v => Some v | OSecretKey k => Some k | _ => None end.

(** [add], [sub] and [mul]; the result is stored before it is found to be zero. *)
Definition em_update (op : list Z -> list Z -> list Z * bool) (cs : list cls) (self : nat) (this a : value) : M value := fun w =>
  match a with
  | VObject i =>
      match wrappers w !! i with
      | Some o =>
          if bool_decide (w_class o ∈ cs)
          then (v ← load_as val_of self; x ← load_as bytes_of_object (w_addr o);
                store self (OScalar (op v x).1);; if (op v x).2 then mret this else blst_exception BLST_BAD_SCALAR) w
          else throw_unsupported a VUndefined w
      | None => throw_unsupported a VUndefined w
      end
  | _ => throw_unsupported a VUndefined w
  end.

Definition Scalar_methods (m : string) (self : nat) (this : value) (vs : list value) : M value :=
  match m with
  | "hash_to" =>
      msg ← ensureAny (nth_arg vs 0); DST ← c_string (nth_arg vs 1);
      set_val self this (hash_to_scalar width xmd_mem msg DST)
  | "dup" => v ← load_as val_of self; create (OScalar v)
  | "from_bendian" => msg ← ensureAny (nth_arg vs 0); set_val self this (Scalar.blst_scalar_from_be_bytes width msg)
  | "from_lendian" => msg ← ensureAny (nth_arg vs 0); set_val self this (Scalar.blst_scalar_from_le_bytes width msg)
  | "to_bendian" => v ← load_as val_of self; mret (VBytes (Scalar.blst_bendian_from_scalar width v))
  | "to_lendian" => v ← load_as val_of self; mret (VBytes (Scalar.blst_lendian_from_scalar v))
  | "add" => em_update (Scalar.blst_sk_add_n_check width) [Scalar_; SecretKey] self this (nth_arg vs 0)
  | "sub" => em_update (Scalar.blst_sk_sub_n_check width) [Scalar_] self this (nth_arg vs 0)
  | "mul" => em_update (Scalar.blst_sk_mul_n_check width) [Scalar_] self this (nth_arg vs 0)
  | "inverse" => v ← load_as val_of self; store self (OScalar (Scalar.blst_sk_inverse width v));; mret this
  | _ => throw ThrowTypeError
  end%string.

(** ** PT *)

Definition miller (load1 : nat -> M E1) (load2 : nat -> M E2) (p q : nat) : M value :=
  a ← load1 p; b ← load2 q; create (OPT (miller_loop_n [b] [a] 1)).

Definition PT_constructor (vs : list value) : M value :=
  let p := nth_arg vs 0 in let q := nth_arg vs 1 in
  p1a ← instanceof p P1_Affine; p2a ← instanceof p P2_Affine; p1 ← instanceof p P1; p2 ← instanceof p P2;
  if absent q then
    match p1a, p2a with
    | Some a, _ => x ← load_affine G1_ops a; create (OPT (blst_aggregated_in_g1 x))
    | None, Some a => x ← load_affine G2_ops a; create (OPT (blst_aggregated_in_g2 x))
    | None, None => throw_unsupported p VUndefined
    end
  else
    q1a ← instanceof q P1_Affine; q2a ← instanceof q P2_Affine; q1 ← instanceof q P1; q2 ← instanceof q P2;
    match p1a, q2a, p2a, q1a, p1, q2, p2, q1 with
    | Some p, Some q, _, _, _, _, _, _ | _, _, Some q, Some p, _, _, _, _ => miller (load_affine G1_ops) (load_affine G2_ops) p q
    | _, _, _, _, Some p, Some q, _, _ | _, _, _, _, _, _, Some q, Some p => miller (load_jacobian G1_ops) (load_jacobian G2_ops) p q
    | _, _, _, _, _, _, _, _ => throw_unsupported p q
    end.

(** A method with another [PT] *)
Definition with_PT (p : value) (f : FP12 -> M value) : M value :=
  a ← instanceof p PT;
  match a with Some a => u ← load_as fp12_of a; f u | None => throw_unsupported p VUndefined end.

Definition PT_methods (m : string) (self : nat) (this : value) (vs : list value) : M value :=
  match m with
  | "dup" => v ← load_as fp12_of self; create (OPT v)
  | "is_one" => v ← load_as fp12_of self; mret (VBoolean (bool_decide (v = fp12_one)))
  | "is_equal" => with_PT (nth_arg vs 0) (fun u => v ← load_as fp12_of self; mret (VBoolean (bool_decide (v = u))))
  | "sqr" => v ← load_as fp12_of self; store self (OPT (sqr_fp12 v));; mret this
  | "mul" => with_PT (nth_arg vs 0) (fun u => v ← load_as fp12_of self; store self (OPT (mul_fp12 v u));; mret this)
  | "final_exp" => v ← load_as fp12_of self; store self (OPT (final_exp v));; mret this
  | "in_group" => v ← load_as fp12_of self; mret (VBoolean (fp12_in_group v))
  | "to_bendian" => v ← load_as fp12_of self; mret (VBytes (bendian_from_fp12 v))
  | _ => throw ThrowTypeError
  end%string.

Definition PT_finalverify (vs : list value) : M value :=
  gt1 ← instanceof (nth_arg vs 0) PT; gt2 ← instanceof (nth_arg vs 1) PT;
  match gt1, gt2 with
  | Some a, Some b => u ← load_as fp12_of a; v ← load_as fp12_of b; mret (VBoolean (blst_fp12_finalverify u v))
  | _, _ => throw_unsupported (nth_arg vs 0) (nth_arg vs 1)
  end.

(** ** Pairing *)

(** The new context is put into the cache of [SecretKey], which is no class of its. *)
Definition Pairing_constructor (vs : list value) : M value :=
  DST ← c_string (nth_arg vs 1);
  create (OPairing (blst_pairing_init pairing_mem (truthy (nth_arg vs 0)) DST)).

(** [aggregate] and [mul_n_aggregate], once the bytes are copied *)
Definition em_pairing_aggregate (self : nat) (pk sig : value) (scalar : option (list Z * Z)) (msg aug : list Z) : M value :=
  pk1 ← instanceof pk P1_Affine; sig2 ← instanceof sig P2_Affine;
  pk2 ← instanceof pk P2_Affine; sig1 ← instanceof sig P1_Affine;
  match pk1, sig2, pk2, sig1 with
  | Some p, Some s, _, _ => aggregate_g1 self (Some p) (Some s) scalar msg aug
  | _, _, Some p, Some s => aggregate_g2 self (Some p) (Some s) scalar msg aug
  | _, _, _, _ => throw_unsupported pk sig
  end.

Definition em_aggregate_plain (self : nat) (vs : list value) : M value :=
  msg ← ensureAny (nth_arg vs 2);
  aug ← ensureAny (nth_arg vs 3);
  em_pairing_aggregate self (nth_arg vs 0) (nth_arg vs 1) None msg aug.

Definition em_mul_n_aggregate (self : nat) (vs : list value) : M value :=
  if absent (nth_arg vs 2) then throw (ThrowMessage "missing |scalar| argument")
  else
    scalar ← ensureAny (nth_arg vs 2);
    msg ← ensureAny (nth_arg vs 3);
    aug ← ensureAny (nth_arg vs 4);
    em_pairing_aggregate self (nth_arg vs 0) (nth_arg vs 1) (Some (scalar, 8 * Z.of_nat (length scalar))) msg aug.

Definition em_merge (self : nat) (ctx : value) : M value :=
  c ← instanceof ctx Pairing_;
  match c with
  | Some c => x ← load_as ctx_of self; y ← load_as ctx_of c; set_ctx self (blst_pairing_merge x y)
  | None => throw_unsupported ctx VUndefined
  end.

Definition em_finalverify (self : nat) (sig : value) : M value :=
  if absent sig then ctx ← load_as ctx_of self; mret (VBoolean (PAIRING_FinalVerify ctx None))
  else with_PT sig (fun gt => ctx ← load_as ctx_of self; mret (VBoolean (PAIRING_FinalVerify ctx (Some gt)))).

Definition em_raw_aggregate (self : nat) (q p : value) : M value :=
  q2 ← instanceof q P2_Affine; p1 ← instanceof p P1_Affine;
  match q2, p1 with
  | Some b, Some a =>
      ctx ← load_as ctx_of self; y ← load_affine G2_ops b; x ← load_affine G1_ops a;
      store self (OPairing (blst_pairing_raw_aggregate ctx y x));; mret VUndefined
  | _, _ => throw_unsupported q p
  end.

Definition Pairing_methods (m : string) (self : nat) (vs : list value) : M value :=
  match m with
  | "aggregate" => em_aggregate_plain self vs
  | "mul_n_aggregate" => em_mul_n_aggregate self vs
  | "commit" => ctx ← load_as ctx_of self; store self (OPairing (PAIRING_Commit ctx));; mret VUndefined
  | "merge" => em_merge self (nth_arg vs 0)
  | "finalverify" => em_finalverify self (nth_arg vs 0)
  | "raw_aggregate" => em_raw_aggregate self (nth_arg vs 0) (nth_arg vs 1)
  | "as_fp12" => ctx ← load_as ctx_of self; let '(ctx, gt) := blst_pairing_as_fp12 ctx in store self (OPairing ctx);; create (OPT gt)
  | _ => throw ThrowTypeError
  end%string.

(** ** The module *)

(** [this.ptr = 0] makes the wrapper as useless as the deletion makes the address. *)
Definition destroy (self : nat) : M value := fun w =>
  (mkWorld (<[self := None]> (objects w)) (wrappers w) (console w), inl VUndefined).

Definition em_call (this : value) (m : string) (vs : list value) : M value := fun w =>
  match this with
  | VObject i =>
      match wrappers w !! i with
      | Some o =>
          let self := w_addr o in
          if bool_decide (m = "__destroy__"%string) then destroy self w
          else match w_class o with
               | SecretKey => SecretKey_methods m self vs w
               | Scalar_ => Scalar_methods m self this vs w
               | P1_Affine => Affine_methods G1_ops P1_Affine_verify m self this vs w
               | P2_Affine => Affine_methods G2_ops P2_Affine_verify m self this vs w
               | P1 => Point_methods G1_ops m self this vs w
               | P2 => Point_methods G2_ops m self this vs w
               | PT => PT_methods m self this vs w
               | Pairing_ => Pairing_methods m self vs w
               end
      | None => (w, inr ThrowTypeError)
      end
  | _ => (w, inr ThrowTypeError)
  end.

Definition em_new (c : cls) (vs : list value) : M value :=
  match c with
  | SecretKey => SecretKey_constructor vs | Scalar_ => Scalar_constructor vs
  | P1_Affine => Affine_constructor G1_ops vs | P2_Affine => Affine_constructor G2_ops vs
  | P1 => Point_constructor G1_ops vs | P2 => Point_constructor G2_ops vs
  | PT => PT_constructor vs | Pairing_ => Pairing_constructor vs
  end.

(** The functions that are not methods *)
Definition em_static (c : cls) (m : string) (vs : list value) : M value :=
  match c, m with
  | P1, "generator" => generator G1_ops | P2, "generator" => generator G2_ops
  | P1_Affine, "generator" => Affine_generator G1_ops | P2_Affine, "generator" => Affine_generator G2_ops
  | PT, "one" => create (OPT fp12_one) | PT, "finalverify" => PT_finalverify vs
  | _, _ => throw ThrowTypeError
  end%string.

(** The constants of the module, wrapped before the program is called. *)
Definition setupConsts : M value :=
  create (OP1_Affine BLS12_381_G1);; create (OP2_Affine BLS12_381_G2);;
  create (OP1_Affine NEG_G1);; create (OP2_Affine NEG_G2);; mret VUndefined.
End Glue.

(** ** Where the two bindings differ *)

(** The same call through the two bindings.  A seed of fewer than 32 bytes is refused here and
    makes the zero key there; a message hashed without augmentation is a [TypeError] here and a
    point there; a scalar operation that gives zero throws the message here and reads outside
    the table of messages there, and both have stored the zero. *)
Theorem bindings_differ {C : Curve} width fuel hmac_mem xmd_mem pairing_mem number w i j k a b c own :
  width = 32 \/ width = 64 -> world_ok w ->
  wrappers w !! i = Some (mkWrapper a SecretKey own) -> wrappers w !! j = Some (mkWrapper b P1 own) ->
  wrappers w !! k = Some (mkWrapper c Scalar_ own) ->
  let here := em_call width fuel hmac_mem xmd_mem pairing_mem number in
  let there := call width fuel hmac_mem xmd_mem pairing_mem in
  let with_object n o := mkWorld (<[n := Some o]> (objects w)) (wrappers w) (console w) in
  (forall IKM, (length IKM < 32)%nat ->
     here (VObject i) "keygen" [VBytes IKM] w = (w, inr (ThrowMessage "BLST_ERROR: bad scalar")) /\
     there (VObject i) "keygen" [VBytes IKM] w = (with_object a (OSecretKey (le_bytes 32 0)), inl VUndefined)) /\
  (forall msg DST,
     here (VObject j) "hash_to" [VBytes msg; VString DST] w = (w, inr ThrowTypeError) /\
     there (VObject j) "hash_to" [VBytes msg; VString DST] w =
       (with_object b (OP1 (Hash_to_G1 msg (Keygen.bytes_of_string DST) [])), inl (VObject j))) /\
  (exists v, objects w !! c = Some (Some (OScalar v)) /\
     let w' := with_object c (OScalar (Scalar.blst_sk_sub_n_check width v v).1) in
     ((Scalar.blst_sk_sub_n_check width v v).2 = false ->
      here (VObject k) "sub" [VObject k] w = (w', inr (ThrowMessage "BLST_ERROR: bad scalar")) /\
      there (VObject k) "sub" [VObject k] w = (w', inr UndefinedBehaviour))).
Proof.
  intros Hw Hk Hi Hj Hs here there with_object. split_and!.
  - intros IKM Hl. split.
    + unfold here, em_call. rewrite Hi. cbn [w_class w_addr]. rewrite bool_decide_eq_false_2 by done.
      unfold SecretKey_methods, em_keygen, nth_arg. cbn [lookup list_lookup default from_option id]. unfold ensureAny, mbind, M_bind, mret, M_ret. by rewrite (proj2 (Nat.ltb_lt _ _) Hl).
    + unfold there, call. rewrite Hi. cbn [w_class w_addr]. pick. unfold Keygen.blst_keygen.
      unfold Keygen.keygen. by rewrite (proj2 (Nat.ltb_lt _ _) Hl).
  - intros msg DST. split.
    + unfold here, em_call. rewrite Hj. cbn [w_class w_addr]. by rewrite bool_decide_eq_false_2 by done.
    + unfold there, call. rewrite Hj. cbn [w_class w_addr]. by pick.
  - destruct (Hk k _ Hs) as (o & Ho & Hc & _). cbn [w_addr w_class] in *. destruct o as [|v| | | | | |]; try done. exists v. split; [done|].
    cbv zeta. intros Hz. split.
    + unfold here, em_call. rewrite Hs. cbn [w_class w_addr]. rewrite bool_decide_eq_false_2 by done.
      unfold Scalar_methods, em_update, nth_arg. cbn [lookup list_lookup default from_option id]. unfold id. rewrite Hs. cbn [w_class w_addr]. rewrite bool_decide_eq_true_2 by (by left).
      unfold load_as, load, mbind, M_bind. rewrite Ho. cbn [val_of bytes_of_object mret M_ret]. rewrite Ho. unfold store, mret, M_ret. cbn [bytes_of_object]. by rewrite Hz.
    + unfold there, call. rewrite Hs. cbn [w_class w_addr]. pick. rewrite Hs, bool_decide_eq_true_2 by done. cbn [w_addr].
      unfold load_as, load, mbind, M_bind. rewrite Ho. cbn [val_of mret M_ret]. rewrite Ho. unfold update_val, mbind, M_bind, store, mret, M_ret. cbn [val_of]. by rewrite Hz.
Qed.
End Emscripten.
