(* ===== verification/Runnable.v ===== *)
(** * The example programs of the BLS bindings

    src/src/blst/bindings/node.js/runnable.js and runnable.ts, and
    src/src/blst/bindings/emscripten/runnable.js: generate a key, sign, send the key and
    the signature over the wire, verify.  They are sequences of calls in the order of the
    files, with the variables the files assign again: the programs for Node call the methods
    of BlstNode, the emscripten program those of Emscripten.  The theorem runs them from a
    new process to the line "OK". *)

From stdpp Require Import prelude strings list.
From Stdlib Require Import ZArith Lia.
From S2P Require Import Prelude Serialize Limbs Scalar Sha256 Keygen HashToField Blst BlstNode Emscripten.

Open Scope Z_scope.

Module Runnable.
Import BlstNode.

Section Programs.
Context {C : Curve}.
Context (width : Z) (fuel : nat) (hmac_mem : Keygen.HMAC_SHA256_CTX) (xmd_mem : list Z) (pairing_mem : PAIRING).
#[local] Abbreviation new := (js_new width xmd_mem pairing_mem).
#[local] Abbreviation invoke := (call width fuel hmac_mem xmd_mem pairing_mem).

Definition msg : value := VString "assertion".
Definition DST : value := VString "MY-DST".

(** Key generation and signing: what goes over the wire. *)
Definition sender : M (value * value) :=
  SK ← new SecretKey [];
  invoke SK "keygen" [VString (String.concat "" (replicate 32 "*"%string))];;
  pk ← new P1 [SK];
  pk_for_wire ← invoke pk "serialize" [];
  sig ← new P2 [];
  sig ← invoke sig "hash_to" [msg; DST; pk_for_wire];
  sig ← invoke sig "sign_with" [SK];
  sig_for_wire ← invoke sig "serialize" [];
  mret (pk_for_wire, sig_for_wire).

(** [if (!v) throw "disaster"] *)
Definition vet (v : value) : M value :=
  match v with
  | VBoolean true => mret VUndefined
  | _ => throw (ThrowString "disaster")
  end.

Definition receiver (pk_for_wire sig_for_wire : value) : M value :=
  sig ← new P2_Affine [sig_for_wire];
  pk ← new P1_Affine [pk_for_wire];
  ok ← invoke pk "in_group" [];
  vet ok;;
  ctx ← new Pairing_ [VBoolean true; DST];
  invoke ctx "aggregate" [pk; sig; msg; pk_for_wire];;
  invoke ctx "commit" [];;
  ok ← invoke ctx "finalverify" [];
  vet ok;;
  console_log "OK".

Definition runnable_js : M value :=
  console_log "testing...";;
  '(pk_for_wire, sig_for_wire) ← sender;
  receiver pk_for_wire sig_for_wire.

Definition runnable_ts : M value :=
  console_log "testing...";;
  '(pk_for_wire, sig_for_wire) ← sender;
  receiver pk_for_wire sig_for_wire.

End Programs.

(** The emscripten program only installs a callback, which the runtime calls when the
    module is ready. *)
Section Emscripten.
Context {C : Curve}.
Context (width : Z) (fuel : nat) (hmac_mem : Keygen.HMAC_SHA256_CTX) (xmd_mem : list Z) (pairing_mem : PAIRING).
Context (StringToNumber : string -> Z).
#[local] Abbreviation new := (Emscripten.em_new width xmd_mem pairing_mem StringToNumber).
#[local] Abbreviation invoke := (Emscripten.em_call width fuel hmac_mem xmd_mem pairing_mem StringToNumber).

Definition onRuntimeInitialized : M value :=
  SK ← new SecretKey [];
  invoke SK "keygen" [VString (String.concat "" (replicate 32 "*"%string))];;
  pk ← new P1 [SK];
  pk_for_wire ← invoke pk "serialize" [];
  sig ← new P2 [];
  sig ← invoke sig "hash_to" [msg; DST; pk_for_wire];
  sig ← invoke sig "sign_with" [SK];
  sig_for_wire ← invoke sig "serialize" [];
  sig ← new P2_Affine [sig_for_wire];
  pk ← new P1_Affine [pk_for_wire];
  ok ← invoke pk "in_group" [];
  vet ok;;
  ctx ← new Pairing_ [VBoolean true; DST];
  invoke ctx "aggregate" [pk; sig; msg; pk_for_wire];;
  invoke ctx "commit" [];;
  ok ← invoke ctx "finalverify" [];
  vet ok;;
  console_log "OK".

Definition emscripten_runnable_js : M (M value) :=
  console_log "testing...";;
  mret onRuntimeInitialized.
End Emscripten.

Section ProgramProofs.
Context {C : Curve} {L : CurveLaws C}.
Context (width : Z) (Hw : width = 32 \/ width = 64) (fuel : nat) (hmac_mem : Keygen.HMAC_SHA256_CTX) (xmd_mem : list Z).
Context (pairing_mem : PAIRING) (Hmem : arrays_ok pairing_mem).

Lemma bind_step {A B} (m : M A) (k : A -> M B) w w' a r : m w = (w', inl a) -> k a w' = r -> (m ≫= k) w = r.
Proof. intros E <-. unfold mbind, M_bind. by rewrite E. Qed.

Context (key : list Z).
Context (Hkey : Keygen.blst_keygen width hmac_mem fuel Keygen.stars [] = Some key).

#[local] Opaque Keygen.blst_keygen blst_pairing_init blst_pairing_aggregate_pk_in_g1 PAIRING_Commit PAIRING_FinalVerify
  le_value wire_length_ok.

Lemma star_bytes : Keygen.bytes_of_string (String.concat "" (replicate 32 "*"%string)) = Keygen.stars.
Proof. reflexivity. Qed.

Ltac on_world :=
  cbn [wrappers objects console lookup list_lookup w_class w_addr app length class_of O_affine O_jacobian G1_ops G2_ops
       g_inf g_generator g_mult_endo g_hash g_serialize g_deserialize g_in_group g_short g_long multiply_by_key insert list_insert fst snd
       affine_of jacobian_of].
Ltac conversions :=
  repeat (match goal with
  | |- context [bool_decide (?c = ?c)] => rewrite (bool_decide_eq_true_2 (c = c) eq_refl)
  | |- context [bool_decide (?c = ?c' :> cls)] => rewrite (bool_decide_eq_false_2 (c = c')) by discriminate
  end; pick; on_world).
Ltac run :=
  eapply bind_step;
  [ cbv [js_new msg DST]; unfold call; on_world; pick; on_world; conversions;
    cbv [load_affine load_jacobian load_as load deref mbind M_bind mret M_ret key_of store allocate set_point set_ctx ctx_of
         affine_of jacobian_of G1_ops G2_ops O_affine O_jacobian aggregate_g1]; on_world
  | ].

Lemma sender_run out :
  let pk := POINTonE1_mult_glv BLS12_381_G1 (le_value key) in
  let sig := POINTonE2_mult_gls (Hash_to_G2 (Keygen.bytes_of_string "assertion") (Keygen.bytes_of_string "MY-DST")
                                   (blst_p1_serialize pk)) (le_value key) in
  sender width fuel hmac_mem xmd_mem pairing_mem (mkWorld [] [] out) =
  (mkWorld [Some (OSecretKey key); Some (OP1 pk); Some (OP2 sig)]
     [mkWrapper 0 SecretKey true; mkWrapper 1 P1 true; mkWrapper 2 P2 true] out,
   inl (VBytes (blst_p1_serialize pk), VBytes (blst_p2_serialize sig))).
Proof.
  intros pk sig. unfold sender.
  run; [reflexivity|]. on_world.
  run. { rewrite star_bytes, Hkey. reflexivity. } on_world.
  run; [reflexivity|]. on_world.
  run; [reflexivity|]. on_world.
  run; [reflexivity|]. on_world.
  run; [reflexivity|]. on_world.
  run; [reflexivity|]. on_world.
  run; [reflexivity|]. on_world.
  reflexivity.
Qed.

Lemma receiver_run o1 o2 o3 pk sig wire sig_wire ctx out :
  wire_length_ok wire 48 96 = true -> blst_p1_deserialize wire = inl pk ->
  wire_length_ok sig_wire 96 192 = true -> blst_p2_deserialize sig_wire = inl sig ->
  POINTonE1_in_G1 pk = true ->
  blst_pairing_aggregate_pk_in_g1 (blst_pairing_init pairing_mem true (Keygen.bytes_of_string "MY-DST")) (Some pk) (Some sig)
    (Keygen.bytes_of_string "assertion") wire = (ctx, BLST_SUCCESS) ->
  PAIRING_FinalVerify (PAIRING_Commit ctx) None = true ->
  exists w, receiver width fuel hmac_mem xmd_mem pairing_mem (VBytes wire) (VBytes sig_wire)
    (mkWorld [Some o1; Some o2; Some o3] [mkWrapper 0 SecretKey true; mkWrapper 1 P1 true; mkWrapper 2 P2 true] out) =
    (w, inl VUndefined) /\ console w = out ++ ["OK"%string].
Proof.
  intros W1 D1 W2 D2 Hin Hagg Hver. eexists. unfold receiver. split.
  - run. { unfold decode. on_world. rewrite W2, D2. reflexivity. } on_world.
    run. { unfold decode. on_world. rewrite W1, D1. reflexivity. } on_world.
    run; [reflexivity|]. on_world. rewrite Hin.
    eapply bind_step; [reflexivity|].
    run; [reflexivity|]. on_world.
    run. { rewrite Hagg. reflexivity. } on_world.
    run; [reflexivity|]. on_world.
    run; [reflexivity|]. on_world. rewrite Hver.
    eapply bind_step; reflexivity.
  - reflexivity.
Qed.
End ProgramProofs.

(** The callback, in the process with the constants of the module *)
Section EmscriptenProof.
Context {C : Curve} {L : CurveLaws C}.
Context (width : Z) (fuel : nat) (hmac_mem : Keygen.HMAC_SHA256_CTX) (xmd_mem : list Z).
Context (pairing_mem : PAIRING) (StringToNumber : string -> Z) (key : list Z).
Context (Hkey : Keygen.blst_keygen width hmac_mem fuel Keygen.stars [] = Some key).

#[local] Opaque Keygen.blst_keygen blst_pairing_init blst_pairing_aggregate_pk_in_g1 PAIRING_Commit PAIRING_FinalVerify
  le_value wire_length_ok.

Lemma dst_nul : Emscripten.until_nul (Keygen.bytes_of_string "MY-DST") = Keygen.bytes_of_string "MY-DST".
Proof. reflexivity. Qed.

Ltac on_world :=
  cbn [wrappers objects console lookup list_lookup w_class w_addr app length class_of O_affine O_jacobian G1_ops G2_ops
       g_inf g_generator g_mult_endo g_hash g_serialize g_deserialize g_in_group g_short g_long multiply_by_key insert list_insert fst snd
       affine_of jacobian_of c_affine c_jacobian].
Ltac run :=
  eapply bind_step;
  [ cbv [msg DST Emscripten.em_new Emscripten.em_call]; on_world;
    cbv [default Emscripten.absent Emscripten.SecretKey_constructor Emscripten.Point_constructor Emscripten.Affine_constructor Emscripten.Pairing_constructor
         Emscripten.SecretKey_methods Emscripten.Point_methods Emscripten.Affine_methods Emscripten.Pairing_methods Emscripten.em_keygen Emscripten.em_hash
         Emscripten.em_sign_with Emscripten.em_aggregate_plain Emscripten.em_pairing_aggregate Emscripten.em_finalverify Emscripten.em_new_point
         Emscripten.ensureAny Emscripten.c_string Emscripten.instanceof Emscripten.create Emscripten.truthy
         Emscripten.nth_arg from_option id mbind M_bind option_bind mret M_ret]; on_world; cbv [from_option id]; on_world;
    repeat (match goal with
    | |- context [bool_decide (?c = ?c)] => rewrite (bool_decide_eq_true_2 (c = c) eq_refl)
    | |- context [bool_decide (?c = ?c' :> cls)] => rewrite (bool_decide_eq_false_2 (c = c')) by discriminate
    | |- context [bool_decide (?c = ?c' :> string)] => rewrite (bool_decide_eq_false_2 (c = c')) by discriminate
    end; on_world);
    cbv [load_affine load_jacobian load_as load deref mbind M_bind mret M_ret key_of store set_point set_ctx ctx_of
         affine_of jacobian_of G1_ops G2_ops O_affine O_jacobian aggregate_g1]; on_world; rewrite ?dst_nul
  | ].

Lemma callback_run c1 c2 c3 c4 pk wire sig ctx out :
  pk = POINTonE1_mult_glv BLS12_381_G1 (le_value key) -> wire = blst_p1_serialize pk ->
  sig = POINTonE2_mult_gls (Hash_to_G2 (Keygen.bytes_of_string "assertion") (Keygen.bytes_of_string "MY-DST") wire) (le_value key) ->
  wire_length_ok wire 48 96 = true -> blst_p1_deserialize wire = inl pk ->
  wire_length_ok (blst_p2_serialize sig) 96 192 = true -> blst_p2_deserialize (blst_p2_serialize sig) = inl sig ->
  POINTonE1_in_G1 pk = true ->
  blst_pairing_aggregate_pk_in_g1 (blst_pairing_init pairing_mem true (Keygen.bytes_of_string "MY-DST")) (Some pk) (Some sig)
    (Keygen.bytes_of_string "assertion") wire = (ctx, BLST_SUCCESS) ->
  PAIRING_FinalVerify (PAIRING_Commit ctx) None = true ->
  exists w, onRuntimeInitialized width fuel hmac_mem xmd_mem pairing_mem StringToNumber
    (mkWorld [Some c1; Some c2; Some c3; Some c4]
       [mkWrapper 0 P1_Affine false; mkWrapper 1 P2_Affine false; mkWrapper 2 P1_Affine false; mkWrapper 3 P2_Affine false] out) =
    (w, inl VUndefined) /\ console w = out ++ ["OK"%string].
Proof.
  intros Epk Ewire Esig W1 D1 W2 D2 Hin Hagg Hver. eexists. unfold onRuntimeInitialized. split.
  - run; [reflexivity|]. on_world.
    run. { rewrite star_bytes. change (length Keygen.stars <? 32)%nat with false. cbv [Emscripten.to_integer mret M_ret]. change (0 mod 2 ^ 32 =? 0) with true. cbv iota beta. rewrite Hkey. reflexivity. } on_world.
    run; [reflexivity|]. on_world. rewrite <- Epk.
    run; [reflexivity|]. on_world. rewrite <- Ewire.
    run; [reflexivity|]. on_world.
    run; [reflexivity|]. on_world.
    run; [reflexivity|]. on_world. rewrite <- Esig.
    run; [reflexivity|]. on_world.
    run. { unfold decode. on_world. rewrite W2, D2. reflexivity. } on_world.
    run. { unfold decode. on_world. rewrite W1, D1. reflexivity. } on_world.
    run; [reflexivity|]. on_world. rewrite Hin.
    eapply bind_step; [reflexivity|].
    run; [reflexivity|]. on_world.
    run. { rewrite Hagg. reflexivity. } on_world.
    run; [reflexivity|]. on_world.
    run; [reflexivity|]. on_world. rewrite Hver.
    eapply bind_step; reflexivity.
  - reflexivity.
Qed.
End EmscriptenProof.

(** Printed, and nothing thrown. *)
Definition prints {C : Curve} (lines : list string) (r : world * (value + exn)) : Prop :=
  console r.1 = lines /\ r.2 = inl VUndefined.

Definition process {C : Curve} (out : list string) : world := mkWorld [] [] out.

(** What the bytes on the wire decode to, and what the verification sees. *)
Lemma signing_verifies {C : Curve} {L : CurveLaws C} pairing_mem key :
  arrays_ok pairing_mem -> 0 < le_value key < BLS12_381_r ->
  Hash_to_G2 (Keygen.bytes_of_string "assertion") (Keygen.bytes_of_string "MY-DST")
    (blst_p1_serialize (POINTonE1_mult BLS12_381_G1 (le_value key))) <> e2_inf ->
  let pk := POINTonE1_mult_glv BLS12_381_G1 (le_value key) in
  let wire := blst_p1_serialize pk in
  let sig := POINTonE2_mult_gls (Hash_to_G2 (Keygen.bytes_of_string "assertion") (Keygen.bytes_of_string "MY-DST") wire) (le_value key) in
  (wire_length_ok wire 48 96 = true /\ blst_p1_deserialize wire = inl pk /\
   wire_length_ok (blst_p2_serialize sig) 96 192 = true /\ blst_p2_deserialize (blst_p2_serialize sig) = inl sig /\ POINTonE1_in_G1 pk = true) /\
  exists ctx, blst_pairing_aggregate_pk_in_g1 (blst_pairing_init pairing_mem true (Keygen.bytes_of_string "MY-DST")) (Some pk) (Some sig)
      (Keygen.bytes_of_string "assertion") wire = (ctx, BLST_SUCCESS) /\ PAIRING_FinalVerify (PAIRING_Commit ctx) None = true.
Proof.
  intros Hmem Hsk HH. cbv zeta. rewrite (e1_mult_glv BLS12_381_G1 (le_value key) G1_gen) by lia.
  set (pk := POINTonE1_mult BLS12_381_G1 (le_value key)) in *. set (wire := blst_p1_serialize pk) in *.
  rewrite (e2_mult_gls _ (le_value key) (Hash_to_G2_in _ _ _)) by lia.
  assert (POINTonE1_in_G1 pk = true) as HP by (apply G1_mult; [apply G1_gen|lia]). split; [|by apply context_accepts].
  set (sig := POINTonE2_mult _ _). assert (POINTonE2_in_G2 sig = true) as HS by (apply G2_mult; [apply Hash_to_G2_in|lia]).
  destruct (p1_wire pk HP) as [W1 D1], (p2_wire sig HS) as [W2 D2]. done.
Qed.

Lemma signing_prints_key {C : Curve} {L : CurveLaws C} width fuel hmac_mem xmd_mem pairing_mem key out :
  arrays_ok pairing_mem -> Keygen.blst_keygen width hmac_mem fuel Keygen.stars [] = Some key ->
  0 < le_value key < BLS12_381_r ->
  Hash_to_G2 (Keygen.bytes_of_string "assertion") (Keygen.bytes_of_string "MY-DST")
    (blst_p1_serialize (POINTonE1_mult BLS12_381_G1 (le_value key))) <> e2_inf ->
  prints (out ++ ["OK"%string])
    (('(pk_for_wire, sig_for_wire) ← sender width fuel hmac_mem xmd_mem pairing_mem;
      receiver width fuel hmac_mem xmd_mem pairing_mem pk_for_wire sig_for_wire) (process out)).
Proof.
  intros Hmem Hkey Hsk HH. pose proof (sender_run width fuel hmac_mem xmd_mem pairing_mem key Hkey out) as E.
  destruct (signing_verifies pairing_mem key Hmem Hsk HH) as ((W1 & D1 & W2 & D2 & HP) & ctx & Hagg & Hver).
  edestruct (receiver_run width fuel hmac_mem xmd_mem pairing_mem) as (w & R & Hc); [exact W1|exact D1|exact W2|exact D2|exact HP|exact Hagg|exact Hver|].
  unfold prints. erewrite bind_step; [|exact E|exact R]. by split.
Qed.

Lemma callback_prints_key {C : Curve} {L : CurveLaws C} width fuel hmac_mem xmd_mem pairing_mem StringToNumber key c1 c2 c3 c4 out :
  arrays_ok pairing_mem -> Keygen.blst_keygen width hmac_mem fuel Keygen.stars [] = Some key ->
  0 < le_value key < BLS12_381_r ->
  Hash_to_G2 (Keygen.bytes_of_string "assertion") (Keygen.bytes_of_string "MY-DST")
    (blst_p1_serialize (POINTonE1_mult BLS12_381_G1 (le_value key))) <> e2_inf ->
  prints (out ++ ["OK"%string])
    (onRuntimeInitialized width fuel hmac_mem xmd_mem pairing_mem StringToNumber
       (mkWorld [Some c1; Some c2; Some c3; Some c4]
          [mkWrapper 0 P1_Affine false; mkWrapper 1 P2_Affine false; mkWrapper 2 P1_Affine false; mkWrapper 3 P2_Affine false] out)).
Proof.
  intros Hmem Hkey Hsk HH. destruct (signing_verifies pairing_mem key Hmem Hsk HH) as ((W1 & D1 & W2 & D2 & HP) & ctx & Hagg & Hver).
  edestruct (callback_run width fuel hmac_mem xmd_mem pairing_mem StringToNumber key Hkey c1 c2 c3 c4) as (w & R & Hc);
    [reflexivity|reflexivity|reflexivity|exact W1|exact D1|exact W2|exact D2|exact HP|exact Hagg|exact Hver|].
  unfold prints. rewrite R. by split.
Qed.

Lemma stars_key_range : 0 < le_value Keygen.stars_key < BLS12_381_r.
Proof. split; reflexivity. Qed.

(** C7: The three example programs succeed.  Unless the signed message hashes to infinity,
    runnable.ts and runnable.js print "testing..." and "OK" and throw nothing, through the
    conversions of the bindings for Node; the emscripten program prints "testing..." and
    installs a callback that, called once the module has set up its constants, prints "OK",
    through the checks and copies of its own glue.  Key generation, signing, the encodings
    and the verification are those of the library; one turn of key generation is enough. *)
Theorem runnables_print_OK {C : Curve} {L : CurveLaws C} width fuel hmac_mem xmd_mem pairing_mem StringToNumber NEG_G1 NEG_G2 :
  width = 32 \/ width = 64 -> arrays_ok pairing_mem ->
  Hash_to_G2 (Keygen.bytes_of_string "assertion") (Keygen.bytes_of_string "MY-DST")
    (blst_p1_serialize (POINTonE1_mult BLS12_381_G1 (le_value Keygen.stars_key))) <> e2_inf ->
  prints ["testing..."; "OK"]%string (runnable_ts width (S fuel) hmac_mem xmd_mem pairing_mem (process [])) /\
  prints ["testing..."; "OK"]%string (runnable_js width (S fuel) hmac_mem xmd_mem pairing_mem (process [])) /\
  exists callback,
    emscripten_runnable_js width (S fuel) hmac_mem xmd_mem pairing_mem StringToNumber (process []) =
      (process ["testing..."%string], inl callback) /\
    prints ["testing..."; "OK"]%string ((Emscripten.setupConsts NEG_G1 NEG_G2;; callback) (process ["testing..."%string])).
Proof.
  intros Hw Hmem HH. pose proof (Keygen.stars_keygen width hmac_mem fuel Hw) as Hkey.
  pose proof (signing_prints_key width (S fuel) hmac_mem xmd_mem pairing_mem Keygen.stars_key ["testing..."%string] Hmem Hkey stars_key_range HH) as R.
  split; [exact R|]. split; [exact R|]. eexists. split; [reflexivity|].
  exact (callback_prints_key width (S fuel) hmac_mem xmd_mem pairing_mem StringToNumber Keygen.stars_key _ _ _ _ ["testing..."%string] Hmem Hkey stars_key_range HH).
Qed.

Lemma runnables_print_OK_witness :
  prints ["testing..."; "OK"]%string (@runnable_ts toy 64 1 Keygen.blank stack toy_mem (process [])).
Proof.
  refine (proj1 (@runnables_print_OK toy toy_laws 64 0 Keygen.blank stack toy_mem (fun _ => 0) (zr 0, false) (zr 0, false) (or_intror eq_refl) toy_mem_ok _)).
  vm_compute. discriminate.
Defined.

(** ** Hexadecimal output *)

Definition hex_digits : string := "0123456789abcdef".

Definition hex_digit (v : Z) : string :=
  match String.get (Z.to_nat v) hex_digits with
  | Some c => String c EmptyString
  | None => "undefined"
  end.

Definition toHexString (buffer : list Z) : string :=
  foldl (fun s v => (s +:+ (hex_digit (Z.shiftr v 4) +:+ hex_digit (Z.land v 15)))%string)
        ""%string buffer.

Definition hex_value (c : Ascii.ascii) : Z :=
  match String.index 0 (String c EmptyString) hex_digits with
  | Some n => Z.of_nat n
  | None => -1
  end.

Fixpoint fromHexString (s : string) : list Z :=
  match s with
  | String a (String b s) => (16 * hex_value a + hex_value b) :: fromHexString s
  | _ => []
  end.

Definition hex_byte (v : Z) : string := (hex_digit (Z.shiftr v 4) +:+ hex_digit (Z.land v 15))%string.

Definition hex_byte_ok (v : Z) : bool :=
  match hex_byte v with
  | String a (String b EmptyString) => 16 * hex_value a + hex_value b =? v
  | _ => false
  end.

Lemma hex_byte_decodes v s : 0 <= v < 256 -> fromHexString (hex_byte v +:+ s) = v :: fromHexString s.
Proof.
  intros Hv.
  assert (forallb (fun n => hex_byte_ok (Z.of_nat n)) (seq 0 256) = true) as H by (vm_compute; reflexivity).
  rewrite forallb_forall in H. specialize (H (Z.to_nat v)).
  rewrite Z2Nat.id in H by lia. specialize (H ltac:(apply in_seq; lia)).
  unfold hex_byte_ok in H. destruct (hex_byte v) as [|a [|b [|]]]; try done.
  apply Z.eqb_eq in H. change (16 * hex_value a + hex_value b :: fromHexString s = v :: fromHexString s). by rewrite H.
Qed.

Lemma toHexString_acc l : forall s,
  foldl (fun s v => s +:+ hex_byte v)%string s l = (s +:+ toHexString l)%string.
Proof.
  induction l as [|v l IH]; intros s.
  - symmetry. apply string_app_nil_r.
  - change (foldl (fun s v => s +:+ hex_byte v) (s +:+ hex_byte v) l =
            s +:+ foldl (fun s v => s +:+ hex_byte v) (hex_byte v) l)%string.
    rewrite !IH. apply string_app_assoc.
Qed.

(** [toHexString] of runnable.js loses nothing: reading its output two digits at
    a time gives the bytes back, for every byte array. *)
Theorem toHexString_roundtrip l :
  Forall (fun v => 0 <= v < 256) l -> fromHexString (toHexString l) = l.
Proof.
  induction 1 as [|v l Hv Hl IH]; [reflexivity|].
  change (toHexString (v :: l)) with (foldl (fun s v => s +:+ hex_byte v)%string (hex_byte v) l).
  by rewrite toHexString_acc, hex_byte_decodes, IH by done.
Qed.

Lemma toHexString_roundtrip_witness :
  toHexString [0; 171; 255] = "00abff"%string /\ fromHexString (toHexString [0; 171; 255]) = [0; 171; 255].
Proof. split; [reflexivity|]. apply toHexString_roundtrip. repeat constructor; lia. Defined.
End Runnable.
