(* ===== verification/PeerDiscovery.v ===== *)
(** * Automatic peer discovery (trust/trustscore.cpp, PeerDiscoveryManager)

    The manager remembers the addresses of validators and the ones still to be
    passed to addnode, and keeps them in a text file.  Network addresses
    (netaddress.h, netbase.h) enter as the interface [NetAddress]; the file system
    is a map from paths to contents together with the set of paths that cannot be
    opened for writing. *)

From stdpp Require Import gmap strings list sorting.
From Stdlib Require Import ZArith Lia Ascii.
From S2P Require Import Prelude.

Open Scope Z_scope.

(** ** Network addresses *)

Class NetAddress := {
  CService : Type;
  #[global] CService_eq :: EqDecision CService;
  #[global] CService_countable :: Countable CService;
  CService_default : CService;
  IsValid : CService -> bool;
  (** [operator<] of the source, as its reflexive closure *)
  CService_le : relation CService;
  #[global] CService_le_dec :: RelDecision CService_le;
  ToStringAddrPort : CService -> list ascii;
  LookupNumeric : list ascii -> Z -> CService
}.

Definition text (s : string) : list ascii := String.list_ascii_of_string s.
Definition newline : ascii := "010"%char.
Definition tab : ascii := "009"%char.
Definition carriage_return : ascii := "013"%char.

(** The documented behaviour of the address type: [operator<] is a strict total
    order, a valid address prints as a non-empty text without blanks, and parsing
    that text gives the address back whatever default port is passed. *)
Class NetAddressLaws (A : NetAddress) : Prop := {
  #[global] CService_le_total :: Total CService_le;
  #[global] CService_le_trans :: Transitive CService_le;
  default_invalid : IsValid CService_default = false;
  print_nonempty a : IsValid a = true -> ToStringAddrPort a <> [];
  print_plain a c : IsValid a = true -> c ∈ ToStringAddrPort a ->
    c <> " "%char /\ c <> tab /\ c <> carriage_return /\ c <> newline;
  parse_print a port : IsValid a = true -> LookupNumeric (ToStringAddrPort a) port = a
}.

Section PeerDiscovery.
Context {A : NetAddress}.

Record PeerDiscoveryManager := mkPeers {
  knownValidatorPeers : gset CService;
  pendingAdditions : gset CService;
  configFilePath : string
}.

Record FileSystem := mkFS {
  files : gmap string (list ascii);
  unwritable : gset string
}.

Definition PeerDiscoveryManager_new : PeerDiscoveryManager := mkPeers ∅ ∅ "".

Definition SetConfigPath (path : string) (m : PeerDiscoveryManager) : PeerDiscoveryManager :=
  mkPeers (knownValidatorPeers m) (pendingAdditions m) path.

Definition ProcessValidatorAddress (address : CService) (m : PeerDiscoveryManager)
    : bool * PeerDiscoveryManager :=
  if negb (IsValid address) then (false, m)
  else if bool_decide (address ∈ knownValidatorPeers m) then (false, m)
  else (true, mkPeers ({[ address ]} ∪ knownValidatorPeers m)
                      ({[ address ]} ∪ pendingAdditions m) (configFilePath m)).

(** A [std::set] is visited in increasing order. *)
Definition set_in_order (s : gset CService) : list CService := merge_sort CService_le (elements s).

Definition GetPendingPeers (m : PeerDiscoveryManager) : list CService :=
  set_in_order (pendingAdditions m).

Definition MarkPeerAdded (address : CService) (m : PeerDiscoveryManager) : PeerDiscoveryManager :=
  mkPeers (knownValidatorPeers m) (pendingAdditions m ∖ {[ address ]}) (configFilePath m).

Definition IsKnownPeer (address : CService) (m : PeerDiscoveryManager) : bool :=
  bool_decide (address ∈ knownValidatorPeers m).

Definition GetKnownPeerCount (m : PeerDiscoveryManager) : nat := size (knownValidatorPeers m).

Definition GetAddNodeCommand (address : CService) : list ascii :=
  text "addnode " ++ [ascii_of_nat 34] ++ ToStringAddrPort address ++ [ascii_of_nat 34] ++ text " add".

(** ** The peer file *)

Definition peers_header : list ascii :=
  text "# WATTx Validator Peers - Auto-generated" ++ [newline] ++
  text "# These peers were discovered from validator heartbeats" ++ [newline] ++
  text "# Format: addnode=IP:PORT" ++ [newline; newline].

Definition peer_line (peer : CService) : list ascii :=
  text "addnode=" ++ ToStringAddrPort peer ++ [newline].

Definition SavePeersToConfig (m : PeerDiscoveryManager) (fs : FileSystem) : bool * FileSystem :=
  if bool_decide (configFilePath m = ""%string) then (false, fs)
  else if bool_decide (configFilePath m ∈ unwritable fs) then (false, fs)
  else (true, mkFS (<[configFilePath m :=
                       peers_header ++ flat_map peer_line (set_in_order (knownValidatorPeers m))]>
                     (files fs)) (unwritable fs)).

(** [std::getline] until the end of the file: a last line without newline counts
    if it is not empty. *)
Fixpoint getlines (acc : list ascii) (s : list ascii) : list (list ascii) :=
  match s with
  | [] => if bool_decide (acc = []) then [] else [reverse acc]
  | c :: s => if bool_decide (c = newline) then reverse acc :: getlines [] s
              else getlines (c :: acc) s
  end.

Fixpoint is_prefix (pat s : list ascii) : bool :=
  match pat, s with
  | [], _ => true
  | a :: pat, b :: s => bool_decide (a = b) && is_prefix pat s
  | _, [] => false
  end.

(** [line.find(pat)] and the text after the match. *)
Fixpoint find_after (pat s : list ascii) : option (list ascii) :=
  if is_prefix pat s then Some (drop (length pat) s)
  else match s with
       | [] => None
       | _ :: s => find_after pat s
       end.

Definition blank_left (c : ascii) : bool := bool_decide (c = " "%char \/ c = tab).
Definition blank_right (c : ascii) : bool :=
  bool_decide (c = " "%char \/ c = tab \/ c = carriage_return \/ c = newline).

Fixpoint skip (p : ascii -> bool) (s : list ascii) : list ascii :=
  match s with
  | [] => []
  | c :: s' => if p c then skip p s' else s
  end.

Definition trim (s : list ascii) : list ascii :=
  reverse (skip blank_right (reverse (skip blank_left s))).

Definition load_line (known : gset CService) (line : list ascii) : gset CService :=
  match line with
  | [] => known
  | c :: _ =>
      if bool_decide (c = "#"%char) then known
      else match find_after (text "addnode=") line with
           | None => known
           | Some rest =>
               let addrStr := trim rest in
               match addrStr with
               | [] => known
               | _ => let addr := LookupNumeric addrStr 18888 in
                      if IsValid addr then {[ addr ]} ∪ known else known
               end
           end
  end.

Definition LoadPeersFromConfig (m : PeerDiscoveryManager) (fs : FileSystem)
    : bool * PeerDiscoveryManager :=
  if bool_decide (configFilePath m = ""%string) then (false, m)
  else match files fs !! configFilePath m with
       | None => (true, m)
       | Some content =>
           (true, mkPeers (foldl load_line (knownValidatorPeers m) (getlines [] content))
                          (pendingAdditions m) (configFilePath m))
       end.

Definition InitPeerDiscovery (dataDir : string) (fs : FileSystem) : PeerDiscoveryManager :=
  snd (LoadPeersFromConfig
         (SetConfigPath (dataDir +:+ "/validator_peers.conf") PeerDiscoveryManager_new) fs).

Definition ShutdownPeerDiscovery (m : option PeerDiscoveryManager) (fs : FileSystem) : FileSystem :=
  match m with
  | Some m => snd (SavePeersToConfig m fs)
  | None => fs
  end.
End PeerDiscovery.

(** ** Correctness *)

Section Facts.
Context {A : NetAddress} {L : NetAddressLaws A}.

(** Only valid addresses are known, and only known ones are pending. *)
Record peers_ok (m : PeerDiscoveryManager) : Prop := {
  known_valid a : a ∈ knownValidatorPeers m -> IsValid a = true;
  pending_known : pendingAdditions m ⊆ knownValidatorPeers m
}.

Lemma ProcessValidatorAddress_ok a m : peers_ok m -> peers_ok (ProcessValidatorAddress a m).2.
Proof.
  intros [Hv Hp]. unfold ProcessValidatorAddress. destruct (IsValid a) eqn:E; cbn; [|done].
  case_bool_decide; [done|]. split; cbn; [set_solver|set_solver].
Qed.

Lemma MarkPeerAdded_ok a m : peers_ok m -> peers_ok (MarkPeerAdded a m).
Proof. intros [Hv Hp]. split; cbn; [done|set_solver]. Qed.

Lemma getlines_app l rest : forall acc,
  newline ∉ l -> getlines acc (l ++ newline :: rest) = (reverse acc ++ l) :: getlines [] rest.
Proof.
  induction l as [|c l IH]; intros acc Hl; cbn [app getlines].
  - rewrite bool_decide_eq_true_2 by done. by rewrite app_nil_r.
  - apply not_elem_of_cons in Hl as [Hc Hl]. rewrite bool_decide_eq_false_2 by done.
    rewrite IH by done. by rewrite reverse_cons, <- app_assoc.
Qed.

Lemma skip_plain p l : Forall (fun c => p c = false) l -> skip p l = l.
Proof. intros H. destruct H as [|c l Hc _]; cbn; [done|]. by rewrite Hc. Qed.

Lemma print_not_blank a :
  IsValid a = true ->
  Forall (fun c => blank_left c = false) (ToStringAddrPort a) /\
  Forall (fun c => blank_right c = false) (ToStringAddrPort a).
Proof.
  intros Ha. split; apply Forall_forall; intros c Hc; pose proof (print_plain a c Ha Hc);
    apply bool_decide_eq_false; tauto.
Qed.

Lemma trim_plain a : IsValid a = true -> trim (ToStringAddrPort a) = ToStringAddrPort a.
Proof.
  intros Ha. destruct (print_not_blank a Ha) as [Hl Hr]. unfold trim.
  rewrite (skip_plain blank_left), skip_plain by (done || by rewrite Forall_reverse).
  apply reverse_involutive.
Qed.

Lemma load_peer_line known a :
  IsValid a = true -> load_line known (text "addnode=" ++ ToStringAddrPort a) = {[ a ]} ∪ known.
Proof.
  intros Ha. unfold load_line. cbn [text String.list_ascii_of_string app].
  rewrite bool_decide_eq_false_2 by done.
  assert (find_after (text "addnode=") (text "addnode=" ++ ToStringAddrPort a) =
          Some (ToStringAddrPort a)) as E by reflexivity.
  cbn [text String.list_ascii_of_string app] in E. rewrite E, trim_plain by done.
  pose proof (print_nonempty a Ha). destruct (ToStringAddrPort a) eqn:Es; [done|].
  rewrite <- Es, parse_print, Ha by done. done.
Qed.

Lemma load_peer_lines l : forall known,
  Forall (fun a => IsValid a = true) l ->
  foldl load_line known (getlines [] (flat_map peer_line l)) = known ∪ list_to_set l.
Proof.
  induction l as [|a l IH]; intros known Hl; cbn [flat_map getlines].
  - rewrite bool_decide_eq_true_2 by done. cbn. by rewrite (right_id_L ∅ (∪)).
  - apply Forall_cons in Hl as [Ha Hl]. unfold peer_line at 1.
    rewrite <- !app_assoc. cbn [app]. rewrite app_assoc.
    rewrite getlines_app.
    + cbn [reverse rev_append app foldl]. rewrite load_peer_line, IH by done. cbn. set_solver.
    + intros Hn. apply elem_of_app in Hn as [Hn|Hn].
      * cbn in Hn. set_solver.
      * pose proof (print_plain a newline Ha Hn). tauto.
Qed.

Lemma elem_of_set_in_order (s : gset CService) a : a ∈ set_in_order s <-> a ∈ s.
Proof. unfold set_in_order. rewrite merge_sort_Permutation. apply elem_of_elements. Qed.

Lemma header_lines known rest :
  foldl load_line known (getlines [] (peers_header ++ rest)) = foldl load_line known (getlines [] rest).
Proof. reflexivity. Qed.

(** Validator peers survive a restart.  For a manager that only knows valid
    addresses (which every operation preserves) and a writable data directory,
    shutting down and initialising again gives exactly the same known peers, with
    nothing pending: the text file written is parsed back losslessly, header,
    line splitting, blank trimming and address parsing included. *)
Theorem peers_survive_restart dataDir m fs :
  peers_ok m ->
  configFilePath m = (dataDir +:+ "/validator_peers.conf")%string ->
  configFilePath m ∉ unwritable fs ->
  let m' := InitPeerDiscovery dataDir (ShutdownPeerDiscovery (Some m) fs) in
  knownValidatorPeers m' = knownValidatorPeers m /\ pendingAdditions m' = ∅ /\
  configFilePath m' = configFilePath m.
Proof.
  intros [Hv _] Hp Hw m'.
  assert (configFilePath m <> ""%string) as Hne.
  { rewrite Hp. intros E. apply (f_equal String.length) in E. rewrite string_length_app in E. cbn in E. lia. }
  unfold m', InitPeerDiscovery, ShutdownPeerDiscovery, SavePeersToConfig.
  rewrite !bool_decide_eq_false_2 by done. cbn [snd].
  unfold LoadPeersFromConfig. cbn [configFilePath SetConfigPath]. rewrite <- Hp.
  rewrite bool_decide_eq_false_2 by done. cbn [files]. rewrite lookup_insert_eq. cbn [snd].
  cbn [knownValidatorPeers pendingAdditions configFilePath SetConfigPath PeerDiscoveryManager_new].
  split_and!; [|done..]. rewrite header_lines, load_peer_lines.
  - apply set_eq. intros a. rewrite elem_of_union, elem_of_list_to_set, elem_of_set_in_order. set_solver.
  - apply Forall_forall. intros a Ha. apply Hv. by apply elem_of_set_in_order in Ha.
Qed.
End Facts.

(** ** A concrete address type

    The address [n] prints as [n] strokes; zero is the invalid default. *)
Definition strokes : NetAddress := {|
  CService := nat; CService_eq := _; CService_countable := _;
  CService_default := 0%nat;
  IsValid := fun n => negb (Nat.eqb n 0);
  CService_le := le; CService_le_dec := _;
  ToStringAddrPort := fun n => replicate n "|"%char;
  LookupNumeric := fun s _ => length s
|}.

#[export] Instance strokes_laws : NetAddressLaws strokes.
Proof.
  split; try apply _.
  - done.
  - by intros [|n].
  - intros a c _ Hc. apply elem_of_replicate in Hc as [-> _]. by split_and!.
  - intros a port _. apply length_replicate.
Qed.

Lemma peers_survive_restart_witness :
  let m := @mkPeers strokes {[ 3; 5 ]}%nat {[ 5 ]}%nat "/d/validator_peers.conf" in
  let fs := mkFS ∅ ∅ in
  @knownValidatorPeers strokes (InitPeerDiscovery "/d" (ShutdownPeerDiscovery (Some m) fs)) = {[ 3; 5 ]}%nat.
Proof.
  intros m fs. apply (@peers_survive_restart strokes strokes_laws "/d" m fs).
  - split; cbn; [|set_solver]. intros a Ha.
    apply elem_of_union in Ha as [Ha|Ha]; apply elem_of_singleton in Ha; subst a; reflexivity.
  - reflexivity.
  - set_solver.
Defined.
