(* ===== verification/Trust.v ===== *)
(** * Trust scores of validators (trust/trustscore.h, trustscore.cpp)

    [ValidatorInfo] with its tier computation and the [TrustScoreManager]
    operations as functions on the manager's state.  The manager notifies the peer
    discovery manager of PeerDiscovery.v, which is therefore part of the state. *)

From stdpp Require Import gmap strings list sorting.
From Stdlib Require Import ZArith Lia Ascii.
From S2P Require Import Prelude Params Serialize PeerDiscovery.

Open Scope Z_scope.

(** ** Tiers *)

Inductive TrustTier := NONE | BRONZE | SILVER | GOLD | PLATINUM.

#[export] Instance TrustTier_eq : EqDecision TrustTier.
Proof. solve_decision. Defined.

Definition TrustTier_code (t : TrustTier) : Z :=
  match t with NONE => 0 | BRONZE => 1 | SILVER => 2 | GOLD => 3 | PLATINUM => 4 end.

Definition TrustTierToString (t : TrustTier) : string :=
  match t with
  | NONE => "NONE"
  | BRONZE => "BRONZE"
  | SILVER => "SILVER"
  | GOLD => "GOLD"
  | PLATINUM => "PLATINUM"
  end.

Section Trust.
Context {A : NetAddress}.

(** ** Validators *)

Record ValidatorInfo := mkInfo {
  validatorId : N;
  stakeAmount : Z;
  poolFeeRate : Z;
  registrationHeight : Z;
  lastHeartbeatHeight : Z;
  heartbeatsExpected : Z;
  heartbeatsReceived : Z;
  isActive : bool;
  lastKnownAddress : CService;
  lastCheckInTime : Z;
  consecutiveCheckIns : Z;
  missedCheckIns : Z
}.

Definition ValidatorInfo_new : ValidatorInfo :=
  mkInfo 0 0 0 0 0 0 0 false CService_default 0 0 0.

Definition GetUptimePercentage (v : ValidatorInfo) : Z :=
  if heartbeatsExpected v =? 0 then 1000
  else Z.quot (i32 (heartbeatsReceived v * 1000)) (heartbeatsExpected v).

Definition GetTrustTier (p : Params) (v : ValidatorInfo) : TrustTier :=
  if negb (isActive v) || (stakeAmount v <? nMinValidatorStake p) then NONE
  else
    let uptime := GetUptimePercentage v in
    if nPlatinumUptimeThreshold p <=? uptime then PLATINUM
    else if nGoldUptimeThreshold p <=? uptime then GOLD
    else if nSilverUptimeThreshold p <=? uptime then SILVER
    else if nBronzeUptimeThreshold p <=? uptime then BRONZE
    else NONE.

Definition GetRewardMultiplier (p : Params) (v : ValidatorInfo) : Z :=
  match GetTrustTier p v with
  | PLATINUM => nPlatinumRewardMultiplier p
  | GOLD => nGoldRewardMultiplier p
  | SILVER => nSilverRewardMultiplier p
  | BRONZE => nBronzeRewardMultiplier p
  | NONE => 0
  end.

Definition MeetsMinimumStake (p : Params) (v : ValidatorInfo) : bool :=
  nMinValidatorStake p <=? stakeAmount v.

Definition IsEligibleForStaking (p : Params) (v : ValidatorInfo) : bool :=
  if negb (isActive v) then false
  else if negb (MeetsMinimumStake p v) then false
  else if bool_decide (GetTrustTier p v = NONE) then false
  else true.

(** ** Heartbeats *)

Record Heartbeat := mkHeartbeat {
  hb_validatorId : N;
  blockHeight : Z;
  blockHash : N;
  timestamp : Z;
  nodeAddress : CService;
  nodePort : Z;
  signature : list Z
}.

Definition text_bytes (l : list ascii) : list Z := map (fun c => Z.of_N (N_of_ascii c)) l.

(** The bytes hashed for signing; the hash function itself (hash.h) is an argument
    wherever it is used. *)
Definition Heartbeat_preimage (hb : Heartbeat) : list Z :=
  id_bytes 20 (hb_validatorId hb) ++
  ser_writedata32 (blockHeight hb) ++
  id_bytes 32 (blockHash hb) ++
  ser_writedata64 (timestamp hb) ++
  enc bytes_codec (text_bytes (ToStringAddrPort (nodeAddress hb))) ++
  ser_writedata16 (nodePort hb).

(** ** The manager *)

Record TrustScoreManager := mkManager {
  validators : gmap N ValidatorInfo;
  currentHeight : Z
}.

Definition set_validators (vs : gmap N ValidatorInfo) (m : TrustScoreManager) : TrustScoreManager :=
  mkManager vs (currentHeight m).

Definition TrustScoreManager_new : TrustScoreManager := mkManager ∅ 0.

Section Manager.
Context (consensusParams : Params).

Definition RegisterValidator (id : N) (stake fee height : Z) (m : TrustScoreManager)
    : bool * TrustScoreManager :=
  if stake <? nMinValidatorStake consensusParams then (false, m)
  else if bool_decide (is_Some (validators m !! id)) then (false, m)
  else if (fee <? 0) || (10000 <? fee) then (false, m)
  else
    let info := mkInfo id stake fee height height 0 0 true CService_default 0 0 0 in
    (true, set_validators (<[id := info]> (validators m)) m).

(** [it->second.f = ...] *)
Definition set_stake (s : Z) (active : bool) (v : ValidatorInfo) : ValidatorInfo :=
  mkInfo (validatorId v) s (poolFeeRate v) (registrationHeight v) (lastHeartbeatHeight v)
    (heartbeatsExpected v) (heartbeatsReceived v) active (lastKnownAddress v)
    (lastCheckInTime v) (consecutiveCheckIns v) (missedCheckIns v).
Definition set_fee (f : Z) (v : ValidatorInfo) : ValidatorInfo :=
  mkInfo (validatorId v) (stakeAmount v) f (registrationHeight v) (lastHeartbeatHeight v)
    (heartbeatsExpected v) (heartbeatsReceived v) (isActive v) (lastKnownAddress v)
    (lastCheckInTime v) (consecutiveCheckIns v) (missedCheckIns v).
Definition set_heartbeat (received height : Z) (v : ValidatorInfo) : ValidatorInfo :=
  mkInfo (validatorId v) (stakeAmount v) (poolFeeRate v) (registrationHeight v) height
    (heartbeatsExpected v) received (isActive v) (lastKnownAddress v)
    (lastCheckInTime v) (consecutiveCheckIns v) (missedCheckIns v).
Definition set_expected (e : Z) (v : ValidatorInfo) : ValidatorInfo :=
  mkInfo (validatorId v) (stakeAmount v) (poolFeeRate v) (registrationHeight v)
    (lastHeartbeatHeight v) e (heartbeatsReceived v) (isActive v) (lastKnownAddress v)
    (lastCheckInTime v) (consecutiveCheckIns v) (missedCheckIns v).
Definition set_active (b : bool) (v : ValidatorInfo) : ValidatorInfo :=
  mkInfo (validatorId v) (stakeAmount v) (poolFeeRate v) (registrationHeight v)
    (lastHeartbeatHeight v) (heartbeatsExpected v) (heartbeatsReceived v) b (lastKnownAddress v)
    (lastCheckInTime v) (consecutiveCheckIns v) (missedCheckIns v).
Definition set_checkin (a : CService) (t consecutive missed : Z) (v : ValidatorInfo) : ValidatorInfo :=
  mkInfo (validatorId v) (stakeAmount v) (poolFeeRate v) (registrationHeight v)
    (lastHeartbeatHeight v) (heartbeatsExpected v) (heartbeatsReceived v) (isActive v) a
    t consecutive missed.

Definition UpdateStake (id : N) (newStakeAmount : Z) (m : TrustScoreManager)
    : bool * TrustScoreManager :=
  match validators m !! id with
  | None => (false, m)
  | Some v =>
      let active := if newStakeAmount <? nMinValidatorStake consensusParams
                    then false else isActive v in
      (true, set_validators (<[id := set_stake newStakeAmount active v]> (validators m)) m)
  end.

Definition UpdatePoolFee (id : N) (newFeeRate : Z) (m : TrustScoreManager)
    : bool * TrustScoreManager :=
  match validators m !! id with
  | None => (false, m)
  | Some v =>
      if (newFeeRate <? 0) || (10000 <? newFeeRate) then (false, m)
      else (true, set_validators (<[id := set_fee newFeeRate v]> (validators m)) m)
  end.

Definition ProcessHeartbeat (hb : Heartbeat) (height : Z) (m : TrustScoreManager)
    : bool * TrustScoreManager :=
  match validators m !! hb_validatorId hb with
  | None => (false, m)
  | Some v =>
      if negb (isActive v) then (false, m)
      else
        let expectedInterval := nHeartbeatInterval consensusParams in
        let lastHeartbeat := lastHeartbeatHeight v in
        if height <? i32 (lastHeartbeat + expectedInterval) then (false, m)
        else
          let v := set_heartbeat (i32 (heartbeatsReceived v + 1)) height v in
          (true, set_validators (<[hb_validatorId hb := v]> (validators m)) m)
  end.

(** The loop body of [UpdateHeartbeatExpectations]; entries are independent. *)
Definition update_expectation (height : Z) (v : ValidatorInfo) : ValidatorInfo :=
  if negb (isActive v) then v
  else
    let blocksSinceRegistration := i32 (height - registrationHeight v) in
    let v := if 0 <? blocksSinceRegistration
             then set_expected (Z.quot blocksSinceRegistration (nHeartbeatInterval consensusParams)) v
             else v in
    let windowBlocks := Z.min blocksSinceRegistration (nUptimeWindow consensusParams) in
    if 0 <? windowBlocks
    then set_expected (Z.quot windowBlocks (nHeartbeatInterval consensusParams)) v
    else v.

Definition UpdateHeartbeatExpectations (height : Z) (m : TrustScoreManager) : TrustScoreManager :=
  mkManager (update_expectation height <$> validators m) height.

Definition SetHeight (height : Z) (m : TrustScoreManager) : TrustScoreManager :=
  mkManager (validators m) height.

Definition GetValidator (id : N) (m : TrustScoreManager) : option ValidatorInfo := validators m !! id.

Definition GetValidatorTier (id : N) (m : TrustScoreManager) : TrustTier :=
  match GetValidator id m with
  | None => NONE
  | Some v => GetTrustTier consensusParams v
  end.

Definition GetValidatorRewardMultiplier (id : N) (m : TrustScoreManager) : Z :=
  match GetValidator id m with
  | None => 0
  | Some v => GetRewardMultiplier consensusParams v
  end.

Definition IsValidatorEligible (id : N) (m : TrustScoreManager) : bool :=
  match GetValidator id m with
  | None => false
  | Some v => IsEligibleForStaking consensusParams v
  end.

Definition GetActiveValidators (m : TrustScoreManager) : list ValidatorInfo :=
  filter (fun v => isActive v = true) (in_order (validators m)).*2.

Definition GetValidatorsByTier (tier : TrustTier) (m : TrustScoreManager) : list ValidatorInfo :=
  filter (fun v => isActive v = true /\ GetTrustTier consensusParams v = tier)
    (in_order (validators m)).*2.

Definition DeactivateValidator (id : N) (m : TrustScoreManager) : bool * TrustScoreManager :=
  match validators m !! id with
  | None => (false, m)
  | Some v => (true, set_validators (<[id := set_active false v]> (validators m)) m)
  end.

(** The notified peer discovery manager, if the global one exists. *)
Definition UpdateValidatorAddress (id : N) (address : CService) (time : Z)
    (st : TrustScoreManager * option PeerDiscoveryManager)
    : bool * (TrustScoreManager * option PeerDiscoveryManager) :=
  let '(m, peers) := st in
  match validators m !! id with
  | None => (false, st)
  | Some v =>
      if negb (IsValid address) then (false, st)
      else
        let v := set_checkin address time (i32 (consecutiveCheckIns v + 1)) (missedCheckIns v) v in
        let peers := match peers with
                     | Some g => Some (snd (ProcessValidatorAddress address g))
                     | None => None
                     end in
        (true, (set_validators (<[id := v]> (validators m)) m, peers))
  end.

Definition GetValidatorAddresses (m : TrustScoreManager) : list CService :=
  map lastKnownAddress
    (filter (fun v => isActive v = true /\ IsValid (lastKnownAddress v) = true)
       (in_order (validators m)).*2).

Definition GetTrustedValidatorAddresses (minTier : TrustTier) (m : TrustScoreManager) : list CService :=
  map lastKnownAddress
    (filter (fun v => isActive v = true /\ IsValid (lastKnownAddress v) = true /\
                      TrustTier_code minTier <= TrustTier_code (GetTrustTier consensusParams v))
       (in_order (validators m)).*2).

Definition IsValidatorAddress (address : CService) (m : TrustScoreManager) : bool :=
  existsb (fun v => isActive v && bool_decide (lastKnownAddress v = address))
    (in_order (validators m)).*2.

Definition GetValidatorIdByAddress (address : CService) (m : TrustScoreManager) : N :=
  match List.find (fun v => bool_decide (lastKnownAddress v = address)) (in_order (validators m)).*2 with
  | Some v => validatorId v
  | None => 0%N
  end.

Definition record_missed (height : Z) (v : ValidatorInfo) : ValidatorInfo :=
  if negb (isActive v) then v
  else
    let expectedInterval := nHeartbeatInterval consensusParams in
    let blocksSinceLastCheckIn := i32 (height - lastHeartbeatHeight v) in
    if i32 (expectedInterval * 2) <? blocksSinceLastCheckIn
    then set_checkin (lastKnownAddress v) (lastCheckInTime v) 0 (i32 (missedCheckIns v + 1)) v
    else v.

Definition RecordMissedCheckIns (height : Z) (m : TrustScoreManager) : TrustScoreManager :=
  set_validators (record_missed height <$> validators m) m.

(** ** The manager as a state machine

    [height_ok] restricts the heights callers pass, so that statements can say which
    of them they need. *)
Context (height_ok : Z -> Prop).

Inductive step : TrustScoreManager -> TrustScoreManager -> Prop :=
  | step_register id stake fee height m :
      height_ok height -> step m (RegisterValidator id stake fee height m).2
  | step_stake id s m : step m (UpdateStake id s m).2
  | step_fee id f m : step m (UpdatePoolFee id f m).2
  | step_heartbeat hb height m : height_ok height -> step m (ProcessHeartbeat hb height m).2
  | step_expect height m : height_ok height -> step m (UpdateHeartbeatExpectations height m)
  | step_height height m : height_ok height -> step m (SetHeight height m)
  | step_deactivate id m : step m (DeactivateValidator id m).2
  | step_address id a t m peers : step m (UpdateValidatorAddress id a t (m, peers)).2.1
  | step_missed height m : height_ok height -> step m (RecordMissedCheckIns height m).

Definition steps : TrustScoreManager -> TrustScoreManager -> Prop := rtc step.
End Manager.

(** ** Updates of one entry

    Every step leaves an entry as it is, replaces it by one of the record updates
    of the operations, or adds a fresh one; invariants on single entries are
    proved once against this view. *)

Inductive entry_update (p : Params) (height_ok : Z -> Prop) : ValidatorInfo -> ValidatorInfo -> Prop :=
  | upd_same v : entry_update p height_ok v v
  | upd_stake s v :
      entry_update p height_ok v
        (set_stake s (if s <? nMinValidatorStake p then false else isActive v) v)
  | upd_fee f v : 0 <= f <= 10000 -> entry_update p height_ok v (set_fee f v)
  | upd_heartbeat h v :
      height_ok h -> isActive v = true ->
      i32 (lastHeartbeatHeight v + nHeartbeatInterval p) <= h ->
      entry_update p height_ok v (set_heartbeat (i32 (heartbeatsReceived v + 1)) h v)
  | upd_expected e v : isActive v = true -> entry_update p height_ok v (set_expected e v)
  | upd_active v : entry_update p height_ok v (set_active false v)
  | upd_checkin a t c k v : entry_update p height_ok v (set_checkin a t c k v).

Lemma update_expectation_entry p hok h v : entry_update p hok v (update_expectation p h v).
Proof.
  unfold update_expectation. destruct (isActive v) eqn:E; cbn [negb]; [|constructor].
  set (b := i32 _). clearbody b.
  assert (forall e e', set_expected e (set_expected e' v) = set_expected e v) as Es by reflexivity.
  destruct (0 <? b), (0 <? Z.min b (nUptimeWindow p)); rewrite ?Es; by constructor.
Qed.

Lemma record_missed_entry p hok h v : entry_update p hok v (record_missed p h v).
Proof. unfold record_missed. repeat case_match; constructor. Qed.

(** An entry as [RegisterValidator] creates it. *)
Definition fresh_entry (p : Params) (height_ok : Z -> Prop) (id : N) (v : ValidatorInfo) : Prop :=
  exists stake fee height, height_ok height /\ nMinValidatorStake p <= stake /\ 0 <= fee <= 10000 /\
    v = mkInfo id stake fee height height 0 0 true CService_default 0 0 0.

Definition entries_evolve (p : Params) (height_ok : Z -> Prop) (vs vs' : gmap N ValidatorInfo) : Prop :=
  (forall id v, vs !! id = Some v -> exists v', vs' !! id = Some v' /\ entry_update p height_ok v v') /\
  (forall id v', vs' !! id = Some v' -> vs !! id = None -> fresh_entry p height_ok id v').

Lemma evolve_refl p hok vs : entries_evolve p hok vs vs.
Proof. split; [eauto using entry_update|]. intros. congruence. Qed.

Lemma evolve_insert p hok vs k v v' :
  vs !! k = Some v -> entry_update p hok v v' -> entries_evolve p hok vs (<[k := v']> vs).
Proof.
  intros Hk Hu. split.
  - intros id w Hw. destruct (decide (k = id)) as [->|Hne].
    + rewrite lookup_insert_eq. simplify_eq. eauto.
    + rewrite lookup_insert_ne by done. eauto using entry_update.
  - intros id w Hw Hn. destruct (decide (k = id)) as [->|Hne]; [congruence|].
    rewrite lookup_insert_ne in Hw by done. congruence.
Qed.

Lemma evolve_fresh p hok vs k v :
  vs !! k = None -> fresh_entry p hok k v -> entries_evolve p hok vs (<[k := v]> vs).
Proof.
  intros Hk Hf. split; intros id w Hw.
  - rewrite lookup_insert_ne by congruence. eauto using entry_update.
  - intros Hn. destruct (decide (k = id)) as [->|Hne].
    + rewrite lookup_insert_eq in Hw. by simplify_eq.
    + rewrite lookup_insert_ne in Hw by done. congruence.
Qed.

Lemma evolve_fmap p hok vs (f : ValidatorInfo -> ValidatorInfo) :
  (forall v, entry_update p hok v (f v)) -> entries_evolve p hok vs (f <$> vs).
Proof.
  intros Hf. split; intros id w; rewrite lookup_fmap.
  - intros ->. cbn. eauto.
  - intros H Hn. by rewrite Hn in H.
Qed.

Lemma step_evolves p hok m m' : step p hok m m' -> entries_evolve p hok (validators m) (validators m').
Proof.
  intros Hstep. inversion Hstep; subst; clear Hstep.
  - unfold RegisterValidator. case_if; [apply evolve_refl|]. case_bool_decide as Hk; [apply evolve_refl|].
    case_if; [apply evolve_refl|]. apply evolve_fresh; [by apply eq_None_not_Some|].
    exists stake, fee, height. split_and!; (done || lia).
  - unfold UpdateStake. case_match eqn:E; [|apply evolve_refl].
    eapply evolve_insert; [done|]. apply upd_stake.
  - unfold UpdatePoolFee. case_match eqn:E; [|apply evolve_refl]. case_if; [apply evolve_refl|].
    eapply evolve_insert; [done|]. apply upd_fee. lia.
  - unfold ProcessHeartbeat. case_match eqn:E; [|apply evolve_refl].
    destruct (isActive v) eqn:Ea; cbn [negb]; [|apply evolve_refl]. case_if; [apply evolve_refl|].
    eapply evolve_insert; [done|]. by apply upd_heartbeat.
  - apply evolve_fmap. intros. apply update_expectation_entry.
  - apply evolve_refl.
  - unfold DeactivateValidator. case_match eqn:E; [|apply evolve_refl].
    eapply evolve_insert; [done|]. apply upd_active.
  - unfold UpdateValidatorAddress. case_match eqn:E; [|apply evolve_refl].
    case_match; [apply evolve_refl|]. eapply evolve_insert; [done|]. apply upd_checkin.
  - apply evolve_fmap. intros. apply record_missed_entry.
Qed.

(** Invariants of single entries: hold of fresh entries, kept by updates. *)
Lemma steps_entry_invariant p hok (I : N -> ValidatorInfo -> Prop) m m' :
  steps p hok m m' ->
  (forall id v, fresh_entry p hok id v -> I id v) ->
  (forall id v v', entry_update p hok v v' -> I id v -> I id v') ->
  (forall id v, validators m !! id = Some v -> I id v) ->
  forall id v, validators m' !! id = Some v -> I id v.
Proof.
  intros Hs Hf Hu. induction Hs as [m|m1 m2 m3 H12 H23 IH]; [done|]. intros H1. apply IH.
  intros id v2 Hv2. destruct (step_evolves _ _ _ _ H12) as [He Hn].
  destruct (validators m1 !! id) as [v1|] eqn:E; [|by eauto].
  destruct (He _ _ E) as (v2' & Hv2' & Hup). simplify_eq. eauto.
Qed.

(** ** Properties *)

(** Well-formed entries. *)
Record entry_ok (p : Params) (id : N) (v : ValidatorInfo) : Prop := {
  ok_id : validatorId v = id;
  ok_fee : 0 <= poolFeeRate v <= 10000;
  ok_stake : isActive v = true -> nMinValidatorStake p <= stakeAmount v
}.

(** In every state the manager can reach from the empty one, an entry is stored
    under its own id, its fee rate is between 0 and 10000 basis points, and an
    active validator holds at least the minimum stake, whatever the sequence of
    registrations, updates, heartbeats and blocks. *)
Theorem reachable_entries_ok p m :
  steps p (fun _ => True) TrustScoreManager_new m ->
  forall id v, validators m !! id = Some v -> entry_ok p id v.
Proof.
  intros Hs. apply (steps_entry_invariant p _ (entry_ok p) _ _ Hs).
  - intros id v (stake & fee & h & _ & Hst & Hfee & ->). by split.
  - intros id v v' Hu [Hid Hf Ha]. destruct Hu; split; cbn; try done; try by intros [=].
    case_if; [done|]. intros _. done.
  - intros id v Hv. cbn in Hv. by rewrite lookup_empty in Hv.
Qed.

(** Deactivation is permanent.  Once a validator is inactive (its stake was
    reported below the minimum, or it was deactivated) no sequence of operations
    makes it active, eligible or rewarded again: raising the stake does not
    reactivate it and a new registration is refused. *)
Theorem deactivation_is_permanent p m m' id v :
  steps p (fun _ => True) m m' -> validators m !! id = Some v -> isActive v = false ->
  exists v', validators m' !! id = Some v' /\ isActive v' = false /\
    IsValidatorEligible p id m' = false /\ GetValidatorRewardMultiplier p id m' = 0.
Proof.
  intros Hs Hv Ha.
  assert (exists v', validators m' !! id = Some v' /\ isActive v' = false) as (v' & Hv' & Ha').
  { revert v Hv Ha. induction Hs as [m|m1 m2 m3 H12 H23 IH]; intros v Hv Ha; [eauto|].
    destruct (proj1 (step_evolves _ _ _ _ H12) _ _ Hv) as (v2 & Hv2 & Hu).
    apply (IH v2 Hv2). destruct Hu; cbn; try congruence. by destruct (s <? _). }
  exists v'. split; [done|]. split; [done|].
  unfold IsValidatorEligible, GetValidatorRewardMultiplier, GetValidator. rewrite Hv'.
  unfold IsEligibleForStaking, GetRewardMultiplier, GetTrustTier. by rewrite Ha'.
Qed.

(** Heights whose heartbeat arithmetic cannot overflow. *)
Definition plain_height (p : Params) (h : Z) : Prop := 0 <= h <= 2147483647 - nHeartbeatInterval p.

Record beats_ok (p : Params) (v : ValidatorInfo) : Prop := {
  beats_reg : plain_height p (registrationHeight v);
  beats_last : plain_height p (lastHeartbeatHeight v);
  beats_count : 0 <= heartbeatsReceived v;
  beats_rate : heartbeatsReceived v * nHeartbeatInterval p <= lastHeartbeatHeight v - registrationHeight v
}.

Lemma beats_update p v v' :
  0 < nHeartbeatInterval p -> entry_update p (plain_height p) v v' -> beats_ok p v -> beats_ok p v'.
Proof.
  intros Hi Hu [Hr Hl H0 Hc]. destruct Hu; try (by split); unfold plain_height in *.
  assert (heartbeatsReceived v <= lastHeartbeatHeight v) by nia.
  no_wrap_in H2. split; cbn; unfold plain_height; no_wrap; nia.
Qed.

Lemma uptime_capped v :
  0 <= heartbeatsReceived v <= 2147483 -> heartbeatsReceived v <= heartbeatsExpected v ->
  0 <= GetUptimePercentage v <= 1000.
Proof.
  intros H0 He. unfold GetUptimePercentage. case_if; [lia|]. no_wrap.
  rewrite Z.quot_div_nonneg by lia. split; [apply Z.div_pos; lia|].
  apply Z.div_le_upper_bound; lia.
Qed.

(** The expectation within the first uptime window. *)
Lemma expected_in_window p v h :
  0 < nHeartbeatInterval p -> isActive v = true -> in_i32 (h - registrationHeight v) ->
  0 < h - registrationHeight v <= nUptimeWindow p ->
  update_expectation p h v = set_expected ((h - registrationHeight v) / nHeartbeatInterval p) v.
Proof.
  intros Hi Ha Hr Hw. unfold update_expectation. rewrite Ha. cbn [negb]. rewrite i32_id by done.
  rewrite Z.min_l by lia. destruct (Z.ltb_spec 0 (h - registrationHeight v)); [|lia].
  by rewrite Z.quot_div_nonneg by lia.
Qed.

Lemma beats_uptime p v h :
  0 < nHeartbeatInterval p -> beats_ok p v -> isActive v = true ->
  lastHeartbeatHeight v <= h -> plain_height p h ->
  0 < h - registrationHeight v <= nUptimeWindow p -> heartbeatsReceived v <= 2147483 ->
  0 <= GetUptimePercentage (update_expectation p h v) <= 1000.
Proof.
  intros Hi [Hr Hl H0 Hc] Ha Hh Hp Hw Hb. unfold plain_height in *.
  rewrite expected_in_window by (done || unfold in_i32; lia).
  apply uptime_capped; cbn; [lia|]. apply Z.div_le_lower_bound; nia.
Qed.

(** Heartbeats are rate limited.  As long as callers pass heights whose
    arithmetic fits an [int], every reachable entry has received at most one
    heartbeat per interval since its registration, so during the first uptime
    window the uptime computed after any block is between 0 and 100.0 percent. *)
Theorem heartbeats_rate_limited p m id v :
  0 < nHeartbeatInterval p ->
  steps p (plain_height p) TrustScoreManager_new m -> validators m !! id = Some v ->
  heartbeatsReceived v * nHeartbeatInterval p <= lastHeartbeatHeight v - registrationHeight v /\
  (forall h, isActive v = true -> lastHeartbeatHeight v <= h -> plain_height p h ->
     0 < h - registrationHeight v <= nUptimeWindow p -> heartbeatsReceived v <= 2147483 ->
     0 <= GetUptimePercentage (update_expectation p h v) <= 1000).
Proof.
  intros Hi Hs Hv.
  assert (beats_ok p v) as Hb.
  { revert id v Hv. apply (steps_entry_invariant p _ (fun _ => beats_ok p) _ _ Hs).
    - intros id v (stake & fee & h & Hh & _ & _ & ->). split; cbn; try done; lia.
    - intros id v v'. by apply beats_update.
    - intros id v Hv. cbn in Hv. by rewrite lookup_empty in Hv. }
  split; [apply Hb|]. intros. by apply beats_uptime.
Qed.

Lemma uptime_at_least v k :
  0 <= heartbeatsReceived v <= 2147483 -> 0 < heartbeatsExpected v ->
  (k <=? GetUptimePercentage v) = (k * heartbeatsExpected v <=? heartbeatsReceived v * 1000).
Proof.
  intros Hr He. unfold GetUptimePercentage. case_if; [lia|]. no_wrap.
  rewrite Z.quot_div_nonneg by lia.
  pose proof (Z.div_mod (heartbeatsReceived v * 1000) (heartbeatsExpected v) ltac:(lia)).
  pose proof (Z.mod_pos_bound (heartbeatsReceived v * 1000) (heartbeatsExpected v) ltac:(lia)).
  set (q := _ / _) in *. destruct (Z.leb_spec k q), (Z.leb_spec (k * heartbeatsExpected v) (heartbeatsReceived v * 1000)); nia.
Qed.

(** On the main network the reward multiplier is exactly what the tier table
    promises: for an active validator with the minimum stake and a positive number
    of expected heartbeats it is 200, 150, 125 or 100 percent when at least 99.9,
    99, 97 or 95 percent of them were received, compared without rounding, and 0
    below that; and it is 0 if and only if the validator is not eligible. *)
Theorem main_reward_multiplier v :
  isActive v = true -> 100000 * COIN <= stakeAmount v ->
  0 <= heartbeatsReceived v <= 2147483 -> 0 < heartbeatsExpected v ->
  GetRewardMultiplier main_params v =
    (let received := heartbeatsReceived v * 1000 in
     let expected := heartbeatsExpected v in
     if 999 * expected <=? received then 200
     else if 990 * expected <=? received then 150
     else if 970 * expected <=? received then 125
     else if 950 * expected <=? received then 100
     else 0) /\
  (IsEligibleForStaking main_params v = negb (GetRewardMultiplier main_params v =? 0)).
Proof.
  intros Ha Hs Hr He. unfold IsEligibleForStaking, MeetsMinimumStake, GetRewardMultiplier, GetTrustTier.
  rewrite Ha. cbn [negb orb main_params nMinValidatorStake nPlatinumUptimeThreshold nGoldUptimeThreshold
    nSilverUptimeThreshold nBronzeUptimeThreshold nPlatinumRewardMultiplier nGoldRewardMultiplier
    nSilverRewardMultiplier nBronzeRewardMultiplier].
  destruct (Z.ltb_spec (stakeAmount v) (100000 * COIN)); [lia|].
  destruct (Z.leb_spec (100000 * COIN) (stakeAmount v)); [|lia].
  rewrite !uptime_at_least by done. cbn [negb]. repeat case_match; split; done.
Qed.

(** A validator that went silent keeps the top tier.  Expected heartbeats are
    capped by the uptime window while received ones are counted since
    registration, so on the main network a validator that has ever collected 4320
    heartbeats is PLATINUM after every block past the window, however many
    blocks ago its last heartbeat was. *)
Theorem silent_validator_stays_platinum v h :
  isActive v = true -> 100000 * COIN <= stakeAmount v ->
  4320 <= heartbeatsReceived v <= 2147483 -> 0 <= registrationHeight v ->
  registrationHeight v + 2592000 <= h <= 2147483647 ->
  GetTrustTier main_params (update_expectation main_params h v) = PLATINUM.
Proof.
  intros Ha Hs Hr Hreg Hh. unfold update_expectation. rewrite Ha. cbn [negb].
  rewrite i32_id by (unfold in_i32; lia).
  destruct (Z.ltb_spec 0 (h - registrationHeight v)); [|lia].
  cbn [main_params nUptimeWindow nHeartbeatInterval].
  rewrite Z.min_r by lia. change (0 <? 2592000) with true. cbv iota.
  change (Z.quot 2592000 600) with 4320.
  unfold GetTrustTier. cbn [isActive set_expected stakeAmount negb orb]. rewrite Ha.
  cbn [negb orb main_params nMinValidatorStake nPlatinumUptimeThreshold].
  destruct (Z.ltb_spec (stakeAmount v) (100000 * COIN)); [lia|].
  rewrite uptime_at_least by (cbn; lia). cbn [heartbeatsExpected heartbeatsReceived set_expected].
  destruct (Z.leb_spec (999 * 4320) (heartbeatsReceived v * 1000)); [done|lia].
Qed.
End Trust.

(** ** Witnesses *)

Definition wit_hb (h : Z) : @Heartbeat strokes := @mkHeartbeat strokes 7 h 0 0 2%nat 18888 [].
Definition wit_m1 : @TrustScoreManager strokes :=
  (RegisterValidator main_params 7 (200000 * COIN) 500 1000 TrustScoreManager_new).2.
Definition wit_m2 : @TrustScoreManager strokes := (ProcessHeartbeat main_params (wit_hb 1600) 1600 wit_m1).2.
Definition wit_v2 : @ValidatorInfo strokes :=
  @mkInfo strokes 7 (200000 * COIN) 500 1000 1600 0 1 true 0%nat 0 0 0.

Lemma wit_steps (hok : Z -> Prop) :
  hok 1000 -> hok 1600 -> steps main_params hok TrustScoreManager_new wit_m2.
Proof.
  intros H1 H2. eapply rtc_l; [apply (step_register _ _ 7 (200000 * COIN) 500 1000); done|].
  eapply rtc_l; [apply (step_heartbeat _ _ (wit_hb 1600) 1600); done|]. apply rtc_refl.
Qed.

Lemma reachable_entries_ok_witness : entry_ok main_params 7 wit_v2.
Proof.
  apply (reachable_entries_ok main_params wit_m2); [|vm_compute; reflexivity].
  apply wit_steps; exact I.
Defined.

Lemma deactivation_is_permanent_witness :
  let m := (DeactivateValidator 7 wit_m2).2 in
  exists v', validators (UpdateStake main_params 7 (500000 * COIN) m).2 !! 7%N = Some v' /\
    isActive v' = false.
Proof.
  intros m.
  destruct (deactivation_is_permanent main_params m (UpdateStake main_params 7 (500000 * COIN) m).2 7
              (set_active false wit_v2)) as (v' & Hv & Ha & _).
  - apply rtc_once, step_stake.
  - vm_compute. reflexivity.
  - reflexivity.
  - exists v'. exact (conj Hv Ha).
Defined.

Lemma heartbeats_rate_limited_witness : 1 * 600 <= 1600 - 1000.
Proof.
  apply (heartbeats_rate_limited main_params wit_m2 7 wit_v2).
  - reflexivity.
  - apply wit_steps; unfold plain_height; cbn; lia.
  - vm_compute. reflexivity.
Defined.

Lemma main_reward_multiplier_witness :
  GetRewardMultiplier main_params (set_expected 1 wit_v2) = 200.
Proof. apply (main_reward_multiplier (set_expected 1 wit_v2)); try reflexivity; cbn; unfold COIN; lia. Defined.

Lemma silent_validator_stays_platinum_witness :
  GetTrustTier main_params
    (update_expectation main_params 2000000000 (set_heartbeat 4320 2593000 wit_v2)) = PLATINUM.
Proof.
  apply silent_validator_stays_platinum; try reflexivity; cbn; unfold COIN; lia.
Defined.
