(* ===== verification/Heartbeat.v ===== *)
(** * Heartbeat networking (trust/heartbeat_net.h, heartbeat_net.cpp)

    The [HeartbeatManager] on top of the trust score manager (Trust.v) and peer
    discovery (PeerDiscovery.v), with its locking written out, and the dispatch of
    the four validator messages of net_processing.cpp. *)

From stdpp Require Import gmap strings list sorting.
From Stdlib Require Import ZArith Lia Ascii.
From S2P Require Import Prelude Params Serialize Crypto PeerDiscovery Trust.

Open Scope Z_scope.

Section Heartbeat_.
Context {A : NetAddress} {C : Crypto} (consensusParams : Params).

(** ** Messages *)

Record ValidatorRegistration := mkReg {
  validatorPubKey : list Z;
  reg_stakeAmount : Z;
  reg_poolFeeRate : Z;
  reg_registrationHeight : Z;
  reg_signature : list Z
}.

Definition Registration_GetHash (r : ValidatorRegistration) : N :=
  Hash256 (pubkey_bytes (validatorPubKey r) ++ ser_writedata64 (reg_stakeAmount r) ++
           ser_writedata64 (reg_poolFeeRate r) ++ ser_writedata32 (reg_registrationHeight r)).

Definition Registration_Sign (k : CKey) (r : ValidatorRegistration) : option ValidatorRegistration :=
  sig ← SignHash k (Registration_GetHash r);
  Some (mkReg (validatorPubKey r) (reg_stakeAmount r) (reg_poolFeeRate r) (reg_registrationHeight r) sig).

Definition Registration_Verify (r : ValidatorRegistration) : bool :=
  VerifyHash (validatorPubKey r) (Registration_GetHash r) (reg_signature r).

Definition Heartbeat_GetHash (hb : Heartbeat) : N := Hash256 (Heartbeat_preimage hb).

Definition Heartbeat_Sign (k : CKey) (hb : Heartbeat) : option Heartbeat :=
  sig ← SignHash k (Heartbeat_GetHash hb);
  Some (mkHeartbeat (hb_validatorId hb) (blockHeight hb) (blockHash hb) (timestamp hb)
          (nodeAddress hb) (nodePort hb) sig).

Definition Heartbeat_Verify (pubkey : list Z) (hb : Heartbeat) : bool :=
  VerifyHash pubkey (Heartbeat_GetHash hb) (signature hb).

(** ** State

    [world] joins the heartbeat manager with the objects it refers to: the trust
    manager, the global peer discovery manager if it exists, and the connection
    manager, whose only used operation is to add a node. *)

Record HeartbeatManager := mkHM {
  m_validator_key : option CKey;
  m_is_validator : bool;
  m_seen_heartbeats : gset N;
  m_last_heartbeat_height : Z
}.

Record world := mkWorld {
  hm : HeartbeatManager;
  trust : TrustScoreManager;
  peers : option PeerDiscoveryManager;
  connman : option (list (list ascii))
}.

Definition MAX_SEEN_HEARTBEATS : nat := 10000.

Definition HeartbeatManager_new : HeartbeatManager := mkHM None false ∅ 0.

Definition set_hm (h : HeartbeatManager) (w : world) : world := mkWorld h (trust w) (peers w) (connman w).
Definition set_trust (t : TrustScoreManager) (w : world) : world := mkWorld (hm w) t (peers w) (connman w).
Definition set_peers (p : option PeerDiscoveryManager) (w : world) : world :=
  mkWorld (hm w) (trust w) p (connman w).
Definition set_seen (s : gset N) (h : HeartbeatManager) : HeartbeatManager :=
  mkHM (m_validator_key h) (m_is_validator h) s (m_last_heartbeat_height h).

Definition HM := locked world.

Definition SetValidatorKey (k : CKey) : HM () :=
  LOCK cs_heartbeat (
    w ← get_state;
    put_state (set_hm (mkHM (Some k) true (m_seen_heartbeats (hm w)) (m_last_heartbeat_height (hm w))) w)).

Definition is_configured (h : HeartbeatManager) : bool :=
  m_is_validator h && match m_validator_key h with Some _ => true | None => false end.

Definition IsValidator : HM bool := LOCK cs_heartbeat (w ← get_state; mret (is_configured (hm w))).

Definition GetValidatorId : HM N :=
  LOCK cs_heartbeat (
    w ← get_state;
    mret match m_validator_key (hm w) with
         | None => 0%N
         | Some k => GetID (GetPubKey k)
         end).

Definition ShouldBroadcastHeartbeat (height : Z) : HM bool :=
  LOCK cs_heartbeat (
    w ← get_state;
    mret (if negb (is_configured (hm w)) then false
          else
            let interval := nHeartbeatInterval consensusParams in
            if i32 (height - m_last_heartbeat_height (hm w)) <? interval then false
            else Z.rem height interval =? 0)).

(** [now] is [GetTime()]. *)
Definition BroadcastHeartbeat (now : Z) (height : Z) (hash : N) : HM bool :=
  LOCK cs_heartbeat (
    w ← get_state;
    match (if m_is_validator (hm w) then m_validator_key (hm w) else None) with
    | None => mret false
    | Some k =>
        let hb := mkHeartbeat (GetID (GetPubKey k)) height hash now CService_default 18888 [] in
        match Heartbeat_Sign k hb with
        | None => mret false
        | Some hb =>
            put_state (set_hm (mkHM (m_validator_key (hm w)) (m_is_validator (hm w))
                                ({[ Heartbeat_GetHash hb ]} ∪ m_seen_heartbeats (hm w)) height) w);;
            mret true
        end
    end).

(** Erase the first half of the set, in increasing order of the hashes. *)
Definition ids_in_order (s : gset N) : list N := merge_sort N.le (elements s).

Definition CleanupSeenHeartbeats : HM () :=
  LOCK cs_heartbeat (
    w ← get_state;
    let seen := m_seen_heartbeats (hm w) in
    if (MAX_SEEN_HEARTBEATS / 2 <? size seen)%nat
    then put_state (set_hm (set_seen (list_to_set (drop (size seen / 2) (ids_in_order seen))) (hm w)) w)
    else mret ()).

(** The peer discovery manager's operations, under its own mutex. *)
Definition with_peers {B} (f : PeerDiscoveryManager -> B * PeerDiscoveryManager) (default : B) : HM B :=
  w ← get_state;
  match peers w with
  | None => mret default
  | Some _ =>
      LOCK cs_peers (
        w ← get_state;
        match peers w with
        | None => mret default
        | Some g => let '(b, g) := f g in put_state (set_peers (Some g) w);; mret b
        end)
  end.

Definition UpdateValidatorAddress_locked (id : N) (a : CService) (time : Z) : HM bool :=
  w ← get_state;
  match UpdateValidatorAddress id a time (trust w, None) with
  | (false, _) => mret false
  | (true, (t, _)) =>
      put_state (set_trust t w);;
      with_peers (ProcessValidatorAddress a) false;;
      mret true
  end.

Definition AddNode (node : list ascii) : HM () :=
  w ← get_state;
  put_state (mkWorld (hm w) (trust w) (peers w) ((fun l => l ++ [node]) <$> connman w)).

(** Trigger automatic peer discovery for a validator's address. *)
Definition auto_add_peer (a : CService) : HM () :=
  is_new ← with_peers (ProcessValidatorAddress a) false;
  if (is_new : bool) then
    w ← get_state;
    match connman w with
    | None => mret ()
    | Some _ =>
        AddNode (ToStringAddrPort a);;
        with_peers (fun g => (tt, MarkPeerAdded a g)) tt
    end
  else mret ().

Definition HM_ProcessHeartbeat (hb : Heartbeat) : HM bool :=
  LOCK cs_heartbeat (
    w ← get_state;
    let hbHash := Heartbeat_GetHash hb in
    if bool_decide (hbHash ∈ m_seen_heartbeats (hm w)) then mret false
    else
      put_state (set_hm (set_seen ({[ hbHash ]} ∪ m_seen_heartbeats (hm w)) (hm w)) w);;
      w ← get_state;
      (if (MAX_SEEN_HEARTBEATS <? size (m_seen_heartbeats (hm w)))%nat
       then CleanupSeenHeartbeats else mret ());;
      w ← get_state;
      let '(ok, t) := ProcessHeartbeat consensusParams hb (blockHeight hb) (trust w) in
      if negb ok then mret false
      else
        put_state (set_trust t w);;
        (if IsValid (nodeAddress hb) then
           UpdateValidatorAddress_locked (hb_validatorId hb) (nodeAddress hb) (timestamp hb);;
           auto_add_peer (nodeAddress hb)
         else mret ());;
        mret true).

Definition ProcessValidatorRegistration (reg : ValidatorRegistration) : HM bool :=
  if negb (Registration_Verify reg) then mret false
  else if reg_stakeAmount reg <? nMinValidatorStake consensusParams then mret false
  else
    w ← get_state;
    let '(ok, t) := RegisterValidator consensusParams (GetID (validatorPubKey reg))
                      (reg_stakeAmount reg) (reg_poolFeeRate reg) (reg_registrationHeight reg) (trust w) in
    put_state (set_trust t w);;
    mret ok.

Definition CreateRegistration (stake fee height : Z) : HM (option ValidatorRegistration) :=
  LOCK cs_heartbeat (
    w ← get_state;
    mret match (if m_is_validator (hm w) then m_validator_key (hm w) else None) with
         | None => None
         | Some k => Registration_Sign k (mkReg (GetPubKey k) stake fee height [])
         end).

Definition GetValidatorList : HM (list ValidatorInfo) :=
  w ← get_state; mret (GetActiveValidators (trust w)).

Definition learn_validator (t : TrustScoreManager) (info : ValidatorInfo) : TrustScoreManager :=
  if isActive info && MeetsMinimumStake consensusParams info then
    match GetValidator (validatorId info) t with
    | Some _ => t
    | None => snd (RegisterValidator consensusParams (validatorId info) (stakeAmount info)
                     (poolFeeRate info) (registrationHeight info) t)
    end
  else t.

Definition ProcessValidatorList (l : list ValidatorInfo) : HM () :=
  w ← get_state; put_state (set_trust (foldl learn_validator (trust w) l) w).

Definition OnNewBlock (height : Z) : HM () :=
  w ← get_state;
  put_state (set_trust (SetHeight height (UpdateHeartbeatExpectations consensusParams height (trust w))) w);;
  ShouldBroadcastHeartbeat height;;
  mret ().

Record Stats := mkStats {
  st_isValidator : bool;
  st_lastHeartbeatHeight : Z;
  st_seenHeartbeats : nat;
  st_activeValidators : nat
}.

Definition GetStats : HM Stats :=
  LOCK cs_heartbeat (
    w ← get_state;
    mret (mkStats (m_is_validator (hm w)) (m_last_heartbeat_height (hm w))
            (size (m_seen_heartbeats (hm w))) (length (GetActiveValidators (trust w))))).

(** ** Dispatch (net_processing.cpp, ProcessMessage)

    A reply is the validator list sent back to the peer. *)
Inductive message :=
  | HEARTBEAT (hb : Heartbeat)
  | GETVALIDATORS
  | VALIDATORS (l : list ValidatorInfo)
  | REGVALIDATOR (r : ValidatorRegistration).

Definition ProcessMessage (m : message) : HM (option (list ValidatorInfo)) :=
  match m with
  | HEARTBEAT hb => HM_ProcessHeartbeat hb;; mret None
  | GETVALIDATORS => l ← GetValidatorList; mret (Some l)
  | VALIDATORS l => ProcessValidatorList l;; mret None
  | REGVALIDATOR r => ProcessValidatorRegistration r;; mret None
  end.

(** Messages of one connection are processed one after the other by a thread that
    holds no mutex in between. *)
Fixpoint ProcessMessages (ms : list message) (w : world) : outcome world (list (option (list ValidatorInfo))) :=
  match ms with
  | [] => Done [] w
  | m :: ms =>
      match ProcessMessage m [] w with
      | Deadlock => Deadlock
      | Done r w =>
          match ProcessMessages ms w with
          | Deadlock => Deadlock
          | Done rs w => Done (r :: rs) w
          end
      end
  end.

(** ** What processing a heartbeat does *)

Lemma with_peers_total {B} (f : PeerDiscoveryManager -> B * PeerDiscoveryManager) (d : B) held w :
  cs_peers ∉ held ->
  with_peers f d held w =
  match peers w with
  | None => Done d w
  | Some g => Done (f g).1 (set_peers (Some (f g).2) w)
  end.
Proof.
  intros Hh. unfold with_peers, LOCK, get_state, put_state, mbind, locked_bind, mret, locked_ret.
  destruct (peers w) as [g|] eqn:E; [|done].
  rewrite bool_decide_eq_false_2 by done. rewrite E. by destruct (f g).
Qed.

Lemma already_known a g :
  ProcessValidatorAddress a (ProcessValidatorAddress a g).2 = (false, (ProcessValidatorAddress a g).2).
Proof.
  unfold ProcessValidatorAddress. destruct (IsValid a) eqn:E; cbn [negb snd fst]; [|done].
  destruct (bool_decide (a ∈ knownValidatorPeers g)) eqn:Ek; cbn [snd].
  - by rewrite Ek.
  - rewrite bool_decide_eq_true_2 by (cbn; set_solver). done.
Qed.

Lemma accepted_known hb h t t' :
  ProcessHeartbeat consensusParams hb h t = (true, t') -> is_Some (validators t' !! hb_validatorId hb).
Proof.
  unfold ProcessHeartbeat. destruct (validators t !! _); [|done].
  case_match; [done|]. case_match; [done|]. intros [= <-]. cbn. by rewrite lookup_insert_eq.
Qed.

(** The state after an accepted heartbeat with a valid address, whatever mutexes
    other than the two involved the thread holds. *)
Definition after_address (hb : Heartbeat) (w : world) : world :=
  let w := set_trust (UpdateValidatorAddress (hb_validatorId hb) (nodeAddress hb) (timestamp hb)
                        (trust w, None)).2.1 w in
  set_peers ((fun g => (ProcessValidatorAddress (nodeAddress hb) g).2) <$> peers w) w.

Lemma address_phase hb held w :
  cs_peers ∉ held -> is_Some (validators (trust w) !! hb_validatorId hb) -> IsValid (nodeAddress hb) = true ->
  (UpdateValidatorAddress_locked (hb_validatorId hb) (nodeAddress hb) (timestamp hb);;
   auto_add_peer (nodeAddress hb)) held w = Done () (after_address hb w).
Proof.
  intros Hh [v Hv] Ha. unfold UpdateValidatorAddress_locked, auto_add_peer, after_address.
  unfold get_state, put_state, mbind, locked_bind, mret, locked_ret. cbn [UpdateValidatorAddress].
  rewrite Hv, Ha. cbn [negb fst snd]. rewrite with_peers_total by done. cbn [peers set_trust].
  destruct w as [h t [g|] c]; cbn [peers trust hm connman set_peers fmap option_fmap option_map].
  - rewrite with_peers_total by done. cbn [peers set_peers set_trust]. by rewrite already_known.
  - by rewrite with_peers_total by done.
Qed.

(** The whole handler on every branch, for a thread that holds no mutex. *)
Lemma process_heartbeat_spec hb w :
  HM_ProcessHeartbeat hb [] w =
  let seen := m_seen_heartbeats (hm w) in
  if bool_decide (Heartbeat_GetHash hb ∈ seen) then Done false w
  else if (MAX_SEEN_HEARTBEATS <? size ({[ Heartbeat_GetHash hb ]} ∪ seen))%nat then Deadlock
  else
    let w1 := set_hm (set_seen ({[ Heartbeat_GetHash hb ]} ∪ seen) (hm w)) w in
    let '(ok, t) := ProcessHeartbeat consensusParams hb (blockHeight hb) (trust w) in
    if negb ok then Done false w1
    else Done true (if IsValid (nodeAddress hb) then after_address hb (set_trust t w1) else set_trust t w1).
Proof.
  unfold HM_ProcessHeartbeat. unfold LOCK at 1. rewrite bool_decide_eq_false_2 by set_solver.
  unfold get_state, put_state, mret, locked_ret. cbv zeta.
  unfold mbind at 1, locked_bind at 1.
  destruct (bool_decide (Heartbeat_GetHash hb ∈ _)); [done|].
  unfold mbind at 1 2, locked_bind at 1 2. cbn [hm set_hm m_seen_heartbeats set_seen].
  destruct (MAX_SEEN_HEARTBEATS <? _)%nat.
  - unfold mbind, locked_bind, CleanupSeenHeartbeats, LOCK. by rewrite bool_decide_eq_true_2 by set_solver.
  - unfold mbind at 1 2, locked_bind at 1 2. cbn [trust set_hm].
    destruct (ProcessHeartbeat consensusParams hb (blockHeight hb) (trust w)) as [ok t] eqn:E.
    destruct ok; cbn [negb]; [|done].
    unfold mbind at 1, locked_bind at 1. unfold mbind at 1, locked_bind at 1.
    destruct (IsValid (nodeAddress hb)) eqn:Ea; [|done].
    rewrite address_phase; [done|set_solver|by apply accepted_known in E|done].
Qed.

(** A heartbeat is counted once.  Whenever processing a heartbeat returns, with
    whatever result, processing the same heartbeat again is refused and changes
    nothing. *)
Theorem heartbeat_replay_rejected hb w b w' :
  HM_ProcessHeartbeat hb [] w = Done b w' -> HM_ProcessHeartbeat hb [] w' = Done false w'.
Proof.
  intros H. rewrite process_heartbeat_spec. cbv zeta.
  assert (Heartbeat_GetHash hb ∈ m_seen_heartbeats (hm w')) as Hin.
  { rewrite process_heartbeat_spec in H. cbv zeta in H.
    case_bool_decide; [by simplify_eq|]. case_match; [done|].
    destruct (ProcessHeartbeat _ _ _ _) as [[] t]; cbn [negb] in H; simplify_eq;
      [case_match|]; cbn; set_solver. }
  by rewrite bool_decide_eq_true_2.
Qed.

(** Discovered validators are never added as peers.  The handler first lets the
    trust manager record the address, which already marks it as known to peer
    discovery, and only then asks peer discovery whether the address is new: the
    answer is always no, so no heartbeat ever makes the node call AddNode. *)
Theorem heartbeat_never_adds_node hb w b w' :
  HM_ProcessHeartbeat hb [] w = Done b w' -> connman w' = connman w.
Proof.
  rewrite process_heartbeat_spec. cbv zeta. case_bool_decide; [by intros [= <- <-]|].
  case_match; [done|]. destruct (ProcessHeartbeat _ _ _ _) as [[] t]; cbn [negb]; intros [= <- <-]; [|done].
  by destruct (IsValid (nodeAddress hb)).
Qed.

Lemma seen_after hb w b w' :
  Heartbeat_GetHash hb ∉ m_seen_heartbeats (hm w) ->
  HM_ProcessHeartbeat hb [] w = Done b w' ->
  m_seen_heartbeats (hm w') = {[ Heartbeat_GetHash hb ]} ∪ m_seen_heartbeats (hm w) /\
  (size (m_seen_heartbeats (hm w')) <= MAX_SEEN_HEARTBEATS)%nat.
Proof.
  intros Hn. rewrite process_heartbeat_spec. cbv zeta. rewrite bool_decide_eq_false_2 by done.
  destruct (Nat.ltb_spec MAX_SEEN_HEARTBEATS (size ({[ Heartbeat_GetHash hb ]} ∪ m_seen_heartbeats (hm w))));
    [done|].
  destruct (ProcessHeartbeat _ _ _ _) as [[] t]; cbn [negb]; intros [= <- <-]; [case_match|]; by cbn.
Qed.

(** Heartbeats with enough distinct hashes hang the node.  From any state, a
    sequence of new, pairwise distinct heartbeats that takes the number of seen
    hashes past [MAX_SEEN_HEARTBEATS] deadlocks: the handler holds cs_heartbeat
    when it calls the cleanup function, which locks it again.  The heartbeats need
    neither a valid signature nor a registered validator. *)
Theorem heartbeat_flood_deadlocks hbs w :
  NoDup (map Heartbeat_GetHash hbs) ->
  (forall hb, hb ∈ hbs -> Heartbeat_GetHash hb ∉ m_seen_heartbeats (hm w)) ->
  (MAX_SEEN_HEARTBEATS < size (m_seen_heartbeats (hm w)) + length hbs)%nat ->
  (size (m_seen_heartbeats (hm w)) <= MAX_SEEN_HEARTBEATS)%nat ->
  ProcessMessages (map HEARTBEAT hbs) w = Deadlock.
Proof.
  revert w. induction hbs as [|hb hbs IH]; intros w Hnd Hnew Hlen Hsz; cbn [length] in Hlen; [lia|].
  cbn [map] in Hnd. apply NoDup_cons in Hnd as [Hhd Hnd].
  assert (Heartbeat_GetHash hb ∉ m_seen_heartbeats (hm w)) as Hn by (apply Hnew; left).
  cbn [map ProcessMessages ProcessMessage].
  unfold mbind, locked_bind. destruct (HM_ProcessHeartbeat hb [] w) as [b w1|] eqn:E; [|done].
  unfold mret, locked_ret.
  destruct (seen_after hb w b w1 Hn E) as [Hseen Hsz1]. rewrite IH; [done|done| | |done].
  - intros hb' Hin. rewrite Hseen. apply not_elem_of_union. split.
    + rewrite elem_of_singleton. intros Heq. apply Hhd. rewrite <- Heq. by apply list_elem_of_fmap_2.
    + apply Hnew. by right.
  - rewrite Hseen, size_union, size_singleton by set_solver. lia.
Qed.

Lemma heartbeat_credited hb h t v :
  validators t !! hb_validatorId hb = Some v -> isActive v = true ->
  i32 (lastHeartbeatHeight v + nHeartbeatInterval consensusParams) <= h ->
  exists t' v', ProcessHeartbeat consensusParams hb h t = (true, t') /\
    validators t' !! hb_validatorId hb = Some v' /\ lastHeartbeatHeight v' = h.
Proof.
  intros Hv Ha Hh. unfold ProcessHeartbeat. rewrite Hv, Ha. cbn [negb].
  destruct (Z.ltb_spec h (i32 (lastHeartbeatHeight v + nHeartbeatInterval consensusParams))); [lia|].
  do 2 eexists. split; [done|]. cbn [validators set_validators]. by rewrite lookup_insert_eq.
Qed.

Lemma heartbeat_too_early hb h t v :
  validators t !! hb_validatorId hb = Some v ->
  h < i32 (lastHeartbeatHeight v + nHeartbeatInterval consensusParams) ->
  ProcessHeartbeat consensusParams hb h t = (false, t).
Proof.
  intros Hv Hh. unfold ProcessHeartbeat. rewrite Hv. case_match; [done|].
  by destruct (Z.ltb_spec h (i32 (lastHeartbeatHeight v + nHeartbeatInterval consensusParams))); [|lia].
Qed.

Lemma after_address_last hb w v :
  validators (trust w) !! hb_validatorId hb = Some v ->
  exists v', validators (trust (after_address hb w)) !! hb_validatorId hb = Some v' /\
    lastHeartbeatHeight v' = lastHeartbeatHeight v.
Proof.
  intros Hv. unfold after_address, UpdateValidatorAddress. cbn [trust set_peers set_trust].
  rewrite Hv. case_match; cbn [snd fst validators set_validators].
  - eauto.
  - rewrite lookup_insert_eq. eauto.
Qed.

(** A heartbeat with another signature field. *)
Definition resign (hb : Heartbeat) (sig : list Z) : Heartbeat :=
  mkHeartbeat (hb_validatorId hb) (blockHeight hb) (blockHash hb) (timestamp hb)
    (nodeAddress hb) (nodePort hb) sig.

(** Heartbeats are not authenticated.  For an active validator, a new heartbeat
    at a height past the interval is credited whatever bytes its signature
    consists of, and it then locks the validator out: every later heartbeat of
    that validator, genuine or not, below that height plus the interval is
    refused without credit. *)
Theorem forged_heartbeat_locks_out hb sig w v :
  validators (trust w) !! hb_validatorId hb = Some v -> isActive v = true ->
  Heartbeat_GetHash hb ∉ m_seen_heartbeats (hm w) ->
  (size (m_seen_heartbeats (hm w)) < MAX_SEEN_HEARTBEATS)%nat ->
  i32 (lastHeartbeatHeight v + nHeartbeatInterval consensusParams) <= blockHeight hb ->
  in_i32 (blockHeight hb + nHeartbeatInterval consensusParams) ->
  exists w', HM_ProcessHeartbeat (resign hb sig) [] w = Done true w' /\
    forall hb', hb_validatorId hb' = hb_validatorId hb ->
      blockHeight hb' < blockHeight hb + nHeartbeatInterval consensusParams ->
      HM_ProcessHeartbeat hb' [] w' = Deadlock \/
      exists w'', HM_ProcessHeartbeat hb' [] w' = Done false w'' /\ trust w'' = trust w'.
Proof.
  intros Hv Ha Hn Hsz Hh Hr.
  destruct (heartbeat_credited hb (blockHeight hb) (trust w) v Hv Ha Hh) as (t & v1 & Ht & Hv1 & Hl1).
  assert (exists w', HM_ProcessHeartbeat (resign hb sig) [] w = Done true w' /\
    exists v', validators (trust w') !! hb_validatorId hb = Some v' /\
      lastHeartbeatHeight v' = blockHeight hb) as (w' & E & v' & Hv' & Hl').
  { rewrite process_heartbeat_spec. cbv zeta.
    change (Heartbeat_GetHash (resign hb sig)) with (Heartbeat_GetHash hb).
    rewrite bool_decide_eq_false_2 by done.
    rewrite size_union, size_singleton by set_solver.
    destruct (Nat.ltb_spec MAX_SEEN_HEARTBEATS (1 + size (m_seen_heartbeats (hm w)))); [lia|].
    change (ProcessHeartbeat consensusParams (resign hb sig) (blockHeight (resign hb sig)) (trust w))
      with (ProcessHeartbeat consensusParams hb (blockHeight hb) (trust w)).
    rewrite Ht. cbn [negb]. eexists. split; [reflexivity|].
    case_match; [|by exists v1].
    rewrite <- Hl1. apply (after_address_last (resign hb sig)). done. }
  exists w'. split; [done|]. intros hb' Hid Hb'. rewrite process_heartbeat_spec. cbv zeta.
  case_bool_decide; [eauto|]. case_match; [by left|]. right.
  rewrite (heartbeat_too_early hb' (blockHeight hb') (trust w') v').
  - cbn [negb]. eexists. split; reflexivity.
  - by rewrite Hid.
  - rewrite Hl', i32_id by done. lia.
Qed.

(** A node configured as a validator makes registrations other nodes accept: if
    signing succeeds, the message created for a sufficient stake and a fee between
    0 and 100 percent verifies, and a node that does not know the validator yet
    registers it, active, under the id of its public key. *)
Theorem created_registration_accepted stake fee height w w1 reg w2 `{!CryptoLaws C} :
  CreateRegistration stake fee height [] w = Done (Some reg) w1 ->
  nMinValidatorStake consensusParams <= stake -> 0 <= fee <= 10000 ->
  validators (trust w2) !! GetID (validatorPubKey reg) = None ->
  exists v, ProcessValidatorRegistration reg [] w2 =
      Done true (set_trust (set_validators (<[GetID (validatorPubKey reg) := v]> (validators (trust w2)))
                             (trust w2)) w2) /\
    isActive v = true /\ stakeAmount v = stake /\ poolFeeRate v = fee /\ registrationHeight v = height.
Proof.
  unfold CreateRegistration, LOCK. rewrite bool_decide_eq_false_2 by set_solver.
  unfold get_state, mbind at 1, locked_bind at 1, mret at 1, locked_ret at 1. intros [= Hreg ->] Hs Hf Hn.
  destruct (if m_is_validator _ then _ else _) as [k|]; [|done].
  unfold Registration_Sign in Hreg.
  destruct (SignHash k _) as [sig|] eqn:Es; cbn in Hreg; [|done]. simplify_eq.
  unfold ProcessValidatorRegistration, Registration_Verify. cbn [validatorPubKey reg_signature].
  rewrite (sign_verify k _ sig) by exact Es. cbn [negb reg_stakeAmount].
  destruct (Z.ltb_spec stake (nMinValidatorStake consensusParams)); [lia|].
  unfold get_state, put_state, mbind, locked_bind, mret, locked_ret, RegisterValidator.
  cbn [validatorPubKey] in Hn. cbn [reg_stakeAmount reg_poolFeeRate reg_registrationHeight validatorPubKey].
  destruct (Z.ltb_spec stake (nMinValidatorStake consensusParams)); [lia|].
  rewrite Hn, bool_decide_eq_false_2 by (by intros [? ?]).
  destruct (Z.ltb_spec fee 0); [lia|]. destruct (Z.ltb_spec 10000 fee); [lia|]. cbn [orb].
  eexists. split; [reflexivity|]. done.
Qed.

(** The validator list message registers validators nobody vouched for.  An
    entry for an unknown id with the active flag, a sufficient claimed stake and a
    legal fee is registered as an active validator; no signature, key or stake
    proof is part of the message or checked. *)
Theorem validator_list_registers_unproven info w :
  isActive info = true -> nMinValidatorStake consensusParams <= stakeAmount info ->
  0 <= poolFeeRate info <= 10000 -> validators (trust w) !! validatorId info = None ->
  exists w' v, ProcessMessage (VALIDATORS [info]) [] w = Done None w' /\
    validators (trust w') !! validatorId info = Some v /\ isActive v = true /\
    stakeAmount v = stakeAmount info.
Proof.
  intros Ha Hs Hf Hn. unfold ProcessMessage, ProcessValidatorList, get_state, put_state, mbind,
    locked_bind, mret, locked_ret. cbn [foldl]. unfold learn_validator, MeetsMinimumStake, GetValidator.
  rewrite Ha, Hn. destruct (Z.leb_spec (nMinValidatorStake consensusParams) (stakeAmount info)); [|lia].
  cbn [andb]. unfold RegisterValidator.
  destruct (Z.ltb_spec (stakeAmount info) (nMinValidatorStake consensusParams)); [lia|].
  rewrite Hn, bool_decide_eq_false_2 by (by intros [? ?]).
  destruct (Z.ltb_spec (poolFeeRate info) 0); [lia|]. destruct (Z.ltb_spec 10000 (poolFeeRate info)); [lia|].
  cbn [orb]. do 2 eexists. split; [reflexivity|]. cbn [snd trust set_trust validators set_validators].
  rewrite lookup_insert_eq. done.
Qed.
End Heartbeat_.

(** ** Witnesses

    One registered validator (id 7, last heartbeat at height 1600, see Trust.v) and
    stroke addresses; [height_crypto] hashes a heartbeat to its height. *)

Definition wit_world : @world strokes toy_crypto :=
  @mkWorld strokes toy_crypto (@mkHM toy_crypto (Some 42) true ∅ 0) wit_m2 (Some PeerDiscoveryManager_new) (Some []).

Definition wit_hb2 : @Heartbeat strokes := @mkHeartbeat strokes 7 2200 0 0 3%nat 18888 [1; 2; 3].

Definition result_is_true {S} (o : outcome S bool) : bool :=
  match o with Done b _ => b | Deadlock => false end.

Definition wit_run : outcome (@world strokes toy_crypto) bool :=
  @HM_ProcessHeartbeat strokes toy_crypto main_params wit_hb2 [] wit_world.

Lemma wit_run_true : result_is_true wit_run = true.
Proof. vm_compute. reflexivity. Qed.

Lemma heartbeat_replay_rejected_witness :
  match wit_run with
  | Done b w' => @HM_ProcessHeartbeat strokes toy_crypto main_params wit_hb2 [] w' = Done false w'
  | Deadlock => False
  end.
Proof.
  pose proof wit_run_true as T. unfold wit_run in *.
  destruct (HM_ProcessHeartbeat main_params wit_hb2 [] wit_world) as [b w'|] eqn:E; [|discriminate T].
  exact (@heartbeat_replay_rejected strokes toy_crypto main_params wit_hb2 wit_world b w' E).
Defined.

Lemma heartbeat_never_adds_node_witness :
  match wit_run with
  | Done b w' => connman w' = Some []
  | Deadlock => False
  end.
Proof.
  pose proof wit_run_true as T. unfold wit_run in *.
  destruct (HM_ProcessHeartbeat main_params wit_hb2 [] wit_world) as [b w'|] eqn:E; [|discriminate T].
  exact (@heartbeat_never_adds_node strokes toy_crypto main_params wit_hb2 wit_world b w' E).
Defined.

Definition height_crypto : Crypto := {|
  CKey := Z;
  GetPubKey := fun k => [k];
  GetID := fun pk => Z.to_N (le_value pk);
  Hash256 := fun l => Z.to_N (le_value (take 4 (drop 20 l)));
  SignHash := fun k h => None;
  VerifyHash := fun _ _ _ => false
|}.

Definition flood_hb (n : nat) : @Heartbeat strokes := @mkHeartbeat strokes 0 (Z.of_nat n) 0 0 0%nat 0 [].
Definition flood : list (@Heartbeat strokes) := map flood_hb (seq 0 (S MAX_SEEN_HEARTBEATS)).

Lemma flood_hash n : (Z.of_nat n < 4294967296) ->
  @Heartbeat_GetHash strokes height_crypto (flood_hb n) = N.of_nat n.
Proof.
  intros Hn. unfold Heartbeat_GetHash, Heartbeat_preimage.
  assert (forall l, take 4 (drop 20 (id_bytes 20 0 ++ ser_writedata32 (Z.of_nat n) ++ l)) =
                    le_bytes 4 (Z.of_nat n)) as E by reflexivity.
  cbn [Hash256 height_crypto hb_validatorId flood_hb blockHeight]. rewrite E, le_value_bytes.
  change (256 ^ Z.of_nat 4) with 4294967296. rewrite Z.mod_small by lia. lia.
Qed.

Definition flood_world : @world strokes height_crypto :=
  @mkWorld strokes height_crypto HeartbeatManager_new TrustScoreManager_new None None.

Lemma flood_hashes :
  map (@Heartbeat_GetHash strokes height_crypto) flood = map N.of_nat (seq 0 (S MAX_SEEN_HEARTBEATS)).
Proof.
  unfold flood. rewrite map_map. apply map_ext_in. intros n Hn. apply in_seq in Hn.
  apply flood_hash. assert (Z.of_nat MAX_SEEN_HEARTBEATS = 10000) by (vm_compute; reflexivity). lia.
Qed.

Lemma heartbeat_flood_deadlocks_witness :
  @ProcessMessages strokes height_crypto main_params (map HEARTBEAT flood) flood_world = Deadlock.
Proof.
  apply heartbeat_flood_deadlocks.
  - rewrite flood_hashes. apply (NoDup_fmap_2 N.of_nat), NoDup_ListNoDup, seq_NoDup.
  - intros hb _. cbn. apply not_elem_of_empty.
  - unfold flood. rewrite length_map, length_seq. cbn [flood_world hm m_seen_heartbeats HeartbeatManager_new].
    rewrite size_empty. lia.
  - cbn [flood_world hm m_seen_heartbeats HeartbeatManager_new]. rewrite size_empty. lia.
Defined.

Lemma forged_heartbeat_locks_out_witness :
  exists w', @HM_ProcessHeartbeat strokes toy_crypto main_params (resign wit_hb2 [9]) [] wit_world = Done true w'.
Proof.
  destruct (@forged_heartbeat_locks_out strokes toy_crypto main_params wit_hb2 [9] wit_world wit_v2)
    as (w' & E & _).
  - vm_compute. reflexivity.
  - reflexivity.
  - apply not_elem_of_empty.
  - cbn [wit_world hm m_seen_heartbeats]. rewrite size_empty. apply Nat.ltb_lt. vm_compute. reflexivity.
  - vm_compute. discriminate.
  - unfold in_i32. cbn. lia.
  - exists w'. exact E.
Defined.

Definition wit_reg : ValidatorRegistration :=
  match @CreateRegistration strokes toy_crypto (200000 * COIN) 250 5 [] wit_world with
  | Done (Some reg) _ => reg
  | _ => mkReg [] 0 0 0 []
  end.

Lemma created_registration_accepted_witness :
  exists w2, @ProcessValidatorRegistration strokes toy_crypto main_params wit_reg [] wit_world = Done true w2.
Proof.
  destruct (@created_registration_accepted strokes toy_crypto main_params (200000 * COIN) 250 5
              wit_world wit_world wit_reg wit_world) as (v & E & _).
  - exact toy_crypto_laws.
  - reflexivity.
  - vm_compute. discriminate.
  - lia.
  - vm_compute. reflexivity.
  - eexists. exact E.
Defined.

Lemma validator_list_registers_unproven_witness :
  exists w' v, @ProcessMessage strokes toy_crypto main_params
      (VALIDATORS [@mkInfo strokes 99 (900000 * COIN) 0 0 0 0 0 true 0%nat 0 0 0]) [] wit_world = Done None w' /\
    validators (trust w') !! 99%N = Some v /\ isActive v = true.
Proof.
  destruct (@validator_list_registers_unproven strokes toy_crypto main_params
              (@mkInfo strokes 99 (900000 * COIN) 0 0 0 0 0 true 0%nat 0 0 0) wit_world)
    as (w' & v & E & Hv & Ha & _).
  - reflexivity.
  - vm_compute. discriminate.
  - cbn. lia.
  - vm_compute. reflexivity.
  - exists w', v. exact (conj E (conj Hv Ha)).
Defined.
