(* ===== verification/ValidatorDB.v ===== *)
(** * The validator database (validators/validatordb.h, validatordb.cpp)

    Entries, signed updates and the database with its index of stake outpoints,
    every operation on the whole state.  Each public operation takes the mutex
    cs_validators once and calls no other locking operation, so the operations are
    plain functions here; Delegation.v calls them under the lock.  Loading from a
    stream ([Unserialize]) is not a step of the state machine below: it installs what
    the stream holds without validation. *)

From stdpp Require Import gmap strings list sorting.
From Stdlib Require Import ZArith Lia.
From S2P Require Import Prelude Params Serialize Crypto OutPoint.

Open Scope Z_scope.

(** ** Entries *)

Inductive ValidatorStatus := PENDING | ACTIVE | INACTIVE | JAILED | UNBONDING.

#[export] Instance ValidatorStatus_eq : EqDecision ValidatorStatus.
Proof. solve_decision. Defined.

Definition ValidatorStatus_code (s : ValidatorStatus) : Z :=
  match s with PENDING => 0 | ACTIVE => 1 | INACTIVE => 2 | JAILED => 3 | UNBONDING => 4 end.

(** Any byte can be read into the enumeration; bytes above 4 have no name and are
    read as the last one here, which no theorem about written data reaches. *)
Definition ValidatorStatus_of (z : Z) : ValidatorStatus :=
  if z =? 0 then PENDING else if z =? 1 then ACTIVE else if z =? 2 then INACTIVE
  else if z =? 3 then JAILED else UNBONDING.

Definition ValidatorStatusToString (s : ValidatorStatus) : string :=
  match s with
  | PENDING => "pending"
  | ACTIVE => "active"
  | INACTIVE => "inactive"
  | JAILED => "jailed"
  | UNBONDING => "unbonding"
  end.

Definition MIN_POOL_FEE : Z := 0.
Definition MAX_POOL_FEE : Z := 10000.
Definition MAX_VALIDATOR_NAME : Z := 64.
Definition UNBONDING_PERIOD : Z := 259200.

Record ValidatorEntry := mkEntry {
  validatorId : N;
  validatorPubKey : list Z;
  stakeAmount : Z;
  poolFeeRate : Z;
  registrationHeight : Z;
  lastActiveHeight : Z;
  status : ValidatorStatus;
  validatorName : list Z;
  stakeOutpoint : COutPoint;
  jailReleaseHeight : Z;
  totalDelegated : Z;
  delegatorCount : Z
}.

Definition GetTotalStake (e : ValidatorEntry) : Z := i64 (stakeAmount e + totalDelegated e).

Definition MeetsMinimumStake (p : Params) (e : ValidatorEntry) : bool :=
  nMinValidatorStake p <=? GetTotalStake e.

Definition IsEligibleForStaking (p : Params) (currentHeight : Z) (e : ValidatorEntry) : bool :=
  if negb (bool_decide (status e = ACTIVE)) then false
  else if negb (MeetsMinimumStake p e) then false
  else if i32 (currentHeight - registrationHeight e) <? 2000 then false
  else true.

Definition CalculateValidatorReward (e : ValidatorEntry) (blockReward : Z) : Z :=
  if totalDelegated e =? 0 then blockReward
  else
    let totalStake := GetTotalStake e in
    if totalStake =? 0 then 0
    else
      let validatorStakeShare := Z.quot (i64 (blockReward * stakeAmount e)) totalStake in
      let delegatorsShare := i64 (blockReward - validatorStakeShare) in
      let poolFee := Z.quot (i64 (delegatorsShare * poolFeeRate e)) 10000 in
      i64 (validatorStakeShare + poolFee).

Definition CalculateDelegatorsReward (e : ValidatorEntry) (blockReward : Z) : Z :=
  if totalDelegated e =? 0 then 0
  else
    let totalStake := GetTotalStake e in
    if totalStake =? 0 then 0
    else
      let delegatorsShare := Z.quot (i64 (blockReward * totalDelegated e)) totalStake in
      let poolFee := Z.quot (i64 (delegatorsShare * poolFeeRate e)) 10000 in
      i64 (delegatorsShare - poolFee).

(** Members in the order of [SERIALIZE_METHODS]. *)
Definition entry_codec : codec ValidatorEntry :=
  class_codec
    (fun e => (validatorId e, (validatorPubKey e, (stakeAmount e, (poolFeeRate e,
       (registrationHeight e, (lastActiveHeight e, (status e, (validatorName e,
       (stakeOutpoint e, (jailReleaseHeight e, (totalDelegated e, delegatorCount e))))))))))))
    (fun '(a, (b, (c, (d, (e, (f, (g, (h, (i, (j, (k, l))))))))))) => mkEntry a b c d e f g h i j k l)
    (pair_codec (id_codec 20) (pair_codec pubkey_codec (pair_codec i64_codec (pair_codec i64_codec
       (pair_codec i32_codec (pair_codec i32_codec
       (pair_codec (enum_codec ValidatorStatus_code ValidatorStatus_of)
       (pair_codec bytes_codec (pair_codec outpoint_codec (pair_codec i32_codec
       (pair_codec i64_codec i32_codec))))))))))).

(** Record updates used below. *)
Definition set_fee (f : Z) (e : ValidatorEntry) : ValidatorEntry :=
  mkEntry (validatorId e) (validatorPubKey e) (stakeAmount e) f (registrationHeight e)
    (lastActiveHeight e) (status e) (validatorName e) (stakeOutpoint e) (jailReleaseHeight e)
    (totalDelegated e) (delegatorCount e).
Definition set_name (s : list Z) (e : ValidatorEntry) : ValidatorEntry :=
  mkEntry (validatorId e) (validatorPubKey e) (stakeAmount e) (poolFeeRate e) (registrationHeight e)
    (lastActiveHeight e) (status e) s (stakeOutpoint e) (jailReleaseHeight e)
    (totalDelegated e) (delegatorCount e).
Definition set_status (s : ValidatorStatus) (e : ValidatorEntry) : ValidatorEntry :=
  mkEntry (validatorId e) (validatorPubKey e) (stakeAmount e) (poolFeeRate e) (registrationHeight e)
    (lastActiveHeight e) s (validatorName e) (stakeOutpoint e) (jailReleaseHeight e)
    (totalDelegated e) (delegatorCount e).
Definition set_stake (s : Z) (e : ValidatorEntry) : ValidatorEntry :=
  mkEntry (validatorId e) (validatorPubKey e) s (poolFeeRate e) (registrationHeight e)
    (lastActiveHeight e) (status e) (validatorName e) (stakeOutpoint e) (jailReleaseHeight e)
    (totalDelegated e) (delegatorCount e).
Definition set_outpoint (o : COutPoint) (e : ValidatorEntry) : ValidatorEntry :=
  mkEntry (validatorId e) (validatorPubKey e) (stakeAmount e) (poolFeeRate e) (registrationHeight e)
    (lastActiveHeight e) (status e) (validatorName e) o (jailReleaseHeight e)
    (totalDelegated e) (delegatorCount e).
Definition set_active_at (h : Z) (e : ValidatorEntry) : ValidatorEntry :=
  mkEntry (validatorId e) (validatorPubKey e) (stakeAmount e) (poolFeeRate e) (registrationHeight e)
    h (status e) (validatorName e) (stakeOutpoint e) (jailReleaseHeight e)
    (totalDelegated e) (delegatorCount e).
Definition set_jail (h : Z) (e : ValidatorEntry) : ValidatorEntry :=
  mkEntry (validatorId e) (validatorPubKey e) (stakeAmount e) (poolFeeRate e) (registrationHeight e)
    (lastActiveHeight e) (status e) (validatorName e) (stakeOutpoint e) h
    (totalDelegated e) (delegatorCount e).
Definition set_delegated (d c : Z) (e : ValidatorEntry) : ValidatorEntry :=
  mkEntry (validatorId e) (validatorPubKey e) (stakeAmount e) (poolFeeRate e) (registrationHeight e)
    (lastActiveHeight e) (status e) (validatorName e) (stakeOutpoint e) (jailReleaseHeight e) d c.

(** ** Updates *)

Inductive ValidatorUpdateType :=
  | UPDATE_FEE | UPDATE_NAME | DEACTIVATE | REACTIVATE | INCREASE_STAKE | DECREASE_STAKE.

Definition ValidatorUpdateType_code (t : ValidatorUpdateType) : Z :=
  match t with
  | UPDATE_FEE => 1 | UPDATE_NAME => 2 | DEACTIVATE => 3
  | REACTIVATE => 4 | INCREASE_STAKE => 5 | DECREASE_STAKE => 6
  end.

Record ValidatorUpdate := mkUpdate {
  upd_validatorId : N;
  updateType : ValidatorUpdateType;
  newValue : Z;
  newName : list Z;
  updateHeight : Z;
  upd_signature : list Z
}.

Section ValidatorDB_.
Context {C : Crypto} (consensusParams : Params).

Definition Update_GetHash (u : ValidatorUpdate) : N :=
  Hash256 (id_bytes 20 (upd_validatorId u) ++
           ser_writedata8 (ValidatorUpdateType_code (updateType u)) ++
           ser_writedata64 (newValue u) ++
           enc bytes_codec (newName u) ++
           ser_writedata32 (updateHeight u)).

Definition Update_Sign (k : CKey) (u : ValidatorUpdate) : option ValidatorUpdate :=
  sig ← SignHash k (Update_GetHash u);
  Some (mkUpdate (upd_validatorId u) (updateType u) (newValue u) (newName u) (updateHeight u) sig).

Definition Update_Verify (pubkey : list Z) (u : ValidatorUpdate) : bool :=
  VerifyHash pubkey (Update_GetHash u) (upd_signature u).

(** ** The database *)

Record ValidatorDB := mkDB {
  validators : gmap N ValidatorEntry;
  outpointIndex : gmap COutPoint N;
  currentHeight : Z
}.

Definition ValidatorDB_new : ValidatorDB := mkDB ∅ ∅ 0.

Definition set_entry (id : N) (e : ValidatorEntry) (db : ValidatorDB) : ValidatorDB :=
  mkDB (<[id := e]> (validators db)) (outpointIndex db) (currentHeight db).

Definition RegisterValidator (entry : ValidatorEntry) (db : ValidatorDB) : bool * ValidatorDB :=
  if bool_decide (is_Some (validators db !! validatorId entry)) then (false, db)
  else if (poolFeeRate entry <? MIN_POOL_FEE) || (MAX_POOL_FEE <? poolFeeRate entry) then (false, db)
  else if stakeAmount entry <? nMinValidatorStake consensusParams then (false, db)
  else if MAX_VALIDATOR_NAME <? Z.of_nat (length (validatorName entry)) then (false, db)
  else (true, mkDB (<[validatorId entry := entry]> (validators db))
                   (index_outpoint (stakeOutpoint entry) (validatorId entry) (outpointIndex db))
                   (currentHeight db)).

(** The body of the switch: the changed entry, or [None] where it returns false. *)
Definition apply_update (height : Z) (u : ValidatorUpdate) (e : ValidatorEntry) : option ValidatorEntry :=
  match updateType u with
  | UPDATE_FEE =>
      if (newValue u <? MIN_POOL_FEE) || (MAX_POOL_FEE <? newValue u) then None
      else Some (set_fee (newValue u) e)
  | UPDATE_NAME =>
      if MAX_VALIDATOR_NAME <? Z.of_nat (length (newName u)) then None
      else Some (set_name (newName u) e)
  | DEACTIVATE => Some (set_status UNBONDING e)
  | REACTIVATE =>
      if bool_decide (status e = JAILED) && (height <? jailReleaseHeight e) then None
      else if bool_decide (status e = INACTIVE) || bool_decide (status e = JAILED)
      then Some (set_status ACTIVE e)
      else Some e
  | INCREASE_STAKE => Some (set_stake (i64 (stakeAmount e + newValue u)) e)
  | DECREASE_STAKE =>
      if stakeAmount e <? newValue u then None
      else if i64 (stakeAmount e - newValue u) <? nMinValidatorStake consensusParams then None
      else Some (set_stake (i64 (stakeAmount e - newValue u)) e)
  end.

Definition ProcessUpdate (u : ValidatorUpdate) (db : ValidatorDB) : bool * ValidatorDB :=
  match validators db !! upd_validatorId u with
  | None => (false, db)
  | Some entry =>
      if negb (Update_Verify (validatorPubKey entry) u) then (false, db)
      else match apply_update (currentHeight db) u entry with
           | None => (false, db)
           | Some entry => (true, set_entry (upd_validatorId u) entry db)
           end
  end.

Definition UpdateStakeOutpoint (id : N) (newOutpoint : COutPoint) (db : ValidatorDB) : bool * ValidatorDB :=
  match validators db !! id with
  | None => (false, db)
  | Some e =>
      let idx := unindex_outpoint (stakeOutpoint e) (outpointIndex db) in
      (true, mkDB (<[id := set_outpoint newOutpoint e]> (validators db))
                  (index_outpoint newOutpoint id idx) (currentHeight db))
  end.

Definition GetValidator (id : N) (db : ValidatorDB) : option ValidatorEntry := validators db !! id.

Definition GetValidatorByOutpoint (o : COutPoint) (db : ValidatorDB) : option ValidatorEntry :=
  match outpointIndex db !! o with
  | None => None
  | Some id => validators db !! id
  end.

Definition IsValidatorStake (o : COutPoint) (db : ValidatorDB) : bool :=
  bool_decide (is_Some (outpointIndex db !! o)).

Definition GetActiveValidators (db : ValidatorDB) : list ValidatorEntry :=
  filter (fun e => status e = ACTIVE) (in_order (validators db)).*2.

(** [std::sort] with the given comparison; the order of equivalent entries is
    unspecified in C++, and theorems use only that the result is sorted. *)
Definition by_stake (a b : ValidatorEntry) : Prop := GetTotalStake b <= GetTotalStake a.
#[export] Instance by_stake_dec : RelDecision by_stake.
Proof. intros a b. unfold by_stake. apply _. Defined.

Definition GetValidatorsByStake (db : ValidatorDB) : list ValidatorEntry :=
  merge_sort by_stake (GetActiveValidators db).

Definition by_fee (a b : ValidatorEntry) : Prop := poolFeeRate a <= poolFeeRate b.
#[export] Instance by_fee_dec : RelDecision by_fee.
Proof. intros a b. unfold by_fee. apply _. Defined.

Definition GetValidatorsByMaxFee (maxFeeRate : Z) (db : ValidatorDB) : list ValidatorEntry :=
  merge_sort by_fee
    (filter (fun e => status e = ACTIVE /\ poolFeeRate e <= maxFeeRate) (in_order (validators db)).*2).

Definition SetValidatorStatus (id : N) (s : ValidatorStatus) (db : ValidatorDB) : bool * ValidatorDB :=
  match validators db !! id with
  | None => (false, db)
  | Some e =>
      let e := set_status s e in
      (true, set_entry id (if bool_decide (s = ACTIVE) then set_active_at (currentHeight db) e else e) db)
  end.

Definition JailValidator (id : N) (jailBlocks : Z) (db : ValidatorDB) : bool * ValidatorDB :=
  match validators db !! id with
  | None => (false, db)
  | Some e => (true, set_entry id (set_jail (i32 (currentHeight db + jailBlocks)) (set_status JAILED e)) db)
  end.

Definition UnjailValidator (id : N) (db : ValidatorDB) : bool * ValidatorDB :=
  match validators db !! id with
  | None => (false, db)
  | Some e =>
      if negb (bool_decide (status e = JAILED)) then (false, db)
      else if currentHeight db <? jailReleaseHeight e then (false, db)
      else (true, set_entry id (set_jail 0 (set_status ACTIVE e)) db)
  end.

Definition SetHeight (height : Z) (db : ValidatorDB) : ValidatorDB :=
  mkDB (validators db) (outpointIndex db) height.

Definition GetValidatorCount (db : ValidatorDB) : nat := size (validators db).

Definition GetActiveValidatorCount (db : ValidatorDB) : nat := length (GetActiveValidators db).

Definition AddDelegation (id : N) (amount : Z) (db : ValidatorDB) : bool * ValidatorDB :=
  match validators db !! id with
  | None => (false, db)
  | Some e =>
      (true, set_entry id (set_delegated (i64 (totalDelegated e + amount)) (i32 (delegatorCount e + 1)) e) db)
  end.

Definition RemoveDelegation (id : N) (amount : Z) (db : ValidatorDB) : bool * ValidatorDB :=
  match validators db !! id with
  | None => (false, db)
  | Some e =>
      if totalDelegated e <? amount then (false, db)
      else (true, set_entry id (set_delegated (i64 (totalDelegated e - amount))
                                  (if 0 <? delegatorCount e then i32 (delegatorCount e - 1)
                                   else delegatorCount e) e) db)
  end.

Definition process_entry (height : Z) (e : ValidatorEntry) : ValidatorEntry :=
  if bool_decide (status e = UNBONDING) then
    if UNBONDING_PERIOD <=? i32 (height - lastActiveHeight e) then set_status INACTIVE e else e
  else e.

Definition ProcessBlock (height : Z) (db : ValidatorDB) : ValidatorDB :=
  mkDB (process_entry height <$> validators db) (outpointIndex db) height.

Definition validators_codec : codec (gmap N ValidatorEntry) := map_codec (id_codec 20) entry_codec.

Definition Serialize (db : ValidatorDB) : stream := enc validators_codec (validators db).

Definition Unserialize (s : stream) (db : ValidatorDB) : option (ValidatorDB * stream) :=
  '(vs, s) ← dec validators_codec s;
  Some (mkDB vs (rebuild_index stakeOutpoint vs) (currentHeight db), s).

(** ** The database as a state machine *)

Inductive step : ValidatorDB -> ValidatorDB -> Prop :=
  | step_register e db : step db (RegisterValidator e db).2
  | step_update u db : step db (ProcessUpdate u db).2
  | step_outpoint id o db : step db (UpdateStakeOutpoint id o db).2
  | step_status id s db : step db (SetValidatorStatus id s db).2
  | step_jail id b db : step db (JailValidator id b db).2
  | step_unjail id db : step db (UnjailValidator id db).2
  | step_height h db : step db (SetHeight h db)
  | step_add id a db : step db (AddDelegation id a db).2
  | step_remove id a db : step db (RemoveDelegation id a db).2
  | step_block h db : step db (ProcessBlock h db).

Definition steps : ValidatorDB -> ValidatorDB -> Prop := rtc step.
End ValidatorDB_.

(** ** The invariant *)

Record entry_ok (id : N) (e : ValidatorEntry) : Prop := {
  eo_id : validatorId e = id;
  eo_fee : 0 <= poolFeeRate e <= 10000;
  eo_name : Z.of_nat (length (validatorName e)) <= 64
}.

Record db_ok (db : ValidatorDB) : Prop := {
  do_entries : map_Forall entry_ok (validators db);
  do_index : index_sound stakeOutpoint (validators db) (outpointIndex db)
}.

(** In-place changes: those every operation but registration and a move of the
    stake makes. *)
Lemma set_entry_ok db id e e' :
  db_ok db -> validators db !! id = Some e -> entry_ok id e' -> stakeOutpoint e' = stakeOutpoint e ->
  db_ok (set_entry id e' db).
Proof.
  intros [He Hi] Hid Hok Ho. split; cbn [set_entry validators outpointIndex].
  - by apply map_Forall_insert_2.
  - by eapply sound_update.
Qed.

Lemma apply_update_ok p h u id e e' :
  apply_update p h u e = Some e' -> entry_ok id e ->
  entry_ok id e' /\ stakeOutpoint e' = stakeOutpoint e.
Proof.
  unfold apply_update, MIN_POOL_FEE, MAX_POOL_FEE, MAX_VALIDATOR_NAME. intros H [Hid Hf Hn].
  destruct (updateType u); repeat case_if_in H; simplify_eq; (split; [split; cbn|done]; done || lia).
Qed.

Section invariant.
Context {C : Crypto} (p : Params).

Lemma RegisterValidator_ok e db : db_ok db -> db_ok (RegisterValidator p e db).2.
Proof.
  intros [He Hi]. unfold RegisterValidator, MIN_POOL_FEE, MAX_POOL_FEE, MAX_VALIDATOR_NAME.
  case_bool_decide as Hd; [done|]. apply eq_None_not_Some in Hd.
  repeat (case_if; [done|]). split; cbn [snd validators outpointIndex].
  - apply map_Forall_insert_2; [|done]. split; [done|lia|lia].
  - by apply sound_new.
Qed.

Lemma UpdateStakeOutpoint_ok id o db : db_ok db -> db_ok (UpdateStakeOutpoint id o db).2.
Proof.
  intros [He Hi]. unfold UpdateStakeOutpoint. case_match eqn:E; [|done].
  split; cbn [snd validators outpointIndex].
  - apply map_Forall_insert_2; [|done]. destruct (He _ _ E). by split.
  - by apply (sound_move stakeOutpoint _ _ id v (set_outpoint o v)).
Qed.

Lemma step_ok db db' : step p db db' -> db_ok db -> db_ok db'.
Proof.
  intros Hs Hok. pose proof (do_entries _ Hok) as Hent.
  destruct Hs; try (by apply RegisterValidator_ok); try (by apply UpdateStakeOutpoint_ok).
  - unfold ProcessUpdate. case_match eqn:E; [|done]. case_if; [done|].
    case_match eqn:Eu; [|done].
    destruct (apply_update_ok _ _ _ _ _ _ Eu (Hent _ _ E)). by eapply set_entry_ok.
  - unfold SetValidatorStatus. case_match eqn:E; [|done]. destruct (Hent _ _ E).
    eapply set_entry_ok; [done|done|by case_bool_decide; split|by case_bool_decide].
  - unfold JailValidator. case_match eqn:E; [|done]. destruct (Hent _ _ E). by eapply set_entry_ok.
  - unfold UnjailValidator. case_match eqn:E; [|done]. destruct (Hent _ _ E).
    repeat (case_if; [done|]). by eapply set_entry_ok.
  - destruct Hok. by split.
  - unfold AddDelegation. case_match eqn:E; [|done]. destruct (Hent _ _ E). by eapply set_entry_ok.
  - unfold RemoveDelegation. case_match eqn:E; [|done]. destruct (Hent _ _ E).
    case_if; [done|]. by eapply set_entry_ok.
  - assert (forall e, validatorId (process_entry h e) = validatorId e /\
              poolFeeRate (process_entry h e) = poolFeeRate e /\
              validatorName (process_entry h e) = validatorName e /\
              stakeOutpoint (process_entry h e) = stakeOutpoint e) as Hp.
    { intros e. unfold process_entry. by repeat case_match. }
    split; cbn [ProcessBlock validators outpointIndex].
    + intros id e. rewrite lookup_fmap. intros (x & Hx & ->)%fmap_Some.
      destruct (Hp x) as (E1 & E2 & E3 & _), (Hent _ _ Hx). split; congruence.
    + apply sound_fmap; [apply Hok|]. intros e. apply Hp.
Qed.

Lemma steps_ok db db' : steps p db db' -> db_ok db -> db_ok db'.
Proof. induction 1; eauto using step_ok. Qed.

Lemma new_ok : db_ok ValidatorDB_new.
Proof. split; cbn; [apply map_Forall_empty|apply sound_empty]. Qed.
End invariant.

(** ** Properties *)

(** C18: whatever sequence of registrations, signed updates, jailings, stake moves,
    delegations and blocks has been processed, entries are stored under their own
    id with a fee of 0 to 100% and a name of at most 64 bytes, and the outpoint index
    finds exactly validators that hold the outpoint: a lookup that succeeds returns a
    registered entry with that (non-null) stake outpoint, and an outpoint counts as
    validator stake only if the lookup succeeds. *)
Theorem reachable_db_ok {C : Crypto} (p : Params) db :
  steps p ValidatorDB_new db ->
  map_Forall entry_ok (validators db) /\
  (forall o e, GetValidatorByOutpoint o db = Some e ->
     stakeOutpoint e = o /\ IsNull o = false /\ GetValidator (validatorId e) db = Some e) /\
  (forall o, IsValidatorStake o db = true <-> is_Some (GetValidatorByOutpoint o db)).
Proof.
  intros Hs. destruct (steps_ok p _ _ Hs new_ok) as [He Hi]. split; [done|].
  unfold GetValidatorByOutpoint, GetValidator, IsValidatorStake. split.
  - intros o e Hl. destruct (outpointIndex db !! o) as [id|] eqn:E; [|done].
    destruct (Hi _ _ E) as (Hn & x & Hx & Ho). simplify_eq.
    by rewrite (eo_id _ _ (He _ _ Hl)).
  - intros o. rewrite bool_decide_eq_true. destruct (outpointIndex db !! o) as [id|] eqn:E.
    + destruct (Hi _ _ E) as (Hn & x & Hx & Ho). rewrite Hx. split; eauto.
    + split; intros [? [=]].
Qed.

(** A validator with the main network's minimum stake, used in the witnesses. *)
Definition wit_entry : ValidatorEntry :=
  mkEntry 7 (2 :: replicate 32 5) 10000000000000 500 10 10 ACTIVE [] (mkOutPoint 9 1) 0 0 0.

Lemma reachable_db_ok_witness :
  let db := (@UpdateStakeOutpoint 7 (mkOutPoint 9 2)
              (RegisterValidator main_params wit_entry ValidatorDB_new).2).2 in
  GetValidatorByOutpoint (mkOutPoint 9 2) db <> None /\
  forall o, IsValidatorStake o db = true <-> is_Some (GetValidatorByOutpoint o db).
Proof.
  intros db. split; [vm_compute; discriminate|].
  apply (@reachable_db_ok toy_crypto main_params db).
  eapply rtc_l; [apply (step_register main_params wit_entry)|].
  eapply rtc_l; [apply (step_outpoint main_params 7 (mkOutPoint 9 2))|]. apply rtc_refl.
Defined.

(** The widths of the C++ members. *)
Record storable (id : N) (e : ValidatorEntry) : Prop := {
  st_key : (id < 2 ^ 160)%N;
  st_id : (validatorId e < 2 ^ 160)%N;
  st_pubkey : valid pubkey_codec (validatorPubKey e);
  st_stake : in_i64 (stakeAmount e);
  st_fee : in_i64 (poolFeeRate e);
  st_reg : in_i32 (registrationHeight e);
  st_last : in_i32 (lastActiveHeight e);
  st_name : valid bytes_codec (validatorName e);
  st_out : outpoint_ok (stakeOutpoint e);
  st_jail : in_i32 (jailReleaseHeight e);
  st_del : in_i64 (totalDelegated e);
  st_count : in_i32 (delegatorCount e)
}.

Lemma storable_valid id e : storable id e -> valid (id_codec 20) id /\ valid entry_codec e.
Proof.
  intros []. split; [by apply id20_valid|]. split; [|by destruct e].
  repeat (split; [first [by apply id20_valid | by apply outpoint_valid | done | by destruct (status e)]|]).
  done.
Qed.

(** A database written to disk and read back has the same validators; the
    outpoint index that is rebuilt is sound, and complete when no two validators
    share a stake outpoint: each validator is found again under its own stake.  The
    height is not stored. *)
Theorem database_survives_reload db db0 rest :
  map_Forall storable (validators db) -> Z.of_nat (size (validators db)) <= MAX_SIZE ->
  exists db', Unserialize (Serialize db ++ rest) db0 = Some (db', rest) /\
    validators db' = validators db /\ currentHeight db' = currentHeight db0 /\
    index_sound stakeOutpoint (validators db') (outpointIndex db') /\
    (outpoints_distinct stakeOutpoint (validators db) ->
     forall id e, GetValidator id db = Some e -> IsNull (stakeOutpoint e) = false ->
       GetValidatorByOutpoint (stakeOutpoint e) db' = Some e).
Proof.
  intros Hst Hsz. unfold Unserialize, Serialize. rewrite roundtrip.
  2: { split; [|done]. intros id e H. apply storable_valid. by apply Hst. }
  cbn [mbind option_bind]. eexists. split; [done|]. cbn [validators currentHeight outpointIndex].
  split_and!; [done|done|apply rebuild_sound|]. intros Hd id e He Hn.
  unfold GetValidatorByOutpoint. cbn [validators outpointIndex].
  rewrite (rebuild_index_complete stakeOutpoint _ id e) by done. exact He.
Qed.

Lemma database_survives_reload_witness :
  exists db', Unserialize (Serialize (mkDB {[7%N := wit_entry]} ∅ 5) ++ [0; 0]) ValidatorDB_new
      = Some (db', [0; 0]) /\
    GetValidatorByOutpoint (mkOutPoint 9 1) db' = Some wit_entry.
Proof.
  destruct (database_survives_reload (mkDB {[7%N := wit_entry]} ∅ 5) ValidatorDB_new [0; 0])
    as (db' & Hu & Hv & _ & _ & Hc).
  - cbn [validators]. apply map_Forall_singleton.
    split; try (unfold in_i64, in_i32, outpoint_ok, in_u32; cbn; lia).
    + right. by exists 2, (replicate 32 5).
    + by vm_compute.
  - by vm_compute.
  - exists db'. split; [exact Hu|]. 
    change (mkOutPoint 9 1) with (stakeOutpoint wit_entry). apply Hc with (id := 7%N); [|done|done].
    cbn [validators]. intros i j a b [<- <-]%lookup_singleton_Some [<- <-]%lookup_singleton_Some. done.
Defined.

(** The two uses of the pool fee, with stake shares [s] and [d] of the reward [R]. *)
Lemma split_with_fee R F s d :
  0 <= s -> 0 <= d -> R - 1 <= s + d <= R -> 0 <= F <= 10000 -> R * 10000 < 2 ^ 63 ->
  let v := i64 (s + Z.quot (i64 (i64 (R - s) * F)) 10000) in
  let r := i64 (d - Z.quot (i64 (d * F)) 10000) in
  0 <= v /\ 0 <= r /\ R - 1 <= v + r <= R.
Proof.
  intros Hs Hd Hsd HF HR. rewrite (i64_id (R - s)) by (unfold in_i64; lia).
  rewrite (i64_id ((R - s) * F)), (i64_id (d * F)) by (unfold in_i64; nia).
  rewrite !Z.quot_div_nonneg by nia.
  assert (d * F / 10000 <= (R - s) * F / 10000 <= d * F / 10000 + 1) as Hm.
  { split; [apply Z.div_le_mono; nia|].
    rewrite <- Z.div_add by lia. apply Z.div_le_mono; nia. }
  assert (0 <= d * F / 10000 <= d) by (split; [apply Z.div_pos|apply Z.div_le_upper_bound]; nia).
  assert (0 <= (R - s) * F / 10000 <= R - s) by (split; [apply Z.div_pos|apply Z.div_le_upper_bound]; nia).
  rewrite !i64_id by (unfold in_i64; lia).
  assert (R - s = d -> (R - s) * F / 10000 = d * F / 10000) by (intros ->; done). cbv zeta. lia.
Qed.

(** The reward split.  Where the products fit in 64 bits (the reward times the
    total stake, and times 10000), the validator's part and the delegators' part are
    not negative and together give the block reward, up to one unit lost to
    rounding: nothing is created, and the pool fee moves value from the delegators'
    part to the validator's. *)
Theorem reward_split e blockReward :
  0 <= blockReward -> 0 <= stakeAmount e -> 0 <= totalDelegated e -> 0 <= poolFeeRate e <= 10000 ->
  0 < stakeAmount e + totalDelegated e < 2 ^ 63 ->
  blockReward * (stakeAmount e + totalDelegated e) < 2 ^ 63 -> blockReward * 10000 < 2 ^ 63 ->
  let v := CalculateValidatorReward e blockReward in
  let d := CalculateDelegatorsReward e blockReward in
  0 <= v /\ 0 <= d /\ blockReward - 1 <= v + d <= blockReward.
Proof.
  intros HR HS HD HF HT HRT HRF. unfold CalculateValidatorReward, CalculateDelegatorsReward, GetTotalStake.
  destruct (Z.eqb_spec (totalDelegated e) 0) as [E|E]; [lia|].
  set (S := stakeAmount e) in *. set (D := totalDelegated e) in *. set (F := poolFeeRate e) in *.
  rewrite (i64_id (S + D)) by (unfold in_i64; lia). destruct (Z.eqb_spec (S + D) 0); [lia|].
  rewrite (i64_id (blockReward * S)), (i64_id (blockReward * D)) by (unfold in_i64; nia).
  rewrite !(Z.quot_div_nonneg _ (S + D)) by nia.
  set (s := blockReward * S / (S + D)). set (d := blockReward * D / (S + D)).
  assert (0 <= s /\ 0 <= d /\ blockReward - 1 <= s + d <= blockReward) as (Hs & Hd & Hsd).
  { unfold s, d. pose proof (Z.div_mod (blockReward * S) (S + D)).
    pose proof (Z.div_mod (blockReward * D) (S + D)).
    pose proof (Z.mod_pos_bound (blockReward * S) (S + D)).
    pose proof (Z.mod_pos_bound (blockReward * D) (S + D)).
    split_and!; [apply Z.div_pos; nia|apply Z.div_pos; nia|nia|nia]. }
  apply split_with_fee; lia.
Qed.

Lemma reward_split_witness :
  let e := mkEntry 7 [] 900000 1000 0 0 ACTIVE [] COutPoint_null 0 100000 1 in
  CalculateValidatorReward e 8333333 = 7583332 /\ CalculateDelegatorsReward e 8333333 = 750000 /\
  8333333 - 1 <= CalculateValidatorReward e 8333333 + CalculateDelegatorsReward e 8333333 <= 8333333.
Proof.
  intros e. split; [by vm_compute|]. split; [by vm_compute|].
  apply (reward_split e 8333333); cbn; lia.
Defined.

(** On the main network's amounts the split overflows.  Every validator with
    exactly the minimum stake (100000 WATTx), some delegation up to its own stake and
    a pool fee of at most 5% has a negative reward for a block of the initial subsidy:
    the product of reward and stake exceeds 64 bits. *)
Theorem minimum_stake_reward_negative e :
  stakeAmount e = nMinValidatorStake main_params -> 0 < totalDelegated e <= stakeAmount e ->
  0 <= poolFeeRate e <= 500 ->
  CalculateValidatorReward e (GetBlockSubsidy 1 main_params) < 0.
Proof.
  intros HS HD HF. replace (GetBlockSubsidy 1 main_params) with 8333333 by (by vm_compute).
  change (nMinValidatorStake main_params) with 10000000000000 in HS.
  unfold CalculateValidatorReward, GetTotalStake. rewrite HS in *.
  destruct (Z.eqb_spec (totalDelegated e) 0); [lia|].
  rewrite (i64_id (10000000000000 + totalDelegated e)) by (unfold in_i64; lia).
  destruct (Z.eqb_spec (10000000000000 + totalDelegated e) 0); [lia|]. cbv zeta.
  replace (i64 (8333333 * 10000000000000)) with (Z.opp 8900390368547758080) by (by vm_compute).
  rewrite Z.quot_opp_l by lia. rewrite Z.quot_div_nonneg by lia.
  set (q := 8900390368547758080 / (10000000000000 + totalDelegated e)).
  assert (445019 <= q <= 890039) as Hq.
  { unfold q. split; [apply Z.div_le_lower_bound|apply Z.lt_succ_r, Z.div_lt_upper_bound]; lia. }
  rewrite (i64_id (8333333 - - q)) by (unfold in_i64; lia).
  rewrite (i64_id (_ * poolFeeRate e)) by (unfold in_i64; nia).
  rewrite Z.quot_div_nonneg by nia.
  assert (0 <= (8333333 - - q) * poolFeeRate e / 10000 < q).
  { split; [apply Z.div_pos; nia|apply Z.div_lt_upper_bound; nia]. }
  rewrite i64_id by (unfold in_i64; lia). lia.
Qed.

Lemma minimum_stake_reward_negative_witness :
  CalculateValidatorReward
    (mkEntry 7 [] 10000000000000 500 0 0 ACTIVE [] COutPoint_null 0 100000000000 1)
    (GetBlockSubsidy 1 main_params) < 0.
Proof. apply minimum_stake_reward_negative; [by vm_compute|cbn; lia|cbn; lia]. Defined.

(** ** Jail *)

Lemma signed_update_applies `{HC : CryptoLaws} p k u u' e e' db :
  Update_Sign k u = Some u' -> validators db !! upd_validatorId u = Some e ->
  validatorPubKey e = GetPubKey k -> apply_update p (currentHeight db) u e = Some e' ->
  ProcessUpdate p u' db = (true, set_entry (upd_validatorId u) e' db).
Proof.
  unfold Update_Sign. intros Hs He Hpk Ha. destruct (SignHash k _) as [sig|] eqn:E; [|done].
  injection Hs as <-. unfold ProcessUpdate. cbn [upd_validatorId]. rewrite He.
  unfold Update_Verify. cbn [upd_signature].
  change (Update_GetHash (mkUpdate _ _ _ _ _ sig)) with (Update_GetHash u).
  rewrite Hpk, (sign_verify k _ _ E). cbn [negb].
  change (apply_update p (currentHeight db) (mkUpdate _ _ _ _ _ sig) e)
    with (apply_update p (currentHeight db) u e). by rewrite Ha.
Qed.

(** A jailed validator leaves jail early.  Until the release height neither
    [UnjailValidator] nor a REACTIVATE update frees a jailed validator; but the
    validator can sign a DEACTIVATE update, which overwrites the jailed status, let
    one block complete the unbonding (counted from its last activation, which may be
    long past), and REACTIVATE: it is active again, whatever its release height. *)
Theorem jail_escape `{HC : CryptoLaws} p db id e k h nv nm uh u1 u2 :
  validators db !! id = Some e -> status e = JAILED -> validatorPubKey e = GetPubKey k ->
  UNBONDING_PERIOD <= i32 (h - lastActiveHeight e) -> currentHeight db < jailReleaseHeight e ->
  Update_Sign k (mkUpdate id DEACTIVATE nv nm uh []) = Some u1 ->
  Update_Sign k (mkUpdate id REACTIVATE nv nm uh []) = Some u2 ->
  (UnjailValidator id db = (false, db) /\ ProcessUpdate p u2 db = (false, db)) /\
  exists e', validators (ProcessUpdate p u2 (ProcessBlock h (ProcessUpdate p u1 db).2)).2 !! id = Some e' /\
    status e' = ACTIVE /\ jailReleaseHeight e' = jailReleaseHeight e.
Proof.
  intros He Hst Hpk Hh Hj H1 H2. split; [split|].
  - unfold UnjailValidator. rewrite He, Hst, bool_decide_eq_true_2 by done. cbn [negb].
    destruct (Z.ltb_spec (currentHeight db) (jailReleaseHeight e)); [done|lia].
  - unfold Update_Sign in H2. destruct (SignHash k _) as [sig|] eqn:E; [|done]. injection H2 as <-.
    unfold ProcessUpdate. cbn [upd_validatorId]. rewrite He. case_if; [done|].
    unfold apply_update. cbn [updateType]. rewrite Hst, bool_decide_eq_true_2 by done.
    destruct (Z.ltb_spec (currentHeight db) (jailReleaseHeight e)); [done|lia].
  - rewrite (signed_update_applies p k _ _ e (set_status UNBONDING e) db H1 He Hpk eq_refl).
    cbn [upd_validatorId snd].
    assert (process_entry h (set_status UNBONDING e) = set_status INACTIVE e) as Hp.
    { unfold process_entry. cbn [set_status status lastActiveHeight].
      destruct (Z.leb_spec UNBONDING_PERIOD (i32 (h - lastActiveHeight e))); [done|lia]. }
    erewrite (signed_update_applies p k _ _ (set_status INACTIVE e) (set_status ACTIVE e) _ H2);
      [|..|reflexivity]; cbn [set_entry ProcessBlock validators upd_validatorId snd].
    + rewrite lookup_insert_eq. by eexists.
    + by rewrite lookup_fmap, lookup_insert_eq, <- Hp.
    + done.
Qed.

Lemma jail_escape_witness :
  let e := mkEntry 7 [3] 10000000000000 500 10 10 JAILED [] COutPoint_null 400000 0 0 in
  let db := mkDB {[7%N := e]} ∅ 300000 in
  exists u1 u2 e',
    validators (@ProcessUpdate toy_crypto main_params u2
       (ProcessBlock 300001 (@ProcessUpdate toy_crypto main_params u1 db).2)).2 !! 7%N = Some e' /\
    status e' = ACTIVE.
Proof.
  intros e db.
  destruct (@Update_Sign toy_crypto 3 (mkUpdate 7 DEACTIVATE 0 [] 0 [])) as [u1|] eqn:E1; [|done].
  destruct (@Update_Sign toy_crypto 3 (mkUpdate 7 REACTIVATE 0 [] 0 [])) as [u2|] eqn:E2; [|done].
  exists u1, u2.
  destruct (jail_escape (C := toy_crypto) main_params db 7 e 3 300001 0 [] 0 u1 u2
    eq_refl eq_refl eq_refl ltac:(by vm_compute) ltac:(by vm_compute) E1 E2) as (_ & e' & He' & Ha & _).
  by exists e'.
Defined.
