(* ===== verification/Delegation.v ===== *)
(** * The delegation database (validators/delegation.h, delegation.cpp)

    Delegations to validators, their indexes by delegator, validator and outpoint,
    and the operations that also change the global validator database.  Operations
    run in the lock monad of the prelude over both databases: each takes
    cs_delegations, and calls into the validator database take cs_validators. *)

From stdpp Require Import gmap strings list sorting.
From Stdlib Require Import ZArith Lia.
From S2P Require Import Prelude Params Serialize Crypto OutPoint ValidatorDB.

Open Scope Z_scope.

(** ** Entries *)

Inductive DelegationStatus := PENDING | ACTIVE | UNBONDING | WITHDRAWN.

#[export] Instance DelegationStatus_eq : EqDecision DelegationStatus.
Proof. solve_decision. Defined.

Definition DelegationStatus_code (s : DelegationStatus) : Z :=
  match s with PENDING => 0 | ACTIVE => 1 | UNBONDING => 2 | WITHDRAWN => 3 end.

(** As for validators, bytes without a name are read as the last status. *)
Definition DelegationStatus_of (z : Z) : DelegationStatus :=
  if z =? 0 then PENDING else if z =? 1 then ACTIVE else if z =? 2 then UNBONDING else WITHDRAWN.

Definition DelegationStatusToString (s : DelegationStatus) : string :=
  match s with
  | PENDING => "pending"
  | ACTIVE => "active"
  | UNBONDING => "unbonding"
  | WITHDRAWN => "withdrawn"
  end.

Definition MIN_DELEGATION_AMOUNT : Z := 1000 * 100000000.
Definition DELEGATION_MATURITY : Z := 500.
Definition DELEGATION_UNBONDING_PERIOD : Z := 259200.

Record DelegationEntry := mkDelegation {
  delegatorId : N;
  validatorId : N;
  amount : Z;
  delegationHeight : Z;
  lastRewardHeight : Z;
  status : DelegationStatus;
  delegationOutpoint : COutPoint;
  unbondingStartHeight : Z;
  pendingRewards : Z
}.

Definition IsActive (e : DelegationEntry) : bool := bool_decide (status e = ACTIVE).

Definition entry_codec : codec DelegationEntry :=
  class_codec
    (fun e => (delegatorId e, (validatorId e, (amount e, (delegationHeight e, (lastRewardHeight e,
       (status e, (delegationOutpoint e, (unbondingStartHeight e, pendingRewards e)))))))))
    (fun '(a, (b, (c, (d, (e, (f, (g, (h, i)))))))) => mkDelegation a b c d e f g h i)
    (pair_codec (id_codec 20) (pair_codec (id_codec 20) (pair_codec i64_codec (pair_codec i32_codec
       (pair_codec i32_codec (pair_codec (enum_codec DelegationStatus_code DelegationStatus_of)
       (pair_codec outpoint_codec (pair_codec i32_codec i64_codec)))))))).

(** Record updates used below. *)
Definition set_status (s : DelegationStatus) (e : DelegationEntry) : DelegationEntry :=
  mkDelegation (delegatorId e) (validatorId e) (amount e) (delegationHeight e) (lastRewardHeight e)
    s (delegationOutpoint e) (unbondingStartHeight e) (pendingRewards e).
Definition set_unbonding (h : Z) (e : DelegationEntry) : DelegationEntry :=
  mkDelegation (delegatorId e) (validatorId e) (amount e) (delegationHeight e) (lastRewardHeight e)
    UNBONDING (delegationOutpoint e) h (pendingRewards e).
Definition set_rewards (r : Z) (e : DelegationEntry) : DelegationEntry :=
  mkDelegation (delegatorId e) (validatorId e) (amount e) (delegationHeight e) (lastRewardHeight e)
    (status e) (delegationOutpoint e) (unbondingStartHeight e) r.
Definition set_claimed (h : Z) (e : DelegationEntry) : DelegationEntry :=
  mkDelegation (delegatorId e) (validatorId e) (amount e) (delegationHeight e) h
    (status e) (delegationOutpoint e) (unbondingStartHeight e) 0.
Definition set_outpoint (o : COutPoint) (e : DelegationEntry) : DelegationEntry :=
  mkDelegation (delegatorId e) (validatorId e) (amount e) (delegationHeight e) (lastRewardHeight e)
    (status e) o (unbondingStartHeight e) (pendingRewards e).

(** ** Requests *)

Record DelegationRequest := mkDelegationRequest {
  dr_delegatorId : N;
  dr_delegatorPubKey : list Z;
  dr_validatorId : N;
  dr_amount : Z;
  dr_height : Z;
  dr_signature : list Z
}.

Record UndelegationRequest := mkUndelegationRequest {
  ur_delegatorId : N;
  ur_validatorId : N;
  ur_amount : Z;
  ur_height : Z;
  ur_signature : list Z
}.

Record RewardClaimRequest := mkRewardClaimRequest {
  rc_delegatorId : N;
  rc_validatorId : N;
  rc_height : Z;
  rc_signature : list Z
}.

(** ** The database *)

Record DelegationDB := mkDelegationDB {
  delegations : gmap N DelegationEntry;
  delegatorIndex : gmap N (list N);
  validatorIndex : gmap N (list N);
  outpointIndex : gmap COutPoint N;
  currentHeight : Z
}.

Definition DelegationDB_new : DelegationDB := mkDelegationDB ∅ ∅ ∅ ∅ 0.

(** [index[k].push_back(d)] *)
Definition index_push (k d : N) (idx : gmap N (list N)) : gmap N (list N) :=
  <[k := default [] (idx !! k) ++ [d]]> idx.

Definition set_delegation (d : N) (e : DelegationEntry) (db : DelegationDB) : DelegationDB :=
  mkDelegationDB (<[d := e]> (delegations db)) (delegatorIndex db) (validatorIndex db)
    (outpointIndex db) (currentHeight db).

(** Both global databases; [g_validator_db] may be null. *)
Record world := mkWorld {
  g_validator_db : option ValidatorDB;
  g_delegation_db : DelegationDB
}.

Abbreviation D := (locked world).

Definition get_db : D DelegationDB := w ← get_state; mret (g_delegation_db w).
Definition put_db (db : DelegationDB) : D () :=
  w ← get_state; put_state (mkWorld (g_validator_db w) db).

(** [if (g_validator_db) g_validator_db->f(..)] *)
Definition vdb_call {A} (f : ValidatorDB -> A * ValidatorDB) : D (option A) :=
  w ← get_state;
  match g_validator_db w with
  | None => mret None
  | Some db =>
      LOCK cs_validators (
        let '(a, db) := f db in
        _ ← put_state (mkWorld (Some db) (g_delegation_db w));
        mret (Some a))
  end.

Section Delegation_.
Context {C : Crypto}.

Definition GetDelegationId (e : DelegationEntry) : N :=
  Hash256 (id_bytes 20 (delegatorId e) ++ id_bytes 20 (validatorId e) ++
           ser_writedata32 (delegationHeight e)).

Definition Delegation_GetHash (r : DelegationRequest) : N :=
  Hash256 (id_bytes 20 (dr_delegatorId r) ++ pubkey_bytes (dr_delegatorPubKey r) ++
           id_bytes 20 (dr_validatorId r) ++ ser_writedata64 (dr_amount r) ++
           ser_writedata32 (dr_height r)).

Definition Delegation_Sign (k : CKey) (r : DelegationRequest) : option DelegationRequest :=
  sig ← SignHash k (Delegation_GetHash r);
  Some (mkDelegationRequest (dr_delegatorId r) (dr_delegatorPubKey r) (dr_validatorId r)
          (dr_amount r) (dr_height r) sig).

Definition Delegation_Verify (r : DelegationRequest) : bool :=
  VerifyHash (dr_delegatorPubKey r) (Delegation_GetHash r) (dr_signature r).

Definition Undelegation_GetHash (r : UndelegationRequest) : N :=
  Hash256 (id_bytes 20 (ur_delegatorId r) ++ id_bytes 20 (ur_validatorId r) ++
           ser_writedata64 (ur_amount r) ++ ser_writedata32 (ur_height r)).

Definition Undelegation_Sign (k : CKey) (r : UndelegationRequest) : option UndelegationRequest :=
  sig ← SignHash k (Undelegation_GetHash r);
  Some (mkUndelegationRequest (ur_delegatorId r) (ur_validatorId r) (ur_amount r) (ur_height r) sig).

Definition Undelegation_Verify (pubkey : list Z) (r : UndelegationRequest) : bool :=
  VerifyHash pubkey (Undelegation_GetHash r) (ur_signature r).

Definition RewardClaim_GetHash (r : RewardClaimRequest) : N :=
  Hash256 (id_bytes 20 (rc_delegatorId r) ++ id_bytes 20 (rc_validatorId r) ++
           ser_writedata32 (rc_height r)).

Definition RewardClaim_Sign (k : CKey) (r : RewardClaimRequest) : option RewardClaimRequest :=
  sig ← SignHash k (RewardClaim_GetHash r);
  Some (mkRewardClaimRequest (rc_delegatorId r) (rc_validatorId r) (rc_height r) sig).

Definition RewardClaim_Verify (pubkey : list Z) (r : RewardClaimRequest) : bool :=
  VerifyHash pubkey (RewardClaim_GetHash r) (rc_signature r).

(** The entry a request creates. *)
Definition new_delegation (r : DelegationRequest) (outpoint : COutPoint) : DelegationEntry :=
  mkDelegation (dr_delegatorId r) (dr_validatorId r) (dr_amount r) (dr_height r) (dr_height r)
    PENDING outpoint 0 0.

Definition add_delegation (d : N) (e : DelegationEntry) (db : DelegationDB) : DelegationDB :=
  mkDelegationDB (<[d := e]> (delegations db))
    (index_push (delegatorId e) d (delegatorIndex db))
    (index_push (validatorId e) d (validatorIndex db))
    (index_outpoint (delegationOutpoint e) d (outpointIndex db))
    (currentHeight db).

(** The validator checks: no database, or a known validator that is active. *)
Definition validator_accepts (v : option (option ValidatorEntry)) : bool :=
  match v with
  | None => true
  | Some None => false
  | Some (Some v) => bool_decide (ValidatorDB.status v = ValidatorDB.ACTIVE)
  end.

Definition ProcessDelegation (r : DelegationRequest) (outpoint : COutPoint) : D bool :=
  LOCK cs_delegations (
    if negb (Delegation_Verify r) then mret false
    else if dr_amount r <? MIN_DELEGATION_AMOUNT then mret false
    else
      v ← vdb_call (fun db => (GetValidator (dr_validatorId r) db, db));
      if negb (validator_accepts v) then mret false
      else
        db ← get_db;
        let entry := new_delegation r outpoint in
        let delegationId := GetDelegationId entry in
        if bool_decide (is_Some (delegations db !! delegationId)) then mret false
        else
          _ ← put_db (add_delegation delegationId entry db);
          _ ← vdb_call (AddDelegation (dr_validatorId r) (dr_amount r));
          mret true).

(** The loop over the delegator's delegations. *)
Fixpoint undelegate_loop (r : UndelegationRequest) (ids : list N)
    (remainingToUndelegate : Z) (anyUndelegated : bool) : D bool :=
  match ids with
  | [] => mret anyUndelegated
  | d :: ids =>
      db ← get_db;
      match delegations db !! d with
      | None => undelegate_loop r ids remainingToUndelegate anyUndelegated
      | Some e =>
          if negb (validatorId e =? ur_validatorId r)%N
          then undelegate_loop r ids remainingToUndelegate anyUndelegated
          else if negb (bool_decide (status e = ACTIVE))
          then undelegate_loop r ids remainingToUndelegate anyUndelegated
          else
            let '(toUndelegate, remainingToUndelegate) :=
              if ur_amount r =? 0 then (amount e, remainingToUndelegate)
              else if amount e <=? remainingToUndelegate
              then (amount e, i64 (remainingToUndelegate - amount e))
              else (remainingToUndelegate, 0) in
            _ ← put_db (set_delegation d (set_unbonding (currentHeight db) e) db);
            _ ← vdb_call (RemoveDelegation (ur_validatorId r) toUndelegate);
            if remainingToUndelegate =? 0 then mret true
            else undelegate_loop r ids remainingToUndelegate true
      end
  end.

Definition ProcessUndelegation (r : UndelegationRequest) : D bool :=
  LOCK cs_delegations (
    db ← get_db;
    match delegatorIndex db !! ur_delegatorId r with
    | None => mret false
    | Some ids => undelegate_loop r ids (ur_amount r) false
    end).
End Delegation_.

(** The loop of the reward claim: entries of the delegator, one by one. *)
Fixpoint claim_loop (r : RewardClaimRequest) (ids : list N) (totalClaimed : Z) (db : DelegationDB) :
    Z * DelegationDB :=
  match ids with
  | [] => (totalClaimed, db)
  | d :: ids =>
      match delegations db !! d with
      | None => claim_loop r ids totalClaimed db
      | Some e =>
          if negb (rc_validatorId r =? 0)%N && negb (validatorId e =? rc_validatorId r)%N
          then claim_loop r ids totalClaimed db
          else if 0 <? pendingRewards e
          then claim_loop r ids (i64 (totalClaimed + pendingRewards e))
                 (set_delegation d (set_claimed (currentHeight db) e) db)
          else claim_loop r ids totalClaimed db
      end
  end.

Definition ProcessRewardClaim (r : RewardClaimRequest) : D Z :=
  LOCK cs_delegations (
    db ← get_db;
    match delegatorIndex db !! rc_delegatorId r with
    | None => mret 0
    | Some ids =>
        let '(totalClaimed, db) := claim_loop r ids 0 db in
        _ ← put_db db;
        mret totalClaimed
    end).

Definition GetDelegation (d : N) : D (option DelegationEntry) :=
  LOCK cs_delegations (db ← get_db; mret (delegations db !! d)).

Definition GetDelegationByOutpoint (o : COutPoint) : D (option DelegationEntry) :=
  LOCK cs_delegations (
    db ← get_db;
    mret (match outpointIndex db !! o with None => None | Some d => delegations db !! d end)).

(** The entries an index lists for a key, those not in the database skipped. *)
Definition listed (idx : gmap N (list N)) (k : N) (db : DelegationDB) : list DelegationEntry :=
  omap (fun d => delegations db !! d) (default [] (idx !! k)).

Definition GetDelegationsForDelegator (id : N) : D (list DelegationEntry) :=
  LOCK cs_delegations (db ← get_db; mret (listed (delegatorIndex db) id db)).

Definition GetDelegationsForValidator (id : N) : D (list DelegationEntry) :=
  LOCK cs_delegations (db ← get_db; mret (listed (validatorIndex db) id db)).

Definition GetTotalDelegationForValidator (id : N) : D Z :=
  LOCK cs_delegations (
    db ← get_db;
    mret (foldl (fun total e => if IsActive e then i64 (total + amount e) else total) 0
            (listed (validatorIndex db) id db))).

Definition GetPendingRewardsForDelegator (id : N) : D Z :=
  LOCK cs_delegations (
    db ← get_db;
    mret (foldl (fun total e => i64 (total + pendingRewards e)) 0 (listed (delegatorIndex db) id db))).

Definition AddRewards (d : N) (rewards : Z) : D bool :=
  LOCK cs_delegations (
    db ← get_db;
    match delegations db !! d with
    | None => mret false
    | Some e => _ ← put_db (set_delegation d (set_rewards (i64 (pendingRewards e + rewards)) e) db); mret true
    end).

(** The loop of the distribution: each active delegation gets its share. *)
Fixpoint distribute_loop (delegatorsShare totalDelegation : Z) (ids : list N) (db : DelegationDB) :
    DelegationDB :=
  match ids with
  | [] => db
  | d :: ids =>
      match delegations db !! d with
      | None => distribute_loop delegatorsShare totalDelegation ids db
      | Some e =>
          if negb (IsActive e) then distribute_loop delegatorsShare totalDelegation ids db
          else
            let share := Z.quot (i64 (delegatorsShare * amount e)) totalDelegation in
            distribute_loop delegatorsShare totalDelegation ids
              (if 0 <? share then set_delegation d (set_rewards (i64 (pendingRewards e + share)) e) db
               else db)
      end
  end.

Definition DistributeBlockReward (id : N) (delegatorsShare : Z) : D bool :=
  LOCK cs_delegations (
    if delegatorsShare =? 0 then mret true
    else
      totalDelegation ← GetTotalDelegationForValidator id;
      if totalDelegation =? 0 then mret true
      else
        db ← get_db;
        match validatorIndex db !! id with
        | None => mret true
        | Some ids => _ ← put_db (distribute_loop delegatorsShare totalDelegation ids db); mret true
        end).

Definition SetDelegationStatus (d : N) (s : DelegationStatus) : D bool :=
  LOCK cs_delegations (
    db ← get_db;
    match delegations db !! d with
    | None => mret false
    | Some e => _ ← put_db (set_delegation d (set_status s e) db); mret true
    end).

Definition IsDelegation (o : COutPoint) : D bool :=
  LOCK cs_delegations (db ← get_db; mret (bool_decide (is_Some (outpointIndex db !! o)))).

Definition move_delegation (d : N) (e : DelegationEntry) (o : COutPoint) (db : DelegationDB) : DelegationDB :=
  mkDelegationDB (<[d := set_outpoint o e]> (delegations db)) (delegatorIndex db) (validatorIndex db)
    (index_outpoint o d (unindex_outpoint (delegationOutpoint e) (outpointIndex db)))
    (currentHeight db).

Definition UpdateDelegationOutpoint (d : N) (newOutpoint : COutPoint) : D bool :=
  LOCK cs_delegations (
    db ← get_db;
    match delegations db !! d with
    | None => mret false
    | Some e => _ ← put_db (move_delegation d e newOutpoint db); mret true
    end).

(** [SetHeight] takes no lock. *)
Definition SetHeight (height : Z) : D () :=
  db ← get_db;
  put_db (mkDelegationDB (delegations db) (delegatorIndex db) (validatorIndex db) (outpointIndex db) height).

(** Both tests in turn, the second on the result of the first. *)
Definition process_entry (height : Z) (e : DelegationEntry) : DelegationEntry :=
  let e := if bool_decide (status e = PENDING) && (DELEGATION_MATURITY <=? i32 (height - delegationHeight e))
           then set_status ACTIVE e else e in
  if bool_decide (status e = UNBONDING) &&
     (DELEGATION_UNBONDING_PERIOD <=? i32 (height - unbondingStartHeight e))
  then set_status WITHDRAWN e else e.

Definition ProcessBlock (height : Z) : D () :=
  LOCK cs_delegations (
    db ← get_db;
    put_db (mkDelegationDB (process_entry height <$> delegations db) (delegatorIndex db)
              (validatorIndex db) (outpointIndex db) height)).

Definition GetActiveDelegationCount : D nat :=
  LOCK cs_delegations (
    db ← get_db; mret (size (filter (fun x => IsActive x.2 = true) (delegations db)))).

Definition GetDelegatorCountForValidator (id : N) : D nat :=
  LOCK cs_delegations (
    db ← get_db;
    mret (size (list_to_set (delegatorId <$> filter (fun e => IsActive e = true)
                                (listed (validatorIndex db) id db)) : gset N))).

Definition delegations_codec : codec (gmap N DelegationEntry) := map_codec (id_codec 32) entry_codec.

Definition Serialize : D stream :=
  LOCK cs_delegations (db ← get_db; mret (enc delegations_codec (delegations db))).

(** The rebuilt indexes list ids in key order. *)
Definition rebuild_lists (key : DelegationEntry -> N) (ds : gmap N DelegationEntry) : gmap N (list N) :=
  foldl (fun idx '(d, e) => index_push (key e) d idx) ∅ (in_order ds).

(** [None]: the stream operator throws; what it leaves in the database then is not
    described. *)
Definition Unserialize (s : stream) (db : DelegationDB) : option (DelegationDB * stream) :=
  '(ds, s) ← dec delegations_codec s;
  Some (mkDelegationDB ds (rebuild_lists delegatorId ds) (rebuild_lists validatorId ds)
          (rebuild_index delegationOutpoint ds) (currentHeight db), s).

(** ** The two databases as a state machine *)

Inductive op :=
  | OpDelegate (r : DelegationRequest) (o : COutPoint)
  | OpUndelegate (r : UndelegationRequest)
  | OpClaim (r : RewardClaimRequest)
  | OpAddRewards (d : N) (rewards : Z)
  | OpDistribute (id : N) (share : Z)
  | OpSetStatus (d : N) (s : DelegationStatus)
  | OpMove (d : N) (o : COutPoint)
  | OpSetHeight (h : Z)
  | OpBlock (h : Z).

Definition run `{Crypto} (o : op) : D () :=
  match o with
  | OpDelegate r o => _ ← ProcessDelegation r o; mret ()
  | OpUndelegate r => _ ← ProcessUndelegation r; mret ()
  | OpClaim r => _ ← ProcessRewardClaim r; mret ()
  | OpAddRewards d z => _ ← AddRewards d z; mret ()
  | OpDistribute id z => _ ← DistributeBlockReward id z; mret ()
  | OpSetStatus d s => _ ← SetDelegationStatus d s; mret ()
  | OpMove d o => _ ← UpdateDelegationOutpoint d o; mret ()
  | OpSetHeight h => SetHeight h
  | OpBlock h => ProcessBlock h
  end.

(** A step of the pair of databases: an operation of this one allowed by [ok], run by
    a thread that holds no mutex, or an operation of the validator database that
    keeps [vok]. *)
Inductive step `{Crypto} (ok : world -> op -> Prop) (vok : ValidatorDB -> ValidatorDB -> Prop) :
    world -> world -> Prop :=
  | step_op w o w' : ok w o -> run o [] w = Done () w' -> step ok vok w w'
  | step_vdb w db db' :
      g_validator_db w = Some db -> vok db db' ->
      step ok vok w (mkWorld (Some db') (g_delegation_db w)).

Definition steps `{Crypto} ok vok : world -> world -> Prop := rtc (step ok vok).

(** ** Running operations *)

Lemma vdb_call_bind {A B} (f : ValidatorDB -> A * ValidatorDB) (k : option A -> D B) w :
  (x ← vdb_call f; k x) [cs_delegations] w =
  k (fst ∘ f <$> g_validator_db w) [cs_delegations] (mkWorld (snd ∘ f <$> g_validator_db w) (g_delegation_db w)).
Proof.
  unfold vdb_call, mbind, locked_bind, get_state. destruct w as [[db|] ddb]; cbn; [|done].
  unfold LOCK. rewrite bool_decide_eq_false_2 by set_solver. by destruct (f db).
Qed.

Lemma get_db_bind {A} (k : DelegationDB -> D A) held w :
  (x ← get_db; k x) held w = k (g_delegation_db w) held w.
Proof. done. Qed.

Lemma put_db_bind {A} db (k : () -> D A) held w :
  (x ← put_db db; k x) held w = k () held (mkWorld (g_validator_db w) db).
Proof. done. Qed.

Lemma done_bind {A B} (m : D A) (k : A -> D B) held w a w' :
  m held w = Done a w' -> (x ← m; k x) held w = k a held w'.
Proof. unfold mbind, locked_bind. by intros ->. Qed.

Lemma lock_free {A} cs (body : D A) w : LOCK cs body [] w = body [cs] w.
Proof. unfold LOCK. by rewrite bool_decide_eq_false_2 by set_solver. Qed.

(** ** The invariant *)

(** An index by [key] lists, for each key, exactly the ids of the entries with that
    key, each once. *)
Definition lists_exact (key : DelegationEntry -> N) (ds : gmap N DelegationEntry)
    (idx : gmap N (list N)) : Prop :=
  forall k, NoDup (default [] (idx !! k)) /\
    forall d, d ∈ default [] (idx !! k) <-> exists e, ds !! d = Some e /\ key e = k.

Lemma exact_empty key : lists_exact key ∅ ∅.
Proof.
  intros k. rewrite lookup_empty. cbn. split; [constructor|]. intros d. rewrite lookup_empty. set_solver.
Qed.

Lemma exact_new key ds idx d e :
  lists_exact key ds idx -> ds !! d = None -> lists_exact key (<[d := e]> ds) (index_push (key e) d idx).
Proof.
  intros Hx Hd k. destruct (Hx k) as [Hnd Hel]. unfold index_push.
  destruct (decide (key e = k)) as [<-|Hne].
  - rewrite lookup_insert_eq. cbn. split.
    + apply NoDup_app. split_and!; [done| |apply NoDup_singleton].
      intros x Hx1 ->%list_elem_of_singleton. apply Hel in Hx1 as (y & Hy & _). congruence.
    + intros x. rewrite elem_of_app, list_elem_of_singleton, Hel. split.
      * intros [(y & Hy & Hk)| ->]; [|by exists e; rewrite lookup_insert_eq].
        exists y. rewrite lookup_insert_ne by congruence. done.
      * intros (y & Hy & Hk). destruct (decide (x = d)) as [->|]; [by right|].
        rewrite lookup_insert_ne in Hy by done. left. eauto.
  - rewrite lookup_insert_ne by done. split; [done|]. intros x. rewrite Hel.
    split; intros (y & Hy & Hk).
    + exists y. rewrite lookup_insert_ne by congruence. done.
    + destruct (decide (x = d)) as [->|]; [rewrite lookup_insert_eq in Hy; congruence|].
      rewrite lookup_insert_ne in Hy by done. eauto.
Qed.

Lemma exact_update key ds idx d e e' :
  lists_exact key ds idx -> ds !! d = Some e -> key e' = key e -> lists_exact key (<[d := e']> ds) idx.
Proof.
  intros Hx Hd He k. destruct (Hx k) as [Hnd Hel]. split; [done|]. intros x. rewrite Hel.
  destruct (decide (x = d)) as [->|Hne].
  - rewrite lookup_insert_eq. split; intros (y & Hy & Hk); simplify_eq; eauto.
  - by rewrite lookup_insert_ne.
Qed.

Lemma exact_fmap key ds idx (f : DelegationEntry -> DelegationEntry) :
  lists_exact key ds idx -> (forall e, key (f e) = key e) -> lists_exact key (f <$> ds) idx.
Proof.
  intros Hx Hf k. destruct (Hx k) as [Hnd Hel]. split; [done|]. intros x. rewrite Hel, lookup_fmap.
  destruct (ds !! x) as [y|]; cbn; split; intros (z & Hz & Hk); simplify_eq.
  - exists (f z). by rewrite Hf.
  - exists y. by rewrite <- Hf.
Qed.

(** The terms of a delegation, which no operation changes. *)
Definition same_terms (e e' : DelegationEntry) : Prop :=
  delegatorId e' = delegatorId e /\ validatorId e' = validatorId e /\ amount e' = amount e /\
  delegationHeight e' = delegationHeight e.

Section invariant.
Context `{C : Crypto}.

Record db_ok (db : DelegationDB) : Prop := {
  do_ids : map_Forall (fun d e => d = GetDelegationId e) (delegations db);
  do_amounts : map_Forall (fun _ e => MIN_DELEGATION_AMOUNT <= amount e) (delegations db);
  do_delegators : lists_exact delegatorId (delegations db) (delegatorIndex db);
  do_validators : lists_exact validatorId (delegations db) (validatorIndex db);
  do_outpoints : index_sound delegationOutpoint (delegations db) (outpointIndex db)
}.

Lemma same_terms_id e e' : same_terms e e' -> GetDelegationId e' = GetDelegationId e.
Proof. intros (H1 & H2 & _ & H4). unfold GetDelegationId. by rewrite H1, H2, H4. Qed.

Lemma set_delegation_ok db d e e' :
  db_ok db -> delegations db !! d = Some e -> same_terms e e' ->
  delegationOutpoint e' = delegationOutpoint e -> db_ok (set_delegation d e' db).
Proof.
  intros [Hi Ha Hd Hv Ho] He Ht Hout. pose proof Ht as (T1 & T2 & T3 & _). split; cbn.
  - apply map_Forall_insert_2; [|done]. rewrite (same_terms_id _ _ Ht). by apply Hi.
  - apply map_Forall_insert_2; [|done]. rewrite T3. by apply (Ha d).
  - by eapply exact_update.
  - by eapply exact_update.
  - by eapply sound_update.
Qed.

Lemma move_delegation_ok db d e o :
  db_ok db -> delegations db !! d = Some e -> db_ok (move_delegation d e o db).
Proof.
  intros [Hi Ha Hd Hv Ho] He. split; cbn.
  - apply map_Forall_insert_2; [|done]. exact (Hi d e He).
  - apply map_Forall_insert_2; [|done]. exact (Ha d e He).
  - by eapply exact_update.
  - by eapply exact_update.
  - by apply (sound_move delegationOutpoint _ _ d e (set_outpoint o e)).
Qed.

Lemma add_delegation_ok db e :
  db_ok db -> delegations db !! GetDelegationId e = None -> MIN_DELEGATION_AMOUNT <= amount e ->
  db_ok (add_delegation (GetDelegationId e) e db).
Proof.
  intros [Hi Ha Hd Hv Ho] He Hm. split; cbn.
  - by apply map_Forall_insert_2.
  - by apply map_Forall_insert_2.
  - by apply exact_new.
  - by apply exact_new.
  - by apply sound_new.
Qed.

Lemma process_entry_terms h e :
  same_terms e (process_entry h e) /\ delegationOutpoint (process_entry h e) = delegationOutpoint e.
Proof. unfold process_entry. destruct (_ && _), (_ && _); done. Qed.

Lemma undelegate_loop_ok r : forall ids rem any w,
  db_ok (g_delegation_db w) ->
  exists b w', undelegate_loop r ids rem any [cs_delegations] w = Done b w' /\ db_ok (g_delegation_db w').
Proof.
  induction ids as [|d ids IH]; intros rem any w Hw; cbn [undelegate_loop]; [by exists any, w|].
  rewrite get_db_bind. destruct (delegations (g_delegation_db w) !! d) as [e|] eqn:E; [|by apply IH].
  case_if; [by apply IH|]. case_if; [by apply IH|].
  destruct (if ur_amount r =? 0 then _ else _) as [tou rem'].
  rewrite put_db_bind, vdb_call_bind. cbn [g_delegation_db].
  assert (db_ok (set_delegation d (set_unbonding (currentHeight (g_delegation_db w)) e) (g_delegation_db w)))
    by (by eapply set_delegation_ok).
  destruct (rem' =? 0); [by eexists _, _|]. by apply IH.
Qed.

Lemma claim_loop_ok r : forall ids total db, db_ok db -> db_ok (claim_loop r ids total db).2.
Proof.
  induction ids as [|d ids IH]; intros total db Hdb; cbn [claim_loop]; [done|].
  destruct (delegations db !! d) as [e|] eqn:E; [|by apply IH].
  case_if; [by apply IH|]. case_if; [|by apply IH]. apply IH. by eapply set_delegation_ok.
Qed.

Lemma ProcessDelegation_ok r o w :
  db_ok (g_delegation_db w) ->
  exists b w', ProcessDelegation r o [] w = Done b w' /\ db_ok (g_delegation_db w').
Proof.
  intros Hw. unfold ProcessDelegation. rewrite lock_free.
  case_if; [by eexists _, _|]. case_if; [by eexists _, _|].
  rewrite vdb_call_bind.
  case_if; [by eexists _, _|]. rewrite get_db_bind. cbn [g_delegation_db].
  case_bool_decide as Hd; [by eexists _, _|]. apply eq_None_not_Some in Hd. rewrite put_db_bind.
  rewrite vdb_call_bind.
  eexists _, _. split; [done|]. apply add_delegation_ok; [done|done|]. cbn. lia.
Qed.

Lemma ProcessUndelegation_ok r w :
  db_ok (g_delegation_db w) ->
  exists b w', ProcessUndelegation r [] w = Done b w' /\ db_ok (g_delegation_db w').
Proof.
  intros Hw. unfold ProcessUndelegation. rewrite lock_free, get_db_bind.
  destruct (delegatorIndex _ !! _) as [ids|]; [|by eexists _, _]. by apply undelegate_loop_ok.
Qed.

Lemma ProcessBlock_ok h w :
  db_ok (g_delegation_db w) ->
  exists w', ProcessBlock h [] w = Done () w' /\ db_ok (g_delegation_db w').
Proof.
  intros [Hi Ha Hd Hv Ho]. eexists. split; [unfold ProcessBlock; by rewrite lock_free, get_db_bind|].
  assert (forall e, same_terms e (process_entry h e)) as Ht by apply process_entry_terms.
  split; cbn.
  - intros d e. rewrite lookup_fmap. intros (x & Hx & ->)%fmap_Some.
    rewrite (same_terms_id _ _ (Ht x)). by apply Hi.
  - intros d e. rewrite lookup_fmap. intros (x & Hx & ->)%fmap_Some.
    destruct (Ht x) as (_ & _ & -> & _). by apply (Ha d).
  - apply exact_fmap; [done|]. intros e. apply Ht.
  - apply exact_fmap; [done|]. intros e. apply Ht.
  - apply sound_fmap; [done|]. intros e. apply process_entry_terms.
Qed.

(** Every operation returns and keeps the invariant, distribution excepted. *)
Lemma run_ok o w :
  db_ok (g_delegation_db w) -> (forall id share, o = OpDistribute id share -> share = 0) ->
  exists w', run o [] w = Done () w' /\ db_ok (g_delegation_db w').
Proof.
  intros Hw Ho. destruct o; cbn [run].
  - destruct (ProcessDelegation_ok r o w Hw) as (b & w' & E & H).
    exists w'. by rewrite (done_bind _ _ _ _ _ _ E).
  - destruct (ProcessUndelegation_ok r w Hw) as (b & w' & E & H).
    exists w'. by rewrite (done_bind _ _ _ _ _ _ E).
  - unfold ProcessRewardClaim. unfold mbind at 1, locked_bind at 1. rewrite lock_free, get_db_bind.
    destruct (delegatorIndex _ !! _) as [ids|]; [|by eexists].
    pose proof (claim_loop_ok r ids 0 _ Hw). destruct (claim_loop r ids 0 _). by eexists.
  - unfold AddRewards. unfold mbind at 1, locked_bind at 1. rewrite lock_free, get_db_bind.
    destruct (delegations _ !! _) as [e|] eqn:E; [|by eexists]. eexists. split; [done|].
    by eapply set_delegation_ok.
  - rewrite (Ho id share) by done. by eexists.
  - unfold SetDelegationStatus. unfold mbind at 1, locked_bind at 1. rewrite lock_free, get_db_bind.
    destruct (delegations _ !! _) as [e|] eqn:E; [|by eexists]. eexists. split; [done|].
    by eapply set_delegation_ok.
  - unfold UpdateDelegationOutpoint. unfold mbind at 1, locked_bind at 1. rewrite lock_free, get_db_bind.
    destruct (delegations _ !! _) as [e|] eqn:E; [|by eexists]. eexists. split; [done|].
    by apply move_delegation_ok.
  - eexists. split; [done|]. destruct Hw. by split.
  - by apply ProcessBlock_ok.
Qed.

Lemma distribute_deadlock id share w :
  share <> 0 -> DistributeBlockReward id share [] w = Deadlock.
Proof.
  intros Hs. unfold DistributeBlockReward. rewrite lock_free.
  destruct (Z.eqb_spec share 0); [done|]. unfold mbind at 1, locked_bind at 1.
  unfold GetTotalDelegationForValidator, LOCK. by rewrite bool_decide_eq_true_2 by set_solver.
Qed.

Lemma delegation_step_ok ok vok w w' : step ok vok w w' -> db_ok (g_delegation_db w) -> db_ok (g_delegation_db w').
Proof.
  intros [w0 o w0' _ Hr|w0 db db' _ _] Hw; [|done].
  destruct (run_ok o w0 Hw) as (w1 & E & H); [|congruence].
  intros id share ->. destruct (Z.eq_dec share 0) as [|Hs]; [done|]. cbn [run] in Hr.
  unfold mbind, locked_bind in Hr. by rewrite (distribute_deadlock id share w0 Hs) in Hr.
Qed.

Lemma delegation_steps_ok ok vok w w' : steps ok vok w w' -> db_ok (g_delegation_db w) -> db_ok (g_delegation_db w').
Proof. induction 1; eauto using delegation_step_ok. Qed.

Lemma delegation_new_ok : db_ok DelegationDB_new.
Proof. split; cbn; [apply map_Forall_empty..|apply exact_empty|apply exact_empty|apply sound_empty]. Qed.
End invariant.

(** ** Properties *)

(** Any operation, any change of the validator database. *)
Definition any_op : world -> op -> Prop := fun _ _ => True.
Definition any_vdb : ValidatorDB -> ValidatorDB -> Prop := fun _ _ => True.

(** In every state the databases can reach, every operation returns except
    [DistributeBlockReward] with a share other than 0, which never does: it holds
    cs_delegations and calls [GetTotalDelegationForValidator], which locks the same
    non-recursive mutex.  No delegator is ever paid a block reward. *)
Theorem distribution_alone_deadlocks `{C : Crypto} v w o :
  steps any_op any_vdb (mkWorld v DelegationDB_new) w ->
  (run o [] w = Deadlock <-> exists id share, o = OpDistribute id share /\ share <> 0).
Proof.
  intros Hs. pose proof (delegation_steps_ok _ _ _ _ Hs delegation_new_ok) as Hw. split.
  - intros Hd.
    assert (~ forall id share, o = OpDistribute id share -> share = 0) as Hn.
    { intros H0. destruct (run_ok o w Hw H0) as (w' & E & _). congruence. }
    destruct o as [| | | |id share| | | |]; try (exfalso; apply Hn; discriminate).
    exists id, share. split; [done|]. intros ->. apply Hn. by intros ? ? [= _ <-].
  - intros (id & share & -> & Hne). cbn [run]. unfold mbind, locked_bind.
    by rewrite (distribute_deadlock id share w Hne).
Qed.

(** The delegations of the witnesses: validator 7 is active. *)
Definition wit_vdb : ValidatorDB :=
  ValidatorDB.mkDB {[7%N := mkEntry 7 [3] 10000000000000 500 10 10 ValidatorDB.ACTIVE [] COutPoint_null 0 0 0]}
    ∅ 300000.

Definition wit_request (d : N) (a h : Z) : DelegationRequest :=
  let r := mkDelegationRequest d [5] 7 a h [] in
  default r (@Delegation_Sign toy_crypto 5 r).

Lemma distribution_alone_deadlocks_witness :
  let w := mkWorld (Some wit_vdb) DelegationDB_new in
  @run toy_crypto (OpDistribute 7 1000) [] w = Deadlock /\
  @run toy_crypto (OpDelegate (wit_request 11 200000000000 50) COutPoint_null) [] w <> Deadlock.
Proof.
  intros w. split.
  - apply (distribution_alone_deadlocks (C := toy_crypto) (Some wit_vdb)); [apply rtc_refl|].
    by exists 7%N, 1000.
  - intros Hd.
    apply (distribution_alone_deadlocks (C := toy_crypto) (Some wit_vdb)) in Hd; [|apply rtc_refl].
    by destruct Hd as (id & share & [=] & _).
Defined.

Lemma NoDup_omap_inj {A B} (f : A -> option B) l :
  (forall x y z, f x = Some z -> f y = Some z -> x = y) -> NoDup l -> NoDup (omap f l).
Proof.
  intros Hf. induction 1 as [|x l Hx Hl IH]; cbn; [constructor|].
  destruct (f x) as [z|] eqn:E; [|done]. constructor; [|done].
  intros (y & Hy & Hz)%list_elem_of_omap. by rewrite (Hf x y z E Hz) in Hx.
Qed.

(** Looking up the ids of an exact index gives the entries with the key. *)
Lemma listed_exact `{C : Crypto} key db idx k :
  map_Forall (fun d e => d = GetDelegationId e) (delegations db) ->
  lists_exact key (delegations db) idx ->
  listed idx k db ≡ₚ filter (fun e => key e = k) (map_to_list (delegations db)).*2.
Proof.
  intros Hi Hx. destruct (Hx k) as [Hnd Hel]. unfold listed. apply NoDup_Permutation.
  - apply NoDup_omap_inj; [|done]. intros d d' e Hd Hd'. by rewrite (Hi _ _ Hd), (Hi _ _ Hd').
  - apply NoDup_filter, NoDup_fmap_2_strong; [|apply NoDup_map_to_list].
    intros [d e] [d' e'] Hd%elem_of_map_to_list Hd'%elem_of_map_to_list. cbn. intros <-.
    by rewrite (Hi _ _ Hd), (Hi _ _ Hd').
  - intros e. rewrite list_elem_of_omap, list_elem_of_filter, list_elem_of_fmap. split.
    + intros (d & Hd & He). apply Hel in Hd as (e' & He' & Hk). rewrite He in He'. injection He' as <-.
      split; [done|].
      exists (d, e). split; [done|]. by apply elem_of_map_to_list.
    + intros (Hk & [d e'] & -> & Hd%elem_of_map_to_list). exists d. split; [|done].
      apply Hel. by exists e'.
Qed.

(** Whatever was processed, the indexes agree with the delegations: the entries
    returned for a delegator are that delegator's delegations, each once, and so for a
    validator; an outpoint found in the index belongs to the delegation it leads to;
    every delegation is stored under its id and is of at least the minimum amount. *)
Theorem reachable_delegations_indexed `{C : Crypto} v w :
  steps any_op any_vdb (mkWorld v DelegationDB_new) w ->
  let ds := delegations (g_delegation_db w) in
  (forall k, exists l, GetDelegationsForDelegator k [] w = Done l w /\
     l ≡ₚ filter (fun e => delegatorId e = k) (map_to_list ds).*2) /\
  (forall k, exists l, GetDelegationsForValidator k [] w = Done l w /\
     l ≡ₚ filter (fun e => validatorId e = k) (map_to_list ds).*2) /\
  (forall o e, GetDelegationByOutpoint o [] w = Done (Some e) w -> delegationOutpoint e = o) /\
  map_Forall (fun d e => d = GetDelegationId e /\ MIN_DELEGATION_AMOUNT <= amount e) ds.
Proof.
  intros Hs ds. destruct (delegation_steps_ok _ _ _ _ Hs delegation_new_ok) as [Hi Ha Hd Hv Ho].
  cbn [g_delegation_db] in *. split_and!.
  - intros k. eexists. split; [unfold GetDelegationsForDelegator; by rewrite lock_free, get_db_bind|].
    by apply listed_exact.
  - intros k. eexists. split; [unfold GetDelegationsForValidator; by rewrite lock_free, get_db_bind|].
    by apply listed_exact.
  - intros o e. unfold GetDelegationByOutpoint. rewrite lock_free, get_db_bind.
    intros [= He]. destruct (outpointIndex _ !! o) as [d|] eqn:E; [|done].
    destruct (Ho _ _ E) as (_ & x & Hx & Hout). by simplify_eq.
  - intros d e He. split; [by apply Hi|by apply (Ha d)].
Qed.

Definition wit_world : world :=
  match @ProcessDelegation toy_crypto (wit_request 11 200000000000 50) (mkOutPoint 9 1) []
          (mkWorld (Some wit_vdb) DelegationDB_new) with
  | Done _ w => w
  | Deadlock => mkWorld None DelegationDB_new
  end.

Lemma wit_world_reached :
  @run toy_crypto (OpDelegate (wit_request 11 200000000000 50) (mkOutPoint 9 1)) []
    (mkWorld (Some wit_vdb) DelegationDB_new) = Done () wit_world.
Proof. by vm_compute. Qed.

Lemma reachable_delegations_indexed_witness :
  size (delegations (g_delegation_db wit_world)) = 1%nat /\
  exists l, GetDelegationsForDelegator 11 [] wit_world = Done l wit_world /\
    l ≡ₚ filter (fun e => delegatorId e = 11%N) (map_to_list (delegations (g_delegation_db wit_world))).*2.
Proof.
  split; [by vm_compute|].
  destruct (reachable_delegations_indexed (C := toy_crypto) (Some wit_vdb) wit_world) as [Hd _].
  - eapply rtc_l; [|apply rtc_refl]. by eapply step_op; [|apply wit_world_reached].
  - exact (Hd 11%N).
Defined.

(** ** Reward claims *)

Definition claimed (h : Z) (e : DelegationEntry) : DelegationEntry :=
  if 0 <? pendingRewards e then set_claimed h e else e.

Definition pending_sum (total : Z) (es : list DelegationEntry) : Z :=
  foldl (fun total e => i64 (total + pendingRewards e)) total es.

Lemma omap_lookup_ext (m m' : gmap N DelegationEntry) (ids : list N) :
  (forall d, d ∈ ids -> m !! d = m' !! d) ->
  omap (fun d => m !! d) ids = omap (fun d => m' !! d) ids.
Proof.
  induction ids as [|d ids IH]; intros H; [done|]. cbn. rewrite (H d) by apply list_elem_of_here.
  rewrite IH; [done|]. intros x Hx. apply H. by apply list_elem_of_further.
Qed.

(** A claim of everything: the amounts are added up, and exactly the listed entries
    are reset. *)
Lemma claim_loop_all r : rc_validatorId r = 0%N -> forall (ids : list N) total db,
  NoDup ids -> map_Forall (fun _ e => 0 <= pendingRewards e) (delegations db) -> in_i64 total ->
  let t := (claim_loop r ids total db).1 in
  let db' := (claim_loop r ids total db).2 in
  t = pending_sum total (omap (fun d => delegations db !! d) ids) /\
  delegatorIndex db' = delegatorIndex db /\ currentHeight db' = currentHeight db /\
  (forall d, d ∈ ids -> delegations db' !! d = claimed (currentHeight db) <$> delegations db !! d) /\
  (forall d, d ∉ ids -> delegations db' !! d = delegations db !! d).
Proof.
  intros Hr. induction ids as [|d ids IH]; intros total db Hnd Hp Ht; cbn [claim_loop].
  { split_and!; [done..|intros d; by rewrite elem_of_nil|done]. }
  apply NoDup_cons in Hnd as [Hd Hnd]. rewrite Hr. change (negb (0 =? 0)%N) with false. cbn [andb].
  destruct (delegations db !! d) as [e|] eqn:E; [destruct (Z.ltb_spec 0 (pendingRewards e)) as [Hpos|Hz]|].
  - destruct (IH (i64 (total + pendingRewards e)) (set_delegation d (set_claimed (currentHeight db) e) db))
      as (I1 & I2 & I3 & I4 & I5); [done| |apply i64_range|].
    { apply map_Forall_insert_2; [done|exact Hp]. }
    cbn [set_delegation delegations delegatorIndex currentHeight] in *. split_and!; [|done|done|..].
    + rewrite I1. cbn. rewrite E. cbn. f_equal. apply omap_lookup_ext. intros x Hx.
      by rewrite lookup_insert_ne by congruence.
    + intros x [->|Hx]%elem_of_cons.
      * rewrite I5 by done. rewrite lookup_insert_eq, E. cbn. unfold claimed.
        by destruct (Z.ltb_spec 0 (pendingRewards e)); [|lia].
      * rewrite I4 by done. by rewrite lookup_insert_ne by congruence.
    + intros x [Hx1 Hx2]%not_elem_of_cons. rewrite I5 by done. by rewrite lookup_insert_ne by done.
  - assert (0 <= pendingRewards e) by exact (Hp _ _ E). assert (pendingRewards e = 0) as Hz0 by lia.
    destruct (IH total db) as (I1 & I2 & I3 & I4 & I5); [done..|]. split_and!; [|done|done|..].
    + rewrite I1. cbn. rewrite E. cbn. unfold pending_sum. cbn. rewrite Hz0, Z.add_0_r. by rewrite i64_id.
    + intros x [->|Hx]%elem_of_cons; [|by apply I4]. rewrite I5, E by done. cbn. unfold claimed.
      by destruct (Z.ltb_spec 0 (pendingRewards e)); [lia|].
    + intros x [Hx1 Hx2]%not_elem_of_cons. by apply I5.
  - destruct (IH total db) as (I1 & I2 & I3 & I4 & I5); [done..|]. split_and!; [|done|done|..].
    + rewrite I1. cbn. by rewrite E.
    + intros x [->|Hx]%elem_of_cons; [|by apply I4]. by rewrite I5, E.
    + intros x [Hx1 Hx2]%not_elem_of_cons. by apply I5.
Qed.

Lemma pending_sum_zero es : Forall (fun e => pendingRewards e = 0) es -> pending_sum 0 es = 0.
Proof. induction 1 as [|e es He _ IH]; [done|]. unfold pending_sum in *. cbn. rewrite He. exact IH. Qed.

Lemma claimed_all_zero (m m' : gmap N DelegationEntry) h (ids : list N) :
  map_Forall (fun _ e => 0 <= pendingRewards e) m ->
  (forall d, d ∈ ids -> m' !! d = claimed h <$> m !! d) ->
  pending_sum 0 (omap (fun d => m' !! d) ids) = 0.
Proof.
  intros Hp Hm. apply pending_sum_zero, Forall_forall. intros e (d & Hd & He)%list_elem_of_omap.
  rewrite Hm in He by done. apply fmap_Some in He as (x & Hx & ->). assert (0 <= pendingRewards x) by exact (Hp _ _ Hx).
  unfold claimed. destruct (Z.ltb_spec 0 (pendingRewards x)); cbn; lia.
Qed.

Lemma GetPending_run k w :
  GetPendingRewardsForDelegator k [] w =
  Done (pending_sum 0 (listed (delegatorIndex (g_delegation_db w)) k (g_delegation_db w))) w.
Proof. unfold GetPendingRewardsForDelegator. by rewrite lock_free, get_db_bind. Qed.

(** A claim of all rewards pays the delegator exactly the pending rewards
    [GetPendingRewardsForDelegator] reports, leaves none pending, so that rewards are
    paid once, and changes no other delegator's rewards and no validator. *)
Theorem claim_pays_pending_once `{C : Crypto} v w r :
  steps any_op any_vdb (mkWorld v DelegationDB_new) w ->
  map_Forall (fun _ e => 0 <= pendingRewards e) (delegations (g_delegation_db w)) ->
  rc_validatorId r = 0%N ->
  exists t w', ProcessRewardClaim r [] w = Done t w' /\
    GetPendingRewardsForDelegator (rc_delegatorId r) [] w = Done t w /\
    GetPendingRewardsForDelegator (rc_delegatorId r) [] w' = Done 0 w' /\
    (forall k, k <> rc_delegatorId r -> exists x,
       GetPendingRewardsForDelegator k [] w = Done x w /\
       GetPendingRewardsForDelegator k [] w' = Done x w') /\
    g_validator_db w' = g_validator_db w.
Proof.
  intros Hs Hp Hr. destruct (delegation_steps_ok _ _ _ _ Hs delegation_new_ok) as [_ _ Hx _ _].
  unfold ProcessRewardClaim. rewrite lock_free, get_db_bind.
  destruct (delegatorIndex (g_delegation_db w) !! rc_delegatorId r) as [ids|] eqn:E.
  2: { exists 0, w. split_and!; [done|..|done]; intros; rewrite ?GetPending_run; eauto;
       unfold listed; by rewrite E. }
  pose proof (Hx (rc_delegatorId r)) as [Hnd Hel]. rewrite E in Hnd, Hel. cbn in Hnd, Hel.
  destruct (claim_loop_all r Hr ids 0 (g_delegation_db w) Hnd Hp ltac:(done)) as (I1 & I2 & I3 & I4 & I5).
  destruct (claim_loop r ids 0 (g_delegation_db w)) as [t db']. cbn [fst snd] in *.
  exists t, (mkWorld (g_validator_db w) db'). rewrite !GetPending_run. cbn [g_delegation_db g_validator_db].
  unfold listed. rewrite I2, E. cbn [default]. split_and!; [done|by rewrite I1| |..|done].
  - f_equal. by eapply claimed_all_zero.
  - intros k Hk. rewrite !GetPending_run. cbn [g_delegation_db]. eexists. split; [done|]. f_equal.
    unfold listed. f_equal. rewrite I2. apply omap_lookup_ext. intros d Hd. apply I5. intros Hd'.
    apply (Hx k) in Hd as (e & He & Hk1). apply Hel in Hd' as (e' & He' & Hk2). congruence.
Qed.

Definition wit_id : N := @GetDelegationId toy_crypto (new_delegation (wit_request 11 200000000000 50) (mkOutPoint 9 1)).

Definition wit_rewarded : world :=
  match AddRewards wit_id 777 [] wit_world with Done _ w => w | Deadlock => wit_world end.

Lemma claim_pays_pending_once_witness :
  exists t w', ProcessRewardClaim (mkRewardClaimRequest 11 0 60 []) [] wit_rewarded = Done t w' /\
    GetPendingRewardsForDelegator 11 [] wit_rewarded = Done t wit_rewarded /\
    GetPendingRewardsForDelegator 11 [] w' = Done 0 w'.
Proof.
  destruct (claim_pays_pending_once (C := toy_crypto) (Some wit_vdb) wit_rewarded
    (mkRewardClaimRequest 11 0 60 [])) as (t & w' & H1 & H2 & H3 & _).
  - eapply rtc_l; [by eapply step_op; [|apply wit_world_reached]|].
    eapply rtc_l; [|apply rtc_refl]. eapply (step_op _ _ _ (OpAddRewards wit_id 777)); [done|by vm_compute].
  - apply (bool_decide_eq_true (map_Forall _ _)). by vm_compute.
  - done.
  - exists t, w'. by split_and!.
Defined.

(** ** Undelegation of everything *)

(** The first delegation the loop acts on. *)
Fixpoint first_active (vid : N) (ds : gmap N DelegationEntry) (ids : list N) : option (N * DelegationEntry) :=
  match ids with
  | [] => None
  | d :: ids =>
      match ds !! d with
      | None => first_active vid ds ids
      | Some e =>
          if (validatorId e =? vid)%N && bool_decide (status e = ACTIVE) then Some (d, e)
          else first_active vid ds ids
      end
  end.

Lemma first_active_Some vid ds ids d e :
  first_active vid ds ids = Some (d, e) ->
  d ∈ ids /\ ds !! d = Some e /\ validatorId e = vid /\ status e = ACTIVE.
Proof.
  induction ids as [|x ids IH]; cbn; [done|]. destruct (ds !! x) as [y|] eqn:E.
  - destruct (_ && _) eqn:Eb.
    + intros [= -> ->]. apply andb_true_iff in Eb as [Ev Es].
      apply N.eqb_eq in Ev. apply bool_decide_eq_true in Es. split_and!; try done. apply list_elem_of_here.
    + intros H. destruct (IH H) as (H1 & H2). split; [by apply list_elem_of_further|done].
  - intros H. destruct (IH H) as (H1 & H2). split; [by apply list_elem_of_further|done].
Qed.

Lemma first_active_None vid ds ids d e :
  first_active vid ds ids = None -> d ∈ ids -> ds !! d = Some e -> validatorId e = vid -> status e <> ACTIVE.
Proof.
  induction ids as [|x ids IH]; cbn; [by intros _ ?%elem_of_nil|].
  intros H [->|Hd]%elem_of_cons He Hv.
  - rewrite He, Hv, N.eqb_refl in H. cbn in H. by case_bool_decide.
  - destruct (ds !! x); [destruct (_ && _); [done|]|]; eauto.
Qed.

Lemma undelegate_loop_all r ids w :
  ur_amount r = 0 ->
  undelegate_loop r ids 0 false [cs_delegations] w =
  match first_active (ur_validatorId r) (delegations (g_delegation_db w)) ids with
  | None => Done false w
  | Some (d, e) =>
      Done true (mkWorld (snd ∘ RemoveDelegation (ur_validatorId r) (amount e) <$> g_validator_db w)
        (set_delegation d (set_unbonding (currentHeight (g_delegation_db w)) e) (g_delegation_db w)))
  end.
Proof.
  intros Hr. induction ids as [|d ids IH]; cbn [undelegate_loop first_active]; [done|].
  rewrite get_db_bind. destruct (delegations (g_delegation_db w) !! d) as [e|]; [|done].
  destruct (validatorId e =? ur_validatorId r)%N; cbn [negb andb]; [|done].
  case_bool_decide; cbn [negb]; [|done]. rewrite Hr. cbn [Z.eqb].
  by rewrite put_db_bind, vdb_call_bind.
Qed.

(** Undelegating "all" (amount 0) stops after one delegation.  The call
    succeeds exactly when the delegator has an active delegation to the validator,
    and whatever their number, at most one delegation changes. *)
Theorem undelegate_all_changes_one `{C : Crypto} v w r :
  steps any_op any_vdb (mkWorld v DelegationDB_new) w -> ur_amount r = 0 ->
  let ds := delegations (g_delegation_db w) in
  exists b w', ProcessUndelegation r [] w = Done b w' /\
    (b = true <-> exists d e, ds !! d = Some e /\ delegatorId e = ur_delegatorId r /\
                    validatorId e = ur_validatorId r /\ status e = ACTIVE) /\
    forall d1 d2, let ds' := delegations (g_delegation_db w') in
      ds' !! d1 <> ds !! d1 -> ds' !! d2 <> ds !! d2 -> d1 = d2.
Proof.
  intros Hs Hr ds. destruct (delegation_steps_ok _ _ _ _ Hs delegation_new_ok) as [_ _ Hx _ _].
  destruct (Hx (ur_delegatorId r)) as [_ Hel].
  unfold ProcessUndelegation. rewrite lock_free, get_db_bind.
  destruct (delegatorIndex (g_delegation_db w) !! ur_delegatorId r) as [ids|] eqn:E; cbn in Hel.
  2: { exists false, w. split_and!; [done| |done]. split; [done|]. intros (d & e & He & Hk & _).
       exfalso. apply (elem_of_nil d). apply Hel. by exists e. }
  rewrite Hr, undelegate_loop_all by done.
  destruct (first_active _ _ ids) as [[d e]|] eqn:Ef; (eexists _, _; split; [done|]); cbn.
  - apply first_active_Some in Ef as (Hd & He & Hv & Hst). split.
    + split; [|done]. intros _. exists d, e. apply Hel in Hd as (e' & He' & Hk). fold ds in He, He'.
      rewrite He in He'. injection He' as <-. done.
    + intros d1 d2 H1 H2. destruct (decide (d = d1)) as [<-|]; [|by rewrite lookup_insert_ne in H1].
      destruct (decide (d = d2)) as [<-|]; [done|by rewrite lookup_insert_ne in H2].
  - split; [|done]. split; [done|]. intros (d & e & He & Hk & Hv & Hst). exfalso.
    eapply first_active_None in Ef; [by apply Ef|apply Hel; by exists e|done|done].
Qed.

(** Two delegations of one delegator, both matured. *)
Definition wit_two : world :=
  match @run toy_crypto (OpDelegate (wit_request 11 300000000000 51) COutPoint_null) [] wit_world with
  | Done _ w => match @run toy_crypto (OpBlock 1000) [] w with Done _ w => w | Deadlock => w end
  | Deadlock => wit_world
  end.

Lemma wit_two_first :
  delegations (g_delegation_db wit_two) !! wit_id =
  Some (mkDelegation 11 7 200000000000 50 50 ACTIVE (mkOutPoint 9 1) 0 0).
Proof. vm_compute. reflexivity. Qed.

Lemma undelegate_all_changes_one_witness :
  exists w', ProcessUndelegation (mkUndelegationRequest 11 7 0 1001 []) [] wit_two = Done true w' /\
    size (filter (fun x => IsActive x.2 = true) (delegations (g_delegation_db wit_two))) = 2%nat.
Proof.
  destruct (undelegate_all_changes_one (C := toy_crypto) (Some wit_vdb) wit_two
    (mkUndelegationRequest 11 7 0 1001 [])) as (b & w' & H1 & H2 & _).
  - eapply rtc_l; [by eapply step_op; [|apply wit_world_reached]|].
    eapply rtc_l; [eapply (step_op _ _ _ (OpDelegate (wit_request 11 300000000000 51) COutPoint_null));
                   [done|by vm_compute]|].
    eapply rtc_l; [|apply rtc_refl]. eapply (step_op _ _ _ (OpBlock 1000)); [done|by vm_compute].
  - done.
  - exists w'. split; [|by vm_compute]. rewrite H1. f_equal. apply H2.
    exists wit_id, (mkDelegation 11 7 200000000000 50 50 ACTIVE (mkOutPoint 9 1) 0 0).
    exact (conj wit_two_first (conj eq_refl (conj eq_refl eq_refl))).
Defined.
