(* ===== verification/Accounts.v ===== *)
(** * Accounting across the validator and the delegation database

    The totals a validator entry carries ([totalDelegated], [delegatorCount]) against
    the delegations that are in bond, through every operation of both databases. *)

From stdpp Require Import gmap list.
From Stdlib Require Import ZArith Lia.
From S2P Require Import Prelude Params Serialize Crypto OutPoint ValidatorDB Delegation.

Open Scope Z_scope.

Definition in_bond (e : DelegationEntry) : bool :=
  bool_decide (status e = PENDING) || bool_decide (status e = ACTIVE).

(** What a delegation contributes to the total and to the count of validator [id]. *)
Definition bonded (id : N) (e : DelegationEntry) : Z :=
  if (validatorId e =? id)%N && in_bond e then amount e else 0.
Definition counted (id : N) (e : DelegationEntry) : Z :=
  if (validatorId e =? id)%N && in_bond e then 1 else 0.
Definition bonded_any (e : DelegationEntry) : Z := if in_bond e then amount e else 0.

Record accounts (vs : gmap N ValidatorEntry) (ds : gmap N DelegationEntry) : Prop := {
  ac_totals : forall id v, vs !! id = Some v ->
    totalDelegated v = msum (bonded id) ds /\ delegatorCount v = msum (counted id) ds;
  ac_known : map_Forall (fun _ e => is_Some (vs !! validatorId e)) ds;
  ac_amounts : map_Forall (fun _ e => MIN_DELEGATION_AMOUNT <= amount e) ds;
  ac_supply : msum bonded_any ds <= MAX_MONEY
}.

(** The sums are within the supply, so nothing wraps. *)
Lemma accounts_bounds vs ds id :
  accounts vs ds ->
  0 <= msum (counted id) ds /\
  MIN_DELEGATION_AMOUNT * msum (counted id) ds <= msum (bonded id) ds <= msum bonded_any ds.
Proof.
  intros [_ _ Ha _]. rewrite <- msum_scale, <- (msum_zero ds) at 1.
  unfold counted, bonded, bonded_any.
  split_and!; apply msum_mono; intros d e He; assert (MIN_DELEGATION_AMOUNT <= amount e) by exact (Ha d e He);
    unfold MIN_DELEGATION_AMOUNT in *; destruct (validatorId e =? id)%N, (in_bond e); cbn [andb]; lia.
Qed.

(** In-place changes that keep validator, amount and being in bond. *)
Definition same_bond (e e' : DelegationEntry) : Prop :=
  validatorId e' = validatorId e /\ amount e' = amount e /\ in_bond e' = in_bond e.

Lemma same_bond_sums e e' id :
  same_bond e e' -> bonded id e' = bonded id e /\ counted id e' = counted id e /\ bonded_any e' = bonded_any e.
Proof. intros (H1 & H2 & H3). unfold bonded, counted, bonded_any. by rewrite H1, H2, H3. Qed.

Lemma accounts_update vs ds d e e' :
  accounts vs ds -> ds !! d = Some e -> same_bond e e' -> accounts vs (<[d := e']> ds).
Proof.
  intros [Ht Hk Ha Hs] He Hb. split.
  - intros id v Hv. destruct (same_bond_sums e e' id Hb) as (E1 & E2 & _).
    rewrite !(msum_update _ _ _ e), E1, E2 by done. destruct (Ht _ _ Hv). lia.
  - apply map_Forall_insert_2; [|done]. destruct Hb as (-> & _). by apply (Hk d).
  - apply map_Forall_insert_2; [|done]. destruct Hb as (_ & -> & _). by apply (Ha d).
  - destruct (same_bond_sums e e' 0 Hb) as (_ & _ & E3). rewrite (msum_update _ _ _ e), E3 by done. lia.
Qed.

Lemma accounts_fmap vs ds f :
  accounts vs ds -> (forall e, same_bond e (f e)) -> accounts vs (f <$> ds).
Proof.
  intros [Ht Hk Ha Hs] Hb. split.
  - intros id v Hv. rewrite !msum_fmap.
    rewrite (msum_ext _ (bonded id)), (msum_ext (fun e => counted id (f e)) (counted id));
      [by apply Ht|intros; by apply same_bond_sums..].
  - intros d e. rewrite lookup_fmap. intros (x & Hx & ->)%fmap_Some.
    destruct (Hb x) as (-> & _). by apply (Hk d).
  - intros d e. rewrite lookup_fmap. intros (x & Hx & ->)%fmap_Some.
    destruct (Hb x) as (_ & -> & _). by apply (Ha d).
  - rewrite msum_fmap, (msum_ext _ bonded_any); [done|intros; by apply (same_bond_sums _ _ 0%N)].
Qed.

Lemma bonded_elem vs ds d e :
  accounts vs ds -> ds !! d = Some e -> in_bond e = true ->
  amount e <= msum (bonded (validatorId e)) ds /\ 1 <= msum (counted (validatorId e)) ds.
Proof.
  intros [_ _ Ha _] He Hb.
  assert (bonded (validatorId e) e = amount e /\ counted (validatorId e) e = 1) as [E1 E2]
    by (unfold bonded, counted; by rewrite N.eqb_refl, Hb).
  rewrite <- E1, <- E2 at 1. split; (eapply msum_elem_le; [|exact He]); intros k x Hx;
    assert (MIN_DELEGATION_AMOUNT <= amount x) by exact (Ha k x Hx);
    unfold bonded, counted, MIN_DELEGATION_AMOUNT in *;
    destruct ((validatorId x =? validatorId e)%N && in_bond x); lia.
Qed.

(** Totals of a validator changed by what one delegation contributes. *)
Lemma accounts_change vs ds ds' id v v' x c :
  accounts vs ds -> vs !! id = Some v ->
  totalDelegated v' = totalDelegated v + x -> delegatorCount v' = delegatorCount v + c ->
  (forall j, msum (bonded j) ds' = msum (bonded j) ds + (if (id =? j)%N then x else 0) /\
             msum (counted j) ds' = msum (counted j) ds + (if (id =? j)%N then c else 0)) ->
  (forall j w, <[id := v']> vs !! j = Some w ->
     totalDelegated w = msum (bonded j) ds' /\ delegatorCount w = msum (counted j) ds').
Proof.
  intros Ha Hv H1 H2 Hs j w Hw. destruct (Hs j) as [-> ->].
  destruct (N.eqb_spec id j) as [<-|Hne].
  - rewrite lookup_insert_eq in Hw. injection Hw as <-. destruct (ac_totals _ _ Ha _ _ Hv). lia.
  - rewrite lookup_insert_ne in Hw by done. destruct (ac_totals _ _ Ha _ _ Hw). lia.
Qed.

Lemma known_insert (vs : gmap N ValidatorEntry) (ds : gmap N DelegationEntry) id v' :
  map_Forall (fun _ e => is_Some (vs !! validatorId e)) ds ->
  map_Forall (fun _ e => is_Some (<[id := v']> vs !! validatorId e)) ds.
Proof. intros Hk d e He. apply lookup_insert_is_Some'. right. by apply (Hk d). Qed.

Lemma accounts_add vs ds d e v :
  accounts vs ds -> ds !! d = None -> in_bond e = true -> vs !! validatorId e = Some v ->
  MIN_DELEGATION_AMOUNT <= amount e -> msum bonded_any ds + amount e <= MAX_MONEY ->
  accounts (<[validatorId e := set_delegated (i64 (totalDelegated v + amount e)) (i32 (delegatorCount v + 1)) v]> vs)
    (<[d := e]> ds).
Proof.
  intros Hac Hd Hb Hv Hm Hsup. pose proof (accounts_bounds _ _ (validatorId e) Hac) as Hbd.
  destruct (ac_totals _ _ Hac _ _ Hv) as [E1 E2].
  change MAX_MONEY with 10782240625000000 in *. change MIN_DELEGATION_AMOUNT with 100000000000 in *. split.
  - apply (accounts_change vs ds _ _ v _ (amount e) 1 Hac Hv).
    + cbn. rewrite i64_id; [done|]. unfold in_i64. lia.
    + cbn. rewrite i32_id; [done|]. unfold in_i32. lia.
    + intros j. rewrite !msum_new by done. unfold bonded, counted. rewrite Hb.
      destruct (validatorId e =? j)%N; cbn [andb]; lia.
  - apply known_insert, map_Forall_insert_2; [by eexists|apply Hac].
  - apply map_Forall_insert_2; [done|apply Hac].
  - rewrite msum_new by done. unfold bonded_any at 1. rewrite Hb. change MAX_MONEY with 10782240625000000. lia.
Qed.

Lemma accounts_remove vs ds d e h :
  accounts vs ds -> ds !! d = Some e -> status e = ACTIVE ->
  forall db, validators db = vs ->
  accounts (validators (RemoveDelegation (validatorId e) (amount e) db).2) (<[d := set_unbonding h e]> ds).
Proof.
  intros Hac Hd Hst db <-. destruct (ac_known _ _ Hac _ _ Hd) as [v Hv].
  pose proof (accounts_bounds _ _ (validatorId e) Hac) as Hbd.
  destruct (ac_totals _ _ Hac _ _ Hv) as [E1 E2].
  assert (in_bond e = true) as Hb by (unfold in_bond; by rewrite Hst).
  assert (forall j, bonded j (set_unbonding h e) = 0 /\ counted j (set_unbonding h e) = 0) as Hz.
  { intros j. unfold bonded, counted. cbn. by rewrite andb_false_r. }
  destruct (bonded_elem _ _ _ _ Hac Hd Hb) as [H1 H2].
  unfold RemoveDelegation. rewrite Hv. change MIN_DELEGATION_AMOUNT with 100000000000 in *.
  pose proof (ac_supply _ _ Hac) as Hsup. change MAX_MONEY with 10782240625000000 in Hsup.
  assert (0 <= amount e) by (pose proof (ac_amounts _ _ Hac d e Hd); unfold MIN_DELEGATION_AMOUNT in *; lia).
  destruct (Z.ltb_spec (totalDelegated v) (amount e)); [lia|].
  destruct (Z.ltb_spec 0 (delegatorCount v)); [|lia]. cbn [snd set_entry validators]. split.
  - apply (accounts_change _ ds _ _ v _ (- amount e) (-1) Hac Hv).
    + cbn. rewrite i64_id; [lia|]. unfold in_i64. lia.
    + cbn. rewrite i32_id; [lia|]. unfold in_i32. lia.
    + intros j. rewrite !(msum_update _ _ _ e) by done. destruct (Hz j) as [-> ->].
      unfold bonded, counted. rewrite Hb. destruct (validatorId e =? j)%N; cbn [andb]; lia.
  - apply known_insert, map_Forall_insert_2; [by eexists|apply Hac].
  - apply map_Forall_insert_2; [exact (ac_amounts _ _ Hac d e Hd)|apply Hac].
  - rewrite (msum_update _ _ _ e) by done.
    assert (bonded_any e = amount e) as -> by (unfold bonded_any; by rewrite Hb).
    change (bonded_any (set_unbonding h e)) with 0. change MAX_MONEY with 10782240625000000. lia.
Qed.

Lemma accounts_claim vs r : forall ids total db,
  accounts vs (delegations db) -> accounts vs (delegations (claim_loop r ids total db).2).
Proof.
  induction ids as [|d ids IH]; intros total db Hac; cbn [claim_loop]; [done|].
  destruct (delegations db !! d) as [e|] eqn:E; [|by apply IH].
  case_if; [by apply IH|]. case_if; [|by apply IH]. apply IH. by apply (accounts_update _ _ _ e).
Qed.

(** The operations on validators that the node performs besides those the delegation
    database calls: a new validator has no delegations yet. *)
Inductive validator_step `{Crypto} (p : Params) : ValidatorDB -> ValidatorDB -> Prop :=
  | vs_register e db :
      totalDelegated e = 0 -> delegatorCount e = 0 -> validator_step p db (RegisterValidator p e db).2
  | vs_update u db : validator_step p db (ProcessUpdate p u db).2
  | vs_outpoint id o db : validator_step p db (UpdateStakeOutpoint id o db).2
  | vs_status id s db : validator_step p db (SetValidatorStatus id s db).2
  | vs_jail id b db : validator_step p db (JailValidator id b db).2
  | vs_unjail id db : validator_step p db (UnjailValidator id db).2
  | vs_block h db : validator_step p db (ValidatorDB.ProcessBlock h db).

(** The delegations an undelegation of [rest] puts in unbonding, among [ids], are all
    taken with their full amount. *)
Fixpoint takes_whole (vid : N) (h : Z) (ds : gmap N DelegationEntry) (rest : Z) (ids : list N) : bool :=
  match ids with
  | [] => true
  | d :: ids =>
      match ds !! d with
      | None => takes_whole vid h ds rest ids
      | Some e =>
          if (validatorId e =? vid)%N && bool_decide (status e = ACTIVE) then
            (amount e <=? rest) &&
            ((i64 (rest - amount e) =? 0) || takes_whole vid h (<[d := set_unbonding h e]> ds) (i64 (rest - amount e)) ids)
          else takes_whole vid h ds rest ids
      end
  end.

(** What the operations are held to: delegated coins exist; an undelegation has the amount 0
    (which takes the first active delegation, whole) or an amount that no delegation is
    divided for; a status set by hand leaves a delegation in bond or out of it. *)
Definition whole_delegations (w : world) (o : op) : Prop :=
  let ddb := g_delegation_db w in
  match o with
  | OpDelegate r _ => msum bonded_any (delegations ddb) + dr_amount r <= MAX_MONEY
  | OpUndelegate r => ur_amount r = 0 \/
      takes_whole (ur_validatorId r) (currentHeight ddb) (delegations ddb) (ur_amount r) (default [] (delegatorIndex ddb !! ur_delegatorId r)) = true
  | OpSetStatus d s => forall e, delegations ddb !! d = Some e -> in_bond (set_status s e) = in_bond e
  | _ => True
  end.

Lemma accounts_validator vs ds id v v' :
  accounts vs ds -> vs !! id = Some v -> totalDelegated v' = totalDelegated v ->
  delegatorCount v' = delegatorCount v -> accounts (<[id := v']> vs) ds.
Proof.
  intros Hac Hv H1 H2. split; [|apply known_insert, Hac|apply Hac|apply Hac].
  apply (accounts_change vs ds ds id v v' 0 0 Hac Hv); [lia|lia|]. intros j. by destruct (id =? j)%N; lia.
Qed.

Lemma accounts_register vs ds e :
  accounts vs ds -> vs !! ValidatorDB.validatorId e = None -> totalDelegated e = 0 -> delegatorCount e = 0 ->
  accounts (<[ValidatorDB.validatorId e := e]> vs) ds.
Proof.
  intros Hac Hn H1 H2. split; [|apply known_insert, Hac|apply Hac|apply Hac].
  intros id v. destruct (decide (ValidatorDB.validatorId e = id)) as [<-|Hne].
  - rewrite lookup_insert_eq. intros [= <-].
    assert (forall d x, ds !! d = Some x -> (validatorId x =? ValidatorDB.validatorId e)%N = false) as Hx.
    { intros d x Hd. apply N.eqb_neq. intros Heq. destruct (ac_known _ _ Hac d x Hd) as [y Hy]. congruence. }
    rewrite H1, H2, <- (msum_zero ds). split; apply msum_ext; intros d x Hd; unfold bonded, counted;
      by rewrite (Hx d x Hd).
  - rewrite lookup_insert_ne by done. apply Hac.
Qed.

Lemma apply_update_totals p h u e e' :
  apply_update p h u e = Some e' -> totalDelegated e' = totalDelegated e /\ delegatorCount e' = delegatorCount e.
Proof. unfold apply_update. intros H. destruct (updateType u); repeat case_if_in H; by simplify_eq. Qed.

Lemma validator_step_accounts `{C : Crypto} p db db' ds :
  validator_step p db db' -> accounts (validators db) ds -> accounts (validators db') ds.
Proof.
  intros Hs Hac. destruct Hs.
  - unfold RegisterValidator. case_bool_decide as Hd; [done|]. apply eq_None_not_Some in Hd.
    repeat (case_if; [done|]). by apply accounts_register.
  - unfold ProcessUpdate. case_match eqn:E; [|done]. case_if; [done|]. case_match eqn:Eu; [|done].
    destruct (apply_update_totals _ _ _ _ _ Eu). by apply (accounts_validator _ _ _ v).
  - unfold UpdateStakeOutpoint. case_match eqn:E; [|done]. by apply (accounts_validator _ _ _ v).
  - unfold SetValidatorStatus. case_match eqn:E; [|done].
    apply (accounts_validator _ _ _ v); [done|done|..]; by case_bool_decide.
  - unfold JailValidator. case_match eqn:E; [|done]. by apply (accounts_validator _ _ _ v).
  - unfold UnjailValidator. case_match eqn:E; [|done]. repeat (case_if; [done|]).
    by apply (accounts_validator _ _ _ v).
  - destruct Hac as [Ht Hk Ha Hsup]. split; [|..|done|done]; cbn.
    + intros id v. rewrite lookup_fmap. intros (x & Hx & ->)%fmap_Some.
      pose proof (Ht _ _ Hx). unfold ValidatorDB.process_entry. by repeat case_match.
    + intros d e He. destruct (Hk d e He) as [x Hx]. rewrite lookup_fmap, Hx. by eexists.
Qed.

Lemma process_entry_bond h e : same_bond e (process_entry h e).
Proof.
  unfold process_entry, same_bond, in_bond.
  destruct (bool_decide (status e = PENDING) && _) eqn:E1.
  - apply andb_true_iff in E1 as [H1%bool_decide_eq_true _]. cbn [status set_status].
    rewrite (bool_decide_eq_false_2 (ACTIVE = UNBONDING)) by done. cbn. by rewrite H1.
  - destruct (bool_decide (status e = UNBONDING) && _) eqn:E2; [|done].
    apply andb_true_iff in E2 as [H2%bool_decide_eq_true _]. cbn. by rewrite H2.
Qed.

Lemma ProcessDelegation_accounts `{C : Crypto} r o db ddb b w' :
  accounts (validators db) (delegations ddb) ->
  msum bonded_any (delegations ddb) + dr_amount r <= MAX_MONEY ->
  ProcessDelegation r o [] (mkWorld (Some db) ddb) = Done b w' ->
  exists db', g_validator_db w' = Some db' /\ accounts (validators db') (delegations (g_delegation_db w')).
Proof.
  intros Hac Hsup. unfold ProcessDelegation. rewrite lock_free.
  case_if; [intros [= _ <-]; by exists db|]. case_if; [intros [= _ <-]; by exists db|].
  rewrite vdb_call_bind. cbn [g_validator_db fmap option_fmap option_map compose fst snd g_delegation_db].
  destruct (negb _) eqn:Ev; [intros [= _ <-]; by exists db|]. apply negb_false_iff in Ev.
  rewrite get_db_bind. cbn [g_delegation_db]. case_bool_decide as Hd; [intros [= _ <-]; by exists db|].
  apply eq_None_not_Some in Hd. rewrite put_db_bind, vdb_call_bind. intros [= _ <-]. cbn. eexists. split; [done|].
  unfold GetValidator in Ev. cbn in Ev. destruct (validators db !! dr_validatorId r) as [v|] eqn:Hlk; [|done].
  unfold AddDelegation. rewrite Hlk. cbn [snd set_entry validators].
  by apply (accounts_add _ _ _ (new_delegation r o) v).
Qed.

Lemma undelegate_loop_accounts r : ur_amount r <> 0 -> forall ids rest any db ddb b w',
  accounts (validators db) (delegations ddb) -> takes_whole (ur_validatorId r) (currentHeight ddb) (delegations ddb) rest ids = true ->
  undelegate_loop r ids rest any [cs_delegations] (mkWorld (Some db) ddb) = Done b w' ->
  exists db', g_validator_db w' = Some db' /\ accounts (validators db') (delegations (g_delegation_db w')).
Proof.
  intros Hr. induction ids as [|d ids IH]; intros rest any db ddb b w' Hac Ht; cbn [undelegate_loop takes_whole] in *.
  { intros [= _ <-]. by exists db. }
  rewrite get_db_bind. cbn [g_delegation_db]. destruct (delegations ddb !! d) as [e|] eqn:He; [|by eapply IH].
  destruct (N.eqb_spec (validatorId e) (ur_validatorId r)) as [Hv|Hv]; cbn [negb andb] in *; [|by eapply IH].
  case_bool_decide as Hst; cbn [negb] in *; [|by eapply IH]. apply andb_true_iff in Ht as [Hle Ht].
  rewrite (proj2 (Z.eqb_neq _ _) Hr), Hle, put_db_bind, vdb_call_bind. cbn [g_validator_db g_delegation_db fmap option_fmap option_map].
  pose proof (accounts_remove _ _ _ _ (currentHeight ddb) Hac He Hst db eq_refl) as Hac'. rewrite Hv in Hac'.
  destruct (i64 (rest - amount e) =? 0); cbn [orb] in Ht; [intros [= _ <-]; by eexists|]. by eapply IH.
Qed.

Lemma ProcessUndelegation_accounts r db ddb b w' :
  accounts (validators db) (delegations ddb) ->
  ur_amount r = 0 \/ takes_whole (ur_validatorId r) (currentHeight ddb) (delegations ddb) (ur_amount r) (default [] (delegatorIndex ddb !! ur_delegatorId r)) = true ->
  ProcessUndelegation r [] (mkWorld (Some db) ddb) = Done b w' ->
  exists db', g_validator_db w' = Some db' /\ accounts (validators db') (delegations (g_delegation_db w')).
Proof.
  intros Hac Hr. unfold ProcessUndelegation. rewrite lock_free, get_db_bind. cbn [g_delegation_db].
  destruct (delegatorIndex ddb !! ur_delegatorId r) as [ids|]; [|intros [= _ <-]; by exists db]. cbn [default] in Hr.
  destruct (Z.eq_dec (ur_amount r) 0) as [H0|H0]; [|destruct Hr as [Hr|Hr]; [done|by eapply undelegate_loop_accounts]].
  rewrite H0, undelegate_loop_all by done. cbn [g_delegation_db g_validator_db].
  destruct (first_active _ _ ids) as [[d e]|] eqn:E; intros [= _ <-]; [|by exists db].
  apply first_active_Some in E as (_ & He & Hv & Hst). eexists. split; [done|]. cbn.
  rewrite <- Hv. by apply (accounts_remove _ _ _ _ _ Hac).
Qed.

Lemma run_accounts `{C : Crypto} o db ddb w' :
  accounts (validators db) (delegations ddb) -> whole_delegations (mkWorld (Some db) ddb) o ->
  run o [] (mkWorld (Some db) ddb) = Done () w' ->
  exists db', g_validator_db w' = Some db' /\ accounts (validators db') (delegations (g_delegation_db w')).
Proof.
  intros Hac Hok. destruct o; cbn [run whole_delegations g_delegation_db] in *.
  - unfold mbind, locked_bind. destruct (ProcessDelegation r o [] _) as [b w|] eqn:E; [|done].
    intros [= <-]. by eapply ProcessDelegation_accounts.
  - unfold mbind, locked_bind. destruct (ProcessUndelegation r [] _) as [b w|] eqn:E; [|done].
    intros [= <-]. by eapply ProcessUndelegation_accounts.
  - unfold ProcessRewardClaim. unfold mbind at 1, locked_bind at 1. rewrite lock_free, get_db_bind.
    cbn [g_delegation_db]. destruct (delegatorIndex ddb !! _) as [ids|]; [|intros [= <-]; by exists db].
    pose proof (accounts_claim _ r ids 0 ddb Hac). destruct (claim_loop r ids 0 ddb).
    intros [= <-]. by exists db.
  - unfold AddRewards. unfold mbind at 1, locked_bind at 1. rewrite lock_free, get_db_bind. cbn [g_delegation_db].
    destruct (delegations ddb !! d) as [e|] eqn:E; intros [= <-]; exists db; split; [done| |done|done].
    by apply (accounts_update _ _ _ e).
  - destruct (Z.eq_dec share 0) as [->|Hne]; [intros [= <-]; by exists db|].
    unfold mbind, locked_bind. by rewrite (distribute_deadlock id share _ Hne).
  - unfold SetDelegationStatus. unfold mbind at 1, locked_bind at 1. rewrite lock_free, get_db_bind. cbn [g_delegation_db].
    destruct (delegations ddb !! d) as [e|] eqn:E; intros [= <-]; exists db; split; [done| |done|done].
    apply (accounts_update _ _ _ e); [done|done|]. split; [done|]. split; [done|]. by apply Hok.
  - unfold UpdateDelegationOutpoint. unfold mbind at 1, locked_bind at 1. rewrite lock_free, get_db_bind.
    cbn [g_delegation_db].
    destruct (delegations ddb !! d) as [e|] eqn:E; intros [= <-]; exists db; split; [done| |done|done].
    by apply (accounts_update _ _ _ e).
  - intros [= <-]. by exists db.
  - unfold ProcessBlock. rewrite lock_free, get_db_bind. intros [= <-]. exists db. split; [done|].
    apply accounts_fmap; [done|]. apply process_entry_bond.
Qed.


