(* ===== verification/Chain.v ===== *)
(** * The block index and the active chain (chain.h, chain.cpp)

    The tree of block index entries with its parent and skip pointers, and the vector
    of the active branch.  A pointer to a [CBlockIndex] is the key of the entry in
    m_block_index (the block hash); [None] is a null pointer.  Functions that follow
    pointers return [None] where the program would stop (an assertion that fails, a
    null or dangling pointer that is followed, an index out of range); loops have
    fuel, and the theorems show that neither happens on an index built by
    [AddToBlockIndex]. *)

From stdpp Require Import gmap list.
From Stdlib Require Import ZArith Lia.
From S2P Require Import Prelude Serialize Crypto OutPoint ArithUint256.

Open Scope Z_scope.

(** ** Entries *)

(** [CBlockHeader] (primitives/block.h). *)
Record CBlockHeader := mkHeader {
  nVersion : Z;
  hashPrevBlock : N;
  hashMerkleRoot : N;
  nTime : Z;
  nBits : Z;
  nNonce : Z;
  hashStateRoot : N;
  hashUTXORoot : N;
  prevoutStake : COutPoint;
  vchBlockSigDlgt : list Z
}.

(** [header] holds the members the constructor copies from the block header. *)
Record CBlockIndex := mkIndex {
  header : CBlockHeader;
  pprev : option N;
  pskip : option N;
  nHeight : Z;
  nChainWork : base_uint;
  nStakeModifier : N;
  nStatus : Z;
  nTimeMax : Z
}.

Definition GetBlockTime (b : CBlockIndex) : Z := nTime (header b).
Definition IsProofOfStake (b : CBlockIndex) : bool := negb (IsNull (prevoutStake (header b))).
Definition IsProofOfWork (b : CBlockIndex) : bool := negb (IsProofOfStake b).

Definition BLOCK_VALID_TREE : Z := 2.
Definition BLOCK_VALID_MASK : Z := 7.
Definition BLOCK_FAILED_MASK : Z := 96.

Definition IsValid (nUpTo : Z) (nStatus : Z) : bool :=
  if negb (Z.land nStatus BLOCK_FAILED_MASK =? 0) then false
  else nUpTo <=? Z.land nStatus BLOCK_VALID_MASK.

Definition RaiseValidity (nUpTo : Z) (nStatus : Z) : bool * Z :=
  if negb (Z.land nStatus BLOCK_FAILED_MASK =? 0) then (false, nStatus)
  else if Z.land nStatus BLOCK_VALID_MASK <? nUpTo
  then (true, Z.lor (Z.ldiff nStatus BLOCK_VALID_MASK) nUpTo)
  else (false, nStatus).

(** ** Work *)

Definition GetBlockProof (bits : Z) : option base_uint :=
  let '(bnTarget, fNegative, fOverflow) := SetCompact bits in
  if fNegative || fOverflow || EqualTo bnTarget 0 then Some zero
  else q ← div (bnot bnTarget) (add bnTarget (of_u64 1)); Some (add q (of_u64 1)).

(** ** The tree *)

Abbreviation BlockMap := (gmap N CBlockIndex).

Definition InvertLowestOne (n : Z) : Z := Z.land n (n - 1).

Definition GetSkipHeight (height : Z) : Z :=
  if height <? 2 then 0
  else if Z.odd height then InvertLowestOne (InvertLowestOne (height - 1)) + 1
  else InvertLowestOne height.

Fixpoint ancestor_walk (fuel : nat) (s : BlockMap) (pindexWalk : N) (heightWalk height : Z) : option N :=
  match fuel with
  | O => None
  | S fuel =>
      if heightWalk <=? height then Some pindexWalk
      else
        b ← s !! pindexWalk;
        let heightSkip := GetSkipHeight heightWalk in
        let heightSkipPrev := GetSkipHeight (heightWalk - 1) in
        let follow := (heightSkip =? height) ||
          ((height <? heightSkip) && negb ((heightSkipPrev <? heightSkip - 2) && (height <=? heightSkipPrev))) in
        match pskip b with
        | Some k => if follow then ancestor_walk fuel s k heightSkip height
                    else j ← pprev b; ancestor_walk fuel s j (heightWalk - 1) height
        | None => j ← pprev b; ancestor_walk fuel s j (heightWalk - 1) height
        end
  end.

(** The walk lowers the height in every round, so the height bounds the rounds. *)
Definition GetAncestor (s : BlockMap) (i : N) (height : Z) : option (option N) :=
  b ← s !! i;
  if (nHeight b <? height) || (height <? 0) then Some None
  else j ← ancestor_walk (S (Z.to_nat (nHeight b))) s i (nHeight b) height; Some (Some j).

Fixpoint common_loop (fuel : nat) (s : BlockMap) (pa pb : option N) : option (option N) :=
  match fuel with
  | O => None
  | S fuel =>
      match pa, pb with
      | Some a, Some b =>
          if (a =? b)%N then Some pa
          else x ← s !! a; y ← s !! b; common_loop fuel s (pprev x) (pprev y)
      | None, None => Some None
      | _, _ => None
      end
  end.

(** [None] is also the failed assertion that the branches meet. *)
Definition LastCommonAncestor (s : BlockMap) (a b : N) : option (option N) :=
  x ← s !! a;
  y ← s !! b;
  pa ← (if nHeight y <? nHeight x then GetAncestor s a (nHeight y) else Some (Some a));
  pb ← (if nHeight x <? nHeight y then GetAncestor s b (nHeight x) else Some (Some b));
  common_loop (S (S (Z.to_nat (nHeight x)))) s pa pb.

Section Blocks.
Context {C : Crypto} (GetHash : CBlockHeader -> N).

Definition ComputeStakeModifier (pindexPrev : option CBlockIndex) (kernel : N) : N :=
  match pindexPrev with
  | None => 0%N
  | Some b => Hash256 (id_bytes 32 kernel ++ id_bytes 32 (nStakeModifier b))
  end.

Record BlockManager := mkManager {
  m_block_index : BlockMap;
  best_header : option N;
  setStakeSeen : gset (COutPoint * Z);
  m_dirty_blockindex : gset N
}.

(** [BuildSkip] of the new entry [i], already in the index with its parent and height. *)
Definition BuildSkip (s : BlockMap) (j : N) (height : Z) : option (option N) :=
  GetAncestor s j (GetSkipHeight height).

Definition AddToBlockIndex (block : CBlockHeader) (m : BlockManager) : option (N * BlockManager) :=
  let hash := GetHash block in
  if bool_decide (is_Some (m_block_index m !! hash)) then Some (hash, m)
  else
    let s := <[hash := mkIndex block None None 0 zero 0 0 0]> (m_block_index m) in
    let prev := s !! hashPrevBlock block in
    let parent := match prev with None => None | Some _ => Some (hashPrevBlock block) end in
    let height := match prev with None => 0 | Some p => i32 (nHeight p + 1) end in
    skip ← match prev with
           | None => Some None
           | Some _ => BuildSkip (<[hash := mkIndex block parent None height zero 0 0 0]> s)
                         (hashPrevBlock block) height
           end;
    proof ← GetBlockProof (nBits block);
    let timeMax := match prev with None => nTime block | Some p => Z.max (nTimeMax p) (nTime block) end in
    let work := add (match prev with None => zero | Some p => nChainWork p end) proof in
    let modifier := ComputeStakeModifier prev
      (if IsNull (prevoutStake block) then hash else OutPoint.hash (prevoutStake block)) in
    let s := <[hash := mkIndex block parent skip height work modifier
                         (RaiseValidity BLOCK_VALID_TREE 0).2 timeMax]> s in
    better ← match best_header m with
             | None => Some true
             | Some h => x ← s !! h; Some (lt (nChainWork x) work)
             end;
    Some (hash, mkManager s
                  (if better : bool then Some hash else best_header m)
                  (if IsNull (prevoutStake block) then setStakeSeen m
                   else {[(prevoutStake block, nTime block)]} ∪ setStakeSeen m)
                  ({[hash]} ∪ m_dirty_blockindex m)).

Definition BlockManager_new : BlockManager := mkManager ∅ None ∅ ∅.

(** The members of a header at their widths. *)
Definition header_ok (block : CBlockHeader) : Prop := in_u32 (nBits block) /\ in_u32 (nTime block).

(** Managers built by adding headers. *)
Inductive built : BlockManager -> Prop :=
  | built_new : built BlockManager_new
  | built_add block m h m' :
      built m -> header_ok block -> AddToBlockIndex block m = Some (h, m') -> built m'.
End Blocks.

(** ** The active chain *)

(** [CChain::vChain]; heights are [int]s, and converted to indexes where the vector is
    read. *)
Abbreviation CChain := (list (option N)).

Definition Height (v : CChain) : Z := Z.of_nat (length v) - 1.
Definition Tip (v : CChain) : option N := default None (last v).

Definition at_ (v : CChain) (height : Z) : option N :=
  if (height <? 0) || (Z.of_nat (length v) <=? height) then None
  else default None (v !! Z.to_nat height).

Definition Contains (s : BlockMap) (v : CChain) (i : N) : option bool :=
  b ← s !! i; Some (bool_decide (at_ v (nHeight b) = Some i)).

Definition Next (s : BlockMap) (v : CChain) (i : N) : option (option N) :=
  c ← Contains s v i;
  b ← s !! i;
  Some (if c : bool then at_ v (i32 (nHeight b + 1)) else None).

(** [std::vector::resize]: cut, or filled with null pointers. *)
Definition resize (n : nat) (v : CChain) : CChain := take n v ++ replicate (n - length v) None.

Fixpoint set_tip_loop (fuel : nat) (s : BlockMap) (pindex : option N) (v : CChain) : option CChain :=
  match fuel with
  | O => None
  | S fuel =>
      match pindex with
      | None => Some v
      | Some i =>
          b ← s !! i;
          x ← v !! Z.to_nat (nHeight b);
          if bool_decide (x = Some i) then Some v
          else set_tip_loop fuel s (pprev b) (<[Z.to_nat (nHeight b) := Some i]> v)
      end
  end.

Definition SetTip (s : BlockMap) (i : N) (v : CChain) : option CChain :=
  b ← s !! i;
  set_tip_loop (S (S (Z.to_nat (nHeight b)))) s (Some i) (resize (Z.to_nat (i32 (nHeight b + 1))) v).

Fixpoint fork_loop (fuel : nat) (s : BlockMap) (v : CChain) (pindex : option N) : option (option N) :=
  match fuel with
  | O => None
  | S fuel =>
      match pindex with
      | None => Some None
      | Some i =>
          c ← Contains s v i;
          if c : bool then Some (Some i)
          else b ← s !! i; fork_loop fuel s v (pprev b)
      end
  end.

Definition FindFork (s : BlockMap) (v : CChain) (pindex : option N) : option (option N) :=
  match pindex with
  | None => Some None
  | Some i =>
      b ← s !! i;
      start ← (if Height v <? nHeight b then GetAncestor s i (Height v) else Some (Some i));
      fork_loop (S (S (Z.to_nat (nHeight b)))) s v start
  end.

(** ** Ancestors by parent pointers *)

(** The entry [k] parents back: the reference the skip list is compared with. *)
Fixpoint anc (s : BlockMap) (i : N) (k : nat) : option N :=
  match k with
  | O => Some i
  | S k => b ← s !! i; j ← pprev b; anc s j k
  end.

Lemma anc_add s k : forall m i, anc s i (k + m) = anc s i k ≫= fun j => anc s j m.
Proof.
  induction k as [|k IH]; intros m i; cbn; [done|].
  destruct (s !! i) as [b|]; cbn; [|done]. destruct (pprev b) as [j|]; cbn; [|done]. apply IH.
Qed.

Lemma anc_mono s s' k : s ⊆ s' -> forall i j, anc s i k = Some j -> anc s' i k = Some j.
Proof.
  intros Hs. induction k as [|k IH]; intros i j; cbn; [done|].
  destruct (s !! i) as [b|] eqn:E; cbn; [|done]. rewrite (lookup_weaken _ _ _ _ E Hs). cbn.
  destruct (pprev b); cbn; [|done]. apply IH.
Qed.

(** ** Skip heights *)

Lemma InvertLowestOne_bound n : 0 < n -> 0 <= InvertLowestOne n < n.
Proof.
  intros Hn. unfold InvertLowestOne. split; [apply Z.land_nonneg; lia|].
  assert (Z.land n (n - 1) <= n - 1); [|lia].
  assert (Z.ldiff (Z.land n (n - 1)) (n - 1) = 0) as H.
  { apply Z.bits_inj'. intros k Hk. rewrite Z.ldiff_spec, Z.land_spec, Z.bits_0.
    by destruct (Z.testbit n k), (Z.testbit (n - 1) k). }
  apply Z.ldiff_le; [lia|done].
Qed.

Lemma InvertLowestOne_0 : InvertLowestOne 0 = 0.
Proof. done. Qed.

Lemma GetSkipHeight_bound h : 0 < h -> 0 <= GetSkipHeight h < h.
Proof.
  intros Hh. unfold GetSkipHeight. destruct (Z.ltb_spec h 2); [lia|].
  destruct (Z.odd h); [|by apply InvertLowestOne_bound].
  pose proof (InvertLowestOne_bound (h - 1) ltac:(lia)) as H1.
  destruct (Z.eq_dec (InvertLowestOne (h - 1)) 0) as [->|Hne]; [rewrite InvertLowestOne_0; lia|].
  pose proof (InvertLowestOne_bound (InvertLowestOne (h - 1)) ltac:(lia)). lia.
Qed.

Lemma GetSkipHeight_0 : GetSkipHeight 0 = 0.
Proof. done. Qed.

(** ** The invariant of the tree *)

(** A root has height 0 and no skip pointer; any other entry is one above its parent
    and skips to the ancestor at its skip height. *)
Record entry_ok (s : BlockMap) (i : N) (b : CBlockIndex) : Prop := {
  eo_height : 0 <= nHeight b;
  eo_root : pprev b = None -> nHeight b = 0 /\ pskip b = None;
  eo_child : forall j, pprev b = Some j ->
    exists p, s !! j = Some p /\ nHeight b = nHeight p + 1 /\
      exists k, pskip b = Some k /\ anc s i (Z.to_nat (nHeight b - GetSkipHeight (nHeight b))) = Some k
}.

Definition tree_ok (s : BlockMap) : Prop := map_Forall (entry_ok s) s.

Section Tree.
Context (s : BlockMap) (Hs : tree_ok s).

(** Every height below an entry's has its ancestor. *)
Lemma anc_at k : forall i b, s !! i = Some b -> Z.of_nat k <= nHeight b ->
  exists j p, anc s i k = Some j /\ s !! j = Some p /\ nHeight p = nHeight b - Z.of_nat k.
Proof.
  induction k as [|k IH]; intros i b Hb Hk.
  { exists i, b. split_and!; [done|done|lia]. }
  destruct (Hs i b Hb) as [H0 Hr Hc]. destruct (pprev b) as [j|] eqn:Ej.
  - destruct (Hc j eq_refl) as (p & Hp & Hh & _).
    destruct (IH j p Hp ltac:(lia)) as (j' & p' & Hj' & Hp' & Hh').
    exists j', p'. cbn. rewrite Hb. cbn. rewrite Ej. cbn. split_and!; [done|done|lia].
  - destruct (Hr eq_refl). lia.
Qed.

(** No entry has an ancestor below the root. *)
Lemma anc_beyond k : forall i b, s !! i = Some b -> nHeight b < Z.of_nat k -> anc s i k = None.
Proof.
  induction k as [|k IH]; intros i b Hb Hk; [destruct (Hs i b Hb); lia|]. cbn. rewrite Hb. cbn.
  destruct (pprev b) as [j|] eqn:Ej; [|done]. cbn.
  destruct (eo_child _ _ _ (Hs i b Hb) j Ej) as (p & Hp & Hh & _). apply (IH j p Hp). lia.
Qed.

Lemma anc_height i b k j :
  s !! i = Some b -> anc s i k = Some j ->
  exists p, s !! j = Some p /\ nHeight p = nHeight b - Z.of_nat k.
Proof.
  intros Hb Hj. destruct (Z.le_gt_cases (Z.of_nat k) (nHeight b)) as [Hk|Hk].
  - destruct (anc_at k i b Hb Hk) as (j' & p & Hj' & Hp & Hh). rewrite Hj in Hj'. injection Hj' as <-. eauto.
  - by rewrite (anc_beyond k i b Hb) in Hj by lia.
Qed.

(** One step of parents, and the rest. *)
Lemma anc_pprev i b j h :
  s !! i = Some b -> pprev b = Some j -> h < nHeight b ->
  anc s i (Z.to_nat (nHeight b - h)) = anc s j (Z.to_nat (nHeight b - 1 - h)).
Proof.
  intros Hb Hj Hh. replace (Z.to_nat (nHeight b - h)) with (S (Z.to_nat (nHeight b - 1 - h))) by lia.
  cbn. rewrite Hb. cbn. by rewrite Hj.
Qed.

Lemma ancestor_walk_spec fuel : forall i b h,
  s !! i = Some b -> 0 <= h <= nHeight b -> nHeight b - h < Z.of_nat fuel ->
  ancestor_walk fuel s i (nHeight b) h = anc s i (Z.to_nat (nHeight b - h)).
Proof.
  induction fuel as [|fuel IH]; intros i b h Hb Hh Hf; [lia|]. cbn [ancestor_walk].
  destruct (Z.leb_spec (nHeight b) h) as [Hle|Hgt]; [by replace (nHeight b - h) with 0 by lia|].
  rewrite Hb. cbn [mbind option_bind].
  destruct (Hs i b Hb) as [_ Hr Hc]. destruct (pprev b) as [j|] eqn:Ej; [|destruct (Hr eq_refl); lia].
  destruct (Hc j eq_refl) as (p & Hp & Hhp & k & Hk & Hak). rewrite Hk. cbn [mbind option_bind].
  pose proof (GetSkipHeight_bound (nHeight b) ltac:(lia)) as Hsk.
  assert (ancestor_walk fuel s j (nHeight b - 1) h = anc s i (Z.to_nat (nHeight b - h))) as Hprev.
  { rewrite (anc_pprev i b j h Hb Ej Hgt). replace (nHeight b - 1) with (nHeight p) by lia.
    apply IH; [done|lia|lia]. }
  match goal with |- (if ?c then _ else _) = _ => destruct c eqn:Hfol; [|exact Hprev] end.
  assert (h <= GetSkipHeight (nHeight b)) as Hle by (clear - Hfol; bool_to_prop; lia).
  destruct (anc_height _ _ _ _ Hb Hak) as (q & Hq & Hhq). rewrite Z2Nat.id in Hhq by lia.
  replace (Z.to_nat (nHeight b - h))
    with (Z.to_nat (nHeight b - GetSkipHeight (nHeight b)) + Z.to_nat (GetSkipHeight (nHeight b) - h))%nat by lia.
  rewrite anc_add, Hak. cbn [mbind option_bind].
  replace (GetSkipHeight (nHeight b)) with (nHeight q) by lia. apply IH; [done|lia|lia].
Qed.

(** [GetAncestor] follows skip pointers to the ancestor the parents lead to. *)
Lemma GetAncestor_spec i b h :
  s !! i = Some b ->
  GetAncestor s i h =
  if (nHeight b <? h) || (h <? 0) then Some None
  else Some (anc s i (Z.to_nat (nHeight b - h))).
Proof.
  intros Hb. unfold GetAncestor. rewrite Hb. cbn [mbind option_bind].
  destruct (Z.ltb_spec (nHeight b) h); [done|]. destruct (Z.ltb_spec h 0); [done|]. cbn [orb].
  rewrite ancestor_walk_spec by (done || lia).
  destruct (anc_at (Z.to_nat (nHeight b - h)) i b Hb ltac:(lia)) as (j & p & -> & _). done.
Qed.
End Tree.

(** ** Work of a block *)

Lemma proof_quotient t :
  wf t -> 0 < val t -> val t + 1 < 2 ^ 256 ->
  exists q, div (bnot t) (add t (of_u64 1)) = Some q /\
    wf (add q (of_u64 1)) /\ val (add q (of_u64 1)) = 2 ^ 256 / (val t + 1).
Proof.
  intros Ht Hpos Hmax. destruct (wf_of_u64 1 ltac:(unfold in_u64; lia)) as [W1 V1].
  destruct (add_spec t (of_u64 1) Ht W1) as [Wa Va]. rewrite V1, Z.mod_small in Va by lia.
  destruct (bnot_spec t (proj2 Ht)) as (Lb & Ob & Vb).
  assert (wf (bnot t)) as Wb by (split; [by rewrite Lb; apply Ht|done]).
  rewrite (proj1 Ht), pow_B_width in Vb.
  pose proof (div_spec _ _ Wb Wa) as Hd. destruct (div _ _) as [q|]; [|lia].
  destruct Hd as (_ & Wq & Vq). exists q. split; [done|].
  destruct (add_spec q (of_u64 1) Wq W1) as [Ws Vs]. split; [done|].
  assert (2 ^ 256 / (val t + 1) = val q + 1) as E.
  { rewrite Vq, Vb, Va. rewrite <- Z.div_add by lia. f_equal. lia. }
  rewrite Vs, V1, E, Z.mod_small; [done|].
  assert (0 <= val q) by (rewrite Vq, Vb, Va; apply Z.div_pos; lia).
  assert (2 ^ 256 / (val t + 1) < 2 ^ 256) by (apply Z.div_lt; lia). lia.
Qed.

(** A decoded target is not the largest number: it has trailing zero bits or is small. *)
Lemma decoded_not_max c : in_u32 c -> compact_exact c < 2 ^ 256 -> compact_exact c + 1 < 2 ^ 256.
Proof.
  intros Hc Hlt. destruct (SetCompact_parts c Hc) as (_ & _ & He & Hm).
  assert (compact_exact c <> 2 ^ 256 - 1); [|lia]. unfold compact_exact in *.
  destruct (Z.leb_spec (c / 2 ^ 24) 3).
  - assert (0 < 256 ^ (3 - c / 2 ^ 24)) by (apply Z.pow_pos_nonneg; lia).
    assert (c mod 2 ^ 23 / 256 ^ (3 - c / 2 ^ 24) <= c mod 2 ^ 23) by (apply Z.div_le_upper_bound; nia).
    assert (2 ^ 23 < 2 ^ 256 - 1) by done. lia.
  - replace (c / 2 ^ 24 - 3) with (1 + (c / 2 ^ 24 - 4)) by lia. rewrite Z.pow_add_r by lia.
    set (x := 256 ^ (c / 2 ^ 24 - 4)). set (m := c mod 2 ^ 23). intros Hq.
    assert ((2 ^ 256 - 1) mod 256 = 0) as Hz; [|by vm_compute in Hz].
    rewrite <- Hq. replace (m * (256 ^ 1 * x)) with ((m * x) * 256) by (change (256 ^ 1) with 256; ring).
    apply Z.mod_mul. lia.
Qed.

(** The number of hashes expected to meet a target, 0 for an invalid compact word. *)
Definition expected_hashes (bits : Z) : Z :=
  let v := compact_exact bits in
  if (0 <? v) && (v <? 2 ^ 256) && negb (Z.testbit bits 23) then 2 ^ 256 / (v + 1) else 0.

Lemma GetBlockProof_spec bits :
  in_u32 bits -> exists p, GetBlockProof bits = Some p /\ wf p /\ val p = expected_hashes bits.
Proof.
  intros Hb. pose proof (SetCompact_spec bits Hb) as Hsc. unfold GetBlockProof, expected_hashes.
  destruct (SetCompact bits) as [[t ng] ov]. destruct Hsc as (Wt & Vt & Hov & Hng).
  destruct (SetCompact_parts bits Hb) as (_ & _ & He & Hm).
  assert (0 <= compact_exact bits) as H0.
  { unfold compact_exact. destruct (Z.leb_spec (bits / 2 ^ 24) 3); [apply Z.div_pos; [lia|]|
      apply Z.mul_nonneg_nonneg; [lia|]]; (apply Z.pow_pos_nonneg || apply Z.pow_nonneg); lia. }
  rewrite EqualTo_0 by done. set (v := compact_exact bits) in *.
  destruct ov.
  { rewrite orb_true_r. cbn [orb]. exists zero. destruct (wf_zero) as [Wz Vz]. split_and!; [done|done|].
    pose proof (proj1 Hov eq_refl). destruct (Z.ltb_spec v (2 ^ 256)); [lia|]. by rewrite andb_false_r. }
  assert (v < 2 ^ 256) as Hv by (destruct (Z.lt_ge_cases v (2 ^ 256)) as [|Hge]; [done|by apply Hov in Hge]).
  rewrite Z.mod_small in Vt by lia. rewrite Vt.
  destruct (Z.ltb_spec v (2 ^ 256)); [|lia]. rewrite andb_true_r.
  destruct (Z.eqb_spec v 0) as [E0|Hne].
  { rewrite orb_true_r, E0. exists zero. by destruct wf_zero. }
  destruct (Z.ltb_spec 0 v); [|lia]. destruct ng.
  - destruct (proj1 Hng eq_refl) as [_ ->]. exists zero. by destruct wf_zero.
  - destruct (Z.testbit bits 23) eqn:Et; [discriminate (proj2 Hng (conj Hne eq_refl))|].
    cbn [orb andb negb]. destruct (proof_quotient t Wt) as (q & Eq & Wq & Vq);
      [lia|rewrite Vt; by apply decoded_not_max|].
    rewrite Eq. cbn [mbind option_bind]. exists (add q (of_u64 1)). by rewrite Vq, Vt.
Qed.

(** ** Building the index *)

(** A new entry does not change the ancestors of the others. *)
Lemma entry_ok_mono (s s' : BlockMap) i b : s ⊆ s' -> entry_ok s i b -> entry_ok s' i b.
Proof.
  intros Hs [H0 Hr Hc]. split; [done|done|]. intros j Hj.
  destruct (Hc j Hj) as (p & Hp & Hh & k & Hk & Ha). exists p.
  split; [by apply (lookup_weaken _ _ _ _ Hp)|]. split; [done|]. exists k. split; [done|].
  by apply (anc_mono s).
Qed.

Lemma tree_ok_add s i b :
  tree_ok s -> s !! i = None -> entry_ok (<[i := b]> s) i b -> tree_ok (<[i := b]> s).
Proof.
  intros Hs Hi Hb. apply map_Forall_insert_2; [done|]. intros j x Hx.
  apply (entry_ok_mono s); [by apply insert_subseteq|by apply Hs].
Qed.

Lemma ancestor_walk_mono (s s' : BlockMap) fuel : s ⊆ s' -> forall i hw h j,
  ancestor_walk fuel s i hw h = Some j -> ancestor_walk fuel s' i hw h = Some j.
Proof.
  intros Hs. induction fuel as [|fuel IH]; intros i hw h j; cbn [ancestor_walk]; [done|].
  destruct (hw <=? h); [done|]. destruct (s !! i) as [b|] eqn:E; [|done].
  rewrite (lookup_weaken _ _ _ _ E Hs). cbn [mbind option_bind].
  destruct (pskip b) as [k|]; [match goal with |- context [if ?c then _ else _] => destruct c end|];
    [by apply IH| |]; (destruct (pprev b); [cbn [mbind option_bind]; apply IH|done]).
Qed.

Lemma GetAncestor_mono (s s' : BlockMap) i h j :
  s ⊆ s' -> GetAncestor s i h = Some j -> GetAncestor s' i h = Some j.
Proof.
  intros Hs. unfold GetAncestor. destruct (s !! i) as [b|] eqn:E; [|done].
  rewrite (lookup_weaken _ _ _ _ E Hs). cbn [mbind option_bind]. case_if; [done|].
  destruct (ancestor_walk _ s i _ h) as [k|] eqn:Ek; [|done].
  by rewrite (ancestor_walk_mono s s' _ Hs _ _ _ _ Ek).
Qed.

(** The skip pointer [AddToBlockIndex] computes; the entry added is not looked at. *)
Lemma BuildSkip_spec s i b j p :
  tree_ok s -> s !! i = None -> s !! j = Some p ->
  exists k, BuildSkip (<[i := b]> s) j (nHeight p + 1) = Some (Some k) /\
    anc s j (Z.to_nat (nHeight p - GetSkipHeight (nHeight p + 1))) = Some k.
Proof.
  intros Hs Hi Hp. pose proof (eo_height _ _ _ (Hs j p Hp)) as H0.
  pose proof (GetSkipHeight_bound (nHeight p + 1) ltac:(lia)) as Hsk.
  set (h := GetSkipHeight (nHeight p + 1)) in *.
  destruct (anc_at s Hs (Z.to_nat (nHeight p - h)) j p Hp ltac:(lia)) as (k & q & Hk & _).
  exists k. split; [|done]. unfold BuildSkip. fold h.
  pose proof (GetAncestor_spec s Hs j p h Hp) as HG.
  destruct (Z.ltb_spec (nHeight p) h); [lia|]. destruct (Z.ltb_spec h 0); [lia|]. cbn [orb] in HG.
  rewrite Hk in HG. apply (GetAncestor_mono s); [by apply insert_subseteq|done].
Qed.

(** The work of an entry is its parent's plus its own, in 256 bits. *)
Definition work_ok (s : BlockMap) (b : CBlockIndex) : Prop :=
  wf (nChainWork b) /\
  val (nChainWork b) =
    (match pprev b ≫= fun j => s !! j with None => 0 | Some p => val (nChainWork p) end +
     expected_hashes (nBits (header b))) mod 2 ^ 256.

Record manager_ok (m : BlockManager) : Prop := {
  mo_tree : tree_ok (m_block_index m);
  mo_heights : map_Forall (fun _ b => nHeight b < Z.of_nat (size (m_block_index m))) (m_block_index m);
  mo_work : map_Forall (fun _ b => work_ok (m_block_index m) b) (m_block_index m);
  mo_best : match best_header m with
            | None => m_block_index m = ∅
            | Some h => exists x, m_block_index m !! h = Some x /\
                map_Forall (fun _ b => val (nChainWork b) <= val (nChainWork x)) (m_block_index m)
            end
}.

Lemma manager_new_ok : manager_ok BlockManager_new.
Proof. split; cbn; [apply map_Forall_empty..|done]. Qed.

Lemma work_ok_mono s i b x :
  tree_ok s -> s !! i = None -> work_ok s x -> (forall j, pprev x = Some j -> is_Some (s !! j)) ->
  work_ok (<[i := b]> s) x.
Proof.
  intros Hs Hi [Hw Hv] Hp. split; [done|]. rewrite Hv. destruct (pprev x) as [j|]; [|done]. cbn.
  destruct (Hp j eq_refl) as [p Hj]. rewrite lookup_insert_ne by congruence. by rewrite Hj.
Qed.

(** Inserting an entry with a new key keeps the invariant, whichever header is best. *)
Lemma manager_add_ok m i b best seen dirty :
  manager_ok m -> m_block_index m !! i = None ->
  let s := <[i := b]> (m_block_index m) in
  entry_ok s i b -> nHeight b < Z.of_nat (size s) -> work_ok s b ->
  (exists h x, best = Some h /\ s !! h = Some x /\ val (nChainWork b) <= val (nChainWork x) /\
     map_Forall (fun _ y => val (nChainWork y) <= val (nChainWork x)) (m_block_index m)) ->
  manager_ok (mkManager s best seen dirty).
Proof.
  intros [Ht Hh Hw _] Hi s Hb Hhb Hwb (h & x & -> & Hx & Hbx & Hmax). split; cbn.
  - by apply tree_ok_add.
  - apply map_Forall_insert_2; [done|]. intros j y Hy. unfold s. rewrite map_size_insert_None by done.
    assert (nHeight y < Z.of_nat (size (m_block_index m))) by exact (Hh j y Hy). lia.
  - apply map_Forall_insert_2; [done|]. intros j y Hy. apply work_ok_mono; [done|done|by apply (Hw j)|].
    intros k Hk. destruct (eo_child _ _ _ (Ht j y Hy) k Hk) as (p & Hp & _). by exists p.
  - exists x. split; [done|]. by apply map_Forall_insert_2.
Qed.

(** The parent, height and skip pointer of a new entry. *)
Lemma new_entry_ok (s : BlockMap) i j block :
  tree_ok s -> s !! i = None -> i <> j ->
  map_Forall (fun _ b => nHeight b < Z.of_nat (size s)) s -> Z.of_nat (size s) < 2147483647 ->
  let prev := s !! j in
  let parent := match prev with None => None | Some _ => Some j end in
  let height := match prev with None => 0 | Some p => i32 (nHeight p + 1) end in
  exists skip,
    match prev with
    | None => Some None
    | Some _ => BuildSkip (<[i := mkIndex block parent None height zero 0 0 0]> s) j height
    end = Some skip /\
    forall b, pprev b = parent -> pskip b = skip -> nHeight b = height ->
      entry_ok (<[i := b]> s) i b /\ nHeight b < Z.of_nat (S (size s)).
Proof.
  intros Hs Hi Hij Hh Hsz prev parent height. unfold height, parent, prev. clear height parent prev.
  destruct (s !! j) as [p|] eqn:Ep.
  - pose proof (eo_height _ _ _ (Hs j p Ep)) as H0.
    assert (nHeight p < Z.of_nat (size s)) as Hp by exact (Hh j p Ep).
    rewrite i32_id by (unfold in_i32; lia).
    destruct (BuildSkip_spec s i (mkIndex block (Some j) None (nHeight p + 1) zero 0 0 0) j p Hs Hi Ep) as (k & Hk & Ha).
    exists (Some k). split; [done|]. intros b E1 E2 E3. split; [|lia]. split; [lia|congruence|].
    intros j' Hj'. rewrite E1 in Hj'. injection Hj' as <-. exists p.
    split; [by rewrite lookup_insert_ne|]. split; [lia|]. exists k. split; [done|].
    pose proof (GetSkipHeight_bound (nHeight p + 1) ltac:(lia)). rewrite E3.
    replace (Z.to_nat (nHeight p + 1 - GetSkipHeight (nHeight p + 1)))
      with (S (Z.to_nat (nHeight p - GetSkipHeight (nHeight p + 1)))) by lia.
    cbn [anc]. rewrite lookup_insert_eq. cbn [mbind option_bind]. rewrite E1. cbn [mbind option_bind].
    by apply (anc_mono s); [apply insert_subseteq|].
  - exists None. split; [done|]. intros b E1 E2 E3. split; [|lia]. split; [lia|done|congruence].
Qed.

Section Add.
Context {C : Crypto} (GetHash : CBlockHeader -> N).

Lemma AddToBlockIndex_ok block m : GetHash block <> hashPrevBlock block ->
  manager_ok m -> header_ok block -> Z.of_nat (size (m_block_index m)) < 2147483647 ->
  exists m', AddToBlockIndex GetHash block m = Some (GetHash block, m') /\ manager_ok m'.
Proof.
  intros no_self_parent Hm [Hbits _] Hsz. unfold AddToBlockIndex. set (hash := GetHash block).
  case_bool_decide as Hd; [by exists m|]. apply eq_None_not_Some in Hd. rewrite !insert_insert_eq.
  rewrite (lookup_insert_ne _ hash (hashPrevBlock block)) by exact no_self_parent.
  destruct (new_entry_ok (m_block_index m) hash (hashPrevBlock block) block (mo_tree _ Hm) Hd
    no_self_parent (mo_heights _ Hm) Hsz) as (skip & -> & Hentry).
  set (prev := m_block_index m !! hashPrevBlock block) in *.
  destruct (GetBlockProof_spec (nBits block) Hbits) as (pr & -> & Wp & Vp). cbn [mbind option_bind].
  set (work := add (match prev with None => zero | Some p => nChainWork p end) pr).
  match goal with |- context [<[hash := ?x]> _] => set (b := x) end.
  destruct (Hentry b eq_refl eq_refl eq_refl) as [Hb Hhb].
  assert (work_ok (<[hash := b]> (m_block_index m)) b) as Hwb.
  { destruct (wf_zero) as [Wz Vz]. unfold work_ok. cbn [nChainWork pprev header b].
    destruct prev as [p|] eqn:Ep; cbn [mbind option_bind].
    - rewrite lookup_insert_ne by exact no_self_parent. unfold prev in Ep. rewrite Ep.
      destruct (mo_work _ Hm _ _ Ep) as [Wpar _]. rewrite <- Vp. by apply add_spec.
    - rewrite <- Vp, <- Vz. by apply add_spec. }
  rewrite !insert_insert_eq. pose proof (mo_best _ Hm) as Hbest. destruct (best_header m) as [h|].
  - destruct Hbest as (x & Hx & Hmax). rewrite (lookup_insert_ne _ hash h), Hx by congruence.
    cbn [mbind option_bind]. eexists. split; [done|].
    apply manager_add_ok; [done|done|done|by rewrite map_size_insert_None|done|].
    rewrite lt_spec by (apply (mo_work _ Hm h x Hx) || apply Hwb).
    destruct (Z.ltb_spec (val (nChainWork x)) (val work)) as [Hlt|Hge].
    + exists hash, b. rewrite lookup_insert_eq. split_and!; [done|done|done|].
      intros j y Hy. assert (val (nChainWork y) <= val (nChainWork x)) by exact (Hmax j y Hy).
      change (nChainWork b) with work. lia.
    + exists h, x. rewrite (lookup_insert_ne _ hash h) by congruence. by split_and!.
  - cbn [mbind option_bind]. eexists. split; [done|].
    apply manager_add_ok; [done|done|done|by rewrite map_size_insert_None|done|].
    exists hash, b. rewrite lookup_insert_eq, Hbest. split_and!; [done|done|done|apply map_Forall_empty].
Qed.

Lemma AddToBlockIndex_size_new block m h m' :
  AddToBlockIndex GetHash block m = Some (h, m') -> m_block_index m !! GetHash block = None ->
  size (m_block_index m') = S (size (m_block_index m)).
Proof.
  intros Ha Hd. revert Ha. unfold AddToBlockIndex. rewrite bool_decide_eq_false_2 by (rewrite Hd; by intros [? [=]]).
  intros (skip & _ & (pr & _ & (better & _ & [= _ <-])%bind_Some)%bind_Some)%bind_Some. cbn.
  rewrite insert_insert_eq. by rewrite map_size_insert_None.
Qed.

Lemma built_headers m : built GetHash m -> map_Forall (fun _ b => header_ok (header b)) (m_block_index m).
Proof.
  induction 1 as [|block m h m' Hb IH Hh Ha]; [apply map_Forall_empty|].
  revert Ha. unfold AddToBlockIndex. case_bool_decide as Hd; [by intros [= _ <-]|].
  intros (skip & _ & (pr & _ & (better & _ & [= _ <-])%bind_Some)%bind_Some)%bind_Some. cbn.
  rewrite insert_insert_eq. by apply map_Forall_insert_2.
Qed.

Hypothesis no_self_parent : forall block, GetHash block <> hashPrevBlock block.

Lemma built_ok m : built GetHash m -> Z.of_nat (size (m_block_index m)) <= 2147483647 -> manager_ok m.
Proof.
  induction 1 as [|block m h m' Hb IH Hh Ha]; intros Hsz; [apply manager_new_ok|].
  destruct (m_block_index m !! GetHash block) as [x|] eqn:Hd.
  - unfold AddToBlockIndex in Ha. rewrite bool_decide_eq_true_2 in Ha by eauto. injection Ha as _ <-. by apply IH.
  - rewrite (AddToBlockIndex_size_new _ _ _ _ Ha) in Hsz by done.
    destruct (AddToBlockIndex_ok block m (no_self_parent block) (IH ltac:(lia)) Hh ltac:(lia)) as (m1 & Hm1 & Hok). congruence.
Qed.
End Add.

(** ** Common ancestors *)

Definition is_ancestor (s : BlockMap) (i j : N) : Prop := exists k, anc s i k = Some j.

Section Common.
Context (s : BlockMap) (Hs : tree_ok s).

(** Two branches of the same height meet at the first common parent, or not at all. *)
Lemma common_loop_spec fuel : forall a b x y,
  s !! a = Some x -> s !! b = Some y -> nHeight x = nHeight y -> nHeight x + 1 < Z.of_nat fuel ->
  exists r, common_loop fuel s (Some a) (Some b) = Some r /\
    match r with
    | Some j => exists k, anc s a k = Some j /\ anc s b k = Some j /\
                  forall k', (k' < k)%nat -> anc s a k' <> anc s b k'
    | None => forall k c, anc s a k = Some c -> anc s b k <> Some c
    end.
Proof.
  induction fuel as [|fuel IH]; intros a b x y Hx Hy Hh Hf; [destruct (Hs a x Hx); lia|]. cbn [common_loop].
  destruct (N.eqb_spec a b) as [<-|Hne].
  { exists (Some a). split; [done|]. exists 0%nat. split_and!; [done|done|lia]. }
  rewrite Hx, Hy. cbn [mbind option_bind].
  destruct (Hs a x Hx) as [X0 Xr Xc], (Hs b y Hy) as [Y0 Yr Yc].
  assert (forall k, anc s a (S k) = pprev x ≫= fun j => anc s j k) as Ea by (intros; cbn; by rewrite Hx).
  assert (forall k, anc s b (S k) = pprev y ≫= fun j => anc s j k) as Eb by (intros; cbn; by rewrite Hy).
  destruct (pprev x) as [a'|], (pprev y) as [b'|].
  - destruct (Xc a' eq_refl) as (px & Hpx & Hhx & _), (Yc b' eq_refl) as (py & Hpy & Hhy & _).
    destruct (IH a' b' px py Hpx Hpy ltac:(lia) ltac:(lia)) as (r & Hr & Hspec).
    exists r. split; [done|]. destruct r as [j|].
    + destruct Hspec as (k & Hk1 & Hk2 & Hk3). exists (S k). rewrite Ea, Eb. split_and!; [done|done|].
      intros [|k'] Hk'; [by intros [= ->]|]. rewrite Ea, Eb. apply Hk3. lia.
    + intros [|k] c; [intros [= <-] [= ->]; done|]. rewrite Ea, Eb. apply Hspec.
  - destruct (Xc a' eq_refl) as (px & Hpx & Hhx & _), (Yr eq_refl) as [Hy0 _].
    destruct (Hs a' px Hpx). lia.
  - destruct (Yc b' eq_refl) as (py & Hpy & Hhy & _), (Xr eq_refl) as [Hx0 _].
    destruct (Hs b' py Hpy). lia.
  - destruct fuel as [|fuel]; [lia|]. exists None. split; [done|].
    intros [|k] c; [intros [= <-] [= ->]; done|]. by rewrite Ea.
Qed.

(** Ancestors at the level of [i], seen from one of them. *)
Lemma anc_from i b k j m c :
  s !! i = Some b -> anc s i k = Some j -> anc s i m = Some c -> (k <= m)%nat -> anc s j (m - k) = Some c.
Proof.
  intros Hb Hk Hm Hle. replace m with (k + (m - k))%nat in Hm by lia. by rewrite anc_add, Hk in Hm.
Qed.

(** The entry on the branch of [i] at height [h]: what each side is moved to first. *)
Lemma level_spec i b h :
  s !! i = Some b -> 0 <= h <= nHeight b ->
  exists j p, (if h <? nHeight b then GetAncestor s i h else Some (Some i)) = Some (Some j) /\
    s !! j = Some p /\ nHeight p = h /\ anc s i (Z.to_nat (nHeight b - h)) = Some j.
Proof.
  intros Hb Hh. destruct (anc_at s Hs (Z.to_nat (nHeight b - h)) i b Hb ltac:(lia)) as (j & p & Hj & Hp & Hhp).
  exists j, p. split_and!; [|done|lia|done]. destruct (Z.ltb_spec h (nHeight b)).
  - rewrite (GetAncestor_spec s Hs i b h Hb). destruct (Z.ltb_spec (nHeight b) h); [lia|].
    destruct (Z.ltb_spec h 0); [lia|]. cbn [orb]. by rewrite Hj.
  - replace (nHeight b - h) with 0 in Hj by lia. injection Hj as ->. done.
Qed.

Lemma LastCommonAncestor_spec a b x y :
  s !! a = Some x -> s !! b = Some y ->
  exists r, LastCommonAncestor s a b = Some r /\
    match r with
    | Some j => is_ancestor s a j /\ is_ancestor s b j /\
                forall c, is_ancestor s a c -> is_ancestor s b c -> is_ancestor s j c
    | None => forall c, is_ancestor s a c -> ~ is_ancestor s b c
    end.
Proof.
  intros Hx Hy. set (h := Z.min (nHeight x) (nHeight y)).
  destruct (Hs a x Hx) as [X0 _ _], (Hs b y Hy) as [Y0 _ _].
  destruct (level_spec a x h Hx ltac:(lia)) as (a' & x' & Ha & Hx' & Hhx & Haa).
  destruct (level_spec b y h Hy ltac:(lia)) as (b' & y' & Hb & Hy' & Hhy & Hbb).
  assert (LastCommonAncestor s a b = common_loop (S (S (Z.to_nat (nHeight x)))) s (Some a') (Some b')) as ->.
  { unfold LastCommonAncestor. rewrite Hx, Hy. cbn [mbind option_bind]. unfold h in *.
    destruct (Z.ltb_spec (nHeight y) (nHeight x)), (Z.ltb_spec (nHeight x) (nHeight y)); try lia;
      rewrite ?Z.min_r, ?Z.min_l in Ha, Hb by lia;
      destruct (Z.ltb_spec (nHeight x) (nHeight x)), (Z.ltb_spec (nHeight y) (nHeight y)),
        (Z.ltb_spec (nHeight y) (nHeight x)), (Z.ltb_spec (nHeight x) (nHeight y)); try lia;
      rewrite ?Ha, ?Hb; cbn [mbind option_bind]; congruence. }
  assert (forall c, is_ancestor s a c -> is_ancestor s b c ->
            exists k, anc s a' k = Some c /\ anc s b' k = Some c) as Hcommon.
  { intros c [m Hm] [n Hn].
    destruct (anc_height s Hs a x m c Hx Hm) as (p & Hp & E1).
    destruct (anc_height s Hs b y n c Hy Hn) as (q & Hq & E2). rewrite Hp in Hq. injection Hq as <-.
    destruct (Hs c p Hp) as [P0 _ _]. exists (Z.to_nat (h - nHeight p)).
    pose proof (anc_from a x _ a' m c Hx Haa Hm ltac:(lia)) as F1.
    pose proof (anc_from b y _ b' n c Hy Hbb Hn ltac:(lia)) as F2.
    split; [rewrite <- F1|rewrite <- F2]; f_equal; lia. }
  destruct (common_loop_spec (S (S (Z.to_nat (nHeight x)))) a' b' x' y' Hx' Hy' ltac:(lia) ltac:(lia))
    as (r & Hr & Hspec).
  exists r. split; [done|]. destruct r as [j|].
  - destruct Hspec as (k & Hk1 & Hk2 & Hk3). split; [|split].
    + exists (Z.to_nat (nHeight x - h) + k)%nat. by rewrite anc_add, Haa.
    + exists (Z.to_nat (nHeight y - h) + k)%nat. by rewrite anc_add, Hbb.
    + intros c Hca Hcb. destruct (Hcommon c Hca Hcb) as (k' & E1 & E2).
      exists (k' - k)%nat. apply (anc_from a' x' k j k' c Hx' Hk1 E1).
      destruct (Nat.lt_ge_cases k' k) as [Hlt|]; [|done]. destruct (Hk3 k' Hlt). congruence.
  - intros c Hca Hcb. destruct (Hcommon c Hca Hcb) as (k' & E1 & E2). by apply (Hspec k' c).
Qed.
End Common.

(** ** The active chain *)

(** The vector below [n] holds branches: an entry has its height, and below it are its
    ancestors.  Null pointers may remain. *)
Definition closed_below (s : BlockMap) (v : CChain) (n : nat) : Prop :=
  forall h i, (h < n)%nat -> v !! h = Some (Some i) ->
    exists b, s !! i = Some b /\ nHeight b = Z.of_nat h /\
      forall h', (h' <= h)%nat -> v !! h' = Some (anc s i (h - h')).

(** A chain: every element is an entry, with its ancestors below it. *)
Definition chain_ok (s : BlockMap) (v : CChain) : Prop :=
  closed_below s v (length v) /\ Forall is_Some v.

Lemma chain_ok_nil s : chain_ok s [].
Proof. split; [|constructor]. intros h i _ H. by rewrite lookup_nil in H. Qed.

(** [v] is the branch of the entry [i] with height [H]. *)
Definition branch_of (s : BlockMap) (i : N) (H : nat) (v : CChain) : Prop :=
  length v = S H /\ forall h, (h <= H)%nat -> v !! h = Some (anc s i (H - h)).

Lemma lookup_resize n v h :
  (h < n)%nat -> resize n v !! h = Some (default None (v !! h)).
Proof.
  intros Hh. unfold resize. destruct (decide (h < length v)%nat) as [Hl|Hl].
  - rewrite lookup_app_l by (rewrite length_take; lia). rewrite lookup_take_lt by lia.
    destruct (v !! h) eqn:E; [done|]. apply lookup_ge_None in E. lia.
  - rewrite lookup_app_r by (rewrite length_take; lia). rewrite length_take.
    rewrite lookup_replicate_2 by lia. destruct (v !! h) eqn:E; [|done].
    apply lookup_lt_Some in E. lia.
Qed.

Lemma resize_length n v : length (resize n v) = n.
Proof. unfold resize. rewrite length_app, length_take, length_replicate. lia. Qed.

Lemma resize_closed s v n : chain_ok s v -> closed_below s (resize n v) n.
Proof.
  intros [Hc _] h i Hh Hi. rewrite lookup_resize in Hi by done. injection Hi as Hi.
  destruct (v !! h) as [x|] eqn:E; cbn in Hi; [|done]. subst x.
  pose proof (lookup_lt_Some _ _ _ E) as Hlt. destruct (Hc h i Hlt E) as (b & Hb & Hbh & Ha).
  exists b. split_and!; [done|done|]. intros h' Hh'. rewrite lookup_resize by lia. by rewrite Ha by lia.
Qed.

Section SetTip.
Context (s : BlockMap) (Hs : tree_ok s).

(** The loop has filled in the branch of [i] above the entry it looks at. *)
Lemma set_tip_loop_spec i H fuel : forall j p v,
  s !! j = Some p -> (Z.to_nat (nHeight p) <= H)%nat -> anc s i (H - Z.to_nat (nHeight p)) = Some j ->
  length v = S H -> closed_below s v (S (Z.to_nat (nHeight p))) ->
  (forall h, (Z.to_nat (nHeight p) < h <= H)%nat -> v !! h = Some (anc s i (H - h))) ->
  (Z.to_nat (nHeight p) + 1 < fuel)%nat ->
  exists v', set_tip_loop fuel s (Some j) v = Some v' /\ branch_of s i H v'.
Proof.
  induction fuel as [|fuel IH]; intros j p v Hj Hle Hanc Hlen Hcl Hab Hf; [lia|].
  cbn [set_tip_loop]. rewrite Hj. cbn [mbind option_bind].
  set (hp := Z.to_nat (nHeight p)) in *. destruct (Hs j p Hj) as [H0 Hr Hc].
  destruct (v !! hp) as [x|] eqn:Ex; [|apply lookup_ge_None in Ex; lia]. cbn [mbind option_bind].
  case_bool_decide as Hxj.
  - exists v. split; [done|]. split; [done|]. intros h Hh. subst x.
    destruct (Nat.lt_ge_cases hp h); [by apply Hab|].
    destruct (Hcl hp j ltac:(lia) Ex) as (b & _ & _ & Hbel). rewrite Hbel by lia.
    f_equal. replace (H - h)%nat with (H - hp + (hp - h))%nat by lia. by rewrite anc_add, Hanc.
  - assert (forall h, (hp <= h <= H)%nat -> <[hp := Some j]> v !! h = Some (anc s i (H - h))) as Hab'.
    { intros h Hh. destruct (decide (h = hp)) as [->|].
      - rewrite list_lookup_insert_eq by lia. by rewrite Hanc.
      - rewrite list_lookup_insert_ne by done. apply Hab. lia. }
    destruct (pprev p) as [j'|] eqn:Ej.
    + destruct (Hc j' eq_refl) as (p' & Hp' & Hh' & _). pose proof (eo_height _ _ _ (Hs j' p' Hp')).
      apply (IH j' p'); [done|lia| |by rewrite length_insert| | |lia].
      * replace (H - Z.to_nat (nHeight p'))%nat with (H - hp + 1)%nat by lia.
        rewrite anc_add, Hanc. cbn. rewrite Hj. cbn. by rewrite Ej.
      * intros h k Hh Hk. rewrite list_lookup_insert_ne in Hk by lia.
        destruct (Hcl h k ltac:(lia) Hk) as (b & Hb & Hbh & Hbel). exists b. split_and!; [done|done|].
        intros h'' Hh''. rewrite list_lookup_insert_ne by lia. by apply Hbel.
      * intros h Hh. apply Hab'. lia.
    + destruct (Hr eq_refl) as [Hz _]. destruct fuel as [|fuel]; [lia|]. cbn [set_tip_loop].
      eexists. split; [done|]. split; [by rewrite length_insert|]. intros h Hh. apply Hab'. lia.
Qed.

Lemma SetTip_spec i b v :
  s !! i = Some b -> nHeight b < 2147483647 -> chain_ok s v ->
  exists v', SetTip s i v = Some v' /\ branch_of s i (Z.to_nat (nHeight b)) v'.
Proof.
  intros Hb Hlt Hv. pose proof (eo_height _ _ _ (Hs i b Hb)). unfold SetTip. rewrite Hb.
  cbn [mbind option_bind]. rewrite i32_id by (unfold in_i32; lia).
  assert (Z.to_nat (nHeight b + 1) = S (Z.to_nat (nHeight b))) as -> by lia.
  apply (set_tip_loop_spec i (Z.to_nat (nHeight b)) _ i b); [done|lia|by rewrite Nat.sub_diag| | |lia|lia].
  - apply resize_length.
  - by apply resize_closed.
Qed.

Lemma branch_chain i b v :
  s !! i = Some b -> branch_of s i (Z.to_nat (nHeight b)) v -> chain_ok s v.
Proof.
  intros Hb [Hl Hv]. pose proof (eo_height _ _ _ (Hs i b Hb)) as H0. split.
  - intros h k Hh Hk. rewrite Hv in Hk by lia. injection Hk as Hk.
    destruct (anc_height s Hs i b _ k Hb Hk) as (p & Hp & Hhp). exists p. split_and!; [done|lia|].
    intros h' Hh'. rewrite Hv by lia. f_equal.
    replace (Z.to_nat (nHeight b) - h')%nat with (Z.to_nat (nHeight b) - h + (h - h'))%nat by lia.
    by rewrite anc_add, Hk.
  - apply Forall_lookup_2. intros h x Hx. pose proof (lookup_lt_Some _ _ _ Hx) as Hlt.
    rewrite Hv in Hx by lia. injection Hx as <-.
    destruct (anc_at s Hs (Z.to_nat (nHeight b) - h) i b Hb ltac:(lia)) as (j & p & -> & _). by eexists.
Qed.
End SetTip.

Section Fork.
Context (s : BlockMap) (Hs : tree_ok s) (v : CChain) (Hv : chain_ok s v).

Lemma in_chain_height i : Some i ∈ v ->
  exists b, s !! i = Some b /\ v !! Z.to_nat (nHeight b) = Some (Some i) /\ nHeight b < Z.of_nat (length v).
Proof.
  intros [h Hh]%list_elem_of_lookup. pose proof (lookup_lt_Some _ _ _ Hh) as Hlt.
  destruct (proj1 Hv h i Hlt Hh) as (b & Hb & Hbh & _). exists b. rewrite Hbh, Nat2Z.id. split_and!; [done|done|lia].
Qed.

Lemma Contains_spec i b :
  s !! i = Some b -> exists c, Contains s v i = Some c /\ (c = true <-> Some i ∈ v).
Proof.
  intros Hb. unfold Contains. rewrite Hb. cbn. eexists. split; [done|]. rewrite bool_decide_eq_true.
  unfold at_. pose proof (eo_height _ _ _ (Hs i b Hb)). destruct (Z.ltb_spec (nHeight b) 0); [lia|]. cbn [orb].
  split.
  - case_if; [done|]. intros Hd. destruct (v !! Z.to_nat (nHeight b)) as [x|] eqn:El; [|done].
    cbn in Hd. subst x. by apply list_elem_of_lookup_2 in El.
  - intros Hi. destruct (in_chain_height i Hi) as (b' & Hb' & Hl & Hlt). rewrite Hb in Hb'. injection Hb' as <-.
    destruct (Z.leb_spec (Z.of_nat (length v)) (nHeight b)); [lia|]. by rewrite Hl.
Qed.

Definition fork_point (i : N) (r : option N) : Prop :=
  match r with
  | Some j => is_ancestor s i j /\ Some j ∈ v /\
              forall c, is_ancestor s i c -> Some c ∈ v -> is_ancestor s j c
  | None => forall c, is_ancestor s i c -> Some c ∉ v
  end.

Lemma fork_loop_spec fuel : forall i b,
  s !! i = Some b -> nHeight b + 1 < Z.of_nat fuel ->
  exists r, fork_loop fuel s v (Some i) = Some r /\ fork_point i r.
Proof.
  induction fuel as [|fuel IH]; intros i b Hb Hf; [destruct (Hs i b Hb); lia|]. cbn [fork_loop].
  destruct (Contains_spec i b Hb) as (c & -> & Hc). cbn [mbind option_bind]. destruct c.
  { exists (Some i). split; [done|]. split; [by exists 0%nat|]. split; [by apply Hc|done]. }
  assert (Some i ∉ v) as Hni by (by intros Hi%Hc). rewrite Hb. cbn [mbind option_bind].
  assert (forall c k, anc s i (S k) = Some c -> exists j, pprev b = Some j /\ anc s j k = Some c) as Hup.
  { intros c k. cbn. rewrite Hb. cbn. destruct (pprev b) as [j|]; [|done]. by exists j. }
  destruct (Hs i b Hb) as [H0 Hr Hch]. destruct (pprev b) as [j|] eqn:Ej.
  - destruct (Hch j eq_refl) as (p & Hp & Hhp & _).
    destruct (IH j p Hp ltac:(lia)) as (r & Hrr & Hfp). exists r. split; [done|].
    assert (forall c, is_ancestor s j c -> is_ancestor s i c) as Hdown.
    { intros c [k Hk]. exists (S k). cbn. rewrite Hb. cbn. by rewrite Ej. }
    assert (forall c, is_ancestor s i c -> Some c ∈ v -> is_ancestor s j c) as Hback.
    { intros c [[|k] Hk] Hcv; [by injection Hk as <-|].
      destruct (Hup c k Hk) as (j' & [= <-] & Hk'). by exists k. }
    destruct r as [x|]; cbn in *.
    + destruct Hfp as (F1 & F2 & F3). split_and!; [by apply Hdown|done|]. eauto.
    + intros c Hca Hcv. by apply (Hfp c (Hback c Hca Hcv)).
  - destruct fuel as [|fuel]; [lia|]. exists None. split; [done|].
    intros c [[|k] Hk]; [by injection Hk as <-|]. by destruct (Hup c k Hk) as (j & [=] & _).
Qed.

Lemma FindFork_spec i b :
  s !! i = Some b -> exists r, FindFork s v (Some i) = Some r /\ fork_point i r.
Proof.
  intros Hb. unfold FindFork. rewrite Hb. cbn [mbind option_bind]. unfold Height.
  pose proof (eo_height _ _ _ (Hs i b Hb)) as H0.
  destruct (Z.ltb_spec (Z.of_nat (length v) - 1) (nHeight b)) as [Hlt|Hge].
  - rewrite (GetAncestor_spec s Hs i b _ Hb). destruct (Z.ltb_spec (nHeight b) (Z.of_nat (length v) - 1)); [lia|].
    destruct (Z.ltb_spec (Z.of_nat (length v) - 1) 0) as [Hemp|Hne]; cbn [orb mbind option_bind].
    { exists None. split; [done|]. intros c _ Hc.
      destruct v; [by apply elem_of_nil in Hc|cbn [length] in Hemp; lia]. }
    destruct (anc_at s Hs (Z.to_nat (nHeight b - (Z.of_nat (length v) - 1))) i b Hb ltac:(lia))
      as (j & p & Hj & Hp & Hhp). rewrite Hj. cbn [mbind option_bind].
    destruct (fork_loop_spec (S (S (Z.to_nat (nHeight b)))) j p Hp ltac:(lia)) as (r & Hr & Hfp).
    exists r. split; [done|].
    assert (forall c, is_ancestor s i c -> Some c ∈ v -> is_ancestor s j c) as Hback.
    { intros c [m Hm] Hc. destruct (in_chain_height c Hc) as (q & Hq & _ & Hql).
      destruct (anc_height s Hs i b m c Hb Hm) as (q' & Hq' & Hqh). rewrite Hq in Hq'. injection Hq' as <-.
      eexists. apply (anc_from s i b _ j m c Hb Hj Hm). lia. }
    destruct r as [x|]; cbn in *.
    + destruct Hfp as ([k F1] & F2 & F3). split_and!; [|done|eauto].
      eexists. rewrite anc_add, Hj. exact F1.
    + intros c Hca Hcv. by apply (Hfp c (Hback c Hca Hcv)).
  - cbn [mbind option_bind]. apply (fork_loop_spec _ i b Hb). lia.
Qed.
End Fork.

(** ** Properties *)

(** A sample tree for the witnesses: a root 1 with children 3 and 4, and 7 above 3. *)
Definition wit_hash (b : CBlockHeader) : N := hashPrevBlock b * 2 + 1 + Z.to_N (nNonce b).

Definition wit_header (prev : N) (nonce : Z) : CBlockHeader :=
  mkHeader 1 prev 0 (1000 + nonce) 0x1f00ffff nonce 0 0 COutPoint_null [].

Definition add_all (l : list CBlockHeader) (m : BlockManager) : option BlockManager :=
  foldl (fun m b => m ≫= fun m => snd <$> @AddToBlockIndex toy_crypto wit_hash b m) (Some m) l.

Definition wit_headers : list CBlockHeader :=
  [wit_header 0 0; wit_header 1 0; wit_header 1 1; wit_header 3 0].

Definition wit_m : BlockManager := default BlockManager_new (add_all wit_headers BlockManager_new).

Lemma wit_hash_self block : wit_hash block <> hashPrevBlock block.
Proof. unfold wit_hash. lia. Qed.

Lemma built_all l : Forall header_ok l -> forall m m',
  @built toy_crypto wit_hash m -> add_all l m = Some m' -> @built toy_crypto wit_hash m'.
Proof.
  assert (forall l, foldl (fun m b => m ≫= fun m => snd <$> @AddToBlockIndex toy_crypto wit_hash b m) None l = None)
    as Hnone by (intros l'; induction l'; done).
  induction 1 as [|b l Hb Hl IH]; intros m m' Hm; unfold add_all; cbn [foldl]; [by intros [= <-]|].
  cbn [mbind option_bind]. destruct (AddToBlockIndex wit_hash b m) as [[h m1]|] eqn:E; cbn; [|by rewrite Hnone].
  apply IH. by apply (built_add wit_hash b m h m1).
Qed.

Lemma wit_m_built : @built toy_crypto wit_hash wit_m.
Proof.
  apply (built_all wit_headers) with (m := BlockManager_new).
  - repeat constructor; unfold header_ok, in_u32; cbn; lia.
  - constructor.
  - vm_compute. reflexivity.
Qed.

Lemma wit_m_size : Z.of_nat (size (m_block_index wit_m)) <= 2147483647.
Proof. vm_compute. discriminate. Qed.

Lemma wit_m_entry i h :
  (match m_block_index wit_m !! i with Some b => nHeight b =? h | None => false end) = true ->
  exists b, m_block_index wit_m !! i = Some b /\ nHeight b = h.
Proof. destruct (m_block_index wit_m !! i) as [b|]; [|done]. intros H%Z.eqb_eq. by exists b. Qed.

(** C4: the skip list is exact.  In any index built by adding headers, [GetAncestor]
    returns the entry that following parent pointers down to the height reaches, and a
    null pointer exactly for heights outside the branch; it never follows a null
    pointer and always ends. *)
Theorem skip_list_finds_ancestor `{C : Crypto} (GetHash : CBlockHeader -> N) m i b h :
  (forall block, GetHash block <> hashPrevBlock block) ->
  built GetHash m -> Z.of_nat (size (m_block_index m)) <= 2147483647 ->
  m_block_index m !! i = Some b ->
  GetAncestor (m_block_index m) i h =
    (if (nHeight b <? h) || (h <? 0) then Some None
     else Some (anc (m_block_index m) i (Z.to_nat (nHeight b - h)))) /\
  (0 <= h <= nHeight b -> exists j p,
     anc (m_block_index m) i (Z.to_nat (nHeight b - h)) = Some j /\
     m_block_index m !! j = Some p /\ nHeight p = h).
Proof.
  intros Hself Hm Hsz Hb. pose proof (mo_tree _ (built_ok GetHash Hself m Hm Hsz)) as Hs.
  split; [by apply GetAncestor_spec|]. intros Hh.
  destruct (anc_at _ Hs (Z.to_nat (nHeight b - h)) i b Hb ltac:(lia)) as (j & p & Hj & Hp & Hhp).
  exists j, p. split_and!; [done|done|lia].
Qed.

Lemma skip_list_finds_ancestor_witness :
  GetAncestor (m_block_index wit_m) 7 0 = Some (anc (m_block_index wit_m) 7 2).
Proof.
  destruct (wit_m_entry 7 2 ltac:(by vm_compute)) as (b & Hb & Hh).
  destruct (skip_list_finds_ancestor (C := toy_crypto) wit_hash wit_m 7 b 0 wit_hash_self wit_m_built
    wit_m_size Hb) as [H _].
  rewrite Hh in H. exact H.
Defined.

(** [LastCommonAncestor] returns the last common ancestor: an ancestor of both
    blocks of which every common ancestor is an ancestor; a null pointer only for
    blocks of unconnected trees.  Its assertion that the branches meet holds. *)
Theorem last_common_ancestor_correct `{C : Crypto} (GetHash : CBlockHeader -> N) m a b x y :
  (forall block, GetHash block <> hashPrevBlock block) ->
  built GetHash m -> Z.of_nat (size (m_block_index m)) <= 2147483647 ->
  m_block_index m !! a = Some x -> m_block_index m !! b = Some y ->
  let s := m_block_index m in
  exists r, LastCommonAncestor s a b = Some r /\
    match r with
    | Some j => is_ancestor s a j /\ is_ancestor s b j /\
                forall c, is_ancestor s a c -> is_ancestor s b c -> is_ancestor s j c
    | None => forall c, is_ancestor s a c -> ~ is_ancestor s b c
    end.
Proof.
  intros Hself Hm Hsz Hx Hy s. pose proof (mo_tree _ (built_ok GetHash Hself m Hm Hsz)) as Hs.
  by apply (LastCommonAncestor_spec s Hs a b x y).
Qed.

Lemma last_common_ancestor_correct_witness :
  LastCommonAncestor (m_block_index wit_m) 7 4 = Some (Some 1%N) /\
  forall c, is_ancestor (m_block_index wit_m) 7 c -> is_ancestor (m_block_index wit_m) 4 c ->
    is_ancestor (m_block_index wit_m) 1 c.
Proof.
  assert (LastCommonAncestor (m_block_index wit_m) 7 4 = Some (Some 1%N)) as E by by vm_compute.
  split; [exact E|].
  destruct (wit_m_entry 7 2 ltac:(by vm_compute)) as (x & Hx & _).
  destruct (wit_m_entry 4 1 ltac:(by vm_compute)) as (y & Hy & _).
  destruct (last_common_ancestor_correct (C := toy_crypto) wit_hash wit_m 7 4 x y wit_hash_self wit_m_built
    wit_m_size Hx Hy) as (r & Hr & Hspec).
  rewrite E in Hr. injection Hr as <-. apply Hspec.
Defined.

(** Chains the node reaches: empty, or moved to a block of the index. *)
Inductive tips (s : BlockMap) : CChain -> Prop :=
  | tips_nil : tips s []
  | tips_set i v v' : tips s v -> SetTip s i v = Some v' -> tips s v'.

Lemma tips_ok s v :
  tree_ok s -> (forall i b, s !! i = Some b -> nHeight b < 2147483647) -> tips s v -> chain_ok s v.
Proof.
  intros Hs Hh. induction 1 as [|i v v' Hv IH Hset]; [apply chain_ok_nil|].
  destruct (s !! i) as [b|] eqn:E; [|unfold SetTip in Hset; by rewrite E in Hset].
  destruct (SetTip_spec s Hs i b v E (Hh i b E) IH) as (v1 & Hv1 & Hbr).
  rewrite Hset in Hv1. injection Hv1 as <-. by apply (branch_chain s Hs i b).
Qed.

(** C31: whatever the active chain was, [SetTip] makes it the branch of the new tip,
    element by element, although it stops rewriting the vector at the first entry that
    is already in place; and [FindFork] then finds, for any block, the last of its
    ancestors on the active chain. *)
Theorem set_tip_installs_branch `{C : Crypto} (GetHash : CBlockHeader -> N) m v i b j x :
  (forall block, GetHash block <> hashPrevBlock block) ->
  built GetHash m -> Z.of_nat (size (m_block_index m)) <= 2147483647 ->
  let s := m_block_index m in
  tips s v -> s !! i = Some b -> s !! j = Some x ->
  exists v', SetTip s i v = Some v' /\ Height v' = nHeight b /\
    (forall h, 0 <= h <= nHeight b -> at_ v' h = anc s i (Z.to_nat (nHeight b - h))) /\
    exists r, FindFork s v' (Some j) = Some r /\
      match r with
      | Some k => is_ancestor s j k /\ is_ancestor s i k /\
                  forall c, is_ancestor s j c -> is_ancestor s i c -> is_ancestor s k c
      | None => forall c, is_ancestor s j c -> ~ is_ancestor s i c
      end.
Proof.
  intros Hself Hm Hsz s Hv Hb Hx. pose proof (built_ok GetHash Hself m Hm Hsz) as [Hs Hh _ _].
  assert (forall i b, s !! i = Some b -> nHeight b < 2147483647) as Hlt.
  { intros k y Hy. assert (nHeight y < Z.of_nat (size (m_block_index m))) by exact (Hh k y Hy). lia. }
  destruct (SetTip_spec s Hs i b v Hb (Hlt i b Hb) (tips_ok s v Hs Hlt Hv)) as (v' & Hv' & Hbr).
  pose proof (branch_chain s Hs i b v' Hb Hbr) as Hok. destruct Hbr as [Hlen Hat].
  pose proof (eo_height _ _ _ (Hs i b Hb)) as H0.
  assert (forall c, Some c ∈ v' <-> is_ancestor s i c) as Hin.
  { intros c. rewrite list_elem_of_lookup. split.
    - intros [h Hhc]. pose proof (lookup_lt_Some _ _ _ Hhc). rewrite Hat in Hhc by lia.
      injection Hhc as Hhc. by eexists.
    - intros [k Hk]. destruct (anc_height s Hs i b k c Hb Hk) as (p & Hp & Hhp).
      pose proof (eo_height _ _ _ (Hs c p Hp)). exists (Z.to_nat (nHeight b) - k)%nat.
      rewrite Hat by lia. f_equal. rewrite <- Hk. f_equal. lia. }
  exists v'. split; [done|]. split; [unfold Height; lia|]. split.
  - intros h Hhb. unfold at_. destruct (Z.ltb_spec h 0); [lia|].
    destruct (Z.leb_spec (Z.of_nat (length v')) h); [lia|]. cbn [orb]. rewrite Hat by lia. cbn. f_equal. lia.
  - destruct (FindFork_spec s Hs v' Hok j x Hx) as (r & Hr & Hfp). exists r. split; [done|].
    destruct r as [k|]; cbn in Hfp; [|intros c Hc Hc'; by apply (Hfp c Hc), Hin].
    destruct Hfp as (F1 & F2 & F3). split_and!; [done|by apply Hin|].
    intros c Hc Hc'. by apply F3, Hin.
Qed.

Lemma set_tip_installs_branch_witness :
  exists v', SetTip (m_block_index wit_m) 7 [Some 1%N; Some 4%N] = Some v' /\ Height v' = 2.
Proof.
  destruct (wit_m_entry 7 2 ltac:(by vm_compute)) as (b & Hb & Hh).
  destruct (wit_m_entry 4 1 ltac:(by vm_compute)) as (x & Hx & _).
  destruct (set_tip_installs_branch (C := toy_crypto) wit_hash wit_m [Some 1%N; Some 4%N] 7 b 4 x
    wit_hash_self wit_m_built wit_m_size) as (v' & Hv' & Hlen & _); [|done|done|].
  - apply (tips_set _ 4 []); [constructor|]. vm_compute. reflexivity.
  - exists v'. split; [exact Hv'|]. rewrite Hlen. exact Hh.
Defined.

(** [GetBlockProof] is the expected number of hashes, [2^256 / (target + 1)]
    rounded down, computed in 256 bits, and 0 for an invalid compact word; the chain
    work of every entry adds its blocks' proofs modulo [2^256]; and the best header
    always is an entry of maximal chain work. *)
Theorem best_header_has_most_work `{C : Crypto} (GetHash : CBlockHeader -> N) m :
  (forall block, GetHash block <> hashPrevBlock block) ->
  built GetHash m -> Z.of_nat (size (m_block_index m)) <= 2147483647 ->
  (forall bits, in_u32 bits -> exists p, GetBlockProof bits = Some p /\ val p = expected_hashes bits) /\
  map_Forall (fun _ b => work_ok (m_block_index m) b) (m_block_index m) /\
  match best_header m with
  | None => m_block_index m = ∅
  | Some h => exists x, m_block_index m !! h = Some x /\
      map_Forall (fun _ b => val (nChainWork b) <= val (nChainWork x)) (m_block_index m)
  end.
Proof.
  intros Hself Hm Hsz. destruct (built_ok GetHash Hself m Hm Hsz) as [_ _ Hw Hb]. split_and!; [|done|done].
  intros bits Hbits. destruct (GetBlockProof_spec bits Hbits) as (p & Hp & _ & Vp). by exists p.
Qed.

Lemma best_header_has_most_work_witness :
  exists x, m_block_index wit_m !! 7%N = Some x /\
    map_Forall (fun _ b => val (nChainWork b) <= val (nChainWork x)) (m_block_index wit_m).
Proof.
  destruct (best_header_has_most_work (C := toy_crypto) wit_hash wit_m wit_hash_self wit_m_built wit_m_size)
    as (_ & _ & H).
  assert (best_header wit_m = Some 7%N) as E by by vm_compute. rewrite E in H. exact H.
Defined.
