(* ===== verification/Pow.v ===== *)
(** * Difficulty and proof of work (pow.cpp)

    The required target of the next block, per proof type, over the block index of
    Chain.v, and the check of a block hash against its target.  [None] is an exception
    (division by zero), a null pointer that is followed, or fuel that ran out; the
    theorems show where it does not happen, and [bip94_reads_null] where it does. *)

From stdpp Require Import gmap list.
From Stdlib Require Import ZArith Lia.
From S2P Require Import Prelude Params ArithUint256 Crypto OutPoint Chain.

Open Scope Z_scope.

(** ** The exponential *)

(** The loop of [mul_exp].  [a * abs_p] selects the 32-bit product, which truncates
    [abs_p]; [q] and [n] are converted to 256 bits. *)
Fixpoint mul_exp_loop (fuel : nat) (isNegative : bool) (abs_p q n : Z) (a result : base_uint) :
    option base_uint :=
  match fuel with
  | O => None
  | S fuel =>
      if gt a zero then
        let n := u64 (n + 1) in
        x ← div (mul32 a (u32 abs_p)) (of_u64 (u64 q));
        a ← div x (of_u64 n);
        mul_exp_loop fuel isNegative abs_p q n a
          (if isNegative && Z.odd n then sub result a else add result a)
      else Some result
  end.

(** Each round at least halves [a] when [2 |p| <= q], so 257 rounds are enough for 256
    bits; see [mul_exp_pos] and [mul_exp_neg]. *)
Definition mul_exp (a : base_uint) (p q : Z) : option base_uint :=
  let isNegative := p <? 0 in
  let abs_p := u64 (if 0 <=? p then p else i64 (- p)) in
  mul_exp_loop 257 isNegative abs_p q 0 a a.

(** ** The block the difficulty follows *)

Fixpoint last_loop (fuel : nat) (s : BlockMap) (pindex : N) (fProofOfStake : bool) : option N :=
  match fuel with
  | O => None
  | S fuel =>
      b ← s !! pindex;
      match pprev b with
      | None => Some pindex
      | Some j => if Bool.eqb (IsProofOfStake b) fProofOfStake then Some pindex
                  else last_loop fuel s j fProofOfStake
      end
  end.

Definition GetLastBlockIndex (s : BlockMap) (pindex : option N) (fProofOfStake : bool) : option (option N) :=
  match pindex with
  | None => Some None
  | Some i => b ← s !! i; j ← last_loop (S (Z.to_nat (nHeight b))) s i fProofOfStake; Some (Some j)
  end.

Definition GetLimit (height : Z) (params : Params) (fProofOfStake : bool) : base_uint :=
  if fProofOfStake then
    if height <? QIP9Height params then UintToArith256 (posLimit params)
    else if height <? nReduceBlocktimeHeight params then UintToArith256 (QIP9PosLimit params)
    else UintToArith256 (RBTPosLimit params)
  else UintToArith256 (powLimit params).

(** ** Retargeting *)

(** The target the adjustment starts from. *)
Definition base_target (s : BlockMap) (i : N) (b : CBlockIndex) (params : Params) (nInterval : Z) :
    option base_uint :=
  if enforce_BIP94 params then
    first ← GetAncestor s i (i32 (nHeight b - (nInterval - 1)));
    j ← first;
    x ← s !! j;
    Some (SetCompact_value (nBits (header x)))
  else Some (SetCompact_value (nBits (header b))).

Definition CalculateNextWorkRequired (s : BlockMap) (i : N) (nFirstBlockTime : Z) (params : Params)
    (fProofOfStake : bool) : option Z :=
  b ← s !! i;
  if (if fProofOfStake then fPoSNoRetargeting params else fPowNoRetargeting params)
  then Some (nBits (header b))
  else
    let height := i32 (nHeight b + 1) in
    let nTargetSpacing := TargetSpacing params height in
    let nActualSpacing := i64 (GetBlockTime b - nFirstBlockTime) in
    let bnTargetLimit := GetLimit height params fProofOfStake in
    let nInterval := DifficultyAdjustmentInterval params height in
    bnNew ← base_target s i b params nInterval;
    let nActualSpacing := if nActualSpacing <? 0 then nTargetSpacing else nActualSpacing in
    bnNew ←
      (if height <? QIP9Height params then
         let nActualSpacing :=
           if i64 (nTargetSpacing * 10) <? nActualSpacing then i64 (nTargetSpacing * 10) else nActualSpacing in
         div (mul32 bnNew (u32 (i64 (i64 (i64 ((nInterval - 1) * nTargetSpacing) + nActualSpacing) + nActualSpacing))))
             (of_u64 (u64 (i64 ((nInterval + 1) * nTargetSpacing))))
       else
         let nActualSpacing :=
           if i64 (nTargetSpacing * 20) <? nActualSpacing then i64 (nTargetSpacing * 20) else nActualSpacing in
         let mask := u32 (StakeTimestampMask params height + 1) in
         if mask =? 0 then None
         else mul_exp bnNew (Z.quot (i64 (2 * i64 (nActualSpacing - nTargetSpacing))) mask)
                            (Z.quot (i64 ((nInterval + 1) * nTargetSpacing)) mask));
    let bnNew := if le bnNew zero || gt bnNew bnTargetLimit then bnTargetLimit else bnNew in
    Some (GetCompact bnNew false).

(** The last block that does not have the minimum difficulty. *)
Fixpoint non_special_loop (fuel : nat) (s : BlockMap) (params : Params) (nTargetLimit : Z) (pindex : N) :
    option Z :=
  match fuel with
  | O => None
  | S fuel =>
      b ← s !! pindex;
      match pprev b with
      | Some j =>
          if negb (Z.rem (nHeight b) (DifficultyAdjustmentInterval params (nHeight b)) =? 0) &&
             (nBits (header b) =? nTargetLimit)
          then non_special_loop fuel s params nTargetLimit j
          else Some (nBits (header b))
      | None => Some (nBits (header b))
      end
  end.

Definition GetNextWorkRequired (s : BlockMap) (pindexLast : option N) (blockTime : Z) (params : Params)
    (fProofOfStake : bool) : option Z :=
  match pindexLast with
  | None => Some (GetCompact (GetLimit 0 params fProofOfStake) false)
  | Some l =>
      last ← s !! l;
      let nTargetLimit := GetCompact (GetLimit (i32 (nHeight last + 1)) params fProofOfStake) false in
      prev ← GetLastBlockIndex s (Some l) fProofOfStake;
      i ← prev;
      bi ← s !! i;
      match pprev bi with
      | None => Some nTargetLimit
      | Some j =>
          prevprev ← GetLastBlockIndex s (Some j) fProofOfStake;
          k ← prevprev;
          bk ← s !! k;
          match pprev bk with
          | None => Some nTargetLimit
          | Some _ =>
              if fPowAllowMinDifficultyBlocks params then
                if i64 (GetBlockTime last + i64 (TargetSpacing params (i32 (nHeight last + 1)) * 2)) <? blockTime
                then Some nTargetLimit
                else non_special_loop (S (Z.to_nat (nHeight last))) s params nTargetLimit l
              else CalculateNextWorkRequired s i (GetBlockTime bk) params fProofOfStake
          end
      end
  end.

(** [PermittedDifficultyTransition] as built (QTUM_BUILD is defined). *)
Definition PermittedDifficultyTransition (params : Params) (height old_nbits new_nbits : Z) : bool := true.

(** ** Proof of work *)

Definition DeriveTarget (bits : Z) (pow_limit : list Z) : option base_uint :=
  let '(bnTarget, fNegative, fOverflow) := SetCompact bits in
  if fNegative || EqualTo bnTarget 0 || fOverflow || gt bnTarget (UintToArith256 pow_limit)
  then None else Some bnTarget.

Definition CheckProofOfWorkImpl (hash : list Z) (bits : Z) (params : Params) : bool :=
  match DeriveTarget bits (powLimit params) with
  | None => false
  | Some bnTarget => negb (gt (UintToArith256 hash) bnTarget)
  end.

(** ** The exponential converges *)

(** One round: the next term. *)
Lemma mul_exp_term a p q n :
  wf a -> 0 <= p < 4294967296 -> 0 < q < 2 ^ 63 -> 0 < n < 2 ^ 64 -> val a * p < 2 ^ 256 ->
  exists x a', div (mul32 a (u32 p)) (of_u64 (u64 q)) = Some x /\ div x (of_u64 n) = Some a' /\
    wf a' /\ q * val a' <= p * val a.
Proof.
  intros Ha Hp Hq Hn Hov. pose proof (val_wf_bounds a Ha) as Ba.
  rewrite (u32_id p) by (unfold in_u32; lia). rewrite (u64_id q) by (unfold in_u64; lia).
  destruct (mul32_spec a p Ha ltac:(unfold in_u32; lia)) as [Wm Vm]. rewrite Z.mod_small in Vm by nia.
  destruct (wf_of_u64 q ltac:(unfold in_u64; lia)) as [Wq Vq].
  destruct (wf_of_u64 n ltac:(unfold in_u64; lia)) as [Wn Vn].
  pose proof (div_spec _ _ Wm Wq) as H1. destruct (div _ (of_u64 q)) as [x|] eqn:E1; [|lia].
  destruct H1 as (_ & Wx & Vx). pose proof (div_spec _ _ Wx Wn) as H2.
  destruct (div x (of_u64 n)) as [a'|] eqn:E2; [|lia]. destruct H2 as (_ & Wa' & Va').
  exists x, a'. split_and!; [done|done|done|].
  assert (0 <= val x /\ q * val x <= p * val a) as [Hx0 Hx].
  { rewrite Vx, Vm, Vq. split; [apply Z.div_pos; nia|]. pose proof (Z.mul_div_le (val a * p) q ltac:(lia)). lia. }
  assert (val a' <= val x); [|nia]. rewrite Va', Vn. apply Z.div_le_upper_bound; nia.
Qed.

Lemma halved_fits fuel x y :
  x < 2 ^ (Z.of_nat (S fuel) - 1) -> 2 * y <= x -> 0 < x -> y < 2 ^ (Z.of_nat fuel - 1) /\ (1 <= fuel)%nat.
Proof.
  intros Hx Hy Hpos. destruct fuel as [|f]; [cbn in Hx; lia|]. split; [|lia].
  assert (2 ^ (Z.of_nat (S (S f)) - 1) = 2 * 2 ^ (Z.of_nat (S f) - 1)) as Hp2.
  { rewrite <- Z.pow_succ_r by lia. f_equal. lia. }
  lia.
Qed.

(** With [2 p <= q] the terms halve, and what is added stays below [p / (q - p)]. *)
Lemma mul_exp_pos p q fuel : 0 <= p < 4294967296 -> 0 < q < 2 ^ 63 -> 2 * p <= q -> forall n a result,
  wf a -> wf result -> 0 <= n -> n + Z.of_nat fuel < 2 ^ 63 -> val a * p < 2 ^ 256 ->
  val a < 2 ^ (Z.of_nat fuel - 1) -> (1 <= fuel)%nat -> val result + val a < 2 ^ 256 ->
  exists r, mul_exp_loop fuel false p q n a result = Some r /\ wf r /\ val result <= val r /\
    (q - p) * (val r - val result) <= p * val a.
Proof.
  intros Hp Hq Hpq. induction fuel as [|fuel IH]; intros n a result Ha Hr Hn Hnf Hov Hsm Hf Hsum; [lia|].
  cbn [mul_exp_loop andb]. destruct wf_zero as [Wz Vz]. pose proof (val_wf_bounds a Ha) as Ba.
  rewrite gt_spec, Vz by done. destruct (Z.ltb_spec 0 (val a)) as [Hpos|Hz].
  2: { exists result. split_and!; [done|done|lia|nia]. }
  rewrite (u64_id (n + 1)) by (unfold in_u64; lia).
  destruct (mul_exp_term a p q (n + 1) Ha Hp Hq ltac:(lia) Hov) as (x & a' & -> & E & Wa' & Ht).
  cbn [mbind option_bind]. rewrite E. cbn [mbind option_bind]. pose proof (val_wf_bounds a' Wa') as Ba'.
  assert (2 * val a' <= val a) as Hhalf by nia.
  destruct (add_spec result a' Hr Wa') as [Wr Vr]. pose proof (val_wf_bounds result Hr).
  rewrite Z.mod_small in Vr by lia.
  destruct (halved_fits fuel (val a) (val a') Hsm Hhalf ltac:(lia)) as [Hs Hf1].
  destruct (IH (n + 1) a' (add result a') Wa' Wr ltac:(lia) ltac:(lia) ltac:(nia) Hs Hf1 ltac:(lia))
    as (r & Hl & Wf & H1 & H2).
  exists r. split_and!; [done|done|lia|nia].
Qed.

(** In the alternating case the first term bounds the change. *)
Lemma mul_exp_neg p q fuel : 0 <= p < 4294967296 -> 0 < q < 2 ^ 63 -> 2 * p <= q -> forall n a result,
  wf a -> wf result -> 0 <= n -> n + Z.of_nat fuel < 2 ^ 63 -> val a * p < 2 ^ 256 ->
  val a < 2 ^ (Z.of_nat fuel - 1) -> (1 <= fuel)%nat ->
  (if Z.odd n then val result + val a < 2 ^ 256 else val a <= val result) ->
  exists r, mul_exp_loop fuel true p q n a result = Some r /\ wf r /\
    if Z.odd n then val result <= val r /\ q * (val r - val result) <= p * val a
    else val r <= val result /\ q * (val result - val r) <= p * val a.
Proof.
  intros Hp Hq Hpq. induction fuel as [|fuel IH]; intros n a result Ha Hr Hn Hnf Hov Hsm Hf Hc; [lia|].
  cbn [mul_exp_loop andb]. destruct wf_zero as [Wz Vz]. pose proof (val_wf_bounds a Ha) as Ba.
  rewrite gt_spec, Vz by done. destruct (Z.ltb_spec 0 (val a)) as [Hpos|Hz].
  2: { exists result. split_and!; [done|done|]. destruct (Z.odd n); (split; [lia|nia]). }
  rewrite (u64_id (n + 1)) by (unfold in_u64; lia).
  destruct (mul_exp_term a p q (n + 1) Ha Hp Hq ltac:(lia) Hov) as (x & a' & -> & E & Wa' & Ht).
  cbn [mbind option_bind]. rewrite E. cbn [mbind option_bind]. pose proof (val_wf_bounds a' Wa') as Ba'.
  assert (2 * val a' <= val a) as Hhalf by nia. pose proof (val_wf_bounds result Hr).
  destruct (halved_fits fuel (val a) (val a') Hsm Hhalf ltac:(lia)) as [Hs Hf1].
  assert (Z.odd (n + 1) = negb (Z.odd n)) as Hodd by (rewrite Z.odd_add; by destruct (Z.odd n)).
  rewrite Hodd. destruct (Z.odd n) eqn:En; cbn [negb].
  - destruct (add_spec result a' Hr Wa') as [Wr Vr]. rewrite Z.mod_small in Vr by lia.
    destruct (IH (n + 1) a' (add result a') Wa' Wr ltac:(lia) ltac:(lia) ltac:(nia) Hs Hf1) as (r & Hl & Wf & H1).
    { rewrite Hodd. cbn [negb]. lia. }
    rewrite Hodd in H1. cbn [negb] in H1. exists r. split_and!; [done|done|nia|nia].
  - destruct (sub_spec result a' Hr Wa') as [Wr Vr]. rewrite Z.mod_small in Vr by lia.
    destruct (IH (n + 1) a' (sub result a') Wa' Wr ltac:(lia) ltac:(lia) ltac:(nia) Hs Hf1) as (r & Hl & Wf & H1).
    { rewrite Hodd. cbn [negb]. lia. }
    rewrite Hodd in H1. cbn [negb] in H1. exists r. split_and!; [done|done|nia|nia].
Qed.

Lemma mul_exp_bounds a p q :
  wf a -> -1000000000 < p < 1000000000 -> 0 < q < 2 ^ 63 -> 2 * Z.abs p <= q ->
  val a * Z.abs p < 2 ^ 256 -> 2 * val a < 2 ^ 256 ->
  exists r, mul_exp a p q = Some r /\ wf r /\
    (0 <= p -> val a <= val r /\ (q - p) * (val r - val a) <= p * val a) /\
    (p <= 0 -> val r <= val a /\ q * (val a - val r) <= - p * val a).
Proof.
  intros Ha Hp Hq Hpq Hov Hsm. pose proof (val_wf_bounds a Ha) as Ba. unfold mul_exp.
  assert (val a < 2 ^ (Z.of_nat 257 - 1)) as Hf by (change (2 ^ (Z.of_nat 257 - 1)) with (2 ^ 256); lia).
  destruct (Z.ltb_spec p 0) as [Hneg|Hpos]; destruct (Z.leb_spec 0 p); try lia.
  - rewrite (i64_id (- p)), (u64_id (- p)) by (unfold in_i64, in_u64; lia).
    destruct (mul_exp_neg (- p) q 257 ltac:(lia) Hq ltac:(lia) 0 a a Ha Ha ltac:(lia) ltac:(lia) ltac:(lia) Hf
      ltac:(lia) (Z.le_refl (val a))) as (r & Hr & Wr & H1 & H2).
    exists r. split_and!; [done|done|lia|done].
  - rewrite (u64_id p) by (unfold in_u64; lia).
    destruct (mul_exp_pos p q 257 ltac:(lia) Hq ltac:(lia) 0 a a Ha Ha ltac:(lia) ltac:(lia) ltac:(lia) Hf
      ltac:(lia) ltac:(lia)) as (r & Hr & Wr & H1 & H2).
    exists r. split_and!; [done|done|done|]. intros Hz. assert (p = 0) as -> by lia.
    assert (val r = val a) as -> by nia. lia.
Qed.

(** Rounding a target to its compact form and back. *)
Lemma compact_rounding a :
  wf a -> let c := GetCompact a false in
  in_u32 c /\ val (SetCompact_value c) <= val a /\ 32767 * val a <= 32768 * val (SetCompact_value c).
Proof.
  intros Ha. pose proof (compact_roundtrip_spec a Ha) as H. cbv zeta in *. unfold SetCompact_value.
  destruct (SetCompact (GetCompact a false)) as [[v ng] ov]. cbn [fst].
  destruct H as (Hc & _ & _ & _ & Hv & Hr & _). change (2 ^ 15) with 32768 in Hr.
  split_and!; [done| |lia]. rewrite Hv.
  assert (0 <= val a mod 256 ^ Z.max 0 (GetCompact a false / 2 ^ 24 - 3)); [|lia].
  apply Z.mod_pos_bound, Z.pow_pos_nonneg; lia.
Qed.

Lemma main_limit : wf (UintToArith256 (RBTPosLimit main_params)) /\
  val (UintToArith256 (RBTPosLimit main_params)) = 2 ^ 228 - 1.
Proof.
  split; [|by vm_compute].
  apply (blob_roundtrip zero); [apply wf_zero|]. split; [done|]. vm_compute. by repeat constructor.
Qed.

(** The last steps of the retargeting: clamping and encoding. *)
Lemma clamped_compact r limit :
  wf r -> wf limit -> 0 < val r -> 0 < val limit ->
  let bn := if le r zero || gt r limit then limit else r in
  let c := GetCompact bn false in
  in_u32 c /\ val (SetCompact_value c) <= val limit /\ val (SetCompact_value c) <= val r /\
  32767 * Z.min (val r) (val limit) <= 32768 * val (SetCompact_value c).
Proof.
  intros Wr Wl Hr Hl. destruct wf_zero as [Wz Vz]. rewrite le_spec, gt_spec, Vz by done.
  destruct (Z.leb_spec (val r) 0); [lia|]. cbn [orb].
  destruct (Z.ltb_spec (val limit) (val r)) as [Hlt|Hge]; cbv zeta.
  - destruct (compact_rounding limit Wl) as (H1 & H2 & H3). split_and!; [done|lia|lia|lia].
  - destruct (compact_rounding r Wr) as (H1 & H2 & H3). split_and!; [done|lia|lia|lia].
Qed.

(** Retargeting with a spacing of 1 and an interval of 600. *)
Lemma retarget_step p s i b nFirstBlockTime :
  fPoSNoRetargeting p = false -> enforce_BIP94 p = false -> QIP9Height p = 0 ->
  nReduceBlocktimeHeight p = 0 -> nRBTPowTargetSpacing p = 1 -> nRBTPowTargetTimespan p = 600 ->
  nRBTStakeTimestampMask p = 0 ->
  s !! i = Some b -> 0 <= nHeight b < 2147483647 ->
  in_u32 (nTime (header b)) -> in_u32 nFirstBlockTime ->
  exists A, 0 <= A <= 20 /\ (nTime (header b) - nFirstBlockTime <= 1 -> A <= 1) /\
    CalculateNextWorkRequired s i nFirstBlockTime p true =
    (r ← mul_exp (SetCompact_value (nBits (header b))) (2 * (A - 1)) 601;
     Some (GetCompact (if le r zero || gt r (UintToArith256 (RBTPosLimit p))
                       then UintToArith256 (RBTPosLimit p) else r) false)).
Proof.
  intros P1 P2 P3 P4 P5 P6 P7 Hb Hh Htime Hfirst. unfold in_u32 in Htime, Hfirst.
  set (d := nTime (header b) - nFirstBlockTime).
  exists (if 20 <? (if d <? 0 then 1 else d) then 20 else if d <? 0 then 1 else d).
  set (A := if 20 <? _ then 20 else _).
  assert (0 <= A <= 20 /\ (d <= 1 -> A <= 1)) as [HA HA1].
  { unfold A. destruct (Z.ltb_spec d 0); destruct (Z.ltb_spec 20 1); destruct (Z.ltb_spec 20 d); lia. }
  split; [done|]. split; [done|].
  unfold CalculateNextWorkRequired. generalize mul_exp as the_exp. intros the_exp.
  unfold GetBlockTime, base_target, DifficultyAdjustmentInterval, TargetTimespan,
    StakeTimestampMask, GetLimit, TargetSpacing.
  rewrite Hb. cbn [mbind option_bind]. rewrite P1, P2, P3, P4, P5, P6, P7.
  rewrite (i32_id (nHeight b + 1)) by (unfold in_i32; lia).
  rewrite (i64_id (nTime (header b) - nFirstBlockTime)) by (unfold in_i64; lia). fold d.
  destruct (Z.ltb_spec (nHeight b + 1) 0); [lia|]. cbn [mbind option_bind].
  replace (u32 (0 + 1)) with 1 by reflexivity. rewrite (Z.quot_1_r 600).
  replace (i64 ((600 + 1) * 1)) with 601 by reflexivity. rewrite (Z.quot_1_r 601).
  replace (i64 (1 * 20)) with 20 by reflexivity. replace (1 =? 0) with false by reflexivity.
  cbv zeta. fold A.
  by rewrite (i64_id (A - 1)), (i64_id (2 * (A - 1))), Z.quot_1_r by (unfold in_i64; lia).
Qed.

(** The bounds that follow. *)
Lemma retarget_bounds t limit A :
  wf t -> wf limit -> val limit = 2 ^ 228 - 1 -> 0 < val t <= val limit -> 0 <= A <= 20 ->
  exists r, mul_exp t (2 * (A - 1)) 601 = Some r /\
    let c := GetCompact (if le r zero || gt r limit then limit else r) false in
    in_u32 c /\ let t' := val (SetCompact_value c) in
    0 < t' <= val limit /\ 563 * t' <= 601 * val t /\ 599 * 32767 * val t <= 601 * 32768 * t' /\
    (A <= 1 -> t' <= val t).
Proof.
  intros Wt Wl Vl Ht HA. assert (2 ^ 228 * 1024 < 2 ^ 256) as Hbig by done.
  destruct (mul_exp_bounds t (2 * (A - 1)) 601 Wt) as (r & -> & Wr & Hup & Hdown); [lia|lia|lia|nia|lia|].
  assert (599 * val t <= 601 * val r /\ 563 * val r <= 601 * val t) as [H1 H2].
  { destruct (Z.le_gt_cases 1 A).
    - destruct Hup; [lia|]. split; [lia|]. nia.
    - destruct Hdown; [lia|]. split; nia. }
  destruct (clamped_compact r limit Wr Wl ltac:(lia) ltac:(lia)) as (C1 & C2 & C3 & C4).
  exists r. split; [done|]. split; [done|]. cbv zeta in *. split_and!; [lia|lia|lia|lia|].
  intros Hd. destruct Hdown; [lia|]. lia.
Qed.

(** ** Properties *)

(** C19: the proof-of-stake difficulty of the main network moves slowly.  From a valid
    target, and whatever the timestamps, the next target is computed without exception,
    is positive and within the limit, is at most 601/563 (about 6.7%) above the old one,
    and at most 2/601 (and the rounding of the compact form) below it; a block that
    came within its spacing does not raise the target. *)
Theorem main_retarget_bounded s i b nFirstBlockTime :
  s !! i = Some b -> 0 <= nHeight b < 2147483647 ->
  in_u32 (nBits (header b)) -> in_u32 (nTime (header b)) -> in_u32 nFirstBlockTime ->
  let t := val (SetCompact_value (nBits (header b))) in
  let limit := val (UintToArith256 (RBTPosLimit main_params)) in
  0 < t <= limit ->
  exists c, CalculateNextWorkRequired s i nFirstBlockTime main_params true = Some c /\ in_u32 c /\
    let t' := val (SetCompact_value c) in
    0 < t' <= limit /\ 563 * t' <= 601 * t /\ 599 * 32767 * t <= 601 * 32768 * t' /\
    (GetBlockTime b - nFirstBlockTime <= 1 -> t' <= t).
Proof.
  intros Hb Hh Hbits Htime Hfirst t limit Ht. destruct main_limit as [Wl Vl].
  destruct (SetCompact_value_spec _ Hbits) as [Wt _].
  destruct (retarget_step main_params s i b nFirstBlockTime eq_refl eq_refl eq_refl eq_refl eq_refl eq_refl
    eq_refl Hb Hh Htime Hfirst) as (A & HA & HA1 & ->).
  destruct (retarget_bounds _ _ A Wt Wl Vl Ht HA) as (r & -> & Hc & H1 & H2 & H3 & H4).
  eexists. split; [done|]. split; [done|]. split_and!; [apply H1|apply H1|done|done|].
  intros Hd. by apply H4, HA1.
Qed.

Definition wit_pos_block : CBlockIndex :=
  mkIndex (mkHeader 1 0 0 1000020 0x1c00ffff 0 0 0 (mkOutPoint 5 0) []) (Some 1%N) None 700 zero 0 2 0.

Lemma main_retarget_bounded_witness :
  let s : BlockMap := {[9%N := wit_pos_block]} in
  exists c, CalculateNextWorkRequired s 9 1000000 main_params true = Some c /\
    563 * val (SetCompact_value c) <= 601 * val (SetCompact_value 0x1c00ffff).
Proof.
  intros s. destruct (main_retarget_bounded s 9 wit_pos_block 1000000) as (c & Hc & _ & _ & H & _).
  - apply lookup_singleton_eq.
  - cbn. lia.
  - unfold in_u32. cbn. lia.
  - unfold in_u32. cbn. lia.
  - unfold in_u32. lia.
  - vm_compute. split; [done|discriminate].
  - exists c. split; [exact Hc|exact H].
Defined.

Lemma compact_exact_nonneg c : in_u32 c -> 0 <= compact_exact c.
Proof.
  intros Hc. destruct (SetCompact_parts c Hc) as (_ & _ & He & Hm). unfold compact_exact.
  destruct (Z.leb_spec (c / 2 ^ 24) 3); [apply Z.div_pos; [lia|]|apply Z.mul_nonneg_nonneg; [lia|]];
    (apply Z.pow_pos_nonneg || apply Z.pow_nonneg); lia.
Qed.

(** The proof-of-work check is exact.  A hash is accepted if and only if the
    compact word denotes a positive target, of positive sign, that is at most the
    proof-of-work limit, and the hash as a number is at most that target; words that
    overflow 256 bits are rejected. *)
Theorem proof_of_work_exact hash bits p :
  blob_ok hash -> blob_ok (powLimit p) -> in_u32 bits ->
  CheckProofOfWorkImpl hash bits p = true <->
  0 < compact_exact bits <= val (UintToArith256 (powLimit p)) /\ Z.testbit bits 23 = false /\
  val (UintToArith256 hash) <= compact_exact bits.
Proof.
  intros Hh Hl Hb. pose proof (SetCompact_spec bits Hb) as Hsc. pose proof (compact_exact_nonneg bits Hb) as H0.
  destruct (blob_roundtrip zero hash (proj1 wf_zero) Hh) as (_ & _ & _ & Wh).
  destruct (blob_roundtrip zero (powLimit p) (proj1 wf_zero) Hl) as (_ & _ & _ & Wl).
  pose proof (val_wf_bounds _ Wl) as Bl. unfold CheckProofOfWorkImpl, DeriveTarget.
  destruct (SetCompact bits) as [[t ng] ov]. destruct Hsc as (Wt & Vt & Hov & Hng).
  rewrite EqualTo_0, gt_spec by done. set (v := compact_exact bits) in *.
  destruct ov.
  { pose proof (proj1 Hov eq_refl). rewrite !orb_true_r. split; [done|]. lia. }
  assert (v < 2 ^ 256) as Hv by (destruct (Z.lt_ge_cases v (2 ^ 256)) as [|Hge]; [done|by apply Hov in Hge]).
  rewrite Z.mod_small in Vt by lia. rewrite Vt, orb_false_r.
  destruct (Z.eqb_spec v 0) as [E|Hne]; [rewrite orb_true_r; split; [done|lia]|]. rewrite orb_false_r.
  destruct (Z.ltb_spec (val (UintToArith256 (powLimit p))) v); [rewrite orb_true_r; split; [done|lia]|].
  rewrite orb_false_r. destruct ng.
  - destruct (proj1 Hng eq_refl) as [_ ->]. split; [done|]. by intros (_ & [=] & _).
  - assert (Z.testbit bits 23 = false) as -> by
      (destruct (Z.testbit bits 23) eqn:Et; [discriminate (proj2 Hng (conj Hne eq_refl))|done]).
    rewrite gt_spec, Vt by done. rewrite negb_true_iff, Z.ltb_ge. split; [|tauto]. intros. split_and!; lia || done.
Qed.

Lemma proof_of_work_exact_witness :
  CheckProofOfWorkImpl (uint256_of_Z 0x0000dcb9cefee21af780c703998dc651a395e34d0440412e075e67e8f7bfb698)
    0x1f00ffff main_params = true /\
  CheckProofOfWorkImpl (uint256_of_Z (2 ^ 241)) 0x1f00ffff main_params <> true.
Proof.
  assert (forall z, blob_ok (uint256_of_Z z)) as Hz.
  { intros z. split; [done|]. unfold uint256_of_Z. apply Forall_map, Forall_true. intros. apply Z.mod_pos_bound. lia. }
  assert (in_u32 0x1f00ffff) as Hb by (unfold in_u32; lia).
  split; [apply proof_of_work_exact; [apply Hz|apply Hz|exact Hb|]|rewrite proof_of_work_exact; [|apply Hz|apply Hz|exact Hb]].
  - vm_compute. split_and!; done.
  - vm_compute. intros (_ & _ & H). by apply H.
Defined.

(** ** The required work is always defined on the main network *)

Lemma mul_exp_total p q neg fuel : 0 <= p < 4294967296 -> 0 < q < 2 ^ 63 -> 2 * p <= q -> forall n a result,
  wf a -> wf result -> 0 <= n -> n + Z.of_nat fuel < 2 ^ 63 -> val a < 2 ^ (Z.of_nat fuel - 1) -> (1 <= fuel)%nat ->
  exists r, mul_exp_loop fuel neg p q n a result = Some r /\ wf r.
Proof.
  intros Hp Hq Hpq. induction fuel as [|fuel IH]; intros n a result Ha Hr Hn Hnf Hsm Hf; [lia|].
  cbn [mul_exp_loop]. destruct wf_zero as [Wz Vz]. pose proof (val_wf_bounds a Ha) as Ba.
  rewrite gt_spec, Vz by done. destruct (Z.ltb_spec 0 (val a)) as [Hpos|Hz]; [|by exists result].
  rewrite (u64_id (n + 1)), (u32_id p), (u64_id q) by (unfold in_u64, in_u32; lia).
  destruct (mul32_spec a p Ha ltac:(unfold in_u32; lia)) as [Wm Vm].
  destruct (wf_of_u64 q ltac:(unfold in_u64; lia)) as [Wq Vq].
  destruct (wf_of_u64 (n + 1) ltac:(unfold in_u64; lia)) as [Wn Vn].
  pose proof (div_spec _ _ Wm Wq) as H1. destruct (div _ (of_u64 q)) as [x|]; [|lia].
  destruct H1 as (_ & Wx & Vx). cbn [mbind option_bind]. pose proof (div_spec _ _ Wx Wn) as H2.
  destruct (div x (of_u64 (n + 1))) as [a'|]; [|lia]. destruct H2 as (_ & Wa' & Va'). cbn [mbind option_bind].
  assert (2 * val a' <= val a) as Hhalf.
  { assert (val a' <= val x) by (rewrite Va', Vn; apply Z.div_le_upper_bound; [lia|];
      pose proof (val_wf_bounds x Wx); nia).
    assert (val (mul32 a p) <= val a * p) by (rewrite Vm; apply Z.mod_le; nia).
    assert (q * val x <= val a * p) by (rewrite Vx, Vq; pose proof (Z.mul_div_le (val (mul32 a p)) q); lia). nia. }
  destruct (halved_fits fuel (val a) (val a') Hsm Hhalf Hpos) as [Hs Hf1].
  apply IH; [done| |lia|lia|done|done]. destruct (neg && Z.odd (n + 1)); [by apply sub_spec|by apply add_spec].
Qed.

Lemma main_pos_step s i b nFirstBlockTime :
  s !! i = Some b -> 0 <= nHeight b < 2147483647 -> in_u32 (nBits (header b)) ->
  in_u32 (nTime (header b)) -> in_u32 nFirstBlockTime ->
  exists c, CalculateNextWorkRequired s i nFirstBlockTime main_params true = Some c.
Proof.
  intros Hb Hh Hbits Ht Hf.
  destruct (retarget_step main_params s i b nFirstBlockTime eq_refl eq_refl eq_refl eq_refl eq_refl eq_refl
    eq_refl Hb Hh Ht Hf) as (A & HA & _ & ->).
  destruct (SetCompact_value_spec _ Hbits) as [Wt _]. pose proof (val_wf_bounds _ Wt) as Bt.
  assert (exists r, mul_exp (SetCompact_value (nBits (header b))) (2 * (A - 1)) 601 = Some r) as [r ->]; [|by eexists].
  unfold mul_exp. set (p := u64 _).
  assert (0 <= p <= 38) as Hp.
  { unfold p. destruct (Z.leb_spec 0 (2 * (A - 1))); rewrite ?i64_id by (unfold in_i64; lia);
      rewrite u64_id by (unfold in_u64; lia); lia. }
  destruct (mul_exp_total p 601 (2 * (A - 1) <? 0) 257 ltac:(lia) ltac:(lia) ltac:(lia) 0 _ _ Wt Wt
    ltac:(lia) ltac:(lia) ltac:(change (2 ^ (Z.of_nat 257 - 1)) with (2 ^ 256); lia) ltac:(lia)) as (r & Hr & _).
  by exists r.
Qed.

Section Walk.
Context (s : BlockMap) (Hs : tree_ok s).

Lemma last_loop_spec f fuel : forall i b,
  s !! i = Some b -> nHeight b < Z.of_nat fuel ->
  exists j x, last_loop fuel s i f = Some j /\ is_ancestor s i j /\ s !! j = Some x /\
    (pprev x <> None -> IsProofOfStake x = f).
Proof.
  induction fuel as [|fuel IH]; intros i b Hb Hf; [destruct (Hs i b Hb); lia|]. cbn [last_loop].
  rewrite Hb. cbn [mbind option_bind]. destruct (pprev b) as [k|] eqn:Ek.
  - destruct (Bool.eqb (IsProofOfStake b) f) eqn:Ef.
    + exists i, b. split_and!; [done|by exists 0%nat|done|]. intros _. by apply eqb_prop.
    + destruct (eo_child _ _ _ (Hs i b Hb) k Ek) as (p & Hp & Hh & _).
      destruct (IH k p Hp ltac:(lia)) as (j & x & Hj & [m Hm] & Hx & Hk). exists j, x.
      split_and!; [done| |done|done]. exists (S m). cbn. rewrite Hb. cbn. by rewrite Ek.
  - exists i, b. split_and!; [done|by exists 0%nat|done|]. by rewrite Ek.
Qed.

Lemma GetLastBlockIndex_spec f i b :
  s !! i = Some b ->
  exists j x, GetLastBlockIndex s (Some i) f = Some (Some j) /\ is_ancestor s i j /\ s !! j = Some x /\
    (pprev x <> None -> IsProofOfStake x = f).
Proof.
  intros Hb. unfold GetLastBlockIndex. rewrite Hb. cbn [mbind option_bind].
  pose proof (eo_height _ _ _ (Hs i b Hb)).
  destruct (last_loop_spec f (S (Z.to_nat (nHeight b))) i b Hb ltac:(lia)) as (j & x & -> & H1 & H2 & H3).
  by exists j, x.
Qed.
End Walk.

(** On the main network the required work of a block is always computed, for
    either proof type and on top of any block of an index built from
    headers: no null pointer is followed, nothing is divided by zero and the
    exponential ends.  For proof of work it is the limit or the bits of an earlier
    proof-of-work block: that difficulty never changes. *)
Theorem main_next_work_defined `{C : Crypto.Crypto} (GetHash : CBlockHeader -> N) m i b blockTime fProofOfStake :
  (forall block, GetHash block <> hashPrevBlock block) ->
  built GetHash m -> Z.of_nat (size (m_block_index m)) <= 2147483647 ->
  m_block_index m !! i = Some b ->
  exists c, GetNextWorkRequired (m_block_index m) (Some i) blockTime main_params fProofOfStake = Some c /\
    (fProofOfStake = false ->
       c = GetCompact (UintToArith256 (powLimit main_params)) false \/
       exists j x, is_ancestor (m_block_index m) i j /\ m_block_index m !! j = Some x /\
         IsProofOfWork x = true /\ c = nBits (header x)).
Proof.
  intros Hself Hm Hsz Hb. destruct (built_ok GetHash Hself m Hm Hsz) as [Hs Hh _ _].
  pose proof (built_headers GetHash m Hm) as Hok.
  set (s := m_block_index m) in *. unfold GetNextWorkRequired. rewrite Hb. cbn [mbind option_bind].
  destruct (GetLastBlockIndex_spec s Hs fProofOfStake i b Hb) as (j & x & -> & Hij & Hx & Hpos).
  cbn [mbind option_bind]. rewrite Hx. cbn [mbind option_bind].
  assert (exists c, Some (GetCompact (GetLimit (i32 (nHeight b + 1)) main_params fProofOfStake) false) = Some c /\
    (fProofOfStake = false -> c = GetCompact (UintToArith256 (powLimit main_params)) false \/
       exists j x, is_ancestor s i j /\ s !! j = Some x /\ IsProofOfWork x = true /\ c = nBits (header x))) as Hlimit.
  { eexists. split; [done|]. intros ->. by left. }
  destruct (pprev x) as [k|] eqn:Ek; [|exact Hlimit].
  destruct (eo_child _ _ _ (Hs j x Hx) k Ek) as (p & Hp & _).
  destruct (GetLastBlockIndex_spec s Hs fProofOfStake k p Hp) as (l & y & -> & _ & Hy & _).
  cbn [mbind option_bind]. rewrite Hy. cbn [mbind option_bind].
  destruct (pprev y); [|exact Hlimit]. replace (fPowAllowMinDifficultyBlocks main_params) with false by reflexivity.
  destruct (Hok j x Hx) as [Hbx Htx], (Hok l y Hy) as [_ Hty].
  assert (nHeight x < Z.of_nat (size s)) by exact (Hh j x Hx). pose proof (eo_height _ _ _ (Hs j x Hx)).
  destruct fProofOfStake.
  - destruct (main_pos_step s j x (GetBlockTime y) Hx ltac:(lia) Hbx Htx Hty) as [c Hc]. by exists c.
  - exists (nBits (header x)). split; [unfold CalculateNextWorkRequired; by rewrite Hx|]. intros _. right.
    exists j, x. split_and!; [done|done| |done]. unfold IsProofOfWork. by rewrite Hpos.
Qed.

Lemma main_next_work_defined_witness :
  exists c, GetNextWorkRequired (m_block_index wit_m) (Some 7%N) 2000 main_params true = Some c.
Proof.
  destruct (wit_m_entry 7 2 ltac:(by vm_compute)) as (b & Hb & _).
  destruct (main_next_work_defined (C := Crypto.toy_crypto) wit_hash wit_m 7 b 2000 true
    wit_hash_self wit_m_built wit_m_size) as (c & Hc & _).
  - exact Hb.
  - by exists c.
Defined.

(** Where the special rule of testnet4 is on and proof of stake retargets, the
    required work of a block near the start of the chain is read through a null
    pointer: for a parent lower than the adjustment interval less one,
    [GetAncestor] is asked for a negative height. *)
Theorem bip94_reads_null s i b nFirstBlockTime p :
  enforce_BIP94 p = true -> fPoSNoRetargeting p = false -> s !! i = Some b ->
  let nInterval := DifficultyAdjustmentInterval p (nHeight b + 1) in
  0 <= nHeight b < nInterval - 1 -> nInterval <= 2147483647 ->
  GetAncestor s i (nHeight b - (nInterval - 1)) = Some None /\
  CalculateNextWorkRequired s i nFirstBlockTime p true = None.
Proof.
  intros Hb94 Hnr Hb nInterval Hh HI.
  assert (GetAncestor s i (nHeight b - (nInterval - 1)) = Some None) as HG.
  { unfold GetAncestor. rewrite Hb. cbn [mbind option_bind].
    destruct (Z.ltb_spec (nHeight b - (nInterval - 1)) 0); [|lia]. by rewrite orb_true_r. }
  split; [done|]. unfold CalculateNextWorkRequired. generalize mul_exp as the_exp. intros the_exp.
  rewrite Hb. cbn [mbind option_bind]. rewrite Hnr. unfold base_target. rewrite Hb94.
  rewrite (i32_id (nHeight b + 1)) by (unfold in_i32; lia). fold nInterval.
  rewrite (i32_id (nHeight b - (nInterval - 1))) by (unfold in_i32; lia). by rewrite HG.
Qed.

(** The retargeting parameters of testnet4 (kernel/chainparams.cpp), the others as on the
    main network. *)
Definition testnet4_retargeting : Params :=
  let q := main_params in
  mkParams 985500 (nSubsidyHalvingIntervalV2 q) 0 0 (powLimit q) (posLimit q) (QIP9PosLimit q) (RBTPosLimit q)
    false true true false 128 32 960 4000 1000 5000 (nMPoSRewardRecipients q) (nStakeTimestampMask q)
    (nRBTStakeTimestampMask q) (nBlocktimeDownscaleFactor q) (nCoinbaseMaturity q) (nRBTCoinbaseMaturity q)
    (nMinValidatorStake q) (nHeartbeatInterval q) (nUptimeWindow q) (nBronzeUptimeThreshold q)
    (nSilverUptimeThreshold q) (nGoldUptimeThreshold q) (nPlatinumUptimeThreshold q)
    (nBronzeRewardMultiplier q) (nSilverRewardMultiplier q) (nGoldRewardMultiplier q)
    (nPlatinumRewardMultiplier q) (nBaseBlockReward q) (nTrustTierActivationHeight q).

Lemma bip94_reads_null_witness :
  CalculateNextWorkRequired (m_block_index wit_m) 7 1000 testnet4_retargeting true = None.
Proof.
  destruct (wit_m_entry 7 2 ltac:(by vm_compute)) as (b & Hb & Hh).
  destruct (bip94_reads_null (m_block_index wit_m) 7 b 1000 testnet4_retargeting) as [_ H].
  - reflexivity.
  - reflexivity.
  - exact Hb.
  - rewrite Hh. vm_compute. split; [discriminate|reflexivity].
  - rewrite Hh. vm_compute. discriminate.
  - exact H.
Defined.
