(* ===== verification/Block.v ===== *)
(** * Blocks (primitives/block.h, primitives/block.cpp, and the checks of blocks in
    validation.cpp)

    What the header ([CBlockHeader] of Chain.v) says about stake, the two values that share
    [vchBlockSigDlgt] (the signature and the proof of delegation), the hashes, and
    [CheckBlock] with what it calls on the transactions of a block.  The theorems: header
    and block survive serialization, signature and proof of delegation can be set and read
    without disturbing each other or the signed hash, and an accepted block has the shape
    consensus means it to have. *)

From stdpp Require Import gmap list strings.
From Stdlib Require Import ZArith Lia.
From S2P Require Import Prelude Params Serialize Crypto Merkle Script OutPoint Transaction ArithUint256 Chain.

Open Scope Z_scope.

Module Block.
Import Transaction.Transaction.

(** ** Headers *)

Definition IsProofOfStake (h : CBlockHeader) : bool := negb (IsNull (prevoutStake h)).
Definition IsProofOfWork (h : CBlockHeader) : bool := negb (IsProofOfStake h).
Definition StakeTime (h : CBlockHeader) : Z := if IsProofOfStake h then nTime h else 0.

Definition COMPACT_SIGNATURE_SIZE : nat := 65.

Definition HasProofOfDelegation (h : CBlockHeader) : bool := (2 * COMPACT_SIGNATURE_SIZE <=? length (vchBlockSigDlgt h))%nat.

Definition GetBlockSignature (h : CBlockHeader) : list Z :=
  let v := vchBlockSigDlgt h in
  if (length v <? 2 * COMPACT_SIGNATURE_SIZE)%nat then v else take (length v - COMPACT_SIGNATURE_SIZE) v.

Definition GetProofOfDelegation (h : CBlockHeader) : list Z :=
  let v := vchBlockSigDlgt h in
  if (length v <? 2 * COMPACT_SIGNATURE_SIZE)%nat then [] else drop (length v - COMPACT_SIGNATURE_SIZE) v.

Definition set_sig (v : list Z) (h : CBlockHeader) : CBlockHeader :=
  mkHeader (nVersion h) (hashPrevBlock h) (hashMerkleRoot h) (nTime h) (nBits h) (nNonce h)
           (hashStateRoot h) (hashUTXORoot h) (prevoutStake h) v.

Definition SetBlockSignature (vchSign : list Z) (h : CBlockHeader) : CBlockHeader :=
  if HasProofOfDelegation h then set_sig (vchSign ++ GetProofOfDelegation h) h else set_sig vchSign h.

(** [vchSign.resize(n, 0)] *)
Definition resize_bytes (n : nat) (l : list Z) : list Z := take n l ++ replicate (n - length l) 0.

Definition SetProofOfDelegation (vchPoD : list Z) (h : CBlockHeader) : CBlockHeader :=
  let vchSign := GetBlockSignature h in
  let vchSign := if (length vchSign =? COMPACT_SIGNATURE_SIZE)%nat then vchSign else resize_bytes COMPACT_SIGNATURE_SIZE vchSign in
  set_sig (vchSign ++ vchPoD) h.

(** ** Serialization *)

Definition tuple10 : Type := Z * (N * (N * (Z * (Z * (Z * (N * (N * (COutPoint * list Z)))))))).

Definition header_codec : codec CBlockHeader :=
  class_codec
    (fun h => (nVersion h, (hashPrevBlock h, (hashMerkleRoot h, (nTime h, (nBits h, (nNonce h,
               (hashStateRoot h, (hashUTXORoot h, (prevoutStake h, vchBlockSigDlgt h))))))))) : tuple10)
    (fun '(a, (b, (c, (d, (e, (f, (g, (i, (j, k))))))))) => mkHeader a b c d e f g i j k)
    (pair_codec i32_codec (pair_codec (id_codec 32) (pair_codec (id_codec 32) (pair_codec u32_codec (pair_codec u32_codec
      (pair_codec u32_codec (pair_codec (id_codec 32) (pair_codec (id_codec 32) (pair_codec outpoint_codec bytes_codec))))))))).

(** A transaction in a block: written and read with its witnesses. *)
Definition tx_codec : codec CTransaction :=
  mkCodec (SerializeTransaction true) (UnserializeTransaction true) (fun tx => tx_ok tx /\ (vin tx <> [] \/ vout tx = [])).

Record CBlock := mkBlock { header : CBlockHeader; vtx : list CTransaction }.

Definition block_codec : codec CBlock :=
  class_codec (fun b => (header b, vtx b)) (fun x => mkBlock x.1 x.2) (pair_codec header_codec (vector_codec tx_codec)).

(** [CBlockHeaderSign]: the header without the signature *)
Definition signed_bytes (h : CBlockHeader) : list Z :=
  enc i32_codec (nVersion h) ++ enc (id_codec 32) (hashPrevBlock h) ++ enc (id_codec 32) (hashMerkleRoot h) ++
  enc u32_codec (nTime h) ++ enc u32_codec (nBits h) ++ enc u32_codec (nNonce h) ++
  enc (id_codec 32) (hashStateRoot h) ++ enc (id_codec 32) (hashUTXORoot h) ++ enc outpoint_codec (prevoutStake h) ++
  (if HasProofOfDelegation h then enc bytes_codec (GetProofOfDelegation h) else []).

Section Hashes.
Context `{Crypto}.

Definition GetBlockHash (h : CBlockHeader) : N := Hash256 (enc header_codec h).
Definition GetHashWithoutSign (h : CBlockHeader) : N := Hash256 (signed_bytes h).

(** ** Checks of the body *)

(** [None] is success, [Some reason] the rejection. *)
Definition CheckMerkleRoot (b : CBlock) : option string :=
  let '(merkle_root, mutated) := BlockMerkleRoot (vtx b) in
  if negb (hashMerkleRoot (header b) =? merkle_root)%N then Some "bad-txnmrklroot"%string
  else if mutated then Some "bad-txns-duplicate"%string
  else None.
End Hashes.

Definition MINIMUM_WITNESS_COMMITMENT : Z := 38.

Definition is_commitment (s : list Z) : bool :=
  (MINIMUM_WITNESS_COMMITMENT <=? Script.size s) && (Script.at_ s 0 =? Script.OP_RETURN) && (Script.at_ s 1 =? 0x24) &&
  (Script.at_ s 2 =? 0xaa) && (Script.at_ s 3 =? 0x21) && (Script.at_ s 4 =? 0xa9) && (Script.at_ s 5 =? 0xed).

(** The last output of the coinbase that has the form of a commitment; -1 if none. *)
Fixpoint commitment_loop (vout : list CTxOut) (o commitpos : Z) : Z :=
  match vout with
  | [] => commitpos
  | out :: vout => commitment_loop vout (o + 1) (if is_commitment (scriptPubKey out) then o else commitpos)
  end.
Definition GetWitnessCommitmentIndex (b : CBlock) : Z :=
  match vtx b with [] => -1 | tx :: _ => commitment_loop (vout tx) 0 (-1) end.

Definition CheckFirstCoinstakeOutput (b : CBlock) : bool :=
  match vtx b with
  | [] => false
  | tx :: _ =>
      if GetWitnessCommitmentIndex b <? 0
      then match vout tx with [o] => IsEmpty o | _ => false end
      else match vout tx with [o; p] => IsEmpty o && (nValue p =? 0) | _ => false end
  end.

Definition has_contract (tx : CTransaction) : bool := HasOpSpend tx || HasCreateOrCall tx || HasOpSender tx.

(** The checks of a proof-of-stake block. *)
Definition check_stake (b : CBlock) : option string :=
  if negb (CheckFirstCoinstakeOutput b) then Some "bad-cb-missing"%string
  else match vtx b with
  | _ :: cs :: rest =>
      if negb (IsCoinStake cs) then Some "bad-cs-missing"%string
      else if negb (HasProofOfDelegation (header b)) &&
              match vin cs with [] => true | i :: _ => bool_decide (prevoutStake (header b) <> prevout i) end
      then Some "bad-cs-invalid"%string
      else if existsb IsCoinStake rest then Some "bad-cs-multiple"%string
      else if has_contract cs then Some "bad-cs-contract"%string
      else None
  | _ => Some "bad-cs-missing"%string
  end.

(** The loop over the transactions. *)
Fixpoint check_transactions (dgpMaxBlockWeight : Z) (lastWasContract : bool) (l : list CTransaction) : option string :=
  match l with
  | [] => None
  | tx :: l =>
      match CheckTransaction dgpMaxBlockWeight tx with
      | Some reason => Some reason
      | None =>
          if HasOpSpend tx && negb lastWasContract then Some "bad-opspend-tx"%string
          else check_transactions dgpMaxBlockWeight (HasCreateOrCall tx || HasOpSpend tx) l
      end
  end.

Section CheckBlock.
Context `{Crypto}.
(** The limits the governance contract sets; what [CheckBlockHeader], the future-drift
    test, the signet test and [CheckBlockSignature] say about the block. *)
Context (dgpMaxBlockWeight dgpMaxBlockSigOps : Z) (header_reason : option string) (time_ok signet_ok sig_ok : bool).

Definition CheckBlock (fCheckMerkleRoot : bool) (b : CBlock) : option string :=
  match header_reason with
  | Some reason => Some reason
  | None =>
      if IsProofOfStake (header b) && negb time_ok then Some "CheckBlock() : block timestamp too far in the future"%string
      else if negb signet_ok then Some "bad-signet-blksig"%string
      else match (if fCheckMerkleRoot then CheckMerkleRoot b else None) with
      | Some reason => Some reason
      | None =>
          match vtx b with
          | [] => Some "bad-cb-missing"%string
          | cb :: rest =>
              if negb (IsCoinBase cb) then Some "bad-cb-missing"%string
              else if existsb IsCoinBase rest then Some "bad-cb-multiple"%string
              else if has_contract cb then Some "bad-cb-contract"%string
              else match (if IsProofOfStake (header b) then check_stake b else None) with
              | Some reason => Some reason
              | None =>
                  if negb sig_ok then Some "bad-blk-signature"%string
                  else match check_transactions dgpMaxBlockWeight false (vtx b) with
                  | Some reason => Some reason
                  | None =>
                      let nSigOps := fold_left (fun n tx => u32 (n + GetLegacySigOpCount tx)) (vtx b) 0 in
                      if dgpMaxBlockSigOps <? u32 (nSigOps * WITNESS_SCALE_FACTOR) then Some "bad-blk-sigops"%string
                      else None
                  end
              end
          end
      end
  end.
End CheckBlock.

(** ** Serialization: lemmas *)

#[export] Instance i32_canonical : Canonical i32_codec.
Proof.
  intros s z rest Hs. cbn [dec enc i32_codec valid]. destruct (ser_readdata32 s) as [[x s']|] eqn:E; [|done].
  cbn [mbind option_bind]. intros [= <- <-]. apply (ser_readdata_inv 4) in E as (-> & Hx & _); [|done]. split; [|apply i32_range].
  apply (f_equal (fun l => l ++ s')). unfold ser_writedata32. apply le_bytes_wrap. change (256 ^ Z.of_nat 4) with 4294967296. unfold i32.
  rewrite Zminus_mod_idemp_l. f_equal. lia.
Qed.

#[export] Instance header_roundtrip : RoundTrip header_codec.
Proof. apply _. Qed.
#[export] Instance header_canonical : Canonical header_codec.
Proof. apply class_canonical; [by intros (? & ? & ? & ? & ? & ? & ? & ? & ? & ?)|apply _]. Qed.
#[export] Instance tx_roundtrip : RoundTrip tx_codec.
Proof. intros tx rest [Hok Hne]. by apply read_full. Qed.
#[export] Instance tx_canonical : Canonical tx_codec.
Proof. intros s tx rest Hs E. destruct (read_canonical true s tx rest Hs E) as (-> & Hok & Hne). done. Qed.
#[export] Instance block_roundtrip : RoundTrip block_codec.
Proof. apply _. Qed.
#[export] Instance block_canonical : Canonical block_codec.
Proof. apply class_canonical; [by intros []|apply _]. Qed.

(** ** Signature and proof of delegation: lemmas *)

Section Signatures.
Variable h : CBlockHeader.

Lemma split_sig : vchBlockSigDlgt h = GetBlockSignature h ++ GetProofOfDelegation h.
Proof.
  unfold GetBlockSignature, GetProofOfDelegation. destruct (_ <? _)%nat; [by rewrite app_nil_r|by rewrite take_drop].
Qed.

Lemma pod_length : HasProofOfDelegation h = true -> length (GetProofOfDelegation h) = 65%nat.
Proof.
  unfold HasProofOfDelegation, GetProofOfDelegation, COMPACT_SIGNATURE_SIZE. intros H%Nat.leb_le.
  rewrite (proj2 (Nat.ltb_ge _ _)) by done. rewrite length_drop. lia.
Qed.

Lemma no_pod : HasProofOfDelegation h = false -> GetProofOfDelegation h = [] /\ GetBlockSignature h = vchBlockSigDlgt h.
Proof.
  unfold HasProofOfDelegation, GetProofOfDelegation, GetBlockSignature. intros H%Nat.leb_gt. by rewrite (proj2 (Nat.ltb_lt _ _)).
Qed.

(** A signature of at least 65 bytes followed by 65 bytes. *)
Lemma joined v w : (65 <= length v)%nat -> length w = 65%nat -> let h' := set_sig (v ++ w) h in
  HasProofOfDelegation h' = true /\ GetBlockSignature h' = v /\ GetProofOfDelegation h' = w.
Proof.
  intros Hv Hw. unfold HasProofOfDelegation, GetBlockSignature, GetProofOfDelegation, COMPACT_SIGNATURE_SIZE. cbn [vchBlockSigDlgt set_sig].
  rewrite length_app, Hw. rewrite (proj2 (Nat.leb_le _ _)), (proj2 (Nat.ltb_ge _ _)) by lia.
  rewrite Nat.add_sub, take_app_length, drop_app_length. done.
Qed.
End Signatures.

Lemma SetBlockSignature_spec sig h : (if HasProofOfDelegation h then 65 <= length sig else length sig < 130)%nat ->
  let h' := SetBlockSignature sig h in
  GetBlockSignature h' = sig /\ GetProofOfDelegation h' = GetProofOfDelegation h /\
  HasProofOfDelegation h' = HasProofOfDelegation h /\ signed_bytes h' = signed_bytes h.
Proof.
  intros Hl. cbv zeta. assert (GetBlockSignature (SetBlockSignature sig h) = sig /\
    GetProofOfDelegation (SetBlockSignature sig h) = GetProofOfDelegation h /\
    HasProofOfDelegation (SetBlockSignature sig h) = HasProofOfDelegation h) as (E1 & E2 & E3).
  { unfold SetBlockSignature. destruct (HasProofOfDelegation h) eqn:D.
    - destruct (joined h sig (GetProofOfDelegation h) Hl (pod_length h D)) as (J1 & J2 & J3). done.
    - destruct (no_pod h D) as [-> _]. assert (HasProofOfDelegation (set_sig sig h) = false) as D'.
      { unfold HasProofOfDelegation, COMPACT_SIGNATURE_SIZE. cbn [vchBlockSigDlgt set_sig]. apply Nat.leb_gt. lia. }
      destruct (no_pod _ D') as [-> ->]. done. }
  split_and!; try done. unfold signed_bytes. rewrite E2, E3. unfold SetBlockSignature. by destruct (HasProofOfDelegation h).
Qed.

Lemma resize_bytes_length n l : length (resize_bytes n l) = n.
Proof. unfold resize_bytes. rewrite length_app, length_take, length_replicate. lia. Qed.

Lemma SetProofOfDelegation_spec pod h : length pod = 65%nat ->
  let h' := SetProofOfDelegation pod h in
  GetProofOfDelegation h' = pod /\ length (GetBlockSignature h') = 65%nat /\
  (length (GetBlockSignature h) = 65%nat -> GetBlockSignature h' = GetBlockSignature h).
Proof.
  intros Hl. cbv zeta. unfold SetProofOfDelegation, COMPACT_SIGNATURE_SIZE. destruct (Nat.eqb_spec (length (GetBlockSignature h)) 65) as [E|E].
  - destruct (joined h (GetBlockSignature h) pod ltac:(lia) Hl) as (_ & -> & ->). done.
  - pose proof (resize_bytes_length 65 (GetBlockSignature h)) as R.
    destruct (joined h (resize_bytes 65 (GetBlockSignature h)) pod ltac:(lia) Hl) as (_ & -> & ->). split; [done|]. split; [done|lia].
Qed.

(** ** Accepted blocks: lemmas *)

(** Contract spends follow contract transactions. *)
Fixpoint spends_follow (lastWasContract : bool) (l : list CTransaction) : Prop :=
  match l with
  | [] => True
  | tx :: l => (HasOpSpend tx = true -> lastWasContract = true) /\ spends_follow (HasCreateOrCall tx || HasOpSpend tx) l
  end.

Lemma check_transactions_spec w l : forall last, check_transactions w last l = None <-> Forall (tx_valid w) l /\ spends_follow last l.
Proof.
  induction l as [|tx l IH]; intros last; cbn [check_transactions spends_follow]; [split; [split; [constructor|done]|done]|].
  rewrite Forall_cons, <- CheckTransaction_spec. destruct (CheckTransaction w tx) as [reason|]; [split; [done|naive_solver]|].
  destruct (HasOpSpend tx) eqn:E, last; cbn [andb negb]; rewrite ?IH; naive_solver.
Qed.

(** The shape of an accepted block. *)
Record block_shape (w : Z) (b : CBlock) : Prop := {
  s_coinbase : exists cb rest, vtx b = cb :: rest /\ IsCoinBase cb = true /\ Forall (fun tx => IsCoinBase tx = false) rest /\ has_contract cb = false;
  s_valid : Forall (tx_valid w) (vtx b);
  s_spends : spends_follow false (vtx b);
  s_stake : IsProofOfStake (header b) = true -> exists cb cs rest, vtx b = cb :: cs :: rest /\ total (vout cb) = 0 /\
    IsCoinStake cs = true /\ Forall (fun tx => IsCoinStake tx = false) rest /\ has_contract cs = false /\
    (HasProofOfDelegation (header b) = false -> exists i vin', vin cs = i :: vin' /\ prevout i = prevoutStake (header b))
}.

Lemma existsb_Forall {A} (f : A -> bool) l : existsb f l = false <-> Forall (fun x => f x = false) l.
Proof. induction l as [|x l IH]; cbn [existsb]; [split; [constructor|done]|]. rewrite orb_false_iff, Forall_cons, IH. done. Qed.

Lemma check_stake_spec b : check_stake b = None -> exists cb cs rest, vtx b = cb :: cs :: rest /\ total (vout cb) = 0 /\
  IsCoinStake cs = true /\ Forall (fun tx => IsCoinStake tx = false) rest /\ has_contract cs = false /\
  (HasProofOfDelegation (header b) = false -> exists i vin', vin cs = i :: vin' /\ prevout i = prevoutStake (header b)).
Proof.
  unfold check_stake. destruct (CheckFirstCoinstakeOutput b) eqn:F; [|done]. cbn [negb].
  destruct (vtx b) as [|cb [|cs rest]] eqn:Ev; [done|done|]. destruct (IsCoinStake cs) eqn:S; [|done]. cbn [negb].
  destruct (negb _ && _) eqn:E1; [done|]. destruct (existsb IsCoinStake rest) eqn:E2; [done|]. destruct (has_contract cs) eqn:E3; [done|].
  intros _. exists cb, cs, rest. split; [done|]. split; [|split; [done|split; [by apply existsb_Forall|split; [done|]]]].
  - unfold CheckFirstCoinstakeOutput in F. rewrite Ev in F. destruct (_ <? 0).
    + destruct (vout cb) as [|o [|]]; [done| |done]. apply andb_true_iff in F as [F _]. apply Z.eqb_eq in F. cbn. lia.
    + destruct (vout cb) as [|o [|p [|]]]; try done. apply andb_true_iff in F as [F1 F2]. apply andb_true_iff in F1 as [F1 _].
      apply Z.eqb_eq in F1, F2. cbn. lia.
  - intros D. rewrite D in E1. cbn [negb andb] in E1. destruct (vin cs) as [|i vin']; [done|]. apply bool_decide_eq_false in E1.
    exists i, vin'. split; [done|]. destruct (decide (prevoutStake (header b) = prevout i)); [done|tauto].
Qed.

Section Shape.
Context `{Crypto}.

Lemma CheckBlock_shape w sigops hr t sg sig root b : CheckBlock w sigops hr t sg sig root b = None ->
  block_shape w b /\ (root = true -> BlockMerkleRoot (vtx b) = (hashMerkleRoot (header b), false)).
Proof.
  unfold CheckBlock. destruct hr; [done|]. destruct (_ && negb t); [done|]. destruct (negb sg); [done|].
  destruct (if root then CheckMerkleRoot b else None) eqn:M; [done|].
  destruct (vtx b) as [|cb rest] eqn:Ev; [done|]. destruct (IsCoinBase cb) eqn:C; [|done]. cbn [negb].
  destruct (existsb IsCoinBase rest) eqn:E1; [done|]. destruct (has_contract cb) eqn:E2; [done|].
  destruct (if IsProofOfStake (header b) then check_stake b else None) eqn:S; [done|]. destruct (negb sig); [done|].
  destruct (check_transactions w false (cb :: rest)) eqn:T; [done|]. intros _. apply check_transactions_spec in T as [T1 T2]. split.
  - split; rewrite ?Ev; try done.
    + exists cb, rest. split; [done|]. split; [done|]. split; [by apply existsb_Forall|done].
    + intros P. rewrite P in S. destruct (check_stake_spec b S) as (cb' & cs & rest' & E' & HS). rewrite Ev in E'. by exists cb', cs, rest'.
  - intros ->. unfold CheckMerkleRoot in M. rewrite <- Ev. destruct (BlockMerkleRoot (vtx b)) as [r m]. destruct (N.eqb_spec (hashMerkleRoot (header b)) r) as [<-|]; [|done].
    by destruct m.
Qed.
End Shape.

(** ** Properties *)

(** Blocks survive the network and the disk, and every accepted encoding of a block is
    the one written for it. *)
Theorem block_encoding_canonical :
  (forall b rest, valid block_codec b -> dec block_codec (enc block_codec b ++ rest) = Some (b, rest)) /\
  (forall s b rest, Forall byte_ok s -> dec block_codec s = Some (b, rest) -> s = enc block_codec b ++ rest /\ valid block_codec b).
Proof. split; [apply roundtrip|apply canonical]. Qed.

Definition sample_header : CBlockHeader := mkHeader 4 11 12 1700000000 0x1f00ffff 5 13 14 (mkOutPoint 77 1) (repeat 3 130).
Definition sample_coinstake : CTransaction :=
  mkTransaction [mkTxIn (mkOutPoint 77 1) [] SEQUENCE_FINAL []] [mkTxOut 0 []; mkTxOut 900 [81]] 2 0.
Definition sample_block : CBlock := mkBlock sample_header [sample_coinbase; sample_coinstake; sample_tx].

Lemma block_encoding_canonical_witness : dec block_codec (enc block_codec sample_block ++ [1]) = Some (sample_block, [1]).
Proof.
  apply (proj1 block_encoding_canonical sample_block [1]).
  repeat constructor; cbn; unfold in_u32, in_i32, in_i64, NULL_INDEX, SEQUENCE_FINAL, MAX_SIZE; lia || done || (by left).
Defined.

(** The signature and the proof of delegation share one member without disturbing each
    other: a signature set is the one read, the proof of delegation stays, and the hash
    that is signed does not change; a proof of delegation set is the one read, and a
    compact signature stays. *)
Theorem signature_and_delegation_independent `{Crypto} h :
  (forall sig, (if HasProofOfDelegation h then 65 <= length sig else length sig < 130)%nat ->
     GetBlockSignature (SetBlockSignature sig h) = sig /\
     GetProofOfDelegation (SetBlockSignature sig h) = GetProofOfDelegation h /\
     GetHashWithoutSign (SetBlockSignature sig h) = GetHashWithoutSign h) /\
  (forall pod, length pod = 65%nat ->
     GetProofOfDelegation (SetProofOfDelegation pod h) = pod /\
     (length (GetBlockSignature h) = 65%nat -> GetBlockSignature (SetProofOfDelegation pod h) = GetBlockSignature h)).
Proof.
  split; intros v Hv.
  - destruct (SetBlockSignature_spec v h Hv) as (E1 & E2 & _ & E4). unfold GetHashWithoutSign. by rewrite E4.
  - destruct (SetProofOfDelegation_spec v h Hv) as (E1 & _ & E3). done.
Qed.

Lemma signature_and_delegation_independent_witness :
  GetBlockSignature (SetBlockSignature (repeat 8 65) sample_header) = repeat 8 65 /\
  GetProofOfDelegation (SetBlockSignature (repeat 8 65) sample_header) = repeat 3 65.
Proof.
  destruct (@signature_and_delegation_independent toy_crypto sample_header) as [H1 _].
  destruct (H1 (repeat 8 65)) as (E1 & E2 & _); [cbn; lia|]. split; [exact E1|]. rewrite E2. reflexivity.
Defined.

(** C36: A block [CheckBlock] accepts has the shape meant: exactly one coinbase, at the
    front; every transaction valid by itself; contract spends only after contract
    transactions; the Merkle root of its transactions, unmutated, in the header; and if it
    is a proof-of-stake block, a coinbase that pays nothing, exactly one coinstake, at the
    second place, whose first input is the staked output unless the stake is delegated. *)
Theorem checked_block_shape `{Crypto} dgpMaxBlockWeight dgpMaxBlockSigOps header_reason time_ok signet_ok sig_ok fCheckMerkleRoot b :
  CheckBlock dgpMaxBlockWeight dgpMaxBlockSigOps header_reason time_ok signet_ok sig_ok fCheckMerkleRoot b = None ->
  block_shape dgpMaxBlockWeight b /\
  (fCheckMerkleRoot = true -> BlockMerkleRoot (vtx b) = (hashMerkleRoot (header b), false)).
Proof. apply CheckBlock_shape. Qed.

Lemma checked_block_shape_witness : block_shape 8000000 sample_block.
Proof.
  refine (proj1 (@checked_block_shape toy_crypto 8000000 80000 None true true true false sample_block _)). vm_compute. reflexivity.
Defined.
End Block.
