(* ===== verification/Pos.v ===== *)
(** * Proof of stake (pos.h, pos.cpp, qtum/posutils.h, util/signstr.h)

    The stake kernel, the coin a block may stake, the check of a coinstake with its
    delegation, the keys of a block, and the kernel cache of the staker.  A computation
    reads the view of unspent outputs ([CCoinsViewCache], which loads entries as it reads)
    and the delegation contract; it returns a value, a rejection, or stops (a null pointer
    that is followed, an exception).  Pointers into the block index are keys, as in
    Chain.v.  The public-key recovery of libsecp256k1, the script interpreter
    ([VerifySignature]), the state of the delegation contract and the blocks on disk are
    interfaces. *)

From stdpp Require Import gmap list strings.
From Stdlib Require Import ZArith Lia.
From S2P Require Import Prelude Params Serialize Crypto Script OutPoint Transaction Coins ArithUint256 Chain Pow Block Address.

Open Scope Z_scope.

Module Pos.
Import Transaction.Transaction Coins.Coins.
#[local] Existing Instance Script.TxoutType_eq.

(** ** Parameters and interfaces *)

(** The consensus parameters only staking reads. *)
Record StakeParams := mkStakeParams { nOfflineStakeHeight : Z; delegationsAddress : N; nLastPOWBlock : Z }.
Definition main_stake_params : StakeParams := mkStakeParams 1 0x86 1000.

Definition DEFAULT_STAKING_MIN_UTXO_VALUE : Z := 100 * COIN.

(** [CPubKey::RecoverCompact], [CPubKey::RecoverLaxDER]: the key, [None] on failure *)
Class Recovery := {
  RecoverCompact : N -> list Z -> option (list Z);
  RecoverLaxDER : N -> list Z -> Z -> bool -> option (list Z)
}.

Record Delegation := mkDelegation { staker : N; fee : Z; blockHeight : Z; PoD : list Z }.
Definition Delegation_IsNull (d : Delegation) : bool :=
  (staker d =? 0)%N && (fee d =? 0) && (blockHeight d =? 0) && bool_decide (PoD d = []).

(** The delegation contract, in its state [G]. *)
Class DelegationContract (G : Type) := {
  deployDelegationsContract : G -> G;
  ExistDelegationContract : G -> bool;
  GetDelegation : N -> G -> option Delegation
}.

Record CStakeCache := mkStakeCache { blockFromTime : Z; amount : Z }.

(** ** Signed messages (util/signstr.h) *)

Fixpoint string_bytes (s : string) : list Z :=
  match s with EmptyString => [] | String c s => Z.of_N (Ascii.N_of_ascii c) :: string_bytes s end.

(** A line feed ends the text. *)
Definition strMessageMagic : list Z := string_bytes "Qtum Signed Message:" ++ [10].

Definition hex_digit (d : Z) : Z := if d <? 10 then 48 + d else 87 + d.
(** [uint160::GetReverseHex], as bytes *)
Definition GetReverseHex (id : N) : list Z := flat_map (fun b => [hex_digit (b / 16); hex_digit (b mod 16)]) (id_bytes 20 id).

Section Messages.
Context {K : Crypto} {R : Recovery}.

Definition message_hash (strMessage : list Z) : N := Hash256 (enc bytes_codec strMessageMagic ++ enc bytes_codec strMessage).

Definition VerifyMessage (keyID : N) (strMessage vchSig : list Z) : bool :=
  match RecoverCompact (message_hash strMessage) vchSig with
  | None => false
  | Some pubkey => (GetID pubkey =? keyID)%N
  end.

Definition GetKeyIdMessage (strMessage vchSig : list Z) : option N := GetID <$> RecoverCompact (message_hash strMessage) vchSig.

(** [QtumDelegation::VerifyDelegation] *)
Definition VerifyDelegation (address : N) (d : Delegation) : bool :=
  if (address =? 0)%N || Delegation_IsNull d || (100 <? fee d) then false
  else VerifyMessage address (GetReverseHex (staker d)) (PoD d).
End Messages.

(** ** Delegation fees *)

(** The share of the delegate and that of the staker. *)
Definition SplitOfflineStakeReward (nReward fee : Z) : option (Z * Z) :=
  if 100 <? fee then None
  else
    let nRewardStaker := Z.quot (i64 (nReward * fee)) 100 in
    Some (i64 (nReward - nRewardStaker), nRewardStaker).

Definition IsDelegateOutputExist (inFee : Z) : bool := (0 <=? inFee) && (inFee <? 100).

(** The value is converted to [int]. *)
Definition GetDelegationFeeTx (tx : CTransaction) (coin : Coin) (delegateOutputExist : bool) : Z :=
  let nValueCoin := nValue (out coin) in
  let minVoutSize := if delegateOutputExist then 3%nat else 2%nat in
  if negb (IsCoinStake tx) || (length (vout tx) <? minVoutSize)%nat || (nValueCoin <=? 0) then -1
  else
    let value j := nValue (nth j (vout tx) CTxOut_null) in
    let nValueStaker := i64 (value 1%nat - nValueCoin) in
    let nValueDelegate := if delegateOutputExist then value 2%nat else 0 in
    let nReward := i64 (nValueStaker + nValueDelegate) in
    if nReward <=? 0 then -1
    else i32 (Z.quot (i64 (i64 (i64 (nValueStaker * 100) + nReward) - 1)) nReward).

(** ** Computations *)

Inductive outcome (A : Type) := Done (a : A) | Invalid (reason : string) | Stopped.
Arguments Done {A}.
Arguments Invalid {A}.
Arguments Stopped {A}.

Record world (V G : Type) := mkWorld { view : CCoinsViewCache V; globalState : G }.
Arguments mkWorld {V G}.
Arguments view {V G}.
Arguments globalState {V G}.

Definition M (V G A : Type) : Type := world V G -> outcome A * world V G.

Section Monad.
Context {V G : Type}.

Definition ret {A} (a : A) : M V G A := fun w => (Done a, w).
Definition bind {A B} (m : M V G A) (f : A -> M V G B) : M V G B := fun w =>
  match m w with (Done a, w) => f a w | (Invalid reason, w) => (Invalid reason, w) | (Stopped, w) => (Stopped, w) end.
Definition invalid {A} (reason : string) : M V G A := fun w => (Invalid reason, w).

(** A pointer that is followed, or a step that may throw. *)
Definition follow {A} (o : option A) : M V G A := fun w => (match o with Some a => Done a | None => Stopped end, w).
End Monad.

Declare Scope stake_scope.
Delimit Scope stake_scope with stake.
Notation "'let*' x ':=' m 'in' k" := (bind m (fun x => k)) (at level 10, x pattern, k at level 200) : stake_scope.
Section Stake.
Context {K : Crypto} {R : Recovery} {V G : Type} `{CCoinsView V} `{DelegationContract G}.
Context (p : Params) (sp : StakeParams) (s : BlockMap).
Open Scope stake_scope.

(** ** The kernel *)

Definition kernel_hash (nStakeModifier : N) (blockFromTime : Z) (prevout : COutPoint) (nTimeBlock : Z) : N :=
  Hash256 (id_bytes 32 nStakeModifier ++ ser_writedata32 blockFromTime ++
           id_bytes 32 (OutPoint.hash prevout) ++ ser_writedata32 (n prevout) ++ ser_writedata32 nTimeBlock).

(** The value returned, with the hash and target when they were computed; [None] is the
    exception of the division. *)
Definition CheckStakeKernelHash (prev : CBlockIndex) (bits blockFromTime prevoutValue : Z) (prevout : COutPoint) (nTimeBlock : Z) :
    option (bool * option (N * list Z)) :=
  if nTimeBlock <? blockFromTime then Some (false, None)
  else
    let h := i32 (Chain.nHeight prev + 1) in
    let fNoBNOverflow := nReduceBlocktimeHeight p <=? h in
    let bnTarget := SetCompact_value bits in
    let bnWeight := of_u64 (u64 prevoutValue) in
    let bnTarget := if fNoBNOverflow then bnTarget else mul bnTarget bnWeight in
    let hashProofOfStake := kernel_hash (nStakeModifier prev) blockFromTime prevout nTimeBlock in
    let bnProofOfStake := UintToArith256 (id_bytes 32 hashProofOfStake) in
    bnProofOfStake ← (if fNoBNOverflow then div bnProofOfStake bnWeight else Some bnProofOfStake);
    Some (negb (gt bnProofOfStake bnTarget), Some (hashProofOfStake, ArithToUint256 bnTarget)).

(** [CheckCoinStakeTimestamp] (pos.h) *)
Definition CheckCoinStakeTimestamp (nTimeBlock height : Z) : bool := Z.land nTimeBlock (StakeTimestampMask p height) =? 0.

(** ** The coin to stake *)

Definition ViewGetCoin (o : COutPoint) : M V G (option Coin) := fun w =>
  let '(x, c) := GetCoin o (view w) in (Done x, mkWorld c (globalState w)).

(** The height of the last of [fuel] headers that staked [prevout]. *)
Fixpoint staked_height (fuel : nat) (prev : N) (prevout : COutPoint) : option (option Z) :=
  match fuel with
  | O => Some None
  | S fuel =>
      b ← s !! prev;
      if bool_decide (prevoutStake (Chain.header b) = prevout) then Some (Some (Chain.nHeight b))
      else match pprev b with None => Some None | Some j => staked_height fuel j prevout end
  end.

Definition GetStakeCoin (prevout : COutPoint) (pindexPrev : N) : M V G (Coin * N) :=
  let* coinPrev := ViewGetCoin prevout in
  match coinPrev with
  | None => invalid "stake-prevout-not-exist"
  | Some coinPrev =>
      let* b := follow (s !! pindexPrev) in
      let h := i32 (Chain.nHeight b + 1) in
      let coinbaseMaturity := CoinbaseMaturity p h in
      if i32 (h - Coins.nHeight coinPrev) <? coinbaseMaturity then invalid "stake-prevout-not-mature"
      else
        let* blockFrom := follow (GetAncestor s pindexPrev (Coins.nHeight coinPrev)) in
        match blockFrom with
        | None => invalid "stake-prevout-not-loaded"
        | Some blockFrom =>
            let* used := follow (staked_height (Z.to_nat coinbaseMaturity) pindexPrev prevout) in
            let coinHeight := default (-1) used in
            if negb (coinHeight =? -1) && (i32 (h - coinHeight) <? coinbaseMaturity) then invalid "stake-prevout-not-mature"
            else ret (coinPrev, blockFrom)
        end
  end.

(** ** Checking a coinstake *)

(** [VerifySignature(coin, prevout.hash, tx, 0, SCRIPT_VERIFY_NONE)]: the script of the first
    input of [tx] against the coin *)
Context (VerifySignature : Coin -> CTransaction -> bool).

(** Whether a proof of delegation was given and holds. *)
Definition check_delegation (tx : CTransaction) (h : Z) (vchPoD : list Z) (coinTxPrev coinHeaderPrev : Coin) : M V G bool := fun w =>
  let g := globalState w in
  let g := if h =? nOfflineStakeHeight sp then deployDelegationsContract g else g in
  (if negb (ExistDelegationContract g) then invalid "stake-delegation-contract-not-exist"
   else
     let address := (Address.ExtractPublicKeyHash (scriptPubKey (out coinHeaderPrev))).1 in
     match GetDelegation address g with
     | None => invalid "stake-get-delegation-failed"
     | Some delegation =>
         let verifiedDelegation := VerifyDelegation address delegation in
         let hasDelegationProof := (0 <? length vchPoD)%nat in
         if hasDelegationProof && negb (Bool.eqb hasDelegationProof verifiedDelegation) then invalid "stake-delegation-not-verified"
         else if negb hasDelegationProof && negb (Delegation_IsNull delegation) then invalid "stake-delegation-not-used"
         else if hasDelegationProof then
           let* o := follow (vout tx !! 1%nat) in
           let staker_ := (Address.ExtractPublicKeyHash (scriptPubKey o)).1 in
           if negb (VerifyMessage address (GetReverseHex staker_) vchPoD) then invalid "stake-verify-delegation-failed"
           else if nValue (out coinTxPrev) <? DEFAULT_STAKING_MIN_UTXO_VALUE then invalid "stake-delegation-not-min-utxo"
           else
             let fee_ := GetDelegationFeeTx tx coinTxPrev (IsDelegateOutputExist (fee delegation)) in
             if negb (staker delegation =? staker_)%N || negb (fee delegation =? fee_) || (h <? i32 (blockHeight delegation)) ||
                negb (bool_decide (PoD delegation = vchPoD))
             then invalid "stake-delegation-not-match"
             else ret true
         else ret false
     end) (mkWorld (view w) g).

(** The hash of the kernel and the target. *)
Definition CheckProofOfStake (pindexPrev : N) (tx : CTransaction) (bits nTimeBlock : Z) (vchPoD : list Z) (headerPrevout : COutPoint) :
    M V G (N * list Z) :=
  if negb (IsCoinStake tx) then invalid "called on non-coinstake"
  else
    let* txin := follow (vin tx !! 0%nat) in
    let* (coinTxPrev, blockTxFrom) := GetStakeCoin (prevout txin) pindexPrev in
    let* (coinHeaderPrev, blockHeaderFrom) :=
      if bool_decide (prevout txin = headerPrevout) then ret (coinTxPrev, blockTxFrom) else GetStakeCoin headerPrevout pindexPrev in
    let* b := follow (s !! pindexPrev) in
    let h := i32 (Chain.nHeight b + 1) in
    let* checkDelegation :=
      if (nOfflineStakeHeight sp <=? h) && negb (delegationsAddress sp =? 0)%N
      then check_delegation tx h vchPoD coinTxPrev coinHeaderPrev else ret false in
    if negb checkDelegation && negb (bool_decide (prevout txin = headerPrevout)) then invalid "stake-prevout-diff-block-prevout"
    else if negb (VerifySignature coinTxPrev tx) then invalid "stake-verify-signature-failed"
    else
      let* from := follow (s !! blockHeaderFrom) in
      let* r := follow (CheckStakeKernelHash b bits (nTime (Chain.header from)) (nValue (out coinHeaderPrev)) headerPrevout nTimeBlock) in
      match r with
      | (true, Some proof) => ret proof
      | _ => invalid "stake-check-kernel-failed"
      end.
(** [Chainstate::UpdateHashProof] (validation.cpp) for a block at height [h] above [pprev]: the
    proof hash the index entry records *)
Definition UpdateHashProof (b : Block.CBlock) (parent : option N) (h : Z) : M V G N :=
  let hdr := Block.header b in
  if Block.IsProofOfWork hdr && (nLastPOWBlock sp <? h) then invalid "reject-pow"
  else if Block.IsProofOfStake hdr && negb (CheckCoinStakeTimestamp (nTime hdr) h) then invalid "timestamp-invalid"
  else
    let* bits := follow (GetNextWorkRequired s parent (nTime hdr) p (Block.IsProofOfStake hdr)) in
    if negb (nBits hdr =? bits) then invalid "bad-diffbits"
    else if Block.IsProofOfStake hdr then
      let* i := follow parent in
      let* tx := follow (Block.vtx b !! 1%nat) in
      let* (hashProof, _) := CheckProofOfStake i tx (nBits hdr) (nTime hdr) (Block.GetProofOfDelegation hdr) (prevoutStake hdr) in
      ret hashProof
    else ret (Block.GetBlockHash hdr).

(** ** The keys of a block *)

Definition CheckBlockInputPubKeyMatchesOutputPubKey (b : Block.CBlock) (delegateOutputExist : bool) : M V G bool :=
  let* coinIn := ViewGetCoin (prevoutStake (Block.header b)) in
  match coinIn with
  | None => ret false
  | Some coinIn =>
      let hasDelegation := Block.HasProofOfDelegation (Block.header b) in
      let k := if hasDelegation then 1%nat else 0%nat in
      if hasDelegation && negb delegateOutputExist then ret true
      else
        let* coinstakeTx := follow (Block.vtx b !! 1%nat) in
        if (length (vout coinstakeTx) <? 2 + k)%nat then ret false
        else
          let* txout := follow (vout coinstakeTx !! (1 + k)%nat) in
          if bool_decide (scriptPubKey (out coinIn) = scriptPubKey txout) then ret true
          else
            let '(inputTxType, inputAddress, found) := Address.ExtractDestination (scriptPubKey (out coinIn)) true in
            if negb found then ret false
            else if negb (bool_decide (inputTxType = Script.PUBKEYHASH)) || negb (bool_decide (is_Some (Address.get_PKHash inputAddress))) then ret false
            else
              let '(outputTxType, outputAddress, found) := Address.ExtractDestination (scriptPubKey txout) true in
              if negb found then ret false
              else if negb (bool_decide (outputTxType = Script.PUBKEY)) || negb (bool_decide (is_Some (Address.get_PKHash outputAddress))) then ret false
              else ret (bool_decide (Address.get_PKHash inputAddress = Address.get_PKHash outputAddress))
  end.

(** Blocks and undo data on disk; [None] is a failed read. *)
Context (ReadBlock : N -> option Block.CBlock) (ReadBlockUndo : N -> option (list (list Coin))).

(** The first input of the transactions from [j] on that spends [prevout]. *)
Fixpoint find_spend (prevout_ : COutPoint) (j : nat) (txs : list CTransaction) : option (nat * nat * CTransaction) :=
  match txs with
  | [] => None
  | tx :: txs =>
      match list_find (fun i => prevout i = prevout_) (vin tx) with
      | Some (k, _) => Some (j, k, tx)
      | None => find_spend prevout_ (S j) txs
      end
  end.

(** [GetSpentCoinFromBlock] (validation.cpp) *)
Definition GetSpentCoinFromBlock (pindex : N) (prevout : COutPoint) : option Coin :=
  block ← ReadBlock pindex;
  '(j, k, tx) ← find_spend prevout 1 (tail (Block.vtx block));
  undo ← ReadBlockUndo pindex;
  if negb (Z.of_nat (length undo) =? u64 (Z.of_nat (length (Block.vtx block)) - 1)) then None
  else
    txundo ← undo !! (j - 1)%nat;
    if negb (length txundo =? length (vin tx))%nat then None else txundo !! k.

(** [while(pindex && pindex != pforkBase)], over the branch of the fork and over the active
    chain; the heights bound the rounds.  The outer [option] is a pointer that cannot be
    followed or fuel that ran out. *)
Fixpoint staked_in_fork (fuel : nat) (pindex : option N) (pforkBase : N) (prevout : COutPoint) : option bool :=
  match fuel, pindex with
  | O, _ => None
  | S _, None => Some false
  | S fuel, Some i =>
      if (i =? pforkBase)%N then Some false
      else b ← s !! i; if bool_decide (prevoutStake (Chain.header b) = prevout) then Some true
           else staked_in_fork fuel (pprev b) pforkBase prevout
  end.

Fixpoint spent_in_chain (fuel : nat) (pindex : option N) (pforkBase : N) (prevout : COutPoint) : option (option Coin) :=
  match fuel, pindex with
  | O, _ => None
  | S _, None => Some None
  | S fuel, Some i =>
      if (i =? pforkBase)%N then Some None
      else match GetSpentCoinFromBlock i prevout with
      | Some x => Some (Some x)
      | None => b ← s !! i; spent_in_chain fuel (pprev b) pforkBase prevout
      end
  end.

(** [GetSpentCoinFromMainChain] (validation.cpp), [m_chain] the active chain *)
Definition GetSpentCoinFromMainChain (m_chain : CChain) (pforkPrev : N) (prevoutStake : COutPoint) : option (option Coin) :=
  base ← FindFork s m_chain (Some pforkPrev);
  tip ← Tip m_chain;
  t ← s !! tip;
  forkBase ← base;
  fb ← s !! forkBase;
  f ← s !! pforkPrev;
  let h := Chain.nHeight t in
  if CoinbaseMaturity p h <? i32 (h - Chain.nHeight fb) then Some None
  else
    staked ← staked_in_fork (S (S (Z.to_nat (Chain.nHeight f)))) (Some pforkPrev) forkBase prevoutStake;
    if staked : bool then Some None
    else spent_in_chain (S (S (Z.to_nat h))) (Some tip) forkBase prevoutStake.

(** The coin, in the view or spent on the active chain since the fork. *)
Definition find_stake_coin (m_chain : CChain) (pindexPrev : N) (prevout : COutPoint) : M V G (option Coin) :=
  let* coinPrev := ViewGetCoin prevout in
  match coinPrev with
  | Some x => ret (Some x)
  | None => follow (GetSpentCoinFromMainChain m_chain pindexPrev prevout)
  end.

(** The key id a stake coin pays to, by [ExtractDestination] and the tests after it. *)
Definition stake_key (x : Coin) : option N :=
  let '(txType, address, found) := Address.ExtractDestination (scriptPubKey (out x)) true in
  if found && Address.is_key_type txType then Address.get_PKHash address else None.

(** [recid] from 0 to 3 and [compressed] from 0 to 1. *)
Definition recovery_choices : list (Z * bool) := [(0, false); (0, true); (1, false); (1, true); (2, false); (2, true); (3, false); (3, true)].

Definition CheckRecoveredPubKeyFromBlockSignature (m_chain : CChain) (pindexPrev : N) (block : CBlockHeader) : M V G bool :=
  let* coinPrev := find_stake_coin m_chain pindexPrev (prevoutStake block) in
  match coinPrev with
  | None => ret false
  | Some coinPrev =>
      let hash := Block.GetHashWithoutSign block in
      let vchBlockSig := Block.GetBlockSignature block in
      if (length vchBlockSig =? 0)%nat then ret false
      else
        let* b := follow (s !! pindexPrev) in
        if nOfflineStakeHeight sp <=? i32 (Chain.nHeight b + 1) then
          ret match RecoverCompact hash vchBlockSig, stake_key coinPrev with
              | Some pubkey, Some address =>
                  if Block.HasProofOfDelegation block then VerifyMessage address (GetReverseHex (GetID pubkey)) (Block.GetProofOfDelegation block)
                  else (GetID pubkey =? address)%N
              | _, _ => false
              end
        else
          ret (existsb (fun x : Z * bool =>
                 match RecoverLaxDER hash vchBlockSig x.1 x.2, stake_key coinPrev with
                 | Some pubkey, Some address => (GetID pubkey =? address)%N
                 | _, _ => false
                 end) recovery_choices)
  end.

(** ** Searching a kernel *)

(** The time of the block of the coin and the coin, after the checks; [None] is [false]. *)
Definition kernel_input (m_chain : CChain) (pindexPrev : N) (prevout : COutPoint) : M V G (option (CBlockIndex * CStakeCache)) :=
  let* coinPrev := find_stake_coin m_chain pindexPrev prevout in
  match coinPrev with
  | None => ret None
  | Some coinPrev =>
      let* b := follow (s !! pindexPrev) in
      let h := i32 (Chain.nHeight b + 1) in
      if i32 (h - Coins.nHeight coinPrev) <? CoinbaseMaturity p h then ret None
      else
        let* blockFrom := follow (GetAncestor s pindexPrev (Coins.nHeight coinPrev)) in
        match blockFrom with
        | None => ret None
        | Some j =>
            if IsSpent coinPrev then ret None
            else
              let* from := follow (s !! j) in
              ret (Some (b, mkStakeCache (nTime (Chain.header from)) (nValue (out coinPrev))))
        end
  end.

Definition kernel_test (b : CBlockIndex) (bits nTimeBlock : Z) (prevout : COutPoint) (stake : CStakeCache) : M V G bool :=
  let* r := follow (CheckStakeKernelHash b bits (blockFromTime stake) (amount stake) prevout nTimeBlock) in ret r.1.

(** [CheckKernel] without a cache *)
Definition CheckKernel (m_chain : CChain) (pindexPrev : N) (bits nTimeBlock : Z) (prevout : COutPoint) : M V G bool :=
  let* x := kernel_input m_chain pindexPrev prevout in
  match x with
  | None => ret false
  | Some (b, stake) => kernel_test b bits nTimeBlock prevout stake
  end.

Definition CheckKernel_cached (m_chain : CChain) (pindexPrev : N) (bits nTimeBlock : Z) (prevout : COutPoint)
    (cache : gmap COutPoint CStakeCache) : M V G bool :=
  match cache !! prevout with
  | None => CheckKernel m_chain pindexPrev bits nTimeBlock prevout
  | Some stake =>
      let* b := follow (s !! pindexPrev) in
      let* found := kernel_test b bits nTimeBlock prevout stake in
      if found then CheckKernel m_chain pindexPrev bits nTimeBlock prevout else ret false
  end.

(** The value returned and [hashProofOfStake]. *)
Definition CheckKernelCache (pindexPrev : N) (bits nTimeBlock : Z) (prevout : COutPoint) (cache : gmap COutPoint CStakeCache) :
    option (bool * option N) :=
  match cache !! prevout with
  | None => Some (false, None)
  | Some stake =>
      b ← s !! pindexPrev;
      '(r, proof) ← CheckStakeKernelHash b bits (blockFromTime stake) (amount stake) prevout nTimeBlock;
      Some (r, option_map fst proof)
  end.

Definition CacheKernel (cache : gmap COutPoint CStakeCache) (prevout : COutPoint) (pindexPrev : N) : M V G (gmap COutPoint CStakeCache) :=
  match cache !! prevout with
  | Some _ => ret cache
  | None =>
      let* coinPrev := ViewGetCoin prevout in
      match coinPrev with
      | None => ret cache
      | Some coinPrev =>
          let* b := follow (s !! pindexPrev) in
          let h := i32 (Chain.nHeight b + 1) in
          if i32 (h - Coins.nHeight coinPrev) <? CoinbaseMaturity p h then ret cache
          else
            let* blockFrom := follow (GetAncestor s pindexPrev (Coins.nHeight coinPrev)) in
            match blockFrom with
            | None => ret cache
            | Some j => let* from := follow (s !! j) in
                        ret (<[prevout := mkStakeCache (nTime (Chain.header from)) (nValue (out coinPrev))]> cache)
            end
      end
  end.

(** ** Header proofs (validation.cpp) *)

Definition CheckHeaderPoW (hdr : CBlockHeader) : bool := CheckProofOfWorkImpl (id_bytes 32 (Block.GetBlockHash hdr)) (nBits hdr) p.

Context (nEnableHeaderSignatureHeight : Z) (m_chain : CChain).

Definition CheckHeaderPoS (hdr : CBlockHeader) : M V G bool :=
  match s !! hashPrevBlock hdr with
  | None => ret false
  | Some b =>
      let i := hashPrevBlock hdr in
      let* signed :=
        if nEnableHeaderSignatureHeight <=? Chain.nHeight b then CheckRecoveredPubKeyFromBlockSignature m_chain i hdr else ret true in
      if negb signed then ret false
      else CheckKernel m_chain i (nBits hdr) (Block.StakeTime hdr) (prevoutStake hdr)
  end.

Definition CheckHeaderProof (hdr : CBlockHeader) : M V G bool :=
  if Block.IsProofOfWork hdr then ret (CheckHeaderPoW hdr) else if Block.IsProofOfStake hdr then CheckHeaderPoS hdr else ret false.

(** ** The signature of a block *)

(** [IsCompressedOrUncompressedPubKey] (script/interpreter.cpp) *)
Definition IsCompressedOrUncompressedPubKey (vchPubKey : list Z) : bool :=
  if Script.size vchPubKey <? 33 then false
  else if Script.at_ vchPubKey 0 =? 4 then Script.size vchPubKey =? 65
  else if (Script.at_ vchPubKey 0 =? 2) || (Script.at_ vchPubKey 0 =? 3) then Script.size vchPubKey =? 33
  else false.

(** The key, [None] when the code returns [false]; the outer [option] is an index out of
    range. *)
Definition GetBlockPublicKey (b : Block.CBlock) : option (option (list Z)) :=
  if Block.IsProofOfWork (Block.header b) then Some None
  else if (length (vchBlockSigDlgt (Block.header b)) =? 0)%nat then Some None
  else
    tx ← Block.vtx b !! 1%nat;
    txout ← vout tx !! 1%nat;
    Some match Script.Solver false false (scriptPubKey txout) with
         | (Script.NONSTANDARD, _) => None
         | (Script.PUBKEY, vSolutions) => Some (Address.solution vSolutions 0)
         | _ =>
             '(opcode, _, pc) ← Script.GetScriptOp (scriptPubKey txout);
             if negb (opcode =? Script.OP_RETURN) then None
             else
               '(_, vchPubKey, _) ← Script.GetScriptOp pc;
               if IsCompressedOrUncompressedPubKey vchPubKey then Some vchPubKey else None
         end.

Definition CheckBlockSignature (b : Block.CBlock) : option bool :=
  let vchBlockSig := Block.GetBlockSignature (Block.header b) in
  if Block.IsProofOfWork (Block.header b) then Some (length vchBlockSig =? 0)%nat
  else
    key ← GetBlockPublicKey b;
    Some match key with
         | None => false
         | Some vchPubKey =>
             let hash := Block.GetHashWithoutSign (Block.header b) in
             if (length vchBlockSig =? Block.COMPACT_SIGNATURE_SIZE)%nat && bool_decide (RecoverCompact hash vchBlockSig = Some vchPubKey) then true
             else VerifyHash vchPubKey hash vchBlockSig
         end.

(** ** Delegated blocks *)

Definition GetDelegationFeeFromContract (address : N) (g : G) : option Z :=
  d ← GetDelegation address g; if VerifyDelegation address d then Some (fee d) else None.

(** The value returned and the variables [address] and [fee] of the caller, which keep what was
    set before a failure: the key that signed the proof, and the fee the reward of the coinstake
    shows, in 8 bits. *)
Definition GetBlockDelegation (b : Block.CBlock) (staker_ address : N) (fee_ : Z) : M V G (bool * N * Z) := fun w =>
  let hdr := Block.header b in
  if Block.IsProofOfWork hdr || (length (vchBlockSigDlgt hdr) =? 0)%nat || negb (Block.HasProofOfDelegation hdr) ||
     (length (Block.vtx b) <? 1)%nat then (Done (false, address, fee_), w)
  else
    match GetKeyIdMessage (GetReverseHex staker_) (Block.GetProofOfDelegation hdr) with
    | None => (Done (false, address, fee_), w)
    | Some address =>
        match GetDelegationFeeFromContract address (globalState w) with
        | None => (Done (false, address, fee_), w)
        | Some inFee =>
            (let delegateOutputExist := IsDelegateOutputExist inFee in
             let minVoutSize := if delegateOutputExist then 3%nat else 2%nat in
             let* tx := follow (Block.vtx b !! 1%nat) in
             if (length (vin tx) <? 1)%nat || (length (vout tx) <? minVoutSize)%nat then ret (false, address, fee_)
             else
               let* i := follow (vin tx !! 0%nat) in
               let* nValueCoin := fun w => let '(x, c) := AccessCoin (prevout i) (view w) in (Done (nValue (out x)), mkWorld c (globalState w)) in
               if nValueCoin <=? 0 then ret (false, address, fee_)
               else
                 let value j := nValue (nth j (vout tx) CTxOut_null) in
                 let nValueStaker := i64 (value 1%nat - nValueCoin) in
                 let nValueDelegate := if delegateOutputExist then value 2%nat else 0 in
                 let nReward := i64 (nValueStaker + nValueDelegate) in
                 if nReward <=? 0 then ret (false, address, fee_)
                 else
                   let fee_ := Z.quot (i64 (i64 (i64 (nValueStaker * 100) + nReward) - 1)) nReward mod 256 in
                   ret (inFee =? fee_, address, fee_)) w
        end
    end.

(** [CheckDelegationOutput]: the value returned and [delegateOutputExist], as passed in when it
    is not set *)
Definition CheckDelegationOutput (b : Block.CBlock) (delegateOutputExist : bool) : M V G (bool * bool) :=
  if Block.IsProofOfStake (Block.header b) && Block.HasProofOfDelegation (Block.header b) then
    let* key := follow (GetBlockPublicKey b) in
    match key with
    | None => ret (false, delegateOutputExist)
    | Some vchPubKey =>
        let* (ok, _, fee_) := GetBlockDelegation b (GetID vchPubKey) 0%N 0 in
        ret (if ok : bool then (true, IsDelegateOutputExist fee_) else (false, delegateOutputExist))
    end
  else ret (true, delegateOutputExist).
End Stake.

(** ** Running computations *)

Lemma bind_Done {V G A B} (m : M V G A) (f : A -> M V G B) w a w' : m w = (Done a, w') -> bind m f w = f a w'.
Proof. intros E. unfold bind. by rewrite E. Qed.

Lemma bind_Invalid {V G A B} (m : M V G A) (f : A -> M V G B) w r w' : m w = (Invalid r, w') -> bind m f w = (Invalid r, w').
Proof. intros E. unfold bind. by rewrite E. Qed.

Lemma follow_Some {V G A} (x : option A) a (w : world V G) : x = Some a -> follow x w = (Done a, w).
Proof. by intros ->. Qed.

(** Follows a pointer known to be there. *)
#[local] Ltac step H := rewrite (bind_Done _ _ _ _ _ (follow_Some _ _ _ H)).

(** ** The kernel is met by the weighted target *)

(** The proof hash as a number. *)
Definition arith_value (h : N) : Z := val (UintToArith256 (id_bytes 32 h)).

Lemma id_blob_ok h : blob_ok (id_bytes 32 h).
Proof. split; [apply Address.id_bytes_length|apply Address.id_bytes_ok]. Qed.

Lemma arith_value_wf h : wf (UintToArith256 (id_bytes 32 h)).
Proof. apply (blob_roundtrip zero _ (proj1 wf_zero) (id_blob_ok h)). Qed.

(** [q <= t] for the quotient of a division that rounds down. *)
Lemma quotient_le a v t : 0 < v -> (a / v <= t <-> a < (t + 1) * v).
Proof. intros Hv. rewrite <- Z.lt_succ_r. pose proof (Z.div_lt_upper_bound a v (Z.succ t) Hv). split; [intros H1|lia].
  pose proof (Z.mul_succ_div_gt a v Hv). nia. Qed.

Section Kernel.
Context {K : Crypto} (p : Params) (b : CBlockIndex) (bits from : Z) (o : COutPoint) (t : Z).
Hypothesis Hbits : in_u32 bits.
#[local] Abbreviation h := (i32 (Chain.nHeight b + 1)).
#[local] Abbreviation proof := (kernel_hash (nStakeModifier b) from o t).
#[local] Abbreviation target := (compact_exact bits mod 2 ^ 256).

(** Since the reduced block time: the hash is compared with the target for each unit of value,
    without wrapping. *)
Lemma kernel_spec v : nReduceBlocktimeHeight p <= h -> 0 < v -> in_i64 v ->
  CheckStakeKernelHash p b bits from v o t =
  Some (if t <? from then (false, None) else (arith_value proof <? (target + 1) * v, Some (proof, ArithToUint256 (SetCompact_value bits)))).
Proof.
  intros Hh Hv Hw. unfold CheckStakeKernelHash. destruct (t <? from); [done|].
  rewrite (proj2 (Z.leb_le _ _) Hh). cbv zeta. destruct (SetCompact_value_spec bits Hbits) as [Wt Vt].
  unfold in_i64 in Hw. rewrite (u64_id v) by (unfold in_u64; lia). destruct (wf_of_u64 v ltac:(unfold in_u64; lia)) as [Wv Vv].
  pose proof (div_spec _ _ (arith_value_wf proof) Wv) as Hd. destruct (div _ (of_u64 v)) as [q|]; [|lia]. destruct Hd as (_ & Wq & Vq).
  cbn [mbind option_bind]. rewrite gt_spec, Vt by done. do 2 f_equal. rewrite Vq, Vv. fold (arith_value proof).
  pose proof (quotient_le (arith_value proof) v target Hv). apply Bool.eq_iff_eq_true. rewrite negb_true_iff, Z.ltb_ge, Z.ltb_lt. done.
Qed.

(** A coin without value makes the division throw. *)
Lemma kernel_zero_value : nReduceBlocktimeHeight p <= h -> from <= t -> CheckStakeKernelHash p b bits from 0 o t = None.
Proof.
  intros Hh Ht. unfold CheckStakeKernelHash. rewrite (proj2 (Z.ltb_ge _ _) Ht), (proj2 (Z.leb_le _ _) Hh). cbv zeta.
  destruct (wf_of_u64 0 ltac:(unfold in_u64; lia)) as [Wv Vv]. pose proof (div_spec _ _ (arith_value_wf proof) Wv) as Hd.
  change (u64 0) with 0. destruct (div _ (of_u64 0)) as [q|]; [|done]. by destruct Hd as [Hd _].
Qed.

(** Before it, the product of target and value wraps at 256 bits. *)
Lemma kernel_wraps v : h < nReduceBlocktimeHeight p -> 0 <= v -> in_i64 v -> from <= t ->
  exists tg, CheckStakeKernelHash p b bits from v o t = Some (arith_value proof <=? target * v mod 2 ^ 256, Some (proof, tg)).
Proof.
  intros Hh Hv Hw Ht. unfold CheckStakeKernelHash. rewrite (proj2 (Z.ltb_ge _ _) Ht), (proj2 (Z.leb_gt _ _) Hh). cbv zeta.
  destruct (SetCompact_value_spec bits Hbits) as [Wt Vt]. unfold in_i64 in Hw. rewrite (u64_id v) by (unfold in_u64; lia).
  destruct (wf_of_u64 v ltac:(unfold in_u64; lia)) as [Wv Vv]. destruct (mul_spec _ _ Wt Wv) as [Wm Vm]. cbn [mbind option_bind].
  eexists. rewrite gt_spec, Vm, Vt, Vv by (done || apply arith_value_wf). do 2 f_equal.
  rewrite Z.leb_antisym. done.
Qed.
End Kernel.

(** ** The coin that may be staked *)

(** Whether one of the last [k] blocks up to [i] staked [o]. *)
Definition recently_staked (s : BlockMap) (i : N) (o : COutPoint) (k : Z) : Prop :=
  exists d j c, Z.of_nat d < k /\ anc s i d = Some j /\ s !! j = Some c /\ prevoutStake (Chain.header c) = o.

(** What it takes to stake [o] on top of [i]: an unspent coin [x], mature, from the block [j]
    of this branch, and not staked in the blocks it would have to mature for. *)
Record stakeable (p : Params) (s : BlockMap) (coins : COutPoint -> option Coin) (i : N) (o : COutPoint) (x : Coin) (j : N) : Prop := {
  sk_coin : coins o = Some x;
  sk_branch : exists b, s !! i = Some b /\
    CoinbaseMaturity p (Chain.nHeight b + 1) <= Chain.nHeight b + 1 - Coins.nHeight x /\
    anc s i (Z.to_nat (Chain.nHeight b - Coins.nHeight x)) = Some j /\
    ~ recently_staked s i o (CoinbaseMaturity p (Chain.nHeight b + 1) - 1)
}.

(** The widths of what is stored: coins have 30-bit heights. *)
Definition coin_heights (coins : COutPoint -> option Coin) : Prop := forall o x, coins o = Some x -> 0 <= Coins.nHeight x < 2 ^ 30.

Section StakeCoin.
Context {V G : Type} `{CCoinsViewLaws V}.
Implicit Types w : world V G.

(** Reading changes nothing one can see. *)
Record same_world w w' : Prop := {
  sw_ok : cache_ok (view w');
  sw_same : same (view w) (view w');
  sw_state : globalState w' = globalState w
}.

Lemma same_world_refl w : cache_ok (view w) -> same_world w w.
Proof. by split. Qed.

Lemma same_world_trans w w' w'' : same_world w w' -> same_world w' w'' -> same_world w w''.
Proof. intros [? ? E] [? ? E']. split; [done|by etrans|congruence]. Qed.

Lemma ViewGetCoin_spec o w : cache_ok (view w) -> exists w', ViewGetCoin o w = (Done (coins (view w) o), w') /\ same_world w w'.
Proof.
  intros Hw. unfold ViewGetCoin. destruct (GetCoin_spec o (view w) Hw) as (c' & -> & Hc' & S). eexists. split; [done|]. by split.
Qed.

Lemma staked_height_spec s (Hs : tree_ok s) o fuel : forall i b, s !! i = Some b -> exists r, staked_height s fuel i o = Some r /\
  match r with
  | None => ~ recently_staked s i o (Z.of_nat fuel)
  | Some h' => exists d j c, (d < fuel)%nat /\ anc s i d = Some j /\ s !! j = Some c /\ prevoutStake (Chain.header c) = o /\
      h' = Chain.nHeight c /\ ~ recently_staked s i o (Z.of_nat d)
  end.
Proof.
  induction fuel as [|fuel IH]; intros i b Hb; cbn [staked_height].
  { exists None. split; [done|]. intros (d & j & c & Hd & _). lia. }
  rewrite Hb. cbn [mbind option_bind]. case_bool_decide as Ho.
  { eexists. split; [done|]. exists 0%nat, i, b. split_and!; try done; [lia|]. intros (d & j & c & Hd & _). lia. }
  assert (forall k j, pprev b = Some j -> ~ recently_staked s j o k -> ~ recently_staked s i o (k + 1)) as Hup.
  { intros k j Ej Hn ([|d] & j' & c & Hd & Ha & Hc & Hp); [cbn in Ha; congruence|]. apply Hn. exists d, j', c. split; [lia|].
    split; [|done]. cbn in Ha. rewrite Hb in Ha. cbn in Ha. by rewrite Ej in Ha. }
  destruct (pprev b) as [j|] eqn:Ej.
  2: { exists None. split; [done|]. intros ([|d] & j & c & _ & Ha & Hc & Hp); [cbn in Ha; congruence|].
       cbn in Ha. rewrite Hb in Ha. cbn in Ha. by rewrite Ej in Ha. }
  destruct (eo_child _ _ _ (Hs i b Hb) j Ej) as (q & Hq & _). destruct (IH j q Hq) as (r & Hr & Hspec). exists r. split; [done|].
  destruct r as [h'|].
  - destruct Hspec as (d & j' & c & Hd & Ha & Hc & Hp & Hh & Hn). exists (S d), j', c. split_and!; try done; [lia| |].
    + cbn. rewrite Hb. cbn. by rewrite Ej.
    + replace (Z.of_nat (S d)) with (Z.of_nat d + 1) by lia. by apply (Hup _ j).
  - replace (Z.of_nat (S fuel)) with (Z.of_nat fuel + 1) by lia. by apply (Hup _ j).
Qed.

(** The maturity test and the later test of the last blocks in one: used within the
    maturity means used in one of its last blocks but one. *)
Lemma recent_test s (Hs : tree_ok s) i b o used :
  s !! i = Some b -> 0 <= Chain.nHeight b < 2 ^ 31 - 1 -> forall maturity, 0 < maturity < 2 ^ 31 -> staked_height s (Z.to_nat maturity) i o = Some used ->
  negb (default (-1) used =? -1) && (i32 (Chain.nHeight b + 1 - default (-1) used) <? maturity) = true <-> recently_staked s i o (maturity - 1).
Proof.
  intros Hb Hh m Hm Hu. destruct (staked_height_spec s Hs o (Z.to_nat m) i b Hb) as (r & Hr & Hspec). rewrite Hu in Hr. injection Hr as <-.
  destruct used as [h'|]; cbn [default from_option id]; unfold id.
  - destruct Hspec as (d & j & c & Hd & Ha & Hc & Hp & -> & Hn).
    destruct (anc_height s Hs i b d j Hb Ha) as (c' & Hc' & Hhc). rewrite Hc in Hc'. injection Hc' as <-.
    pose proof (eo_height _ _ _ (Hs j c Hc)). rewrite (proj2 (Z.eqb_neq _ _)) by lia. cbn [negb andb].
    change (2 ^ 31) with 2147483648 in *. rewrite i32_id by (unfold in_i32; lia). rewrite Z.ltb_lt. split; [|intros (d' & j' & c' & Hd' & Ha' & Hc' & Hp')].
    + intros. exists d, j, c. split_and!; [lia|done..].
    + destruct (decide (d <= d')%nat) as [|Hlt]; [lia|]. exfalso. apply Hn. exists d', j', c'. split_and!; [lia|done..].
  - cbn. split; [done|]. intros (d & j & c & Hd & Hrest). destruct Hspec. exists d, j, c. split; [lia|done].
Qed.

Context (p : Params) (s : BlockMap) (Hs : tree_ok s).

(** The coin is found, or rejected with a reason; the reason that the block of the coin is
    not loaded does not arise. *)
Lemma GetStakeCoin_spec o i b w :
  cache_ok (view w) -> coin_heights (coins (view w)) -> s !! i = Some b -> Chain.nHeight b < 2 ^ 31 - 1 ->
  0 < CoinbaseMaturity p (Chain.nHeight b + 1) < 2 ^ 31 ->
  exists r w', GetStakeCoin p s o i w = (r, w') /\ same_world w w' /\
    match r with
    | Done (x, j) => stakeable p s (coins (view w)) i o x j
    | Invalid reason => reason ∈ ["stake-prevout-not-exist"; "stake-prevout-not-mature"]%string /\ forall x j, ~ stakeable p s (coins (view w)) i o x j
    | Stopped => False
    end.
Proof.
  intros Hw Hc Hb Hh Hm. pose proof (eo_height _ _ _ (Hs i b Hb)) as Hnn. unfold GetStakeCoin.
  destruct (ViewGetCoin_spec o w Hw) as (w' & E & Sw). rewrite (bind_Done _ _ _ _ _ E). destruct (coins (view w) o) as [x|] eqn:Ex.
  2: { do 2 eexists. split; [done|]. split; [done|]. split; [set_solver|]. intros x j []. congruence. }
  step Hb. change (2 ^ 31) with 2147483648 in *. rewrite (i32_id (Chain.nHeight b + 1)) by (unfold in_i32; lia).
  set (m := CoinbaseMaturity p (Chain.nHeight b + 1)) in *. pose proof (Hc _ _ Ex) as Hx. change (2 ^ 30) with 1073741824 in *.
  rewrite (i32_id (Chain.nHeight b + 1 - _)) by (unfold in_i32; lia).
  assert (forall y j, stakeable p s (coins (view w)) i o y j -> y = x /\ m <= Chain.nHeight b + 1 - Coins.nHeight x /\
    anc s i (Z.to_nat (Chain.nHeight b - Coins.nHeight x)) = Some j /\ ~ recently_staked s i o (m - 1)) as Hinv.
  { intros y j [Hy (b' & Hb' & H1 & H2 & H3)]. rewrite Ex in Hy. injection Hy as <-. rewrite Hb in Hb'. injection Hb' as <-. done. }
  destruct (Z.ltb_spec (Chain.nHeight b + 1 - Coins.nHeight x) m).
  { do 2 eexists. split; [done|]. split; [done|]. split; [set_solver|]. intros y j Hy%Hinv. lia. }
  pose proof (GetAncestor_spec s Hs i b (Coins.nHeight x) Hb) as HG.
  rewrite (proj2 (Z.ltb_ge _ _)), (proj2 (Z.ltb_ge _ _)) in HG by lia. cbn [orb] in HG.
  destruct (anc_at s Hs (Z.to_nat (Chain.nHeight b - Coins.nHeight x)) i b Hb ltac:(lia)) as (j & c & Ej & Hj & _). rewrite Ej in HG.
  step HG. destruct (staked_height_spec s Hs o (Z.to_nat m) i b Hb) as (used & Hu & _). step Hu. cbv zeta.
  pose proof (recent_test s Hs i b o used Hb ltac:(change (2 ^ 31) with 2147483648; lia) m ltac:(change (2 ^ 31) with 2147483648; lia) Hu) as Ht.
  destruct (negb _ && _).
  - do 2 eexists. split; [done|]. split; [done|]. split; [set_solver|]. intros y j' Hy%Hinv. tauto.
  - do 2 eexists. split; [done|]. split; [done|]. split; [done|]. exists b. fold m. split_and!; try done. intros Hr. by apply Ht in Hr.
Qed.
End StakeCoin.

(** ** What the check of a coinstake accepts *)

(** The coin [x] of the staker may be used with the delegation of [address]: the contract has a
    verified delegation with this proof, to the key of the second output, at the fee the
    outputs pay. *)
Record delegated `{Crypto} `{Recovery} `{DelegationContract G} (g : G) (address : N) (tx : CTransaction) (x : Coin) (vchPoD : list Z) (h : Z) : Prop := {
  dl_found : exists d, GetDelegation address g = Some d /\ VerifyDelegation address d = true /\ PoD d = vchPoD /\
    i32 (blockHeight d) <= h /\ fee d = GetDelegationFeeTx tx x (IsDelegateOutputExist (fee d)) /\
    exists o, vout tx !! 1%nat = Some o /\ staker d = (Address.ExtractPublicKeyHash (scriptPubKey o)).1;
  dl_proof : vchPoD <> [];
  dl_min : DEFAULT_STAKING_MIN_UTXO_VALUE <= nValue (out x)
}.

(** The contract does not have a delegation of [address]. *)
Definition undelegated `{DelegationContract G} (g : G) (address : N) : Prop := exists d, GetDelegation address g = Some d /\ Delegation_IsNull d = true.

(** The state of the contracts when the delegation is looked up. *)
Definition deployed `{DelegationContract G} (sp : StakeParams) (h : Z) (g : G) : G :=
  if h =? nOfflineStakeHeight sp then deployDelegationsContract g else g.

Definition offline_staking (sp : StakeParams) (h : Z) : bool := (nOfflineStakeHeight sp <=? h) && negb (delegationsAddress sp =? 0)%N.

(** Who may stake [y] at [o] with the coin [x] at [o'] as input: its owner, when it is the input
    and is not delegated, or the staker it is delegated to. *)
Definition may_stake `{Crypto} `{Recovery} `{DelegationContract G} (sp : StakeParams) (g : G) (h : Z) (tx : CTransaction) (vchPoD : list Z)
    (o' o : COutPoint) (x y : Coin) : Prop :=
  let address := (Address.ExtractPublicKeyHash (scriptPubKey (out y))).1 in
  if offline_staking sp h then
    ExistDelegationContract (deployed sp h g) = true /\
    (o' = o /\ vchPoD = [] /\ undelegated (deployed sp h g) address \/ delegated (deployed sp h g) address tx x vchPoD h)
  else o' = o.

(** The whole rule: the input and the coin of the header may be staked on this branch, by
    someone who may, with the input's signature, and the kernel is met. *)
Definition stake_valid `{Crypto} `{Recovery} `{DelegationContract G} (p : Params) (sp : StakeParams) (s : BlockMap) (VerifySignature : Coin -> CTransaction -> bool)
    (coins : COutPoint -> option Coin) (g : G) (i : N) (b : CBlockIndex) (tx : CTransaction) (bits t : Z) (vchPoD : list Z) (o : COutPoint) (hash : N) : Prop :=
  IsCoinStake tx = true /\ exists txin x j y k from,
    vin tx !! 0%nat = Some txin /\ stakeable p s coins i (prevout txin) x j /\ stakeable p s coins i o y k /\ s !! k = Some from /\
    may_stake sp g (Chain.nHeight b + 1) tx vchPoD (prevout txin) o x y /\ VerifySignature x tx = true /\
    nTime (Chain.header from) <= t /\ hash = kernel_hash (nStakeModifier b) (nTime (Chain.header from)) o t /\
    arith_value hash < (compact_exact bits mod 2 ^ 256 + 1) * nValue (out y).

Lemma coinstake_shape tx : IsCoinStake tx = true -> is_Some (vin tx !! 0%nat) /\ is_Some (vout tx !! 1%nat).
Proof. unfold IsCoinStake. destruct (vin tx) as [|? ?]; [done|]. destruct (vout tx) as [|? [|? ?]]; [done..|]. eauto. Qed.

Lemma stakeable_unique p s coins i o x j x' j' : stakeable p s coins i o x j -> stakeable p s coins i o x' j' -> x = x' /\ j = j'.
Proof. intros [E (b & Hb & _ & Ha & _)] [E' (b' & Hb' & _ & Ha' & _)]. rewrite E in E'. injection E' as <-. split; [done|]. congruence. Qed.

Section Delegations.
Context {K : Crypto} {R : Recovery} {V G : Type} `{DelegationContract G}.

(** Verifying the delegation of the contract is verifying the proof. *)
Lemma verified_message address d : VerifyDelegation address d = true -> VerifyMessage address (GetReverseHex (staker d)) (PoD d) = true.
Proof. unfold VerifyDelegation. by destruct (_ || _). Qed.

Lemma check_delegation_spec sp tx h vchPoD x y (w : world V G) : is_Some (vout tx !! 1%nat) ->
  let g := deployed sp h (globalState w) in
  let address := (Address.ExtractPublicKeyHash (scriptPubKey (out y))).1 in
  exists r, check_delegation sp tx h vchPoD x y w = (r, mkWorld (view w) g) /\
    match r with
    | Done true => ExistDelegationContract g = true /\ delegated g address tx x vchPoD h
    | Done false => ExistDelegationContract g = true /\ vchPoD = [] /\ undelegated g address
    | Invalid _ => ExistDelegationContract g = true -> ~ (vchPoD = [] /\ undelegated g address) /\ ~ delegated g address tx x vchPoD h
    | Stopped => False
    end.
Proof.
  intros [o Ho] g address. unfold check_delegation. fold (deployed sp h (globalState w)). fold g. fold address. cbv zeta.
  destruct (ExistDelegationContract g) eqn:Ee; cbn [negb]; [|eexists; split; [done|done]].
  destruct (GetDelegation address g) as [d|] eqn:Ed.
  2: { eexists. split; [done|]. intros _. split; [intros [_ (d & E & _)]; congruence|intros [(d & E & _) _ _]; congruence]. }
  assert (forall d', GetDelegation address g = Some d' -> d' = d) as Huniq by (intros; congruence).
  destruct vchPoD as [|z l] eqn:Ep; cbn [length Nat.ltb Nat.leb andb negb].
  - destruct (Delegation_IsNull d) eqn:En; cbn [negb].
    + eexists. split; [done|]. split_and!; [done|done|]. by exists d.
    + eexists. split; [done|]. intros _. split; [intros [_ (d' & ->%Huniq & ?)]; congruence|by intros [_ ? _]].
  - rewrite <- Ep. assert (~ (vchPoD = [] /\ undelegated g address)) as Hno by (intros [E _]; congruence).
    assert (vchPoD <> []) as Hne by congruence. clear Ep.
    destruct (VerifyDelegation address d) eqn:Ev; cbn [Bool.eqb negb].
    2: { eexists. split; [done|]. intros _. split; [done|]. intros [(d' & ->%Huniq & ? & _) _ _]. congruence. }
    step Ho. cbv zeta. set (st := (Address.ExtractPublicKeyHash (scriptPubKey o)).1). pose proof (verified_message _ _ Ev) as Hm.
    assert (delegated g address tx x vchPoD h -> PoD d = vchPoD /\ staker d = st /\ i32 (blockHeight d) <= h /\
      fee d = GetDelegationFeeTx tx x (IsDelegateOutputExist (fee d)) /\ DEFAULT_STAKING_MIN_UTXO_VALUE <= nValue (out x)) as Hinv.
    { intros [(d' & ->%Huniq & _ & H1 & H2 & H3 & o' & Ho' & H4) _ H5]. rewrite Ho in Ho'. injection Ho' as <-. done. }
    destruct (VerifyMessage address (GetReverseHex st) vchPoD) eqn:Em; cbn [negb].
    2: { eexists. split; [done|]. intros _. split; [done|]. intros (H1 & H2 & _)%Hinv. rewrite H1, H2 in Hm. congruence. }
    destruct (Z.ltb_spec (nValue (out x)) DEFAULT_STAKING_MIN_UTXO_VALUE).
    { eexists. split; [done|]. intros _. split; [done|]. intros Hd%Hinv. destruct_and! Hd. lia. }
    destruct (_ || _) eqn:Et.
    + eexists. split; [done|]. intros _. split; [done|]. intros (H1 & H2 & H3 & H4 & _)%Hinv. rewrite <- H1, <- H2, <- H4 in Et.
      rewrite N.eqb_refl, Z.eqb_refl, bool_decide_eq_true_2, (proj2 (Z.ltb_ge _ _)) in Et by done. done.
    + bool_to_prop. eexists. split; [done|]. split; [done|]. split; [|done|done]. exists d. split_and!; try done.
      exists o. split; [done|]. by apply N.eqb_eq.
Qed.
End Delegations.

Section Check.
Context {K : Crypto} {R : Recovery} {V G : Type} `{CCoinsViewLaws V} `{DelegationContract G}.
Context (p : Params) (sp : StakeParams) (s : BlockMap) (Hs : tree_ok s) (VerifySignature : Coin -> CTransaction -> bool).

(** Block [i] can carry another block: heights stay in their width, the maturity is positive,
    and the kernel is the one of the reduced block time. *)
Record parent_ok (i : N) (b : CBlockIndex) : Prop := {
  pa_entry : s !! i = Some b;
  pa_height : Chain.nHeight b < 2 ^ 31 - 1;
  pa_maturity : 0 < CoinbaseMaturity p (Chain.nHeight b + 1) < 2 ^ 31;
  pa_fork : nReduceBlocktimeHeight p <= Chain.nHeight b + 1
}.

Lemma parent_height i b : parent_ok i b -> 0 <= Chain.nHeight b /\ i32 (Chain.nHeight b + 1) = Chain.nHeight b + 1.
Proof.
  intros [Hb Hh _ _]. pose proof (eo_height _ _ _ (Hs i b Hb)). split; [done|]. apply i32_id. unfold in_i32. change (2 ^ 31) with 2147483648 in *. lia.
Qed.

Lemma stakeable_from i b coins_ o x j : parent_ok i b -> stakeable p s coins_ i o x j -> exists from, s !! j = Some from.
Proof. intros Hp [_ (b' & Hb' & _ & Ha & _)]. destruct (anc_height s Hs i b' _ j Hb' Ha) as (c & Hc & _). eauto. Qed.

(** The two coins, from one call or two. *)
Lemma stake_coins_spec i b o' o w : parent_ok i b -> cache_ok (view w) -> coin_heights (coins (view w)) ->
  exists r w', bind (GetStakeCoin p s o' i) (fun xj => bind (if bool_decide (o' = o) then ret xj else GetStakeCoin p s o i) (fun yk => ret (xj, yk))) w = (r, w') /\
    same_world (G := G) w w' /\
    match r with
    | Done (x, j, (y, k)) => stakeable p s (coins (view w)) i o' x j /\ stakeable p s (coins (view w)) i o y k
    | Invalid _ => ~ exists x j y k, stakeable p s (coins (view w)) i o' x j /\ stakeable p s (coins (view w)) i o y k
    | Stopped => False
    end.
Proof.
  intros [Hb Hh Hm _] Hw Hc. destruct (GetStakeCoin_spec p s Hs o' i b w Hw Hc Hb Hh Hm) as (r & w1 & E & Sw & Hr).
  destruct r as [[x j]|reason|]; [|rewrite (bind_Invalid _ _ _ _ _ E); do 2 eexists; split; [done|]; split; [done|]; intros (x & j & _ & _ & Hx & _); by apply Hr in Hx|done].
  rewrite (bind_Done _ _ _ _ _ E). case_bool_decide as Ho; [subst o'; do 2 eexists; by split|].
  destruct Sw as [Hw1 S1 G1]. assert (forall o, coins (view w1) o = coins (view w) o) as Ec by apply S1.
  destruct (GetStakeCoin_spec p s Hs o i b w1 Hw1) as (r & w2 & E2 & Sw2 & Hr2); [intros o1 y; rewrite Ec; apply Hc|done..|].
  assert (same_world w w2) as Sw by (eapply same_world_trans; [split|]; eauto).
  assert (forall y k, stakeable p s (coins (view w1)) i o y k <-> stakeable p s (coins (view w)) i o y k) as Hst.
  { intros y k. split; intros [E1 E3]; (split; [|done]); by rewrite Ec in * || rewrite <- Ec. }
  destruct r as [[y k]|reason|]; [|rewrite (bind_Invalid _ _ _ _ _ E2); do 2 eexists; split; [done|]; split; [done|]|done].
  - rewrite (bind_Done _ _ _ _ _ E2). do 2 eexists. split; [done|]. split; [done|]. split; [done|]. by apply Hst.
  - intros (x' & j' & y & k & _ & Hy%Hst). by apply Hr2 in Hy.
Qed.

(** The delegation, or that the coins are the same. *)
Definition authority (h : Z) (tx : CTransaction) (vchPoD : list Z) (x y : Coin) : M V G bool :=
  if (nOfflineStakeHeight sp <=? h) && negb (delegationsAddress sp =? 0)%N then check_delegation sp tx h vchPoD x y else ret false.

Lemma authority_spec h tx vchPoD o' o x y (w : world V G) : is_Some (vout tx !! 1%nat) -> exists r w', authority h tx vchPoD x y w = (r, w') /\ view w' = view w /\
  match r with
  | Done c => negb c && negb (bool_decide (o' = o)) = false <-> may_stake sp (globalState w) h tx vchPoD o' o x y
  | Invalid _ => ~ may_stake sp (globalState w) h tx vchPoD o' o x y
  | Stopped => False
  end.
Proof.
  intros Ho. unfold authority, may_stake. fold (offline_staking sp h). destruct (offline_staking sp h).
  2: { do 2 eexists. split; [done|]. split; [done|]. cbn. rewrite negb_false_iff, bool_decide_eq_true. done. }
  destruct (check_delegation_spec sp tx h vchPoD x y w Ho) as (r & -> & Hr). do 2 eexists. split; [done|]. split; [done|].
  destruct r as [[]|reason|]; [..|done].
  - cbn. split; [|done]. intros _. split; [apply Hr|right; apply Hr].
  - cbn. rewrite negb_false_iff, bool_decide_eq_true. destruct Hr as (Hr & -> & Hu). split; [intros; split; [done|by left]|].
    intros [_ [[? _]|[_ Hd _]]]; [done|by destruct Hd].
  - intros [He Hor]. destruct (Hr He) as [Hn1 Hn2]. destruct Hor as [(_ & Hp & Hu)|Hd]; [by apply Hn1|by apply Hn2].
Qed.

(** What follows once both coins are known. *)
Definition stake_tail (i : N) (tx : CTransaction) (bits t : Z) (vchPoD : list Z) (o' o : COutPoint) (x y : Coin) (k : N) : M V G (N * list Z) :=
  bind (follow (s !! i)) (fun b =>
  bind (authority (i32 (Chain.nHeight b + 1)) tx vchPoD x y) (fun checkDelegation =>
  if negb checkDelegation && negb (bool_decide (o' = o)) then invalid "stake-prevout-diff-block-prevout"
  else if negb (VerifySignature x tx) then invalid "stake-verify-signature-failed"
  else bind (follow (s !! k)) (fun from =>
       bind (follow (CheckStakeKernelHash p b bits (nTime (Chain.header from)) (nValue (out y)) o t)) (fun r =>
       match r with (true, Some proof) => ret proof | _ => invalid "stake-check-kernel-failed" end)))).

Lemma CheckProofOfStake_parts i tx txin bits t vchPoD o w : IsCoinStake tx = true -> vin tx !! 0%nat = Some txin ->
  CheckProofOfStake p sp s VerifySignature i tx bits t vchPoD o w =
  bind (bind (GetStakeCoin p s (prevout txin) i) (fun xj => bind (if bool_decide (prevout txin = o) then ret xj else GetStakeCoin p s o i) (fun yk => ret (xj, yk))))
    (fun ab => stake_tail i tx bits t vchPoD (prevout txin) o ab.1.1 ab.2.1 ab.2.2) w.
Proof.
  intros Et Hin. unfold CheckProofOfStake, stake_tail, authority. rewrite Et, Hin. unfold bind, follow, ret. cbn [negb].
  destruct (GetStakeCoin p s (prevout txin) i w) as [[[x j]| |] w1]; [|done..].
  destruct (bool_decide (prevout txin = o)); [done|]. by destruct (GetStakeCoin p s o i w1) as [[[y k]| |] w2].
Qed.

Lemma stake_tail_spec i b tx bits t vchPoD o' o x y k from w : parent_ok i b -> is_Some (vout tx !! 1%nat) -> in_u32 bits ->
  0 < nValue (out y) -> in_i64 (nValue (out y)) -> s !! k = Some from ->
  let hash := kernel_hash (nStakeModifier b) (nTime (Chain.header from)) o t in
  let valid := may_stake sp (globalState w) (Chain.nHeight b + 1) tx vchPoD o' o x y /\ VerifySignature x tx = true /\
    nTime (Chain.header from) <= t /\ arith_value hash < (compact_exact bits mod 2 ^ 256 + 1) * nValue (out y) in
  exists r w', stake_tail i tx bits t vchPoD o' o x y k w = (r, w') /\ view w' = view w /\
    match r with
    | Done (hash', target) => valid /\ hash' = hash /\ target = ArithToUint256 (SetCompact_value bits)
    | Invalid _ => ~ valid
    | Stopped => False
    end.
Proof.
  intros Hp Hout Hbits Hv Hv' Hk hash valid. destruct (parent_height i b Hp) as [_ Eh]. unfold stake_tail. step (pa_entry _ _ Hp). rewrite Eh.
  destruct (authority_spec (Chain.nHeight b + 1) tx vchPoD o' o x y w Hout) as (r & w1 & E & Ev & Hr).
  destruct r as [c|reason|]; [rewrite (bind_Done _ _ _ _ _ E)|rewrite (bind_Invalid _ _ _ _ _ E); do 2 eexists; split; [done|]; split; [done|]; by intros [? _]|done].
  destruct (negb c && _) eqn:Ec.
  { do 2 eexists. split; [done|]. split; [done|]. intros [Hm _]. apply Hr in Hm. done. }
  destruct (VerifySignature x tx) eqn:Es; cbn [negb]; [|do 2 eexists; split; [done|]; split; [done|]; unfold valid; intros (_ & ? & _); congruence].
  step Hk. pose proof (kernel_spec p b bits (nTime (Chain.header from)) o t Hbits (nValue (out y))) as Hker. rewrite Eh in Hker.
  step (Hker (pa_fork _ _ Hp) Hv Hv'). fold hash.
  destruct (Z.ltb_spec t (nTime (Chain.header from))); [do 2 eexists; split; [done|]; split; [done|]; unfold valid; intros (_ & _ & ? & _); lia|].
  destruct (Z.ltb_spec (arith_value hash) ((compact_exact bits mod 2 ^ 256 + 1) * nValue (out y))).
  - do 2 eexists. split; [done|]. split; [done|]. split; [|done]. split_and!; try done. by apply Hr.
  - do 2 eexists. split; [done|]. split; [done|]. unfold valid. intros (_ & _ & _ & ?). lia.
Qed.

Lemma CheckProofOfStake_spec i b tx bits t vchPoD o w :
  parent_ok i b -> cache_ok (view w) -> coin_heights (coins (view w)) -> in_u32 bits ->
  (forall y, coins (view w) o = Some y -> 0 < nValue (out y) /\ in_i64 (nValue (out y))) ->
  exists r w', CheckProofOfStake p sp s VerifySignature i tx bits t vchPoD o w = (r, w') /\ cache_ok (view w') /\ same (view w) (view w') /\
    match r with
    | Done (hash, target) => stake_valid p sp s VerifySignature (coins (view w)) (globalState w) i b tx bits t vchPoD o hash /\
        target = ArithToUint256 (SetCompact_value bits)
    | Invalid _ => forall hash, ~ stake_valid p sp s VerifySignature (coins (view w)) (globalState w) i b tx bits t vchPoD o hash
    | Stopped => False
    end.
Proof.
  intros Hp Hw Hc Hbits Hval. destruct (IsCoinStake tx) eqn:Et.
  2: { do 2 eexists. unfold CheckProofOfStake. rewrite Et. split; [done|]. do 2 (split; [done|]). intros hash [? _]. congruence. }
  destruct (coinstake_shape tx Et) as [[txin Hin] Hout]. rewrite (CheckProofOfStake_parts i tx txin) by done.
  destruct (stake_coins_spec i b (prevout txin) o w Hp Hw Hc) as (r & w1 & E & [Hw1 S1 G1] & Hr).
  destruct r as [[[x j] [y k]]|reason|]; [rewrite (bind_Done _ _ _ _ _ E)|rewrite (bind_Invalid _ _ _ _ _ E)|done].
  2: { do 2 eexists. split; [done|]. do 2 (split; [done|]). intros hash (_ & i0 & x & j & y & k & from & Hi0 & Hx & Hy & _). apply Hr. naive_solver. }
  destruct Hr as [Hx Hy]. destruct (stakeable_from i b _ _ _ _ Hp Hy) as [from Hk]. destruct (Hval y (sk_coin _ _ _ _ _ _ _ Hy)) as [Hv Hv'].
  destruct (stake_tail_spec i b tx bits t vchPoD (prevout txin) o x y k from w1 Hp Hout Hbits Hv Hv' Hk) as (r & w2 & E2 & Ev & Hr).
  rewrite G1 in Hr. exists r, w2. rewrite Ev. split; [done|]. do 2 (split; [done|]).
  destruct r as [[hash target]|reason|]; [..|done].
  - destruct Hr as [(H1' & H2' & H3' & H4') [-> ->]]. split; [|done]. split; [done|]. exists txin, x, j, y, k, from. done.
  - intros hash (_ & i0 & x' & j' & y' & k' & from' & Hi0 & Hx' & Hy' & Hk' & Hrest). rewrite Hin in Hi0. injection Hi0 as <-.
    destruct (stakeable_unique _ _ _ _ _ _ _ _ _ Hx Hx') as [<- <-]. destruct (stakeable_unique _ _ _ _ _ _ _ _ _ Hy Hy') as [<- <-].
    rewrite Hk in Hk'. injection Hk' as <-. destruct Hrest as (H1' & H2' & H3' & -> & H4'). by apply Hr.
Qed.
End Check.

(** ** Coins spent on the active chain *)

Lemma find_spend_spec o txs : forall j,
  match find_spend o j txs with
  | Some (j', k, tx) => exists i, (j <= j')%nat /\ txs !! (j' - j)%nat = Some tx /\ vin tx !! k = Some i /\ prevout i = o
  | None => forall tx i, tx ∈ txs -> i ∈ vin tx -> prevout i <> o
  end.
Proof.
  induction txs as [|tx txs IH]; intros j; cbn [find_spend]; [intros tx i Htx; by apply not_elem_of_nil in Htx|].
  destruct (list_find _ (vin tx)) as [[k i]|] eqn:E.
  - apply list_find_Some in E as (Hk & Hp & _). exists i. replace (j - j)%nat with 0%nat by lia. done.
  - specialize (IH (S j)). destruct (find_spend o (S j) txs) as [[[j' k] tx']|].
    + destruct IH as (i & Hj & Ht & Hrest). exists i. replace (j' - j)%nat with (S (j' - S j)) by lia. split; [lia|]. done.
    + apply list_find_None in E. rewrite Forall_forall in E. intros tx' i [->|Htx]%elem_of_cons Hi; [by apply E|by eapply IH].
Qed.

Section Spent.
Context (p : Params) (s : BlockMap) (Hs : tree_ok s) (v : CChain) (Hv : chain_ok s v).
Context (ReadBlock : N -> option Block.CBlock) (ReadBlockUndo : N -> option (list (list Coin))).
#[local] Abbreviation spent_in := (GetSpentCoinFromBlock ReadBlock ReadBlockUndo).

(** A coin that is found is the one the undo data of the block kept for the input that spends
    it. *)
Lemma spent_in_sound i o x : spent_in i o = Some x -> exists block undo j k tx txin,
  ReadBlock i = Some block /\ ReadBlockUndo i = Some undo /\ Block.vtx block !! S j = Some tx /\
  vin tx !! k = Some txin /\ prevout txin = o /\ undo !! j ≫= (fun u => u !! k) = Some x.
Proof.
  unfold GetSpentCoinFromBlock. intros (block & Hb & E)%bind_Some. exists block. pose proof (find_spend_spec o (tail (Block.vtx block)) 1) as Hf.
  destruct (find_spend o 1 (tail (Block.vtx block))) as [[[j k] tx]|]; [|done]. destruct Hf as (txin & Hj & Ht & Hk & Hp). cbn [mbind option_bind] in E.
  apply bind_Some in E as (undo & Hu & E). destruct (negb _) in E; [done|]. apply bind_Some in E as (u & Hu' & E). destruct (negb _) in E; [done|].
  exists undo, (j - 1)%nat, k, tx, txin. split_and!; try done; [by destruct (Block.vtx block)|]. rewrite Hu'. done.
Qed.

(** The tip is above every block of the chain. *)
Lemma tip_above tip f : Tip v = Some tip -> Some f ∈ v -> exists t fb d, s !! tip = Some t /\ s !! f = Some fb /\ anc s tip d = Some f /\
  Chain.nHeight t - Chain.nHeight fb = Z.of_nat d.
Proof.
  unfold Tip. intros Ht Hf. destruct (last v) as [x|] eqn:El; [cbn in Ht; subst x|done].
  rewrite last_lookup in El. pose proof (lookup_lt_Some _ _ _ El) as Hlt. destruct (proj1 Hv _ tip Hlt El) as (t & Hts & Hth & Hbelow).
  destruct (in_chain_height s v Hv f Hf) as (fb & Hfb & Hfl & Hfh). pose proof (eo_height _ _ _ (Hs f fb Hfb)).
  specialize (Hbelow (Z.to_nat (Chain.nHeight fb)) ltac:(lia)). rewrite Hfl in Hbelow. injection Hbelow as Ha.
  eexists t, fb, _. split_and!; [done|done|by rewrite <- Ha|lia].
Qed.

(** Walking down to an ancestor [d] blocks below ends after [d] rounds. *)
Lemma staked_in_fork_spec f o fuel : forall i b d, s !! i = Some b -> anc s i d = Some f -> (d < fuel)%nat ->
  exists r, staked_in_fork s fuel (Some i) f o = Some r /\ (r = true <-> recently_staked s i o (Z.of_nat d)).
Proof.
  induction fuel as [|fuel IH]; intros i b d Hb Ha Hd; [lia|]. cbn [staked_in_fork]. destruct (N.eqb_spec i f) as [->|Hne].
  - exists false. split; [done|]. split; [done|]. intros (d' & j & c & Hlt & _).
    destruct (anc_height s Hs f b d f Hb Ha) as (c' & Hc' & Hh). rewrite Hb in Hc'. injection Hc' as <-. lia.
  - destruct d as [|d]; [by injection Ha|]. cbn in Ha. rewrite Hb in Ha. cbn in Ha. destruct (pprev b) as [j|] eqn:Ej; [|done]. cbn in Ha.
    rewrite Hb. cbn [mbind option_bind]. case_bool_decide as Ho.
    { exists true. split; [done|]. split; [|done]. intros _. exists 0%nat, i, b. split_and!; [lia|done..]. }
    destruct (eo_child _ _ _ (Hs i b Hb) j Ej) as (q & Hq & _). destruct (IH j q d Hq Ha ltac:(lia)) as (r & Hr & Hiff).
    rewrite Ej. exists r. split; [done|]. rewrite Hiff. split.
    + intros (d' & j' & c & Hlt & Ha' & Hc & Hp). exists (S d'), j', c. split_and!; [lia| |done..]. cbn. rewrite Hb. cbn. by rewrite Ej.
    + intros ([|d'] & j' & c & Hlt & Ha' & Hc & Hp); [cbn in Ha'; congruence|]. exists d', j', c. split_and!; [lia| |done..].
      cbn in Ha'. rewrite Hb in Ha'. cbn in Ha'. by rewrite Ej in Ha'.
Qed.

(** The first of the [d] blocks up to [i] that spent [o]. *)
Definition first_spend (i : N) (d : nat) (o : COutPoint) (r : option Coin) : Prop :=
  match r with
  | Some x => exists k j, (k < d)%nat /\ anc s i k = Some j /\ spent_in j o = Some x /\
      forall k' j', (k' < k)%nat -> anc s i k' = Some j' -> spent_in j' o = None
  | None => forall k j, (k < d)%nat -> anc s i k = Some j -> spent_in j o = None
  end.

Lemma spent_in_chain_spec f o fuel : forall i b d, s !! i = Some b -> anc s i d = Some f -> (d < fuel)%nat ->
  exists r, spent_in_chain s ReadBlock ReadBlockUndo fuel (Some i) f o = Some r /\ first_spend i d o r.
Proof.
  induction fuel as [|fuel IH]; intros i b d Hb Ha Hd; [lia|]. cbn [spent_in_chain]. destruct (N.eqb_spec i f) as [->|Hne].
  - exists None. split; [done|]. intros k j Hlt _.
    destruct (anc_height s Hs f b d f Hb Ha) as (c' & Hc' & Hh). rewrite Hb in Hc'. injection Hc' as <-. lia.
  - destruct d as [|d]; [by injection Ha|]. cbn in Ha. rewrite Hb in Ha. cbn in Ha. destruct (pprev b) as [j|] eqn:Ej; [|done]. cbn in Ha.
    destruct (spent_in i o) as [x|] eqn:Ex.
    { exists (Some x). split; [done|]. exists 0%nat, i. split_and!; [lia|done..|]. intros; lia. }
    rewrite Hb. cbn [mbind option_bind]. rewrite Ej. destruct (eo_child _ _ _ (Hs i b Hb) j Ej) as (q & Hq & _).
    destruct (IH j q d Hq Ha ltac:(lia)) as (r & Hr & Hspec). exists r. split; [done|].
    assert (forall k, anc s i (S k) = anc s j k) as Hup by (intros k; cbn; rewrite Hb; cbn; by rewrite Ej).
    destruct r as [x|]; cbn [first_spend] in *.
    + destruct Hspec as (k & j' & Hk & Ha' & Hx & Hfirst). exists (S k), j'. split_and!; [lia|by rewrite Hup|done|].
      intros [|k'] j'' Hk' Ha''; [by injection Ha'' as <-|]. rewrite Hup in Ha''. eapply Hfirst; [|done]. lia.
    + intros [|k] j' Hk Ha''; [by injection Ha'' as <-|]. rewrite Hup in Ha''. eapply Hspec; [|done]. lia.
Qed.

(** What the search answers: the fork is not too deep, the fork has not staked the coin, and
    the coin is the one the last block of the active chain that spent it, above the fork, kept. *)
Definition spent_above_fork (tip i f : N) (t b fb : CBlockIndex) (o : COutPoint) (r : option Coin) : Prop :=
  if decide (CoinbaseMaturity p (Chain.nHeight t) < Chain.nHeight t - Chain.nHeight fb) then r = None
  else (recently_staked s i o (Chain.nHeight b - Chain.nHeight fb) /\ r = None) \/
       (~ recently_staked s i o (Chain.nHeight b - Chain.nHeight fb) /\ first_spend tip (Z.to_nat (Chain.nHeight t - Chain.nHeight fb)) o r).

Lemma GetSpentCoinFromMainChain_spec tip i b o : Tip v = Some tip -> (forall t, s !! tip = Some t -> Chain.nHeight t < 2 ^ 31) -> s !! i = Some b ->
  (exists c, is_ancestor s i c /\ Some c ∈ v) ->
  exists f t fb r, s !! tip = Some t /\ s !! f = Some fb /\ fork_point s v i (Some f) /\
    GetSpentCoinFromMainChain p s ReadBlock ReadBlockUndo v i o = Some r /\ spent_above_fork tip i f t b fb o r.
Proof.
  intros Ht Hth Hb (c & Hc & Hcv). destruct (FindFork_spec s Hs v Hv i b Hb) as (r & Hr & Hf). destruct r as [f|]; [|by destruct (Hf c Hc)].
  destruct (tip_above tip f Ht (proj1 (proj2 Hf))) as (t & fb & d & Hts & Hfb & Hd & Hdd). pose proof Hf as ([m Hm] & _ & _).
  destruct (anc_height s Hs i b m f Hb Hm) as (fb' & Hfb' & Hmm). rewrite Hfb in Hfb'. injection Hfb' as <-. specialize (Hth t Hts).
  pose proof (eo_height _ _ _ (Hs f fb Hfb)). pose proof (eo_height _ _ _ (Hs tip t Hts)). change (2 ^ 31) with 2147483648 in *.
  unfold GetSpentCoinFromMainChain. rewrite Hr. cbn [mbind option_bind]. rewrite Ht. cbn [mbind option_bind]. rewrite Hts. cbn [mbind option_bind].
  rewrite Hfb. cbn [mbind option_bind]. rewrite Hb. cbn [mbind option_bind]. rewrite (i32_id (Chain.nHeight t - Chain.nHeight fb)) by (unfold in_i32; lia).
  destruct (staked_in_fork_spec f o (S (S (Z.to_nat (Chain.nHeight b)))) i b m Hb Hm ltac:(lia)) as (st & Est & Hst).
  destruct (spent_in_chain_spec f o (S (S (Z.to_nat (Chain.nHeight t)))) tip t d Hts Hd ltac:(lia)) as (r & Er & Hfirst).
  exists f, t, fb. unfold spent_above_fork. replace (Chain.nHeight b - Chain.nHeight fb) with (Z.of_nat m) by lia.
  replace (Z.to_nat (Chain.nHeight t - Chain.nHeight fb)) with d by lia.
  destruct (Z.ltb_spec (CoinbaseMaturity p (Chain.nHeight t)) (Chain.nHeight t - Chain.nHeight fb)).
  { exists None. split_and!; try done. destruct (decide _); [done|lia]. }
  rewrite Est. cbn [mbind option_bind]. destruct (decide _); [lia|]. destruct st.
  - exists None. split_and!; try done. left. split; [by apply Hst|done].
  - exists r. split_and!; try done. right. split; [|done]. intros Hrs%Hst. done.
Qed.
End Spent.

(** ** The kernel cache *)

Section KernelCache.
Context {K : Crypto} {R : Recovery} {V G : Type} `{CCoinsViewLaws V} `{DelegationContract G}.
Context (p : Params) (s : BlockMap) (Hs : tree_ok s) (v : CChain) (Hv : chain_ok s v).
Context (ReadBlock : N -> option Block.CBlock) (ReadBlockUndo : N -> option (list (list Coin))).
Implicit Types w : world V G.
#[local] Abbreviation kernel_input := (kernel_input p s ReadBlock ReadBlockUndo v).
#[local] Abbreviation CheckKernel := (CheckKernel p s ReadBlock ReadBlockUndo v).

(** The coin the kernel uses: unspent, or spent on the active chain since the fork. *)
Definition coin_for (w : world V G) (i : N) (o : COutPoint) : option Coin :=
  match coins (view w) o with
  | Some x => Some x
  | None => default None (GetSpentCoinFromMainChain p s ReadBlock ReadBlockUndo v i o)
  end.

(** What the kernel of [o] is computed from on top of [i]. *)
Definition stake_of (w : world V G) (i : N) (o : COutPoint) : option CStakeCache :=
  x ← coin_for w i o;
  b ← s !! i;
  if (Chain.nHeight b + 1 - Coins.nHeight x <? CoinbaseMaturity p (Chain.nHeight b + 1)) || IsSpent x then None
  else
    j ← anc s i (Z.to_nat (Chain.nHeight b - Coins.nHeight x));
    from ← s !! j;
    Some (mkStakeCache (nTime (Chain.header from)) (nValue (out x))).

(** The node's chain has a tip and [i] branches off it; coins have 30-bit heights. *)
Record search_ok (w : world V G) (i : N) (b : CBlockIndex) (o : COutPoint) : Prop := {
  so_view : cache_ok (view w);
  so_parent : parent_ok p s i b;
  so_tip : exists tip t, Tip v = Some tip /\ s !! tip = Some t /\ Chain.nHeight t < 2 ^ 31;
  so_fork : exists c, is_ancestor s i c /\ Some c ∈ v;
  so_heights : forall x, coin_for w i o = Some x -> 0 <= Coins.nHeight x < 2 ^ 30
}.

Lemma find_stake_coin_spec w i b o : search_ok w i b o ->
  exists w', find_stake_coin p s ReadBlock ReadBlockUndo v i o w = (Done (coin_for w i o), w') /\ same_world w w'.
Proof.
  intros [Hw [Hb _ _ _] (tip & t & Ht & Hts & Hth) Hfork _]. unfold find_stake_coin, coin_for. destruct (ViewGetCoin_spec o w Hw) as (w' & E & Sw).
  rewrite (bind_Done _ _ _ _ _ E). destruct (coins (view w) o); [by exists w'|].
  destruct (GetSpentCoinFromMainChain_spec p s Hs v Hv ReadBlock ReadBlockUndo tip i b o Ht) as (_ & _ & _ & r & _ & _ & _ & Er & _);
    [intros t' Ht'; congruence|done..|]. rewrite Er. by exists w'.
Qed.

Lemma kernel_input_spec w i b o : search_ok w i b o ->
  exists w', kernel_input i o w = (Done (pair b <$> stake_of w i o), w') /\ same_world w w'.
Proof.
  intros Ho. destruct (find_stake_coin_spec w i b o Ho) as (w' & E & Sw). exists w'. split; [|done]. unfold Pos.kernel_input, stake_of.
  destruct Ho as [_ Hp _ _ Hc]. destruct (parent_height p s Hs i b Hp) as [H0' Eh]. pose proof (pa_height _ _ _ _ Hp) as Hh.
  rewrite (bind_Done _ _ _ _ _ E). destruct (coin_for w i o) as [x|]; cbn [mbind option_bind fmap option_fmap option_map]; [|done].
  specialize (Hc x eq_refl). rewrite (pa_entry _ _ _ _ Hp). cbn [mbind option_bind]. rewrite (bind_Done _ _ _ _ _ (follow_Some (Some b) b _ eq_refl)).
  rewrite Eh. change (2 ^ 31) with 2147483648 in *. change (2 ^ 30) with 1073741824 in *. rewrite i32_id by (unfold in_i32; lia).
  pose proof (pa_maturity _ _ _ _ Hp) as Hm. destruct (Z.ltb_spec (Chain.nHeight b + 1 - Coins.nHeight x) (CoinbaseMaturity p (Chain.nHeight b + 1))); [done|].
  pose proof (GetAncestor_spec s Hs i b (Coins.nHeight x) (pa_entry _ _ _ _ Hp)) as HG.
  rewrite (proj2 (Z.ltb_ge _ _)), (proj2 (Z.ltb_ge _ _)) in HG by lia. cbn [orb] in HG. step HG.
  destruct (anc_at s Hs (Z.to_nat (Chain.nHeight b - Coins.nHeight x)) i b (pa_entry _ _ _ _ Hp) ltac:(lia)) as (j & c & Ej & Hj & _).
  rewrite Ej. cbn [orb mbind option_bind]. destruct (IsSpent x); [done|]. cbn [mbind option_bind]. rewrite Hj. done.
Qed.

(** The answer without a cache. *)
Lemma CheckKernel_spec w i b o bits t : search_ok w i b o ->
  exists w', same_world w w' /\ CheckKernel i bits t o w =
    match stake_of w i o with
    | None => (Done false, w')
    | Some stake => kernel_test p b bits t o stake w'
    end.
Proof.
  intros Ho. destruct (kernel_input_spec w i b o Ho) as (w' & E & Sw). exists w'. split; [done|]. unfold Pos.CheckKernel.
  rewrite (bind_Done _ _ _ _ _ E). by destruct (stake_of w i o).
Qed.

Lemma kernel_test_spec i b bits t o stake : parent_ok p s i b -> in_u32 bits -> 0 < amount stake -> in_i64 (amount stake) ->
  exists r, forall w, kernel_test p b bits t o stake w = (Done r, w).
Proof.
  intros Hp Hbits H1' H2'. destruct (parent_height p s Hs i b Hp) as [_ Eh]. pose proof (kernel_spec p b bits (blockFromTime stake) o t Hbits (amount stake)) as Hk.
  rewrite Eh in Hk. specialize (Hk (pa_fork _ _ _ _ Hp) H1' H2'). eexists. intros w. unfold kernel_test. step Hk. reflexivity.
Qed.

(** The entry of [o] is what the kernel would be computed from, if it can be. *)
Definition entry_right w (i : N) (o : COutPoint) (cache : gmap COutPoint CStakeCache) : Prop :=
  forall e stake, cache !! o = Some e -> stake_of w i o = Some stake -> stake = e.

Lemma CacheKernel_spec cache w i b o : search_ok w i b o -> exists cache' w', CacheKernel p s cache o i w = (Done cache', w') /\ same_world w w' /\
  (forall o', o' <> o -> cache' !! o' = cache !! o') /\
  match cache !! o with
  | Some e => cache' = cache
  | None => cache' !! o = match coins (view w) o with Some _ => stake_of w i o | None => None end
  end.
Proof.
  intros Ho. unfold CacheKernel. destruct (cache !! o) as [e|] eqn:Ec; [exists cache, w; split; [done|]; split; [by apply same_world_refl, (so_view _ _ _ _ Ho)|done]|].
  destruct (ViewGetCoin_spec o w (so_view _ _ _ _ Ho)) as (w' & E & Sw). rewrite (bind_Done _ _ _ _ _ E). unfold stake_of.
  pose proof (so_heights _ _ _ _ Ho) as Hc. pose proof (so_parent _ _ _ _ Ho) as Hp. unfold coin_for in *.
  destruct (coins (view w) o) as [x|] eqn:Ex; [|by exists cache, w']. specialize (Hc x eq_refl). cbn [mbind option_bind].
  destruct (parent_height p s Hs i b Hp) as [H0' Eh]. pose proof (pa_height _ _ _ _ Hp) as Hh. pose proof (pa_maturity _ _ _ _ Hp) as Hm.
  step (pa_entry _ _ _ _ Hp). rewrite (pa_entry _ _ _ _ Hp). cbn [mbind option_bind].
  rewrite Eh. change (2 ^ 31) with 2147483648 in *. change (2 ^ 30) with 1073741824 in *. rewrite i32_id by (unfold in_i32; lia).
  destruct (Z.ltb_spec (Chain.nHeight b + 1 - Coins.nHeight x) (CoinbaseMaturity p (Chain.nHeight b + 1))); [by exists cache, w'|].
  pose proof (GetAncestor_spec s Hs i b (Coins.nHeight x) (pa_entry _ _ _ _ Hp)) as HG.
  rewrite (proj2 (Z.ltb_ge _ _)), (proj2 (Z.ltb_ge _ _)) in HG by lia. cbn [orb] in HG. step HG.
  destruct (anc_at s Hs (Z.to_nat (Chain.nHeight b - Coins.nHeight x)) i b (pa_entry _ _ _ _ Hp) ltac:(lia)) as (j & c & Ej & Hj & _).
  rewrite Ej. step Hj. rewrite (coins_unspent (view w) o x (so_view _ _ _ _ Ho) Ex). cbn [orb mbind option_bind]. rewrite Hj. cbn [mbind option_bind].
  do 2 eexists. split; [done|]. split; [done|]. split; [intros; by apply lookup_insert_ne|]. apply lookup_insert_eq.
Qed.

Lemma CheckKernel_cached_spec cache w i b o bits t : search_ok w i b o -> in_u32 bits ->
  (forall e, cache !! o = Some e -> 0 < amount e /\ in_i64 (amount e)) ->
  exists r r' w1 w2, CheckKernel i bits t o w = (r, w1) /\ CheckKernel_cached p s ReadBlock ReadBlockUndo v i bits t o cache w = (r', w2) /\
    same_world w w2 /\ (r' = Done true -> r = Done true) /\ (entry_right w i o cache -> r' = r).
Proof.
  intros Ho Hbits Hcache. destruct (CheckKernel_spec w i b o bits t Ho) as (w' & Sw & E). unfold CheckKernel_cached.
  destruct (cache !! o) as [e|] eqn:Ec.
  2: { destruct (CheckKernel i bits t o w) as [r w1] eqn:E1. exists r, r, w1, w1. split_and!; try done.
       destruct (stake_of w i o) as [stake|]; [|by injection E as _ ->]. unfold kernel_test, bind, follow in E.
       destruct (CheckStakeKernelHash _ _ _ _ _ _ _); by injection E as _ ->. }
  destruct (Hcache e eq_refl) as [H1' H2']. pose proof (so_parent _ _ _ _ Ho) as Hp. step (pa_entry _ _ _ _ Hp).
  destruct (kernel_test_spec i b bits t o e Hp Hbits H1' H2') as (r & Hr). rewrite (bind_Done _ _ _ _ _ (Hr w)). destruct r.
  - destruct (CheckKernel i bits t o w) as [r w1] eqn:E1. exists r, r, w1, w1. split_and!; try done.
    destruct (stake_of w i o) as [stake|]; [|by injection E as _ ->]. unfold kernel_test, bind, follow in E.
    destruct (CheckStakeKernelHash _ _ _ _ _ _ _); by injection E as _ ->.
  - destruct (CheckKernel i bits t o w) as [r w1]. exists r, (Done false), w1, w. split_and!; try done; [by apply same_world_refl, (so_view _ _ _ _ Ho)|].
    intros Hright. destruct (stake_of w i o) as [stake|] eqn:Es; [|by injection E as ->].
    rewrite (Hright e stake Ec Es), Hr in E. by injection E as ->.
Qed.

(** An entry made at [i] stays right on the blocks built on top, while the coin stays. *)
Lemma entry_right_above w w' i b i' o x e cache : search_ok w i b o -> is_ancestor s i' i ->
  coins (view w) o = Some x -> coins (view w') o = Some x -> stake_of w i o = Some e -> cache !! o = Some e -> entry_right w' i' o cache.
Proof.
  intros Ho [d Hd] Ex Ex' E Ee e' stake Ee' Est. rewrite Ee in Ee'. injection Ee' as <-.
  unfold stake_of, coin_for in *. rewrite Ex in E. rewrite Ex' in Est. cbn [mbind option_bind] in *. pose proof (so_parent _ _ _ _ Ho) as [Hb _ Hm _].
  rewrite Hb in E. cbn [mbind option_bind] in E. apply bind_Some in Est as (b' & Hb' & Est).
  destruct (Z.ltb_spec (Chain.nHeight b + 1 - Coins.nHeight x) (CoinbaseMaturity p (Chain.nHeight b + 1))); [done|]. cbn [orb] in E.
  destruct (IsSpent x); [done|]. rewrite orb_false_r in Est. destruct (_ <? _) in Est; [done|].
  destruct (anc_height s Hs i' b' d i Hb' Hd) as (b1 & Hb1 & Hh). rewrite Hb in Hb1. injection Hb1 as <-.
  replace (Z.to_nat (Chain.nHeight b' - Coins.nHeight x)) with (d + Z.to_nat (Chain.nHeight b - Coins.nHeight x))%nat in Est by lia.
  rewrite anc_add, Hd in Est. cbn [mbind option_bind] in Est. congruence.
Qed.
End KernelCache.

(** ** Fees *)

Lemma ceil_floor_fee r f : 100 <= r -> 0 <= f <= 100 -> (r * f / 100 * 100 + r - 1) / r = f.
Proof.
  intros Hr Hf. pose proof (Z.div_mod (r * f) 100 ltac:(lia)) as E. pose proof (Z.mod_pos_bound (r * f) 100 ltac:(lia)) as Hm.
  symmetry. apply (Z.div_unique _ _ _ (r - 1 - (r * f) mod 100)); [lia|]. nia.
Qed.

(** The outputs a staker makes of a split reward. *)
Definition reward_outputs (nValueCoin : Z) (fee : Z) (split : Z * Z) (stakerScript delegateScript : list Z) : list CTxOut :=
  mkTxOut 0 [] :: mkTxOut (nValueCoin + split.2) stakerScript :: (if IsDelegateOutputExist fee then [mkTxOut split.1 delegateScript] else []).

Lemma fee_spec nReward f split coin i rest ss ds version lockTime :
  100 <= nReward <= MAX_MONEY -> 0 <= f <= 100 -> 0 < nValue (out coin) <= MAX_MONEY -> IsNull (prevout i) = false ->
  SplitOfflineStakeReward nReward f = Some split ->
  split.1 + split.2 = nReward /\ 0 <= split.1 /\ 0 <= split.2 /\
  GetDelegationFeeTx (mkTransaction (i :: rest) (reward_outputs (nValue (out coin)) f split ss ds) version lockTime) coin (IsDelegateOutputExist f) = f.
Proof.
  intros Hr Hf Hc Hi. unfold SplitOfflineStakeReward. replace MAX_MONEY with 10782240625000000 in * by reflexivity.
  rewrite (proj2 (Z.ltb_ge _ _)) by lia. rewrite (i64_id (nReward * f)) by solve_width. rewrite Z.quot_div_nonneg by nia.
  assert (0 <= nReward * f / 100 <= nReward) as Hs by (split; [apply Z.div_pos; nia|apply Z.div_le_upper_bound; nia]).
  rewrite i64_id by solve_width. intros [= <-]. cbn [fst snd]. split_and!; try lia. set (st := nReward * f / 100) in *.
  unfold GetDelegationFeeTx, IsCoinStake, reward_outputs. cbn [vin vout]. rewrite Hi.
  assert (st = nReward * f / 100) as Est by done.
  assert (f = 100 -> st = nReward) as H100 by (intros ->; rewrite Est; apply Z.div_mul; lia). clearbody st.
  unfold IsDelegateOutputExist. rewrite (proj2 (Z.leb_le 0 f)) by lia. cbn [andb].
  destruct (Z.ltb_spec f 100).
  all: cbn [fst snd negb andb orb IsEmpty nValue scriptPubKey Z.eqb length Nat.ltb Nat.leb Nat.eqb nth].
  all: rewrite (proj2 (Z.leb_gt _ _)) by lia; cbn [orb].
  all: rewrite (i64_id (nValue (out coin) + st - nValue (out coin))) by solve_width.
  all: replace (nValue (out coin) + st - nValue (out coin)) with st by lia.
  all: rewrite (i64_id (st + _)) by solve_width.
  - replace (st + (nReward - st)) with nReward by lia. rewrite (proj2 (Z.leb_gt _ _)) by lia. no_wrap. rewrite Z.quot_div_nonneg by lia.
    rewrite Est, ceil_floor_fee by lia. apply i32_id. unfold in_i32. lia.
  - rewrite Z.add_0_r. rewrite (proj2 (Z.leb_gt _ _)) by lia. no_wrap. rewrite Z.quot_div_nonneg by lia.
    replace st with nReward by lia. replace (nReward * 100 + nReward - 1) with (nReward - 1 + 100 * nReward) by lia.
    rewrite Z.div_add, Z.div_small by lia. rewrite i32_id by (unfold in_i32; lia). lia.
Qed.

(** ** The signer of a header *)

(** The block is signed by the owner of the coin, or by the key the owner signed a delegation
    to. *)
Definition signed_for `{Crypto} `{Recovery} (sp : StakeParams) (h : Z) (hdr : CBlockHeader) (x : Coin) : Prop :=
  Block.GetBlockSignature hdr <> [] /\ exists address pubkey, stake_key x = Some address /\
  if nOfflineStakeHeight sp <=? h then
    RecoverCompact (Block.GetHashWithoutSign hdr) (Block.GetBlockSignature hdr) = Some pubkey /\
    if Block.HasProofOfDelegation hdr then VerifyMessage address (GetReverseHex (GetID pubkey)) (Block.GetProofOfDelegation hdr) = true
    else GetID pubkey = address
  else GetID pubkey = address /\ exists recid compressed, 0 <= recid <= 3 /\
    RecoverLaxDER (Block.GetHashWithoutSign hdr) (Block.GetBlockSignature hdr) recid compressed = Some pubkey.

Section Header.
Context {K : Crypto} {R : Recovery} {V G : Type} `{CCoinsViewLaws V} `{DelegationContract G}.
Context (p : Params) (sp : StakeParams) (s : BlockMap) (Hs : tree_ok s) (v : CChain) (Hv : chain_ok s v).
Context (ReadBlock : N -> option Block.CBlock) (ReadBlockUndo : N -> option (list (list Coin))).
Implicit Types w : world V G.
#[local] Abbreviation coin_for := (coin_for p s v ReadBlock ReadBlockUndo).

Lemma recovery_choices_spec recid compressed : (recid, compressed) ∈ recovery_choices <-> 0 <= recid <= 3.
Proof.
  split.
  - intros Hin. assert (Forall (fun x : Z * bool => 0 <= x.1 <= 3) recovery_choices) as Hall by (repeat constructor; cbn; lia).
    rewrite Forall_forall in Hall. apply (Hall _ Hin).
  - intros Hr. assert (recid = 0 \/ recid = 1 \/ recid = 2 \/ recid = 3) as [->|[->|[->| ->]]] by lia; destruct compressed; unfold recovery_choices; set_solver.
Qed.

Lemma signature_spec w i b hdr : search_ok p s v ReadBlock ReadBlockUndo w i b (prevoutStake hdr) ->
  exists r w', CheckRecoveredPubKeyFromBlockSignature p sp s ReadBlock ReadBlockUndo v i hdr w = (Done r, w') /\ same_world w w' /\
    (r = true <-> exists x, coin_for w i (prevoutStake hdr) = Some x /\ signed_for sp (Chain.nHeight b + 1) hdr x).
Proof.
  intros Ho. destruct (find_stake_coin_spec p s Hs v Hv ReadBlock ReadBlockUndo w i b _ Ho) as (w' & E & Sw).
  unfold CheckRecoveredPubKeyFromBlockSignature. rewrite (bind_Done _ _ _ _ _ E).
  destruct (coin_for w i (prevoutStake hdr)) as [x|]; [|exists false, w'; split; [done|]; split; [done|]; naive_solver].
  pose proof (so_parent _ _ _ _ _ _ _ _ _ Ho) as Hp. destruct (parent_height p s Hs i b Hp) as [_ Eh].
  assert ((exists y, Some x = Some y /\ signed_for sp (Chain.nHeight b + 1) hdr y) <-> signed_for sp (Chain.nHeight b + 1) hdr x) as Hone by naive_solver.
  setoid_rewrite Hone. clear Hone. unfold signed_for.
  destruct (Block.GetBlockSignature hdr) as [|z l] eqn:Esig; cbn [length Nat.eqb]; [exists false, w'; split; [done|]; split; [done|]; naive_solver|].
  step (pa_entry _ _ _ _ Hp). rewrite Eh. rewrite <- Esig in *. assert (Block.GetBlockSignature hdr <> []) as Hne by congruence. clear Esig.
  destruct (nOfflineStakeHeight sp <=? Chain.nHeight b + 1).
  - do 2 eexists. split; [done|]. split; [done|].
    destruct (RecoverCompact _ _) as [pubkey|]; [|naive_solver]. destruct (stake_key x) as [address|]; [|naive_solver].
    destruct (Block.HasProofOfDelegation hdr); [naive_solver|]. rewrite N.eqb_eq. naive_solver.
  - do 2 eexists. split; [done|]. split; [done|]. rewrite existsb_exists. split.
    + intros ([recid compressed] & Hin & Hr). cbn [fst snd] in Hr. destruct (RecoverLaxDER _ _ _ _) as [pubkey|] eqn:Er; [|done].
      destruct (stake_key x) as [address|]; [|done]. apply N.eqb_eq in Hr. split; [done|]. exists address, pubkey. split; [done|]. split; [done|].
      exists recid, compressed. split; [|done]. apply (recovery_choices_spec recid compressed). by apply list_elem_of_In.
    + intros (_ & address & pubkey & Ek & Hid & recid & compressed & Hrange & Er). exists (recid, compressed). cbn [fst snd].
      rewrite Er, Ek, Hid, N.eqb_refl. split; [|done]. by apply list_elem_of_In, recovery_choices_spec.
Qed.

Lemma CheckHeaderPoS_spec nEnableHeaderSignatureHeight w b hdr : search_ok p s v ReadBlock ReadBlockUndo w (hashPrevBlock hdr) b (prevoutStake hdr) ->
  in_u32 (nBits hdr) -> (forall x, coin_for w (hashPrevBlock hdr) (prevoutStake hdr) = Some x -> 0 < nValue (out x) /\ in_i64 (nValue (out x))) ->
  exists r w', CheckHeaderPoS p sp s ReadBlock ReadBlockUndo nEnableHeaderSignatureHeight v hdr w = (Done r, w') /\ same_world w w' /\
    (r = true <->
      (nEnableHeaderSignatureHeight <= Chain.nHeight b -> exists x, coin_for w (hashPrevBlock hdr) (prevoutStake hdr) = Some x /\ signed_for sp (Chain.nHeight b + 1) hdr x) /\
      exists stake, stake_of p s v ReadBlock ReadBlockUndo w (hashPrevBlock hdr) (prevoutStake hdr) = Some stake /\
        blockFromTime stake <= Block.StakeTime hdr /\
        arith_value (kernel_hash (nStakeModifier b) (blockFromTime stake) (prevoutStake hdr) (Block.StakeTime hdr)) <
          (compact_exact (nBits hdr) mod 2 ^ 256 + 1) * amount stake).
Proof.
  intros Ho Hbits Hval. pose proof (so_parent _ _ _ _ _ _ _ _ _ Ho) as Hp. destruct (parent_height p s Hs _ b Hp) as [_ Eh].
  unfold CheckHeaderPoS. rewrite (pa_entry _ _ _ _ Hp).
  assert (exists r w', (if nEnableHeaderSignatureHeight <=? Chain.nHeight b then CheckRecoveredPubKeyFromBlockSignature p sp s ReadBlock ReadBlockUndo v (hashPrevBlock hdr) hdr
    else ret true) w = (Done r, w') /\ same_world w w' /\ (r = true <-> (nEnableHeaderSignatureHeight <= Chain.nHeight b -> exists x,
      coin_for w (hashPrevBlock hdr) (prevoutStake hdr) = Some x /\ signed_for sp (Chain.nHeight b + 1) hdr x))) as (r & w1 & E & Sw & Hr).
  { destruct (Z.leb_spec nEnableHeaderSignatureHeight (Chain.nHeight b)).
    - destruct (signature_spec w _ b hdr Ho) as (r & w' & E & Sw & Hr). exists r, w'. split; [done|]. split; [done|]. rewrite Hr. naive_solver.
    - exists true, w. split; [done|]. split; [apply same_world_refl, (so_view _ _ _ _ _ _ _ _ _ Ho)|]. split; [intros _ ?; lia|done]. }
  rewrite (bind_Done _ _ _ _ _ E). destruct r; cbn [negb].
  2: { exists false, w1. split; [done|]. split; [done|]. split; [done|]. intros [Hx%Hr _]. done. }
  assert (search_ok p s v ReadBlock ReadBlockUndo w1 (hashPrevBlock hdr) b (prevoutStake hdr) /\
    coin_for w1 (hashPrevBlock hdr) (prevoutStake hdr) = coin_for w (hashPrevBlock hdr) (prevoutStake hdr)) as [Ho1 Ec].
  { destruct Sw as [Hw1 [S1 _ _] _]. assert (coin_for w1 (hashPrevBlock hdr) (prevoutStake hdr) = coin_for w (hashPrevBlock hdr) (prevoutStake hdr)) as Ec.
    { unfold Pos.coin_for. by rewrite S1. } split; [|done]. destruct Ho as [_ O2 O3 O4 O5]. split; try done. by rewrite Ec. }
  assert (stake_of p s v ReadBlock ReadBlockUndo w1 (hashPrevBlock hdr) (prevoutStake hdr) = stake_of p s v ReadBlock ReadBlockUndo w (hashPrevBlock hdr) (prevoutStake hdr)) as Est.
  { unfold stake_of. by rewrite Ec. }
  destruct (CheckKernel_spec p s Hs v Hv ReadBlock ReadBlockUndo w1 _ b (prevoutStake hdr) (nBits hdr) (Block.StakeTime hdr) Ho1) as (w2 & Sw2 & Ek).
  rewrite Ek, Est. assert (same_world w w2) as Sw' by (by eapply same_world_trans).
  destruct (stake_of p s v ReadBlock ReadBlockUndo w (hashPrevBlock hdr) (prevoutStake hdr)) as [stake|] eqn:Es.
  2: { exists false, w2. split; [done|]. split; [done|]. naive_solver. }
  assert (0 < amount stake /\ in_i64 (amount stake)) as [Hv1 Hv2].
  { unfold stake_of in Es. apply bind_Some in Es as (x & Hx & Es). apply bind_Some in Es as (b' & _ & Es). destruct (_ || _) in Es; [done|].
    apply bind_Some in Es as (j & _ & Es). apply bind_Some in Es as (from & _ & [= <-]). by apply Hval. }
  pose proof (kernel_spec p b (nBits hdr) (blockFromTime stake) (prevoutStake hdr) (Block.StakeTime hdr) Hbits (amount stake)) as Hk.
  rewrite Eh in Hk. specialize (Hk (pa_fork _ _ _ _ Hp) Hv1 Hv2). unfold kernel_test. step Hk. do 2 eexists. split; [done|]. split; [done|].
  destruct (Z.ltb_spec (Block.StakeTime hdr) (blockFromTime stake)); cbn [fst].
  - split; [done|]. intros [_ (st & [= <-] & ? & _)]. lia.
  - rewrite Z.ltb_lt. split; [intros; split; [by apply Hr|by exists stake]|]. by intros [_ (st & [= <-] & _ & ?)].
Qed.
End Header.


(** The stake returns to its owner: when the output check of a connected block passes, the coin
    that was staked and the output at its place (the second, or the third of a delegated block,
    which a full fee leaves out) have one script, or one key hash. *)
Lemma stake_returns_to_owner `{Crypto} {V G} `{CCoinsViewLaws V} (b : Block.CBlock) (delegateOutputExist : bool) (w w' : world V G) :
  cache_ok (view w) -> CheckBlockInputPubKeyMatchesOutputPubKey b delegateOutputExist w = (Done true, w') ->
  let k := if Block.HasProofOfDelegation (Block.header b) then 1%nat else 0%nat in
  Block.HasProofOfDelegation (Block.header b) = true /\ delegateOutputExist = false \/
  exists x tx o, coins (view w) (prevoutStake (Block.header b)) = Some x /\ Block.vtx b !! 1%nat = Some tx /\ vout tx !! (1 + k)%nat = Some o /\
    (scriptPubKey (out x) = scriptPubKey o \/
     exists h, Address.ExtractPublicKeyHash (scriptPubKey (out x)) = (h, true) /\ Address.ExtractPublicKeyHash (scriptPubKey o) = (h, true)).
Proof.
  intros Hw E k. unfold CheckBlockInputPubKeyMatchesOutputPubKey in E. destruct (ViewGetCoin_spec (prevoutStake (Block.header b)) w Hw) as (w1 & E1 & _).
  rewrite (bind_Done _ _ _ _ _ E1) in E. destruct (coins (view w) (prevoutStake (Block.header b))) as [x|]; [|done]. fold k in E.
  destruct (Block.HasProofOfDelegation (Block.header b) && negb delegateOutputExist) eqn:Ed; [left; bool_to_prop; by destruct delegateOutputExist|right].
  unfold bind, follow in E. destruct (Block.vtx b !! 1%nat) as [tx|]; [|done]. destruct (_ <? _)%nat in E; [done|].
  destruct (vout tx !! (1 + k)%nat) as [o|] eqn:Eo; [|done]. exists x, tx, o. split_and!; try done. case_bool_decide as Escript; [by left|right].
  unfold Address.ExtractPublicKeyHash. destruct (Address.ExtractDestination (scriptPubKey (out x)) true) as [[t1 a1] f1]. destruct f1; cbn [negb] in E; [|done].
  destruct (decide (t1 = Script.PUBKEYHASH)) as [->|Hn]; [|rewrite (bool_decide_eq_false_2 _ Hn) in E; discriminate E].
  rewrite (bool_decide_eq_true_2 (Script.PUBKEYHASH = _) eq_refl) in E. destruct (Address.get_PKHash a1) as [h1|]; [|discriminate E].
  rewrite (bool_decide_eq_true_2 (is_Some (Some h1))) in E by done. cbn [negb orb] in E.
  destruct (Address.ExtractDestination (scriptPubKey o) true) as [[t2 a2] f2]. destruct f2; cbn [negb] in E; [|done].
  destruct (decide (t2 = Script.PUBKEY)) as [->|Hn]; [|rewrite (bool_decide_eq_false_2 _ Hn) in E; discriminate E].
  rewrite (bool_decide_eq_true_2 (Script.PUBKEY = _) eq_refl) in E. destruct (Address.get_PKHash a2) as [h2|]; [|discriminate E].
  rewrite (bool_decide_eq_true_2 (is_Some (Some h2))) in E by done. cbn [negb orb] in E. unfold ret in E.
  case_bool_decide as Eh; [|done]. injection Eh as ->. exists h2. done.
Qed.

(** ** Properties *)

Lemma stake_valid_hash `{Crypto} `{Recovery} `{DelegationContract G} p sp s VS coins (g : G) i b tx bits t vchPoD o hash hash' :
  stake_valid p sp s VS coins g i b tx bits t vchPoD o hash -> stake_valid p sp s VS coins g i b tx bits t vchPoD o hash' -> hash = hash'.
Proof.
  intros (_ & i1 & x & j & y & k & from & _ & _ & Hy & Hk & _ & _ & _ & -> & _) (_ & i2 & x' & j' & y' & k' & from' & _ & _ & Hy' & Hk' & _ & _ & _ & -> & _).
  destruct (stakeable_unique _ _ _ _ _ _ _ _ _ Hy Hy') as [_ <-]. rewrite Hk in Hk'. by injection Hk' as <-.
Qed.

(** C5: the check of a proof of stake decides the staking rule, exactly.  On any block index,
    from the height of the reduced block time on, and on any view of the unspent outputs in
    which the coin named in the header has a positive value, [CheckProofOfStake] accepts a
    coinstake if and only if its first input and the coin named in the header are unspent,
    mature, from this branch, and not staked in the maturity less one headers below the new
    one (a stake exactly the maturity ago is allowed, although the loop looks at its
    header too); the coin in the header is the input
    and not delegated, or the contract holds a verified delegation of it to the key of the second
    output, with the proof in the header and at the fee the outputs pay; the input's signature
    holds; and the kernel hash meets the target weighted by the coin.  It then returns the kernel
    hash.  Otherwise it gives a reason; it never follows a null pointer or throws, and it changes nothing one can see of the view. *)
Theorem proof_of_stake_exact `{Crypto} `{Recovery} {V G} `{CCoinsViewLaws V} `{DelegationContract G}
    (p : Params) (sp : StakeParams) (s : BlockMap) (VerifySignature : Coin -> CTransaction -> bool) i b tx bits t vchPoD o (w : world V G) :
  tree_ok s -> parent_ok p s i b -> cache_ok (view w) -> coin_heights (coins (view w)) -> in_u32 bits ->
  (forall y, coins (view w) o = Some y -> 0 < nValue (out y) /\ in_i64 (nValue (out y))) ->
  exists r w', CheckProofOfStake p sp s VerifySignature i tx bits t vchPoD o w = (r, w') /\ same (view w) (view w') /\ r <> Stopped /\
    forall hash, (exists target, r = Done (hash, target)) <->
                 stake_valid p sp s VerifySignature (coins (view w)) (globalState w) i b tx bits t vchPoD o hash.
Proof.
  intros Hs Hp Hw Hc Hbits Hv. destruct (CheckProofOfStake_spec p sp s Hs VerifySignature i b tx bits t vchPoD o w Hp Hw Hc Hbits Hv) as (r & w' & E & _ & S & Hr).
  exists r, w'. split; [done|]. split; [done|]. split; [by intros ->|]. intros hash. destruct r as [[h' target]|reason|]; [|naive_solver|done].
  destruct Hr as [Hr _]. split; [by intros (t' & [= -> ->])|]. intros Hv'. exists target. by rewrite (stake_valid_hash _ _ _ _ _ _ _ _ _ _ _ _ _ _ _ Hv' Hr).
Qed.

(** The main parameters with another maturity. *)
Definition with_maturity (m : Z) (p : Params) : Params := {|
  nSubsidyHalvingInterval := nSubsidyHalvingInterval p; nSubsidyHalvingIntervalV2 := nSubsidyHalvingIntervalV2 p; QIP9Height := QIP9Height p;
  nReduceBlocktimeHeight := nReduceBlocktimeHeight p; powLimit := powLimit p; posLimit := posLimit p; QIP9PosLimit := QIP9PosLimit p;
  RBTPosLimit := RBTPosLimit p; fPowAllowMinDifficultyBlocks := fPowAllowMinDifficultyBlocks p; enforce_BIP94 := enforce_BIP94 p;
  fPowNoRetargeting := fPowNoRetargeting p; fPoSNoRetargeting := fPoSNoRetargeting p; nPowTargetSpacing := nPowTargetSpacing p;
  nRBTPowTargetSpacing := nRBTPowTargetSpacing p; nPowTargetTimespan := nPowTargetTimespan p; nPowTargetTimespanV2 := nPowTargetTimespanV2 p;
  nRBTPowTargetTimespan := nRBTPowTargetTimespan p; nLastBigReward := nLastBigReward p; nMPoSRewardRecipients := nMPoSRewardRecipients p;
  nStakeTimestampMask := nStakeTimestampMask p; nRBTStakeTimestampMask := nRBTStakeTimestampMask p; nBlocktimeDownscaleFactor := nBlocktimeDownscaleFactor p;
  nCoinbaseMaturity := m; nRBTCoinbaseMaturity := m; nMinValidatorStake := nMinValidatorStake p; nHeartbeatInterval := nHeartbeatInterval p;
  nUptimeWindow := nUptimeWindow p; nBronzeUptimeThreshold := nBronzeUptimeThreshold p; nSilverUptimeThreshold := nSilverUptimeThreshold p;
  nGoldUptimeThreshold := nGoldUptimeThreshold p; nPlatinumUptimeThreshold := nPlatinumUptimeThreshold p;
  nBronzeRewardMultiplier := nBronzeRewardMultiplier p; nSilverRewardMultiplier := nSilverRewardMultiplier p; nGoldRewardMultiplier := nGoldRewardMultiplier p;
  nPlatinumRewardMultiplier := nPlatinumRewardMultiplier p; nBaseBlockReward := nBaseBlockReward p; nTrustTierActivationHeight := nTrustTierActivationHeight p |}.

(** A delegated coin, the coin of the staker, and the coinstake that pays the staker a tenth of
    the reward; signatures are the keys themselves. *)
#[local] Instance toy_recovery : Recovery := {| RecoverCompact _ sig := Some sig; RecoverLaxDER _ _ _ _ := None |}.
#[local] Instance toy_contract : DelegationContract (gmap N Delegation) :=
  {| deployDelegationsContract g := g; ExistDelegationContract _ := true; GetDelegation a g := Some (default (mkDelegation 0 0 0 []) (g !! a)) |}.
#[local] Existing Instance CCoinsViewDB_view.
#[local] Existing Instance CCoinsViewDB_laws.

Definition wit_params : Params := with_maturity 2 main_params.
Definition key_coin (value : Z) (key : N) : Coin := mkCoin (mkTxOut value (Script.pay_to_pubkey_hash (id_bytes 20 key))) false false 0.
Definition wit_delegated : COutPoint := mkOutPoint 10 0.
Definition wit_own : COutPoint := mkOutPoint 11 0.
Definition wit_stake_db : CCoinsViewDB := mkDB {[wit_delegated := key_coin (1000 * COIN) 7; wit_own := key_coin (200 * COIN) 9]} (Some 7%N) None.
Definition wit_world : world CCoinsViewDB (gmap N Delegation) := mkWorld (new_cache wit_stake_db) {[7%N := mkDelegation 9 10 1 [7]]}.
Definition wit_coinstake : CTransaction :=
  mkTransaction [mkTxIn wit_own [] 0 []]
    [mkTxOut 0 []; mkTxOut (200 * COIN + 100) (Script.pay_to_pubkey_hash (id_bytes 20 9)); mkTxOut 900 (Script.pay_to_pubkey_hash (id_bytes 20 7))] 2 0.

Lemma wit_tree : tree_ok (m_block_index wit_m).
Proof. apply (built_ok (C := toy_crypto) wit_hash wit_hash_self wit_m wit_m_built wit_m_size). Qed.

Lemma wit_parent : exists b, parent_ok wit_params (m_block_index wit_m) 7 b.
Proof.
  destruct (wit_m_entry 7 2 ltac:(by vm_compute)) as (b & Hb & Hh). exists b. constructor; [exact Hb|rewrite Hh; reflexivity| |rewrite Hh; discriminate].
  rewrite Hh. change (CoinbaseMaturity wit_params (2 + 1)) with 2. lia.
Qed.

Lemma wit_coins o x : coins_of (CCoinsViewLaws := CCoinsViewDB_laws two_changes) wit_stake_db o = Some x ->
  o = wit_delegated /\ x = key_coin (1000 * COIN) 7 \/ o = wit_own /\ x = key_coin (200 * COIN) 9.
Proof. unfold wit_stake_db. cbn [coins_of CCoinsViewDB_laws db_coins]. rewrite lookup_insert_Some, lookup_singleton_Some. naive_solver. Qed.

Lemma wit_view : cache_ok (H0 := CCoinsViewDB_laws two_changes) (view wit_world) /\
  forall o, coins (H0 := CCoinsViewDB_laws two_changes) (view wit_world) o = coins_of (CCoinsViewLaws := CCoinsViewDB_laws two_changes) wit_stake_db o.
Proof. apply new_cache_ok. split; [|done]. intros o x Hx. by destruct (wit_coins o x Hx) as [[_ ->]|[_ ->]]. Qed.

Lemma proof_of_stake_exact_witness : exists b hash,
  stake_valid (H := toy_crypto) wit_params main_stake_params (m_block_index wit_m) (fun _ _ => true)
    (coins (H0 := CCoinsViewDB_laws two_changes) (view wit_world)) (globalState wit_world) 7 b wit_coinstake 0x2100ffff 1016 [7] wit_delegated hash.
Proof.
  destruct wit_parent as [b Hb]. destruct wit_view as [Hw Hc]. exists b.
  destruct (@proof_of_stake_exact toy_crypto _ _ _ _ (CCoinsViewDB_laws two_changes) _ wit_params main_stake_params (m_block_index wit_m) (fun _ _ => true)
    7 b wit_coinstake 0x2100ffff 1016 [7] wit_delegated wit_world wit_tree Hb Hw) as (r & w' & E & _ & _ & Hr).
  - intros o x. rewrite Hc. intros [[_ ->]|[_ ->]]%wit_coins; vm_compute; split; done.
  - unfold in_u32. lia.
  - intros y. rewrite Hc. intros [[_ ->]|[E _]]%wit_coins; [|discriminate E]. vm_compute. repeat split; discriminate.
  - assert (match (@CheckProofOfStake toy_crypto _ _ _ (CCoinsViewDB_view two_changes) _ wit_params main_stake_params (m_block_index wit_m) (fun _ _ => true)
              7 wit_coinstake 0x2100ffff 1016 [7] wit_delegated wit_world).1 with Done _ => true | _ => false end = true) as Hd by (vm_compute; reflexivity).
    rewrite E in Hd. destruct r as [[hash target]| |]; [|discriminate Hd..]. exists hash. apply Hr. by exists target.
Defined.

(** The stake kernel weighs coins by their value.  At and after the reduced block time, a
    coin of value [v] meets the target exactly when the kernel hash, as a number, is below
    [(target + 1) * v], with nothing wrapping, so a larger coin succeeds on every hash a smaller
    one succeeds on; a block older than the block of the coin fails; and a coin of value zero
    makes the division throw instead of failing. *)
Theorem stake_kernel_weighs_value `{Crypto} (p : Params) (b : CBlockIndex) (bits from : Z) (o : COutPoint) (t v : Z) :
  in_u32 bits -> nReduceBlocktimeHeight p <= i32 (Chain.nHeight b + 1) -> 0 < v -> in_i64 v ->
  let proof := kernel_hash (nStakeModifier b) from o t in
  (t < from -> CheckStakeKernelHash p b bits from v o t = Some (false, None)) /\
  (from <= t -> CheckStakeKernelHash p b bits from 0 o t = None /\
    exists r target, CheckStakeKernelHash p b bits from v o t = Some (r, Some (proof, target)) /\
      (r = true <-> arith_value proof < (compact_exact bits mod 2 ^ 256 + 1) * v) /\
      forall v', v <= v' -> in_i64 v' -> r = true -> CheckStakeKernelHash p b bits from v' o t = Some (true, Some (proof, target))).
Proof.
  intros Hb Hh Hv Hw proof. rewrite kernel_spec by done. fold proof. split; intros Ht; [by rewrite (proj2 (Z.ltb_lt _ _) Ht)|].
  split; [by apply kernel_zero_value|]. rewrite (proj2 (Z.ltb_ge _ _) Ht). do 2 eexists. split; [done|]. split; [apply Z.ltb_lt|].
  intros v' Hle Hw' Hr%Z.ltb_lt. rewrite kernel_spec by (done || lia). rewrite (proj2 (Z.ltb_ge _ _) Ht). fold proof.
  rewrite (proj2 (Z.ltb_lt _ _)); [done|]. pose proof (Z.mod_pos_bound (compact_exact bits) (2 ^ 256) ltac:(lia)). nia.
Qed.

Lemma stake_kernel_weighs_value_witness :
  let b := mkIndex (wit_header 3 0) (Some 3%N) None 2 zero 5 0 0 in
  @CheckStakeKernelHash toy_crypto main_params b 0x2100ffff 1000 0 wit_own 1016 = None /\
  exists r target, @CheckStakeKernelHash toy_crypto main_params b 0x2100ffff 1000 COIN wit_own 1016 =
    Some (r, Some (@kernel_hash toy_crypto 5 1000 wit_own 1016, target)).
Proof.
  intros b. destruct (@stake_kernel_weighs_value toy_crypto main_params b 0x2100ffff 1000 wit_own 1016 COIN) as [_ H].
  - unfold in_u32. lia.
  - discriminate.
  - reflexivity.
  - unfold in_i64. vm_compute. split; discriminate.
  - destruct (H ltac:(lia)) as [H1 (r & target & H2 & _)]. split; [exact H1|]. exists r, target. exact H2.
Defined.

(** The fee of a delegation survives the payment.  For every fee the contract admits and
    every reward from 100 satoshis up to the money limit, splitting the reward and paying the
    shares as the staker does, the shares add up to the reward, none is negative, and
    [GetDelegationFeeTx] reads exactly this fee back from the coinstake, whether the delegate has
    an output (below 100 percent) or not. *)
Theorem delegation_fee_roundtrip (nReward f : Z) (coin : Coin) (i : CTxIn) (rest : list CTxIn) (ss ds : list Z) (version lockTime : Z) :
  100 <= nReward <= MAX_MONEY -> 0 <= f <= 100 -> 0 < nValue (out coin) <= MAX_MONEY -> IsNull (prevout i) = false ->
  exists split, SplitOfflineStakeReward nReward f = Some split /\ split.1 + split.2 = nReward /\ 0 <= split.1 /\ 0 <= split.2 /\
    GetDelegationFeeTx (mkTransaction (i :: rest) (reward_outputs (nValue (out coin)) f split ss ds) version lockTime) coin (IsDelegateOutputExist f) = f.
Proof.
  intros Hr Hf Hc Hi. destruct (SplitOfflineStakeReward nReward f) as [split|] eqn:E.
  - exists split. split; [done|]. by apply fee_spec.
  - unfold SplitOfflineStakeReward in E. rewrite (proj2 (Z.ltb_ge _ _)) in E by lia. done.
Qed.

Lemma delegation_fee_roundtrip_witness : exists split, SplitOfflineStakeReward 1000 10 = Some split /\ split.1 + split.2 = 1000.
Proof.
  destruct (delegation_fee_roundtrip 1000 10 (key_coin COIN 7) (mkTxIn wit_own [] 0 []) [] [] [] 2 0) as (split & E & Hs & _); [done|done|done|done|].
  exists split. split; [exact E|exact Hs].
Defined.

(** Below 100 satoshis the fee can be lost: one percent of 50 satoshis is paid as nothing and
    read back as zero, which [CheckProofOfStake] then takes for another delegation. *)
Lemma small_reward_loses_fee :
  SplitOfflineStakeReward 50 1 = Some (50, 0) /\
  GetDelegationFeeTx (mkTransaction [mkTxIn wit_own [] 0 []] (reward_outputs COIN 1 (50, 0) [] []) 2 0) (key_coin COIN 7) true = 0.
Proof. split; reflexivity. Qed.

(** C23: the search for a staked coin that the active chain has spent ends and is exact.  For
    a block that branches off the active chain, [GetSpentCoinFromMainChain] walks both branches
    down to their fork and no further, never past the first block; it finds nothing when the fork
    is deeper than the maturity or the branch has staked the coin already, and otherwise the
    coin that the undo data of the last block above the fork that spent it kept. *)
Theorem spent_coin_search_ends (p : Params) (s : BlockMap) (v : CChain) ReadBlock ReadBlockUndo tip i b o :
  tree_ok s -> chain_ok s v -> Tip v = Some tip -> (forall t, s !! tip = Some t -> Chain.nHeight t < 2 ^ 31) -> s !! i = Some b ->
  (exists c, is_ancestor s i c /\ Some c ∈ v) ->
  exists f t fb r, s !! tip = Some t /\ s !! f = Some fb /\ fork_point s v i (Some f) /\
    GetSpentCoinFromMainChain p s ReadBlock ReadBlockUndo v i o = Some r /\
    spent_above_fork p s ReadBlock ReadBlockUndo tip i f t b fb o r.
Proof. intros Hs Hv. by apply GetSpentCoinFromMainChain_spec. Qed.

(** The active chain is 1, 4, and block 4 spent the coin. *)
Definition wit_chain : CChain := [Some 1%N; Some 4%N].
Definition wit_block (i : N) : option Block.CBlock :=
  if (i =? 4)%N then Some (Block.mkBlock (wit_header 1 1) [sample_coinbase; wit_coinstake]) else None.
Definition wit_undo (i : N) : option (list (list Coin)) := if (i =? 4)%N then Some [[key_coin (200 * COIN) 9]] else None.

Lemma wit_heights i b : m_block_index wit_m !! i = Some b -> Chain.nHeight b < 2147483647.
Proof.
  intros Hb. destruct (built_ok (C := toy_crypto) wit_hash wit_hash_self wit_m wit_m_built wit_m_size) as [_ Hh _ _].
  assert (Chain.nHeight b < Z.of_nat (size (m_block_index wit_m))) by exact (Hh i b Hb). pose proof wit_m_size. lia.
Qed.

Lemma wit_chain_ok : chain_ok (m_block_index wit_m) wit_chain.
Proof.
  apply tips_ok; [exact wit_tree| |].
  - exact wit_heights.
  - apply (tips_set _ 4 []); [constructor|]. vm_compute. reflexivity.
Qed.

Lemma spent_coin_search_ends_witness :
  exists r, GetSpentCoinFromMainChain main_params (m_block_index wit_m) wit_block wit_undo wit_chain 7 wit_own = Some r /\ r = Some (key_coin (200 * COIN) 9).
Proof.
  destruct (wit_m_entry 7 2 ltac:(by vm_compute)) as (b & Hb & Hh).
  destruct (spent_coin_search_ends main_params (m_block_index wit_m) wit_chain wit_block wit_undo 4 7 b wit_own) as (f & t & fb & r & _ & _ & _ & E & _).
  - exact wit_tree.
  - exact wit_chain_ok.
  - reflexivity.
  - intros t Ht. change (2 ^ 31) with 2147483648. pose proof (wit_heights 4 t Ht). lia.
  - exact Hb.
  - exists 1%N. split; [exists 2%nat; vm_compute; reflexivity|]. apply list_elem_of_here.
  - exists r. split; [exact E|].
    assert (GetSpentCoinFromMainChain main_params (m_block_index wit_m) wit_block wit_undo wit_chain 7 wit_own = Some (Some (key_coin (200 * COIN) 9))) as E'
      by (vm_compute; reflexivity).
    rewrite E in E'. by injection E' as ->.
Defined.

(** C33: the kernel cache of the staker is transparent.  Whatever a cache holds, [CheckKernel]
    with it never accepts a kernel it rejects without; with the right entry, or none, for the
    coin it answers exactly the same.  [CacheKernel] adds the right entry and keeps right ones,
    and an entry made at one block stays right on every block built on top of it while the coin
    is unspent. *)
Theorem kernel_cache_transparent `{Crypto} {V G} `{CCoinsViewLaws V} (p : Params) (s : BlockMap) (v : CChain) ReadBlock ReadBlockUndo
    (w : world V G) (cache : gmap COutPoint CStakeCache) i b o bits t :
  tree_ok s -> chain_ok s v -> search_ok p s v ReadBlock ReadBlockUndo w i b o -> in_u32 bits ->
  (forall e, cache !! o = Some e -> 0 < amount e /\ in_i64 (amount e)) ->
  let right := entry_right p s v ReadBlock ReadBlockUndo in
  (exists r r' w1 w2, CheckKernel p s ReadBlock ReadBlockUndo v i bits t o w = (r, w1) /\
    CheckKernel_cached p s ReadBlock ReadBlockUndo v i bits t o cache w = (r', w2) /\
    same (view w) (view w2) /\ (r' = Done true -> r = Done true) /\ (right w i o cache -> r' = r)) /\
  (exists cache' w', CacheKernel p s cache o i w = (Done cache', w') /\ same (view w) (view w') /\ (right w i o cache -> right w i o cache') /\
    forall e x w'' i', cache' !! o = Some e -> stake_of p s v ReadBlock ReadBlockUndo w i o = Some e -> is_ancestor s i' i ->
      coins (view w) o = Some x -> coins (view w'') o = Some x -> right w'' i' o cache').
Proof.
  intros Hs Hv Ho Hb Hpos right. split.
  - destruct (CheckKernel_cached_spec p s Hs v Hv ReadBlock ReadBlockUndo cache w i b o bits t Ho Hb Hpos) as (r & r' & w1 & w2 & E & E' & [_ S _] & Hrest).
    exists r, r', w1, w2. destruct Hrest as [H1' H2']. split_and!; done || apply H1' || apply H2'.
  - destruct (CacheKernel_spec p s Hs v ReadBlock ReadBlockUndo cache w i b o Ho) as (cache' & w' & E & [_ S _] & _ & Hnew).
    exists cache', w'. split_and!; try done.
    + intros Hr e stake He Hst. destruct (cache !! o) eqn:Ec; [subst cache'; by apply Hr|].
      rewrite Hnew in He. destruct (coins (view w) o); [congruence|done].
    + intros e x w'' i' He Hst Hi Hx Hx'. by apply (entry_right_above p s Hs v ReadBlock ReadBlockUndo w w'' i b i' o x e).
Qed.

Lemma wit_search b : parent_ok wit_params (m_block_index wit_m) 7 b ->
  search_ok (H0 := CCoinsViewDB_laws two_changes) wit_params (m_block_index wit_m) wit_chain wit_block wit_undo wit_world 7 b wit_own /\
  coin_for (H0 := CCoinsViewDB_laws two_changes) wit_params (m_block_index wit_m) wit_chain wit_block wit_undo wit_world 7 wit_own = Some (key_coin (200 * COIN) 9).
Proof.
  intros Hb. destruct wit_view as [Hw Hc].
  assert (coin_for (H0 := CCoinsViewDB_laws two_changes) wit_params (m_block_index wit_m) wit_chain wit_block wit_undo wit_world 7 wit_own = Some (key_coin (200 * COIN) 9)) as E.
  { unfold coin_for. rewrite Hc. reflexivity. }
  split; [|exact E]. constructor; [exact Hw|exact Hb| | |].
  - destruct (wit_m_entry 4 1 ltac:(by vm_compute)) as (t & Ht & Hh). exists 4%N, t. split; [reflexivity|]. split; [exact Ht|]. rewrite Hh. reflexivity.
  - exists 1%N. split; [exists 2%nat; vm_compute; reflexivity|]. apply list_elem_of_here.
  - intros x. rewrite E. intros [= <-]. vm_compute. split; [discriminate|reflexivity].
Qed.

Lemma kernel_cache_transparent_witness :
  exists cache' w', CacheKernel (H := CCoinsViewDB_view two_changes) wit_params (m_block_index wit_m) ∅ wit_own 7 wit_world = (Done cache', w').
Proof.
  destruct wit_parent as [b Hb].
  destruct (@kernel_cache_transparent toy_crypto _ _ _ (CCoinsViewDB_laws two_changes) wit_params (m_block_index wit_m) wit_chain wit_block wit_undo wit_world ∅ 7 b wit_own
    0x2100ffff 1016) as [_ (cache' & w' & E & _)].
  - exact wit_tree.
  - exact wit_chain_ok.
  - apply wit_search, Hb.
  - unfold in_u32. lia.
  - intros e He. rewrite lookup_empty in He. discriminate He.
  - exists cache', w'. exact E.
Defined.

(** C32: a proof-of-stake header is accepted exactly when it is authorised and meets the target.
    [CheckHeaderPoS] answers [true] if and only if the staked coin, unspent or spent on the
    active chain since the fork, is mature and from this branch, its kernel meets the target,
    and (from the height where signatures are required) the header is signed by a key that hashes
    to the owner of the coin, or by one whose id the owner signed as a delegation.  It always
    answers. *)
Theorem header_stake_authorised `{Crypto} `{Recovery} {V G} `{CCoinsViewLaws V} (p : Params) (sp : StakeParams) (s : BlockMap) (v : CChain)
    ReadBlock ReadBlockUndo nEnableHeaderSignatureHeight (w : world V G) b hdr :
  tree_ok s -> chain_ok s v -> search_ok p s v ReadBlock ReadBlockUndo w (hashPrevBlock hdr) b (prevoutStake hdr) -> in_u32 (nBits hdr) ->
  (forall x, coin_for p s v ReadBlock ReadBlockUndo w (hashPrevBlock hdr) (prevoutStake hdr) = Some x -> 0 < nValue (out x) /\ in_i64 (nValue (out x))) ->
  exists r w', CheckHeaderPoS p sp s ReadBlock ReadBlockUndo nEnableHeaderSignatureHeight v hdr w = (Done r, w') /\ same (view w) (view w') /\
    (r = true <->
      (nEnableHeaderSignatureHeight <= Chain.nHeight b ->
        exists x, coin_for p s v ReadBlock ReadBlockUndo w (hashPrevBlock hdr) (prevoutStake hdr) = Some x /\ signed_for sp (Chain.nHeight b + 1) hdr x) /\
      exists stake, stake_of p s v ReadBlock ReadBlockUndo w (hashPrevBlock hdr) (prevoutStake hdr) = Some stake /\
        blockFromTime stake <= Block.StakeTime hdr /\
        arith_value (kernel_hash (nStakeModifier b) (blockFromTime stake) (prevoutStake hdr) (Block.StakeTime hdr)) <
          (compact_exact (nBits hdr) mod 2 ^ 256 + 1) * amount stake).
Proof.
  intros Hs Hv Ho Hb Hval. destruct (CheckHeaderPoS_spec p sp s Hs v Hv ReadBlock ReadBlockUndo nEnableHeaderSignatureHeight w b hdr Ho Hb Hval) as (r & w' & E & [_ S _] & Hr).
  by exists r, w'.
Qed.

Definition wit_stake_header : CBlockHeader := mkHeader 1 7 0 1016 0x2100ffff 0 0 0 wit_own [9].

Lemma header_stake_authorised_witness : exists w',
  CheckHeaderPoS (K := toy_crypto) (H := CCoinsViewDB_view two_changes) wit_params main_stake_params (m_block_index wit_m) wit_block wit_undo 0 wit_chain wit_stake_header wit_world = (Done true, w').
Proof.
  destruct wit_parent as [b Hb]. destruct (wit_search b Hb) as [Ho Ec].
  destruct (@header_stake_authorised toy_crypto _ _ _ _ (CCoinsViewDB_laws two_changes) wit_params main_stake_params (m_block_index wit_m) wit_chain wit_block wit_undo 0
    wit_world b wit_stake_header) as (r & w' & E & _ & _).
  - exact wit_tree.
  - exact wit_chain_ok.
  - exact Ho.
  - unfold in_u32. cbn. lia.
  - intros x Hx. change (coin_for (H0 := CCoinsViewDB_laws two_changes) wit_params (m_block_index wit_m) wit_chain wit_block wit_undo wit_world 7 wit_own = Some x) in Hx.
    rewrite Ec in Hx. injection Hx as <-. vm_compute. repeat split; discriminate.
  - exists w'. rewrite E. f_equal.
    assert (match (CheckHeaderPoS (K := toy_crypto) (H := CCoinsViewDB_view two_changes) wit_params main_stake_params (m_block_index wit_m) wit_block wit_undo 0 wit_chain
              wit_stake_header wit_world).1 with Done r => r | _ => false end = true) as Hd by (vm_compute; reflexivity).
    rewrite E in Hd. cbn in Hd. by rewrite Hd.
Defined.
End Pos.
