(* ===== verification/Mpos.v ===== *)
(** * Mutualised proof of stake (pos.cpp, and the stake index of validation.cpp)

    While MPoS is active the reward of a block is shared with the stakers of earlier blocks.
    Who they are is read from the stake and delegate indexes of the block tree database
    (TreeDB.v), which connecting a block writes and disconnecting it is meant to erase, and
    kept in a cache by height.  The model has the indexes, the cache, the active chain, and
    the steps that change them: blocks connected and disconnected, a restart, and the
    computation of the outputs of a reward. *)

From stdpp Require Import gmap list.
From Stdlib Require Import ZArith Lia.
From S2P Require Import Prelude Params Serialize Crypto Script OutPoint Transaction Coins ArithUint256 Chain Block Address Pos TreeDB.

Open Scope Z_scope.

Module Mpos.
Import Transaction.Transaction Coins.Coins Pos.Pos TreeDB.TreeDB.
#[local] Open Scope stake_scope.

(** ** The cache of scripts by height *)

Record BlockScript := mkBlockScript { stakerScript : list Z; delegateScript : list Z; fee : Z; hasDelegate : bool }.
Definition BlockScript_of (stakerScript : list Z) : BlockScript := mkBlockScript stakerScript [] 0 false.

Record ScriptsElement := mkScriptsElement { script : BlockScript; hash : N }.

(** [nMPoSRewardRecipients * 1.5], exact as a [double], truncated *)
Definition nCacheScripts (p : Params) : Z := i32 (Z.quot (nMPoSRewardRecipients p * 3) 2).

(** The key of a block in the index is its hash. *)
Definition NeedToEraseScriptFromCache (nBlockHeight nCacheScripts nScriptHeight : Z) (scriptElement : ScriptsElement) (chain : CChain) : bool :=
  if (nScriptHeight <? i32 (nBlockHeight - nCacheScripts)) || (i32 (nBlockHeight + nCacheScripts) <? nScriptHeight) then true
  else match at_ chain nScriptHeight with
       | Some pblockindex => negb (pblockindex =? hash scriptElement)%N
       | None => false
       end.

Section Cache.
Context (p : Params).

Definition CleanScriptCache (nHeight : Z) (chain : CChain) (scriptsMap : gmap Z ScriptsElement) : gmap Z ScriptsElement :=
  filter (fun e => NeedToEraseScriptFromCache nHeight (nCacheScripts p) e.1 e.2 chain = false) scriptsMap.

Definition ReadFromScriptCache (pblockindex : N) (nHeight : Z) (chain : CChain) (scriptsMap : gmap Z ScriptsElement) :
  option BlockScript * gmap Z ScriptsElement :=
  let scriptsMap := CleanScriptCache nHeight chain scriptsMap in
  (match scriptsMap !! nHeight with
   | Some e => if (hash e =? pblockindex)%N then Some (script e) else None
   | None => None
   end, scriptsMap).

(** [std::map::insert] keeps an entry that is there. *)
Definition AddToScriptCache (script : BlockScript) (pblockindex : N) (nHeight : Z) (chain : CChain) (scriptsMap : gmap Z ScriptsElement) :
  gmap Z ScriptsElement :=
  let scriptsMap := CleanScriptCache nHeight chain scriptsMap in
  match scriptsMap !! nHeight with
  | Some _ => scriptsMap
  | None => <[nHeight := mkScriptsElement script pblockindex]> scriptsMap
  end.
End Cache.

(** ** The recipients *)

(** Where the reward of an address goes: burnt when it is unknown *)
Definition reward_script (address : N) : list Z :=
  if (address =? 0)%N then [Script.OP_RETURN] else Script.pay_to_pubkey_hash (id_bytes 20 address).

(** What the functions below change: the cache and the list of results. *)
Definition R (A : Type) : Type := bool * list A * gmap Z ScriptsElement.

Section Recipients.
Context (p : Params) (MineBlocksOnDemand : bool) (s : BlockMap) (chain : CChain) (db : database).

(** [None] is a pointer of the chain that is not in the index. *)
Definition AddMPoSScript (mposScriptList : list BlockScript) (nHeight : Z) (scriptsMap : gmap Z ScriptsElement) : option (R BlockScript) :=
  match at_ chain nHeight with
  | None => Some (false, mposScriptList, scriptsMap)
  | Some pblockindex =>
      match ReadFromScriptCache p pblockindex nHeight chain scriptsMap with
      | (Some blockScript, scriptsMap) => Some (true, mposScriptList ++ [blockScript], scriptsMap)
      | (None, scriptsMap) =>
          match ReadStakeIndex (u32 nHeight) 0 db with
          | None => Some (false, mposScriptList, scriptsMap)
          | Some stakeAddress =>
              b ← s !! pblockindex;
              if Chain.IsProofOfStake b then
                let blockScript := BlockScript_of (reward_script stakeAddress) in
                let finish blockScript :=
                  Some (true, mposScriptList ++ [blockScript], AddToScriptCache p blockScript pblockindex nHeight chain scriptsMap) in
                if Block.HasProofOfDelegation (header b) then
                  match ReadDelegateIndex (u32 nHeight) db with
                  | None => Some (false, mposScriptList, scriptsMap)
                  | Some (delegateAddress, fee) =>
                      finish (mkBlockScript (stakerScript blockScript) (reward_script delegateAddress) fee true)
                  end
                else finish blockScript
              else if MineBlocksOnDemand then Some (true, mposScriptList ++ [BlockScript_of [Script.OP_RETURN]], scriptsMap)
              else Some (false, mposScriptList, scriptsMap)
          end
      end
  end.

(** The loop from [i] on, of at most [fuel] rounds *)
Fixpoint scripts_loop (fuel : nat) (nHeight i : Z) (r : R BlockScript) : option (R BlockScript) :=
  match fuel with
  | O => Some r
  | S fuel =>
      let '(ret, mposScriptList, scriptsMap) := r in
      if (i <? nMPoSRewardRecipients p - 1) && ret then
        r ← AddMPoSScript mposScriptList (i32 (nHeight - i)) scriptsMap;
        scripts_loop fuel nHeight (i + 1) r
      else Some r
  end.

Definition GetMPoSOutputScripts (mposScriptList : list BlockScript) (nHeight : Z) (scriptsMap : gmap Z ScriptsElement) : option (R BlockScript) :=
  let nHeight := i32 (nHeight - CoinbaseMaturity p (i32 (nHeight + 1))) in
  scripts_loop (Z.to_nat (nMPoSRewardRecipients p)) nHeight 0 (true, mposScriptList, scriptsMap).

(** The outputs of the recipients, after those of the list; [false] when a fee is above 100 *)
Fixpoint outputs_loop (nRewardPiece : Z) (mposScriptList : list BlockScript) (mposOutputList : list CTxOut) : bool * list CTxOut :=
  match mposScriptList with
  | [] => (true, mposOutputList)
  | blockScript :: mposScriptList =>
      if hasDelegate blockScript then
        match SplitOfflineStakeReward nRewardPiece (fee blockScript) with
        | None => (false, mposOutputList)
        | Some (nRewardDelegate, nRewardStaker) =>
            let mposOutputList := mposOutputList ++ [mkTxOut nRewardStaker (stakerScript blockScript)] in
            outputs_loop nRewardPiece mposScriptList
              (if IsDelegateOutputExist (fee blockScript) then mposOutputList ++ [mkTxOut nRewardDelegate (delegateScript blockScript)]
               else mposOutputList)
        end
      else outputs_loop nRewardPiece mposScriptList (mposOutputList ++ [mkTxOut nRewardPiece (stakerScript blockScript)])
  end.

Definition GetMPoSOutputs (mposOutputList : list CTxOut) (nRewardPiece nHeight : Z) (scriptsMap : gmap Z ScriptsElement) : option (R CTxOut) :=
  '(ret, mposScriptList, scriptsMap) ← GetMPoSOutputScripts [] nHeight scriptsMap;
  if negb ret then Some (false, mposOutputList, scriptsMap)
  else Some (outputs_loop nRewardPiece mposScriptList mposOutputList, scriptsMap).

Definition CreateMPoSOutputs (vout : list CTxOut) (nRewardPiece nHeight : Z) (scriptsMap : gmap Z ScriptsElement) : option (R CTxOut) :=
  '(ret, mposOutputList, scriptsMap) ← GetMPoSOutputs [] nRewardPiece nHeight scriptsMap;
  if negb ret then Some (false, vout, scriptsMap) else Some (true, vout ++ mposOutputList, scriptsMap).
End Recipients.

(** ** The indexes along the chain *)

Section Indexes.
Context {K : Crypto} {Rc : Recovery} {V G : Type} `{CCoinsView V} `{DelegationContract G} (nLastMPoSBlock : Z).

(** The end of [ConnectBlock]: the view is the one after the transactions of the block. *)
Definition write_stake_indexes (b : Block.CBlock) (h : Z) (d : database) : M V G database :=
  if h <=? nLastMPoSBlock then
    if Block.IsProofOfStake (Block.header b) then
      let* key := follow (GetBlockPublicKey b) in
      let pkh := match key with Some vchPubKey => GetID vchPubKey | None => 0%N end in
      let d := WriteStakeIndex (u32 h) pkh d in
      if Block.HasProofOfDelegation (Block.header b) then
        let* (_, address, fee) := GetBlockDelegation b pkh 0%N 0 in
        ret (WriteDelegateIndex (u32 h) address fee d)
      else ret d
    else ret (WriteStakeIndex (u32 h) 0 d)
  else ret d.

(** The end of [DisconnectBlock] *)
Definition erase_stake_indexes (b : CBlockIndex) (d : database) : database :=
  if Chain.nHeight b <=? nLastMPoSBlock then
    let d := EraseStakeIndex (u32 (Chain.nHeight b)) d in
    if Chain.IsProofOfStake b && Block.HasProofOfDelegation (header b) then EraseDelegateIndex (u32 (Chain.nHeight b)) d else d
  else d.
End Indexes.

(** ** The node over time *)

Record node := mkNode { m_chain : CChain; block_tree_db : database; scriptsMap : gmap Z ScriptsElement }.

Section System.
Context {K : Crypto} {Rc : Recovery} {V G : Type} `{CCoinsView V} `{DelegationContract G}.
(** Every block there is or will be: its entry in the index, the block, and the view and
    contract state its transactions leave, which are those of its branch. *)
Context (p : Params) (nFirstMPoSBlock nLastMPoSBlock : Z) (MineBlocksOnDemand : bool).
Context (s : BlockMap) (block_of : N -> Block.CBlock) (world_of : N -> world V G).

(** A step of the node.  A write that is lost is that of a block whose connection did not
    reach the disk before the node stopped; a restart may find an earlier chain. *)
Inductive step : node -> node -> Prop :=
  | step_connect i b v d m d' w : s !! i = Some b -> pprev b = Tip v -> Chain.nHeight b = Height v + 1 ->
      write_stake_indexes nLastMPoSBlock (block_of i) (Chain.nHeight b) d (world_of i) = (Done d', w) ->
      step (mkNode v d m) (mkNode (v ++ [Some i]) d' m)
  | step_disconnect i b v d m : s !! i = Some b -> v <> [] ->
      step (mkNode (v ++ [Some i]) d m) (mkNode v (erase_stake_indexes nLastMPoSBlock b d) m)
  | step_outputs v d m nRewardPiece ok outs m' : nFirstMPoSBlock <= Height v < nLastMPoSBlock ->
      GetMPoSOutputs p MineBlocksOnDemand s v d [] nRewardPiece (Height v) m = Some (ok, outs, m') ->
      step (mkNode v d m) (mkNode v d m')
  | step_write_lost i b v d m d' w : s !! i = Some b -> pprev b = Tip v -> Chain.nHeight b = Height v + 1 ->
      write_stake_indexes nLastMPoSBlock (block_of i) (Chain.nHeight b) d (world_of i) = (Done d', w) ->
      step (mkNode v d m) (mkNode v d' ∅)
  | step_restart v v' d m : v <> [] -> step (mkNode (v ++ v') d m) (mkNode v d ∅).

(** From the genesis block, which connects without being indexed *)
Definition reachable (n : node) : Prop := exists g b d, s !! g = Some b /\ Chain.nHeight b = 0 /\ rtc step (mkNode [Some g] d ∅) n.

(** ** The recipients by the chain alone *)

(** The staker and the delegate of a block, with the fee, as its connection computes them. *)
Definition staker_of (i : N) : N := match GetBlockPublicKey (block_of i) with Some (Some vchPubKey) => GetID vchPubKey | _ => 0%N end.
Definition delegate_of (i : N) : N * Z :=
  match GetBlockDelegation (block_of i) (staker_of i) 0%N 0 (world_of i) with (Done (_, address, fee), _) => (address, fee) | _ => (0%N, 0) end.

Definition script_of (i : N) (b : CBlockIndex) : BlockScript :=
  if Block.HasProofOfDelegation (header b)
  then mkBlockScript (reward_script (staker_of i)) (reward_script (delegate_of i).1) (delegate_of i).2 true
  else BlockScript_of (reward_script (staker_of i)).

Definition recipient (v : CChain) (h : Z) : option BlockScript :=
  i ← at_ v h; b ← s !! i;
  if Chain.IsProofOfStake b then Some (script_of i b)
  else if MineBlocksOnDemand then Some (BlockScript_of [Script.OP_RETURN]) else None.

(** Those of a reward on a chain of height [h]: the blocks that have just matured *)
Definition recipient_heights (h : Z) : list Z :=
  (fun k => h - CoinbaseMaturity p (h + 1) - Z.of_nat k) <$> seq 0 (Z.to_nat (nMPoSRewardRecipients p - 1)).
Definition recipients (v : CChain) (h : Z) : option (list BlockScript) := mapM (recipient v) (recipient_heights h).

(** ** The invariant *)

(** Keys in the cache are no further apart than its range. *)
Definition narrow (m : gmap Z ScriptsElement) : Prop :=
  forall h h', h ∈ dom m -> h' ∈ dom m -> h - h' <= nCacheScripts p.

Record indexed (v : CChain) (d : database) : Prop := {
  ix_genesis : v <> [];
  ix_chain : forall h x, v !! h = Some x -> exists i b, x = Some i /\ s !! i = Some b /\ Chain.nHeight b = Z.of_nat h;
  ix_stake : forall h i b, v !! h = Some (Some i) -> s !! i = Some b -> 1 <= Z.of_nat h <= nLastMPoSBlock ->
    d !! stake_key (Z.of_nat h) = Some (enc (id_codec 20) (if Chain.IsProofOfStake b then staker_of i else 0%N));
  ix_delegate : forall h i b, v !! h = Some (Some i) -> s !! i = Some b -> 1 <= Z.of_nat h <= nLastMPoSBlock ->
    Chain.IsProofOfStake b = true -> Block.HasProofOfDelegation (header b) = true ->
    d !! delegate_key (Z.of_nat h) = Some (enc delegate_entry_codec (delegate_of i))
}.

Definition cached (m : gmap Z ScriptsElement) : Prop := narrow m /\ forall h e, m !! h = Some e ->
  exists b, s !! hash e = Some b /\ Chain.IsProofOfStake b = true /\ script e = script_of (hash e) b.

(** A block's entry is made of its header; heights leave room for the range of the cache;
    the first rewards shared are those of blocks with enough before them, as the
    parameters of the networks define it; addresses have 20 bytes. *)
Hypothesis index_headers : forall i b, s !! i = Some b -> Block.header (block_of i) = header b.
Hypothesis index_heights : forall i b, s !! i = Some b -> 0 <= Chain.nHeight b < 1073741824.
Hypothesis recipients_ok : 1 <= nMPoSRewardRecipients p <= 1000000.
Hypothesis first_ok : forall h, nFirstMPoSBlock <= h -> nMPoSRewardRecipients p - 1 <= h - CoinbaseMaturity p (h + 1).
Hypothesis maturity_ok : forall h, 0 <= CoinbaseMaturity p h < 1073741824.
Hypothesis key_ids : forall pk, valid (id_codec 20) (GetID pk).

Lemma cache_range : nCacheScripts p = Z.quot (nMPoSRewardRecipients p * 3) 2 /\ 0 <= nCacheScripts p <= 1500000.
Proof.
  unfold nCacheScripts. rewrite Z.quot_div_nonneg by lia.
  assert (0 <= nMPoSRewardRecipients p * 3 / 2 <= 1500000) by (split; [apply Z.div_pos; lia|apply Z.div_le_upper_bound; lia]).
  rewrite i32_id by (unfold in_i32; lia). lia.
Qed.

Lemma zero_id : valid (id_codec 20) 0%N.
Proof. done. Qed.

Lemma staker_valid i : valid (id_codec 20) (staker_of i).
Proof. unfold staker_of. repeat case_match; auto using zero_id. Qed.

Lemma delegation_valid b k a f w r w' : valid (id_codec 20) a -> 0 <= f < 256 ->
  GetBlockDelegation b k a f w = (Done r, w') -> valid delegate_entry_codec (r.1.2, r.2).
Proof.
  intros Ha Hf. assert (Hr : forall ok, (Done (ok, a, f), w) = (Done r, w') -> valid delegate_entry_codec (r.1.2, r.2)).
  { intros ok [= <- _]. split; [exact Ha|exact Hf]. }
  unfold GetBlockDelegation. case_match; [apply Hr|]. destruct (GetKeyIdMessage _ _) as [a'|] eqn:Ek; [|apply Hr].
  assert (Ha' : valid (id_codec 20) a').
  { unfold GetKeyIdMessage in Ek. destruct (RecoverCompact _ _); [|done]. injection Ek as <-. apply key_ids. }
  assert (Hr' : forall ok f' w0, 0 <= f' < 256 -> ret (ok, a', f') w0 = (Done r, w') -> valid delegate_entry_codec (r.1.2, r.2)).
  { intros ok f' w0 Hf' [= <- _]. split; [exact Ha'|exact Hf']. }
  destruct (GetDelegationFeeFromContract a' (globalState w)) as [inFee|]; [|by apply Hr'].
  unfold bind, follow. repeat case_match; simplify_eq; try done; try (eapply Hr'; done).
  all: eapply Hr'; apply Z.mod_pos_bound; lia.
Qed.

Lemma delegate_valid i : valid delegate_entry_codec (delegate_of i).
Proof.
  unfold delegate_of. destruct (GetBlockDelegation _ _ _ _ _) as [[[[ok a] f]| |] w] eqn:E; [|done..].
  by apply delegation_valid in E; [|apply zero_id|].
Qed.

(** What connecting a block writes. *)
Lemma write_spec i b d d' w : s !! i = Some b -> 0 <= Chain.nHeight b ->
  write_stake_indexes nLastMPoSBlock (block_of i) (Chain.nHeight b) d (world_of i) = (Done d', w) ->
  (forall h, h <> Chain.nHeight b -> 0 <= h < 1073741824 -> d' !! stake_key h = d !! stake_key h /\ d' !! delegate_key h = d !! delegate_key h) /\
  (Chain.nHeight b <= nLastMPoSBlock ->
   d' !! stake_key (Chain.nHeight b) = Some (enc (id_codec 20) (if Chain.IsProofOfStake b then staker_of i else 0%N)) /\
   (Chain.IsProofOfStake b = true -> Block.HasProofOfDelegation (header b) = true ->
    d' !! delegate_key (Chain.nHeight b) = Some (enc delegate_entry_codec (delegate_of i)))).
Proof.
  intros Hb H0b. pose proof (index_heights i b Hb) as Hh. unfold write_stake_indexes. rewrite (index_headers i b Hb).
  rewrite u32_id by (unfold in_u32; lia).
  assert (HN : forall k h, h <> Chain.nHeight b -> 0 <= h < 1073741824 -> k :: ser_writedata32 (Chain.nHeight b) <> k :: ser_writedata32 h).
  { intros k h Hne Hh' [= HE]. apply Hne. assert (E : le_value (le_bytes 4 (Chain.nHeight b)) = le_value (le_bytes 4 h)).
    { unfold ser_writedata32 in *. cbn [le_bytes]. congruence. }
    rewrite !le_value_bytes, !Z.mod_small in E by (change (256 ^ Z.of_nat 4) with 4294967296; lia). done. }
  assert (HK : forall h h', stake_key h <> delegate_key h') by done.
  destruct (Z.leb_spec (Chain.nHeight b) nLastMPoSBlock) as [Hle|Hgt]; [|by intros [= <- _]; split; [|lia]].
  change (Block.IsProofOfStake (header b)) with (Chain.IsProofOfStake b).
  destruct (Chain.IsProofOfStake b).
  2:{ intros [= <- _]. unfold WriteStakeIndex. split.
      - intros h Hne Hh'. rewrite !lookup_insert_ne; [done|done|by apply HN].
      - intros _. split; [|done]. apply lookup_insert_eq. }
  unfold bind at 1, follow at 1. destruct (GetBlockPublicKey (block_of i)) as [key|] eqn:EK; [|done].
  assert (ES : match key with Some vchPubKey => GetID vchPubKey | None => 0%N end = staker_of i) by (unfold staker_of; by rewrite EK).
  rewrite ES. unfold WriteStakeIndex, WriteDelegateIndex. destruct (Block.HasProofOfDelegation (header b)).
  - unfold bind at 1. destruct (GetBlockDelegation _ _ _ _ _) as [[[[ok a] f]| |] w0] eqn:ED; [|done..].
    intros [= <- _]. split.
    + intros h Hne Hh'. rewrite !lookup_insert_ne; try done; try by apply HN.
    + intros _. rewrite lookup_insert_ne, !lookup_insert_eq by done. split; [done|]. intros _ _. unfold delegate_of. by rewrite ED.
  - intros [= <- _]. split.
    + intros h Hne Hh'. rewrite !lookup_insert_ne; [done|done|by apply HN].
    + intros _. rewrite lookup_insert_eq. by split.
Qed.

(** ** Every step keeps the invariant *)

Lemma at_lookup (v : CChain) h i : at_ v h = Some i -> 0 <= h /\ v !! Z.to_nat h = Some (Some i).
Proof.
  unfold at_. destruct (Z.ltb_spec h 0); [done|]. destruct (Z.leb_spec (Z.of_nat (length v)) h); [done|]. cbn.
  destruct (v !! Z.to_nat h) as [x|] eqn:E; [|done]. cbn. unfold id. by intros ->.
Qed.

Lemma indexed_at v d h i : indexed v d -> at_ v h = Some i -> exists b, s !! i = Some b /\ Chain.nHeight b = h /\ 0 <= h < 1073741824 /\
  v !! Z.to_nat h = Some (Some i).
Proof.
  intros Hi [H0h Hl]%at_lookup. destruct (ix_chain _ _ Hi _ _ Hl) as (i' & b & [= <-] & Hb & Hh). exists b.
  pose proof (index_heights _ _ Hb). repeat split; try done; lia.
Qed.

Lemma indexed_snoc v d d' i b w : indexed v d -> s !! i = Some b -> Chain.nHeight b = Height v + 1 ->
  write_stake_indexes nLastMPoSBlock (block_of i) (Chain.nHeight b) d (world_of i) = (Done d', w) -> indexed (v ++ [Some i]) d' /\ indexed v d'.
Proof.
  intros Hi Hb Hh HW. assert (Hlen : Chain.nHeight b = Z.of_nat (length v)) by (unfold Height in Hh; lia).
  pose proof (index_heights _ _ Hb) as Hr. destruct (write_spec _ _ _ _ _ Hb ltac:(lia) HW) as [Hold Hnew].
  assert (Hv : indexed v d').
  { split; [apply (ix_genesis _ _ Hi)|apply (ix_chain _ _ Hi)|..].
    - intros h j c Hj Hc Hle. pose proof (lookup_lt_Some _ _ _ Hj). destruct (Hold (Z.of_nat h)) as [E _]; [lia..|]. etransitivity; [exact E|]. by eapply ix_stake.
    - intros h j c Hj Hc Hle. pose proof (lookup_lt_Some _ _ _ Hj). destruct (Hold (Z.of_nat h)) as [_ E]; [lia..|]. intros. etransitivity; [exact E|]. by eapply ix_delegate. }
  split; [|done].
  assert (HC : forall h x, (v ++ [Some i]) !! h = Some x -> v !! h = Some x \/ h = length v /\ x = Some i).
  { intros h x [?|[Hge Hx]]%lookup_app_Some; [by left|]. right. apply list_lookup_singleton_Some in Hx as [? <-]. split; [lia|done]. }
  split.
  - by destruct v.
  - intros h x [Hx|[-> ->]]%HC; [by apply (ix_chain _ _ Hi)|]. by exists i, b.
  - intros h j c [Hj|[-> [= ->]]]%HC Hc Hle; [by eapply (ix_stake _ _ Hv)|]. simplify_eq. rewrite <- Hlen in *. apply Hnew. lia.
  - intros h j c [Hj|[-> [= ->]]]%HC Hc Hle; [by eapply (ix_delegate _ _ Hv)|]. simplify_eq. rewrite <- Hlen in *. apply Hnew. lia.
Qed.

Lemma indexed_prefix v v' d : indexed (v ++ v') d -> v <> [] -> indexed v d.
Proof.
  intros Hi Hne. assert (HL : forall h x, v !! h = Some x -> (v ++ v') !! h = Some x) by (intros; by apply lookup_app_l_Some).
  split; [done|..]; intros; [eapply ix_chain|eapply ix_stake|eapply ix_delegate]; eauto.
Qed.

(** Nothing is erased from the indexes. *)
Lemma erase_spec v i b d : indexed (v ++ [Some i]) d -> v <> [] -> s !! i = Some b -> erase_stake_indexes nLastMPoSBlock b d = d.
Proof.
  intros Hi Hne Hb. assert (Hl : (v ++ [Some i]) !! length v = Some (Some i)) by apply list_lookup_middle, eq_refl.
  destruct (ix_chain _ _ Hi _ _ Hl) as (i' & b' & [= <-] & Hb' & Hh). simplify_eq.
  unfold erase_stake_indexes. destruct (Z.leb_spec (Chain.nHeight b) nLastMPoSBlock); [|done].
  rewrite stake_index_kept, Hh, u32_id by (pose proof (index_heights _ _ Hb); unfold in_u32; lia).
  destruct (Chain.IsProofOfStake b) eqn:Ep; [|done]. cbn [andb]. destruct (Block.HasProofOfDelegation (header b)) eqn:Ed; [|done].
  eapply delegate_index_kept. eapply ix_delegate; eauto. destruct v; [done|]. cbn [length] in *. lia.
Qed.

Lemma cached_empty : cached ∅.
Proof. split; [intros h h'; by rewrite dom_empty|]. intros h e. by rewrite lookup_empty. Qed.

Lemma clean_lookup h v m k e : CleanScriptCache p h v m !! k = Some e <->
  m !! k = Some e /\ NeedToEraseScriptFromCache h (nCacheScripts p) k e v = false.
Proof. unfold CleanScriptCache. by rewrite map_lookup_filter_Some. Qed.

Lemma cached_clean h v m : cached m -> cached (CleanScriptCache p h v m).
Proof.
  intros [Hn Hc]. split.
  - intros k k' [e [He _]%clean_lookup]%elem_of_dom [e' [He' _]%clean_lookup]%elem_of_dom. apply Hn; by apply elem_of_dom.
  - intros k e [He _]%clean_lookup. eauto.
Qed.

Lemma clean_range h v m k : 0 <= h < 1073741824 -> k ∈ dom (CleanScriptCache p h v m) -> Z.abs (h - k) <= nCacheScripts p.
Proof.
  intros Hh [e [_ He]%clean_lookup]%elem_of_dom. destruct cache_range as [_ HN]. unfold NeedToEraseScriptFromCache in He.
  rewrite !i32_id in He by (unfold in_i32; lia).
  destruct (Z.ltb_spec k (h - nCacheScripts p)); [done|]. destruct (Z.ltb_spec (h + nCacheScripts p) k); [done|]. lia.
Qed.

Lemma cached_add i b h v m : cached m -> 0 <= h < 1073741824 -> s !! i = Some b -> Chain.IsProofOfStake b = true ->
  cached (AddToScriptCache p (script_of i b) i h v m).
Proof.
  intros Hm Hh Hb Hp. unfold AddToScriptCache. pose proof (cached_clean h v m Hm) as [Hn Hc].
  destruct (CleanScriptCache p h v m !! h) as [e|] eqn:E; [by split|]. split.
  - assert (HR : forall k, k ∈ dom (CleanScriptCache p h v m) -> Z.abs (h - k) <= nCacheScripts p) by (intros k; by apply clean_range).
    destruct cache_range as [_ HN]. intros k k'. rewrite dom_insert, !elem_of_union, !elem_of_singleton.
    intros [->|Hk] [->|Hk']; [lia|..]; [pose proof (HR _ Hk')|pose proof (HR _ Hk)|by apply Hn]; lia.
  - intros k e [[<- <-]|[_ He]]%lookup_insert_Some; [by exists b|eauto].
Qed.

Lemma add_script_spec v d m l h : indexed v d -> cached m -> 1 <= h <= nLastMPoSBlock ->
  exists m', cached m' /\ AddMPoSScript p MineBlocksOnDemand s v d l h m =
    Some (match recipient v h with Some x => (true, l ++ [x]) | None => (false, l) end, m').
Proof.
  intros Hi Hm Hle. unfold AddMPoSScript, recipient. destruct (at_ v h) as [i|] eqn:Ei; [|by exists m].
  destruct (indexed_at _ _ _ _ Hi Ei) as (b & Hb & Hh & Hr & Hl). cbn. rewrite Hb. cbn.
  unfold ReadFromScriptCache. pose proof (cached_clean h v m Hm) as Hm'.
  assert (HI : Z.of_nat (Z.to_nat h) = h) by lia.
  assert (HS : ReadStakeIndex (u32 h) 0 d = Some (if Chain.IsProofOfStake b then staker_of i else 0%N)).
  { rewrite u32_id by (unfold in_u32; lia). apply stake_index_read.
    - destruct (Chain.IsProofOfStake b); auto using staker_valid, zero_id.
    - rewrite <- HI at 1. eapply ix_stake; eauto. lia. }
  assert (HM : exists m', cached m' /\
    match ReadStakeIndex (u32 h) 0 d with
    | None => Some (false, l, CleanScriptCache p h v m)
    | Some stakeAddress =>
        if Chain.IsProofOfStake b then
          if Block.HasProofOfDelegation (header b) then
            match ReadDelegateIndex (u32 h) d with
            | None => Some (false, l, CleanScriptCache p h v m)
            | Some (delegateAddress, fee) =>
                Some (true, l ++ [mkBlockScript (reward_script stakeAddress) (reward_script delegateAddress) fee true],
                  AddToScriptCache p (mkBlockScript (reward_script stakeAddress) (reward_script delegateAddress) fee true) i h v (CleanScriptCache p h v m))
            end
          else Some (true, l ++ [BlockScript_of (reward_script stakeAddress)],
                 AddToScriptCache p (BlockScript_of (reward_script stakeAddress)) i h v (CleanScriptCache p h v m))
        else if MineBlocksOnDemand then Some (true, l ++ [BlockScript_of [Script.OP_RETURN]], CleanScriptCache p h v m)
        else Some (false, l, CleanScriptCache p h v m)
    end = Some (match (if Chain.IsProofOfStake b then Some (script_of i b)
       else if MineBlocksOnDemand then Some (BlockScript_of [Script.OP_RETURN]) else None) with Some x => (true, l ++ [x]) | None => (false, l) end, m')).
  { rewrite HS. destruct (Chain.IsProofOfStake b) eqn:Ep; [|destruct MineBlocksOnDemand; eauto].
    pose proof (cached_add i b h v _ Hm' Hr Hb Ep) as HA. unfold script_of in *.
    destruct (Block.HasProofOfDelegation (header b)) eqn:Ed; [|eauto].
    rewrite (delegate_index_read (u32 h) (delegate_of i)); [by destruct (delegate_of i); eauto|apply delegate_valid|].
    rewrite u32_id by (unfold in_u32; lia). rewrite <- HI at 1. eapply ix_delegate; eauto. lia. }
  destruct (CleanScriptCache p h v m !! h) as [e|] eqn:Ee; [|exact HM].
  destruct (N.eqb_spec (hash e) i) as [He|]; [|exact HM].
  destruct Hm' as [_ HC]. destruct (HC _ _ Ee) as (b' & Hb' & Hp' & Hs'). rewrite He in *. simplify_eq. rewrite Hp', Hs'.
  eexists. split; [by apply cached_clean|done].
Qed.

Lemma scripts_loop_false v d fuel h i l m : scripts_loop p MineBlocksOnDemand s v d fuel h i (false, l, m) = Some (false, l, m).
Proof. destruct fuel; [done|]. cbn. by rewrite andb_false_r. Qed.

Lemma scripts_loop_spec v d h n : indexed v d -> -1073741824 < h < 1073741824 -> nMPoSRewardRecipients p - 1 <= h <= nLastMPoSBlock -> forall fuel i l m,
  cached m -> (n <= fuel)%nat -> Z.of_nat (i + n) = nMPoSRewardRecipients p - 1 ->
  exists r l' m', scripts_loop p MineBlocksOnDemand s v d fuel h (Z.of_nat i) (true, l, m) = Some (r, l', m') /\ cached m' /\
    match mapM (recipient v) ((fun k => h - Z.of_nat k) <$> seq i n) with
    | Some xs => r = true /\ l' = l ++ xs
    | None => r = false
    end.
Proof.
  intros Hi Hh Hle. induction n as [|n IH]; intros fuel i l m Hm Hf Hn.
  { exists true, l, m. cbn. rewrite app_nil_r. split; [|done]. destruct fuel; [done|]. cbn.
    by rewrite (proj2 (Z.ltb_ge _ _)) by lia. }
  destruct fuel as [|fuel]; [lia|]. cbn [scripts_loop]. rewrite (proj2 (Z.ltb_lt _ _)) by lia. cbn [andb].
  rewrite i32_id by (unfold in_i32; lia).
  destruct (add_script_spec v d m l (h - Z.of_nat i) Hi Hm ltac:(lia)) as (m' & Hm' & ->). cbn [mbind option_bind].
  cbn [seq fmap list_fmap mapM]. destruct (recipient v (h - Z.of_nat i)) as [x|]; cbn [mbind option_bind].
  2:{ exists false, l, m'. by rewrite scripts_loop_false. }
  replace (Z.of_nat i + 1) with (Z.of_nat (S i)) by lia.
  destruct (IH fuel (S i) (l ++ [x]) m' Hm') as (r & l' & m'' & -> & Hm'' & HR); [lia..|].
  exists r, l', m''. split; [done|]. split; [done|].
  change (list_fmap nat Z (fun k => h - Z.of_nat k) (seq (S i) n)) with ((fun k => h - Z.of_nat k) <$> seq (S i) n).
  destruct (mapM (recipient v) _) as [xs|]; cbn; [|done]. destruct HR as [-> ->]. by rewrite <- app_assoc.
Qed.

(** The outputs of a reward are those of the recipients the chain has. *)
Lemma outputs_spec v d m nRewardPiece h : indexed v d -> cached m -> 0 <= h < 1073741824 -> 0 <= CoinbaseMaturity p (h + 1) < 1073741824 ->
  nMPoSRewardRecipients p - 1 <= h - CoinbaseMaturity p (h + 1) <= nLastMPoSBlock ->
  exists m', cached m' /\ GetMPoSOutputs p MineBlocksOnDemand s v d [] nRewardPiece h m =
    Some (match recipients v h with Some l => outputs_loop nRewardPiece l [] | None => (false, []) end, m').
Proof.
  intros Hi Hm Hh Hmat Hle. unfold GetMPoSOutputs, GetMPoSOutputScripts.
  rewrite (i32_id (h + 1)), i32_id by (unfold in_i32; lia). set (h0 := h - CoinbaseMaturity p (h + 1)) in *.
  destruct (scripts_loop_spec v d h0 (Z.to_nat (nMPoSRewardRecipients p - 1)) Hi) with (fuel := Z.to_nat (nMPoSRewardRecipients p)) (i := 0%nat) (l := @nil BlockScript) (m := m)
    as (r & l' & m' & HL & Hm' & HR); [lia|lia|done|lia|lia|].
  change (Z.of_nat 0) with 0 in HL. rewrite HL. cbn [mbind option_bind]. exists m'. split; [done|].
  unfold recipients, recipient_heights. fold h0. destruct (mapM (recipient v) _) as [xs|]; [destruct HR as [-> ->]|subst r]; done.
Qed.

Definition node_ok (n : node) : Prop := indexed (m_chain n) (block_tree_db n) /\ cached (scriptsMap n).

Lemma indexed_height v d : indexed v d -> 0 <= Height v < 1073741824.
Proof.
  intros Hi. pose proof (ix_genesis _ _ Hi) as Hne. unfold Height. assert (0 < length v)%nat by (destruct v; [done|cbn; lia]).
  destruct (lookup_lt_is_Some_2 v (length v - 1)) as [x Hx]; [lia|].
  destruct (ix_chain _ _ Hi _ _ Hx) as (i & b & -> & Hb & Hh). pose proof (index_heights _ _ Hb). lia.
Qed.

Lemma reward_spec v d m nRewardPiece : indexed v d -> cached m -> nFirstMPoSBlock <= Height v < nLastMPoSBlock ->
  exists m', cached m' /\ GetMPoSOutputs p MineBlocksOnDemand s v d [] nRewardPiece (Height v) m =
    Some (match recipients v (Height v) with Some l => outputs_loop nRewardPiece l [] | None => (false, []) end, m').
Proof.
  intros Hi Hm Hr. pose proof (indexed_height _ _ Hi). pose proof (maturity_ok (Height v + 1)). pose proof (first_ok (Height v) ltac:(lia)).
  apply outputs_spec; try done; lia.
Qed.

Lemma node_step_ok n n' : node_ok n -> step n n' -> node_ok n'.
Proof.
  intros [Hi Hm] HS. destruct HS; cbn [m_chain block_tree_db scriptsMap] in *; split; cbn [m_chain block_tree_db scriptsMap]; try apply cached_empty; try done.
  - eapply proj1, indexed_snoc; eauto.
  - rewrite (erase_spec _ _ _ _ Hi) by done. by eapply indexed_prefix.
  - destruct (reward_spec v d m nRewardPiece Hi Hm) as (m2 & Hm2 & E); [done|]. by rewrite E in *; simplify_eq.
  - eapply proj2, indexed_snoc; eauto.
  - by eapply indexed_prefix.
Qed.

Lemma reachable_node_ok n : reachable n -> node_ok n.
Proof.
  intros (g & b & d & Hg & Hz & HR). assert (H0n : node_ok (mkNode [Some g] d ∅)).
  { split; [|apply cached_empty]. cbn.
    assert (HC : forall h x, [Some g] !! h = Some x -> h = 0%nat /\ x = Some g) by (intros h x Hx; apply list_lookup_singleton_Some in Hx as [? <-]; done).
    split; [done|..].
    - intros h x [-> ->]%HC. by exists g, b.
    - intros h i c [-> _]%HC. lia.
    - intros h i c [-> _]%HC. lia. }
  induction HR as [|n n1 n2 HS _ IH]; [done|]. eauto using node_step_ok.
Qed.

Lemma narrow_size m : narrow m -> Z.of_nat (size m) <= nCacheScripts p + 1.
Proof.
  intros Hn. destruct cache_range as [_ HN]. destruct (decide (dom m ≡@{gset Z} ∅)) as [He|Hne].
  { apply (dom_empty_inv (D := gset Z)) in He as ->. rewrite map_size_empty. lia. }
  destruct (minimal_exists_elem_of Z.le (dom m : gset Z) Hne) as (lo & Hlo & Hmin).
  rewrite <- size_dom. transitivity (Z.of_nat (size (list_to_set (seqZ lo (nCacheScripts p + 1)) : gset Z))).
  - apply Nat2Z.inj_le, subseteq_size. intros k Hk. apply elem_of_list_to_set, elem_of_seqZ.
    pose proof (Hn _ _ Hk Hlo). destruct (Z.le_gt_cases lo k); [lia|]. pose proof (Hmin k Hk ltac:(lia)). lia.
  - rewrite size_list_to_set by apply NoDup_seqZ. rewrite length_seqZ. lia.
Qed.

(** The cache of reward scripts is bounded: whatever blocks are connected, disconnected
    and rewarded, in any order and across restarts, it never holds more than
    [nCacheScripts + 1] scripts, 16 for ten recipients, and their heights are within
    [nCacheScripts] of each other. *)
Theorem script_cache_bounded n : reachable n ->
  Z.of_nat (size (scriptsMap n)) <= nCacheScripts p + 1 /\
  forall h h', h ∈ dom (scriptsMap n) -> h' ∈ dom (scriptsMap n) -> h - h' <= nCacheScripts p.
Proof. intros [_ [Hn _]]%reachable_node_ok. split; [by apply narrow_size|exact Hn]. Qed.

(** ** The shares add up *)

Definition value_sum (l : list CTxOut) : Z := foldr (fun o z => nValue o + z) 0 l.

Lemma value_sum_app l l' : value_sum (l ++ l') = value_sum l + value_sum l'.
Proof. induction l as [|o l IH]; [done|]. cbn. fold (value_sum (l ++ l')) (value_sum l). lia. Qed.

Definition fees_ok (l : list BlockScript) : Prop := Forall (fun x => hasDelegate x = true -> 0 <= fee x <= 100) l.

Lemma split_spec piece f : 0 <= piece <= MAX_MONEY -> 0 <= f <= 100 ->
  exists a b, SplitOfflineStakeReward piece f = Some (a, b) /\ a + b = piece /\ 0 <= a /\ 0 <= b /\ (IsDelegateOutputExist f = false -> a = 0).
Proof.
  intros Hp Hf. replace MAX_MONEY with 10782240625000000 in * by reflexivity. unfold SplitOfflineStakeReward.
  rewrite (proj2 (Z.ltb_ge _ _)) by lia. rewrite (i64_id (piece * f)) by (unfold in_i64; nia). rewrite Z.quot_div_nonneg by nia.
  assert (0 <= piece * f / 100 <= piece) by (split; [apply Z.div_pos; nia|apply Z.div_le_upper_bound; nia]).
  rewrite i64_id by (unfold in_i64; lia). do 2 eexists. split; [done|]. split_and!; try lia.
  unfold IsDelegateOutputExist. rewrite andb_false_iff, Z.leb_gt, Z.ltb_ge. intros Hx. assert (f = 100) as -> by lia.
  rewrite Z.div_mul by lia. lia.
Qed.

Lemma outputs_loop_spec piece l : 0 <= piece <= MAX_MONEY -> fees_ok l -> forall acc, exists outs,
  outputs_loop piece l acc = (true, acc ++ outs) /\ value_sum outs = piece * Z.of_nat (length l) /\ Forall (fun o => 0 <= nValue o) outs.
Proof.
  intros Hp. induction 1 as [|x l Hx _ IH]; intros acc; [exists []; rewrite app_nil_r; cbn; split_and!; [done|lia|constructor]|].
  cbn [outputs_loop length]. destruct (hasDelegate x).
  - destruct (split_spec piece (fee x) Hp (Hx eq_refl)) as (a & b & -> & Hab & Ha & Hb & Hz).
    destruct (IsDelegateOutputExist (fee x)).
    + destruct (IH ((acc ++ [mkTxOut b (stakerScript x)]) ++ [mkTxOut a (delegateScript x)])) as (outs & -> & HS & HF).
      exists (mkTxOut b (stakerScript x) :: mkTxOut a (delegateScript x) :: outs). rewrite <- !app_assoc. cbn. fold (value_sum outs).
      split_and!; [done|lia|by repeat constructor].
    + destruct (IH (acc ++ [mkTxOut b (stakerScript x)])) as (outs & -> & HS & HF). specialize (Hz eq_refl).
      exists (mkTxOut b (stakerScript x) :: outs). rewrite <- !app_assoc. cbn. fold (value_sum outs).
      split_and!; [done|lia|by repeat constructor].
  - destruct (IH (acc ++ [mkTxOut piece (stakerScript x)])) as (outs & -> & HS & HF).
    exists (mkTxOut piece (stakerScript x) :: outs). rewrite <- !app_assoc. cbn. fold (value_sum outs).
    split_and!; [done|lia|constructor; [cbn; lia|done]].
Qed.

(** C16: The outputs of a shared reward are a function of the active chain alone.  In every
    state the node can reach, through reorganisations, lost writes and restarts, the
    scripts that [GetMPoSOutputs] takes from its cache and from the indexes of the
    database are those of the stakers (and delegates) of the blocks that have just
    matured; it fails only when one of them is not proof of stake, or a fee is above 100;
    and otherwise the outputs are not negative and add up to a piece for each recipient.
    The indexes are never erased when blocks are disconnected, which does no harm: the
    record of every block of the active chain has been written by its own connection. *)
Theorem mpos_rewards_refine_chain n nRewardPiece : reachable n -> nFirstMPoSBlock <= Height (m_chain n) < nLastMPoSBlock ->
  exists ok outs m',
    GetMPoSOutputs p MineBlocksOnDemand s (m_chain n) (block_tree_db n) [] nRewardPiece (Height (m_chain n)) (scriptsMap n) = Some (ok, outs, m') /\
    match recipients (m_chain n) (Height (m_chain n)) with
    | None => ok = false
    | Some l =>
        (ok, outs) = outputs_loop nRewardPiece l [] /\
        (0 <= nRewardPiece <= MAX_MONEY -> fees_ok l ->
         ok = true /\ value_sum outs = nRewardPiece * (nMPoSRewardRecipients p - 1) /\ Forall (fun o => 0 <= nValue o) outs)
    end.
Proof.
  intros [Hi Hm]%reachable_node_ok Hr. destruct (reward_spec _ _ _ nRewardPiece Hi Hm Hr) as (m' & _ & ->).
  destruct (recipients (m_chain n) (Height (m_chain n))) as [l|] eqn:EL; [|by exists false, [], m'].
  destruct (outputs_loop nRewardPiece l []) as [ok outs] eqn:EO. exists ok, outs, m'. split; [done|]. split; [done|].
  intros Hp Hf. destruct (outputs_loop_spec nRewardPiece l Hp Hf []) as (outs' & E & HS & HF).
  rewrite EO in E. injection E as -> ->. split; [done|]. split; [|done].
  cbn in *. rewrite HS. f_equal. apply mapM_Some_1, Forall2_length in EL. unfold recipient_heights in EL.
  rewrite length_fmap, length_seq in EL. lia.
Qed.
End System.

(** ** The fee of a delegation is not recorded *)

Section Fee.
Context {K : Crypto} {Rc : Recovery} {V G : Type} `{CCoinsView V} `{!CCoinsViewLaws V} `{DelegationContract G}.

Lemma unspent_none_value x : unspent x = None -> nValue (out x) = -1.
Proof. unfold unspent, IsSpent, CTxOut_IsNull. destruct (Z.eqb_spec (nValue (out x)) (-1)); [done|]. done. Qed.

(** When the stake is spent in the view no fee is found. *)
Lemma spent_stake_fee b k a w r w' : cache_ok (view w) ->
  (forall tx i, Block.vtx b !! 1%nat = Some tx -> vin tx !! 0%nat = Some i -> coins (view w) (prevout i) = None) ->
  GetBlockDelegation b k a 0 w = (Done r, w') -> r.1.1 = false /\ r.2 = 0.
Proof.
  intros Hc Hs. unfold GetBlockDelegation. case_match; [by intros [= <- _]|].
  destruct (GetKeyIdMessage _ _) as [a'|]; [|by intros [= <- _]].
  destruct (GetDelegationFeeFromContract _ _); [|by intros [= <- _]]. unfold bind, follow, ret.
  destruct (Block.vtx b !! 1%nat) as [tx|] eqn:Et; [|done]. destruct ((length (vin tx) <? 1)%nat || _); [by intros [= <- _]|].
  destruct (vin tx !! 0%nat) as [i|] eqn:Ei; [|done].
  destruct (AccessCoin_spec (prevout i) (view w) Hc) as (x & c' & -> & _ & _ & Hx).
  rewrite (Hs tx i eq_refl Ei) in Hx. rewrite (unspent_none_value x Hx). by intros [= <- _].
Qed.

(** The delegation fee never reaches the delegate index.  Connecting a delegated
    proof-of-stake block records its delegate after the block's transactions have spent
    the stake in the view, where [GetBlockDelegation] looks for the stake's value: it
    fails, its result is ignored, and the fee recorded is 0 whatever the delegation says.
    The staker of the block then gets nothing of the shared rewards and the delegate the
    whole piece. *)
Theorem delegate_fee_not_recorded nLastMPoSBlock (b : Block.CBlock) h d (w : world V G) d' w' piece ss ds : cache_ok (view w) ->
  (forall tx i, Block.vtx b !! 1%nat = Some tx -> vin tx !! 0%nat = Some i -> coins (view w) (prevout i) = None) ->
  (forall pk, valid (id_codec 20) (GetID pk)) -> Block.IsProofOfStake (Block.header b) = true -> Block.HasProofOfDelegation (Block.header b) = true ->
  0 <= h <= nLastMPoSBlock -> write_stake_indexes nLastMPoSBlock b h d w = (Done d', w') -> 0 <= piece <= MAX_MONEY ->
  exists a, ReadDelegateIndex (u32 h) d' = Some (a, 0) /\
    outputs_loop piece [mkBlockScript ss ds 0 true] [] = (true, [mkTxOut 0 ss; mkTxOut piece ds]).
Proof.
  intros Hc Hs Hid Hp Hd Hh HW Hm. unfold write_stake_indexes in HW. rewrite (proj2 (Z.leb_le _ _)), Hp, Hd in HW by lia.
  unfold bind, follow in HW. destruct (GetBlockPublicKey b) as [key|]; [|done].
  destruct (GetBlockDelegation _ _ _ _ _) as [[[[ok a] f]| |] w0] eqn:ED; [|done..]. injection HW as <- _.
  pose proof (delegation_valid Hid _ _ _ 0 _ _ _ zero_id ltac:(lia) ED) as Hv.
  destruct (spent_stake_fee _ _ _ _ _ _ Hc Hs ED) as [_ Hf]. cbn in Hf, Hv. subst f. exists a. split.
  - apply delegate_index_read; [done|]. apply lookup_insert_eq.
  - cbn [outputs_loop hasDelegate fee]. destruct (split_spec piece 0 Hm ltac:(lia)) as (x & y & E & _).
    unfold SplitOfflineStakeReward in *. cbn [Z.ltb Z.compare] in *. rewrite Z.mul_0_r in *.
    change (Z.quot (i64 0) 100) with 0 in *. rewrite Z.sub_0_r, i64_id in *; [done|..].
    all: replace MAX_MONEY with 10782240625000000 in Hm by reflexivity; unfold in_i64; lia.
Qed.
End Fee.

(** ** A chain of proof-of-stake blocks *)

(** Key ids of 20 bytes. *)
Definition short_ids : Crypto := {|
  CKey := Z; GetPubKey := fun k => [k];
  GetID := fun pk => Z.to_N (le_value pk mod 2 ^ 160);
  Hash256 := fun l => Z.to_N (le_value (l ++ [1]));
  SignHash := fun k h => Some [k; Z.of_N h];
  VerifyHash := fun pk h sig => bool_decide (sig = pk ++ [Z.of_N h])
|}.
#[local] Existing Instances short_ids toy_recovery toy_contract.
#[local] Instance stake_view : CCoinsView CCoinsViewDB := CCoinsViewDB_view two_changes.
#[local] Instance stake_laws : CCoinsViewLaws CCoinsViewDB := CCoinsViewDB_laws two_changes.

Lemma short_ids_ok pk : valid (id_codec 20) (@GetID short_ids pk).
Proof.
  pose proof (Z.mod_pos_bound (le_value pk) (2 ^ 160) ltac:(lia)) as Hb.
  change (Z.of_N (Z.to_N (le_value pk mod 2 ^ 160)) < 2 ^ 160). rewrite Z2N.id; lia.
Qed.

Definition stake_key_script : list Z := 33 :: 2 :: replicate 32 5 ++ [Script.OP_CHECKSIG].
Definition stake_header (sig : list Z) : CBlockHeader := mkHeader 1 0 0 1000 0 0 0 0 wit_own sig.
Definition stake_tx : CTransaction := mkTransaction [mkTxIn wit_own [] 0 []] [mkTxOut 0 []; mkTxOut (200 * COIN) stake_key_script] 2 0.
Definition stake_block (sig : list Z) : Block.CBlock := Block.mkBlock (stake_header sig) [sample_coinbase; stake_tx].

Definition chain_size : nat := 13.
Definition stake_index (h : nat) : CBlockIndex :=
  mkIndex (stake_header [1]) (if (h =? 0)%nat then None else Some (N.of_nat (h - 1))) None (Z.of_nat h) [] 0 0 0.
Definition stake_map : BlockMap := list_to_map ((fun h => (N.of_nat h, stake_index h)) <$> seq 0 chain_size).
Definition stake_chain (n : nat) : CChain := (fun h => Some (N.of_nat h)) <$> seq 0 n.

Lemma stake_chain_S n : stake_chain (S n) = stake_chain n ++ [Some (N.of_nat n)].
Proof. unfold stake_chain. by rewrite seq_S, fmap_app. Qed.

Lemma stake_map_lookup i b : stake_map !! i = Some b <-> (N.to_nat i < chain_size)%nat /\ b = stake_index (N.to_nat i).
Proof.
  unfold stake_map. rewrite <- elem_of_list_to_map.
  2:{ rewrite <- list_fmap_compose. apply NoDup_fmap_2; [|apply NoDup_seq]. intros x y. cbn. lia. }
  rewrite list_elem_of_fmap. setoid_rewrite elem_of_seq. split.
  - intros (h & [= -> ->] & Hh). rewrite Nat2N.id. split; [lia|done].
  - intros [Hi ->]. exists (N.to_nat i). rewrite N2Nat.id. split; [done|]. lia.
Qed.

#[local] Abbreviation sys := (reachable (K := short_ids) wit_params 11 100 false stake_map (fun _ => stake_block [1]) (fun _ => wit_world)).

Lemma stake_chain_reachable n : (n < chain_size)%nat -> exists d, sys (mkNode (stake_chain (S n)) d ∅).
Proof.
  induction n as [|n IH]; intros Hn.
  { exists ∅, 0%N, (stake_index 0), ∅. split; [by apply stake_map_lookup|]. split; [done|]. apply rtc_refl. }
  destruct (IH ltac:(lia)) as (d & g & b & d0 & Hg & Hb & HR). eexists. exists g, b, d0. split; [done|]. split; [done|].
  eapply rtc_r; [exact HR|].
  rewrite (stake_chain_S (S n)). apply (step_connect _ _ _ _ _ _ _ (N.of_nat (S n)) (stake_index (S n)) _ _ _ _ wit_world).
  - apply stake_map_lookup. rewrite Nat2N.id. split; [lia|done].
  - unfold Tip. rewrite stake_chain_S, last_snoc. cbn. do 2 f_equal. lia.
  - unfold Height, stake_chain. rewrite length_fmap, length_seq. cbn [Chain.nHeight stake_index]. lia.
  - unfold write_stake_indexes. cbn [Chain.nHeight stake_index].
    rewrite (proj2 (Z.leb_le _ _)) by (unfold chain_size in Hn; lia). reflexivity.
Qed.

Lemma mpos_rewards_refine_chain_witness :
  exists n outs m', GetMPoSOutputs wit_params false stake_map (m_chain n) (block_tree_db n) [] 1000 (Height (m_chain n)) (scriptsMap n) = Some (true, outs, m') /\
    value_sum outs = 9000.
Proof.
  destruct (stake_chain_reachable 12 ltac:(unfold chain_size; lia)) as [d HR].
  destruct (mpos_rewards_refine_chain wit_params 11 100 false stake_map (fun _ => stake_block [1]) (fun _ => wit_world)) with (n := mkNode (stake_chain 13) d ∅) (nRewardPiece := 1000) as (ok & outs & m' & HG & HL).
  - intros i b [_ ->]%stake_map_lookup. done.
  - intros i b [Hi ->]%stake_map_lookup. cbn. unfold chain_size in Hi. lia.
  - by vm_compute.
  - intros h Hh. change (10 - 1 <= h - (if h + 1 <? 0 then 2 else 2)). destruct (h + 1 <? 0); lia.
  - intros h. unfold CoinbaseMaturity. case_match; by vm_compute.
  - apply short_ids_ok.
  - exact HR.
  - by vm_compute.
  - exists (mkNode (stake_chain 13) d ∅), outs, m'.
    assert (EL : recipients wit_params false stake_map (fun _ => stake_block [1]) (fun _ => wit_world) (stake_chain 13) (Height (stake_chain 13)) =
      Some (replicate 9 (BlockScript_of (reward_script (GetID (2 :: replicate 32 5)))))) by (vm_compute; reflexivity).
    cbn [m_chain] in HL. rewrite EL in HL. destruct HL as [_ HL]. destruct HL as (-> & HS & _); [vm_compute; split; discriminate| |by split].
    repeat constructor; by intros [=].
Defined.

Lemma script_cache_bounded_witness : exists n, m_chain n = stake_chain 13 /\ Z.of_nat (size (scriptsMap n)) <= 16.
Proof.
  destruct (stake_chain_reachable 12 ltac:(unfold chain_size; lia)) as [d HR]. exists (mkNode (stake_chain 13) d ∅). split; [done|].
  destruct (script_cache_bounded wit_params 11 100 false stake_map (fun _ => stake_block [1]) (fun _ => wit_world)) with (n := mkNode (stake_chain 13) d ∅) as [HB _].
  - intros i b [_ ->]%stake_map_lookup. done.
  - intros i b [Hi ->]%stake_map_lookup. cbn. unfold chain_size in Hi. lia.
  - by vm_compute.
  - intros h Hh. change (10 - 1 <= h - (if h + 1 <? 0 then 2 else 2)). destruct (h + 1 <? 0); lia.
  - intros h. unfold CoinbaseMaturity. case_match; by vm_compute.
  - apply short_ids_ok.
  - exact HR.
  - exact HB.
Defined.

(** A delegated block whose stake is not in the view *)
Lemma delegate_fee_not_recorded_witness : exists a d',
  (write_stake_indexes (K := short_ids) 100 (stake_block (replicate 130 7)) 5 ∅ (mkWorld (new_cache (mkDB ∅ (Some 7%N) None)) (∅ : gmap N Delegation))).1 = Done d' /\
  ReadDelegateIndex 5 d' = Some (a, 0).
Proof.
  set (w := mkWorld (new_cache (mkDB ∅ (Some 7%N) None)) (∅ : gmap N Delegation)).
  destruct (write_stake_indexes (K := short_ids) 100 (stake_block (replicate 130 7)) 5 ∅ w) as [[d'| |] w'] eqn:E; [|by vm_compute in E..].
  destruct (delegate_fee_not_recorded (K := short_ids) 100 (stake_block (replicate 130 7)) 5 ∅ w d' w' 10 [] []) as (a & HR & _).
  - apply new_cache_ok. split; [|done]. intros o x Hx. cbn in Hx. by rewrite lookup_empty in Hx.
  - intros tx i _ _. done.
  - apply short_ids_ok.
  - reflexivity.
  - reflexivity.
  - lia.
  - exact E.
  - clear. vm_compute. split; discriminate.
  - exists a, d'. split; [done|]. exact HR.
Defined.

End Mpos.
