(* ===== verification/Tiers.v ===== *)
(** * Trust tiers in proof of stake (the end of pos.cpp)

    The minimum stake, the tier of a staker and the reward it multiplies, and
    [CheckTieredProofOfStake], which composes the view of coins (Coins.v), the
    destinations of scripts (Address.v) and the registered validators (Trust.v). *)

From stdpp Require Import gmap list strings.
From Stdlib Require Import ZArith Lia.
From S2P Require Import Prelude Params Serialize Crypto Script OutPoint Transaction Coins ArithUint256 Chain PeerDiscovery Trust Address Pos.

Open Scope Z_scope.

Module Tiers.
Import Transaction.Transaction Coins.Coins Address.Address Pos.Pos.
#[local] Open Scope stake_scope.

Section Tiers.
Context {A : NetAddress} {K : Crypto} {V G : Type} `{CCoinsView V}.

Definition CheckMinimumValidatorStake (nStakeAmount : Z) (params : Params) : bool := nMinValidatorStake params <=? nStakeAmount.

(** [tp] are the parameters the manager was made with. *)
Definition CheckValidatorTrustTier (tp : Params) (validatorId : N) (trustManager : TrustScoreManager) : bool :=
  negb (bool_decide (GetValidatorTier tp validatorId trustManager = NONE)).

Definition GetStakerTrustTier (tp : Params) (scriptPubKey : list Z) (trustManager : TrustScoreManager) : TrustTier :=
  match ExtractDestination scriptPubKey false with
  | (_, _, false) => NONE
  | (_, PKHash keyId, true) => GetValidatorTier tp keyId trustManager
  | (_, _, true) => NONE
  end.

Definition GetTierRewardMultiplier (tier : TrustTier) (params : Params) : Z :=
  match tier with
  | PLATINUM => nPlatinumRewardMultiplier params
  | GOLD => nGoldRewardMultiplier params
  | SILVER => nSilverRewardMultiplier params
  | BRONZE => nBronzeRewardMultiplier params
  | NONE => 0
  end.

Definition CalculateTieredBlockReward (nBaseReward : Z) (tier : TrustTier) (params : Params) : Z :=
  Z.quot (i64 (nBaseReward * GetTierRewardMultiplier tier params)) 100.

Definition IsTrustTierActive (nHeight : Z) (params : Params) : bool := nTrustTierActivationHeight params <=? nHeight.

Definition CheckTieredProofOfStake (params tp : Params) (pindexPrev : CBlockIndex) (tx : CTransaction) (trustManager : TrustScoreManager) : M V G unit :=
  if negb (IsCoinStake tx) then invalid "not-coinstake"
  else if negb (IsTrustTierActive (i32 (Chain.nHeight pindexPrev + 1)) params) then ret tt
  else
    let* txin := follow (vin tx !! 0%nat) in
    let* coin := ViewGetCoin (prevout txin) in
    match coin with
    | None => invalid "stake-coin-not-found"
    | Some coinPrev =>
        if negb (CheckMinimumValidatorStake (nValue (out coinPrev)) params) then invalid "stake-below-minimum"
        else
          match ExtractDestination (scriptPubKey (out coinPrev)) false with
          | (_, _, false) => invalid "stake-invalid-script"
          | (_, PKHash validatorId, true) =>
              if bool_decide (GetValidatorTier tp validatorId trustManager = NONE) then
                match GetValidator validatorId trustManager with
                | None => invalid "validator-not-registered"
                | Some _ => invalid "validator-low-uptime"
                end
              else ret tt
          | (_, _, true) => invalid "stake-not-p2pkh"
          end
    end.
End Tiers.

(** ** What the checks mean *)

(** A script pays to the hash of a key of a registered validator. *)
Lemma pkh_script `{Crypto} s k : Forall byte_ok s ->
  (exists t, ExtractDestination s false = (t, PKHash k, true)) <-> GetScriptForDestination (PKHash k) = Some s /\ (k < 2 ^ 160)%N.
Proof.
  intros Hs. split.
  - intros [t E]. pose proof (extract_lossless s Hs) as HL. rewrite E in HL. split; [exact HL|].
    unfold ExtractDestination in E. destruct (Script.Solver false false s) as [t' sols] eqn:ES. apply Solver_inv in ES.
    destruct t'; try (by repeat case_match; simplify_eq).
    destruct ES as (data & Hm & ->). unfold solution in E. cbn [nth] in E. injection E as _ <-.
    unfold Script.MatchPayToPubkeyHash in Hm. destruct (_ && _); [|done]. injection Hm as <-.
    assert (Hd : Forall byte_ok (take 20 (drop 3 s))) by (by apply Forall_take, Forall_drop).
    pose proof (le_value_range _ (proj2 (Forall_reverse _ _) Hd)) as Hr. unfold id_of. rewrite length_reverse, length_take in Hr.
    assert (256 ^ Z.of_nat (20 `min` length (drop 3 s)) <= 256 ^ 20) by (apply Z.pow_le_mono_r; lia).
    apply N2Z.inj_lt. rewrite Z2N.id by lia. change (Z.of_N (2 ^ 160)) with (256 ^ 20). lia.
  - intros [E Hk]. destruct (extract_back (PKHash k) false Hk) as (s' & t & E' & Hx). rewrite E in E'. injection E' as <-. by exists t.
Qed.

Definition eligible (p : Params) {A : NetAddress} (v : ValidatorInfo) : Prop :=
  isActive v = true /\ nMinValidatorStake p <= stakeAmount v /\ nBronzeUptimeThreshold p <= GetUptimePercentage v.

(** Bronze is the lowest tier. *)
Definition bronze_lowest (p : Params) : Prop :=
  nBronzeUptimeThreshold p <= nSilverUptimeThreshold p /\ nBronzeUptimeThreshold p <= nGoldUptimeThreshold p /\
  nBronzeUptimeThreshold p <= nPlatinumUptimeThreshold p.

Lemma tier_eligible (p : Params) {A : NetAddress} (v : ValidatorInfo) : bronze_lowest p -> GetTrustTier p v <> NONE <-> eligible p v.
Proof.
  intros (H1 & H2 & H3). unfold GetTrustTier, eligible. destruct (isActive v); [|naive_solver]. cbn [negb orb].
  destruct (Z.ltb_spec (stakeAmount v) (nMinValidatorStake p)); [split; [done|lia]|].
  repeat match goal with |- context [?a <=? ?b] => destruct (Z.leb_spec a b) end; split; try done; try lia.
Qed.

Lemma bronze_lowest_main : bronze_lowest main_params.
Proof. by vm_compute. Qed.

(** A rejection with another cause, or a cause that is not there *)
(** Scripts with a destination other than a key hash, and scripts without one. *)
Definition pays_elsewhere (t : Script.TxoutType) : bool :=
  match t with
  | Script.SCRIPTHASH | Script.WITNESS_V0_KEYHASH | Script.WITNESS_V0_SCRIPTHASH | Script.WITNESS_V1_TAPROOT | Script.ANCHOR | Script.WITNESS_UNKNOWN => true
  | _ => false
  end.
Definition pays_nowhere (t : Script.TxoutType) : bool := match t with Script.PUBKEYHASH => false | _ => negb (pays_elsewhere t) end.

Lemma extract_kind {K : Crypto} s : let t := (Script.Solver false false s).1 in
  let '(_, d, r) := ExtractDestination s false in
  if pays_elsewhere t then r = true /\ (forall k, d <> PKHash k) else if pays_nowhere t then r = false else t = Script.PUBKEYHASH /\ r = true /\ exists k, d = PKHash k.
Proof.
  cbv zeta. unfold ExtractDestination. destruct (Script.Solver false false s) as [t sols]. cbn [fst].
  destruct t; cbn; try done; try (by destruct (negb _)). split; [done|]. split; [done|]. by eexists.
Qed.

#[local] Ltac refute :=
  let Hx := fresh "Hx" in intros Hx; exfalso;
  repeat match goal with
  | Hy : exists _, _ |- _ => destruct Hy
  | Hy : _ /\ _ |- _ => destruct Hy
  | Hy : _ \/ _ |- _ => destruct Hy
  end; try discriminate; simplify_eq; try lia;
  try match goal with
  | HK : forall k', _ -> _ -> k' = ?k, H1 : (?k1 < _)%N, H2 : GetScriptForDestination (PKHash ?k1) = _ |- _ =>
      pose proof (HK k1 H1 H2); simplify_eq
  end; try congruence; try contradiction;
  match goal with Hy : forall k, _ -> GetScriptForDestination _ <> _ |- _ => by eapply Hy; eauto end.

Section Exact.
Context {A : NetAddress} {K : Crypto} {V G : Type} `{CCoinsView V} `{!CCoinsViewLaws V}.

(** C22: [CheckTieredProofOfStake] accepts a coinstake exactly when the tiers are not active
    yet, or the coin it stakes is unspent, worth the minimum stake, and pays to the key hash
    of a validator that is registered, active, registered with the minimum stake, and meets
    the lowest uptime threshold; each reason for a rejection is given in
    exactly these cases: no such coin; too small; a script without a destination (to which a
    bare public key belongs); a script with a destination other than a key hash; no
    registered validator; and "validator-low-uptime" for a registered one that falls short in
    any of the three ways, low uptime or not.  The coins and the contract state do not
    change. *)
Theorem tiered_stake_exact (p tp : Params) (b : CBlockIndex) (tx : CTransaction) (i : CTxIn) (rest : list CTxIn) (m : TrustScoreManager) (w : world V G) :
  cache_ok (view w) -> bronze_lowest tp -> IsCoinStake tx = true -> vin tx = i :: rest ->
  (forall x, coins (view w) (prevout i) = Some x -> Forall byte_ok (scriptPubKey (out x))) ->
  exists r w', CheckTieredProofOfStake p tp b tx m w = (r, w') /\ same_world w w' /\
    let staked x := nTrustTierActivationHeight p <= i32 (Chain.nHeight b + 1) /\ coins (view w) (prevout i) = Some x in
    let staked_by x k := staked x /\ nMinValidatorStake p <= nValue (out x) /\ (k < 2 ^ 160)%N /\ GetScriptForDestination (PKHash k) = Some (scriptPubKey (out x)) in
    (r = Done tt <-> i32 (Chain.nHeight b + 1) < nTrustTierActivationHeight p \/
       exists x k v, staked_by x k /\ GetValidator k m = Some v /\ eligible tp v) /\
    (r = Invalid "stake-coin-not-found" <-> nTrustTierActivationHeight p <= i32 (Chain.nHeight b + 1) /\ coins (view w) (prevout i) = None) /\
    (r = Invalid "stake-below-minimum" <-> exists x, staked x /\ nValue (out x) < nMinValidatorStake p) /\
    (r = Invalid "validator-not-registered" <-> exists x k, staked_by x k /\ GetValidator k m = None) /\
    (r = Invalid "validator-low-uptime" <-> exists x k v, staked_by x k /\ GetValidator k m = Some v /\ ~ eligible tp v) /\
    let kind x := (Script.Solver false false (scriptPubKey (out x))).1 in
    (r = Invalid "stake-invalid-script" <-> exists x, staked x /\ nMinValidatorStake p <= nValue (out x) /\ pays_nowhere (kind x) = true) /\
    (r = Invalid "stake-not-p2pkh" <-> exists x, staked x /\ nMinValidatorStake p <= nValue (out x) /\ pays_elsewhere (kind x) = true).
Proof.
  intros Hw Htp Hcs Hvin Hok. unfold CheckTieredProofOfStake, IsTrustTierActive, CheckMinimumValidatorStake. rewrite Hcs. cbn [negb].
  destruct (Z.leb_spec (nTrustTierActivationHeight p) (i32 (Chain.nHeight b + 1))) as [Hact|Hact]; cbn [negb].
  2:{ exists (Done tt), w. split; [done|]. split; [by apply same_world_refl|]. cbv zeta. split_and!; split; try done; try tauto; solve [refute]. }
  rewrite Hvin. rewrite (bind_Done _ _ _ i w) by done.
  destruct (ViewGetCoin_spec (prevout i) w Hw) as (w' & E & HSW). rewrite (bind_Done _ _ _ _ _ E). clear E.
  destruct (coins (view w) (prevout i)) as [x|] eqn:Ec.
  2:{ exists (Invalid "stake-coin-not-found"), w'. split; [done|]. split; [done|]. cbv zeta. split_and!; split; try done; try tauto; solve [refute]. }
  specialize (Hok x eq_refl).
  destruct (Z.leb_spec (nMinValidatorStake p) (nValue (out x))) as [Hmin|Hmin]; cbn [negb].
  2:{ exists (Invalid "stake-below-minimum"), w'. split; [done|]. split; [done|]. cbv zeta.
      split_and!; split; try done; try solve [refute]. intros _. by exists x. }
  pose proof (fun k => pkh_script (scriptPubKey (out x)) k Hok) as HP.
  assert (HU : forall x', nTrustTierActivationHeight p <= i32 (Chain.nHeight b + 1) /\ Some x = Some x' -> x' = x) by (by intros x' [_ [= ->]]).
  destruct (ExtractDestination (scriptPubKey (out x)) false) as [[t d] r0] eqn:Ed.
  pose proof (extract_kind (scriptPubKey (out x))) as HT. cbv zeta in HT. rewrite Ed in HT.
  destruct (pays_elsewhere (Script.Solver false false (scriptPubKey (out x))).1) eqn:H1;
    [assert (H2 : pays_nowhere (Script.Solver false false (scriptPubKey (out x))).1 = false) by (by unfold pays_nowhere; rewrite H1; destruct (Script.Solver _ _ _).1)
    |destruct (pays_nowhere (Script.Solver false false (scriptPubKey (out x))).1) eqn:H2].
  3:{ destruct HT as (Et & -> & k & ->).
    assert (HK : forall k', (k' < 2 ^ 160)%N -> GetScriptForDestination (PKHash k') = Some (scriptPubKey (out x)) -> k' = k).
    { intros k' Hk' Es. destruct (proj2 (HP k') (conj Es Hk')) as [? [= _ <-]]. done. }
    destruct (proj1 (HP k) (ex_intro _ t eq_refl)) as [Hs Hk]. clear HP.
    assert (HV : forall v, GetValidator k m = Some v -> GetValidatorTier tp k m <> NONE <-> eligible tp v).
    { intros v Ev. unfold GetValidatorTier. rewrite Ev. by apply tier_eligible. }
    assert (HN : GetValidator k m = None -> GetValidatorTier tp k m = NONE) by (intros Ev; unfold GetValidatorTier; by rewrite Ev).
    case_bool_decide as Ht.
    + destruct (GetValidator k m) as [v|] eqn:Ev.
      * assert (He : ~ eligible tp v) by (rewrite <- (HV v eq_refl); tauto).
        exists (Invalid "validator-low-uptime"), w'. split; [done|]. split; [done|]. cbv zeta.
        split_and!; split; try done; try solve [refute]. intros _. by exists x, k, v.
      * exists (Invalid "validator-not-registered"), w'. split; [done|]. split; [done|]. cbv zeta.
        split_and!; split; try done; try solve [refute]. intros _. by exists x, k.
    + destruct (GetValidator k m) as [v|] eqn:Ev; [|by destruct Ht; auto].
      pose proof (proj1 (HV v eq_refl) Ht) as He. exists (Done tt), w'. split; [done|]. split; [done|]. cbv zeta.
      split_and!; split; try done; try solve [refute]. intros _. right. by exists x, k, v. }
  all: assert (HK : forall k', (k' < 2 ^ 160)%N -> GetScriptForDestination (PKHash k') <> Some (scriptPubKey (out x)))
    by (intros k' Hk' Es; destruct (proj2 (HP k') (conj Es Hk')) as [? [= _ Ed1 Ed2]]; first [congruence | by destruct HT as [_ HT]; destruct (HT k')]).
  - destruct HT as [-> HT]. exists (Invalid "stake-not-p2pkh"), w'. split; [destruct d; naive_solver|]. split; [done|]. cbv zeta.
    split_and!; split; try done; try solve [refute]. all: intros _; by exists x.
  - subst r0. exists (Invalid "stake-invalid-script"), w'. split; [by destruct d|]. split; [done|]. cbv zeta.
    split_and!; split; try done; try solve [refute]. all: intros _; by exists x.
Qed.
End Exact.

(** ** Rewards by tier *)

(** The tiered reward is the share of the base reward the tier has, for every reward up to
    the money range with nothing wrapping: nothing for a validator that is not eligible,
    at least the base reward for one that is (on the main network from once to twice), more
    for a higher tier; and the multiplier is the one the trust manager computes for the
    validator, so that both subsidy functions agree on the tiers.  Without a tier they do not: there
    [GetTieredBlockSubsidy] gives the base reward and [CalculateTieredBlockReward] nothing. *)
Theorem tiered_reward_exact {A : NetAddress} (v : ValidatorInfo) nBaseReward t t' : 0 <= nBaseReward <= MAX_MONEY ->
  let reward tier := CalculateTieredBlockReward nBaseReward tier main_params in
  GetTierRewardMultiplier (GetTrustTier main_params v) main_params = GetRewardMultiplier main_params v /\
  reward t = nBaseReward * GetTierRewardMultiplier t main_params / 100 /\
  (TrustTier_code t <= TrustTier_code t' -> reward t <= reward t') /\
  (~ eligible main_params v -> reward (GetTrustTier main_params v) = 0) /\
  (eligible main_params v -> nBaseReward <= reward (GetTrustTier main_params v) <= 2 * nBaseReward) /\
  forall h, nTrustTierActivationHeight main_params <= h -> nBaseReward = GetBlockSubsidy h main_params ->
    GetTieredBlockSubsidy h main_params (GetTierRewardMultiplier t main_params) =
      match t with NONE => nBaseReward | _ => reward t end.
Proof.
  intros Hb reward. replace MAX_MONEY with 10782240625000000 in Hb by reflexivity.
  assert (HM : forall tier, 0 <= GetTierRewardMultiplier tier main_params <= 200) by (intros []; by vm_compute).
  assert (HE : forall tier, reward tier = nBaseReward * GetTierRewardMultiplier tier main_params / 100).
  { intros tier. specialize (HM tier). unfold reward, CalculateTieredBlockReward.
    rewrite i64_id by (unfold in_i64; nia). apply Z.quot_div_nonneg; nia. }
  assert (HB : forall tier, tier <> NONE -> 100 <= GetTierRewardMultiplier tier main_params) by (intros []; [done|by vm_compute..]).
  pose proof (tier_eligible main_params v bronze_lowest_main) as HL. split_and!.
  - unfold GetRewardMultiplier. by destruct (GetTrustTier main_params v).
  - apply HE.
  - intros Hc. rewrite !HE. apply Z.div_le_mono; [lia|]. apply Z.mul_le_mono_nonneg_l; [lia|]. destruct t, t'; try (by vm_compute); by vm_compute in Hc.
  - intros Hn. assert (GetTrustTier main_params v = NONE) as -> by (destruct (decide (GetTrustTier main_params v = NONE)); tauto).
    rewrite HE. change (GetTierRewardMultiplier NONE main_params) with 0. by rewrite Z.mul_0_r.
  - intros He. apply HL in He. rewrite HE. specialize (HB _ He). specialize (HM (GetTrustTier main_params v)).
    split; [apply Z.div_le_lower_bound; nia|apply Z.div_le_upper_bound; nia].
  - intros h Hh ->. unfold GetTieredBlockSubsidy, reward, CalculateTieredBlockReward.
    destruct (decide (t = NONE)) as [->|Ht]; [done|]. specialize (HB t Ht).
    rewrite (proj2 (Z.ltb_lt _ _)), (proj2 (Z.leb_le _ _)) by lia. by destruct t.
Qed.

(** A registered validator with full uptime, one registered with too little, and their coins *)
#[local] Existing Instances strokes toy_crypto.
#[local] Instance tier_view : CCoinsView CCoinsViewDB := CCoinsViewDB_view two_changes.
#[local] Instance tier_laws : CCoinsViewLaws CCoinsViewDB := CCoinsViewDB_laws two_changes.

Definition validator (id : N) (stake received : Z) : ValidatorInfo := mkInfo id stake 0 0 0 100 received true CService_default 0 0 0.
Definition wit_manager : TrustScoreManager := mkManager {[7%N := validator 7 (100000 * COIN) 100; 9%N := validator 9 (100000 * COIN) 90]} 0.
Definition tier_db : CCoinsViewDB := mkDB {[wit_delegated := key_coin (100000 * COIN) 7; wit_own := key_coin (100000 * COIN) 9]} (Some 7%N) None.
Definition tier_world : world CCoinsViewDB unit := mkWorld (new_cache tier_db) tt.
Definition tier_index : CBlockIndex := mkIndex (wit_header 0 0) None None 50000 zero 0 0 0.
Definition tier_stake (o : COutPoint) : CTransaction := mkTransaction [mkTxIn o [] 0 []] [mkTxOut 0 []; mkTxOut 1 []] 2 0.

Lemma tier_coins o x : db_coins tier_db !! o = Some x -> x = key_coin (100000 * COIN) 7 \/ x = key_coin (100000 * COIN) 9.
Proof.
  cbn. intros [[_ <-]|[_ Hx]]%lookup_insert_Some; [by left|]. apply lookup_singleton_Some in Hx as [_ <-]. by right.
Qed.

Lemma tiered_stake_exact_witness :
  (CheckTieredProofOfStake main_params main_params tier_index (tier_stake wit_delegated) wit_manager tier_world).1 = Done tt /\
  (CheckTieredProofOfStake main_params main_params tier_index (tier_stake wit_own) wit_manager tier_world).1 = Invalid "validator-low-uptime".
Proof.
  assert (Hw : cache_ok (view tier_world) /\ forall o, coins (view tier_world) o = coins_of tier_db o).
  { apply new_cache_ok. split; [|done]. by intros o x [->| ->]%tier_coins. }
  destruct Hw as [Hw Hc].
  assert (Hok : forall o x, coins (view tier_world) o = Some x -> Forall byte_ok (scriptPubKey (out x))).
  { intros o x. rewrite Hc. intros [-> | ->]%tier_coins; repeat constructor; by vm_compute. }
  destruct (tiered_stake_exact main_params main_params tier_index (tier_stake wit_delegated) (mkTxIn wit_delegated [] 0 []) [] wit_manager tier_world
    Hw bronze_lowest_main eq_refl eq_refl (Hok _)) as (r & w' & E & _ & HD & _).
  destruct (tiered_stake_exact main_params main_params tier_index (tier_stake wit_own) (mkTxIn wit_own [] 0 []) [] wit_manager tier_world
    Hw bronze_lowest_main eq_refl eq_refl (Hok _)) as (r' & w2 & E' & _ & _ & _ & _ & _ & HL & _).
  assert (forall k o, (k < 2 ^ 160)%N -> coins_of tier_db o = Some (key_coin (100000 * COIN) k) ->
    (nTrustTierActivationHeight main_params <= i32 (Chain.nHeight tier_index + 1) /\ coins (view tier_world) o = Some (key_coin (100000 * COIN) k)) /\
    nMinValidatorStake main_params <= nValue (out (key_coin (100000 * COIN) k)) /\ (k < 2 ^ 160)%N /\
    GetScriptForDestination (PKHash k) = Some (scriptPubKey (out (key_coin (100000 * COIN) k)))) as HS.
  { intros k o Hk Ho. rewrite Hc. split_and!; try done; by vm_compute. }
  rewrite E, E'. cbn [fst]. split.
  - apply HD. right. exists (key_coin (100000 * COIN) 7), 7%N, (validator 7 (100000 * COIN) 100). split; [by apply HS|]. by vm_compute.
  - apply HL. exists (key_coin (100000 * COIN) 9), 9%N, (validator 9 (100000 * COIN) 90). split; [by apply HS|].
    split; [by vm_compute|]. intros (_ & _ & Hu). by vm_compute in Hu.
Defined.

Lemma tiered_reward_exact_witness : CalculateTieredBlockReward 8333333 GOLD main_params = 8333333 * GetTierRewardMultiplier GOLD main_params / 100.
Proof. by apply (tiered_reward_exact (validator 7 0 0) 8333333 GOLD GOLD). Defined.
End Tiers.
