(* ===== verification/Headers.v ===== *)
(** * Accepting block headers (validation.cpp, chain.h, node/blockstorage.cpp)

    The checks of a header in the context of its ancestors, and [AcceptBlockHeader] and
    [ProcessNewBlockHeaders], which extend the block index of Chain.v with headers that
    pass them and refuse to build on blocks known to be invalid.  The proof of work comes
    from Pow.v, the proof of stake from Pos.v, the encoding of signatures from Der.v.
    The clock, the flag of the initial download and the active chain are arguments. *)

From stdpp Require Import gmap list strings sorting.
From Stdlib Require Import ZArith Lia.
From S2P Require Import Prelude Params Serialize Crypto OutPoint Transaction Coins ArithUint256 Chain Pow Block Pos Der.

Open Scope Z_scope.

Module Headers.
Import Coins.Coins Pos.Pos.
#[local] Open Scope stake_scope.
Abbreviation nHeight := Chain.nHeight.
Abbreviation nTime := Chain.nTime.

(** ** Results *)

Inductive BlockValidationResult :=
  | BLOCK_RESULT_UNSET | BLOCK_CONSENSUS | BLOCK_CACHED_INVALID | BLOCK_INVALID_HEADER | BLOCK_MUTATED | BLOCK_MISSING_PREV
  | BLOCK_INVALID_PREV | BLOCK_TIME_FUTURE | BLOCK_CHECKPOINT | BLOCK_HEADER_LOW_WORK | BLOCK_HEADER_SPAM | BLOCK_HEADER_REJECT
  | BLOCK_HEADER_SYNC | BLOCK_GAS_EXCEEDS_LIMIT.

(** [BlockValidationState], as far as a header changes it *)
Inductive verdict := Valid | Rejected (result : BlockValidationResult) (reason : string).

(** The parameters only header checks read; [mapCheckpoints] in the order of heights *)
Record HeaderParams := mkHeaderParams {
  hashGenesisBlock : N;
  nCheckpointSpan : Z;
  nRBTCheckpointSpan : Z;
  BIP34Height : Z;
  BIP65Height : Z;
  BIP66Height : Z;
  nEnableHeaderSignatureHeight : Z;
  checkpoints_enabled : bool;
  mapCheckpoints : list (Z * N)
}.

Definition MAX_TIMEWARP : Z := 600.
Definition BLOCK_VALID_SCRIPTS : Z := 5.
Definition BLOCK_FAILED_VALID : Z := 32.
Definition BLOCK_FAILED_CHILD : Z := 64.

Definition failed (b : CBlockIndex) : bool := negb (Z.land (nStatus b) BLOCK_FAILED_MASK =? 0).

(** ** The median of the last times *)

Definition nMedianTimeSpan : nat := 11.

(** The times of at most [n] blocks, newest first *)
Fixpoint last_times (n : nat) (s : BlockMap) (pindex : option N) : option (list Z) :=
  match n, pindex with
  | S n, Some i => b ← s !! i; l ← last_times n s (pprev b); Some (GetBlockTime b :: l)
  | _, _ => Some []
  end.

(** [std::sort], and the element in the middle *)
Definition GetMedianTimePast (s : BlockMap) (i : N) : option Z :=
  l ← last_times nMedianTimeSpan s (Some i);
  Some (nth (length l / 2) (merge_sort Z.le l) 0).

(** ** Checkpoints *)

Fixpoint find_known (s : BlockMap) (l : list (Z * N)) : option N :=
  match l with [] => None | (_, hash) :: l => if bool_decide (is_Some (s !! hash)) then Some hash else find_known s l end.
Definition GetLastCheckpoint (s : BlockMap) (data : list (Z * N)) : option N := find_known s (reverse data).

Fixpoint CheckHardened (height : Z) (hash : N) (data : list (Z * N)) : bool :=
  match data with
  | [] => true
  | (h, expected) :: data => if h =? height then (hash =? expected)%N else CheckHardened height hash data
  end.

Section Sync.
Context (p : Params) (hp : HeaderParams) (s : BlockMap).

Definition CheckpointSpan (height : Z) : Z := if height <? nReduceBlocktimeHeight p then nCheckpointSpan hp else nRBTCheckpointSpan hp.

Fixpoint sync_loop (fuel : nat) (checkpointSpan best : Z) (pindex : N) : option N :=
  match fuel with
  | O => None
  | S fuel =>
      b ← s !! pindex;
      match pprev b with
      | Some j => if best <? i32 (nHeight b + checkpointSpan) then sync_loop fuel checkpointSpan best j else Some pindex
      | None => Some pindex
      end
  end.

(** Every round goes to a lower height. *)
Definition AutoSelectSyncCheckpoint (pindexBest : N) : option N :=
  b ← s !! pindexBest; sync_loop (S (Z.to_nat (nHeight b))) (CheckpointSpan (nHeight b)) (nHeight b) pindexBest.

Definition CheckSync (height : Z) (pindexBest : option N) : option bool :=
  if height =? 0 then Some true
  else
    best ← pindexBest;
    sync ← AutoSelectSyncCheckpoint best;
    b ← s !! sync;
    Some (nHeight b <? height).
End Sync.

(** ** Contextual checks *)

(** The sum is one of 32-bit unsigned numbers. *)
Definition FutureDrift (p : Params) (time height : Z) : Z := u32 (u32 time + StakeTimestampMask p height).

Definition hex_char (d : Z) : string := String (Ascii.ascii_of_N (Z.to_N (hex_digit d))) EmptyString.
Fixpoint hex_string (n : nat) (z : Z) : string :=
  match n with O => EmptyString | S n => (hex_string n (z / 16) ++ hex_char (z mod 16))%string end.

Section Contextual.
Context {K : Crypto} (p : Params) (hp : HeaderParams) (CheckLowS : list Z -> bool).

Definition IsCanonicalBlockSignature (hdr : CBlockHeader) (checkLowS : bool) : bool :=
  if Block.IsProofOfWork hdr then bool_decide (vchBlockSigDlgt hdr = [])
  else if checkLowS then Der.IsLowDERSignature CheckLowS (vchBlockSigDlgt hdr) false else Der.IsDERSignature (vchBlockSigDlgt hdr) false.

Definition CheckCanonicalBlockSignature (hdr : CBlockHeader) : bool :=
  if Block.IsProofOfStake hdr && (length (Block.GetBlockSignature hdr) =? Block.COMPACT_SIGNATURE_SIZE)%nat
  then if Block.HasProofOfDelegation hdr then (length (Block.GetProofOfDelegation hdr) =? Block.COMPACT_SIGNATURE_SIZE)%nat else true
  else if IsCanonicalBlockSignature hdr false then IsCanonicalBlockSignature hdr true else false.

(** [i] is the parent, [tip] the active tip, [now] the time of the node. *)
Definition ContextualCheckBlockHeader (s : BlockMap) (tip : option N) (now : Z) (hdr : CBlockHeader) (i : N) : option verdict :=
  b ← s !! i;
  let h := i32 (nHeight b + 1) in
  bits ← GetNextWorkRequired s (Some i) (nTime hdr) p (Block.IsProofOfStake hdr);
  if negb (nBits hdr =? bits) then Some (Rejected BLOCK_INVALID_HEADER "bad-diffbits")
  else
    before ← match GetLastCheckpoint s (mapCheckpoints hp) with
             | None => Some false
             | Some c => cb ← s !! c; Some (h <? nHeight cb)
             end;
    if checkpoints_enabled hp && before then Some (Rejected BLOCK_CHECKPOINT "bad-fork-prior-to-checkpoint")
    else if checkpoints_enabled hp && negb (CheckHardened h (Block.GetBlockHash hdr) (mapCheckpoints hp))
    then Some (Rejected BLOCK_CHECKPOINT "bad-fork-hardened-checkpoint")
    else
      sync ← CheckSync p hp s h tip;
      if negb sync then Some (Rejected BLOCK_HEADER_SYNC "bad-fork-prior-to-synch-checkpoint")
      else
        old ← (if Block.IsProofOfStake hdr then median ← GetMedianTimePast s i; Some (nTime hdr <=? median) else Some false);
        if (old : bool) then Some (Rejected BLOCK_INVALID_HEADER "time-too-old")
        else if enforce_BIP94 p && (Z.rem h (DifficultyAdjustmentInterval p h) =? 0) && (nTime hdr <? GetBlockTime b - MAX_TIMEWARP)
        then Some (Rejected BLOCK_INVALID_HEADER "time-timewarp-attack")
        else if Block.IsProofOfStake hdr && (FutureDrift p now h <? nTime hdr) then Some (Rejected BLOCK_TIME_FUTURE "time-too-new")
        else if ((nVersion hdr <? 2) && (BIP34Height hp <=? h)) || ((nVersion hdr <? 3) && (BIP66Height hp <=? h)) ||
                ((nVersion hdr <? 4) && (BIP65Height hp <=? h))
        then Some (Rejected BLOCK_INVALID_HEADER ("bad-version(0x" ++ hex_string 8 (u32 (nVersion hdr)) ++ ")"))
        else Some Valid.
End Contextual.

(** ** Accepting a header *)

(** The block manager and [m_failed_blocks], in the order the set is walked *)
Record ChainstateManager := mkChainman { m_blockman : BlockManager; m_failed_blocks : list N }.

Definition set_index (s : BlockMap) (dirty : gset N) (m : BlockManager) : BlockManager :=
  mkManager s (best_header m) (setStakeSeen m) dirty.
Definition mark (b : CBlockIndex) : CBlockIndex :=
  mkIndex (header b) (pprev b) (pskip b) (nHeight b) (nChainWork b) (nStakeModifier b) (Z.lor (nStatus b) BLOCK_FAILED_CHILD) (nTimeMax b).

(** Marks the blocks from [i] down to, without it, [failedit]. *)
Fixpoint invalid_walk (fuel : nat) (failedit i : N) (s : BlockMap) (dirty : gset N) : option (BlockMap * gset N) :=
  match fuel with
  | O => None
  | S fuel =>
      if (i =? failedit)%N then Some (s, dirty)
      else
        b ← s !! i;
        j ← pprev b;
        invalid_walk fuel failedit j (<[i := mark b]> s) ({[i]} ∪ dirty)
  end.

(** Whether a failed block is an ancestor of [i]; then the blocks above it are marked. *)
Fixpoint find_failed (l : list N) (i : N) (m : BlockManager) : option (bool * BlockManager) :=
  match l with
  | [] => Some (false, m)
  | failedit :: l =>
      f ← m_block_index m !! failedit;
      a ← GetAncestor (m_block_index m) i (nHeight f);
      if bool_decide (a = Some failedit) then
        if Z.land (nStatus f) BLOCK_FAILED_VALID =? 0 then None
        else
          b ← m_block_index m !! i;
          '(s, dirty) ← invalid_walk (S (Z.to_nat (nHeight b))) failedit i (m_block_index m) (m_dirty_blockindex m);
          Some (true, set_index s dirty m)
      else find_failed l i m
  end.

Section Accept.
Context {K : Crypto} {Rc : Recovery} {V G : Type} `{CCoinsView V}.
Context (p : Params) (sp : StakeParams) (hp : HeaderParams) (CheckLowS : list Z -> bool).
Context (ReadBlock : N -> option Block.CBlock) (ReadBlockUndo : N -> option (list (list Coin))).
(** The state of the node the calls read: [IsInitialBlockDownload], [LoadingBlocks], the
    active chain and the clock *)
Context (ibd loading : bool) (m_chain : CChain) (now : Z).

Definition CheckBlockHeader (s : BlockMap) (hdr : CBlockHeader) (fCheckPOW fCheckPOS : bool) : M V G verdict :=
  if fCheckPOW && Block.IsProofOfWork hdr && negb (CheckHeaderPoW p hdr) then ret (Rejected BLOCK_INVALID_HEADER "high-hash")
  else if fCheckPOS && negb ibd && Block.IsProofOfStake hdr then
    let* ok := CheckHeaderPoS p sp s ReadBlock ReadBlockUndo (nEnableHeaderSignatureHeight hp) m_chain hdr in
    ret (if ok : bool then Valid else Rejected BLOCK_INVALID_HEADER "bad-cb-header")
  else ret Valid.

(** A header off the tip that is older than the synchronized checkpoint *)
Definition older_than_checkpoint (s : BlockMap) (hdr : CBlockHeader) : option bool :=
  match Tip m_chain with
  | Some t =>
      if (hashPrevBlock hdr =? t)%N then Some false
      else sync ← AutoSelectSyncCheckpoint p hp s t; b ← s !! sync; Some (nTime hdr - nTime (header b) <? 0)
  | None => Some false
  end.

(** The verdict, [*ppindex], and the manager after it *)
Definition AcceptBlockHeader (hdr : CBlockHeader) (min_pow_checked : bool) (cm : ChainstateManager) : M V G (verdict * option N * ChainstateManager) :=
  let hash := Block.GetBlockHash hdr in
  let s := m_block_index (m_blockman cm) in
  let add cm : M V G (verdict * option N * ChainstateManager) :=
    if negb min_pow_checked then ret (Rejected BLOCK_HEADER_LOW_WORK "too-little-chainwork", None, cm)
    else
      let* (pindex, m) := follow (AddToBlockIndex Block.GetBlockHash hdr (m_blockman cm)) in
      ret (Valid, Some pindex, mkChainman m (m_failed_blocks cm)) in
  if (hash =? hashGenesisBlock hp)%N then add cm
  else
    match s !! hash with
    | Some b => ret (if failed b then Rejected BLOCK_CACHED_INVALID "duplicate-invalid" else Valid, Some hash, cm)
    | None =>
        let* older := follow (older_than_checkpoint s hdr) in
        if older : bool then ret (Rejected BLOCK_HEADER_SYNC "older-than-checkpoint", None, cm)
        else if negb (CheckCanonicalBlockSignature CheckLowS hdr) then ret (Rejected BLOCK_INVALID_HEADER "bad-signature-encoding", None, cm)
        else
          match s !! hashPrevBlock hdr with
          | None => ret (Rejected BLOCK_MISSING_PREV "prev-blk-not-found", None, cm)
          | Some b =>
              if failed b then ret (Rejected BLOCK_INVALID_PREV "bad-prevblk", None, cm)
              else
                let* v := follow (ContextualCheckBlockHeader p hp s (Tip m_chain) now hdr (hashPrevBlock hdr)) in
                match v with
                | Rejected _ _ => ret (v, None, cm)
                | Valid =>
                    let* (bad, m) :=
                      if IsValid BLOCK_VALID_SCRIPTS (nStatus b) then ret (false, m_blockman cm)
                      else follow (find_failed (m_failed_blocks cm) (hashPrevBlock hdr) (m_blockman cm)) in
                    let cm := mkChainman m (m_failed_blocks cm) in
                    let h := i32 (nHeight b + 1) in
                    if bad : bool then ret (Rejected BLOCK_INVALID_PREV "bad-prevblk", None, cm)
                    else if Block.IsProofOfWork hdr && (nLastPOWBlock sp <? h) then ret (Rejected BLOCK_INVALID_HEADER "reject-pow", None, cm)
                    else if Block.IsProofOfStake hdr && (h <? CoinbaseMaturity p h) then ret (Rejected BLOCK_INVALID_HEADER "reject-pos", None, cm)
                    else if Block.IsProofOfStake hdr && negb (CheckCoinStakeTimestamp p (nTime hdr) h)
                    then ret (Rejected BLOCK_INVALID_HEADER "timestamp-invalid", None, cm)
                    else
                      let* v := CheckBlockHeader s hdr true true in
                      match v with Rejected _ _ => ret (v, None, cm) | Valid => add cm end
                end
          end
    end.

(** The loop of [ProcessNewBlockHeaders]; the pair is [*ppindex] and [*pindexFirst]. *)
Fixpoint headers_loop (headers : list CBlockHeader) (min_pow_checked fInstantBan : bool) (indexes : option N * option N) (cm : ChainstateManager) :
    M V G (verdict * (option N * option N) * ChainstateManager) :=
  match headers with
  | [] => ret (Valid, indexes, cm)
  | hdr :: headers =>
      let seen := negb loading && negb ibd && Block.IsProofOfStake hdr &&
        bool_decide ((prevoutStake hdr, nTime hdr) ∈ setStakeSeen (m_blockman cm)) &&
        negb (bool_decide (is_Some (m_block_index (m_blockman cm) !! Block.GetBlockHash hdr))) in
      if seen && bool_decide (headers = []) then
        ret (Rejected (if fInstantBan then BLOCK_INVALID_HEADER else BLOCK_HEADER_REJECT) "dupe-stake", indexes, cm)
      else
        let fInstantBan := fInstantBan || seen in
        let* (v, pindex, cm) := AcceptBlockHeader hdr min_pow_checked cm in
        match v with
        | Rejected result reason => ret (Rejected (if fInstantBan then BLOCK_INVALID_HEADER else result) reason, indexes, cm)
        | Valid => headers_loop headers min_pow_checked fInstantBan (pindex, match indexes.2 with None => pindex | first => first end) cm
        end
  end.

Definition ProcessNewBlockHeaders (headers : list CBlockHeader) (min_pow_checked : bool) (cm : ChainstateManager) :
    M V G (verdict * (option N * option N) * ChainstateManager) :=
  let too_new :=
    match last headers with
    | Some hdr => negb ibd && (1 <? length headers)%nat && Block.IsProofOfStake hdr &&
                  (FutureDrift p now (i32 (Height m_chain + 1)) <? nTime hdr)
    | None => false
    end in
  if too_new then ret (Rejected BLOCK_TIME_FUTURE "time-too-new", (None, None), cm)
  else headers_loop headers min_pow_checked false (None, None) cm.
End Accept.

(** ** The median is the middle of the last times *)

(** At most half of the values are smaller, more than half are not larger. *)
Definition median_of (l : list Z) (m : Z) : Prop :=
  m ∈ l /\ (length (filter (fun x => (x < m)%Z) l) <= length l / 2)%nat /\ (length l / 2 < length (filter (fun x => (x <= m)%Z) l))%nat.

Lemma sorted_counts (l : list Z) k m : StronglySorted Z.le l -> l !! k = Some m ->
  (length (filter (fun x => (x < m)%Z) l) <= k)%nat /\ (k < length (filter (fun x => (x <= m)%Z) l))%nat.
Proof.
  intros HS. revert k. induction HS as [|x l HS IH HF]; intros k Hk; [done|]. rewrite !filter_cons. destruct k as [|k].
  - injection Hk as ->. rewrite decide_False by lia. rewrite decide_True by lia. cbn [length]. split; [|lia].
    apply Nat.le_0_r, length_zero_iff_nil. destruct (filter (fun x => (x < m)%Z) l) as [|y l'] eqn:E; [done|]. exfalso.
    assert (Hy : y ∈ filter (fun x => (x < m)%Z) l) by (rewrite E; left). apply list_elem_of_filter in Hy as [Hlt Hin].
    rewrite Forall_forall in HF. specialize (HF y Hin). cbn in HF. lia.
  - assert (x <= m) by (rewrite Forall_forall in HF; apply HF; by eapply list_elem_of_lookup_2).
    destruct (IH k Hk) as [H1 H2]. rewrite (decide_True (P := x <= m)) by done. cbn [length]. split; [|lia].
    case_decide; cbn [length]; lia.
Qed.

Lemma filter_length_perm (P : Z -> Prop) `{forall x, Decision (P x)} (l l' : list Z) : l ≡ₚ l' -> length (filter P l) = length (filter P l').
Proof. intros HP. by rewrite HP. Qed.

Lemma sorted_median (l : list Z) : l <> [] -> median_of l (nth (length l / 2) (merge_sort Z.le l) 0).
Proof.
  intros Hne. assert (Hl : (length l / 2 < length l)%nat) by (apply Nat.div_lt; [|lia]; destruct l; [done|cbn; lia]).
  pose proof (merge_sort_Permutation Z.le l) as HP. assert (Hlen : length (merge_sort Z.le l) = length l) by (by rewrite HP).
  assert (HS : StronglySorted Z.le (merge_sort Z.le l)) by (apply StronglySorted_merge_sort; apply _).
  destruct (lookup_lt_is_Some_2 (merge_sort Z.le l) (length l / 2)) as [m Hm]; [lia|].
  rewrite (nth_lookup_Some _ _ 0 _ Hm). destruct (sorted_counts _ _ _ HS Hm) as [H1 H2]. split_and!.
  - rewrite <- HP. by eapply list_elem_of_lookup_2.
  - by rewrite <- (filter_length_perm _ _ _ HP).
  - by rewrite <- (filter_length_perm _ _ _ HP).
Qed.

(** Only one value is in the middle. *)
Lemma median_unique l m m' : median_of l m -> median_of l m' -> m = m'.
Proof.
  assert (HW : forall m m', m < m' -> median_of l m -> median_of l m' -> False).
  { intros a b Hab (_ & _ & H1) (_ & H2 & _).
    assert ((length (filter (fun x => (x <= a)%Z) l) <= length (filter (fun x => (x < b)%Z) l))%nat); [|lia].
    clear H1 H2. induction l as [|x l' IH]; [done|]. rewrite !filter_cons. repeat case_decide; cbn [length]; lia. }
  intros H1 H2. destruct (Ztrichotomy m m') as [?|[->|?]]; [exfalso; eauto|done|exfalso; apply (HW m' m); auto; lia].
Qed.

(** The times of [i] and its ancestors, at most eleven *)
Definition recent_times (s : BlockMap) (i : N) (l : list Z) : Prop :=
  exists b, s !! i = Some b /\ Z.of_nat (length l) = Z.min 11 (nHeight b + 1) /\
  forall k t, l !! k = Some t -> exists j c, anc s i k = Some j /\ s !! j = Some c /\ GetBlockTime c = t.

Lemma last_times_spec s : tree_ok s -> forall n i b, s !! i = Some b -> exists l, last_times n s (Some i) = Some l /\
  Z.of_nat (length l) = Z.min (Z.of_nat n) (nHeight b + 1) /\
  forall k t, l !! k = Some t -> exists j c, anc s i k = Some j /\ s !! j = Some c /\ GetBlockTime c = t.
Proof.
  intros Hs. induction n as [|n IH]; intros i b Hb; pose proof (eo_height _ _ _ (Hs i b Hb)) as H0b.
  { exists []. split; [done|]. split; [cbn; lia|done]. }
  cbn [last_times]. rewrite Hb. cbn [mbind option_bind]. destruct (pprev b) as [j|] eqn:Ej.
  - destruct (eo_child _ _ _ (Hs i b Hb) j Ej) as (c & Hc & Hh & _). destruct (IH j c Hc) as (l & -> & Hlen & Hl).
    exists (GetBlockTime b :: l). split; [done|]. split; [cbn [length]; lia|]. intros [|k] t Hk.
    + injection Hk as <-. by exists i, b.
    + destruct (Hl k t Hk) as (j' & c' & Ha & Hj' & Ht). exists j', c'. split; [|done]. cbn. rewrite Hb. cbn. by rewrite Ej.
  - destruct (eo_root _ _ _ (Hs i b Hb) Ej) as [Hz _].
    assert (last_times n s None = Some []) as -> by (by destruct n).
    exists [GetBlockTime b]. split; [done|]. split; [cbn [length]; lia|]. intros [|k] t Hk; [|done]. injection Hk as <-. by exists i, b.
Qed.

Lemma median_time_spec s i b m : tree_ok s -> s !! i = Some b ->
  GetMedianTimePast s i = Some m <-> exists l, recent_times s i l /\ median_of l m.
Proof.
  intros Hs Hb. destruct (last_times_spec s Hs nMedianTimeSpan i b Hb) as (l & E & Hlen & Hl).
  pose proof (eo_height _ _ _ (Hs i b Hb)) as H0b. change (Z.of_nat nMedianTimeSpan) with 11 in Hlen. assert (Hne : l <> []) by (intros ->; cbn [length] in Hlen; lia).
  assert (HR : recent_times s i l) by (exists b; split_and!; done).
  unfold GetMedianTimePast. rewrite E. cbn [mbind option_bind]. split.
  - intros [= <-]. exists l. split; [done|]. by apply sorted_median.
  - intros (l' & (b' & Hb' & Hlen' & Hl') & Hm). f_equal. assert (l' = l) as ->; [|by eapply median_unique; [apply sorted_median|]].
    simplify_eq. apply list_eq. intros k.
    assert (HX : forall l1 l2 : list Z, Z.of_nat (length l1) = Z.of_nat (length l2) ->
      (forall k t, l1 !! k = Some t -> exists j c, anc s i k = Some j /\ s !! j = Some c /\ GetBlockTime c = t) ->
      (forall k t, l2 !! k = Some t -> exists j c, anc s i k = Some j /\ s !! j = Some c /\ GetBlockTime c = t) -> l1 !! k = l2 !! k).
    { intros l1 l2 HL H1 H2. destruct (l1 !! k) as [t1|] eqn:E1.
      - destruct (lookup_lt_is_Some_2 l2 k) as [t2 E2]; [apply lookup_lt_Some in E1; lia|].
        destruct (H1 k t1 E1) as (? & ? & ? & ? & <-). destruct (H2 k t2 E2) as (? & ? & ? & ? & <-). by simplify_eq.
      - symmetry. apply lookup_ge_None. apply lookup_ge_None in E1. lia. }
    apply HX; [|done|done]. rewrite Hlen, Hlen'. done.
Qed.

(** ** The synchronized checkpoint *)

Lemma sync_loop_spec s span best : tree_ok s -> 0 <= span -> best < 1073741824 -> span < 1073741824 -> forall fuel i b, s !! i = Some b ->
  nHeight b < Z.of_nat fuel -> nHeight b <= best -> Z.max 0 (best - span) <= nHeight b ->
  exists j c, sync_loop s fuel span best i = Some j /\ s !! j = Some c /\ nHeight c = Z.max 0 (best - span) /\
    anc s i (Z.to_nat (nHeight b - nHeight c)) = Some j.
Proof.
  intros Hs Hsp Hbest Hsp'. induction fuel as [|fuel IH]; intros i b Hb Hf Hle Hge; pose proof (eo_height _ _ _ (Hs i b Hb)) as H0b; [lia|].
  cbn [sync_loop]. rewrite Hb. cbn [mbind option_bind]. rewrite i32_id by (unfold in_i32; lia).
  destruct (pprev b) as [j|] eqn:Ej.
  - destruct (eo_child _ _ _ (Hs i b Hb) j Ej) as (c & Hc & Hh & _). destruct (Z.ltb_spec best (nHeight b + span)).
    + pose proof (eo_height _ _ _ (Hs j c Hc)). destruct (IH j c Hc) as (j' & c' & E & Hc' & Hh' & Ha); [lia..|].
      exists j', c'. split; [done|]. split; [done|]. split; [done|].
      rewrite (anc_pprev s i b j (nHeight c') Hb Ej) by lia. replace (nHeight b - 1) with (nHeight c) by lia. done.
    + exists i, b. split; [done|]. split; [done|]. split; [lia|]. by rewrite Z.sub_diag.
  - destruct (eo_root _ _ _ (Hs i b Hb) Ej) as [Hz _]. exists i, b. split; [done|]. split; [done|]. split; [lia|]. by rewrite Z.sub_diag.
Qed.

(** The rolling checkpoint is the ancestor of the tip one span below it. *)
Lemma sync_checkpoint_spec p hp s t b : tree_ok s -> s !! t = Some b -> nHeight b < 1073741824 ->
  0 <= CheckpointSpan p hp (nHeight b) < 1073741824 ->
  exists j c, AutoSelectSyncCheckpoint p hp s t = Some j /\ s !! j = Some c /\
    nHeight c = Z.max 0 (nHeight b - CheckpointSpan p hp (nHeight b)) /\ anc s t (Z.to_nat (nHeight b - nHeight c)) = Some j.
Proof.
  intros Hs Hb Hh Hsp. unfold AutoSelectSyncCheckpoint. rewrite Hb. cbn [mbind option_bind].
  pose proof (eo_height _ _ _ (Hs t b Hb)). eapply sync_loop_spec; try done; lia.
Qed.

(** ** Marks change nothing but the status *)

Definition strip (b : CBlockIndex) : CBlockIndex :=
  mkIndex (header b) (pprev b) (pskip b) (nHeight b) (nChainWork b) (nStakeModifier b) 0 (nTimeMax b).
Definition only_status (s s' : BlockMap) : Prop := forall i, strip <$> s !! i = strip <$> s' !! i.

Lemma only_status_refl s : only_status s s.
Proof. done. Qed.
Lemma only_status_sym s s' : only_status s s' -> only_status s' s.
Proof. intros HS i. by rewrite HS. Qed.
Lemma only_status_trans s s' s'' : only_status s s' -> only_status s' s'' -> only_status s s''.
Proof. intros H1 H2 i. by rewrite H1. Qed.

#[export] Instance only_status_equivalence : Equivalence only_status.
Proof. split; [exact only_status_refl|exact only_status_sym|exact only_status_trans]. Qed.

Lemma only_status_lookup s s' i b : only_status s s' -> s !! i = Some b -> exists b', s' !! i = Some b' /\ strip b = strip b'.
Proof.
  intros HS Hb. specialize (HS i). rewrite Hb in HS. destruct (s' !! i) as [b'|]; [|done]. exists b'. split; [done|].
  change (Some (strip b) = Some (strip b')) in HS. by apply (inj Some) in HS.
Qed.

Lemma strip_fields b b' : strip b = strip b' -> header b = header b' /\ pprev b = pprev b' /\ pskip b = pskip b' /\ nHeight b = nHeight b' /\ nChainWork b = nChainWork b'.
Proof. intros E. split_and!; [by apply (f_equal header) in E|by apply (f_equal pprev) in E|by apply (f_equal pskip) in E|by apply (f_equal Chain.nHeight) in E|by apply (f_equal nChainWork) in E]. Qed.

#[export] Instance anc_proper : Proper (only_status ==> eq ==> eq ==> eq) anc.
Proof.
  intros s s' HS i ? <- k ? <-. revert i. induction k as [|k IH]; intros i; [done|]. cbn.
  destruct (s !! i) as [b|] eqn:E.
  - destruct (only_status_lookup _ _ _ _ HS E) as (b' & -> & (_ & Ep & _)%strip_fields). cbn. rewrite Ep. destruct (pprev b'); [apply IH|done].
  - destruct (s' !! i) as [b'|] eqn:E'; [|done]. apply only_status_sym in HS. destruct (only_status_lookup _ _ _ _ HS E') as (b & ? & _). congruence.
Qed.

Lemma tree_ok_status s s' : only_status s s' -> tree_ok s -> tree_ok s'.
Proof.
  intros HS Ht i b' Hb'. destruct (only_status_lookup _ _ _ _ (only_status_sym _ _ HS) Hb') as (b & Hb & (_ & Ep & Ek & Eh & _)%strip_fields).
  destruct (Ht i b Hb) as [H0 Hr Hc]. split; rewrite ?Ep, ?Ek, ?Eh; [done|done|].
  intros j Hj. destruct (Hc j Hj) as (c & Hjc & Hh & k & Hk & Ha).
  destruct (only_status_lookup _ _ _ _ HS Hjc) as (c' & Hc' & (_ & _ & _ & Ech & _)%strip_fields).
  exists c'. split; [done|]. split; [congruence|]. exists k. split; [done|]. by rewrite <- HS.
Qed.

Lemma only_status_size s s' : only_status s s' -> size s = size s'.
Proof.
  intros HS. rewrite <- !size_dom. f_equal. apply set_eq. intros i. rewrite !elem_of_dom. specialize (HS i).
  destruct (s !! i), (s' !! i); cbn in HS; try done; split; intros [? [=]]; eauto.
Qed.

Lemma manager_ok_status m s' dirty : manager_ok m -> only_status (m_block_index m) s' -> manager_ok (set_index s' dirty m).
Proof.
  intros [Ht Hh Hw Hbest] HS. pose proof (only_status_sym _ _ HS) as HS'. split; cbn.
  - by eapply tree_ok_status.
  - intros i b Hb. destruct (only_status_lookup _ _ _ _ HS' Hb) as (c & Hc & (_ & _ & _ & Eh & _)%strip_fields).
    rewrite Eh, <- (only_status_size _ _ HS). by apply (Hh i).
  - intros i b Hb. destruct (only_status_lookup _ _ _ _ HS' Hb) as (c & Hc & (Ehd & Ep & _ & _ & Ew)%strip_fields).
    assert (Hwc : work_ok (m_block_index m) c) by exact (Hw i c Hc). destruct Hwc as [Hwf Hv]. split; [by rewrite Ew|].
    rewrite Ew, Hv, Ehd, Ep. f_equal. f_equal. destruct (pprev c) as [j|]; [|done]. cbn.
    destruct (m_block_index m !! j) as [x|] eqn:Ex.
    + destruct (only_status_lookup _ _ _ _ HS Ex) as (x' & -> & (_ & _ & _ & _ & Exw)%strip_fields). by rewrite Exw.
    + destruct (s' !! j) as [x'|] eqn:Ex'; [|done]. destruct (only_status_lookup _ _ _ _ HS' Ex') as (x & ? & _). congruence.
  - destruct (best_header m) as [h|]; [|apply map_eq; intros i; specialize (HS i); rewrite Hbest, lookup_empty in HS; rewrite lookup_empty; by destruct (s' !! i)].
    destruct Hbest as (x & Hx & Hmax). destruct (only_status_lookup _ _ _ _ HS Hx) as (x' & Hx' & (_ & _ & _ & _ & Ew)%strip_fields).
    exists x'. split; [done|]. intros i b Hb. destruct (only_status_lookup _ _ _ _ HS' Hb) as (c & Hc & (_ & _ & _ & _ & Ecw)%strip_fields).
    rewrite Ecw, <- Ew. by apply (Hmax i).
Qed.

(** ** The walk marks the blocks above a failed one *)

(** [j] is above [f] on the branch of [i]. *)
Definition above (s : BlockMap) (f i j : N) : Prop := exists k m, anc s i k = Some j /\ anc s j (S m) = Some f.

Lemma strip_mark b : strip (mark b) = strip b.
Proof. done. Qed.

Lemma only_status_mark s i b : s !! i = Some b -> only_status s (<[i := mark b]> s).
Proof. intros Hb j. destruct (decide (i = j)) as [<-|]; [by rewrite lookup_insert_eq, Hb|by rewrite lookup_insert_ne]. Qed.

Lemma invalid_walk_spec f k : forall s i b fuel dirty, tree_ok s -> s !! i = Some b -> anc s i k = Some f -> (k < fuel)%nat ->
  exists s' dirty', invalid_walk fuel f i s dirty = Some (s', dirty') /\ only_status s s' /\
    forall j, s' !! j = s !! j \/ above s f i j /\ s' !! j = mark <$> s !! j.
Proof.
  induction k as [|k IH]; intros s i b fuel dirty Hs Hb Ha Hf; (destruct fuel as [|fuel]; [lia|]); cbn [invalid_walk].
  - injection Ha as ->. rewrite N.eqb_refl. exists s, dirty. split; [done|]. split; [done|]. by left.
  - destruct (N.eqb_spec i f) as [->|Hne].
    { destruct (anc_height s Hs f b (S k) f Hb Ha) as (p & Hp & Hh). simplify_eq. lia. }
    rewrite Hb. cbn [mbind option_bind]. pose proof Ha as Ha'. cbn in Ha'. rewrite Hb in Ha'. cbn in Ha'.
    destruct (pprev b) as [j|] eqn:Ej; [|done]. cbn [mbind option_bind] in Ha' |- *.
    destruct (eo_child _ _ _ (Hs i b Hb) j Ej) as (c & Hc & Hh & _).
    pose proof (only_status_mark s i b Hb) as HS. assert (Hij : i <> j) by (intros ->; simplify_eq; lia).
    destruct (IH (<[i := mark b]> s) j c fuel ({[i]} ∪ dirty)) as (s' & dirty' & E & HS' & HM).
    + by eapply tree_ok_status.
    + by rewrite lookup_insert_ne.
    + rewrite <- HS. exact Ha'.
    + lia.
    + exists s', dirty'. split; [done|]. split; [by transitivity (<[i := mark b]> s)|]. intros x.
      assert (HA : above (<[i := mark b]> s) f j x -> above s f i x /\ x <> i).
      { intros (a & m & H1 & H2). rewrite <- HS in H1, H2. split.
        - exists (S a), m. split; [|done]. cbn. rewrite Hb. cbn. by rewrite Ej.
        - intros ->. destruct (anc_height s Hs j c a i Hc H1) as (p & Hp & Hhp). simplify_eq. lia. }
      destruct (decide (x = i)) as [->|Hx].
      * right. split; [exists 0%nat, k; split; [done|exact Ha]|]. destruct (HM i) as [Hi|[HAi _]]; [|by destruct (HA HAi)].
        rewrite Hi, lookup_insert_eq, Hb. done.
      * destruct (HM x) as [Hi|[HAi Hi]]; rewrite Hi, lookup_insert_ne by done; [by left|]. right. split; [by apply HA|done].
Qed.

(** The blocks marked invalid by the set are in the index and have failed themselves. *)
Definition failed_ok (s : BlockMap) (l : list N) : Prop :=
  Forall (fun f => exists b, s !! f = Some b /\ Z.land (nStatus b) BLOCK_FAILED_VALID <> 0) l.

Lemma GetAncestor_is s i b f c : tree_ok s -> s !! i = Some b -> s !! f = Some c ->
  exists a, GetAncestor s i (nHeight c) = Some a /\ (a = Some f <-> is_ancestor s i f).
Proof.
  intros Hs Hb Hc. pose proof (eo_height _ _ _ (Hs f c Hc)) as H0c. rewrite (GetAncestor_spec s Hs i b _ Hb).
  destruct (Z.ltb_spec (nHeight b) (nHeight c)); cbn [orb].
  - eexists. split; [done|]. split; [done|]. intros [k Hk]. destruct (anc_height s Hs i b k f Hb Hk) as (p & Hp & Hh). simplify_eq. lia.
  - rewrite (proj2 (Z.ltb_ge _ _)) by lia. eexists. split; [done|]. split; [by exists (Z.to_nat (nHeight b - nHeight c))|].
    intros [k Hk]. destruct (anc_height s Hs i b k f Hb Hk) as (p & Hp & Hh).
    assert (p = c) as -> by congruence. by replace (Z.to_nat (nHeight b - nHeight c)) with k by lia.
Qed.

Lemma find_failed_spec l m i b : tree_ok (m_block_index m) -> failed_ok (m_block_index m) l -> m_block_index m !! i = Some b ->
  exists r m', find_failed l i m = Some (r, m') /\
    (r = true <-> exists f, f ∈ l /\ is_ancestor (m_block_index m) i f) /\
    (r = false -> m' = m) /\
    best_header m' = best_header m /\ setStakeSeen m' = setStakeSeen m /\
    only_status (m_block_index m) (m_block_index m') /\
    forall j, m_block_index m' !! j = m_block_index m !! j \/
      (exists f, f ∈ l /\ above (m_block_index m) f i j) /\ m_block_index m' !! j = mark <$> m_block_index m !! j.
Proof.
  intros Hs Hl Hb. induction Hl as [|f l (c & Hc & Hst) Hl IH].
  { exists false, m. split; [done|]. split; [split; [done|by intros (f & ?%elem_of_nil & _)]|]. do 3 (split; [done|]). split; [done|]. by left. }
  cbn [find_failed]. rewrite Hc. cbn [mbind option_bind].
  destruct (GetAncestor_is _ i b f c Hs Hb Hc) as (a & -> & Ha). cbn [mbind option_bind]. case_bool_decide as Hd.
  - rewrite (proj2 (Z.eqb_neq _ _) Hst). rewrite Hb. cbn [mbind option_bind]. apply Ha in Hd as [k Hk].
    destruct (anc_height _ Hs i b k f Hb Hk) as (p & Hp & Hh). pose proof (eo_height _ _ _ (Hs _ _ Hp)).
    destruct (invalid_walk_spec f k _ i b (S (Z.to_nat (nHeight b))) (m_dirty_blockindex m) Hs Hb Hk ltac:(lia)) as (s' & dirty' & -> & HS & HM).
    cbn [mbind option_bind]. exists true, (set_index s' dirty' m). split; [done|].
    split; [split; [intros _; exists f; split; [by left|by exists k]|done]|]. do 3 (split; [done|]). split; [exact HS|].
    intros j. destruct (HM j) as [|[HA Hj]]; [by left|right]. split; [|done]. exists f. split; [by left|done].
  - destruct IH as (r & m' & -> & Hr & Hf & H1 & H2 & H3 & H4). exists r, m'. split; [done|]. split; [|do 4 (split; [done|])].
    + rewrite Hr. split; intros (g & Hg & Hag); exists g; [split; [by right|done]|].
      apply elem_of_cons in Hg as [->|Hg]; [by destruct Hd; apply Ha|done].
    + intros j. destruct (H4 j) as [|[(g & Hg & HA) Hj]]; [by left|right]. split; [|done]. exists g. split; [by right|done].
Qed.

(** ** What an accepted header satisfies *)

Section Rules.
Context {K : Crypto} {Rc : Recovery} {V G : Type} `{CCoinsView V}.
Context (p : Params) (sp : StakeParams) (hp : HeaderParams) (CheckLowS : list Z -> bool).
Context (ReadBlock : N -> option Block.CBlock) (ReadBlockUndo : N -> option (list (list Coin))).
Context (ibd : bool) (m_chain : CChain) (now : Z).

(** The height of the synchronized checkpoint below a tip *)
Definition sync_height (tip : CBlockIndex) : Z := Z.max 0 (nHeight tip - CheckpointSpan p hp (nHeight tip)).

(** The rules of a header with parent [b] that read nothing but headers. *)
Record context_rules (s : BlockMap) (tip : CBlockIndex) (hdr : CBlockHeader) (b : CBlockIndex) : Prop := {
  cr_bits : GetNextWorkRequired s (Some (hashPrevBlock hdr)) (nTime hdr) p (Block.IsProofOfStake hdr) = Some (nBits hdr);
  cr_checkpoint : checkpoints_enabled hp = true ->
    (forall c cb, GetLastCheckpoint s (mapCheckpoints hp) = Some c -> s !! c = Some cb -> nHeight cb <= nHeight b + 1) /\
    CheckHardened (nHeight b + 1) (Block.GetBlockHash hdr) (mapCheckpoints hp) = true;
  cr_sync : sync_height tip < nHeight b + 1;
  cr_median : Block.IsProofOfStake hdr = true -> exists l m, recent_times s (hashPrevBlock hdr) l /\ median_of l m /\ m < nTime hdr;
  cr_warp : enforce_BIP94 p = true -> Z.rem (nHeight b + 1) (DifficultyAdjustmentInterval p (nHeight b + 1)) = 0 ->
    GetBlockTime b - MAX_TIMEWARP <= nTime hdr;
  cr_future : Block.IsProofOfStake hdr = true -> nTime hdr <= FutureDrift p now (nHeight b + 1);
  cr_version : (nVersion hdr < 2 -> nHeight b + 1 < BIP34Height hp) /\ (nVersion hdr < 3 -> nHeight b + 1 < BIP66Height hp) /\
    (nVersion hdr < 4 -> nHeight b + 1 < BIP65Height hp)
}.

(** All the rules, with the failed blocks and the proof of the header *)
Record header_rules (s : BlockMap) (failed_blocks : list N) (t : N) (tip : CBlockIndex) (w : world V G) (hdr : CBlockHeader) (b : CBlockIndex) : Prop := {
  hr_fork_time : hashPrevBlock hdr = t \/
    exists j c, anc s t (Z.to_nat (nHeight tip - sync_height tip)) = Some j /\ s !! j = Some c /\ nTime (header c) <= nTime hdr;
  hr_signature : CheckCanonicalBlockSignature CheckLowS hdr = true;
  hr_parent : failed b = false;
  hr_ancestors : forall f, f ∈ failed_blocks -> ~ is_ancestor s (hashPrevBlock hdr) f;
  hr_context : context_rules s tip hdr b;
  hr_pow : Block.IsProofOfWork hdr = true -> nHeight b + 1 <= nLastPOWBlock sp /\ CheckHeaderPoW p hdr = true;
  hr_pos : Block.IsProofOfStake hdr = true -> CoinbaseMaturity p (nHeight b + 1) <= nHeight b + 1 /\
    CheckCoinStakeTimestamp p (nTime hdr) (nHeight b + 1) = true /\
    (ibd = false -> exists w', CheckHeaderPoS p sp s ReadBlock ReadBlockUndo (nEnableHeaderSignatureHeight hp) m_chain hdr w = (Done true, w'))
}.

Lemma last_checkpoint_known s l c : GetLastCheckpoint s l = Some c -> is_Some (s !! c).
Proof.
  unfold GetLastCheckpoint. induction (reverse l) as [|[h x] l' IH]; [done|]. cbn. case_bool_decide; [by intros [= <-]|done].
Qed.

(** A test that fails rejects on both sides. *)
#[local] Ltac rejected := split; [by intros [=]|]; intros HR; exfalso; destruct HR.

Lemma contextual_spec s t tip hdr b : tree_ok s -> s !! t = Some tip -> s !! hashPrevBlock hdr = Some b ->
  nHeight tip < 1073741824 -> nHeight b < 1073741824 -> 0 <= CheckpointSpan p hp (nHeight tip) < 1073741824 ->
  ContextualCheckBlockHeader p hp s (Some t) now hdr (hashPrevBlock hdr) = Some Valid <-> context_rules s tip hdr b.
Proof.
  intros Hs Ht Hb Hht Hhb Hsp. pose proof (eo_height _ _ _ (Hs _ _ Hb)) as H0b. unfold ContextualCheckBlockHeader. rewrite Hb.
  cbn [mbind option_bind]. rewrite i32_id by (unfold in_i32; lia).
  destruct (GetNextWorkRequired s (Some (hashPrevBlock hdr)) (nTime hdr) p (Block.IsProofOfStake hdr)) as [bits|] eqn:Eb; [|by rejected; congruence].
  cbn [mbind option_bind]. destruct (Z.eqb_spec (nBits hdr) bits) as [<-|]; [|by rejected; congruence]. cbn [negb].
  assert (exists before, match GetLastCheckpoint s (mapCheckpoints hp) with None => Some false | Some c => cb ← s !! c; Some (nHeight b + 1 <? nHeight cb) end = Some before /\
    (before = false <-> forall c cb, GetLastCheckpoint s (mapCheckpoints hp) = Some c -> s !! c = Some cb -> nHeight cb <= nHeight b + 1)) as (before & -> & HB).
  { destruct (GetLastCheckpoint s (mapCheckpoints hp)) as [c|] eqn:Ec; [|by exists false]. destruct (last_checkpoint_known _ _ _ Ec) as [cb Hcb].
    rewrite Hcb. cbn. eexists. split; [done|]. rewrite Z.ltb_ge. split; [intros ? ? ? [= <-] ?; by simplify_eq|eauto]. }
  cbn [mbind option_bind]. destruct (checkpoints_enabled hp && before) eqn:EC.
  { rejected. apply andb_prop in EC as [Ec ->]. destruct (cr_checkpoint0 Ec) as [HC _]. by apply HB in HC. }
  destruct (checkpoints_enabled hp && negb (CheckHardened (nHeight b + 1) (Block.GetBlockHash hdr) (mapCheckpoints hp))) eqn:EH.
  { rejected. apply andb_prop in EH as [Ec EH]. destruct (cr_checkpoint0 Ec) as [_ HC]. by rewrite HC in EH. }
  assert (HCP : checkpoints_enabled hp = true ->
    (forall c cb, GetLastCheckpoint s (mapCheckpoints hp) = Some c -> s !! c = Some cb -> nHeight cb <= nHeight b + 1) /\
    CheckHardened (nHeight b + 1) (Block.GetBlockHash hdr) (mapCheckpoints hp) = true).
  { intros Ec. rewrite Ec in *. cbn [andb] in *. split; [by apply HB|]. by apply negb_false_iff. }
  destruct (sync_checkpoint_spec p hp s t tip Hs Ht Hht Hsp) as (j & c & Ej & Hc & Hhc & _). fold (sync_height tip) in Hhc.
  unfold CheckSync. rewrite (proj2 (Z.eqb_neq (nHeight b + 1) 0)) by lia. cbn [mbind option_bind]. rewrite Ej. cbn [mbind option_bind]. rewrite Hc. cbn [mbind option_bind].
  rewrite Hhc. destruct (Z.ltb_spec (sync_height tip) (nHeight b + 1)); [|by rejected; lia]. cbn [negb].
  assert (exists old, (if Block.IsProofOfStake hdr then median ← GetMedianTimePast s (hashPrevBlock hdr); Some (nTime hdr <=? median) else Some false) = Some old /\
    (old = false <-> (Block.IsProofOfStake hdr = true -> exists l m, recent_times s (hashPrevBlock hdr) l /\ median_of l m /\ m < nTime hdr))) as (old & -> & HO).
  { destruct (Block.IsProofOfStake hdr); [|by exists false]. destruct (GetMedianTimePast s (hashPrevBlock hdr)) as [m|] eqn:Em.
    - cbn. eexists. split; [done|]. rewrite Z.leb_gt. pose proof (proj1 (median_time_spec s _ b m Hs Hb) Em) as (l & Hl & Hm). split.
      + intros Hlt _. by exists l, m.
      + intros HX. destruct (HX eq_refl) as (l' & m' & Hl' & Hm' & Hlt).
        assert (Em' : GetMedianTimePast s (hashPrevBlock hdr) = Some m') by (apply (median_time_spec s _ b); eauto). simplify_eq. done.
    - unfold GetMedianTimePast in Em. destruct (last_times_spec s Hs nMedianTimeSpan _ b Hb) as (l & El & _). by rewrite El in Em. }
  cbn [mbind option_bind]. destruct old; [by rejected; apply HO in cr_median0|]. pose proof (proj1 HO eq_refl) as HM.
  destruct (enforce_BIP94 p && _ && _) eqn:EW.
  { rejected. rewrite !andb_true_iff, Z.eqb_eq, Z.ltb_lt in EW. destruct EW as [[E1 E2] E3]. specialize (cr_warp0 E1 E2). lia. }
  rewrite !andb_false_iff, Z.eqb_neq, Z.ltb_ge in EW.
  destruct (Block.IsProofOfStake hdr && (FutureDrift p now (nHeight b + 1) <? nTime hdr)) eqn:EF.
  { rejected. rewrite andb_true_iff, Z.ltb_lt in EF. destruct EF as [E1 E2]. specialize (cr_future0 E1). lia. }
  rewrite andb_false_iff, Z.ltb_ge in EF.
  match goal with |- context [if ?c then _ else _] => destruct c eqn:EV end.
  { rejected. destruct cr_version0 as (V2 & V3 & V4). rewrite !orb_true_iff, !andb_true_iff, !Z.ltb_lt, !Z.leb_le in EV. lia. }
  rewrite !orb_false_iff, !andb_false_iff, !Z.ltb_ge, !Z.leb_gt in EV.
  split; [intros _|done]. split; try done.
  - intros E1 E2. rewrite E1 in EW. destruct EW as [[?|?]|?]; [done|done|lia].
  - intros E1. rewrite E1 in EF. destruct EF as [?|?]; [done|lia].
  - split_and!; intros; lia.
Qed.
(** ** Accepting a new header *)

(** The state between calls: the index of Chain.v, failed blocks that are in it, and no
    block valid up to its scripts above one of them. *)
Record node_ok (cm : ChainstateManager) : Prop := {
  no_manager : manager_ok (m_blockman cm);
  no_failed : failed_ok (m_block_index (m_blockman cm)) (m_failed_blocks cm);
  no_clean : forall i b f, m_block_index (m_blockman cm) !! i = Some b -> IsValid BLOCK_VALID_SCRIPTS (nStatus b) = true ->
    f ∈ m_failed_blocks cm -> ~ is_ancestor (m_block_index (m_blockman cm)) i f
}.

(** Walking the failed blocks is skipped only where it finds nothing. *)
Lemma failed_search cm i b : node_ok cm -> m_block_index (m_blockman cm) !! i = Some b -> exists bad m',
  (forall w : world V G, (if IsValid BLOCK_VALID_SCRIPTS (nStatus b) then ret (false, m_blockman cm)
    else follow (find_failed (m_failed_blocks cm) i (m_blockman cm))) w = (Done (bad, m'), w)) /\
  (bad = true <-> exists f, f ∈ m_failed_blocks cm /\ is_ancestor (m_block_index (m_blockman cm)) i f) /\
  (bad = false -> m' = m_blockman cm) /\
  best_header m' = best_header (m_blockman cm) /\ setStakeSeen m' = setStakeSeen (m_blockman cm) /\
  only_status (m_block_index (m_blockman cm)) (m_block_index m') /\
  forall j, m_block_index m' !! j = m_block_index (m_blockman cm) !! j \/
    (exists f, f ∈ m_failed_blocks cm /\ above (m_block_index (m_blockman cm)) f i j) /\
    m_block_index m' !! j = mark <$> m_block_index (m_blockman cm) !! j.
Proof.
  intros [Hm Hf Hc] Hb. destruct (IsValid BLOCK_VALID_SCRIPTS (nStatus b)) eqn:EV.
  - exists false, (m_blockman cm). split; [done|]. split; [|do 4 (split; [done|]); by left].
    split; [done|]. intros (f & Hin & Ha). by destruct (Hc i b f Hb EV Hin).
  - destruct (find_failed_spec (m_failed_blocks cm) (m_blockman cm) i b (mo_tree _ Hm) Hf Hb) as (r & m' & E & H1 & H2 & H3 & H4 & H5 & H6).
    exists r, m'. split; [intros w; unfold follow; by rewrite E|]. by split_and!.
Qed.

Abbreviation accept := (AcceptBlockHeader p sp hp CheckLowS ReadBlock ReadBlockUndo ibd m_chain now).

Lemma older_spec s t tip hdr : tree_ok s -> Tip m_chain = Some t -> s !! t = Some tip -> nHeight tip < 1073741824 ->
  0 <= CheckpointSpan p hp (nHeight tip) < 1073741824 ->
  exists older, older_than_checkpoint p hp m_chain s hdr = Some older /\
    (older = false <-> hashPrevBlock hdr = t \/
      exists j c, anc s t (Z.to_nat (nHeight tip - sync_height tip)) = Some j /\ s !! j = Some c /\ nTime (header c) <= nTime hdr).
Proof.
  intros Hs Ht Htip Hh Hsp. unfold older_than_checkpoint. rewrite Ht. destruct (N.eqb_spec (hashPrevBlock hdr) t) as [->|Hne]; [exists false; split; [done|tauto]|].
  destruct (sync_checkpoint_spec p hp s t tip Hs Htip Hh Hsp) as (j & c & -> & Hc & Hhc & Ha). cbn [mbind option_bind]. rewrite Hc. cbn [mbind option_bind].
  eexists. split; [done|]. fold (sync_height tip) in Hhc. rewrite Hhc in Ha. rewrite Z.ltb_ge. split.
  - intros Hle. right. exists j, c. split; [done|]. split; [done|]. lia.
  - intros [?|(j' & c' & Ha' & Hc' & Hle)]; [done|]. simplify_eq. lia.
Qed.

(** A rejection is an acceptance nowhere. *)
Lemma rejected_iff (P : Prop) r c (cm' : ChainstateManager) (w' : world V G) : ~ P ->
  (exists pindex cm'' w'', (Done (Rejected r c, @None N, cm'), w') = (Done (Valid, pindex, cm''), w'')) <-> P.
Proof. intros Hn. split; [by intros (? & ? & ? & [=])|]. by intros ?%Hn. Qed.

Lemma check_header_spec s hdr (w : world V G) :
  (exists w', CheckBlockHeader p sp hp ReadBlock ReadBlockUndo ibd m_chain s hdr true true w = (Done Valid, w')) <->
  (Block.IsProofOfWork hdr = true -> CheckHeaderPoW p hdr = true) /\
  (Block.IsProofOfStake hdr = true -> ibd = false ->
   exists w', CheckHeaderPoS p sp s ReadBlock ReadBlockUndo (nEnableHeaderSignatureHeight hp) m_chain hdr w = (Done true, w')).
Proof.
  unfold CheckBlockHeader. cbn [andb]. unfold Block.IsProofOfWork. destruct (Block.IsProofOfStake hdr) eqn:ES; cbn [negb andb]; rewrite ?andb_false_r, ?andb_true_r.
  - destruct ibd; cbn [negb]; [split; [by split|by exists w]|]. unfold bind.
    destruct (CheckHeaderPoS p sp s ReadBlock ReadBlockUndo (nEnableHeaderSignatureHeight hp) m_chain hdr w) as [[[|]| |] w1] eqn:EK.
    all: split; [intros [w' E]; first [discriminate E|split; [done|]; intros _ _; by exists w1]|intros [_ HX]; destruct (HX eq_refl eq_refl) as [w2 [= ?]]; by eexists].
  - destruct (CheckHeaderPoW p hdr); cbn [negb]; [split; [by split|by exists w]|]. split; [by intros [w' [=]]|]. intros [HX _]. by specialize (HX eq_refl).
Qed.

Lemma add_accepts cm hdr (w : world V G) : manager_ok (m_blockman cm) -> header_ok hdr -> Block.GetBlockHash hdr <> hashPrevBlock hdr ->
  Z.of_nat (size (m_block_index (m_blockman cm))) < 2147483647 ->
  exists pindex cm' w', bind (follow (AddToBlockIndex Block.GetBlockHash hdr (m_blockman cm)))
    (fun '(pindex, m) => ret (Valid, Some pindex, mkChainman m (m_failed_blocks cm))) w = (Done (Valid, pindex, cm'), w').
Proof.
  intros Hm Hhdr Hself Hsz. destruct (AddToBlockIndex_ok Block.GetBlockHash hdr (m_blockman cm) Hself Hm Hhdr Hsz) as (m1 & E1 & _).
  unfold bind, follow. rewrite E1. by repeat eexists.
Qed.

(** C9: A new header is accepted exactly when it satisfies the rules of the headers before it:
    the difficulty the retargeting demands, the checkpoints, the rolling checkpoint one
    span below the active tip, and, for proof of stake, a time above the median of the
    last eleven and not in the future, the maturity, the masked timestamp and the stake
    proof (during the initial download without the last), for proof of work its height and
    its hash; and when no block it descends from is known to be invalid.  The walks over
    the index (the median, the checkpoint, the failed blocks with their skipped search)
    are total and mean what the rules say. *)
Theorem new_header_accepted_exactly cm hdr t tip (w : world V G) : node_ok cm -> header_ok hdr ->
  let s := m_block_index (m_blockman cm) in
  Z.of_nat (size s) < 1073741824 -> Block.GetBlockHash hdr <> hashPrevBlock hdr -> Block.GetBlockHash hdr <> hashGenesisBlock hp ->
  s !! Block.GetBlockHash hdr = None -> Tip m_chain = Some t -> s !! t = Some tip -> 0 <= CheckpointSpan p hp (nHeight tip) < 1073741824 ->
  (exists pindex cm' w', accept hdr true cm w = (Done (Valid, pindex, cm'), w')) <->
  exists b, s !! hashPrevBlock hdr = Some b /\ header_rules s (m_failed_blocks cm) t tip w hdr b.
Proof.
  intros Hok Hhdr s Hsz Hself Hgen Hnew Ht Htip Hsp. pose proof (no_manager _ Hok) as Hm. pose proof (mo_tree _ Hm) as Hs. fold s in Hs.
  assert (HH : forall i b, s !! i = Some b -> 0 <= nHeight b < 1073741824).
  { intros i b Hb. split; [apply (eo_height _ _ _ (Hs i b Hb))|]. assert (nHeight b < Z.of_nat (size s)) by exact (mo_heights _ Hm i b Hb). lia. }
  unfold AcceptBlockHeader. fold s. rewrite (proj2 (N.eqb_neq _ _) Hgen), Hnew.
  destruct (older_spec s t tip hdr Hs Ht Htip ltac:(by eapply HH) Hsp) as (older & Eo & HO). rewrite (bind_Done _ _ _ older w) by (unfold follow; by rewrite Eo).
  destruct older; [apply rejected_iff; intros (b & _ & Hr); destruct Hr; by apply HO in hr_fork_time0|].
  destruct (CheckCanonicalBlockSignature CheckLowS hdr) eqn:ES; cbn [negb]; [|apply rejected_iff; intros (b & _ & Hr); destruct Hr; congruence].
  destruct (s !! hashPrevBlock hdr) as [b|] eqn:Eb; [|apply rejected_iff; by intros (b & [=] & _)].
  assert (HB : (exists b0, Some b = Some b0 /\ header_rules s (m_failed_blocks cm) t tip w hdr b0) <-> header_rules s (m_failed_blocks cm) t tip w hdr b).
  { split; [by intros (? & [= <-] & ?)|eauto]. }
  rewrite HB. clear HB. specialize (HH _ _ Eb) as Hhb.
  destruct (failed b) eqn:EF; [apply rejected_iff; intros Hr; destruct Hr; congruence|].
  pose proof (contextual_spec s t tip hdr b Hs Htip Eb ltac:(by eapply HH) ltac:(lia) Hsp) as HC. rewrite <- Ht in HC.
  unfold follow at 1. unfold bind at 1.
  destruct (ContextualCheckBlockHeader p hp s (Tip m_chain) now hdr (hashPrevBlock hdr)) as [[|r c]|] eqn:EC.
  2:{ apply rejected_iff. intros Hr. destruct Hr. by apply HC in hr_context0. }
  2:{ split; [by intros (? & ? & ? & [=])|]. intros Hr. destruct Hr. by apply HC in hr_context0. }
  pose proof (proj1 HC eq_refl) as HCR.
  destruct (failed_search cm _ b Hok Eb) as (bad & m' & Em & Hbad & Hm' & _). rewrite (bind_Done _ _ _ _ _ (Em w)).
  destruct bad; [apply rejected_iff; intros Hr; destruct Hr; destruct (proj1 Hbad eq_refl) as (f & Hf & Ha); by eapply hr_ancestors0|].
  rewrite (Hm' eq_refl). rewrite i32_id by (unfold in_i32; lia).
  assert (HA : forall f, f ∈ m_failed_blocks cm -> ~ is_ancestor s (hashPrevBlock hdr) f).
  { intros f Hf Ha. assert (false = true) by (apply Hbad; by exists f). done. }
  destruct (Block.IsProofOfWork hdr && (nLastPOWBlock sp <? nHeight b + 1)) eqn:EP.
  { apply rejected_iff. intros Hr. destruct Hr. apply andb_prop in EP as [E1 E2%Z.ltb_lt]. destruct (hr_pow0 E1). lia. }
  destruct (Block.IsProofOfStake hdr && (nHeight b + 1 <? CoinbaseMaturity p (nHeight b + 1))) eqn:EM.
  { apply rejected_iff. intros Hr. destruct Hr. apply andb_prop in EM as [E1 E2%Z.ltb_lt]. destruct (hr_pos0 E1) as [? _]. lia. }
  destruct (Block.IsProofOfStake hdr && negb (CheckCoinStakeTimestamp p (nTime hdr) (nHeight b + 1))) eqn:ET.
  { apply rejected_iff. intros Hr. destruct Hr. apply andb_prop in ET as [E1 E2]. destruct (hr_pos0 E1) as (_ & E3 & _). by rewrite E3 in E2. }
  rewrite andb_false_iff, Z.ltb_ge in EP, EM. rewrite andb_false_iff, negb_false_iff in ET.
  assert (HW : Block.IsProofOfWork hdr = true -> nHeight b + 1 <= nLastPOWBlock sp) by (intros E1; rewrite E1 in EP; destruct EP; [done|lia]).
  assert (HP : Block.IsProofOfStake hdr = true -> CoinbaseMaturity p (nHeight b + 1) <= nHeight b + 1 /\ CheckCoinStakeTimestamp p (nTime hdr) (nHeight b + 1) = true).
  { intros E1. rewrite E1 in EM, ET. split; [destruct EM; [done|lia]|by destruct ET]. }
  unfold bind at 1. cbn [m_blockman m_failed_blocks].
  assert (HK : header_rules s (m_failed_blocks cm) t tip w hdr b <->
    exists w', CheckBlockHeader p sp hp ReadBlock ReadBlockUndo ibd m_chain s hdr true true w = (Done Valid, w')).
  { rewrite check_header_spec. split; [intros [_ _ _ _ _ H1 H2]; split; [intros E1; by apply H1|intros E1; by apply H2]|].
    intros [HK1 HK2]. split; try done; [by apply HO|auto|]. intros E1. destruct (HP E1). split_and!; auto. }
  rewrite HK. destruct (CheckBlockHeader p sp hp ReadBlock ReadBlockUndo ibd m_chain s hdr true true w) as [[[|r c]| |] w1].
  - split; [eauto|]. intros _. apply add_accepts; [done..|fold s; lia].
  - apply rejected_iff. by intros [? [=]].
  - split; [by intros (? & ? & ? & [=])|by intros [? [=]]].
  - split; [by intros (? & ? & ? & [=])|by intros [? [=]]].
Qed.

(** ** Headers never build on failed blocks *)

(** What a call can do to the manager: nothing, mark the descendants of a failed block, or
    add the header. *)
Lemma accept_cases cm hdr min (w w' : world V G) v pindex cm' : node_ok cm -> accept hdr min cm w = (Done (v, pindex, cm'), w') ->
  let s := m_block_index (m_blockman cm) in
  (cm' = cm /\ (v = Valid -> is_Some (s !! Block.GetBlockHash hdr))) \/
  (v <> Valid /\ exists b m', s !! hashPrevBlock hdr = Some b /\ cm' = mkChainman m' (m_failed_blocks cm) /\
     best_header m' = best_header (m_blockman cm) /\ setStakeSeen m' = setStakeSeen (m_blockman cm) /\
     only_status s (m_block_index m') /\
     forall j, m_block_index m' !! j = s !! j \/
       (exists f, f ∈ m_failed_blocks cm /\ above s f (hashPrevBlock hdr) j) /\ m_block_index m' !! j = mark <$> s !! j) \/
  (v = Valid /\ (Block.GetBlockHash hdr = hashGenesisBlock hp \/
     exists b, s !! hashPrevBlock hdr = Some b /\ failed b = false /\ forall f, f ∈ m_failed_blocks cm -> ~ is_ancestor s (hashPrevBlock hdr) f) /\
   exists h m', AddToBlockIndex Block.GetBlockHash hdr (m_blockman cm) = Some (h, m') /\ cm' = mkChainman m' (m_failed_blocks cm)).
Proof.
  intros Hok E s. unfold AcceptBlockHeader in E. fold s in E.
  assert (HADD : forall cm0 (w0 : world V G), m_blockman cm0 = m_blockman cm -> m_failed_blocks cm0 = m_failed_blocks cm ->
    (if negb min then ret (Rejected BLOCK_HEADER_LOW_WORK "too-little-chainwork", None, cm0)
     else bind (follow (AddToBlockIndex Block.GetBlockHash hdr (m_blockman cm0))) (fun '(pindex, m) => ret (Valid, Some pindex, mkChainman m (m_failed_blocks cm0)))) w0 =
    (Done (v, pindex, cm'), w') ->
    (cm' = cm /\ v <> Valid) \/
    v = Valid /\ exists h m', AddToBlockIndex Block.GetBlockHash hdr (m_blockman cm) = Some (h, m') /\ cm' = mkChainman m' (m_failed_blocks cm)).
  { intros [m0 l0] w0. cbn. intros -> ->. destruct min; cbn [negb].
    - unfold bind, follow. destruct (AddToBlockIndex Block.GetBlockHash hdr (m_blockman cm)) as [[h m']|]; [|done]. intros [= <- _ <- _]. right. eauto 10.
    - intros [= <- _ <- _]. left. by destruct cm. }
  destruct (N.eqb_spec (Block.GetBlockHash hdr) (hashGenesisBlock hp)) as [Hg|Hg].
  { destruct (HADD cm w eq_refl eq_refl E) as [[-> Hv]|(-> & HX)]; [left; by split|right; right; eauto]. }
  destruct (s !! Block.GetBlockHash hdr) as [x|] eqn:Eh; [injection E as _ _ <- _; left; split; [done|]; by eexists|].
  unfold bind at 1, follow at 1 in E. destruct (older_than_checkpoint p hp m_chain s hdr) as [[|]|]; [injection E as <- _ <- _; by left|..|done].
  destruct (CheckCanonicalBlockSignature CheckLowS hdr); cbn [negb] in E; [|injection E as <- _ <- _; by left].
  destruct (s !! hashPrevBlock hdr) as [b|] eqn:Eb; [|injection E as <- _ <- _; by left].
  destruct (failed b) eqn:EF; [injection E as <- _ <- _; by left|].
  unfold bind at 1, follow at 1 in E. destruct (ContextualCheckBlockHeader p hp s (Tip m_chain) now hdr (hashPrevBlock hdr)) as [[|r c]|]; [..|done].
  2:{ injection E as <- _ <- _. by left. }
  destruct (failed_search cm _ b Hok Eb) as (bad & m' & Em & Hbad & Hm' & H1 & H2 & H3 & H4). rewrite (bind_Done _ _ _ _ _ (Em w)) in E.
  destruct bad.
  { injection E as <- _ <- _. right. left. split; [done|]. exists b, m'. by split_and!. }
  rewrite (Hm' eq_refl) in E. assert (HC : mkChainman (m_blockman cm) (m_failed_blocks cm) = cm) by (by destruct cm). rewrite HC in E.
  assert (HA : forall f, f ∈ m_failed_blocks cm -> ~ is_ancestor s (hashPrevBlock hdr) f).
  { intros f Hf Ha. assert (false = true) by (apply Hbad; by exists f). done. }
  do 3 (match type of E with context [if ?c then _ else _] => destruct c; [injection E as <- _ <- _; by left|] end).
  unfold bind at 1 in E. destruct (CheckBlockHeader _ _ _ _ _ _ _ _ _ _ _ _) as [[[|r c]| |] w1]; [..|done|done].
  - destruct (HADD cm w1 eq_refl eq_refl E) as [[-> Hv]|(-> & HX)]; [left; by split|right; right]. split; [done|]. split; [right; eauto|done].
  - injection E as <- _ <- _. by left.
Qed.

Lemma anc_extend s i e (Hs : tree_ok s) : s !! i = None -> forall k j b, s !! j = Some b -> anc (<[i := e]> s) j k = anc s j k.
Proof.
  intros Hi. induction k as [|k IH]; intros j b Hb; [done|]. cbn. rewrite lookup_insert_ne by congruence. rewrite Hb. cbn.
  destruct (pprev b) as [x|] eqn:Ex; [|done]. cbn. destruct (eo_child _ _ _ (Hs j b Hb) x Ex) as (c & Hc & _). by eapply IH.
Qed.

(** The entry of a new header *)
Lemma add_new_entry hdr m h m' : AddToBlockIndex Block.GetBlockHash hdr m = Some (h, m') -> m_block_index m !! Block.GetBlockHash hdr = None ->
  Block.GetBlockHash hdr <> hashPrevBlock hdr ->
  exists e, m_block_index m' = <[Block.GetBlockHash hdr := e]> (m_block_index m) /\ header e = hdr /\ nStatus e = BLOCK_VALID_TREE /\
    pprev e = (match m_block_index m !! hashPrevBlock hdr with Some _ => Some (hashPrevBlock hdr) | None => None end).
Proof.
  intros Ha Hd Hself. revert Ha. unfold AddToBlockIndex. rewrite bool_decide_eq_false_2 by (rewrite Hd; by intros [? [=]]).
  rewrite (lookup_insert_ne _ (Block.GetBlockHash hdr) (hashPrevBlock hdr)) by done.
  intros (skip & _ & (pr & _ & (better & _ & [= _ <-])%bind_Some)%bind_Some)%bind_Some. cbn [m_block_index]. rewrite insert_insert_eq.
  eexists. split; [done|]. cbn [header pprev nStatus]. split; [done|]. split; [reflexivity|done].
Qed.

Lemma mark_failed b : failed (mark b) = true.
Proof.
  unfold failed, mark. cbn [nStatus]. apply negb_true_iff, Z.eqb_neq. intros E. apply (f_equal (fun z => Z.testbit z 6)) in E.
  rewrite Z.land_spec, Z.lor_spec in E. change (Z.testbit BLOCK_FAILED_CHILD 6) with true in E. change (Z.testbit BLOCK_FAILED_MASK 6) with true in E.
  rewrite orb_true_r in E. done.
Qed.

Lemma mark_keeps_valid b : Z.land (nStatus b) BLOCK_FAILED_VALID <> 0 -> Z.land (nStatus (mark b)) BLOCK_FAILED_VALID <> 0.
Proof.
  unfold mark. cbn [nStatus]. rewrite Z.land_lor_distr_l. change (Z.land BLOCK_FAILED_CHILD BLOCK_FAILED_VALID) with 0. by rewrite Z.lor_0_r.
Qed.

Lemma failed_not_valid b n : failed b = true -> IsValid n (nStatus b) = false.
Proof. unfold failed, IsValid. by intros ->. Qed.

(** C8: No header is ever added on top of a block known to be invalid.  Whatever header is
    offered and whatever the verdict, the invariants of the index are kept, and the call
    does one of three things: it adds the header, whose branch then contains none of the
    failed blocks and no marked parent; or it marks blocks that descend from a failed
    block, and nothing else; or it leaves the index as it was. *)
Theorem headers_avoid_failed_blocks cm hdr min (w w' : world V G) v pindex cm' : node_ok cm -> header_ok hdr ->
  let s := m_block_index (m_blockman cm) in
  let s' := m_block_index (m_blockman cm') in
  Z.of_nat (size s) < 2147483647 -> Block.GetBlockHash hdr <> hashPrevBlock hdr ->
  accept hdr min cm w = (Done (v, pindex, cm'), w') ->
  node_ok cm' /\ m_failed_blocks cm' = m_failed_blocks cm /\
  (v = Valid -> is_Some (s' !! Block.GetBlockHash hdr)) /\
  (s !! Block.GetBlockHash hdr = None -> v = Valid -> Block.GetBlockHash hdr <> hashGenesisBlock hp ->
   exists e b, s' = <[Block.GetBlockHash hdr := e]> s /\ header e = hdr /\ pprev e = Some (hashPrevBlock hdr) /\
     s !! hashPrevBlock hdr = Some b /\ failed b = false /\ forall f, f ∈ m_failed_blocks cm -> ~ is_ancestor s' (Block.GetBlockHash hdr) f) /\
  (v <> Valid -> forall j, s' !! j = s !! j \/
     (exists f, f ∈ m_failed_blocks cm /\ above s f (hashPrevBlock hdr) j) /\ s' !! j = mark <$> s !! j).
Proof.
  intros Hok Hhdr s s' Hsz Hself E. destruct Hok as [Hm Hf Hc] eqn:EO. clear EO. pose proof (mo_tree _ Hm) as Hs.
  destruct (accept_cases _ _ _ _ _ _ _ _ Hok E) as [[-> Hv]|[(Hv & b & m' & Hb & -> & H1 & H2 & H3 & H4)|(-> & HP & h & m' & Ea & ->)]]; unfold s' in *; cbn [m_blockman m_failed_blocks] in *.
  - split; [done|]. split; [done|]. split; [done|]. split; [|by left]. intros Hn HV. destruct (Hv HV) as [? ?]. unfold s in Hn. congruence.
  - split; [|split; [done|]; split; [by intros ?%Hv|]; split; [by intros _ ?%Hv|]; intros _; exact H4]. split; cbn [m_blockman m_failed_blocks].
    + pose proof (manager_ok_status (m_blockman cm) (m_block_index m') (m_dirty_blockindex m') Hm H3) as HM. unfold set_index in HM.
      rewrite <- H1, <- H2 in HM. by destruct m'.
    + eapply Forall_impl; [exact Hf|]. intros f (c & Hfc & Hst). destruct (H4 f) as [Ef|[_ Ef]]; unfold s in Ef; rewrite Hfc in Ef; cbn in Ef; eauto using mark_keeps_valid.
    + intros i c f Hi HV Hin [k Hk]. rewrite <- H3 in Hk. destruct (H4 i) as [Ei|[_ Ei]]; rewrite Hi in Ei.
      * eapply Hc; [by symmetry|done|done|by exists k].
      * fold s in Ei. destruct (s !! i) as [c0|]; [|done]. cbn in Ei. injection Ei as ->. by rewrite failed_not_valid in HV by apply mark_failed.
  - destruct (AddToBlockIndex_ok Block.GetBlockHash hdr (m_blockman cm) Hself Hm Hhdr Hsz) as (m2 & Ea2 & Hm2). rewrite Ea in Ea2. injection Ea2 as -> <-.
    destruct (s !! Block.GetBlockHash hdr) as [x|] eqn:Eh.
    { assert (m' = m_blockman cm) as ->. { unfold AddToBlockIndex in Ea. fold s in Ea. rewrite bool_decide_eq_true_2 in Ea by eauto. by injection Ea. }
      split; [by destruct cm|]. split; [done|]. split; [intros _; fold s; rewrite Eh; eauto|]. by split. }
    destruct (add_new_entry _ _ _ _ Ea Eh Hself) as (e & Es & He & Hst & Hpp). fold s in Es, Hpp.
    assert (HE : forall j c k, s !! j = Some c -> anc (m_block_index m') j k = anc s j k) by (intros j c k Hj; rewrite Es; by eapply anc_extend).
    split; [|split; [done|]; split; [intros _; rewrite Es, lookup_insert_eq; eauto|]; split; [|done]].
    + split; cbn [m_blockman m_failed_blocks]; [done|..].
      * eapply Forall_impl; [exact Hf|]. intros f (c & Hfc & Hst'). exists c. split; [|done]. rewrite Es. rewrite lookup_insert_ne; [done|]. intros <-. unfold s in Eh. congruence.
      * intros i c f Hi HV Hin [k Hk]. rewrite Es in Hi. apply lookup_insert_Some in Hi as [[<- <-]|[_ Hi]]; [by rewrite Hst in HV|].
        rewrite (HE i c k Hi) in Hk. eapply Hc; eauto. by exists k.
    + intros _ _ Hg. destruct HP as [?|(b & Hb & Hfb & HA)]; [done|]. exists e, b. fold s in Hb. rewrite Hb in Hpp. do 5 (split; [done|]). intros f Hin [k Hk].
      destruct k as [|k].
      * injection Hk as Hk. destruct (proj1 (Forall_forall _ _) Hf f Hin) as (c & Hfc & _). unfold s in Eh. congruence.
      * cbn in Hk. rewrite Es, lookup_insert_eq in Hk. cbn in Hk. rewrite Hpp in Hk. cbn in Hk. rewrite <- Es, (HE _ b k Hb) in Hk. apply (HA f Hin). by exists k.
Qed.
End Rules.

(** ** Witnesses *)

#[local] Instance toy_recovery : Recovery := {| RecoverCompact _ sig := Some sig; RecoverLaxDER _ _ _ _ := None |}.
#[local] Existing Instance CCoinsViewDB_view.
#[local] Existing Instance toy_crypto.

(** A genesis block with a child that failed, a block above the failed one, and headers
    that extend the first and the last. *)
Definition sample_header (prev : N) (nonce : Z) : CBlockHeader := mkHeader 0x20000000 prev 0 1000 0x1f00ffff nonce 0 0 COutPoint_null [].
Definition sample_genesis : CBlockHeader := sample_header 0 0.
Definition sample_failed : CBlockHeader := sample_header (Block.GetBlockHash sample_genesis) 1.
Definition sample_above : CBlockHeader := sample_header (Block.GetBlockHash sample_failed) 2.
Definition sample_good : CBlockHeader := sample_header (Block.GetBlockHash sample_genesis) 3.
Definition sample_bad : CBlockHeader := sample_header (Block.GetBlockHash sample_above) 4.

Definition sample_built : option BlockManager :=
  foldl (fun m b => m ≫= fun m => snd <$> AddToBlockIndex Block.GetBlockHash b m) (Some BlockManager_new) [sample_genesis; sample_failed; sample_above].
Definition sample_tree : BlockManager := default BlockManager_new sample_built.
Definition fail (b : CBlockIndex) : CBlockIndex :=
  mkIndex (header b) (pprev b) (pskip b) (nHeight b) (nChainWork b) (nStakeModifier b) (Z.lor (nStatus b) BLOCK_FAILED_VALID) (nTimeMax b).
Definition sample_node : ChainstateManager :=
  mkChainman (set_index (alter fail (Block.GetBlockHash sample_failed) (m_block_index sample_tree)) ∅ sample_tree) [Block.GetBlockHash sample_failed].
Definition sample_hp : HeaderParams := mkHeaderParams (Block.GetBlockHash sample_genesis) 500 500 0 0 0 0 true [(0, Block.GetBlockHash sample_genesis)].
Definition sample_world : world CCoinsViewDB unit := mkWorld (new_cache (mkDB ∅ None None)) ().
Abbreviation sample_accept hdr := (
  AcceptBlockHeader (H := CCoinsViewDB_view two_changes) main_params main_stake_params sample_hp (fun _ => true) (fun _ => None) (fun _ => None) false
    [Some (Block.GetBlockHash sample_genesis)] 2000 hdr true sample_node sample_world).

Lemma sample_header_ok prev nonce : header_ok (sample_header prev nonce).
Proof. unfold header_ok, in_u32. cbn. lia. Qed.

Lemma sample_headers_ok : header_ok sample_good /\ header_ok sample_bad.
Proof. split; apply sample_header_ok. Qed.
Lemma sample_main : Tip [Some (Block.GetBlockHash sample_genesis)] = Some (Block.GetBlockHash sample_genesis).
Proof. done. Qed.

Lemma sample_tree_ok : manager_ok sample_tree.
Proof.
  assert (HA : forall l m, manager_ok m -> Z.of_nat (size (m_block_index m)) + Z.of_nat (length l) <= 100 ->
    Forall (fun b => header_ok b /\ Block.GetBlockHash b <> hashPrevBlock b) l ->
    exists m', foldl (fun m b => m ≫= fun m => snd <$> AddToBlockIndex Block.GetBlockHash b m) (Some m) l = Some m' /\ manager_ok m').
  { induction l as [|b l IH]; intros m Hm Hsz HF; [by exists m|]. apply Forall_cons in HF as [[Hb Hself] HF]. cbn [length] in Hsz. cbn [foldl mbind option_bind].
    destruct (AddToBlockIndex_ok Block.GetBlockHash b m Hself Hm Hb ltac:(lia)) as (m1 & E1 & Hm1). rewrite E1. cbn. apply IH; [done| |done].
    destruct (m_block_index m !! Block.GetBlockHash b) as [x|] eqn:Ex.
    - unfold AddToBlockIndex in E1. rewrite bool_decide_eq_true_2 in E1 by eauto. injection E1 as <-. lia.
    - rewrite (AddToBlockIndex_size_new _ _ _ _ _ E1 Ex). lia. }
  destruct (HA [sample_genesis; sample_failed; sample_above] BlockManager_new) as (m' & E & Hm'); [apply manager_new_ok|vm_compute; discriminate| |].
  - repeat constructor; try apply sample_header_ok; vm_compute; discriminate.
  - unfold sample_tree, sample_built. by rewrite E.
Qed.

Lemma sample_status : map_Forall (fun _ b => IsValid BLOCK_VALID_SCRIPTS (nStatus b) = false) (m_block_index (m_blockman sample_node)).
Proof. apply map_Forall_to_list, (bool_decide_unpack _). vm_compute. exact I. Qed.

Lemma sample_node_ok : node_ok sample_node.
Proof.
  split.
  - apply manager_ok_status; [exact sample_tree_ok|]. intros i. destruct (decide (i = Block.GetBlockHash sample_failed)) as [->|Hne].
    + rewrite lookup_alter_eq. by destruct (m_block_index sample_tree !! Block.GetBlockHash sample_failed).
    + by rewrite lookup_alter_ne.
  - constructor; [|constructor]. eexists. split; [vm_compute; reflexivity|vm_compute; discriminate].
  - intros i b f Hb HV. assert (IsValid BLOCK_VALID_SCRIPTS (nStatus b) = false) by exact (sample_status i b Hb). congruence.
Qed.

Lemma sample_size : Z.of_nat (size (m_block_index (m_blockman sample_node))) < 1073741824.
Proof. vm_compute. reflexivity. Qed.

Lemma sample_tip : exists tip, m_block_index (m_blockman sample_node) !! Block.GetBlockHash sample_genesis = Some tip /\ nHeight tip = 0.
Proof.
  assert (match m_block_index (m_blockman sample_node) !! Block.GetBlockHash sample_genesis with Some b => nHeight b =? 0 | None => false end = true) as E
    by (vm_compute; reflexivity).
  destruct (m_block_index (m_blockman sample_node) !! Block.GetBlockHash sample_genesis) as [b|]; [|done]. exists b. split; [done|]. by apply Z.eqb_eq.
Qed.

Lemma sample_good_accepted : exists pindex cm' w', sample_accept sample_good = (Done (Valid, pindex, cm'), w').
Proof.
  assert (match (sample_accept sample_good).1 with Done (Valid, _, _) => true | _ => false end = true) as E by (vm_compute; reflexivity).
  destruct (sample_accept sample_good) as [[[[[|] pi] cm']| |] w']; [eauto|done..].
Qed.

Lemma sample_bad_rejected : exists r c cm' w' b, sample_accept sample_bad = (Done (Rejected r c, None, cm'), w') /\
  m_block_index (m_blockman cm') !! Block.GetBlockHash sample_above = Some b /\ failed b = true.
Proof.
  assert (match (sample_accept sample_bad).1 with
          | Done (Rejected _ _, None, cm') => match m_block_index (m_blockman cm') !! Block.GetBlockHash sample_above with Some b => failed b | None => false end
          | _ => false
          end = true) as E by (vm_compute; reflexivity).
  destruct (sample_accept sample_bad) as [[[[[|r c] [pi|]] cm']| |] w']; try done. cbn [fst] in E.
  destruct (m_block_index (m_blockman cm') !! Block.GetBlockHash sample_above) as [b|] eqn:Eb; [|done]. by exists r, c, cm', w', b.
Qed.

Lemma sample_good_new : m_block_index (m_blockman sample_node) !! Block.GetBlockHash sample_good = None.
Proof. vm_compute. reflexivity. Qed.
Lemma sample_hashes : Block.GetBlockHash sample_good <> hashPrevBlock sample_good /\ Block.GetBlockHash sample_good <> hashGenesisBlock sample_hp /\
  Block.GetBlockHash sample_bad <> hashPrevBlock sample_bad.
Proof. repeat split; vm_compute; discriminate. Qed.

Lemma new_header_accepted_exactly_witness : exists b, m_block_index (m_blockman sample_node) !! hashPrevBlock sample_good = Some b /\
  CheckHeaderPoW main_params sample_good = true /\ nHeight b + 1 <= 1000.
Proof.
  destruct sample_tip as (tip & Htip & Hh), sample_hashes as (H1 & H2 & _).
  assert (0 <= CheckpointSpan main_params sample_hp (nHeight tip) < 1073741824) as Hspan by (rewrite Hh; split; [discriminate|reflexivity]).
  pose proof (new_header_accepted_exactly (H := CCoinsViewDB_view two_changes) main_params main_stake_params sample_hp (fun _ => true) (fun _ => None) (fun _ => None) false
    [Some (Block.GetBlockHash sample_genesis)] 2000 sample_node sample_good (Block.GetBlockHash sample_genesis) tip sample_world sample_node_ok
    (proj1 sample_headers_ok) sample_size H1 H2 sample_good_new sample_main Htip Hspan) as HX.
  destruct (proj1 HX sample_good_accepted) as (b & Hb & Hr). exists b. destruct Hr as [_ _ _ _ _ HP _]. destruct (HP eq_refl) as [HP1 HP2].
  split; [exact Hb|]. split; [exact HP2|exact HP1].
Defined.

Lemma headers_avoid_failed_blocks_witness : exists r c cm' w' b,
  sample_accept sample_bad = (Done (Rejected r c, None, cm'), w') /\ node_ok cm' /\
  m_block_index (m_blockman cm') !! Block.GetBlockHash sample_above = Some b /\ failed b = true.
Proof.
  destruct sample_bad_rejected as (r & c & cm' & w' & b & E & Hb & Hf), sample_hashes as (_ & _ & H1).
  assert (Z.of_nat (size (m_block_index (m_blockman sample_node))) < 2147483647) as Hsz by (pose proof sample_size; lia).
  destruct (headers_avoid_failed_blocks (H := CCoinsViewDB_view two_changes) main_params main_stake_params sample_hp (fun _ => true) (fun _ => None) (fun _ => None) false
    [Some (Block.GetBlockHash sample_genesis)] 2000 sample_node sample_bad true sample_world w' (Rejected r c) None cm' sample_node_ok
    (proj2 sample_headers_ok) Hsz H1 E) as (Hok & _).
  exists r, c, cm', w', b. split; [exact E|]. split; [exact Hok|]. split; [exact Hb|exact Hf].
Defined.
End Headers.
