(* ===== verification/VersionBits.v ===== *)
(** * Deployments by version bits (versionbits.cpp, deploymentstatus.h)

    The state machine that decides, period by period, whether a change of the rules is
    active: the miners signal in the version of their blocks, enough signals in one period
    lock the change in, and one period later it holds.  The states are cached at the last
    block of each period.  A null pointer is [None], as a key of the cache and as a block
    before the first; following one is [None] of the result. *)

From stdpp Require Import gmap list sorting.
From Stdlib Require Import ZArith Lia.
From S2P Require Import Prelude Params Chain Headers.

Open Scope Z_scope.

Module VersionBits.
Import Headers.Headers.

Inductive ThresholdState := DEFINED | STARTED | LOCKED_IN | ACTIVE | FAILED.
#[export] Instance ThresholdState_eq : EqDecision ThresholdState.
Proof. solve_decision. Defined.

Record BIP9Deployment := mkDeployment { bit : Z; nStartTime : Z; nTimeout : Z; min_activation_height : Z }.
Definition NO_TIMEOUT : Z := 9223372036854775807.
Definition ALWAYS_ACTIVE : Z := -1.
Definition NEVER_ACTIVE : Z := -2.

(** The parameters of the signalling; the deployments in the order of [DeploymentPos] *)
Record SignalParams := mkSignalParams {
  nRuleChangeActivationThreshold : Z;
  nMinerConfirmationWindow : Z;
  vDeployments : list BIP9Deployment
}.
Definition main_signal_params : SignalParams :=
  mkSignalParams 540 600 [mkDeployment 28 NEVER_ACTIVE NO_TIMEOUT 0; mkDeployment 2 ALWAYS_ACTIVE NO_TIMEOUT 0].

Definition VERSIONBITS_TOP_BITS : Z := 0x20000000.
Definition VERSIONBITS_TOP_MASK : Z := i32 0xE0000000.

(** The virtual methods of [AbstractThresholdConditionChecker] *)
Record Checker := mkChecker {
  Condition : CBlockIndex -> bool;
  BeginTime : Z;
  EndTime : Z;
  MinActivationHeight : Z;
  Period : Z;
  Threshold : Z
}.

Abbreviation ThresholdConditionCache := (gmap (option N) ThresholdState).

Section States.
Context (s : BlockMap) (c : Checker).

(** Walks back to a block whose state is known; the blocks on the way, oldest first *)
Fixpoint walk_back (fuel : nat) (cache : ThresholdConditionCache) (pindexPrev : option N) (vToCompute : list N) :
    option (ThresholdConditionCache * option N * list N) :=
  match fuel with
  | O => None
  | S fuel =>
      match cache !! pindexPrev with
      | Some _ => Some (cache, pindexPrev, vToCompute)
      | None =>
          match pindexPrev with
          | None => Some (<[None := DEFINED]> cache, None, vToCompute)
          | Some i =>
              b ← s !! i;
              time ← GetMedianTimePast s i;
              if time <? BeginTime c then Some (<[Some i := DEFINED]> cache, Some i, vToCompute)
              else
                j ← GetAncestor s i (i32 (nHeight b - Period c));
                walk_back fuel cache j (i :: vToCompute)
          end
      end
  end.

(** The signals among [n] blocks from [pindexCount] down *)
Fixpoint count_loop (n : nat) (pindexCount : option N) (count : Z) : option Z :=
  match n with
  | O => Some count
  | S n =>
      i ← pindexCount;
      b ← s !! i;
      count_loop n (pprev b) (if Condition c b then i32 (count + 1) else count)
  end.

Definition next_state (i : N) (state : ThresholdState) : option ThresholdState :=
  b ← s !! i;
  match state with
  | DEFINED => time ← GetMedianTimePast s i; Some (if BeginTime c <=? time then STARTED else DEFINED)
  | STARTED =>
      count ← count_loop (Z.to_nat (Period c)) (Some i) 0;
      if Threshold c <=? count then Some LOCKED_IN
      else time ← GetMedianTimePast s i; Some (if EndTime c <=? time then FAILED else STARTED)
  | LOCKED_IN => Some (if MinActivationHeight c <=? i32 (nHeight b + 1) then ACTIVE else LOCKED_IN)
  | FAILED => Some FAILED
  | ACTIVE => Some ACTIVE
  end.

Fixpoint walk_forward (vToCompute : list N) (state : ThresholdState) (cache : ThresholdConditionCache) :
    option (ThresholdState * ThresholdConditionCache) :=
  match vToCompute with
  | [] => Some (state, cache)
  | i :: vToCompute => stateNext ← next_state i state; walk_forward vToCompute stateNext (<[Some i := stateNext]> cache)
  end.

(** The last block of the period before the one of the next block *)
Definition period_end (pindexPrev : option N) : option (option N) :=
  match pindexPrev with
  | None => Some None
  | Some i => b ← s !! i; GetAncestor s i (i32 (nHeight b - Z.rem (i32 (nHeight b + 1)) (Period c)))
  end.

(** Every step back is to a lower height, and one more to the null pointer. *)
Definition back_fuel (pindexPrev : option N) : nat :=
  match pindexPrev ≫= fun i => s !! i with None => 1 | Some b => 2 + Z.to_nat (nHeight b) end.

Definition GetStateFor (pindexPrev : option N) (cache : ThresholdConditionCache) : option (ThresholdState * ThresholdConditionCache) :=
  if BeginTime c =? ALWAYS_ACTIVE then Some (ACTIVE, cache)
  else if BeginTime c =? NEVER_ACTIVE then Some (FAILED, cache)
  else
    pindexPrev ← period_end pindexPrev;
    '(cache, pindexPrev, vToCompute) ← walk_back (back_fuel pindexPrev) cache pindexPrev [];
    state ← cache !! pindexPrev;
    walk_forward vToCompute state cache.

(** ** Statistics *)

Record BIP9Stats := mkStats { period : Z; threshold : Z; elapsed : Z; count : Z; possible : bool }.

(** The blocks of the period from [currentIndex] down: their number, the signals among them
    and, oldest first, which of them signal *)
Fixpoint stats_loop (blocks_in_period : nat) (currentIndex : option N) (elapsed count : Z) (signalling_blocks : list bool) :
    option (Z * Z * list bool) :=
  match blocks_in_period with
  | O => Some (elapsed, count, signalling_blocks)
  | S n =>
      i ← currentIndex;
      b ← s !! i;
      let signals := Condition c b in
      stats_loop n (pprev b) (i32 (elapsed + 1)) (if signals then i32 (count + 1) else count) (<[n := signals]> signalling_blocks)
  end.

Definition GetStateStatisticsFor (pindex : option N) : option (BIP9Stats * list bool) :=
  match pindex with
  | None => Some (mkStats (Period c) (Threshold c) 0 0 false, [])
  | Some i =>
      b ← s !! i;
      let blocks_in_period := Z.to_nat (i32 (1 + Z.rem (nHeight b) (Period c))) in
      '(elapsed, count, blocks) ← stats_loop blocks_in_period (Some i) 0 0 (replicate blocks_in_period false);
      Some (mkStats (Period c) (Threshold c) elapsed count (i32 (elapsed - count) <=? i32 (Period c - Threshold c)), blocks)
  end.

(** ** Since when *)

Fixpoint since_loop (fuel : nat) (initialState : ThresholdState) (pindexPrev : N) (cache : ThresholdConditionCache) : option (Z * ThresholdConditionCache) :=
  match fuel with
  | O => None
  | S fuel =>
      b ← s !! pindexPrev;
      previousPeriodParent ← GetAncestor s pindexPrev (i32 (nHeight b - Period c));
      match previousPeriodParent with
      | None => Some (i32 (nHeight b + 1), cache)
      | Some j =>
          '(state, cache) ← GetStateFor (Some j) cache;
          if decide (state = initialState) then since_loop fuel initialState j cache else Some (i32 (nHeight b + 1), cache)
      end
  end.

Definition GetStateSinceHeightFor (pindexPrev : option N) (cache : ThresholdConditionCache) : option (Z * ThresholdConditionCache) :=
  if (BeginTime c =? ALWAYS_ACTIVE) || (BeginTime c =? NEVER_ACTIVE) then Some (0, cache)
  else
    '(initialState, cache) ← GetStateFor pindexPrev cache;
    if decide (initialState = DEFINED) then Some (0, cache)
    else
      i ← pindexPrev;
      last ← period_end (Some i);
      j ← last;
      since_loop (back_fuel (Some j)) initialState j cache.
End States.

(** ** The caches of the deployments *)

Section Cache.
Context (s : BlockMap) (p : SignalParams).

Definition Mask (d : BIP9Deployment) : Z := u32 (Z.shiftl 1 (bit d)).

Definition VersionBitsConditionChecker (d : BIP9Deployment) : Checker := {|
  Condition b := (Z.land (nVersion (header b)) VERSIONBITS_TOP_MASK =? VERSIONBITS_TOP_BITS) && negb (Z.land (u32 (nVersion (header b))) (Mask d) =? 0);
  BeginTime := nStartTime d;
  EndTime := nTimeout d;
  MinActivationHeight := min_activation_height d;
  Period := i32 (nMinerConfirmationWindow p);
  Threshold := i32 (nRuleChangeActivationThreshold p)
|}.

(** [m_caches] *)
Abbreviation VersionBitsCache := (list ThresholdConditionCache).

Definition State (pindexPrev : option N) (pos : nat) (m_caches : VersionBitsCache) : option (ThresholdState * VersionBitsCache) :=
  d ← vDeployments p !! pos;
  cache ← m_caches !! pos;
  '(state, cache) ← GetStateFor s (VersionBitsConditionChecker d) pindexPrev cache;
  Some (state, <[pos := cache]> m_caches).

Definition Statistics (pindex : option N) (pos : nat) : option (BIP9Stats * list bool) :=
  d ← vDeployments p !! pos; GetStateStatisticsFor s (VersionBitsConditionChecker d) pindex.

Definition StateSinceHeight (pindexPrev : option N) (pos : nat) (m_caches : VersionBitsCache) : option (Z * VersionBitsCache) :=
  d ← vDeployments p !! pos;
  cache ← m_caches !! pos;
  '(height, cache) ← GetStateSinceHeightFor s (VersionBitsConditionChecker d) pindexPrev cache;
  Some (height, <[pos := cache]> m_caches).

(** The loop over the positions [pos], ... *)
Fixpoint version_loop (n pos : nat) (pindexPrev : option N) (nVersion : Z) (m_caches : VersionBitsCache) : option (Z * VersionBitsCache) :=
  match n with
  | O => Some (nVersion, m_caches)
  | S n =>
      d ← vDeployments p !! pos;
      '(state, m_caches) ← State pindexPrev pos m_caches;
      version_loop n (S pos) pindexPrev
        (if decide (state = LOCKED_IN \/ state = STARTED) then i32 (Z.lor (u32 nVersion) (Mask d)) else nVersion) m_caches
  end.

Definition ComputeBlockVersion (pindexPrev : option N) (m_caches : VersionBitsCache) : option (Z * VersionBitsCache) :=
  version_loop (length (vDeployments p)) 0 pindexPrev VERSIONBITS_TOP_BITS m_caches.

Definition Erase (pindex : N) (m_caches : VersionBitsCache) : VersionBitsCache := delete (Some pindex) <$> m_caches.
Definition Clear (m_caches : VersionBitsCache) : VersionBitsCache := (fun _ => ∅) <$> m_caches.

Definition DeploymentActiveAfter (pindexPrev : option N) (dep : nat) (m_caches : VersionBitsCache) : option (bool * VersionBitsCache) :=
  '(state, m_caches) ← State pindexPrev dep m_caches; Some (bool_decide (state = ACTIVE), m_caches).
Definition DeploymentActiveAt (i : N) (dep : nat) (m_caches : VersionBitsCache) : option (bool * VersionBitsCache) :=
  b ← s !! i; DeploymentActiveAfter (pprev b) dep m_caches.
Definition DeploymentEnabled (dep : nat) : option bool := d ← vDeployments p !! dep; Some (negb (nStartTime d =? NEVER_ACTIVE)).
End Cache.

(** ** The state machine *)

Section Machine.
Context (s : BlockMap) (c : Checker).

(** The median time of a block, and the signals in the period that ends with it *)
Definition mtp (i : N) : Z := default 0 (GetMedianTimePast s i).
Definition period_blocks (n : nat) (i : N) : list CBlockIndex := omap (fun k => anc s i k ≫= (s !!.)) (seq 0 n).
Definition signals (i : N) : Z := Z.of_nat (length (filter (fun b => Condition c b = true) (period_blocks (Z.to_nat (Period c)) i))).

(** From one period to the next, at the block [i] of height [h] that ends it.  A median
    time below the start forgets what was decided. *)
Inductive step (i : N) (h : Z) : ThresholdState -> ThresholdState -> Prop :=
  | step_early state : mtp i < BeginTime c -> step i h state DEFINED
  | step_start : BeginTime c <= mtp i -> step i h DEFINED STARTED
  | step_lock : BeginTime c <= mtp i -> Threshold c <= signals i -> step i h STARTED LOCKED_IN
  | step_fail : BeginTime c <= mtp i -> signals i < Threshold c -> EndTime c <= mtp i -> step i h STARTED FAILED
  | step_keep : BeginTime c <= mtp i -> signals i < Threshold c -> mtp i < EndTime c -> step i h STARTED STARTED
  | step_activate : BeginTime c <= mtp i -> MinActivationHeight c <= h + 1 -> step i h LOCKED_IN ACTIVE
  | step_wait : BeginTime c <= mtp i -> h + 1 < MinActivationHeight c -> step i h LOCKED_IN LOCKED_IN
  | step_active : BeginTime c <= mtp i -> step i h ACTIVE ACTIVE
  | step_failed : BeginTime c <= mtp i -> step i h FAILED FAILED.

(** The state of the blocks of the period after the one that ends with a block *)
Inductive state_after : option N -> ThresholdState -> Prop :=
  | state_genesis : state_after None DEFINED
  | state_period i b state state' : s !! i = Some b -> (nHeight b + 1) mod Period c = 0 ->
      state_after (anc s i (Z.to_nat (Period c))) state -> step i (nHeight b) state state' -> state_after (Some i) state'.

(** The last block of the period before the one the child of a block is in *)
Definition last_period (i : N) (b : CBlockIndex) : option N := anc s i (Z.to_nat ((nHeight b + 1) mod Period c)).

(** The state of the child of a block *)
Definition child_state (pindexPrev : option N) (state : ThresholdState) : Prop :=
  match pindexPrev with
  | None => state = DEFINED
  | Some i => exists b, s !! i = Some b /\ state_after (last_period i b) state
  end.

Definition cache_ok (cache : ThresholdConditionCache) : Prop := map_Forall state_after cache.

Lemma step_det i h st st1 st2 : step i h st st1 -> step i h st st2 -> st1 = st2.
Proof. intros H1 H2. inversion H1; subst; inversion H2; subst; done || lia. Qed.

Lemma state_after_det k st1 : state_after k st1 -> forall st2, state_after k st2 -> st1 = st2.
Proof.
  induction 1 as [|i b st st' Hb Hm Hs IH Hst]; intros st2 H2; inversion H2 as [|i' b' st0 st0' Hb' Hm' Hs' Hst']; subst; [done|].
  simplify_eq. apply IH in Hs' as <-. by eapply step_det.
Qed.

Lemma child_state_det k st1 st2 : child_state k st1 -> child_state k st2 -> st1 = st2.
Proof.
  destruct k as [i|]; cbn; [|congruence]. intros (b & Hb & H1) (b' & Hb' & H2). simplify_eq. by eapply state_after_det.
Qed.

(** The index: a tree, of heights within [int] *)
Context (Hs : tree_ok s) (Hheights : map_Forall (fun _ b => nHeight b < 2147483647) s) (HP : 0 < Period c <= 2147483647).

Lemma height_bounds i b : s !! i = Some b -> 0 <= nHeight b < 2147483647.
Proof. intros Hb. split; [apply (eo_height _ _ _ (Hs i b Hb))|exact (Hheights i b Hb)]. Qed.

Lemma mtp_known i b : s !! i = Some b -> GetMedianTimePast s i = Some (mtp i).
Proof.
  intros Hb. unfold mtp, GetMedianTimePast. by destruct (last_times_spec s Hs nMedianTimeSpan i b Hb) as (l & -> & _).
Qed.

(** [GetAncestor] a number of blocks back is that ancestor, also before the first. *)
Lemma GetAncestor_back i b k : s !! i = Some b -> 0 <= k <= 2147483647 -> GetAncestor s i (i32 (nHeight b - k)) = Some (anc s i (Z.to_nat k)).
Proof.
  intros Hb Hk. pose proof (height_bounds i b Hb). rewrite i32_id by (unfold in_i32; lia). rewrite (GetAncestor_spec s Hs i b _ Hb).
  rewrite (proj2 (Z.ltb_ge _ _)) by lia. cbn [orb]. destruct (Z.ltb_spec (nHeight b - k) 0).
  - by rewrite (anc_beyond s Hs _ i b Hb) by lia.
  - by replace (nHeight b - (nHeight b - k)) with k by lia.
Qed.

Lemma period_end_spec i b : s !! i = Some b -> period_end s c (Some i) = Some (last_period i b).
Proof.
  intros Hb. pose proof (height_bounds i b Hb). unfold period_end, last_period. rewrite Hb. cbn [mbind option_bind].
  rewrite (i32_id (nHeight b + 1)) by (unfold in_i32; lia). rewrite Z.rem_mod_nonneg by lia.
  pose proof (Z.mod_pos_bound (nHeight b + 1) (Period c) ltac:(lia)). apply GetAncestor_back; [done|lia].
Qed.

(** The ends of periods *)
Definition ends (k : option N) : Prop := match k with None => True | Some i => exists b, s !! i = Some b /\ (nHeight b + 1) mod Period c = 0 end.

Lemma last_period_ends i b : s !! i = Some b -> ends (last_period i b).
Proof.
  intros Hb. unfold last_period. destruct (anc s i _) as [j|] eqn:Ej; [|done]. destruct (anc_height s Hs i b _ j Hb Ej) as (x & Hx & Hh).
  exists x. split; [done|]. pose proof (Z.mod_pos_bound (nHeight b + 1) (Period c) ltac:(lia)). rewrite Hh, Z2Nat.id by lia.
  replace (nHeight b - (nHeight b + 1) mod Period c + 1) with (nHeight b + 1 - (nHeight b + 1) mod Period c) by lia.
  rewrite Zminus_mod_idemp_r, Z.sub_diag. by apply Z.mod_0_l; lia.
Qed.

Lemma previous_ends i b : s !! i = Some b -> (nHeight b + 1) mod Period c = 0 -> ends (anc s i (Z.to_nat (Period c))).
Proof.
  intros Hb Hm. destruct (anc s i _) as [j|] eqn:Ej; [|done]. destruct (anc_height s Hs i b _ j Hb Ej) as (x & Hx & Hh).
  exists x. split; [done|]. rewrite Hh, Z2Nat.id by lia. replace (nHeight b - Period c + 1) with (nHeight b + 1 - 1 * Period c) by lia.
  by rewrite Zminus_mod, Z.mul_1_l, Z.mod_same, Hm by lia.
Qed.

(** ** Counting *)

Lemma period_blocks_cons n i b : s !! i = Some b ->
  period_blocks (S n) i = b :: match pprev b with Some j => period_blocks n j | None => [] end.
Proof.
  intros Hb. unfold period_blocks. cbn [seq omap list_omap anc mbind option_bind]. rewrite Hb. f_equal.
  rewrite <- fmap_S_seq. induction (seq 0 n) as [|k l IH]; [by destruct (pprev b)|]. cbn. rewrite Hb. cbn.
  destruct (pprev b) as [j|]; cbn; [|exact IH]. cbn in IH. by rewrite IH.
Qed.

Lemma count_loop_spec n : forall i b k, s !! i = Some b -> Z.of_nat n <= nHeight b + 1 -> 0 <= k -> k + Z.of_nat n <= 2147483647 ->
  count_loop s c n (Some i) k = Some (k + Z.of_nat (length (filter (fun b => Condition c b = true) (period_blocks n i)))).
Proof.
  induction n as [|n IH]; intros i b k Hb Hn Hk Hmax; [cbn; f_equal; lia|]. cbn [count_loop mbind option_bind]. rewrite Hb. cbn [mbind option_bind].
  rewrite (period_blocks_cons n i b Hb), filter_cons. rewrite (i32_id (k + 1)) by (unfold in_i32; lia).
  destruct (pprev b) as [j|] eqn:Ej.
  - destruct (eo_child _ _ _ (Hs i b Hb) j Ej) as (x & Hx & Hh & _). destruct (Condition c b).
    + rewrite decide_True by done. rewrite (IH j x (k + 1) Hx) by lia. cbn [length]. f_equal. lia.
    + rewrite decide_False by done. by rewrite (IH j x k Hx) by lia.
  - destruct (eo_root _ _ _ (Hs i b Hb) Ej) as [H0 _]. assert (n = 0%nat) as -> by lia. cbn [count_loop].
    destruct (Condition c b); [rewrite decide_True by done|rewrite decide_False by done]; cbn; f_equal; lia.
Qed.

Lemma ends_height i b : s !! i = Some b -> (nHeight b + 1) mod Period c = 0 -> Period c <= nHeight b + 1.
Proof. intros Hb Hm. pose proof (height_bounds i b Hb). apply Z.mod_divide in Hm; [|lia]. apply Z.divide_pos_le in Hm; lia. Qed.

Lemma next_state_spec i b st : s !! i = Some b -> (nHeight b + 1) mod Period c = 0 -> BeginTime c <= mtp i ->
  exists st', next_state s c i st = Some st' /\ step i (nHeight b) st st'.
Proof.
  intros Hb Hm Ht. pose proof (height_bounds i b Hb). pose proof (ends_height i b Hb Hm). unfold next_state. rewrite Hb, (mtp_known i b Hb). cbn [mbind option_bind].
  destruct st; [..|by eexists; split; [done|constructor]|by eexists; split; [done|constructor]].
  - rewrite (proj2 (Z.leb_le _ _)) by lia. eexists. split; [done|by constructor].
  - rewrite (count_loop_spec _ i b 0 Hb) by lia. cbn [mbind option_bind]. rewrite Z.add_0_l. fold (signals i).
    destruct (Z.leb_spec (Threshold c) (signals i)); [eexists; split; [done|by constructor]|].
    destruct (Z.leb_spec (EndTime c) (mtp i)); eexists; (split; [done|by constructor]).
  - rewrite i32_id by (unfold in_i32; lia). destruct (Z.leb_spec (MinActivationHeight c) (nHeight b + 1)); eexists; (split; [done|by constructor]).
Qed.

(** ** The walks *)

Lemma step_total i h st : exists st', step i h st st'.
Proof.
  destruct (Z.lt_ge_cases (mtp i) (BeginTime c)); [eexists; by apply step_early|]. destruct st; try by eexists; constructor.
  - destruct (Z.le_gt_cases (Threshold c) (signals i)); [eexists; by apply step_lock|].
    destruct (Z.le_gt_cases (EndTime c) (mtp i)); eexists; by constructor.
  - destruct (Z.le_gt_cases (MinActivationHeight c) (h + 1)); eexists; by constructor.
Qed.

Definition height_of (k : option N) : Z := match k ≫= (s !!.) with Some b => nHeight b | None => -1 end.

Lemma previous_lower i b : s !! i = Some b -> height_of (anc s i (Z.to_nat (Period c))) < nHeight b.
Proof.
  intros Hb. pose proof (height_bounds i b Hb). unfold height_of. destruct (anc s i _) as [j|] eqn:Ej; [|cbn; lia].
  destruct (anc_height s Hs i b _ j Hb Ej) as (x & Hx & Hh). cbn. rewrite Hx. lia.
Qed.

Lemma state_total k : ends k -> exists st, state_after k st.
Proof.
  remember (Z.to_nat (height_of k + 1)) as n eqn:En. revert k En. induction (lt_wf n) as [n _ IH]. intros [i|] -> Hk; [|eexists; constructor].
  destruct Hk as (b & Hb & Hm). pose proof (height_bounds i b Hb). pose proof (previous_lower i b Hb).
  destruct (IH (Z.to_nat (height_of (anc s i (Z.to_nat (Period c))) + 1))) with (k := anc s i (Z.to_nat (Period c))) as [st Hst]; [|done|by eapply previous_ends|].
  - unfold height_of at 2. cbn. rewrite Hb. lia.
  - destruct (step_total i (nHeight b) st) as [st' Hst']. exists st'. by econstructor.
Qed.

(** The ends of periods from one, exclusive, to another, oldest first *)
Inductive up (k : option N) : list N -> option N -> Prop :=
  | up_nil : up k [] k
  | up_cons v i b : up k v (anc s i (Z.to_nat (Period c))) -> s !! i = Some b -> (nHeight b + 1) mod Period c = 0 ->
      BeginTime c <= mtp i -> up k (v ++ [i]) (Some i).

Lemma walk_back_spec fuel : forall cache k v, cache_ok cache -> ends k -> height_of k + 1 < Z.of_nat fuel ->
  exists cache' k' v' st, walk_back s c fuel cache k v = Some (cache', k', v' ++ v) /\ cache_ok cache' /\ cache ⊆ cache' /\ cache' !! k' = Some st /\ up k' v' k.
Proof.
  induction fuel as [|fuel IH]; intros cache k v Hc Hk Hf.
  { exfalso. unfold height_of in Hf. destruct (k ≫= (s !!.)) as [b|] eqn:Eb; [|lia]. destruct k as [i|]; [|done]. pose proof (height_bounds i b Eb). lia. }
  cbn [walk_back]. destruct (cache !! k) as [st|] eqn:Ek.
  { exists cache, k, [], st. split_and!; try done. constructor. }
  destruct k as [i|].
  2:{ exists (<[None := DEFINED]> cache), None, [], DEFINED. split; [done|]. split; [apply map_Forall_insert_2; [constructor|done]|].
      split; [by apply insert_subseteq|]. split; [apply lookup_insert_eq|constructor]. }
  destruct Hk as (b & Hb & Hm). pose proof (height_bounds i b Hb). rewrite Hb, (mtp_known i b Hb). cbn [mbind option_bind].
  destruct (Z.ltb_spec (mtp i) (BeginTime c)) as [Hlt|Hge].
  - exists (<[Some i := DEFINED]> cache), (Some i), [], DEFINED. split; [done|]. split; [|split; [by apply insert_subseteq|split; [apply lookup_insert_eq|constructor]]].
    apply map_Forall_insert_2; [|done]. destruct (state_total _ (previous_ends i b Hb Hm)) as [st Hst]. econstructor; [done|done|done|by apply step_early].
  - rewrite (GetAncestor_back i b _ Hb) by lia. cbn [mbind option_bind].
    destruct (IH cache (anc s i (Z.to_nat (Period c))) (i :: v) Hc) as (cache' & k' & v' & st & -> & Hc' & Hsub & Hst & Hup).
    + by eapply previous_ends.
    + pose proof (previous_lower i b Hb). unfold height_of in Hf. cbn in Hf. rewrite Hb in Hf. lia.
    + exists cache', k', (v' ++ [i]), st. rewrite <- app_assoc. split_and!; try done. by econstructor.
Qed.

Lemma walk_forward_app v1 v2 : forall st cache, walk_forward s c (v1 ++ v2) st cache =
  r ← walk_forward s c v1 st cache; walk_forward s c v2 r.1 r.2.
Proof. induction v1 as [|i v1 IH]; intros st cache; cbn; [done|]. destruct (next_state s c i st); [apply IH|done]. Qed.

Lemma walk_forward_spec k v k' : up k v k' -> forall st cache, state_after k st -> cache_ok cache ->
  exists st' cache', walk_forward s c v st cache = Some (st', cache') /\ state_after k' st' /\ cache_ok cache'.
Proof.
  induction 1 as [|v i b Hup IH Hb Hm Ht]; intros st cache Hst Hc; [by exists st, cache|].
  destruct (IH st cache Hst Hc) as (st1 & cache1 & E1 & Hst1 & Hc1). destruct (next_state_spec i b st1 Hb Hm Ht) as (st2 & E2 & Hst2).
  rewrite walk_forward_app, E1. cbn. rewrite E2. cbn. assert (state_after (Some i) st2) by by econstructor.
  exists st2, (<[Some i := st2]> cache1). split_and!; [done|done|]. by apply map_Forall_insert_2.
Qed.

(** [GetStateFor] computes the state of the machine, whatever part of it the cache holds. *)
Lemma GetStateFor_spec k cache : match k with Some i => is_Some (s !! i) | None => True end -> cache_ok cache ->
  BeginTime c <> ALWAYS_ACTIVE -> BeginTime c <> NEVER_ACTIVE ->
  exists st cache', GetStateFor s c k cache = Some (st, cache') /\ child_state k st /\ cache_ok cache'.
Proof.
  intros Hk Hc H1 H2. unfold GetStateFor. rewrite (proj2 (Z.eqb_neq _ _) H1), (proj2 (Z.eqb_neq _ _) H2).
  assert (exists e, period_end s c k = Some e /\ ends e /\ forall st, state_after e st -> child_state k st) as (e & -> & He & HC).
  { destruct k as [i|]; [|exists None; split_and!; try done; by inversion 1]. destruct Hk as [b Hb]. exists (last_period i b).
    split; [by apply period_end_spec|]. split; [by apply last_period_ends|]. intros st Hst. by exists b. }
  cbn [mbind option_bind].
  destruct (walk_back_spec (back_fuel s e) cache e [] Hc He) as (cache' & k' & v' & st & -> & Hc' & _ & Hst & Hup).
  { unfold back_fuel, height_of. destruct (e ≫= (s !!.)) as [b|] eqn:Eb; [|done]. destruct e as [i|]; [|done]. pose proof (height_bounds i b Eb). lia. }
  rewrite app_nil_r. cbn [mbind option_bind]. rewrite Hst. cbn [mbind option_bind].
  destruct (walk_forward_spec _ _ _ Hup st cache' (Hc' _ _ Hst) Hc') as (st' & cache'' & -> & Hst' & Hc''). exists st', cache''. eauto.
Qed.
End Machine.

(** ** Median times, which never fall where every block is later than the median before it *)

Section Medians.
Context (s : BlockMap) (Hs : tree_ok s).

(** The rule [ContextualCheckBlockHeader] enforces for the blocks of proof of stake *)
Definition median_rule : Prop := map_Forall (fun _ b => forall j, pprev b = Some j -> mtp s j < GetBlockTime b) s.

Lemma last_times_take n : forall m k l, last_times (n + m) s k = Some l -> last_times n s k = Some (take n l).
Proof.
  induction n as [|n IH]; intros m k l; cbn [Nat.add last_times]; [intros _; by destruct k|]. destruct k as [i|]; [|by intros [= <-]].
  destruct (s !! i) as [b|]; [|done]. cbn [mbind option_bind]. destruct (last_times (n + m) s (pprev b)) as [l'|] eqn:E; [|done]. intros [= <-].
  by rewrite (IH _ _ _ E).
Qed.

Lemma filter_take (P : Z -> Prop) `{forall x, Decision (P x)} n : forall l, (length (filter P (take n l)) <= length (filter P l))%nat.
Proof.
  induction n as [|n IH]; intros [|x l]; cbn [take]; try (cbn; lia). rewrite !filter_cons. specialize (IH l). case_decide; cbn [length]; lia.
Qed.

Lemma filter_imp (P Q : Z -> Prop) `{forall x, Decision (P x), forall x, Decision (Q x)} l : (forall x, P x -> Q x) -> (length (filter P l) <= length (filter Q l))%nat.
Proof.
  intros HPQ. induction l as [|x l IH]; [done|]. rewrite !filter_cons. destruct (decide (P x)) as [HP|]; [rewrite (decide_True (P := Q x)) by auto; cbn [length]; lia|].
  case_decide; cbn [length]; lia.
Qed.

Lemma mtp_parent i b j : median_rule -> s !! i = Some b -> pprev b = Some j -> mtp s j <= mtp s i.
Proof.
  intros HR Hb Hj. assert (Hx : mtp s j < GetBlockTime b) by exact (HR i b Hb j Hj). revert Hx. unfold mtp.
  destruct (eo_child _ _ _ (Hs i b Hb) j Hj) as (x & Hx & Hh & _). pose proof (eo_height _ _ _ (Hs j x Hx)) as H0x.
  destruct (last_times_spec s Hs 11 j x Hx) as (l & El & Hl & _).
  assert (Ei : last_times 11 s (Some i) = Some (GetBlockTime b :: take 10 l)).
  { change (last_times 11 s (Some i)) with (b ← s !! i; l ← last_times 10 s (pprev b); Some (GetBlockTime b :: l)). rewrite Hb. cbn [mbind option_bind]. rewrite Hj, (last_times_take 10 1 _ _ El). done. }
  unfold GetMedianTimePast. change nMedianTimeSpan with 11%nat. rewrite El, Ei. unfold default. cbn [mbind option_bind from_option id]. unfold id. generalize (GetBlockTime b). intros y Hy.
  destruct (sorted_median l) as (_ & H1 & _); [intros ->; cbn [length] in Hl; lia|]. destruct (sorted_median (y :: take 10 l)) as (_ & _ & H2); [done|].
  set (m := nth _ (merge_sort Z.le l) 0) in *. set (m' := nth _ (merge_sort Z.le (y :: take 10 l)) 0) in *. clearbody m m'.
  destruct (Z.le_gt_cases m m') as [|Hlt]; [done|exfalso]. rewrite filter_cons, decide_False in H2 by lia.
  pose proof (filter_imp (fun x => (x <= m')%Z) (fun x => (x < m)%Z) (take 10 l) ltac:(cbn; lia)).
  pose proof (filter_take (fun x => (x < m)%Z) 10 l). cbn [length] in H2. rewrite length_take in H2.
  assert (length l / 2 <= S (10 `min` length l) / 2)%nat by (apply Nat.Div0.div_le_mono; lia). lia.
Qed.

Lemma mtp_monotone k : median_rule -> forall i j, is_Some (s !! i) -> anc s i k = Some j -> mtp s j <= mtp s i.
Proof.
  intros HR. induction k as [|k IH]; intros i j [b Hb]; cbn [anc]; [by intros [= ->]|]. rewrite Hb. cbn [mbind option_bind]. destruct (pprev b) as [x|] eqn:Ex; [|done]. cbn [mbind option_bind]. intros Hj.
  destruct (eo_child _ _ _ (Hs i b Hb) x Ex) as (y & Hy & _). pose proof (mtp_parent i b x HR Hb Ex).
  specialize (IH x j ltac:(eauto) Hj). lia.
Qed.

(** From the block [i] up to [i'], no median time is before [t]. *)
Definition not_before (t : Z) (i i' : N) : Prop := forall j, is_ancestor s i' j -> is_ancestor s j i -> t <= mtp s j.

Lemma not_before_last t i i' : is_ancestor s i' i -> not_before t i i' -> t <= mtp s i'.
Proof. intros Ha Hn. apply Hn; [by exists 0%nat|done]. Qed.

Lemma not_before_part t i i' j j' : not_before t i i' -> is_ancestor s i' j' -> is_ancestor s j i -> not_before t j j'.
Proof.
  intros Hn [k1 H1] [k2 H2] x [k3 H3] [k4 H4]. apply Hn; [exists (k1 + k3)%nat|exists (k4 + k2)%nat]; rewrite anc_add.
  - by rewrite H1.
  - by rewrite H4.
Qed.

(** Under the median rule one median time is enough. *)
Lemma median_rule_not_before t i i' : median_rule -> is_Some (s !! i') -> t <= mtp s i -> not_before t i i'.
Proof.
  intros HR [b Hb] Ht j [k Hk] [k' Hk']. assert (is_Some (s !! j)) as Hj.
  { destruct (anc_height s Hs i' b k j Hb Hk) as (x & Hx & _). by exists x. }
  pose proof (mtp_monotone k' HR j i Hj Hk'). lia.
Qed.
End Medians.

(** ** Deployments are decided *)

Section Decided.
Context (s : BlockMap) (c : Checker) (Hs : tree_ok s) (Hheights : map_Forall (fun _ b => nHeight b < 2147483647) s).
Context (HP : 0 < Period c <= 2147483647).

(** The end of a period [n] periods above another *)
Definition periods_above (n : nat) (i i' : N) : Prop := anc s i' (n * Z.to_nat (Period c)) = Some i.

Lemma periods_above_S n i i' : periods_above (S n) i i' -> exists j, anc s i' (Z.to_nat (Period c)) = Some j /\ periods_above n i j.
Proof. unfold periods_above. cbn [Nat.mul]. rewrite anc_add. destruct (anc s i' _) as [j|]; cbn; [eauto|done]. Qed.

Lemma periods_above_ancestor n i i' : periods_above n i i' -> is_ancestor s i' i.
Proof. intros Ha. by eexists. Qed.

Lemma not_before_prev t i i' j k : not_before s t i i' -> anc s i' k = Some j -> not_before s t i j.
Proof. intros Hn Hj. eapply not_before_part; [exact Hn|by exists k|by exists 0%nat]. Qed.

Lemma state_known i st : state_after s c (Some i) st -> is_Some (s !! i).
Proof. inversion 1. eauto. Qed.

Definition final (st : ThresholdState) : Prop := st = ACTIVE \/ st = FAILED.

(** The state at the end of a period and that at the end of the one before *)
Lemma state_above n i i' st' : periods_above (S n) i i' -> not_before s (BeginTime c) i i' -> state_after s c (Some i') st' ->
  exists j b st, s !! i' = Some b /\ periods_above n i j /\ state_after s c (Some j) st /\ step s c i' (nHeight b) st st' /\ BeginTime c <= mtp s i' /\
    anc s i' (Z.to_nat (Period c)) = Some j.
Proof.
  intros Ha Ht Hst. pose proof (not_before_last s _ _ _ (periods_above_ancestor _ _ _ Ha) Ht). destruct (periods_above_S _ _ _ Ha) as (j & Ej & Hj).
  inversion Hst as [|? b st ? Hb Hm Hprev Hstep]; subst. rewrite Ej in Hprev. by exists j, b, st.
Qed.

Lemma final_stays n : forall i i' st st', periods_above n i i' -> not_before s (BeginTime c) i i' -> state_after s c (Some i) st -> final st ->
  state_after s c (Some i') st' -> st' = st.
Proof.
  induction n as [|n IH]; intros i i' st st' Ha Ht Hst Hf Hst'.
  { unfold periods_above in Ha. injection Ha as ->. by eapply state_after_det. }
  destruct (state_above n i i' st' Ha Ht Hst') as (j & b & st1 & Hb & Hj & Hst1 & Hstep & Ht' & Ej).
  pose proof (IH i j st st1 Hj (not_before_prev _ _ _ _ _ Ht Ej) Hst Hf Hst1) as ->. destruct Hf as [-> | ->]; inversion Hstep; subst; done || lia.
Qed.

Lemma locked_in_activates n : forall i i' b st', periods_above n i i' -> not_before s (BeginTime c) i i' -> state_after s c (Some i) LOCKED_IN ->
  state_after s c (Some i') st' -> s !! i' = Some b ->
  (st' = LOCKED_IN \/ st' = ACTIVE) /\ ((0 < n)%nat -> MinActivationHeight c <= nHeight b + 1 -> st' = ACTIVE).
Proof.
  induction n as [|n IH]; intros i i' b st' Ha Ht Hst Hst' Hb.
  { unfold periods_above in Ha. injection Ha as ->. rewrite (state_after_det _ _ _ _ Hst _ Hst'). split; [by left|lia]. }
  destruct (state_above n i i' st' Ha Ht Hst') as (j & b' & st1 & Hb' & Hj & Hst1 & Hstep & Ht' & Ej). simplify_eq.
  destruct (state_known _ _ Hst1) as [bj Hbj]. destruct (IH i j bj st1 Hj (not_before_prev _ _ _ _ _ Ht Ej) Hst Hst1 Hbj) as [HD _].
  destruct HD as [-> | ->]; inversion Hstep; subst; try lia; split; auto; intros; lia.
Qed.

(** Two periods after the timeout nothing is open but the height of activation. *)
Lemma timeout_decides n i i' b st' : periods_above n i i' -> not_before s (BeginTime c) i i' -> not_before s (EndTime c) i i' ->
  state_after s c (Some i') st' -> s !! i' = Some b ->
  st' <> DEFINED /\ ((0 < n)%nat -> st' <> STARTED) /\ ((1 < n)%nat -> MinActivationHeight c <= nHeight b + 1 -> final st').
Proof.
  revert i' b st'. induction n as [|n IH]; intros i' b st' Ha Ht He Hst' Hb; pose proof (not_before_last s _ _ _ (periods_above_ancestor _ _ _ Ha) He) as He'.
  { pose proof (not_before_last s _ _ _ (periods_above_ancestor _ _ _ Ha) Ht) as Ht'.
    unfold periods_above in Ha. injection Ha as ->. split; [|lia]. inversion Hst' as [|? b' st ? Hb' Hm Hprev Hstep]; subst.
    inversion Hstep; subst; done || lia. }
  destruct (state_above n i i' st' Ha Ht Hst') as (j & b' & st1 & Hb' & Hj & Hst1 & Hstep & Ht' & Ej). simplify_eq.
  destruct (state_known _ _ Hst1) as [bj Hbj].
  destruct (IH j bj st1 Hj (not_before_prev _ _ _ _ _ Ht Ej) (not_before_prev _ _ _ _ _ He Ej) Hst1 Hbj) as (HD & HS & _). unfold final.
  inversion Hstep; subst; try lia; try done; (split; [done|]; split; [done|]); auto; intros; try lia.
  by destruct (HS ltac:(lia)).
Qed.

(** The period a later block is in ends whole periods above. *)
Lemma last_period_above i x i' b : s !! i = Some x -> (nHeight x + 1) mod Period c = 0 -> s !! i' = Some b -> is_ancestor s i' i ->
  exists j bj n, last_period s c i' b = Some j /\ s !! j = Some bj /\ periods_above n i j /\ nHeight bj = nHeight b - (nHeight b + 1) mod Period c /\
    (nHeight x + Z.of_nat n * Period c = nHeight bj).
Proof.
  intros Hx Hm Hb [k Hk]. destruct (anc_height s Hs i' b k i Hb Hk) as (x' & Hx' & Hh). simplify_eq.
  pose proof (eo_height _ _ _ (Hs i x Hx)) as H0. pose proof (Z.mod_pos_bound (nHeight b + 1) (Period c) ltac:(lia)) as HB.
  apply Z.mod_divide in Hm as [q Hq]; [|lia]. pose proof (Z.div_mod (nHeight b + 1) (Period c) ltac:(lia)) as HD.
  set (r := (nHeight b + 1) mod Period c) in *. set (d := (nHeight b + 1) / Period c) in *. assert (q <= d) by nia.
  destruct (anc_at s Hs (Z.to_nat r) i' b Hb ltac:(nia)) as (j & bj & Ej & Hbj & Hhj). exists j, bj, (Z.to_nat (d - q)).
  split; [exact Ej|]. split; [done|]. rewrite Z2Nat.id in Hhj by lia. split; [|split; [done|nia]]. unfold periods_above.
  rewrite <- (anc_from s i' b (Z.to_nat r) j k i Hb Ej Hk) by nia. f_equal. nia.
Qed.
End Decided.

(** ** The caches of the node *)

Lemma land_pow2_bit v k : 0 <= k -> Z.land v (2 ^ k) = 0 <-> Z.testbit v k = false.
Proof.
  intros Hk. split.
  - intros E. apply (f_equal (fun z => Z.testbit z k)) in E. by rewrite Z.land_spec, Z.pow2_bits_true, andb_true_r, Z.bits_0 in E.
  - intros E. apply Z.bits_inj'. intros j Hj. rewrite Z.land_spec, Z.bits_0, Z.pow2_bits_eqb by done.
    destruct (Z.eqb_spec k j) as [<-|]; [by rewrite E|apply andb_false_r].
Qed.

Lemma lor_below a b n : 0 <= n -> 0 <= a < 2 ^ n -> 0 <= b < 2 ^ n -> 0 <= Z.lor a b < 2 ^ n.
Proof.
  intros Hn Ha Hb. destruct (Z.eq_dec a 0) as [->|]; [by rewrite Z.lor_0_l|]. destruct (Z.eq_dec b 0) as [->|]; [by rewrite Z.lor_0_r|].
  assert (0 <= Z.lor a b) by (apply Z.lor_nonneg; lia). split; [done|]. destruct (Z.eq_dec (Z.lor a b) 0) as [->|]; [lia|].
  apply Z.log2_lt_pow2; [lia|]. rewrite Z.log2_lor by lia. apply Z.max_lub_lt; apply Z.log2_lt_pow2; lia.
Qed.

Section Caches.
Context (s : BlockMap) (p : SignalParams).

(** The state of the child of a block *)
Definition deployment_state (d : BIP9Deployment) (k : option N) (st : ThresholdState) : Prop :=
  if nStartTime d =? ALWAYS_ACTIVE then st = ACTIVE
  else if nStartTime d =? NEVER_ACTIVE then st = FAILED
  else child_state s (VersionBitsConditionChecker p d) k st.

Definition caches_ok (m_caches : list ThresholdConditionCache) : Prop :=
  Forall2 (fun d cache => cache_ok s (VersionBitsConditionChecker p d) cache) (vDeployments p) m_caches.

(** A block of the index, or none *)
Definition known (k : option N) : Prop := match k with Some i => is_Some (s !! i) | None => True end.

Record index_ok : Prop := {
  io_tree : tree_ok s;
  io_heights : map_Forall (fun _ b => nHeight b < 2147483647) s;
  io_window : 0 < nMinerConfirmationWindow p <= 2147483647;
  io_bits : Forall (fun d => 0 <= bit d < 29) (vDeployments p)
}.

Context (HI : index_ok).

Lemma window_period d : Period (VersionBitsConditionChecker p d) = nMinerConfirmationWindow p.
Proof. cbn. pose proof (io_window HI). by rewrite i32_id by (unfold in_i32; lia). Qed.

Lemma period_positive d : 0 < Period (VersionBitsConditionChecker p d) <= 2147483647.
Proof. rewrite window_period. apply HI. Qed.

Lemma caches_lookup pos d m_caches : caches_ok m_caches -> vDeployments p !! pos = Some d ->
  exists cache, m_caches !! pos = Some cache /\ cache_ok s (VersionBitsConditionChecker p d) cache.
Proof. intros Hc Hd. destruct (Forall2_lookup_l _ _ _ _ _ Hc Hd) as (cache & Hl & Hok). eauto. Qed.

Lemma caches_insert pos d cache m_caches : caches_ok m_caches -> vDeployments p !! pos = Some d -> cache_ok s (VersionBitsConditionChecker p d) cache ->
  caches_ok (<[pos := cache]> m_caches).
Proof. intros Hc Hd Hok. unfold caches_ok. rewrite <- (list_insert_id (vDeployments p) pos d Hd). by apply Forall2_insert. Qed.

Lemma State_spec k pos d m_caches : known k -> caches_ok m_caches -> vDeployments p !! pos = Some d ->
  exists st m_caches', State s p k pos m_caches = Some (st, m_caches') /\ deployment_state d k st /\ caches_ok m_caches'.
Proof.
  intros Hk Hc Hd. destruct (caches_lookup pos d _ Hc Hd) as (cache & Hl & Hok). unfold State, deployment_state. rewrite Hd. cbn [mbind option_bind]. rewrite Hl. cbn [mbind option_bind].
  destruct (Z.eqb_spec (nStartTime d) ALWAYS_ACTIVE) as [HA|HA]; [|destruct (Z.eqb_spec (nStartTime d) NEVER_ACTIVE) as [HN|HN]].
  - unfold GetStateFor. cbn [BeginTime VersionBitsConditionChecker]. rewrite HA. cbn. do 2 eexists. split; [done|]. split; [done|]. by eapply caches_insert.
  - unfold GetStateFor. cbn [BeginTime VersionBitsConditionChecker]. rewrite HN. cbn. do 2 eexists. split; [done|]. split; [done|]. by eapply caches_insert.
  - destruct (GetStateFor_spec s (VersionBitsConditionChecker p d) (io_tree HI) (io_heights HI) (period_positive d) k cache Hk Hok HA HN) as (st & cache' & -> & Hst & Hok').
    cbn [mbind option_bind]. do 2 eexists. split; [done|]. split; [done|]. by eapply caches_insert.
Qed.

Lemma deployment_state_det d k st st' : deployment_state d k st -> deployment_state d k st' -> st = st'.
Proof. unfold deployment_state. repeat case_match; [congruence|congruence|]. apply child_state_det. Qed.

(** ** The version of a new block *)

Definition open_state (st : ThresholdState) : Prop := st = LOCKED_IN \/ st = STARTED.

Lemma mask_bit d : 0 <= bit d < 29 -> Mask d = 2 ^ bit d.
Proof. intros Hb. unfold Mask. rewrite Z.shiftl_1_l. apply u32_id. unfold in_u32. pose proof (Z.pow_lt_mono_r 2 (bit d) 32 ltac:(lia) ltac:(lia) ltac:(lia)). lia. Qed.

Lemma version_loop_spec k n : forall pos v m_caches, known k -> caches_ok m_caches -> (pos + n)%nat = length (vDeployments p) -> 0 <= v < 2 ^ 30 ->
  exists v' m_caches', version_loop s p n pos k v m_caches = Some (v', m_caches') /\ caches_ok m_caches' /\ 0 <= v' < 2 ^ 30 /\
  forall j, Z.testbit v' j = true <-> Z.testbit v j = true \/
    exists pos' d st, (pos <= pos')%nat /\ vDeployments p !! pos' = Some d /\ bit d = j /\ deployment_state d k st /\ open_state st.
Proof.
  induction n as [|n IH]; intros pos v m_caches Hk Hc Hn Hv; cbn [version_loop].
  { exists v, m_caches. split_and!; [done|done|lia|lia|]. intros j. split; [by left|]. intros [?|(pos' & d & st & Hp & Hd & _)]; [done|].
    apply lookup_lt_Some in Hd. lia. }
  destruct (lookup_lt_is_Some_2 (vDeployments p) pos) as [d Hd]; [lia|]. rewrite Hd. cbn [mbind option_bind].
  destruct (State_spec k pos d m_caches Hk Hc Hd) as (st & m1 & -> & Hst & Hc1). cbn [mbind option_bind].
  pose proof (proj1 (Forall_lookup _ _) (io_bits HI) pos d Hd) as Hbit. cbn in Hbit.
  pose proof (Z.pow_lt_mono_r 2 (bit d) 30 ltac:(lia) ltac:(lia) ltac:(lia)). pose proof (Z.pow_nonneg 2 (bit d) ltac:(lia)).
  assert (HV : 0 <= (if decide (open_state st) then i32 (Z.lor (u32 v) (Mask d)) else v) < 2 ^ 30 /\
    forall j, Z.testbit (if decide (open_state st) then i32 (Z.lor (u32 v) (Mask d)) else v) j = true <-> Z.testbit v j = true \/ bit d = j /\ open_state st).
  { case_decide as Ho; [|split; [done|]; intros j; tauto]. rewrite (mask_bit d Hbit), (u32_id v) by (unfold in_u32; lia).
    pose proof (lor_below v (2 ^ bit d) 30 ltac:(lia) Hv ltac:(lia)). rewrite i32_id by (unfold in_i32; lia). split; [done|]. intros j.
    rewrite Z.lor_spec, orb_true_iff, Z.pow2_bits_eqb, Z.eqb_eq by lia. tauto. }
  destruct HV as [Hv1 HV]. destruct (IH (S pos) _ m1 Hk Hc1 ltac:(lia) Hv1) as (v' & m' & E & Hc' & Hv' & HJ). unfold open_state in E. rewrite E.
  exists v', m'. split; [done|]. split; [done|]. split; [done|]. intros j. rewrite HJ, HV. split.
  - intros [[?|[<- Ho]]|(pos' & d' & st' & Hp & HX)]; [by left|right; exists pos, d, st; by split_and!|right; exists pos', d', st'; split; [lia|done]].
  - intros [?|(pos' & d' & st' & Hp & Hd' & Hb' & Hst' & Ho)]; [by left; left|]. destruct (decide (pos' = pos)) as [->|]; [|right; exists pos', d', st'; split; [lia|done]].
    left. right. simplify_eq. by rewrite (deployment_state_det d k st st' Hst Hst').
Qed.

Lemma ComputeBlockVersion_spec k m_caches : known k -> caches_ok m_caches ->
  exists v m_caches', ComputeBlockVersion s p k m_caches = Some (v, m_caches') /\ caches_ok m_caches' /\ 0 <= v < 2 ^ 30 /\
  forall j, Z.testbit v j = true <-> j = 29 \/
    exists pos d st, vDeployments p !! pos = Some d /\ bit d = j /\ deployment_state d k st /\ open_state st.
Proof.
  intros Hk Hc. destruct (version_loop_spec k (length (vDeployments p)) 0 VERSIONBITS_TOP_BITS m_caches Hk Hc eq_refl ltac:(done)) as (v & m' & E & Hc' & Hv & HJ).
  exists v, m'. split; [done|]. split; [done|]. split; [done|]. intros j. rewrite HJ. change VERSIONBITS_TOP_BITS with (2 ^ 29).
  rewrite Z.pow2_bits_eqb, Z.eqb_eq by lia. split; (intros [?|(pos & d & st & HX)]; [by left|right]); [exists pos, d, st; tauto|].
  exists pos, d, st. split; [lia|done].
Qed.

(** A block of such a version signals exactly the deployments that are open. *)
Lemma computed_version_signals k m_caches v m_caches' b pos d : known k -> caches_ok m_caches -> ComputeBlockVersion s p k m_caches = Some (v, m_caches') ->
  nVersion (header b) = v -> vDeployments p !! pos = Some d ->
  Condition (VersionBitsConditionChecker p d) b = true <->
  exists pos' d' st, vDeployments p !! pos' = Some d' /\ bit d' = bit d /\ deployment_state d' k st /\ open_state st.
Proof.
  intros Hk Hc E Hver Hd. destruct (ComputeBlockVersion_spec k m_caches Hk Hc) as (v0 & m0 & E0 & _ & Hv & HJ). rewrite E in E0. injection E0 as <- _.
  pose proof (proj1 (Forall_lookup _ _) (io_bits HI) pos d Hd) as Hbit. cbn in Hbit. cbn [Condition VersionBitsConditionChecker]. rewrite Hver.
  assert (Z.testbit v 29 = true) as H29 by (apply HJ; by left).
  assert (2 ^ 29 <= v). { destruct (Z.le_gt_cases (2 ^ 29) v); [done|]. rewrite Z.bits_above_log2 in H29; [done|lia|].
    destruct (Z.eq_dec v 0) as [->|]; [done|]. apply Z.log2_lt_pow2; lia. }
  assert (Z.land v VERSIONBITS_TOP_MASK = VERSIONBITS_TOP_BITS) as ->.
  { change VERSIONBITS_TOP_MASK with (Z.lnot (Z.ones 29)). rewrite <- Z.ldiff_land, Z.ldiff_ones_r, Z.shiftr_div_pow2, Z.shiftl_mul_pow2 by lia.
    assert (v / 2 ^ 29 = 1) as -> by (symmetry; apply (Z.div_unique v (2 ^ 29) 1 (v - 2 ^ 29)); lia). done. }
  rewrite Z.eqb_refl. cbn [andb]. rewrite (mask_bit d Hbit), u32_id by (unfold in_u32; lia).
  rewrite negb_true_iff, Z.eqb_neq, land_pow2_bit by lia. rewrite not_false_iff_true, HJ. split; [intros [?|?]; [lia|done]|by right].
Qed.
End Caches.

(** ** Growing the index *)

Section Grow.
Context (s s' : BlockMap) (c : Checker) (Hs : tree_ok s) (Hs' : tree_ok s') (Hsub : s ⊆ s') (HP : 0 < Period c <= 2147483647).

Lemma anc_grow i b k : s !! i = Some b -> anc s' i k = anc s i k.
Proof.
  intros Hb. destruct (Z.le_gt_cases (Z.of_nat k) (nHeight b)).
  - destruct (anc_at s Hs k i b Hb) as (j & x & E & _); [done|]. rewrite E. by eapply anc_mono.
  - rewrite (anc_beyond s Hs k i b Hb) by lia. apply (anc_beyond s' Hs' k i b); [by eapply lookup_weaken|lia].
Qed.

Lemma last_times_grow n : forall i b, s !! i = Some b -> last_times n s' (Some i) = last_times n s (Some i).
Proof.
  induction n as [|n IH]; intros i b Hb; [done|]. cbn [last_times]. rewrite Hb, (lookup_weaken _ _ _ _ Hb Hsub). cbn [mbind option_bind].
  destruct (pprev b) as [j|] eqn:Ej; [|by destruct n]. destruct (eo_child _ _ _ (Hs i b Hb) j Ej) as (x & Hx & _). by rewrite (IH j x Hx).
Qed.

Lemma mtp_grow i b : s !! i = Some b -> mtp s' i = mtp s i.
Proof. intros Hb. unfold mtp, GetMedianTimePast. by rewrite (last_times_grow _ i b Hb). Qed.

Lemma signals_grow i b : s !! i = Some b -> signals s' c i = signals s c i.
Proof.
  intros Hb. unfold signals, period_blocks. do 3 f_equal. induction (seq 0 (Z.to_nat (Period c))) as [|k l IH]; [done|]. cbn.
  rewrite (anc_grow i b k Hb), IH. destruct (anc s i k) as [j|] eqn:Ej; [|done]. cbn. destruct (anc_height s Hs i b k j Hb Ej) as (x & Hx & _).
  by rewrite Hx, (lookup_weaken _ _ _ _ Hx Hsub).
Qed.

Lemma state_after_grow k st : state_after s c k st -> state_after s' c k st.
Proof.
  induction 1 as [|i b st st' Hb Hm Hprev IH Hstep]; [constructor|]. econstructor; [by eapply lookup_weaken|done|by rewrite (anc_grow i b _ Hb)|].
  inversion Hstep; subst; constructor; rewrite ?(mtp_grow i b Hb), ?(signals_grow i b Hb); done.
Qed.
End Grow.

(** ** Since when *)

Section Since.
Context (s : BlockMap) (c : Checker) (Hs : tree_ok s) (Hheights : map_Forall (fun _ b => nHeight b < 2147483647) s).
Context (HP : 0 < Period c <= 2147483647) (HA : BeginTime c <> ALWAYS_ACTIVE) (HN : BeginTime c <> NEVER_ACTIVE).

(** [h] is the first height of the run of periods of state [st] that the one after [e] is in. *)
Definition run_start (e : N) (st : ThresholdState) (h : Z) : Prop :=
  exists n j x, periods_above s c n j e /\ s !! j = Some x /\ h = nHeight x + 1 /\
    (forall m k, (m <= n)%nat -> anc s e (m * Z.to_nat (Period c)) = Some k -> state_after s c (Some k) st) /\
    (forall k, anc s j (Z.to_nat (Period c)) = Some k -> ~ state_after s c (Some k) st).

Lemma ends_last_period i b : s !! i = Some b -> (nHeight b + 1) mod Period c = 0 -> last_period s c i b = Some i.
Proof. intros Hb Hm. unfold last_period. by rewrite Hm. Qed.

Lemma since_loop_spec fuel : forall j x st cache, s !! j = Some x -> (nHeight x + 1) mod Period c = 0 -> state_after s c (Some j) st -> cache_ok s c cache ->
  nHeight x < Z.of_nat fuel -> exists h cache', since_loop s c fuel st j cache = Some (h, cache') /\ cache_ok s c cache' /\ run_start j st h.
Proof.
  induction fuel as [|fuel IH]; intros j x st cache Hx Hm Hst Hc Hf; pose proof (height_bounds s Hs Hheights j x Hx) as Hb; [lia|].
  cbn [since_loop]. rewrite Hx. cbn [mbind option_bind]. rewrite (GetAncestor_back s Hs Hheights j x _ Hx) by lia. cbn [mbind option_bind].
  rewrite i32_id by (unfold in_i32; lia).
  assert (HZ : (forall k, anc s j (Z.to_nat (Period c)) = Some k -> ~ state_after s c (Some k) st) -> run_start j st (nHeight x + 1)).
  { intros Hno. exists 0%nat, j, x. split_and!; try done. intros m k Hle. replace m with 0%nat by lia. intros Hk. cbn in Hk. by injection Hk as <-. }
  destruct (anc s j (Z.to_nat (Period c))) as [k|] eqn:Ek.
  2:{ exists (nHeight x + 1), cache. split; [done|]. split; [done|]. by apply HZ. }
  pose proof (previous_ends s c Hs HP j x Hx Hm) as He. rewrite Ek in He. destruct He as (y & Hy & Hmy).
  destruct (GetStateFor_spec s c Hs Hheights HP (Some k) cache ltac:(cbn; eauto) Hc HA HN) as (st1 & cache1 & -> & Hst1 & Hc1). cbn [mbind option_bind].
  destruct Hst1 as (y' & Hy' & Hst1). simplify_eq. rewrite (ends_last_period k y Hy Hmy) in Hst1. case_decide as Hd.
  - subst st1. pose proof (previous_lower s c Hs Hheights HP j x Hx) as Hlow. rewrite Ek in Hlow. unfold height_of in Hlow. cbn in Hlow. rewrite Hy in Hlow.
    destruct (IH k y st cache1 Hy Hmy Hst1 Hc1 ltac:(lia)) as (h & cache' & -> & Hc' & n & j' & x' & Ha & Hx' & Hh & Hall & Hno).
    exists h, cache'. split; [done|]. split; [done|]. exists (S n), j', x'. split; [|split; [done|]; split; [done|]; split; [|done]].
    + unfold periods_above in *. cbn [Nat.mul]. by rewrite anc_add, Ek.
    + intros [|m] k' Hle; cbn [Nat.mul]; [cbn; by intros [= <-]|]. rewrite anc_add, Ek. cbn. apply Hall. lia.
  - exists (nHeight x + 1), cache1. split; [done|]. split; [done|]. apply HZ. intros k' [= <-] Hk. apply Hd. by eapply state_after_det.
Qed.

Lemma GetStateSinceHeightFor_spec k cache : match k with Some i => is_Some (s !! i) | None => True end -> cache_ok s c cache ->
  exists st h cache', GetStateSinceHeightFor s c k cache = Some (h, cache') /\ cache_ok s c cache' /\ child_state s c k st /\ (st = DEFINED -> h = 0) /\
    (st <> DEFINED -> exists i b e, k = Some i /\ s !! i = Some b /\ last_period s c i b = Some e /\ run_start e st h).
Proof.
  intros Hk Hc. unfold GetStateSinceHeightFor. rewrite (proj2 (Z.eqb_neq _ _) HA), (proj2 (Z.eqb_neq _ _) HN). cbn [orb].
  destruct (GetStateFor_spec s c Hs Hheights HP k cache Hk Hc HA HN) as (st & cache1 & -> & Hst & Hc1). cbn [mbind option_bind]. case_decide as Hd.
  { exists st, 0, cache1. by split_and!. }
  destruct k as [i|]; [|done]. destruct Hst as (b & Hb & Hst). cbn [mbind option_bind]. rewrite (period_end_spec s c Hs Hheights HP i b Hb). cbn [mbind option_bind].
  pose proof (last_period_ends s c Hs HP i b Hb) as He. destruct (last_period s c i b) as [e|] eqn:Ee; [|by inversion Hst]. destruct He as (x & Hx & Hm). cbn [mbind option_bind].
  destruct (since_loop_spec (back_fuel s (Some e)) e x st cache1 Hx Hm Hst Hc1) as (h & cache' & -> & Hc' & Hrun).
  { unfold back_fuel. cbn. rewrite Hx. pose proof (height_bounds s Hs Hheights e x Hx). lia. }
  exists st, h, cache'. split; [done|]. split; [done|]. split; [by exists b; split; [|rewrite Ee]|]. split; [done|]. intros _. by exists i, b, e.
Qed.
End Since.

(** ** The node *)

(** The caches of a node: empty at the start, read and written by the queries, erased in
    part or as a whole, and kept while the index grows. *)
Inductive reachable (p : SignalParams) : BlockMap -> list ThresholdConditionCache -> Prop :=
  | reach_new s : index_ok s p -> reachable p s (replicate (length (vDeployments p)) ∅)
  | reach_state s m k pos st m' : reachable p s m -> known s k -> State s p k pos m = Some (st, m') -> reachable p s m'
  | reach_since s m k pos h m' : reachable p s m -> known s k -> StateSinceHeight s p k pos m = Some (h, m') -> reachable p s m'
  | reach_version s m k v m' : reachable p s m -> known s k -> ComputeBlockVersion s p k m = Some (v, m') -> reachable p s m'
  | reach_erase s m i : reachable p s m -> reachable p s (Erase i m)
  | reach_clear s m : reachable p s m -> reachable p s (Clear m)
  | reach_grow s s' m : reachable p s m -> s ⊆ s' -> index_ok s' p -> reachable p s' m.

Lemma since_ok s p k pos h m m' : index_ok s p -> caches_ok s p m -> known s k -> StateSinceHeight s p k pos m = Some (h, m') -> caches_ok s p m'.
Proof.
  intros HI Hc Hk E. unfold StateSinceHeight in E. destruct (vDeployments p !! pos) as [d|] eqn:Hd; [|done]. cbn [mbind option_bind] in E.
  destruct (caches_lookup s p pos d m Hc Hd) as (cache & Hl & Hok). rewrite Hl in E. cbn [mbind option_bind] in E.
  destruct (decide (nStartTime d = ALWAYS_ACTIVE \/ nStartTime d = NEVER_ACTIVE)) as [HX|HX].
  - unfold GetStateSinceHeightFor in E. cbn [BeginTime VersionBitsConditionChecker] in E.
    rewrite (proj2 (orb_true_iff _ _)) in E by (rewrite !Z.eqb_eq; tauto). injection E as _ <-. by eapply caches_insert.
  - destruct (GetStateSinceHeightFor_spec s (VersionBitsConditionChecker p d) (io_tree _ _ HI) (io_heights _ _ HI) (period_positive s p HI d)
      ltac:(cbn; tauto) ltac:(cbn; tauto) k cache Hk Hok) as (st & h' & cache' & E' & Hok' & _). rewrite E' in E. injection E as _ <-. by eapply caches_insert.
Qed.

Lemma reachable_caches_ok p s m : reachable p s m -> index_ok s p /\ caches_ok s p m.
Proof.
  induction 1 as [s HI|s m k pos st m' _ [HI Hc] Hk E|s m k pos h m' _ [HI Hc] Hk E|s m k v m' _ [HI Hc] Hk E|s m i _ [HI Hc]|s m _ [HI Hc]|s s' m _ [HI Hc] Hsub HI']; (split; [done|]).
  - apply Forall2_replicate_r; [done|]. apply Forall_true. intros d. apply map_Forall_empty.
  - destruct (vDeployments p !! pos) as [d|] eqn:Hd; [|unfold State in E; by rewrite Hd in E].
    destruct (State_spec s p HI k pos d m Hk Hc Hd) as (st' & m1 & E' & _ & Hc'). by simplify_eq.
  - by eapply since_ok.
  - destruct (ComputeBlockVersion_spec s p HI k m Hk Hc) as (v' & m1 & E' & Hc' & _). by simplify_eq.
  - apply Forall2_fmap_r. eapply Forall2_impl; [exact Hc|]. intros d cache Hok. by apply map_Forall_delete.
  - apply Forall2_fmap_r. eapply Forall2_impl; [exact Hc|]. intros d cache Hok. apply map_Forall_empty.
  - eapply Forall2_impl; [exact Hc|]. intros d cache Hok. eapply map_Forall_impl; [exact Hok|]. intros k st Hst.
    apply (state_after_grow s s'); [apply HI|apply HI'|done|done].
Qed.

(** C17: The states are those of the machine.  However the caches of the node came about (by
    queries at any blocks of any branches, in any order, with entries erased, and with the
    index growing in between), a query terminates and returns the state the machine is in
    after the periods of the branch, as if nothing had been cached; a deployment that is
    always or never active is just that. *)
Theorem threshold_states_exact p s m k pos d : reachable p s m -> known s k -> vDeployments p !! pos = Some d ->
  exists st m', State s p k pos m = Some (st, m') /\ reachable p s m' /\ deployment_state s p d k st /\
    (forall st', deployment_state s p d k st' -> st' = st).
Proof.
  intros Hr Hk Hd. destruct (reachable_caches_ok p s m Hr) as [HI Hc]. destruct (State_spec s p HI k pos d m Hk Hc Hd) as (st & m' & E & Hst & _).
  exists st, m'. split; [done|]. split; [by eapply reach_state|]. split; [done|]. intros st' Hst'. by eapply deployment_state_det.
Qed.

(** The height since which a state holds is the first of its run of periods: every period
    from it to the one of the block has that state, and the period before it, if there is
    one, has another.  For the first state, and for deployments that are always or never
    active, it is 0. *)
Theorem since_height_exact p s m k pos d : reachable p s m -> known s k -> vDeployments p !! pos = Some d ->
  exists st h m', StateSinceHeight s p k pos m = Some (h, m') /\ deployment_state s p d k st /\
    (nStartTime d = ALWAYS_ACTIVE \/ nStartTime d = NEVER_ACTIVE \/ st = DEFINED -> h = 0) /\
    (nStartTime d <> ALWAYS_ACTIVE -> nStartTime d <> NEVER_ACTIVE -> st <> DEFINED ->
     exists i b e, k = Some i /\ s !! i = Some b /\ last_period s (VersionBitsConditionChecker p d) i b = Some e /\
       run_start s (VersionBitsConditionChecker p d) e st h).
Proof.
  intros Hr Hk Hd. destruct (reachable_caches_ok p s m Hr) as [HI Hc]. destruct (caches_lookup s p pos d m Hc Hd) as (cache & Hl & Hok).
  unfold StateSinceHeight, deployment_state. rewrite Hd. cbn [mbind option_bind]. rewrite Hl. cbn [mbind option_bind].
  destruct (decide (nStartTime d = ALWAYS_ACTIVE \/ nStartTime d = NEVER_ACTIVE)) as [HX|HX].
  - unfold GetStateSinceHeightFor. cbn [BeginTime VersionBitsConditionChecker]. rewrite (proj2 (orb_true_iff _ _)) by (rewrite !Z.eqb_eq; tauto). cbn [mbind option_bind].
    exists (if nStartTime d =? ALWAYS_ACTIVE then ACTIVE else FAILED), 0. eexists. split; [done|]. split; [|split; [done|tauto]].
    destruct (Z.eqb_spec (nStartTime d) ALWAYS_ACTIVE); [done|]. by rewrite (proj2 (Z.eqb_eq _ NEVER_ACTIVE)) by tauto.
  - rewrite (proj2 (Z.eqb_neq _ _)), (proj2 (Z.eqb_neq _ _)) by tauto.
    destruct (GetStateSinceHeightFor_spec s (VersionBitsConditionChecker p d) (io_tree _ _ HI) (io_heights _ _ HI) (period_positive s p HI d)
      ltac:(cbn; tauto) ltac:(cbn; tauto) k cache Hk Hok) as (st & h & cache' & -> & _ & Hst & H0 & H1).
    exists st, h. eexists. split; [done|]. split; [done|]. split; [tauto|auto].
Qed.

(** ** Deployments come to an end *)

Lemma deployment_state_grow s s' p d k st : index_ok s p -> index_ok s' p -> s ⊆ s' -> deployment_state s p d k st -> deployment_state s' p d k st.
Proof.
  intros HI HI' Hsub. unfold deployment_state. repeat case_match; [done|done|]. destruct k as [i|]; [|done]. intros (b & Hb & Hst). exists b.
  split; [by eapply lookup_weaken|]. unfold last_period in *. rewrite (anc_grow s s' (io_tree _ _ HI) (io_tree _ _ HI') Hsub i b _ Hb).
  apply (state_after_grow s s'); [apply HI|apply HI'|done|done].
Qed.

Lemma deployment_state_shrink s s' p d k st : index_ok s p -> index_ok s' p -> s ⊆ s' -> known s k -> deployment_state s' p d k st -> deployment_state s p d k st.
Proof.
  intros HI HI' Hsub Hk Hst. assert (exists st0, deployment_state s p d k st0) as [st0 Hst0].
  { unfold deployment_state. repeat case_match; [eauto|eauto|]. destruct k as [i|]; [|by eexists]. destruct Hk as [b Hb].
    destruct (state_total s (VersionBitsConditionChecker p d) (io_tree _ _ HI) (io_heights _ _ HI) (period_positive s p HI d) _
      (last_period_ends s (VersionBitsConditionChecker p d) (io_tree _ _ HI) (period_positive s p HI d) i b Hb)) as [st0 Hst0]. by exists st0, b. }
  by rewrite (deployment_state_det s' p d k st st0 Hst (deployment_state_grow s s' p d k st0 HI HI' Hsub Hst0)).
Qed.

(** The version of a block is one a node computed for its place, when its index held
    perhaps less than now. *)
Definition version_computed (s : BlockMap) (p : SignalParams) (x : CBlockIndex) : Prop :=
  exists s0 m m', s0 ⊆ s /\ reachable p s0 m /\ known s0 (pprev x) /\ ComputeBlockVersion s0 p (pprev x) m = Some (nVersion (header x), m').

Section Activation.
Context (s : BlockMap) (p : SignalParams) (HI : index_ok s p).
Context (d : BIP9Deployment) (pos : nat) (Hd : vDeployments p !! pos = Some d).
Let c := VersionBitsConditionChecker p d.
Context (HA : nStartTime d <> ALWAYS_ACTIVE) (HN : nStartTime d <> NEVER_ACTIVE).

Lemma open_child k st : deployment_state s p d k st <-> child_state s c k st.
Proof. unfold deployment_state. by rewrite (proj2 (Z.eqb_neq _ _) HA), (proj2 (Z.eqb_neq _ _) HN). Qed.

(** The blocks of a period share the state. *)
Lemma period_shares i b k j x st : s !! i = Some b -> (nHeight b + 1) mod Period c = 0 -> state_after s c (anc s i (Z.to_nat (Period c))) st ->
  (k < Z.to_nat (Period c))%nat -> anc s i k = Some j -> s !! j = Some x -> deployment_state s p d (pprev x) st.
Proof.
  intros Hb Hm Hst Hk Hj Hx. apply open_child. pose proof (period_positive s p HI d) as HP. fold c in HP. destruct HI as [Hs Hheights _ _].
  destruct (anc_height s Hs i b k j Hb Hj) as (x' & Hx' & Hh). simplify_eq.
  pose proof (ends_height s c Hs Hheights HP i b Hb Hm) as Hge. replace (Z.to_nat (Period c)) with (k + (Z.to_nat (Period c) - k))%nat in Hst by lia.
  rewrite anc_add, Hj in Hst. cbn [mbind option_bind] in Hst. replace (Z.to_nat (Period c) - k)%nat with (S (Z.to_nat (Period c) - k - 1)) in Hst by lia.
  cbn [anc] in Hst. rewrite Hx in Hst. cbn [mbind option_bind] in Hst. destruct (pprev x) as [y|] eqn:Ey; cbn [mbind option_bind] in Hst; [|by inversion Hst].
  destruct (eo_child _ _ _ (Hs j x Hx) y Ey) as (z & Hz & Hhz & _). exists z. split; [done|]. unfold last_period.
  replace (Z.to_nat ((nHeight z + 1) mod Period c)) with (Z.to_nat (Period c) - k - 1)%nat; [done|].
  assert ((nHeight z + 1) mod Period c = Period c - Z.of_nat k - 1) as ->; [|lia].
  apply Z.mod_divide in Hm as [q Hq]; [|lia]. symmetry. apply (Z.mod_unique_pos _ _ (q - 1)); nia.
Qed.

Lemma period_blocks_length n : forall i b, s !! i = Some b -> Z.of_nat n <= nHeight b + 1 -> length (period_blocks s n i) = n.
Proof.
  destruct HI as [Hs _ _ _]. induction n as [|n IH]; intros i b Hb Hn; [done|]. rewrite (period_blocks_cons s n i b Hb). cbn [length]. f_equal.
  destruct (pprev b) as [j|] eqn:Ej; [destruct (eo_child _ _ _ (Hs i b Hb) j Ej) as (x & Hx & Hh & _); by apply (IH j x Hx); lia|].
  destruct (eo_root _ _ _ (Hs i b Hb) Ej). cbn. lia.
Qed.

(** If all blocks of an open period carry the version a node computes, it is full of signals. *)
Lemma full_period i b st : s !! i = Some b -> (nHeight b + 1) mod Period c = 0 -> state_after s c (anc s i (Z.to_nat (Period c))) st -> open_state st ->
  (forall k j x, (k < Z.to_nat (Period c))%nat -> anc s i k = Some j -> s !! j = Some x -> version_computed s p x) ->
  signals s c i = Period c.
Proof.
  intros Hb Hm Hst Ho Hall. pose proof (period_positive s p HI d) as HP. fold c in HP. unfold signals.
  assert (HF : Forall (fun x => Condition c x = true) (period_blocks s (Z.to_nat (Period c)) i)).
  { apply Forall_forall. intros x (k & Hk%elem_of_seq & (j & Hj & Hx)%bind_Some)%list_elem_of_omap.
    destruct (Hall k j x ltac:(lia) Hj Hx) as (s0 & m & m' & Hsub & Hr & Hk0 & E). destruct (reachable_caches_ok p s0 m Hr) as [HI0 Hc0].
    apply (computed_version_signals s0 p HI0 (pprev x) m (nVersion (header x)) m' x pos d); [done..|].
    exists pos, d, st. split_and!; try done. apply (deployment_state_shrink s0 s); try done. eapply (period_shares i b k j x); try done. lia. }
  assert (HL : filter (fun x => Condition c x = true) (period_blocks s (Z.to_nat (Period c)) i) = period_blocks s (Z.to_nat (Period c)) i).
  { induction HF as [|x l Hx HF IH]; [done|]. by rewrite filter_cons, decide_True, IH. }
  rewrite HL. pose proof HI as [Hs Hheights _ _].
  rewrite (period_blocks_length _ i b Hb); [lia|]. pose proof (ends_height s c Hs Hheights HP i b Hb Hm). lia.
Qed.

(** The state of the child of a later block, by the machine *)
Lemma later_state i x i' b : s !! i = Some x -> (nHeight x + 1) mod Period c = 0 -> s !! i' = Some b -> is_ancestor s i' i ->
  exists j bj n st, last_period s c i' b = Some j /\ s !! j = Some bj /\ periods_above s c n i j /\ nHeight x + Z.of_nat n * Period c = nHeight bj /\
    nHeight bj = nHeight b - (nHeight b + 1) mod Period c /\ state_after s c (Some j) st /\ deployment_state s p d (Some i') st.
Proof.
  intros Hx Hm Hb Ha. pose proof (period_positive s p HI d) as HP. fold c in HP. pose proof HI as [Hs Hheights _ _].
  destruct (last_period_above s c Hs HP i x i' b Hx Hm Hb Ha) as (j & bj & n & El & Hbj & Hn & Hh & Hk).
  pose proof (last_period_ends s c Hs HP i' b Hb) as He. rewrite El in He. destruct (state_total s c Hs Hheights HP _ He) as [st Hst].
  exists j, bj, n, st. split_and!; try done. apply open_child. exists b. split; [done|]. by rewrite El.
Qed.

Lemma query k st m : known s k -> caches_ok s p m -> deployment_state s p d k st -> exists m', State s p k pos m = Some (st, m').
Proof.
  intros Hk Hc Hst. destruct (State_spec s p HI k pos d m Hk Hc Hd) as (st' & m' & E & Hst' & _). exists m'. by rewrite E, (deployment_state_det s p d k st st').
Qed.
End Activation.

(** C10: Signalling succeeds.  If a deployment is started when a period begins, every block of
    the period carries a version [ComputeBlockVersion] returned for its place, and the
    threshold is no more than the period, then the deployment is active after every
    block that is at least one more period above, as soon as the height of activation is
    reached; whatever the later blocks signal, provided that no median time on the branch
    falls back before the start of the deployment.  (It cannot where every block is later
    than the median before it, [median_rule_not_before]; the code asks that of proof-of-stake
    headers only, and without it the deployment may be forgotten, [falling_medians_forget].) *)
Theorem signalling_activates s p d pos i1 b1 m1 m1' i2 i3 b3 m3 : reachable p s m1 -> reachable p s m3 -> vDeployments p !! pos = Some d ->
  let P := nMinerConfirmationWindow p in
  0 <= nRuleChangeActivationThreshold p <= P ->
  s !! i1 = Some b1 -> (nHeight b1 + 1) mod P = 0 -> State s p (Some i1) pos m1 = Some (STARTED, m1') ->
  anc s i2 (Z.to_nat P) = Some i1 ->
  (forall k j x, (k < Z.to_nat P)%nat -> anc s i2 k = Some j -> s !! j = Some x -> version_computed s p x) ->
  s !! i3 = Some b3 -> is_ancestor s i3 i2 -> nHeight b1 + 2 * P <= nHeight b3 ->
  min_activation_height d <= nHeight b3 + 1 - (nHeight b3 + 1) mod P ->
  not_before s (nStartTime d) i1 i3 ->
  exists m3', DeploymentActiveAfter s p (Some i3) pos m3 = Some (true, m3').
Proof.
  intros Hr1 Hr3 Hd P Hthr Hb1 Hm1 E1 Ha2 Hall Hb3 Ha3 Hh3 Hmin HT. destruct (reachable_caches_ok _ _ _ Hr1) as [HI Hc1], (reachable_caches_ok _ _ _ Hr3) as [_ Hc3].
  pose proof (period_positive s p HI d) as HP. pose proof (window_period s p HI d) as EP. fold P in EP.
  destruct (State_spec s p HI (Some i1) pos d m1 ltac:(cbn; eauto) Hc1 Hd) as (st & m & E & Hst & _). rewrite E1 in E. injection E as <- <-.
  destruct (decide (nStartTime d = ALWAYS_ACTIVE)) as [HA|HA]; [unfold deployment_state in Hst; by rewrite HA in Hst|].
  destruct (decide (nStartTime d = NEVER_ACTIVE)) as [HN|HN]; [unfold deployment_state in Hst; by rewrite HN in Hst|].
  apply (open_child s p d HA HN) in Hst. destruct Hst as (b & Hb & Hst). simplify_eq. rewrite <- EP in *. set (c := VersionBitsConditionChecker p d) in *.
  rewrite (ends_last_period s c i1 b1 Hb1 Hm1) in Hst. pose proof HI as [Hs Hheights _ _].
  assert (exists b2, s !! i2 = Some b2) as [b2 Hb2].
  { replace (Z.to_nat (Period c)) with (S (Z.to_nat (Period c) - 1)) in Ha2 by lia. cbn [anc] in Ha2. destruct (s !! i2) as [b2|]; [by exists b2|done]. }
  destruct (anc_height s Hs i2 b2 _ i1 Hb2 Ha2) as (x & Hx & Hh2). simplify_eq.
  assert (Hm2 : (nHeight b2 + 1) mod Period c = 0) by (replace (nHeight b2 + 1) with (nHeight b1 + 1 + 1 * Period c) by lia; by rewrite Z_mod_plus_full).
  rewrite <- Ha2 in Hst.
  assert (HS : signals s c i2 = Period c) by (eapply (full_period s p HI d pos Hd HA HN i2 b2 STARTED); try done; by right).
  assert (HT2 : not_before s (BeginTime c) i2 i3) by (eapply not_before_part; [exact HT|by exists 0%nat|by eexists]).
  assert (Ht2 : BeginTime c <= mtp s i2) by (apply HT; [done|by eexists]).
  assert (HL : state_after s c (Some i2) LOCKED_IN).
  { eapply state_period; [exact Hb2|done|exact Hst|]. apply step_lock; [lia|]. rewrite HS. change (Threshold c) with (i32 (nRuleChangeActivationThreshold p)). rewrite i32_id; [|unfold in_i32]; lia. }
  destruct (later_state s p HI d HA HN i2 b2 i3 b3 Hb2 Hm2 Hb3 Ha3) as (j & bj & n & st & Hlast & Hbj & Hn & Hk & Hhj & Hst3 & Hdep). fold c in Hn, Hk, Hhj, Hst3.
  destruct (locked_in_activates s c n i2 j bj st Hn (not_before_prev _ _ _ _ _ _ HT2 Hlast) HL Hst3 Hbj) as [_ HACT].
  assert (st = ACTIVE) as ->. { apply HACT; [|cbn; lia]. destruct n; [exfalso|lia]. pose proof (Z.mod_pos_bound (nHeight b3 + 1) (Period c) ltac:(lia)). lia. }
  destruct (query s p HI d pos Hd (Some i3) ACTIVE m3 ltac:(cbn; eauto) Hc3 Hdep) as [m3' E3]. exists m3'. unfold DeploymentActiveAfter. by rewrite E3.
Qed.

(** C34: Deployments are decided.  Once a period has ended past the start and the timeout,
    every block at least two periods above it, from the height of activation on, sees the
    deployment active or failed, and from then on the answer never changes on its branch, as
    long as no median time of the branch falls back before the start or the timeout (under
    the median rule none does, [median_rule_not_before]). *)
Theorem deployments_are_decided s p d pos i1 b1 i3 b3 i4 b4 m3 m4 : reachable p s m3 -> reachable p s m4 -> vDeployments p !! pos = Some d ->
  let P := nMinerConfirmationWindow p in
  nStartTime d <> ALWAYS_ACTIVE -> nStartTime d <> NEVER_ACTIVE ->
  s !! i1 = Some b1 -> (nHeight b1 + 1) mod P = 0 -> not_before s (nStartTime d) i1 i4 -> not_before s (nTimeout d) i1 i4 ->
  s !! i3 = Some b3 -> is_ancestor s i3 i1 -> nHeight b1 + 2 * P <= nHeight b3 ->
  min_activation_height d <= nHeight b3 + 1 - (nHeight b3 + 1) mod P ->
  s !! i4 = Some b4 -> is_ancestor s i4 i3 ->
  exists st m3' m4', (st = ACTIVE \/ st = FAILED) /\ State s p (Some i3) pos m3 = Some (st, m3') /\ State s p (Some i4) pos m4 = Some (st, m4').
Proof.
  intros Hr3 Hr4 Hd P HA HN Hb1 Hm1 Hs1 Ht1 Hb3 Ha3 Hh3 Hmin Hb4 Ha4. destruct (reachable_caches_ok _ _ _ Hr3) as [HI Hc3], (reachable_caches_ok _ _ _ Hr4) as [_ Hc4].
  pose proof (period_positive s p HI d) as HP. pose proof (window_period s p HI d) as EP. fold P in EP. rewrite <- EP in *. set (c := VersionBitsConditionChecker p d) in *.
  pose proof HI as [Hs Hheights _ _].
  destruct (later_state s p HI d HA HN i1 b1 i3 b3 Hb1 Hm1 Hb3 Ha3) as (j & bj & n & st & Hlast & Hbj & Hn & Hk & Hhj & Hst & Hdep). fold c in Hn, Hk, Hhj, Hst.
  pose proof (Z.mod_pos_bound (nHeight b3 + 1) (Period c) ltac:(lia)) as HB.
  assert (HB34 : is_ancestor s i4 j).
  { destruct Ha4 as [k4 Ha4]. exists (k4 + Z.to_nat ((nHeight b3 + 1) mod Period c))%nat. rewrite anc_add, Ha4. cbn [mbind option_bind]. exact Hlast. }
  assert (HJ : forall t, not_before s t i1 i4 -> not_before s t i1 j) by (intros t Ht; eapply not_before_part; [exact Ht|exact HB34|by exists 0%nat]).
  destruct (timeout_decides s c n i1 j bj st Hn (HJ _ Hs1) (HJ _ Ht1) Hst Hbj) as (_ & _ & HF). cbn [MinActivationHeight c VersionBitsConditionChecker] in HF.
  assert (final st) as Hfin. { apply HF; [|lia]. apply Z.mod_divide in Hm1 as [q Hq]; [|lia]. destruct n as [|[|n]]; [exfalso; nia|exfalso|lia]. nia. }
  pose proof (last_period_ends s c Hs HP i3 b3 Hb3) as He. fold c in Hlast. rewrite Hlast in He. destruct He as (bj' & Hbj' & Hmj). simplify_eq.
  destruct (later_state s p HI d HA HN j bj i4 b4 Hbj Hmj Hb4 HB34) as (j4 & bj4 & n4 & st4 & Hlast4 & Hbj4 & Hn4 & _ & _ & Hst4 & Hdep4). fold c in Hn4, Hst4.
  assert (HJ4 : not_before s (BeginTime c) j j4) by (eapply not_before_part; [exact Hs1|by eexists|by eexists]).
  pose proof (final_stays s c n4 j j4 st st4 Hn4 HJ4 Hst Hfin Hst4) as ->.
  destruct (query s p HI d pos Hd (Some i3) st m3 ltac:(cbn; eauto) Hc3 Hdep) as [m3' E3].
  destruct (query s p HI d pos Hd (Some i4) st m4 ltac:(cbn; eauto) Hc4 Hdep4) as [m4' E4]. by exists st, m3', m4'.
Qed.

(** ** Witnesses *)

(** Eight blocks in periods of two; those of the second period carry the version with the
    bits 3 and 4. *)
Definition sig_header (prev : N) (version time : Z) : CBlockHeader := mkHeader version prev 0 time 0x1f00ffff 0 0 0 OutPoint.COutPoint_null [].
Definition sig_headers : list CBlockHeader :=
  [sig_header 0 1 1000; sig_header 1 1 1001; sig_header 3 0x20000018 1002; sig_header 7 0x20000018 1003; sig_header 15 1 1004; sig_header 31 1 1005;
   sig_header 63 1 1006; sig_header 127 1 1007].
Definition sig_tree : BlockManager := default BlockManager_new (add_all sig_headers BlockManager_new).
Definition sig_params : SignalParams := mkSignalParams 2 2 [mkDeployment 3 500 NO_TIMEOUT 0; mkDeployment 4 500 600 0].
Definition sig_caches : list ThresholdConditionCache := replicate 2 ∅.
Abbreviation sig_index := (m_block_index sig_tree).

Lemma sig_built : @built Crypto.toy_crypto wit_hash sig_tree.
Proof.
  apply (built_all sig_headers) with (m := BlockManager_new); [|constructor|vm_compute; reflexivity].
  repeat constructor; unfold header_ok, in_u32; cbn; lia.
Qed.

Lemma sig_size : Z.of_nat (size sig_index) <= 2147483647.
Proof. vm_compute. discriminate. Qed.

Lemma sig_index_ok : index_ok sig_index sig_params.
Proof.
  pose proof (built_ok (C := Crypto.toy_crypto) wit_hash wit_hash_self sig_tree sig_built sig_size) as [Ht Hh _ _]. split.
  - exact Ht.
  - intros i b Hb. assert (nHeight b < Z.of_nat (size sig_index)) by exact (Hh i b Hb). pose proof sig_size. lia.
  - cbn. lia.
  - repeat constructor; cbn; lia.
Qed.

Lemma sig_reachable : reachable sig_params sig_index sig_caches.
Proof. exact (reach_new sig_params sig_index sig_index_ok). Qed.

Lemma sig_entry i h : (match sig_index !! i with Some b => nHeight b =? h | None => false end) = true -> exists b, sig_index !! i = Some b /\ nHeight b = h.
Proof. destruct (sig_index !! i) as [b|]; [|done]. intros E%Z.eqb_eq. by exists b. Qed.

Lemma median_rule_test s :
  forallb (fun '(_, b) => match pprev b with Some j => mtp s j <? GetBlockTime b | None => true end) (map_to_list s) = true -> median_rule s.
Proof.
  intros HB i b Hb j Hj. rewrite forallb_forall in HB. specialize (HB (i, b)). cbn in HB. rewrite Hj in HB. apply Z.ltb_lt, HB.
  apply list_elem_of_In. by apply elem_of_map_to_list.
Qed.

Lemma sig_medians : median_rule sig_index.
Proof. apply median_rule_test. vm_compute. reflexivity. Qed.

Lemma sig_versions k j x : (k < 2)%nat -> anc sig_index 15 k = Some j -> sig_index !! j = Some x -> version_computed sig_index sig_params x.
Proof.
  intros Hk Hj Hx.
  assert (HB : forallb (fun k => match anc sig_index 15 k ≫= (sig_index !!.) with
    | Some x => match ComputeBlockVersion sig_index sig_params (pprev x) sig_caches with Some (v, _) => v =? nVersion (header x) | None => false end
    | None => false end) [0; 1]%nat = true) by (vm_compute; reflexivity).
  rewrite forallb_forall in HB. specialize (HB k ltac:(destruct k as [|[|]]; cbn; [tauto|tauto|lia])). rewrite Hj in HB. cbn [mbind option_bind] in HB. rewrite Hx in HB.
  destruct (ComputeBlockVersion sig_index sig_params (pprev x) sig_caches) as [[v m']|] eqn:E; [|done]. apply Z.eqb_eq in HB as ->.
  exists sig_index, sig_caches, m'. split; [done|]. split; [exact sig_reachable|]. split; [|done].
  destruct (pprev x) as [y|] eqn:Ey; [|done]. destruct (eo_child _ _ _ (io_tree _ _ sig_index_ok j x Hx) y Ey) as (z & Hz & _). by exists z.
Qed.

Lemma sig_ancestor : is_ancestor sig_index 63 15 /\ is_ancestor sig_index 63 3 /\ is_ancestor sig_index 255 63 /\ anc sig_index 15 2 = Some 3%N.
Proof. split; [exists 2%nat; vm_compute; reflexivity|]. split; [exists 4%nat; vm_compute; reflexivity|]. split; [exists 2%nat; vm_compute; reflexivity|vm_compute; reflexivity]. Qed.

Lemma sig_started : exists m', State sig_index sig_params (Some 3%N) 0 sig_caches = Some (STARTED, m').
Proof.
  assert (match State sig_index sig_params (Some 3%N) 0 sig_caches with Some (STARTED, _) => true | _ => false end = true) as E by (vm_compute; reflexivity).
  destruct (State sig_index sig_params (Some 3%N) 0 sig_caches) as [[[] m']|]; try done. by exists m'.
Qed.

Lemma sig_times t i : t <= 600 -> is_Some (sig_index !! i) -> not_before sig_index t 3 i.
Proof.
  intros Ht Hi. apply median_rule_not_before; [apply (io_tree _ _ sig_index_ok)|exact sig_medians|done|].
  assert (600 <= mtp sig_index 3) by (vm_compute; discriminate). lia.
Qed.

Lemma threshold_states_exact_witness : exists st m', State sig_index sig_params (Some 7%N) 0 sig_caches = Some (st, m') /\ reachable sig_params sig_index m'.
Proof.
  destruct (sig_entry 7 2 ltac:(by vm_compute)) as (b & Hb & _).
  destruct (threshold_states_exact sig_params sig_index sig_caches (Some 7%N) 0 (mkDeployment 3 500 NO_TIMEOUT 0) sig_reachable (ex_intro _ b Hb) eq_refl) as (st & m' & E & Hr & _).
  exists st, m'. by split.
Defined.

Lemma since_height_exact_witness : exists h m', StateSinceHeight sig_index sig_params (Some 7%N) 0 sig_caches = Some (h, m').
Proof.
  destruct (sig_entry 7 2 ltac:(by vm_compute)) as (b & Hb & _).
  destruct (since_height_exact sig_params sig_index sig_caches (Some 7%N) 0 (mkDeployment 3 500 NO_TIMEOUT 0) sig_reachable (ex_intro _ b Hb) eq_refl) as (st & h & m' & E & _).
  by exists h, m'.
Defined.

Lemma signalling_activates_witness : exists m', DeploymentActiveAfter sig_index sig_params (Some 63%N) 0 sig_caches = Some (true, m').
Proof.
  destruct (sig_entry 3 1 ltac:(by vm_compute)) as (b1 & Hb1 & Hh1), (sig_entry 63 5 ltac:(by vm_compute)) as (b3 & Hb3 & Hh3).
  destruct sig_started as [m1' E1], sig_ancestor as (A1 & _ & _ & A2).
  apply (signalling_activates sig_index sig_params (mkDeployment 3 500 NO_TIMEOUT 0) 0 3 b1 sig_caches m1' 15 63 b3 sig_caches sig_reachable sig_reachable eq_refl).
  - split; discriminate.
  - exact Hb1.
  - rewrite Hh1. reflexivity.
  - exact E1.
  - exact A2.
  - exact sig_versions.
  - exact Hb3.
  - exact A1.
  - rewrite Hh1, Hh3. discriminate.
  - rewrite Hh3. discriminate.
  - by apply sig_times; eauto.
Defined.

Lemma deployments_are_decided_witness : exists st m3' m4', (st = ACTIVE \/ st = FAILED) /\
  State sig_index sig_params (Some 63%N) 1 sig_caches = Some (st, m3') /\ State sig_index sig_params (Some 255%N) 1 sig_caches = Some (st, m4').
Proof.
  destruct (sig_entry 3 1 ltac:(by vm_compute)) as (b1 & Hb1 & Hh1), (sig_entry 63 5 ltac:(by vm_compute)) as (b3 & Hb3 & Hh3), (sig_entry 255 7 ltac:(by vm_compute)) as (b4 & Hb4 & _).
  destruct sig_ancestor as (_ & A1 & A2 & _).
  apply (deployments_are_decided sig_index sig_params (mkDeployment 4 500 600 0) 1 3 b1 63 b3 255 b4 sig_caches sig_caches sig_reachable sig_reachable eq_refl);
    [discriminate|discriminate|exact Hb1|rewrite Hh1; reflexivity|by apply sig_times; eauto|by apply sig_times; eauto|exact Hb3|exact A1| | |exact Hb4|exact A2].
  - rewrite Hh1, Hh3. discriminate.
  - rewrite Hh3. discriminate.
Defined.

(** Without the median rule, which proof-of-work headers are not held to, a deployment that
    is active can be forgotten: the median time falls below the start, and the state is
    the first again. *)
Definition falling_headers : list CBlockHeader :=
  let version := 0x20000008 in
  [sig_header 0 version 900; sig_header 1 version 900; sig_header 3 version 900; sig_header 7 version 900; sig_header 15 version 900; sig_header 31 version 900;
   sig_header 63 version 100; sig_header 127 version 100; sig_header 255 version 100; sig_header 511 version 100; sig_header 1023 version 100; sig_header 2047 version 100;
   sig_header 4095 version 100; sig_header 8191 version 100].

Lemma falling_medians_forget : let s := m_block_index (default BlockManager_new (add_all falling_headers BlockManager_new)) in
  fst <$> State s sig_params (Some 63%N) 0 sig_caches = Some ACTIVE /\ fst <$> State s sig_params (Some 16383%N) 0 sig_caches = Some DEFINED.
Proof. vm_compute. split; reflexivity. Qed.
End VersionBits.
