(* ===== verification/Locks.v ===== *)
(** * Relative lock times (consensus/tx_verify.cpp)

    [CalculateSequenceLocks] and [EvaluateSequenceLocks]: the sequence numbers of the inputs
    of a transaction keep it out of blocks before a number of blocks or of time has passed
    since the coins it spends were made. *)

From stdpp Require Import gmap list.
From Stdlib Require Import ZArith Lia.
From S2P Require Import Prelude OutPoint Transaction Chain Headers VersionBits.

Open Scope Z_scope.

Module Locks.
Import Transaction.Transaction Headers.Headers VersionBits.VersionBits.

Definition LOCKTIME_VERIFY_SEQUENCE : Z := 1.

Section Locks.
Context (s : BlockMap).

(** One round of the loop: the lock of an input on a coin of height [nCoinHeight], for the
    block [block]; the height is set to 0 where it does not matter. *)
Definition input_lock (block : N) (txin : CTxIn) (nCoinHeight : Z) (locks : Z * Z) : option (Z * (Z * Z)) :=
  let '(nMinHeight, nMinTime) := locks in
  if negb (Z.land (nSequence txin) SEQUENCE_LOCKTIME_DISABLE_FLAG =? 0) then Some (0, locks)
  else
    let value := Z.land (nSequence txin) SEQUENCE_LOCKTIME_MASK in
    if negb (Z.land (nSequence txin) SEQUENCE_LOCKTIME_TYPE_FLAG =? 0) then
      a ← GetAncestor s block (Z.max (i32 (nCoinHeight - 1)) 0);
      i ← a;
      nCoinTime ← GetMedianTimePast s i;
      Some (nCoinHeight, (nMinHeight, Z.max nMinTime (i64 (nCoinTime + u32 (Z.shiftl value SEQUENCE_LOCKTIME_GRANULARITY) - 1))))
    else Some (nCoinHeight, (Z.max nMinHeight (i32 (nCoinHeight + value - 1)), nMinTime)).

Fixpoint locks_loop (block : N) (vin : list CTxIn) (prevHeights : list Z) (locks : Z * Z) : option (list Z * (Z * Z)) :=
  match vin, prevHeights with
  | txin :: vin, h :: prevHeights =>
      '(h, locks) ← input_lock block txin h locks;
      '(hs, locks) ← locks_loop block vin prevHeights locks;
      Some (h :: hs, locks)
  | _, _ => Some ([], locks)
  end.

(** [prevHeights] afterwards and the pair; the assertion is on their number. *)
Definition CalculateSequenceLocks (tx : CTransaction) (flags : Z) (prevHeights : list Z) (block : N) : option (list Z * (Z * Z)) :=
  if negb (length prevHeights =? length (vin tx))%nat then None
  else
    let fEnforceBIP68 := (2 <=? version tx) && negb (Z.land flags LOCKTIME_VERIFY_SEQUENCE =? 0) in
    if negb fEnforceBIP68 then Some (prevHeights, (-1, -1))
    else locks_loop block (vin tx) prevHeights (-1, -1).

Definition EvaluateSequenceLocks (block : N) (lockPair : Z * Z) : option bool :=
  b ← s !! block;
  prev ← pprev b;
  nBlockTime ← GetMedianTimePast s prev;
  Some (negb ((nHeight b <=? lockPair.1) || (nBlockTime <=? lockPair.2))).

Definition SequenceLocks (tx : CTransaction) (flags : Z) (prevHeights : list Z) (block : N) : option (bool * list Z) :=
  '(heights, locks) ← CalculateSequenceLocks tx flags prevHeights block;
  r ← EvaluateSequenceLocks block locks;
  Some (r, heights).

(** ** What the locks mean *)

Definition lock_value (i : CTxIn) : Z := Z.land (nSequence i) SEQUENCE_LOCKTIME_MASK.
Definition lock_off (i : CTxIn) : Prop := Z.testbit (nSequence i) 31 = true.
Definition lock_by_time (i : CTxIn) : Prop := Z.testbit (nSequence i) 22 = true.

(** An input on a coin of height [h] may be in the block [b] of parent [prev]: enough blocks,
    or enough time since the block before the coin's *)
Definition lock_met (block prev : N) (b : CBlockIndex) (i : CTxIn) (h : Z) : Prop :=
  lock_off i \/
  (~ lock_by_time i /\ h + lock_value i <= nHeight b) \/
  (lock_by_time i /\ exists a x, s !! a = Some x /\ is_ancestor s block a /\ nHeight x = Z.max (h - 1) 0 /\ mtp s a + 512 * lock_value i <= mtp s prev).

Context (Hs : tree_ok s) (Hheights : map_Forall (fun _ b => nHeight b < 2147418112) s) (Htimes : map_Forall (fun _ b => in_u32 (GetBlockTime b)) s).

Lemma flag_set z k : 0 <= k -> (negb (Z.land z (Z.shiftl 1 k) =? 0)) = Z.testbit z k.
Proof.
  intros Hk. rewrite Z.shiftl_1_l. destruct (Z.testbit z k) eqn:E.
  - apply negb_true_iff, Z.eqb_neq. rewrite land_pow2_bit, E by done. done.
  - apply negb_false_iff, Z.eqb_eq. by apply land_pow2_bit.
Qed.

Lemma lock_value_range i : 0 <= lock_value i < 65536.
Proof. unfold lock_value. change SEQUENCE_LOCKTIME_MASK with (Z.ones 16). rewrite Z.land_ones by lia. apply Z.mod_pos_bound. lia. Qed.

Lemma mtp_range i b : s !! i = Some b -> in_u32 (mtp s i).
Proof.
  intros Hb. pose proof (mtp_known s Hs i b Hb) as E. apply (median_time_spec s i b _ Hs Hb) in E as (l & (b' & _ & _ & Hl) & (Hin & _)).
  apply list_elem_of_lookup in Hin as [k Hk]. destruct (Hl k _ Hk) as (j & x & _ & Hx & <-). exact (Htimes j x Hx).
Qed.

Lemma input_lock_spec block b prev x i h m t : s !! block = Some b -> pprev b = Some prev -> s !! prev = Some x -> 0 <= h <= nHeight b ->
  exists h' m' t', input_lock block i h (m, t) = Some (h', (m', t')) /\
    (m' < nHeight b /\ t' < mtp s prev <-> (m < nHeight b /\ t < mtp s prev) /\ lock_met block prev b i h).
Proof.
  intros Hb Hp Hx Hh. assert (nHeight b < 2147418112) by exact (Hheights block b Hb). pose proof (eo_height _ _ _ (Hs block b Hb)). pose proof (lock_value_range i) as HV. unfold input_lock, lock_met.
  unfold SEQUENCE_LOCKTIME_DISABLE_FLAG, SEQUENCE_LOCKTIME_TYPE_FLAG. rewrite !flag_set by lia. unfold lock_off, lock_by_time. fold (lock_value i).
  destruct (Z.testbit (nSequence i) 31); [do 3 eexists; split; [done|]; tauto|].
  destruct (Z.testbit (nSequence i) 22).
  - rewrite i32_id by (unfold in_i32; lia). rewrite (GetAncestor_spec s Hs block b _ Hb). rewrite (proj2 (Z.ltb_ge _ _)), (proj2 (Z.ltb_ge _ _)) by lia. cbn [orb mbind option_bind].
    destruct (anc_at s Hs (Z.to_nat (nHeight b - Z.max (h - 1) 0)) block b Hb ltac:(lia)) as (a & y & Ea & Hy & Hhy). rewrite Ea. cbn [mbind option_bind].
    rewrite (mtp_known s Hs a y Hy). cbn [mbind option_bind]. pose proof (mtp_range a y Hy) as HA. unfold in_u32 in HA.
    unfold SEQUENCE_LOCKTIME_GRANULARITY. rewrite Z.shiftl_mul_pow2 by lia. change (2 ^ 9) with 512. rewrite u32_id by (unfold in_u32; lia). rewrite i64_id by (unfold in_i64; lia).
    do 3 eexists. split; [done|]. split.
    + intros [H1 H2]. split; [lia|]. right. right. split; [done|]. exists a, y. split_and!; [done|by eexists|lia|lia].
    + intros [[H1 H2] [?|[[? _]|(_ & a' & y' & Hy' & [k Hk] & Hh' & Hle)]]]; [done|done|]. split; [done|].
      destruct (anc_height s Hs block b k a' Hb Hk) as (y2 & Hy2 & Hh2). assert (y2 = y') as -> by congruence.
      assert (k = Z.to_nat (nHeight b - Z.max (h - 1) 0)) as -> by lia. assert (a' = a) as -> by congruence. lia.
  - rewrite i32_id by (unfold in_i32; lia). do 3 eexists. split; [done|]. split.
    + intros [H1 H2]. split; [lia|]. right. left. split; [done|lia].
    + intros [[H1 H2] [?|[[_ Hle]|(? & _)]]]; [done| |done]. lia.
Qed.

Lemma locks_loop_spec block b prev x : s !! block = Some b -> pprev b = Some prev -> s !! prev = Some x -> forall l hs m t,
  length hs = length l -> Forall (fun h => 0 <= h <= nHeight b) hs ->
  exists hs' m' t', locks_loop block l hs (m, t) = Some (hs', (m', t')) /\
    (m' < nHeight b /\ t' < mtp s prev <-> (m < nHeight b /\ t < mtp s prev) /\ Forall2 (lock_met block prev b) l hs).
Proof.
  intros Hb Hp Hx. induction l as [|i l IH]; intros [|h hs] m t Hl Hhs; try done; cbn [locks_loop].
  { do 3 eexists. split; [done|]. split; [done|tauto]. }
  apply Forall_cons in Hhs as [Hh Hhs]. destruct (input_lock_spec block b prev x i h m t Hb Hp Hx Hh) as (h' & m1 & t1 & -> & H1). cbn [mbind option_bind].
  destruct (IH hs m1 t1 ltac:(cbn in Hl; lia) Hhs) as (hs' & m' & t' & -> & H2). cbn [mbind option_bind]. do 3 eexists. split; [done|]. rewrite H2, H1. split.
  - intros [[H3 H4] H5]. split; [done|]. by constructor.
  - intros [H3 H4]. inversion H4; subst. tauto.
Qed.
End Locks.

(** C40: Relative lock times are exact.  On any block index, [SequenceLocks] answers whether a
    transaction may be in a block: the rule is off (for old versions or without the flag),
    or every input whose lock is not disabled is on a coin that is old enough, by the
    number of blocks or by the time between the medians before the two blocks.  Reducing
    all inputs to one height and one time loses nothing, nothing wraps (below the height
    2^31 - 65536), and no assertion fails. *)
Theorem sequence_locks_exact s tx flags prevHeights block b prev : tree_ok s -> map_Forall (fun _ b => nHeight b < 2147418112) s ->
  map_Forall (fun _ b => in_u32 (GetBlockTime b)) s -> s !! block = Some b -> pprev b = Some prev ->
  length prevHeights = length (vin tx) -> Forall (fun h => 0 <= h <= nHeight b) prevHeights ->
  exists r heights, SequenceLocks s tx flags prevHeights block = Some (r, heights) /\
    (r = true <-> version tx < 2 \/ Z.testbit flags 0 = false \/ Forall2 (lock_met s block prev b) (vin tx) prevHeights).
Proof.
  intros Hs Hheights Htimes Hb Hp Hl Hhs. destruct (eo_child _ _ _ (Hs block b Hb) prev Hp) as (x & Hx & Hh & _). pose proof (eo_height _ _ _ (Hs prev x Hx)).
  pose proof (mtp_range s Hs Htimes prev x Hx) as HM. unfold in_u32 in HM. unfold SequenceLocks, CalculateSequenceLocks. rewrite (proj2 (Nat.eqb_eq _ _) Hl). cbn [negb].
  assert (HE : forall m t, EvaluateSequenceLocks s block (m, t) = Some (negb ((nHeight b <=? m) || (mtp s prev <=? t)))).
  { intros m t. unfold EvaluateSequenceLocks. rewrite Hb. cbn [mbind option_bind]. rewrite Hp. cbn [mbind option_bind]. by rewrite (mtp_known s Hs prev x Hx). }
  assert (HR : forall m t, negb ((nHeight b <=? m) || (mtp s prev <=? t)) = true <-> m < nHeight b /\ t < mtp s prev).
  { intros m t. by rewrite negb_true_iff, orb_false_iff, !Z.leb_gt. }
  pose proof (flag_set flags 0 ltac:(lia)) as HF. change (Z.shiftl 1 0) with LOCKTIME_VERIFY_SEQUENCE in HF. rewrite HF.
  destruct (Z.leb_spec 2 (version tx)) as [Hv|Hv]; [destruct (Z.testbit flags 0) eqn:EF|]; cbn [andb negb mbind option_bind].
  - destruct (locks_loop_spec s Hs Hheights Htimes block b prev x Hb Hp Hx (vin tx) prevHeights (-1) (-1) Hl Hhs) as (hs' & m' & t' & -> & HX). cbn [mbind option_bind].
    rewrite HE. cbn [mbind option_bind]. do 2 eexists. split; [done|]. rewrite HR, HX. split; [by intros [_ ?]; right; right|].
    intros [?|[?|?]]; [lia|done|]. split; [lia|done].
  - rewrite HE. cbn [mbind option_bind]. do 2 eexists. split; [done|]. rewrite HR. split; [by right; left|lia].
  - rewrite HE. cbn [mbind option_bind]. do 2 eexists. split; [done|]. rewrite HR. split; [by left|lia].
Qed.

(** On the tree of VersionBits.v: a coin of the first block, spent in the sixth with a lock
    of five blocks *)
Lemma lock_times : map_Forall (fun _ b => in_u32 (GetBlockTime b)) sig_index.
Proof.
  assert (HB : map_Forall (fun _ b => header_ok (header b)) sig_index) by exact (built_headers (C := Crypto.toy_crypto) wit_hash sig_tree sig_built).
  intros i b Hb. apply (HB i b Hb).
Qed.

Lemma lock_heights : map_Forall (fun _ b => nHeight b < 2147418112) sig_index.
Proof.
  intros i b Hb. assert (nHeight b < Z.of_nat (size sig_index)) by exact (mo_heights _ (built_ok (C := Crypto.toy_crypto) wit_hash wit_hash_self sig_tree sig_built sig_size) i b Hb).
  assert (Z.of_nat (size sig_index) = 8) by (vm_compute; reflexivity). lia.
Qed.

Lemma sequence_locks_exact_witness : exists heights,
  SequenceLocks sig_index (mkTransaction [mkTxIn (mkOutPoint 1 0) [] 5 []] [] 2 0) 1 [0] 63 = Some (true, heights).
Proof.
  destruct (sig_entry 63 5 ltac:(by vm_compute)) as (b & Hb & Hh).
  assert (pprev b = Some 31%N) as Hp.
  { assert (match sig_index !! 63%N with Some b => bool_decide (pprev b = Some 31%N) | None => false end = true) as E by (vm_compute; reflexivity).
    rewrite Hb in E. by apply bool_decide_eq_true in E. }
  destruct (sequence_locks_exact sig_index (mkTransaction [mkTxIn (mkOutPoint 1 0) [] 5 []] [] 2 0) 1 [0] 63 b 31
    (io_tree _ _ sig_index_ok) lock_heights lock_times Hb Hp eq_refl) as (r & heights & E & HR).
  - constructor; [rewrite Hh; split; discriminate|constructor].
  - exists heights. rewrite E. replace r with true; [reflexivity|]. symmetry. apply HR. right. right. constructor; [|constructor].
    right. left. split; [discriminate|]. rewrite Hh. discriminate.
Defined.
End Locks.
