(* ===== verification/Connect.v ===== *)
(** * Connecting and disconnecting blocks (validation.cpp, consensus/tx_verify.cpp, undo.h)

    What a block does to the coins: [CheckTxInputs], [UpdateCoins] with the undo data, the
    statements of [ConnectBlock] that read or change coins, fees, rewards and totals (the
    check for overwrites, the loop, [CheckReward], the money supply), and
    [DisconnectBlock].  The other checks of [ConnectBlock] (sequence locks, signature
    operations, scripts, contracts, delegation, state roots) only reject or give gas refunds;
    they are the argument [others] or left out.  The theorems: connecting spends exactly the
    inputs and adds exactly the spendable outputs, disconnecting with the undo data restores
    the coins, and a block creates no more than its subsidy; a proof-of-work block with a
    transaction of the form of a coinstake is the exception. *)

From stdpp Require Import gmap list strings.
From Stdlib Require Import ZArith Lia.
From S2P Require Import Prelude Params Serialize Crypto Merkle Script OutPoint Transaction Coins ArithUint256 Chain Block.

Open Scope Z_scope.

Module Connect.
Import Transaction.Transaction Coins.Coins Block.Block.

Section Operations.
Context {K : Crypto} {V : Type} `{CCoinsView V}.
#[local] Abbreviation cache := (CCoinsViewCache V).

(** The 30-bit member [nHeight] of a coin. *)
Definition height30 (h : Z) : Z := h mod 1073741824.

(** ** Adding and spending (AddCoins, UpdateCoins) *)

Fixpoint add_outputs (txid : N) (i : Z) (vout : list CTxOut) (h : Z) (fCoinbase fCoinstake check_for_overwrite : bool) (c : cache) : option cache :=
  match vout with
  | [] => Some c
  | o :: vout =>
      let '(overwrite, c) := if check_for_overwrite then HaveCoin (mkOutPoint txid (u32 i)) c else (fCoinbase, c) in
      c ← AddCoin (mkOutPoint txid (u32 i)) (mkCoin o fCoinbase fCoinstake (height30 h)) overwrite c;
      add_outputs txid (i + 1) vout h fCoinbase fCoinstake check_for_overwrite c
  end.
Definition AddCoins (c : cache) (tx : CTransaction) (h : Z) (check_for_overwrite : bool) : option cache :=
  add_outputs (GetHash tx) 0 (vout tx) h (IsCoinBase tx) (IsCoinStake tx) check_for_overwrite c.

(** The coins spent are the undo data; [None] is the failed assertion. *)
Fixpoint spend_inputs (vin : list CTxIn) (c : cache) : option (list Coin * cache) :=
  match vin with
  | [] => Some ([], c)
  | i :: vin =>
      match SpendCoin (prevout i) c with
      | (Some x, c) => '(xs, c) ← spend_inputs vin c; Some (x :: xs, c)
      | (None, _) => None
      end
  end.

Definition UpdateCoins (tx : CTransaction) (h : Z) (c : cache) : option (list Coin * cache) :=
  '(vprevout, c) ← (if IsCoinBase tx then Some ([], c) else spend_inputs (vin tx) c);
  c ← AddCoins c tx h false;
  Some (vprevout, c).

(** ** Checking the inputs (CheckTxInputs) *)

(** The fee, the rejection, or a failed assertion or exception. *)
Inductive verdict := Valid (txfee : Z) | Invalid (reason : string) | Stopped.

Fixpoint inputs_loop (p : Params) (nSpendHeight : Z) (vin : list CTxIn) (nValueIn : Z) (c : cache) : verdict * cache :=
  match vin with
  | [] => (Valid nValueIn, c)
  | i :: vin =>
      let '(x, c) := AccessCoin (prevout i) c in
      if IsSpent x then (Stopped, c)
      else if (fCoinBase x || fCoinStake x) && (i32 (nSpendHeight - Coins.nHeight x) <? CoinbaseMaturity p nSpendHeight)
      then (Invalid "bad-txns-premature-spend-of-coinbase"%string, c)
      else
        let nValueIn := i64 (nValueIn + nValue (out x)) in
        if negb (MoneyRange (nValue (out x))) || negb (MoneyRange nValueIn)
        then (Invalid "bad-txns-inputvalues-outofrange"%string, c)
        else inputs_loop p nSpendHeight vin nValueIn c
  end.

(** The fee is that of the caller, zero, for a coinstake. *)
Definition CheckTxInputs (p : Params) (tx : CTransaction) (nSpendHeight : Z) (c : cache) : verdict * cache :=
  let '(have, c) := HaveInputs tx c in
  if negb have then (Invalid "bad-txns-inputs-missingorspent"%string, c)
  else
    let '(r, c) := inputs_loop p nSpendHeight (vin tx) 0 c in
    (match r with
     | Valid nValueIn =>
         if IsCoinStake tx then Valid 0
         else match GetValueOut tx with
         | None => Stopped
         | Some value_out =>
             if nValueIn <? value_out then Invalid "bad-txns-in-belowout"%string
             else if negb (MoneyRange (i64 (nValueIn - value_out))) then Invalid "bad-txns-fee-outofrange"%string
             else Valid (i64 (nValueIn - value_out))
         end
     | r => r
     end, c).

(** ** The loop of ConnectBlock *)

Record connecting := mkConnecting {
  nFees : Z; nActualStakeReward : Z; nValueOut : Z; nValueIn : Z; gasRefunds : Z; checkVouts : list CTxOut;
  vtxundo : list (list Coin); view : cache
}.

Inductive connect_result := Connected (s : connecting) | Rejected (reason : string) | Aborted.

(** An output that creates or calls a contract is spent only with [OP_SPEND]. *)
Fixpoint contract_spends (vin : list CTxIn) (c : cache) : bool * cache :=
  match vin with
  | [] => (true, c)
  | j :: vin =>
      if Script.HasOpSpend (scriptSig j) then contract_spends vin c
      else
        let '(x, c) := AccessCoin (prevout j) c in
        if Script.HasOpCreate (scriptPubKey (out x)) || Script.HasOpCall (scriptPubKey (out x)) then (false, c) else contract_spends vin c
  end.

(** [gasRefunds += refundVout.nValue] *)
Definition refund_total (vouts : list CTxOut) (gasRefunds : Z) : Z := fold_left (fun r o => i64 (r + nValue o)) vouts gasRefunds.

(** [others i tx] stands for the checks of a transaction that are not modelled (sequence
    locks, signature operations, scripts, contract execution): [None] when one of them
    rejects, otherwise the refund outputs of the contracts. *)
Section Loop.
Context (p : Params) (others : nat -> CTransaction -> option (list CTxOut)) (h : Z).

(** The transaction at position [i]. *)
Definition connect_tx (i : nat) (tx : CTransaction) (s : connecting) : connect_result :=
  let '(r, c) := if IsCoinBase tx then (Valid 0, view s) else CheckTxInputs p tx h (view s) in
  match r with
  | Invalid reason => Rejected reason
  | Stopped => Aborted
  | Valid txfee =>
      let fees := i64 (nFees s + txfee) in
      if negb (IsCoinBase tx) && negb (MoneyRange fees) then Rejected "bad-txns-accumulated-fee-outofrange"%string
      else
        match GetValueOut tx with
        | None => Aborted
        | Some value_out =>
            let '(reward, c) :=
              if negb (IsCoinBase tx) && IsCoinStake tx
              then let '(value_in, c) := GetValueIn tx c in (i64 (value_out - value_in), c)
              else (nActualStakeReward s, c) in
            let '(allowed, c) := if IsCoinBase tx then (true, c) else contract_spends (vin tx) c in
            if negb allowed then Rejected "bad-txns-invalid-contract-spend"%string
            else
              let '(value_in, c) := GetValueIn tx c in
              match others i tx with
              | None => Rejected "others"%string
              | Some refunds =>
                  match UpdateCoins tx h c with
                  | None => Aborted
                  | Some (vprevout, c) =>
                      Connected (mkConnecting fees reward (u64 (nValueOut s + value_out)) (u64 (nValueIn s + value_in))
                                              (refund_total refunds (gasRefunds s)) (checkVouts s ++ refunds)
                                              (if (i =? 0)%nat then vtxundo s else vtxundo s ++ [vprevout]) c)
                  end
              end
        end
  end.

Fixpoint connect_txs (i : nat) (txs : list CTransaction) (s : connecting) : connect_result :=
  match txs with
  | [] => Connected s
  | tx :: txs =>
      match connect_tx i tx s with
      | Connected s => connect_txs (S i) txs s
      | r => r
      end
  end.
End Loop.

(** ** The reward (CheckReward) *)

(** [std::find] and [erase] *)
Fixpoint take_out (o : CTxOut) (l : list CTxOut) : option (list CTxOut) :=
  match l with
  | [] => None
  | o' :: l => if bool_decide (o' = o) then Some l else cons o' <$> take_out o l
  end.
Fixpoint take_outs (os l : list CTxOut) : option (list CTxOut) :=
  match os with
  | [] => Some l
  | o :: os => l ← take_out o l; take_outs os l
  end.

(** [mpos] gives the outputs of [GetMPoSOutputs] (pos.cpp) for a reward piece and a height,
    [None] when it fails; [nFirstMPoSBlock] and [nLastMPoSBlock] are consensus parameters. *)
Definition CheckReward (p : Params) (nFirstMPoSBlock nLastMPoSBlock : Z) (mpos : Z -> Z -> option (list CTxOut))
    (b : CBlock) (h fees gasRefunds stakeReward : Z) (vouts : list CTxOut) (nValueCoinPrev : Z) (delegateOutputExist : bool) : option string :=
  let stake := IsProofOfStake (Block.header b) in
  let offset := if stake then 1%nat else 0%nat in
  match vtx b !! offset with
  | None => Some "no transaction"%string
  | Some tx =>
      match take_outs vouts (vout tx) with
      | None => Some "bad-gas-refund-missing"%string
      | Some vTempVouts =>
          let blockReward := i64 (fees + GetBlockSubsidy h p) in
          if negb stake then
            match GetValueOut tx with
            | None => Some "exception"%string
            | Some v => if blockReward <? v then Some "bad-cb-amount"%string else None
            end
          else if blockReward <? stakeReward then Some "bad-cs-amount"%string
          else
            let nPrevHeight := i32 (h - 1) in
            let rewardRecipients := if (nFirstMPoSBlock <=? nPrevHeight) && (nPrevHeight <? nLastMPoSBlock) then nMPoSRewardRecipients p else 1 in
            if rewardRecipients <? 1 then Some "CheckReward(): invalid reward recipients"%string
            else if blockReward <? gasRefunds then Some "bad-cs-gas-greater-than-reward"%string
            else
              let splitReward := Z.quot (i64 (blockReward - gasRefunds)) rewardRecipients in
              let nReward := i64 (i64 (blockReward - gasRefunds) - i64 (splitReward * (rewardRecipients - 1))) in
              let value j := nValue (nth j (vout tx) CTxOut_null) in
              let nMinedReward := i64 (i64 (value 1%nat + (if delegateOutputExist then value 2%nat else 0)) - nValueCoinPrev) in
              if HasProofOfDelegation (Block.header b) && negb (nReward =? nMinedReward) then Some "bad-cs-delegate-reward"%string
              else if rewardRecipients =? 1 then None
              else match mpos splitReward nPrevHeight with
              | None => Some "CheckReward(): cannot create the list of MPoS outputs"%string
              | Some mposOutputList =>
                  match take_outs mposOutputList vTempVouts with
                  | None => Some "bad-cs-mpos-missing"%string
                  | Some _ => None
                  end
              end
      end
  end.

(** ** ConnectBlock *)

(** Whether an output of the block is there already; all of them are looked up. *)
Fixpoint outputs_exist (txid : N) (o : Z) (vout : list CTxOut) (found : bool) (c : cache) : bool * cache :=
  match vout with
  | [] => (found, c)
  | _ :: vout => let '(b, c) := HaveCoin (mkOutPoint txid (u32 o)) c in outputs_exist txid (o + 1) vout (found || b) c
  end.
Fixpoint overwrites (vtx : list CTransaction) (found : bool) (c : cache) : bool * cache :=
  match vtx with
  | [] => (found, c)
  | tx :: vtx => let '(found, c) := outputs_exist (GetHash tx) 0 (vout tx) found c in overwrites vtx found c
  end.

(** The value of the coin staked, [None] when it is not there. *)
Definition stake_value (b : CBlock) (c : cache) : option Z * cache :=
  if IsProofOfStake (Block.header b) then
    match vtx b !! 1%nat ≫= (fun tx => vin tx !! 0%nat) with
    | Some i => let '(x, c) := GetCoin (prevout i) c in ((fun x => nValue (out x)) <$> x, c)
    | None => (None, c)
    end
  else (Some 0, c).

(** [(uint64_t)(100000000 + ((nHeight - 5000) * 4)) * COIN] *)
Definition expected_supply (h : Z) : Z := u64 (u64 (i32 (100000000 + i32 ((h - 5000) * 4))) * COIN).

Record chain_context := mkChainContext {
  hashGenesisBlock : N; nFirstMPoSBlock : Z; nLastMPoSBlock : Z; MineBlocksOnDemand : bool;
  mpos_outputs : Z -> Z -> option (list CTxOut)
}.

(** The block [hash] at height [h] on top of [prev], whose [nMoneySupply] is [prev_supply];
    [fJustCheck] is false and the block has been checked ([CheckBlock]). *)
Definition ConnectBlock (p : Params) (k : chain_context) (others : nat -> CTransaction -> option (list CTxOut)) (delegateOutputExist : bool)
    (b : CBlock) (hash : N) (h : Z) (prev : N) (prev_supply : Z) (c : cache) : connect_result * Z :=
  let '(best, c) := GetBestBlock c in
  if negb (best =? prev)%N then (Aborted, 0)
  else if (hash =? hashGenesisBlock k)%N then (Connected (mkConnecting 0 0 0 0 0 [] [] (SetBestBlock hash c)), 0)
  else
    let '(overwrite, c) := overwrites (vtx b) false c in
    let '(stake, c) := stake_value b c in
    match stake with
    | None => (Rejected "stake-prevout-not-exist"%string, 0)
    | Some nValueCoinPrev =>
        if overwrite then (Rejected "bad-txns-BIP30"%string, 0)
        else
          match connect_txs p others h 0 (vtx b) (mkConnecting 0 0 0 0 0 [] [] c) with
          | Connected s =>
              if nFees s <? gasRefunds s then (Rejected "bad-blk-fees-greater-gasrefund"%string, 0)
              else
                match CheckReward p (nFirstMPoSBlock k) (nLastMPoSBlock k) (mpos_outputs k) b h (nFees s) (gasRefunds s)
                                  (nActualStakeReward s) (checkVouts s) nValueCoinPrev delegateOutputExist with
                | Some _ => (Rejected "block-reward-invalid"%string, 0)
                | None =>
                    let nMoneySupply := u64 (prev_supply + nValueOut s - nValueIn s) in
                    if (5000 <? h) && negb (MineBlocksOnDemand k) && (expected_supply h <? nMoneySupply)
                    then (Rejected "incorrect-money-supply"%string, 0)
                    else (Connected (mkConnecting (nFees s) (nActualStakeReward s) (nValueOut s) (nValueIn s) (gasRefunds s) (checkVouts s)
                                                  (vtxundo s) (SetBestBlock hash (view s))), nMoneySupply)
                end
          | r => (r, 0)
          end
    end.

(** ** Disconnecting (ApplyTxInUndo, DisconnectBlock) *)

Inductive DisconnectResult := DISCONNECT_OK | DISCONNECT_UNCLEAN | DISCONNECT_FAILED.

(** [None] is the exception of [AddCoin]. *)
Definition ApplyTxInUndo (MAX_OUTPUTS_PER_BLOCK : nat) (undo : Coin) (o : COutPoint) (c : cache) : option (DisconnectResult * cache) :=
  let '(have, c) := HaveCoin o c in
  let '(undo, c) :=
    if Coins.nHeight undo =? 0 then
      let '(alternate, c) := AccessByTxid MAX_OUTPUTS_PER_BLOCK (OutPoint.hash o) c in
      (if IsSpent alternate then None
       else Some (mkCoin (out undo) (fCoinBase alternate) (fCoinStake undo) (Coins.nHeight alternate)), c)
    else (Some undo, c) in
  match undo with
  | None => Some (DISCONNECT_FAILED, c)
  | Some undo => c ← AddCoin o undo have c; Some (if have then DISCONNECT_UNCLEAN else DISCONNECT_OK, c)
  end.

(** The outputs of a transaction are spent and compared; [clean] says they all matched. *)
Fixpoint spend_outputs (txid : N) (i : Z) (vout : list CTxOut) (h : Z) (is_coinbase is_coinstake : bool) (clean : bool) (c : cache) : bool * cache :=
  match vout with
  | [] => (clean, c)
  | o :: vout =>
      if Script.IsUnspendable (scriptPubKey o) then spend_outputs txid (i + 1) vout h is_coinbase is_coinstake clean c
      else
        let '(r, c) := SpendCoin (mkOutPoint txid (u32 i)) c in
        let same :=
          match r with
          | None => false
          | Some x => bool_decide (o = out x) && (h =? Coins.nHeight x) && bool_decide (is_coinbase = fCoinBase x) && bool_decide (is_coinstake = fCoinStake x)
          end in
        spend_outputs txid (i + 1) vout h is_coinbase is_coinstake (clean && same) c
  end.

(** The inputs from the last to the first. *)
Fixpoint restore_inputs (MAX_OUTPUTS_PER_BLOCK : nat) (l : list (CTxIn * Coin)) (clean : bool) (c : cache) : option (option bool * cache) :=
  match l with
  | [] => Some (Some clean, c)
  | (i, undo) :: l =>
      '(r, c) ← ApplyTxInUndo MAX_OUTPUTS_PER_BLOCK undo (prevout i) c;
      match r with
      | DISCONNECT_FAILED => Some (None, c)
      | DISCONNECT_UNCLEAN => restore_inputs MAX_OUTPUTS_PER_BLOCK l false c
      | DISCONNECT_OK => restore_inputs MAX_OUTPUTS_PER_BLOCK l clean c
      end
  end.

(** One transaction; [undo] is [None] for the coinbase.  [Some None] is the failure the
    function reports. *)
Definition disconnect_tx (MAX_OUTPUTS_PER_BLOCK : nat) (h : Z) (fEnforceBIP30 : bool) (tx : CTransaction) (undo : option (list Coin))
    (clean : bool) (c : cache) : option (option bool * cache) :=
  let '(same, c) := spend_outputs (GetHash tx) 0 (vout tx) h (IsCoinBase tx) (IsCoinStake tx) true c in
  let clean := clean && (same || (IsCoinBase tx && negb fEnforceBIP30)) in
  match undo with
  | None => Some (Some clean, c)
  | Some vprevout =>
      if negb (length vprevout =? length (vin tx))%nat then Some (None, c)
      else restore_inputs MAX_OUTPUTS_PER_BLOCK (reverse (zip (vin tx) vprevout)) clean c
  end.

(** The transactions from the last to the first, each with its undo data. *)
Fixpoint disconnect_txs (MAX_OUTPUTS_PER_BLOCK : nat) (h : Z) (fEnforceBIP30 : bool) (l : list (CTransaction * option (list Coin)))
    (clean : bool) (c : cache) : option (option bool * cache) :=
  match l with
  | [] => Some (Some clean, c)
  | (tx, undo) :: l =>
      '(r, c) ← disconnect_tx MAX_OUTPUTS_PER_BLOCK h fEnforceBIP30 tx undo clean c;
      match r with
      | None => Some (None, c)
      | Some clean => disconnect_txs MAX_OUTPUTS_PER_BLOCK h fEnforceBIP30 l clean c
      end
  end.

Definition DisconnectBlock (MAX_OUTPUTS_PER_BLOCK : nat) (txs : list CTransaction) (vtxundo : list (list Coin)) (h : Z) (fEnforceBIP30 : bool)
    (prev : N) (c : cache) : option (DisconnectResult * cache) :=
  if negb (length vtxundo + 1 =? length txs)%nat then Some (DISCONNECT_FAILED, c)
  else
    match disconnect_txs MAX_OUTPUTS_PER_BLOCK h fEnforceBIP30 (reverse (zip txs (None :: map Some vtxundo))) true c with
    | None => None
    | Some (None, c) => Some (DISCONNECT_FAILED, c)
    | Some (Some clean, c) => Some (if clean then DISCONNECT_OK else DISCONNECT_UNCLEAN, SetBestBlock prev c)
    end.
End Operations.

(** ** The coins as a map

    The reference definitions: what a transaction does to the map of unspent outputs. *)

Definition u_spend (vin : list CTxIn) (u : gmap COutPoint Coin) : gmap COutPoint Coin :=
  fold_left (fun u i => delete (prevout i) u) vin u.

Fixpoint u_add (txid : N) (i : Z) (vout : list CTxOut) (h : Z) (cb cs : bool) (u : gmap COutPoint Coin) : gmap COutPoint Coin :=
  match vout with
  | [] => u
  | o :: vout =>
      u_add txid (i + 1) vout h cb cs
        (if Script.IsUnspendable (scriptPubKey o) then u else <[mkOutPoint txid i := mkCoin o cb cs (height30 h)]> u)
  end.

Section Reference.
Context {K : Crypto}.

Definition u_update (h : Z) (tx : CTransaction) (u : gmap COutPoint Coin) : gmap COutPoint Coin :=
  u_add (GetHash tx) 0 (vout tx) h (IsCoinBase tx) (IsCoinStake tx) (if IsCoinBase tx then u else u_spend (vin tx) u).

Definition u_connect (h : Z) (txs : list CTransaction) (u : gmap COutPoint Coin) : gmap COutPoint Coin :=
  fold_left (fun u tx => u_update h tx u) txs u.
End Reference.

Section Refinement.
Context {K : Crypto} {V : Type} `{CCoinsViewLaws V} (W : COutPoint -> Prop).
Implicit Types (c : CCoinsViewCache V) (u : gmap COutPoint Coin).

(** The cache shows the map [u], and would notice an overwrite of the outpoints of [W]. *)
Record shows c u : Prop := {
  sh_ok : cache_ok c;
  sh_coins o : coins c o = u !! o;
  sh_guarded o : W o -> guarded c o
}.

Lemma shows_same c c' u : shows c u -> cache_ok c' -> same c c' -> (forall o, guarded c o -> guarded c' o) -> shows c' u.
Proof. intros [_ S G] Hc [E _ _] Hg. split; [done| |by auto]. intros o. by rewrite E. Qed.

Lemma HaveCoin_shows c u o : shows c u -> exists c', HaveCoin o c = (bool_decide (is_Some (u !! o)), c') /\ shows c' u /\ hashBlock c' = hashBlock c.
Proof.
  intros Hs. destruct (HaveCoin_spec o c (sh_ok _ _ Hs)) as (c' & E & Hc' & S). pose proof (HaveCoin_guarded o c) as G. rewrite E in *.
  rewrite (sh_coins _ _ Hs). exists c'. split; [done|]. split; [|apply S]. eapply shows_same; [done|done|done|]. intros o' Ho'. apply (G o' (sh_ok _ _ Hs) Ho').
Qed.

Lemma GetCoin_shows c u o : shows c u -> exists c', GetCoin o c = (u !! o, c') /\ shows c' u /\ hashBlock c' = hashBlock c.
Proof.
  intros Hs. destruct (GetCoin_spec o c (sh_ok _ _ Hs)) as (c' & E & Hc' & S). pose proof (GetCoin_guarded o c) as G. rewrite E in *.
  rewrite (sh_coins _ _ Hs). exists c'. split; [done|]. split; [|apply S]. eapply shows_same; [done|done|done|]. intros o' Ho'. apply (G o' (sh_ok _ _ Hs) Ho').
Qed.

Lemma AccessCoin_shows c u o : shows c u -> exists x c', AccessCoin o c = (x, c') /\ shows c' u /\ hashBlock c' = hashBlock c /\ unspent x = u !! o.
Proof.
  intros Hs. destruct (AccessCoin_spec o c (sh_ok _ _ Hs)) as (x & c' & E & Hc' & S & Ex). pose proof (AccessCoin_guarded o c) as G. rewrite E in *.
  rewrite (sh_coins _ _ Hs) in Ex. exists x, c'. split; [done|]. split; [|split; [apply S|done]].
  eapply shows_same; [done|done|done|]. intros o' Ho'. apply (G o' (sh_ok _ _ Hs) Ho').
Qed.

(** What [AddCoin] leaves. *)
Definition u_insert o x u : gmap COutPoint Coin := if Script.IsUnspendable (scriptPubKey (out x)) then u else <[o := x]> u.

Lemma AddCoin_shows c u o x po : shows c u -> IsSpent x = false -> po = true \/ u !! o = None ->
  exists c', AddCoin o x po c = Some c' /\ hashBlock c' = hashBlock c /\ shows c' (u_insert o x u).
Proof.
  intros [Hc S G] Hx Hpo. rewrite <- S in Hpo. destruct (AddCoin_spec o x po c Hc Hx Hpo) as (c' & EA & Hc' & Hh & _ & E).
  exists c'. split; [done|]. split; [done|]. split; [done| |].
  - intros o'. rewrite E. unfold add_coin, u_insert. destruct (Script.IsUnspendable _); [apply S|].
    destruct (decide (o' = o)) as [->|Hne]; [by rewrite lookup_insert_eq|by rewrite lookup_insert_ne].
  - intros o' Ho'. eapply AddCoin_guarded; [done|auto].
Qed.

(** Both outcomes, for an outpoint the cache guards. *)
Lemma AddCoin_cases c u o x po : shows c u -> IsSpent x = false -> po = true \/ W o ->
  match AddCoin o x po c with
  | Some c' => hashBlock c' = hashBlock c /\ shows c' (u_insert o x u) /\
      (po = false -> Script.IsUnspendable (scriptPubKey (out x)) = false -> u !! o = None)
  | None => Script.IsUnspendable (scriptPubKey (out x)) = false /\ is_Some (u !! o)
  end.
Proof.
  intros Hs Hx Hpo. destruct po.
  { destruct (AddCoin_shows c u o x true Hs Hx (or_introl eq_refl)) as (c' & -> & Hh & Hs'). done. }
  destruct Hpo as [|Ho]; [done|]. destruct (u !! o) as [y|] eqn:Ey.
  - destruct (Script.IsUnspendable (scriptPubKey (out x))) eqn:Eu.
    + unfold AddCoin, u_insert. rewrite Hx, Eu. done.
    + rewrite (AddCoin_refused o x y c Hx Eu (sh_guarded _ _ Hs o Ho)); [done|]. by rewrite (sh_coins _ _ Hs).
  - destruct (AddCoin_shows c u o x false Hs Hx (or_intror Ey)) as (c' & -> & Hh & Hs'). done.
Qed.

Lemma SpendCoin_shows c u o : shows c u -> exists r c', SpendCoin o c = (r, c') /\ shows c' (delete o u) /\ hashBlock c' = hashBlock c /\
  (r ≫= unspent) = u !! o.
Proof.
  intros [Hc S G]. destruct (SpendCoin_spec o c Hc) as (r & c' & E1 & Hc' & Hh & _ & Er & E). pose proof (SpendCoin_guarded o c) as G'. rewrite E1 in *.
  exists r, c'. split; [done|]. split; [split; [done| |]|split; [done|by rewrite Er]].
  - intros o'. rewrite E. unfold remove_coin.
    destruct (decide (o' = o)) as [->|Hne]; [by rewrite lookup_delete_eq|by rewrite lookup_delete_ne].
  - intros o' Ho'. apply (G' o' Hc). auto.
Qed.

(** The coin moved out of an output that is there. *)
Lemma SpendCoin_there c u o x : shows c u -> u !! o = Some x -> exists c', SpendCoin o c = (Some x, c') /\ shows c' (delete o u) /\ hashBlock c' = hashBlock c.
Proof.
  intros Hs E. destruct (SpendCoin_shows c u o Hs) as (r & c' & -> & Hs' & Hh & Er). exists c'. rewrite E in Er.
  destruct r as [y|]; [|done]. cbn in Er. apply unspent_Some in Er as [-> _]. done.
Qed.

Lemma shows_best c u b : shows c u -> shows (SetBestBlock b c) u.
Proof. intros [Hc S G]. destruct (SetBestBlock_spec b c Hc) as [Hc' E]. split; [done| |done]. intros o. by rewrite E. Qed.

(** ** Adding the outputs of a transaction *)

(** None of the spendable outputs is in the map. *)
Definition fresh_outputs (txid : N) (i : Z) (outs : list CTxOut) u : Prop :=
  forall k o, outs !! k = Some o -> Script.IsUnspendable (scriptPubKey o) = false -> u !! mkOutPoint txid (i + Z.of_nat k) = None.

Lemma fresh_outputs_nil txid i u : fresh_outputs txid i [] u.
Proof. intros k o. by rewrite lookup_nil. Qed.

Lemma fresh_outputs_cons txid i o outs u : fresh_outputs txid i (o :: outs) u <->
  (Script.IsUnspendable (scriptPubKey o) = false -> u !! mkOutPoint txid i = None) /\ fresh_outputs txid (i + 1) outs u.
Proof.
  split.
  - intros Hf. split; [intros Ho; rewrite <- (Z.add_0_r i); by apply (Hf 0%nat o)|].
    intros k o' E Ho'. replace (i + 1 + Z.of_nat k) with (i + Z.of_nat (S k)) by lia. by apply (Hf (S k) o').
  - intros [H1 H2] [|k] o' E Ho'; [injection E as <-; rewrite Z.add_0_r; auto|].
    replace (i + Z.of_nat (S k)) with (i + 1 + Z.of_nat k) by lia. by apply (H2 k o').
Qed.

Lemma fresh_outputs_insert txid i outs j x u : j < i -> fresh_outputs txid i outs (u_insert (mkOutPoint txid j) x u) <-> fresh_outputs txid i outs u.
Proof.
  intros Hj. unfold u_insert. destruct (Script.IsUnspendable _); [done|].
  split; intros Hf k o E Ho; specialize (Hf k o E Ho); [rewrite lookup_insert_ne in Hf by (intros [= ?]; lia)|rewrite lookup_insert_ne by (intros [= ?]; lia)]; done.
Qed.

Lemma add_outputs_cases txid h cb cs outs : forall i c u, shows c u -> 0 <= i -> i + Z.of_nat (length outs) <= 4294967296 ->
  Forall (fun o => nValue o <> -1) outs -> (cb = true /\ fresh_outputs txid i outs u) \/ (forall j, i <= j < i + Z.of_nat (length outs) -> W (mkOutPoint txid j)) ->
  match add_outputs txid i outs h cb cs false c with
  | Some c' => shows c' (u_add txid i outs h cb cs u) /\ hashBlock c' = hashBlock c /\ (cb = false -> fresh_outputs txid i outs u)
  | None => ~ fresh_outputs txid i outs u
  end.
Proof.
  induction outs as [|o outs IH]; intros i c u Hs Hi Hl HF Hw; cbn [add_outputs u_add]; [split_and!; [done|done|intros _; apply fresh_outputs_nil]|].
  cbn [length] in *. apply Forall_cons in HF as [Ho HF]. rewrite u32_id by (unfold in_u32; lia). rewrite fresh_outputs_cons in Hw.
  set (x := mkCoin o cb cs (height30 h)). assert (IsSpent x = false) as Hx by (unfold IsSpent, CTxOut_IsNull; cbn [out x]; by apply Z.eqb_neq).
  change (if Script.IsUnspendable (scriptPubKey o) then u else _) with (u_insert (mkOutPoint txid i) x u).
  pose proof (AddCoin_cases c u (mkOutPoint txid i) x cb Hs Hx) as HA. destruct (AddCoin _ x cb c) as [c1|]; cbn [mbind option_bind].
  - destruct HA as (Hh1 & Hs1 & Hn); [destruct Hw as [[-> _]|Hw]; [by left|right; apply Hw; lia]|].
    specialize (IH (i + 1) c1 _ Hs1 ltac:(lia) ltac:(lia) HF). destruct (add_outputs _ (i + 1) _ _ _ _ _ c1) as [c2|].
    + destruct IH as (Hs2 & Hh2 & Hf2).
      { destruct Hw as [[-> [_ Hf]]|Hw]; [left; split; [done|]; apply fresh_outputs_insert; [lia|done]|right; intros; apply Hw; lia]. }
      split_and!; [done|congruence|]. intros Hcb. apply fresh_outputs_cons. split; [by apply Hn|]. apply (fresh_outputs_insert txid (i + 1) outs i x); [lia|by apply Hf2].
    + intros [_ Hf]%fresh_outputs_cons. apply IH; [|apply fresh_outputs_insert; [lia|done]].
      destruct Hw as [[-> [_ Hf']]|Hw]; [left; split; [done|]; apply fresh_outputs_insert; [lia|done]|right; intros; apply Hw; lia].
  - destruct HA as (Hu & [y Hy]); [destruct Hw as [[-> _]|Hw]; [by left|right; apply Hw; lia]|]. intros [Hf _]%fresh_outputs_cons. cbn [out x] in Hu. rewrite Hf in Hy; done.
Qed.

Lemma spend_inputs_spec ins : forall c u, shows c u -> NoDup (map prevout ins) -> Forall (fun i => is_Some (u !! prevout i)) ins ->
  exists xs c', spend_inputs ins c = Some (xs, c') /\ shows c' (u_spend ins u) /\ hashBlock c' = hashBlock c /\
    Forall2 (fun i x => u !! prevout i = Some x) ins xs.
Proof.
  induction ins as [|i ins IH]; intros c u Hs Hnd HF; cbn [spend_inputs]; [exists [], c; split_and!; try done; constructor|].
  cbn [map] in Hnd. apply NoDup_cons in Hnd as [Hi Hnd]. apply Forall_cons in HF as [[x Ex] HF].
  destruct (SpendCoin_there c u (prevout i) x Hs Ex) as (c1 & -> & Hs1 & Hh1).
  assert (forall j, j ∈ ins -> delete (prevout i) u !! prevout j = u !! prevout j) as Hd.
  { intros j Hj. apply lookup_delete_ne. intros E. apply Hi. rewrite E. by apply list_elem_of_fmap_2. }
  destruct (IH c1 _ Hs1 Hnd) as (xs & c2 & -> & Hs2 & Hh2 & HF2).
  { rewrite Forall_forall in *. intros j Hj. rewrite Hd by done. by apply HF. }
  exists (x :: xs), c2. split; [done|]. split; [done|]. split; [congruence|]. constructor; [done|].
  clear -HF2 Hd. induction HF2 as [|j y ins xs Hy HF2 IH2]; constructor.
  - rewrite <- Hd; [done|]. apply list_elem_of_here.
  - apply IH2. intros k Hk. apply Hd. by apply list_elem_of_further.
Qed.

(** ** Inputs *)

Definition coin_value (x : option Coin) : Z := match x with Some x => nValue (out x) | None => 0 end.
Definition in_value u (ins : list CTxIn) : Z := foldr (fun i sum => coin_value (u !! prevout i) + sum) 0 ins.

Lemma in_value_cons u i ins : in_value u (i :: ins) = coin_value (u !! prevout i) + in_value u ins.
Proof. done. Qed.

Lemma have_all_shows u ins : forall c, shows c u -> exists b c', have_all ins c = (b, c') /\ shows c' u /\ hashBlock c' = hashBlock c /\
  (b = true <-> Forall (fun i => is_Some (u !! prevout i)) ins).
Proof.
  induction ins as [|i ins IH]; intros c Hs; cbn [have_all]; [by exists true, c; split_and!|].
  destruct (HaveCoin_shows c u (prevout i) Hs) as (c1 & -> & Hs1 & Hh1). case_bool_decide as E.
  - destruct (IH c1 Hs1) as (b & c2 & -> & Hs2 & Hh2 & Hb). exists b, c2. split_and!; [done|done|congruence|]. rewrite Forall_cons, Hb. naive_solver.
  - exists false, c1. split_and!; try done. split; [done|]. by intros [? _]%Forall_cons.
Qed.

(** What accepted inputs are: there, old enough, of an amount in the money range. *)
Definition input_ok (p : Params) (h : Z) u (i : CTxIn) : Prop := exists x, u !! prevout i = Some x /\ 0 <= nValue (out x) <= MAX_MONEY /\
  (fCoinBase x || fCoinStake x = true -> CoinbaseMaturity p h <= i32 (h - Coins.nHeight x)).

Lemma inputs_loop_shows p h u ins : forall acc c, shows c u -> 0 <= acc <= MAX_MONEY -> Forall (fun i => is_Some (u !! prevout i)) ins ->
  exists r c', inputs_loop p h ins acc c = (r, c') /\ shows c' u /\ hashBlock c' = hashBlock c /\ r <> Stopped /\
    forall v, r = Valid v -> v = acc + in_value u ins /\ Forall (input_ok p h u) ins /\ v <= MAX_MONEY.
Proof.
  pose proof MAX_MONEY_i64 as [HM HM']. induction ins as [|i ins IH]; intros acc c Hs Ha HF; cbn [inputs_loop].
  { exists (Valid acc), c. split_and!; try done. intros v [= <-]. split; [cbn; lia|]. split; [constructor|lia]. }
  apply Forall_cons in HF as [[x Ex] HF]. destruct (AccessCoin_shows c u (prevout i) Hs) as (x' & c1 & -> & Hs1 & Hh1 & E).
  rewrite Ex in E. apply unspent_Some in E as [-> Hsp]. rewrite Hsp.
  destruct (_ && (_ <? _)) eqn:Em.
  { do 2 eexists. split_and!; [done|done|congruence|done|done]. }
  assert (fCoinBase x || fCoinStake x = true -> CoinbaseMaturity p h <= i32 (h - Coins.nHeight x)) as Hm.
  { intros Hb. rewrite Hb in Em. cbn [andb] in Em. by apply Z.ltb_ge in Em. }
  destruct (MoneyRange (nValue (out x))) eqn:Er; cbn [negb orb].
  2:{ do 2 eexists. split_and!; [done|done|congruence|done|done]. }
  apply MoneyRange_spec in Er. rewrite i64_id by (unfold in_i64; lia). destruct (MoneyRange (acc + _)) eqn:Er'; cbn [negb].
  2:{ do 2 eexists. split_and!; [done|done|congruence|done|done]. }
  apply MoneyRange_spec in Er'. destruct (IH (acc + nValue (out x)) c1 Hs1 ltac:(lia) HF) as (r & c2 & -> & Hs2 & Hh2 & Hr & Hv).
  exists r, c2. split_and!; [done|done|congruence|done|]. intros v Ev. destruct (Hv v Ev) as (-> & HFo & Hle). rewrite in_value_cons, Ex. cbn [coin_value].
  split; [lia|]. split; [|done]. constructor; [|done]. by exists x.
Qed.

Lemma CheckTxInputs_shows p h tx c u : shows c u -> IsCoinBase tx = false ->
  exists r c', CheckTxInputs p tx h c = (r, c') /\ shows c' u /\ hashBlock c' = hashBlock c /\
    (r = Stopped -> GetValueOut tx = None) /\
    forall fee, r = Valid fee -> Forall (input_ok p h u) (vin tx) /\ 0 <= in_value u (vin tx) <= MAX_MONEY /\
      (IsCoinStake tx = true -> fee = 0) /\
      (IsCoinStake tx = false -> exists v, GetValueOut tx = Some v /\ v <= in_value u (vin tx) /\ fee = in_value u (vin tx) - v /\ fee <= MAX_MONEY).
Proof.
  pose proof MAX_MONEY_i64 as [HM HM']. intros Hs Hcb. unfold CheckTxInputs, HaveInputs. rewrite Hcb.
  destruct (have_all_shows u (vin tx) c Hs) as (b & c1 & -> & Hs1 & Hh1 & Hb). destruct b; cbn [negb].
  2:{ do 2 eexists. by split_and!. }
  destruct (inputs_loop_shows p h u (vin tx) 0 c1 Hs1 ltac:(lia) ltac:(by apply Hb)) as (r & c2 & -> & Hs2 & Hh2 & Hr & Hv).
  destruct r as [v|reason|]; [|do 2 eexists; by split_and!; [|done|congruence|..]|done].
  destruct (Hv v eq_refl) as (Ev & HF & Hle). rewrite Z.add_0_l in Ev. subst v.
  assert (0 <= in_value u (vin tx)) as Hin0.
  { clear -HF. induction HF as [|i ins (x & E & Hx & _) HF IH]; [done|]. rewrite in_value_cons, E. cbn [coin_value]. lia. }
  destruct (IsCoinStake tx) eqn:Ecs.
  { do 2 eexists. split_and!; [done|done|congruence|done|]. intros fee [= <-]. by split_and!. }
  destruct (GetValueOut tx) as [v|] eqn:Eo; [|do 2 eexists; by split_and!; [|done|congruence|..]].
  destruct (Z.ltb_spec (in_value u (vin tx)) v); [do 2 eexists; by split_and!; [|done|congruence|..]|].
  destruct (MoneyRange _) eqn:Er; cbn [negb]; [|do 2 eexists; by split_and!; [|done|congruence|..]].
  do 2 eexists. split_and!; [done|done|congruence|done|]. intros fee [= <-]. split; [done|]. split; [lia|]. split; [done|]. intros _. exists v.
  assert (0 <= v) as Hv64.
  { unfold GetValueOut in Eo. clear -Eo. assert (forall l acc, 0 <= acc -> value_loop l acc = Some v -> 0 <= v) as G.
    { induction l as [|o l IH]; intros acc Ha; cbn [value_loop]; [by intros [= <-]|]. destruct (_ || _) eqn:E; [done|]. apply orb_false_iff in E as [_ E].
      apply negb_false_iff, MoneyRange_spec in E. apply IH. lia. }
    by apply (G (vout tx) 0). }
  apply MoneyRange_spec in Er. split; [done|]. split; [done|].
  rewrite i64_id in Er by (unfold in_i64; lia). rewrite i64_id by (unfold in_i64; lia). split; [done|lia].
Qed.

Lemma value_in_shows u ins : forall acc c, shows c u -> 0 <= acc -> Forall (fun i => exists x, u !! prevout i = Some x /\ 0 <= nValue (out x) <= MAX_MONEY) ins ->
  acc + in_value u ins <= MAX_MONEY ->
  exists c', value_in ins acc c = (acc + in_value u ins, c') /\ shows c' u /\ hashBlock c' = hashBlock c.
Proof.
  pose proof MAX_MONEY_i64 as [HM HM']. induction ins as [|i ins IH]; intros acc c Hs Ha HF HT; cbn [value_in].
  { exists c. split; [f_equal; cbn; lia|done]. }
  apply Forall_cons in HF as [(x & Ex & Hx) HF]. destruct (AccessCoin_shows c u (prevout i) Hs) as (x' & c1 & -> & Hs1 & Hh1 & E).
  rewrite Ex in E. apply unspent_Some in E as [-> _]. rewrite in_value_cons, Ex in *. cbn [coin_value] in *.
  assert (0 <= in_value u ins) as Hin0.
  { clear -HF. induction HF as [|j ins (y & E & Hy) HF IH]; [done|]. rewrite in_value_cons, E. cbn [coin_value]. lia. }
  rewrite i64_id by (unfold in_i64; lia). destruct (IH (acc + nValue (out x)) c1 Hs1) as (c2 & -> & Hs2 & Hh2); [lia|done|lia|].
  exists c2. split; [f_equal; lia|]. split; [done|congruence].
Qed.

Lemma GetValueIn_shows u tx c : shows c u -> IsCoinBase tx = false ->
  Forall (fun i => exists x, u !! prevout i = Some x /\ 0 <= nValue (out x) <= MAX_MONEY) (vin tx) -> in_value u (vin tx) <= MAX_MONEY ->
  exists c', GetValueIn tx c = (in_value u (vin tx), c') /\ shows c' u /\ hashBlock c' = hashBlock c.
Proof. intros Hs Hcb HF HT. unfold GetValueIn. rewrite Hcb. by apply (value_in_shows u (vin tx) 0). Qed.

(** ** One transaction *)

Lemma u_spend_lookup ins : forall u o, u_spend ins u !! o = if decide (o ∈ map prevout ins) then None else u !! o.
Proof.
  unfold u_spend. induction ins as [|i ins IH]; intros u o; cbn [fold_left map]; [by rewrite decide_False by apply not_elem_of_nil|].
  rewrite IH. destruct (decide (o ∈ map prevout ins)) as [Hin|Hin]; [by rewrite decide_True by (by apply list_elem_of_further)|].
  destruct (decide (o = prevout i)) as [->|Hne].
  - rewrite lookup_delete_eq, decide_True; [done|apply list_elem_of_here].
  - rewrite lookup_delete_ne, decide_False; [done| |done]. intros [?|?]%elem_of_cons; done.
Qed.


Lemma flat_map_length {A} (f : A -> list Z) l : (forall x, (1 <= length (f x))%nat) -> (length l <= length (flat_map f l))%nat.
Proof. intros Hf. induction l as [|x l IH]; [done|]. cbn [flat_map length]. rewrite length_app. specialize (Hf x). lia. Qed.

Lemma outputs_bound w tx : tx_valid w tx -> Z.of_nat (length (vout tx)) <= 1000000.
Proof.
  intros Hv. pose proof (v_size _ _ Hv) as Hs. unfold MAX_TRANSACTION_BASE_SIZE in Hs.
  assert (length (vout tx) <= length (SerializeTransaction false tx))%nat; [|lia].
  unfold SerializeTransaction. rewrite !length_app. enough (length (vout tx) <= length (enc (vector_codec txout_codec) (vout tx)))%nat by lia.
  cbn [enc vector_codec]. rewrite length_app. pose proof (flat_map_length (enc txout_codec) (vout tx)) as Hl.
  enough (forall x, 1 <= length (enc txout_codec x))%nat by (specialize (Hl ltac:(done)); lia).
  intros x. cbn [enc txout_codec class_codec pair_codec i64_codec fst]. rewrite length_app. unfold ser_writedata64. rewrite length_le_bytes. lia.
Qed.

Lemma valid_values w tx : tx_valid w tx -> Forall (fun o => 0 <= nValue o <= MAX_MONEY) (vout tx).
Proof. intros Hv. eapply Forall_impl; [exact (v_each _ _ Hv)|]. by intros o (_ & ? & _). Qed.

(** The coins before the outputs of a transaction are added. *)
Definition u_before tx u : gmap COutPoint Coin := if IsCoinBase tx then u else u_spend (vin tx) u.

Definition new_outputs tx u : Prop := fresh_outputs (GetHash tx) 0 (vout tx) (u_before tx u).

(** The outputs of a transaction are guarded. *)
Definition W_outputs tx : Prop := forall j, 0 <= j < Z.of_nat (length (vout tx)) -> W (mkOutPoint (GetHash tx) j).

Lemma UpdateCoins_cases w h tx c u : shows c u -> tx_valid w tx -> W_outputs tx -> (IsCoinBase tx = true -> new_outputs tx u) ->
  (IsCoinBase tx = false -> Forall (fun i => is_Some (u !! prevout i)) (vin tx)) ->
  match UpdateCoins tx h c with
  | Some (xs, c') => shows c' (u_update h tx u) /\ hashBlock c' = hashBlock c /\ new_outputs tx u /\
      (IsCoinBase tx = false -> Forall2 (fun i x => u !! prevout i = Some x) (vin tx) xs)
  | None => ~ new_outputs tx u
  end.
Proof.
  intros Hs Hv Hw Hf Hin. unfold UpdateCoins, new_outputs, u_before, u_update, AddCoins in *. pose proof (outputs_bound w tx Hv) as Hb.
  assert (Forall (fun o => nValue o <> -1) (vout tx)) as HF by (eapply Forall_impl; [exact (valid_values w tx Hv)|]; cbn; lia).
  destruct (IsCoinBase tx); cbn [mbind option_bind].
  - pose proof (add_outputs_cases (GetHash tx) h true (IsCoinStake tx) (vout tx) 0 c u Hs ltac:(lia) ltac:(lia) HF (or_introl (conj eq_refl (Hf eq_refl)))) as HA.
    destruct (add_outputs _ _ _ _ _ _ _ _) as [c'|]; cbn [mbind option_bind]; [|done]. destruct HA as (? & ? & _). split_and!; [done|done|by apply Hf|done].
  - destruct (spend_inputs_spec (vin tx) c u Hs (v_distinct _ _ Hv) (Hin eq_refl)) as (xs & c1 & -> & Hs1 & Hh1 & HF2). cbn [mbind option_bind].
    pose proof (add_outputs_cases (GetHash tx) h false (IsCoinStake tx) (vout tx) 0 c1 _ Hs1 ltac:(lia) ltac:(lia) HF (or_intror Hw)) as HA.
    destruct (add_outputs _ _ _ _ _ _ _ _) as [c'|]; cbn [mbind option_bind]; [|done]. destruct HA as (? & ? & Hf').
    split_and!; [done|congruence|by apply Hf'|done].
Qed.

(** ** The supply *)

Definition supply u : Z := map_fold (fun _ x sum => nValue (out x) + sum) 0 u.

Lemma supply_new u o x : u !! o = None -> supply (<[o := x]> u) = nValue (out x) + supply u.
Proof. intros Hn. unfold supply. rewrite map_fold_insert_L; [done|intros; lia|done]. Qed.

Lemma supply_delete u o : supply (delete o u) = supply u - coin_value (u !! o).
Proof.
  destruct (u !! o) as [x|] eqn:E; cbn [coin_value]; [|rewrite delete_id by done; lia].
  rewrite <- (insert_delete_id u o x E) at 2. rewrite supply_new by apply lookup_delete_eq. lia.
Qed.

Lemma in_value_delete u o ins : o ∉ map prevout ins -> in_value (delete o u) ins = in_value u ins.
Proof.
  induction ins as [|i ins IH]; [done|]. cbn [map]. intros Hn. apply not_elem_of_cons in Hn as [Hne Hn].
  rewrite !in_value_cons, IH by done. by rewrite lookup_delete_ne.
Qed.

Lemma supply_spend ins : forall u, NoDup (map prevout ins) -> supply (u_spend ins u) = supply u - in_value u ins.
Proof.
  unfold u_spend. induction ins as [|i ins IH]; intros u Hnd; cbn [fold_left]; [cbn; lia|]. cbn [map] in Hnd. apply NoDup_cons in Hnd as [Hi Hnd].
  rewrite IH, supply_delete, in_value_cons, in_value_delete by done. lia.
Qed.

(** The value of the outputs that can be spent. *)
Definition spendable (l : list CTxOut) : Z := foldr (fun o sum => (if Script.IsUnspendable (scriptPubKey o) then 0 else nValue o) + sum) 0 l.

Lemma supply_add txid h cb cs outs : forall i u, fresh_outputs txid i outs u ->
  supply (u_add txid i outs h cb cs u) = supply u + spendable outs.
Proof.
  induction outs as [|o outs IH]; intros i u Hn; cbn [u_add spendable foldr]; [lia|]. apply fresh_outputs_cons in Hn as [Hn Hf].
  change (if Script.IsUnspendable (scriptPubKey o) then u else _) with (u_insert (mkOutPoint txid i) (mkCoin o cb cs (height30 h)) u).
  rewrite IH by (apply fresh_outputs_insert; [lia|done]). fold (spendable outs). unfold u_insert. cbn [out].
  destruct (Script.IsUnspendable _); [lia|]. rewrite supply_new by auto. cbn [out]. lia.
Qed.

Lemma spendable_le l : Forall (fun o => 0 <= nValue o <= MAX_MONEY) l -> 0 <= spendable l <= total l.
Proof.
  unfold spendable, total. induction 1 as [|o l Ho HF IH]; cbn [foldr]; [lia|]. destruct (Script.IsUnspendable _); lia.
Qed.

Lemma supply_update h tx u : new_outputs tx u -> NoDup (map prevout (vin tx)) ->
  supply (u_update h tx u) = supply u - (if IsCoinBase tx then 0 else in_value u (vin tx)) + spendable (vout tx).
Proof.
  intros Hf Hnd. unfold u_update, new_outputs, u_before in *. rewrite supply_add by done. destruct (IsCoinBase tx); [lia|].
  rewrite supply_spend by done. lia.
Qed.

Lemma contract_spends_shows u ins : forall c, shows c u -> exists b c', contract_spends ins c = (b, c') /\ shows c' u /\ hashBlock c' = hashBlock c.
Proof.
  induction ins as [|i ins IH]; intros c Hs; cbn [contract_spends]; [by exists true, c|]. destruct (Script.HasOpSpend _); [by apply IH|].
  destruct (AccessCoin_shows c u (prevout i) Hs) as (x & c1 & -> & Hs1 & Hh1 & _). destruct (_ || _); [by exists false, c1|].
  destruct (IH c1 Hs1) as (b & c2 & E & Hs2 & Hh2). exists b, c2. split_and!; [done|done|congruence].
Qed.

(** ** The loop *)

(** What a transaction adds to the supply beyond fees: all of a coinbase, the gain of a
    coinstake. *)
Definition created u (tx : CTransaction) : Z :=
  if IsCoinBase tx then total (vout tx) else if IsCoinStake tx then total (vout tx) - in_value u (vin tx) else 0.

Record connected_tx (h : Z) (i : nat) (tx : CTransaction) (s s' : @connecting V) u : Prop := {
  ct_shows : shows (view s') (u_update h tx u);
  ct_hash : hashBlock (view s') = hashBlock (view s);
  ct_new : new_outputs tx u;
  ct_fees : 0 <= nFees s' <= MAX_MONEY;
  ct_supply : supply (u_update h tx u) + nFees s' <= supply u + nFees s + created u tx;
  ct_counted : u64 (nValueOut s' - nValueIn s') = u64 (nValueOut s - nValueIn s + created u tx - (nFees s' - nFees s));
  ct_reward : nActualStakeReward s' = if negb (IsCoinBase tx) && IsCoinStake tx then created u tx else nActualStakeReward s;
  ct_inputs : IsCoinBase tx = false -> Forall (fun i => is_Some (u !! prevout i)) (vin tx);
  ct_undo : exists xs, vtxundo s' = (if (i =? 0)%nat then vtxundo s else vtxundo s ++ [xs]) /\
    (IsCoinBase tx = false -> Forall2 (fun i x => u !! prevout i = Some x) (vin tx) xs)
}.

Lemma u64_sum a b x y z : a + x - (b + y) = z -> u64 (u64 (a + x) - u64 (b + y)) = u64 z.
Proof. intros <-. unfold u64. by rewrite Zminus_mod, !Zmod_mod, <- Zminus_mod. Qed.

Lemma fee_range u tx fee w : tx_valid w tx -> 0 <= in_value u (vin tx) <= MAX_MONEY -> (IsCoinStake tx = true -> fee = 0) ->
  (IsCoinStake tx = false -> exists v, GetValueOut tx = Some v /\ v <= in_value u (vin tx) /\ fee = in_value u (vin tx) - v /\ fee <= MAX_MONEY) ->
  0 <= fee <= MAX_MONEY /\ (if IsCoinStake tx then fee = 0 else fee = in_value u (vin tx) - total (vout tx)).
Proof.
  pose proof MAX_MONEY_i64 as [HM _]. intros Hv Hin Hcs Hncs. destruct (GetValueOut_spec w tx Hv) as (Eo & _ & Ho).
  destruct (IsCoinStake tx); [rewrite (Hcs eq_refl); split; [lia|done]|]. destruct (Hncs eq_refl) as (v & Ev & H1 & H2 & H3).
  rewrite Eo in Ev. injection Ev as <-. split; [lia|done].
Qed.

Section Loop.
Context (p : Params) (others : nat -> CTransaction -> option (list CTxOut)) (w h : Z).

Lemma connect_coinbase i tx s u : shows (view s) u -> tx_valid w tx -> IsCoinBase tx = true -> W_outputs tx -> new_outputs tx u -> 0 <= nFees s <= MAX_MONEY ->
  match connect_tx p others h i tx s with
  | Connected s' => connected_tx h i tx s s' u
  | Rejected _ => True
  | Aborted => ~ new_outputs tx u
  end.
Proof.
  pose proof MAX_MONEY_i64 as [HM HM']. intros Hs Hv Ecb Hw Hf Hfees. unfold connect_tx, GetValueIn. rewrite Ecb.
  destruct (GetValueOut_spec w tx Hv) as (Eo & _ & Ho). pose proof (spendable_le _ (valid_values w tx Hv)) as Hsp.
  pose proof (supply_update h tx u Hf (v_distinct _ _ Hv)) as HS. rewrite i64_id by (unfold in_i64; lia). cbn [negb andb]. rewrite Eo.
  destruct (others i tx) as [refunds|]; [|done].
  pose proof (UpdateCoins_cases w h tx (view s) u Hs Hv Hw (fun _ => Hf) ltac:(congruence)) as HU.
  destruct (UpdateCoins tx h (view s)) as [[xs c']|]; [|done]. destruct HU as (Hs' & Hh' & _ & _). unfold created.
  split; cbn [view nFees nActualStakeReward nValueOut nValueIn vtxundo]; unfold created; rewrite ?Ecb in *; try done; [lia|lia|apply u64_sum; lia|by exists xs].
Qed.

Lemma connect_spender i tx s u : shows (view s) u -> tx_valid w tx -> IsCoinBase tx = false -> W_outputs tx -> 0 <= nFees s <= MAX_MONEY ->
  match connect_tx p others h i tx s with
  | Connected s' => connected_tx h i tx s s' u
  | Rejected _ => True
  | Aborted => ~ new_outputs tx u
  end.
Proof.
  pose proof MAX_MONEY_i64 as [HM HM']. intros Hs Hv Ecb Hw Hfees. unfold connect_tx. rewrite Ecb.
  destruct (GetValueOut_spec w tx Hv) as (Eo & _ & Ho). pose proof (spendable_le _ (valid_values w tx Hv)) as Hsp.
  destruct (CheckTxInputs_shows p h tx (view s) u Hs Ecb) as (r & c1 & -> & Hs1 & Hh1 & Hst & Hva).
  destruct r as [fee|reason|]; [|done|by specialize (Hst eq_refl); congruence]. destruct (Hva fee eq_refl) as (HF & Hin & Hcs & Hncs). cbn [negb andb].
  destruct (fee_range u tx fee w Hv Hin Hcs Hncs) as [Hfee Efee]. clear Hva Hcs Hncs.
  rewrite i64_id by (unfold in_i64; lia). destruct (MoneyRange (nFees s + fee)) eqn:Er; [|done]. cbn [negb]. apply MoneyRange_spec in Er. rewrite Eo.
  assert (Forall (fun i => exists x, u !! prevout i = Some x /\ 0 <= nValue (out x) <= MAX_MONEY) (vin tx)) as HF'.
  { eapply Forall_impl; [exact HF|]. intros j (x & E & Hx & _). by exists x. }
  assert (exists reward c2, (if IsCoinStake tx then let '(value_in, c) := GetValueIn tx c1 in (i64 (total (vout tx) - value_in), c) else (nActualStakeReward s, c1)) = (reward, c2) /\
    shows c2 u /\ hashBlock c2 = hashBlock c1 /\ reward = (if IsCoinStake tx then created u tx else nActualStakeReward s)) as (reward & c2 & -> & Hs2 & Hh2 & Erw).
  { destruct (IsCoinStake tx) eqn:Ecs; [|by do 2 eexists]. destruct (GetValueIn_shows u tx c1 Hs1 Ecb HF' ltac:(lia)) as (c2 & -> & Hs2 & Hh2).
    do 2 eexists. split_and!; [done|done|done|]. unfold created. rewrite Ecb, Ecs. apply i64_id. unfold in_i64. lia. }
  destruct (contract_spends_shows u (vin tx) c2 Hs2) as (allowed & c3 & -> & Hs3 & Hh3). destruct allowed; [|done]. cbn [negb].
  destruct (GetValueIn_shows u tx c3 Hs3 Ecb HF' ltac:(lia)) as (c4 & -> & Hs4 & Hh4). destruct (others i tx) as [refunds|]; [|done].
  assert (Forall (fun i => is_Some (u !! prevout i)) (vin tx)) as HF2.
  { eapply Forall_impl; [exact HF|]. intros j (x & -> & _). done. }
  pose proof (UpdateCoins_cases w h tx c4 u Hs4 Hv Hw ltac:(congruence) (fun _ => HF2)) as HU.
  destruct (UpdateCoins tx h c4) as [[xs c']|]; [|done]. destruct HU as (Hs' & Hh' & Hnew & Hxs).
  pose proof (supply_update h tx u Hnew (v_distinct _ _ Hv)) as HS.
  split; cbn [view nFees nActualStakeReward nValueOut nValueIn vtxundo]; unfold created in *; rewrite ?Ecb in *; try done; [congruence| | |].
  - destruct (IsCoinStake tx); lia.
  - apply u64_sum. destruct (IsCoinStake tx); lia.
  - exists xs. by split; [|intros _; apply Hxs].
Qed.
End Loop.

(** ** All the transactions *)

Fixpoint all_new (h : Z) (txs : list CTransaction) u : Prop :=
  match txs with [] => True | tx :: txs => new_outputs tx u /\ all_new h txs (u_update h tx u) end.

Fixpoint all_created (h : Z) (txs : list CTransaction) u : Z :=
  match txs with [] => 0 | tx :: txs => created u tx + all_created h txs (u_update h tx u) end.

(** The gain of the last coinstake. *)
Fixpoint last_reward (h : Z) (txs : list CTransaction) u (r : Z) : Z :=
  match txs with
  | [] => r
  | tx :: txs => last_reward h txs (u_update h tx u) (if negb (IsCoinBase tx) && IsCoinStake tx then created u tx else r)
  end.

(** The undo data holds the coins each transaction spent. *)
Fixpoint undo_of (h : Z) (txs : list CTransaction) (undo : list (list Coin)) u : Prop :=
  match txs, undo with
  | [], [] => True
  | tx :: txs, xs :: undo => Forall2 (fun i x => u !! prevout i = Some x) (vin tx) xs /\ undo_of h txs undo (u_update h tx u)
  | _, _ => False
  end.

Record connected_txs (h : Z) (txs : list CTransaction) (s s' : @connecting V) u : Prop := {
  cs_shows : shows (view s') (u_connect h txs u);
  cs_hash : hashBlock (view s') = hashBlock (view s);
  cs_new : all_new h txs u;
  cs_fees : 0 <= nFees s' <= MAX_MONEY;
  cs_supply : supply (u_connect h txs u) + nFees s' <= supply u + nFees s + all_created h txs u;
  cs_counted : u64 (nValueOut s' - nValueIn s') = u64 (nValueOut s - nValueIn s + all_created h txs u - (nFees s' - nFees s));
  cs_reward : nActualStakeReward s' = last_reward h txs u (nActualStakeReward s);
  cs_undo : exists undo, vtxundo s' = vtxundo s ++ undo /\ undo_of h txs undo u
}.

Lemma u64_shift x y d : u64 x = u64 y -> u64 (x + d) = u64 (y + d).
Proof. unfold u64. intros E. rewrite Zplus_mod, E, <- Zplus_mod. done. Qed.

Lemma connect_rest p others w h txs : forall i s u, (0 < i)%nat -> shows (view s) u -> Forall (tx_valid w) txs -> Forall (fun tx => IsCoinBase tx = false) txs ->
  Forall W_outputs txs -> 0 <= nFees s <= MAX_MONEY ->
  match connect_txs p others h i txs s with
  | Connected s' => connected_txs h txs s s' u
  | Rejected _ => True
  | Aborted => ~ all_new h txs u
  end.
Proof.
  induction txs as [|tx txs IH]; intros i s u Hi Hs HV HC HW Hfees; cbn [connect_txs all_new].
  { split; cbn [u_connect fold_left all_new all_created last_reward]; try done; [lia|f_equal; lia|]. exists []. by rewrite app_nil_r. }
  apply Forall_cons in HV as [Hv HV], HC as [Hc HC], HW as [Hw HW].
  pose proof (connect_spender p others w h i tx s u Hs Hv Hc Hw Hfees) as H1. destruct (connect_tx p others h i tx s) as [s1| |]; [|done|tauto].
  destruct H1 as [S1 Hh1 N1 F1 U1 C1 R1 _ (xs & Ex & HF2)].
  specialize (IH (S i) s1 (u_update h tx u) ltac:(lia) S1 HV HC HW F1). destruct (connect_txs p others h (S i) txs s1) as [s2| |]; [|done|tauto].
  destruct IH as [S2 Hh2 N2 F2 U2 C2 R2 (undo & Eu & Hu)]. split; cbn [all_new all_created last_reward undo_of].
  - done.
  - congruence.
  - done.
  - done.
  - change (u_connect h (tx :: txs) u) with (u_connect h txs (u_update h tx u)). lia.
  - rewrite C2. apply (u64_shift _ _ (all_created h txs (u_update h tx u) - (nFees s2 - nFees s1))) in C1.
    etransitivity; [etransitivity; [|exact C1]|]; f_equal; lia.
  - by rewrite R2, R1.
  - exists (xs :: undo). rewrite Eu, Ex. destruct (Nat.eqb_spec i 0); [lia|]. rewrite <- app_assoc. split; [done|]. split; [by apply HF2|done].
Qed.

(** A block: its coinbase, then the rest. *)
Lemma connect_all p others w h cb rest s u : shows (view s) u -> Forall (tx_valid w) (cb :: rest) -> IsCoinBase cb = true -> Forall (fun tx => IsCoinBase tx = false) rest ->
  Forall W_outputs (cb :: rest) -> new_outputs cb u -> 0 <= nFees s <= MAX_MONEY ->
  match connect_txs p others h 0 (cb :: rest) s with
  | Connected s' => exists s1, connected_tx h 0 cb s s1 u /\ connected_txs h rest s1 s' (u_update h cb u)
  | Rejected _ => True
  | Aborted => ~ all_new h (cb :: rest) u
  end.
Proof.
  intros Hs HV Hcb HC HW Hn Hfees. cbn [connect_txs all_new]. apply Forall_cons in HV as [Hv HV], HW as [Hw HW].
  pose proof (connect_coinbase p others w h 0 cb s u Hs Hv Hcb Hw Hn Hfees) as H1. destruct (connect_tx p others h 0 cb s) as [s1| |]; [|done|tauto].
  pose proof (connect_rest p others w h rest 1 s1 (u_update h cb u) ltac:(lia) (ct_shows _ _ _ _ _ _ H1) HV HC HW (ct_fees _ _ _ _ _ _ H1)) as H2.
  destruct (connect_txs p others h 1 rest s1) as [s2| |]; [|done|tauto]. by exists s1.
Qed.

Lemma no_coinstake_created h txs : forall u, Forall (fun tx => IsCoinBase tx = false) txs -> Forall (fun tx => IsCoinStake tx = false) txs -> all_created h txs u = 0.
Proof.
  induction txs as [|tx txs IH]; intros u HB HS; cbn [all_created]; [done|]. apply Forall_cons in HB as [Hb HB], HS as [Hs HS].
  rewrite IH by done. unfold created. by rewrite Hb, Hs.
Qed.

Lemma no_coinstake_reward h txs : forall u r, Forall (fun tx => IsCoinStake tx = false) txs -> last_reward h txs u r = r.
Proof.
  induction txs as [|tx txs IH]; intros u r HS; cbn [last_reward]; [done|]. apply Forall_cons in HS as [Hs HS].
  rewrite IH by done. by rewrite Hs, andb_false_r.
Qed.

(** ** Overwrites *)

Lemma outputs_exist_shows u txid outs : forall i found c, shows c u -> 0 <= i -> i + Z.of_nat (length outs) <= 4294967296 ->
  exists b c', outputs_exist txid i outs found c = (b, c') /\ shows c' u /\ hashBlock c' = hashBlock c /\
    (b = false <-> found = false /\ forall j, i <= j < i + Z.of_nat (length outs) -> u !! mkOutPoint txid j = None).
Proof.
  induction outs as [|o outs IH]; intros i found c Hs Hi Hl; cbn [outputs_exist].
  { exists found, c. split_and!; try done. cbn. split; [|tauto]. intros ->. split; [done|]. lia. }
  cbn [length] in *. rewrite u32_id by (unfold in_u32; lia). destruct (HaveCoin_shows c u (mkOutPoint txid i) Hs) as (c1 & -> & Hs1 & Hh1).
  destruct (IH (i + 1) (found || bool_decide (is_Some (u !! mkOutPoint txid i))) c1 Hs1) as (b & c2 & -> & Hs2 & Hh2 & Hb); [lia|lia|].
  exists b, c2. split_and!; [done|done|congruence|]. rewrite Hb, orb_false_iff, bool_decide_eq_false, <- eq_None_not_Some. split.
  - intros ((-> & Hn) & Hr). split; [done|]. intros j Hj. destruct (decide (j = i)) as [->|]; [done|]. apply Hr. lia.
  - intros (-> & Hr). split; [split; [done|]; apply Hr; lia|]. intros j Hj. apply Hr. lia.
Qed.

(** None of the outputs of a transaction is in the map, spendable or not. *)
Definition absent u tx : Prop := forall j, 0 <= j < Z.of_nat (length (vout tx)) -> u !! mkOutPoint (GetHash tx) j = None.

Lemma overwrites_shows w u txs : forall found c, shows c u -> Forall (tx_valid w) txs ->
  exists b c', overwrites txs found c = (b, c') /\ shows c' u /\ hashBlock c' = hashBlock c /\ (b = false <-> found = false /\ Forall (absent u) txs).
Proof.
  induction txs as [|tx txs IH]; intros found c Hs HV; cbn [overwrites].
  { exists found, c. split_and!; try done. split; [|tauto]. intros ->. by split; [|constructor]. }
  apply Forall_cons in HV as [Hv HV]. pose proof (outputs_bound w tx Hv).
  destruct (outputs_exist_shows u (GetHash tx) (vout tx) 0 found c Hs) as (b1 & c1 & -> & Hs1 & Hh1 & Hb1); [lia|lia|].
  destruct (IH b1 c1 Hs1 HV) as (b2 & c2 & -> & Hs2 & Hh2 & Hb2). exists b2, c2. split_and!; [done|done|congruence|].
  rewrite Hb2, Hb1, Forall_cons. unfold absent at 2. rewrite Z.add_0_l. tauto.
Qed.

Lemma stake_value_shows u b c : shows c u -> exists r c', stake_value b c = (r, c') /\ shows c' u /\ hashBlock c' = hashBlock c.
Proof.
  intros Hs. unfold stake_value. destruct (IsProofOfStake _); [|by do 2 eexists]. destruct (vtx b !! 1%nat ≫= _) as [i|]; [|by do 2 eexists].
  destruct (GetCoin_shows c u (prevout i) Hs) as (c' & -> & Hs' & Hh'). by do 2 eexists.
Qed.
End Refinement.

(** ** A block *)

Section Blocks.
Context {K : Crypto} {V : Type} `{CCoinsViewLaws V}.
Implicit Types (c : CCoinsViewCache V) (u : gmap COutPoint Coin).

(** The cache is well formed and shows the map. *)
Definition agrees c u : Prop := cache_ok c /\ forall o, coins c o = u !! o.

Definition nowhere (o : COutPoint) : Prop := False.

Lemma agrees_shows c u : agrees c u <-> shows nowhere c u.
Proof. split; [intros [? ?]; by split|intros [? ? _]; by split]. Qed.

Lemma shows_guard W W' c u : shows W c u -> (forall o, W' o -> u !! o = None) -> shows W' c u.
Proof. intros [Hc S _] Hn. split; [done|done|]. intros o Ho. apply guarded_None. rewrite S. auto. Qed.

(** The outpoints a block creates. *)
Definition created_by (txs : list CTransaction) (o : COutPoint) : Prop :=
  exists tx j, tx ∈ txs /\ 0 <= j < Z.of_nat (length (vout tx)) /\ o = mkOutPoint (GetHash tx) j.

Lemma created_by_outputs txs : Forall (W_outputs (created_by txs)) txs.
Proof. apply Forall_forall. intros tx Htx j Hj. by exists tx, j. Qed.

Lemma created_by_absent u txs o : Forall (absent u) txs -> created_by txs o -> u !! o = None.
Proof. intros HF (tx & j & Htx & Hj & ->). rewrite Forall_forall in HF. by apply HF. Qed.

Lemma absent_new u tx u' : (forall j, u' !! mkOutPoint (GetHash tx) j = None \/ u' !! mkOutPoint (GetHash tx) j = u !! mkOutPoint (GetHash tx) j) ->
  absent u tx -> absent u' tx.
Proof. intros Hu Ha j Hj. destruct (Hu j) as [E|E]; [done|]. rewrite E. by apply Ha. Qed.

Lemma u_before_lookup tx u o : u_before tx u !! o = None \/ u_before tx u !! o = u !! o.
Proof. unfold u_before. destruct (IsCoinBase tx); [by right|]. rewrite u_spend_lookup. case_decide; [by left|by right]. Qed.

Lemma absent_new_outputs u tx : absent u tx -> new_outputs tx u.
Proof.
  intros Ha k o E _. rewrite Z.add_0_l. apply lookup_lt_Some in E. destruct (u_before_lookup tx u (mkOutPoint (GetHash tx) (Z.of_nat k))) as [->| ->]; [done|].
  apply Ha. lia.
Qed.

Lemma u_add_other txid h cb cs outs o : forall i u, OutPoint.hash o <> txid -> u_add txid i outs h cb cs u !! o = u !! o.
Proof.
  induction outs as [|x outs IH]; intros i u Hne; cbn [u_add]; [done|]. rewrite IH by done. destruct (Script.IsUnspendable _); [done|].
  apply lookup_insert_ne. intros <-. done.
Qed.

Lemma absent_update h tx u tx' : GetHash tx' <> GetHash tx -> absent u tx' -> absent (u_update h tx u) tx'.
Proof.
  intros Hne. apply absent_new. intros j. unfold u_update. rewrite u_add_other by done. apply (u_before_lookup tx u).
Qed.

(** With different identifiers nothing is overwritten. *)
Lemma distinct_new h txs : forall u, NoDup (map GetHash txs) -> Forall (absent u) txs -> all_new h txs u.
Proof.
  induction txs as [|tx txs IH]; intros u Hnd HF; cbn [all_new]; [done|]. cbn [map] in Hnd. apply NoDup_cons in Hnd as [Hn Hnd].
  apply Forall_cons in HF as [Ha HF]. split; [by apply absent_new_outputs|]. apply IH; [done|]. rewrite Forall_forall in *. intros tx' Htx'.
  apply absent_update; [|by apply HF]. intros E. apply Hn. rewrite <- E. by apply list_elem_of_fmap_2.
Qed.

Record block_connected (p : Params) (k : chain_context) (others : nat -> CTransaction -> option (list CTxOut)) (dlgt : bool)
    (b : CBlock) (hash : N) (h prev_supply : Z) u (s : @connecting V) (nMoneySupply : Z) : Prop := {
  bc_agrees : agrees (view s) (u_connect h (vtx b) u);
  bc_best : hashBlock (view s) = hash;
  bc_new : all_new h (vtx b) u;
  bc_fees : 0 <= nFees s <= MAX_MONEY;
  bc_supply : supply (u_connect h (vtx b) u) + nFees s <= supply u + all_created h (vtx b) u;
  bc_counted : nMoneySupply = u64 (prev_supply + all_created h (vtx b) u - nFees s);
  bc_undo : exists cb rest, vtx b = cb :: rest /\ undo_of h rest (vtxundo s) (u_update h cb u);
  bc_reward : nActualStakeReward s = last_reward h (vtx b) u 0;
  bc_checked : exists refund vouts prev, CheckReward p (nFirstMPoSBlock k) (nLastMPoSBlock k) (mpos_outputs k) b h (nFees s) refund
    (nActualStakeReward s) vouts prev dlgt = None
}.

Lemma ConnectBlock_spec p k others dlgt w b hash h prev prev_supply c u : agrees c u -> block_shape w b -> hash <> hashGenesisBlock k ->
  match ConnectBlock p k others dlgt b hash h prev prev_supply c with
  | (Connected s, nMoneySupply) => block_connected p k others dlgt b hash h prev_supply u s nMoneySupply
  | (Rejected _, _) => True
  | (Aborted, _) => best c <> prev \/ ~ NoDup (map GetHash (vtx b))
  end.
Proof.
  intros Hc Hb Hg. unfold ConnectBlock. destruct (GetBestBlock_spec c (proj1 Hc)) as (c1 & -> & Hc1 & _ & E1).
  destruct (N.eqb_spec (best c) prev) as [_|Hne]; [|by left]. cbn [negb]. rewrite (proj2 (N.eqb_neq _ _) Hg).
  assert (shows nowhere c1 u) as Hs1 by (apply agrees_shows; split; [done|]; intros o; rewrite E1; apply Hc).
  destruct (overwrites_shows nowhere w u (vtx b) false c1 Hs1 (s_valid _ _ Hb)) as (found & c2 & -> & Hs2 & _ & Hf).
  destruct (stake_value_shows nowhere u b c2 Hs2) as (r & c3 & -> & Hs3 & _). destruct r as [nValueCoinPrev|]; [|done].
  destruct found; [done|]. destruct (proj1 Hf eq_refl) as [_ HA]. clear Hf.
  assert (shows (created_by (vtx b)) c3 u) as Hs4 by (eapply shows_guard; [exact Hs3|]; intros o; apply (created_by_absent u (vtx b) o HA)).
  destruct (s_coinbase _ _ Hb) as (cb & rest & Ev & Hcb & HC & _). pose proof (created_by_outputs (vtx b)) as HW. pose proof (s_valid _ _ Hb) as HV.
  pose proof (connect_all (created_by (vtx b)) p others w h cb rest (mkConnecting 0 0 0 0 0 [] [] c3) u Hs4) as HA2. rewrite <- Ev in HA2.
  specialize (HA2 HV Hcb HC HW). pose proof MAX_MONEY_i64 as [HM _].
  specialize (HA2 ltac:(apply absent_new_outputs; rewrite Ev in HA; by apply Forall_cons in HA as [? _]) ltac:(cbn; lia)).
  destruct (connect_txs p others h 0 (vtx b) _) as [s| |]; [|done|right; intros Hnd; apply HA2; by apply distinct_new].
  destruct HA2 as (s1 & [A1 A2 A3 A4 A5 A6 A7 A8 A9] & [B1 B2 B3 B4 B5 B6 B7 (undo & B8 & B9)]). cbn [view nFees nValueOut nValueIn nActualStakeReward] in *.
  destruct (nFees s <? gasRefunds s); [done|]. destruct (CheckReward _ _ _ _ _ _ _ _ _ _ _ _) eqn:ER; [done|]. destruct (_ && (expected_supply h <? _)); [done|].
  split; cbn [view nFees nValueOut nValueIn nActualStakeReward vtxundo hashBlock SetBestBlock]; rewrite ?Ev.
  - apply agrees_shows, shows_best. eapply shows_guard; [exact B1|done].
  - done.
  - done.
  - done.
  - cbn [all_created]. change (u_connect h (cb :: rest) u) with (u_connect h rest (u_update h cb u)). lia.
  - cbn [all_created]. apply (u64_shift _ _ (all_created h rest (u_update h cb u) - (nFees s - nFees s1))) in A6.
    replace (prev_supply + nValueOut s - nValueIn s) with (nValueOut s - nValueIn s + prev_supply) by lia.
    rewrite (u64_shift _ _ prev_supply B6). apply (u64_shift _ _ prev_supply) in A6.
    etransitivity; [etransitivity; [|exact A6]|]; f_equal; lia.
  - exists cb, rest. destruct A9 as (xs & A9 & _). cbn [Nat.eqb vtxundo] in A9. rewrite B8, A9. done.
  - rewrite B7, A7. done.
  - by exists (gasRefunds s), (checkVouts s), nValueCoinPrev.
Qed.
End Blocks.

(** ** The reward *)

Lemma subsidy_nonneg h p : 0 <= nBaseBlockReward p -> 0 <= GetBlockSubsidy h p.
Proof.
  intros Hb. unfold GetBlockSubsidy. destruct (_ <=? _); [vm_compute; done|]. destruct (7 <=? _); [done|]. by apply Z.shiftr_nonneg.
Qed.

Lemma i64_le x : -9223372036854775808 <= x -> i64 x <= x.
Proof. intros Hx. unfold i64. pose proof (Z.mod_le (x + 9223372036854775808) 18446744073709551616 ltac:(lia) ltac:(lia)). lia. Qed.

Lemma CheckReward_bound p nf nl mpos b h fees refund reward vouts prev dlgt : CheckReward p nf nl mpos b h fees refund reward vouts prev dlgt = None ->
  0 <= fees -> 0 <= nBaseBlockReward p ->
  if IsProofOfStake (Block.header b) then reward <= fees + GetBlockSubsidy h p
  else exists tx v, vtx b !! 0%nat = Some tx /\ GetValueOut tx = Some v /\ v <= fees + GetBlockSubsidy h p.
Proof.
  intros E Hf Hb. pose proof (subsidy_nonneg h p Hb) as Hsub. pose proof (i64_le (fees + GetBlockSubsidy h p) ltac:(lia)) as Hle.
  unfold CheckReward in E. destruct (IsProofOfStake (Block.header b)).
  - destruct (vtx b !! 1%nat) as [tx|]; [|done]. destruct (take_outs vouts (vout tx)); [|done]. cbn [negb] in E.
    destruct (Z.ltb_spec (i64 (fees + GetBlockSubsidy h p)) reward); [done|lia].
  - destruct (vtx b !! 0%nat) as [tx|]; [|done]. destruct (take_outs vouts (vout tx)); [|done]. cbn [negb] in E.
    destruct (GetValueOut tx) as [v|] eqn:Ev; [|done]. destruct (Z.ltb_spec (i64 (fees + GetBlockSubsidy h p)) v); [done|]. exists tx, v. split_and!; [done|done|lia].
Qed.

(** What the transactions of a block create is what [CheckReward] bounds. *)
Lemma created_bound `{Crypto} w b h u reward : block_shape w b -> reward = last_reward h (vtx b) u 0 ->
  (IsProofOfStake (Block.header b) = false -> Forall (fun tx => IsCoinStake tx = false) (vtx b)) ->
  exists cb rest, vtx b = cb :: rest /\ all_created h (vtx b) u = if IsProofOfStake (Block.header b) then reward else total (vout cb).
Proof.
  intros Hb -> Hp. destruct (s_coinbase _ _ Hb) as (cb & rest & Ev & Hcb & HC & _). exists cb, rest. split; [done|]. rewrite Ev in *.
  destruct (IsProofOfStake (Block.header b)) eqn:Es.
  - destruct (s_stake _ _ Hb Es) as (cb' & cs & rest' & Ev' & Ht & Hcs & HF & _). rewrite Ev in Ev'. injection Ev' as <- ->.
    apply Forall_cons in HC as [Hc HC]. cbn [all_created last_reward]. rewrite no_coinstake_created, no_coinstake_reward by done.
    rewrite Hc, Hcs. cbn [negb andb]. unfold created at 1. rewrite Hcb, Ht. lia.
  - specialize (Hp eq_refl). apply Forall_cons in Hp as [_ Hp]. cbn [all_created]. rewrite no_coinstake_created by done. unfold created. rewrite Hcb. lia.
Qed.

(** ** Disconnecting *)

Section Undo.
Context {K : Crypto} {V : Type} `{CCoinsViewLaws V}.
Implicit Types (c : CCoinsViewCache V) (u : gmap COutPoint Coin).
#[local] Abbreviation sees := (shows nowhere).

Lemma u_add_insert txid h cb cs outs x j : forall i u, j < i ->
  u_add txid i outs h cb cs (u_insert (mkOutPoint txid j) x u) = u_insert (mkOutPoint txid j) x (u_add txid i outs h cb cs u).
Proof.
  induction outs as [|o outs IH]; intros i u Hj; cbn [u_add]; [done|]. rewrite <- IH by lia. f_equal. unfold u_insert.
  destruct (Script.IsUnspendable (scriptPubKey (out x))), (Script.IsUnspendable (scriptPubKey o)); try done. apply insert_insert_ne. intros [= ?]. lia.
Qed.

Lemma u_add_below txid h cb cs outs j : forall i u, j < i -> u_add txid i outs h cb cs u !! mkOutPoint txid j = u !! mkOutPoint txid j.
Proof.
  induction outs as [|o outs IH]; intros i u Hj; cbn [u_add]; [done|]. rewrite IH by lia. destruct (Script.IsUnspendable _); [done|].
  apply lookup_insert_ne. intros [= ?]. lia.
Qed.

Lemma spend_outputs_shows txid h cb cs clean outs : 0 <= h < 1073741824 -> forall i c u, 0 <= i -> i + Z.of_nat (length outs) <= 4294967296 ->
  fresh_outputs txid i outs u -> sees c (u_add txid i outs h cb cs u) ->
  exists c', spend_outputs txid i outs h cb cs clean c = (clean, c') /\ sees c' u.
Proof.
  intros Hh. induction outs as [|o outs IH]; intros i c u Hi Hl Hf Hs; cbn [spend_outputs u_add] in *; [by exists c|]. cbn [length] in *.
  apply fresh_outputs_cons in Hf as [Hn Hf]. set (x := mkCoin o cb cs (height30 h)) in *.
  change (if Script.IsUnspendable (scriptPubKey o) then u else _) with (u_insert (mkOutPoint txid i) x u) in Hs. rewrite u_add_insert in Hs by lia.
  unfold u_insert in Hs. cbn [out x] in Hs. destruct (Script.IsUnspendable (scriptPubKey o)) eqn:Eu; [apply IH; [lia|lia|done|done]|].
  rewrite u32_id by (unfold in_u32; lia). destruct (SpendCoin_there nowhere c _ (mkOutPoint txid i) x Hs) as (c1 & -> & Hs1 & _); [apply lookup_insert_eq|].
  rewrite delete_insert_id in Hs1 by (rewrite u_add_below by lia; auto). cbn [out x Coins.nHeight fCoinBase fCoinStake]. unfold height30.
  rewrite Z.mod_small, Z.eqb_refl, !bool_decide_true, andb_true_r by done. apply IH; [lia|lia|done|done].
Qed.

(** The coins of the set: unspent, spendable, not from the genesis block. *)
Definition coin_ok (x : Coin) : Prop := IsSpent x = false /\ Script.IsUnspendable (scriptPubKey (out x)) = false /\ 0 < Coins.nHeight x.
Definition utxo_ok u : Prop := forall o x, u !! o = Some x -> coin_ok x.

Lemma ApplyTxInUndo_shows m x o c u : sees c u -> coin_ok x -> u !! o = None ->
  exists c', ApplyTxInUndo m x o c = Some (DISCONNECT_OK, c') /\ sees c' (<[o := x]> u).
Proof.
  intros Hs (Hx & Hu & Hh) Hn. unfold ApplyTxInUndo. destruct (HaveCoin_shows nowhere c u o Hs) as (c1 & -> & Hs1 & _).
  rewrite Hn, bool_decide_false by (by intros [? ?]). destruct (Z.eqb_spec (Coins.nHeight x) 0); [lia|].
  destruct (AddCoin_shows nowhere c1 u o x false Hs1 Hx (or_intror Hn)) as (c2 & -> & _ & Hs2). unfold u_insert in Hs2. rewrite Hu in Hs2. by exists c2.
Qed.

Lemma restore_inputs_shows m clean u l : NoDup (map (fun ix : CTxIn * Coin => prevout ix.1) l) -> (forall i x, (i, x) ∈ l -> u !! prevout i = Some x /\ coin_ok x) ->
  forall c u0, sees c u0 -> (forall o, u0 !! o = if decide (o ∈ map (fun ix : CTxIn * Coin => prevout ix.1) l) then None else u !! o) ->
  exists c', restore_inputs m l clean c = Some (Some clean, c') /\ sees c' u.
Proof.
  induction l as [|[i x] l IH]; intros Hnd HF c u0 Hs Hu; cbn [restore_inputs].
  { exists c. split; [done|]. replace u with u0; [done|]. apply map_eq. intros o. rewrite Hu. by rewrite decide_False by apply not_elem_of_nil. }
  cbn [map fst] in *. apply NoDup_cons in Hnd as [Hi Hnd]. destruct (HF i x) as [Ex Hx]; [apply list_elem_of_here|].
  destruct (ApplyTxInUndo_shows m x (prevout i) c u0 Hs Hx) as (c1 & -> & Hs1); [rewrite Hu, decide_True; [done|apply list_elem_of_here]|].
  cbn [mbind option_bind]. apply (IH Hnd) with (u0 := <[prevout i := x]> u0); [intros; apply HF; by apply list_elem_of_further|done|].
  intros o. destruct (decide (o = prevout i)) as [->|Hne]; [by rewrite lookup_insert_eq, decide_False|].
  rewrite lookup_insert_ne, Hu by done. destruct (decide (o ∈ map _ l)) as [Hin|Hin].
  - by rewrite decide_True by (by apply list_elem_of_further).
  - rewrite decide_False; [done|]. intros [?|?]%elem_of_cons; done.
Qed.

Lemma zip_prevouts ins (xs : list Coin) : length ins = length xs -> map (fun ix : CTxIn * Coin => prevout ix.1) (zip ins xs) = map prevout ins.
Proof. revert xs. induction ins as [|i ins IH]; intros [|x xs] E; try done. cbn. f_equal. apply IH. by injection E. Qed.

Lemma zip_Forall2 {A B} (P : A -> B -> Prop) l k a b : Forall2 P l k -> (a, b) ∈ zip l k -> P a b.
Proof.
  induction 1 as [|x y l k Hxy HF IH]; cbn; [by intros ?%not_elem_of_nil|]. intros [[= -> ->]|?]%elem_of_cons; auto.
Qed.

(** Undoing one transaction, with its undo data or, for the coinbase, without. *)
Lemma disconnect_tx_shows m h bip w tx undo clean c u : 0 <= h < 1073741824 -> tx_valid w tx -> utxo_ok u -> new_outputs tx u ->
  match undo with None => IsCoinBase tx = true | Some xs => IsCoinBase tx = false /\ Forall2 (fun i x => u !! prevout i = Some x) (vin tx) xs end ->
  sees c (u_update h tx u) ->
  exists c', disconnect_tx m h bip tx undo clean c = Some (Some clean, c') /\ sees c' u.
Proof.
  intros Hh Hv Hu Hn Hundo Hs. unfold disconnect_tx. pose proof (outputs_bound w tx Hv).
  destruct (spend_outputs_shows (GetHash tx) h (IsCoinBase tx) (IsCoinStake tx) true (vout tx) Hh 0 c (u_before tx u)) as (c1 & -> & Hs1); [lia|lia|done|done|].
  cbn [orb]. rewrite andb_true_r. unfold u_before in Hs1. destruct undo as [xs|]; [|rewrite Hundo in Hs1; by exists c1].
  destruct Hundo as [Hcb HF]. rewrite Hcb in Hs1. pose proof (Forall2_length _ _ _ HF) as Hl. rewrite Hl, Nat.eqb_refl. cbn [negb].
  assert (map (fun ix : CTxIn * Coin => prevout ix.1) (reverse (zip (vin tx) xs)) = reverse (map prevout (vin tx))) as Em.
  { rewrite <- (zip_prevouts (vin tx) xs Hl). apply (fmap_reverse (fun ix : CTxIn * Coin => prevout ix.1)). }
  apply (restore_inputs_shows m clean u) with (u0 := u_spend (vin tx) u).
  - rewrite Em, reverse_Permutation. apply Hv.
  - intros i x. rewrite elem_of_reverse. intros Hix. pose proof (zip_Forall2 _ _ _ _ _ HF Hix) as E. cbn in E. split; [done|]. by eapply Hu.
  - done.
  - intros o. rewrite u_spend_lookup, Em. apply decide_ext. by rewrite elem_of_reverse.
Qed.

Lemma u_add_ok txid h cb cs outs : 0 < h < 1073741824 -> Forall (fun o => 0 <= nValue o <= MAX_MONEY) outs -> forall i u, utxo_ok u -> utxo_ok (u_add txid i outs h cb cs u).
Proof.
  intros Hh. induction 1 as [|o outs Ho HF IH]; intros i u Hu; cbn [u_add]; [done|]. apply IH. destruct (Script.IsUnspendable _) eqn:E; [done|].
  intros o' x. rewrite lookup_insert_Some. intros [[_ <-]|[_ Ex]]; [|by eapply Hu]. split_and!; [|done|cbn; unfold height30; rewrite Z.mod_small; lia].
  unfold IsSpent, CTxOut_IsNull. cbn [out]. apply Z.eqb_neq. lia.
Qed.

Lemma u_update_ok h tx w u : 0 < h < 1073741824 -> tx_valid w tx -> utxo_ok u -> utxo_ok (u_update h tx u).
Proof.
  intros Hh Hv Hu. unfold u_update. apply u_add_ok; [done|by eapply valid_values|]. change (utxo_ok (u_before tx u)). intros o x E.
  destruct (u_before_lookup tx u o) as [E'|E']; [congruence|]. rewrite E' in E. by eapply Hu.
Qed.

Lemma u_connect_ok h txs w : 0 < h < 1073741824 -> Forall (tx_valid w) txs -> forall u, utxo_ok u -> utxo_ok (u_connect h txs u).
Proof. intros Hh. unfold u_connect. induction 1 as [|tx txs Hv HF IH]; intros u Hu; cbn [fold_left]; [done|]. apply IH. by eapply u_update_ok. Qed.

Lemma disconnect_txs_app m h bip l1 l2 : forall clean c, disconnect_txs m h bip (l1 ++ l2) clean c =
  match disconnect_txs m h bip l1 clean c with
  | Some (Some clean, c) => disconnect_txs m h bip l2 clean c
  | r => r
  end.
Proof.
  induction l1 as [|[tx undo] l1 IH]; intros clean c; cbn [disconnect_txs app]; [done|].
  destruct (disconnect_tx m h bip tx undo clean c) as [[[clean'|] c']|]; cbn [mbind option_bind]; [apply IH|done|done].
Qed.

Lemma disconnect_rest m h bip w clean txs : 0 < h < 1073741824 -> Forall (tx_valid w) txs -> Forall (fun tx => IsCoinBase tx = false) txs ->
  forall undo c u, utxo_ok u -> all_new h txs u -> undo_of h txs undo u -> sees c (u_connect h txs u) ->
  exists c', disconnect_txs m h bip (reverse (zip txs (map Some undo))) clean c = Some (Some clean, c') /\ sees c' u.
Proof.
  intros Hh HV. induction HV as [|tx txs Hv HV IH]; intros HC [|xs undo] c u Hu Hn Hundo Hs; cbn [undo_of all_new] in *; try done; [by exists c|].
  apply Forall_cons in HC as [Hcb HC]. destruct Hn as [Hn HN]. destruct Hundo as [HF Hundo].
  destruct (IH HC undo c (u_update h tx u)) as (c1 & E1 & Hs1); [by eapply u_update_ok|done|done|done|].
  cbn [map zip zip_with]. rewrite reverse_cons, disconnect_txs_app, E1. cbn [disconnect_txs].
  destruct (disconnect_tx_shows m h bip w tx (Some xs) clean c1 u) as (c2 & -> & Hs2); [lia|done|done|done|done|done|]. by exists c2.
Qed.

Lemma undo_of_length h txs : forall undo u, undo_of h txs undo u -> length undo = length txs.
Proof. induction txs as [|tx txs IH]; intros [|xs undo] u; cbn; try done. intros [_ Hu]. f_equal. by eapply IH. Qed.

Lemma DisconnectBlock_spec m bip w h cb rest undo prev c u : 0 < h < 1073741824 -> Forall (tx_valid w) (cb :: rest) ->
  IsCoinBase cb = true -> Forall (fun tx => IsCoinBase tx = false) rest -> utxo_ok u -> all_new h (cb :: rest) u -> undo_of h rest undo (u_update h cb u) ->
  agrees c (u_connect h (cb :: rest) u) ->
  exists c', DisconnectBlock m (cb :: rest) undo h bip prev c = Some (DISCONNECT_OK, c') /\ agrees c' u /\ hashBlock c' = prev.
Proof.
  intros Hh HV Hcb HC Hu [Hn HN] Hundo Hs%agrees_shows. apply Forall_cons in HV as [Hv HV]. unfold DisconnectBlock.
  rewrite (undo_of_length _ _ _ _ Hundo). cbn [length]. rewrite Nat.add_1_r, Nat.eqb_refl. cbn [negb zip zip_with].
  destruct (disconnect_rest m h bip w true rest Hh HV HC undo c (u_update h cb u)) as (c1 & E1 & Hs1); [by eapply u_update_ok|done|done|done|].
  rewrite reverse_cons, disconnect_txs_app, E1. cbn [disconnect_txs].
  destruct (disconnect_tx_shows m h bip w cb None true c1 u) as (c2 & -> & Hs2); [lia|done|done|done|done|done|]. cbn [mbind option_bind].
  eexists. split; [done|]. split; [|done]. by apply agrees_shows, shows_best.
Qed.
End Undo.

(** ** Properties *)

(** A database with two coins, and the cache on it. *)
#[local] Existing Instance toy_crypto.
#[local] Instance sample_view : CCoinsView CCoinsViewDB := CCoinsViewDB_view two_changes.
#[local] Instance sample_laws : CCoinsViewLaws CCoinsViewDB := CCoinsViewDB_laws two_changes.

Definition sample_cache : CCoinsViewCache CCoinsViewDB := new_cache sample_db.
Definition sample_context : chain_context := mkChainContext 1 0 0 false (fun _ _ => None).
Definition no_contracts (i : nat) (tx : CTransaction) : option (list CTxOut) := Some [].

Definition spend_of (o : COutPoint) (outs : list CTxOut) : CTransaction := mkTransaction [mkTxIn o [] 4294967295 []] outs 2 0.
Definition empty_output : CTxOut := mkTxOut 0 [].
Definition coinbase_of (outs : list CTxOut) : CTransaction := mkTransaction [mkTxIn (mkOutPoint 0 4294967295) [2; 208; 7] 4294967295 []] outs 2 0.

(** A proof-of-stake block whose coinstake earns the subsidy and the fee of the third
    transaction. *)
Definition stake_block : CBlock :=
  mkBlock (mkHeader 4 5 12 1700000000 0x1f00ffff 5 13 14 (mkOutPoint 1 0) (repeat 3 65))
    [coinbase_of [empty_output]; spend_of (mkOutPoint 1 0) [empty_output; mkTxOut 8333348 [81]]; spend_of (mkOutPoint 2 0) [mkTxOut 15 [81]]].

(** A proof-of-work block whose second transaction has the form of a coinstake. *)
Definition minting_tx : CTransaction := spend_of (mkOutPoint 1 0) [empty_output; mkTxOut MAX_MONEY [81]].
Definition minting_block : CBlock :=
  mkBlock (mkHeader 4 5 12 1700000000 0x1f00ffff 5 13 14 (mkOutPoint 0 4294967295) [])
    [coinbase_of [mkTxOut 8333333 [81]]; minting_tx].

Lemma sample_agrees : agrees sample_cache (db_coins sample_db).
Proof.
  assert (view_ok sample_db) as Hdb.
  { split; [|done]. unfold sample_db. cbn [db_coins]. intros o x. rewrite lookup_insert_Some, lookup_singleton_Some. naive_solver. }
  destruct (new_cache_ok sample_db Hdb) as [Hc S]. by split.
Qed.

Lemma sample_utxo_ok : utxo_ok (db_coins sample_db).
Proof. intros o x. unfold sample_db. cbn [db_coins]. rewrite lookup_insert_Some, lookup_singleton_Some. intros [[_ <-]|[_ [_ <-]]]; repeat split. Qed.
#[local] Opaque agrees.

(** C14: Connecting refines the map of unspent outputs.  On a cache (over any view that keeps
    the promises of [CCoinsViewLaws]) that shows a map, a checked block that is connected
    leaves a cache that shows the map with the inputs of each transaction in turn removed
    and its spendable outputs added, at the new best block, and with undo data for every
    transaction but the coinbase; nothing is ever overwritten.  An exception or a failed
    assertion is possible only when the cache is at another block or two transactions of
    the block have the same identifier. *)
Theorem connect_block_refines_map {K : Crypto} {V} `{CCoinsViewLaws V} p k others dlgt w sigops reason t sg sig root b hash h prev prev_supply
    (c : CCoinsViewCache V) u :
  agrees c u -> utxo_ok u -> 0 < h < 1073741824 -> hash <> hashGenesisBlock k -> CheckBlock w sigops reason t sg sig root b = None ->
  match ConnectBlock p k others dlgt b hash h prev prev_supply c with
  | (Connected s, _) => agrees (view s) (u_connect h (vtx b) u) /\ utxo_ok (u_connect h (vtx b) u) /\ hashBlock (view s) = hash /\
      all_new h (vtx b) u /\ exists cb rest, vtx b = cb :: rest /\ undo_of h rest (vtxundo s) (u_update h cb u)
  | (Rejected _, _) => True
  | (Aborted, _) => best c <> prev \/ ~ NoDup (map GetHash (vtx b))
  end.
Proof.
  intros Hc Hu Hh Hg [Hb _]%CheckBlock_shape. pose proof (ConnectBlock_spec p k others dlgt w b hash h prev prev_supply c u Hc Hb Hg) as HS.
  destruct (ConnectBlock _ _ _ _ _ _ _ _ _ c) as [[s| |] m]; [|done|done]. destruct HS.
  split_and!; [done|apply (u_connect_ok h (vtx b) w); [done|apply Hb|done]|done|done|done].
Qed.

Lemma connect_block_refines_map_witness :
  exists s m, ConnectBlock main_params sample_context no_contracts false stake_block 6 2000 5 100 sample_cache = (Connected s, m) /\
    agrees (view s) (u_connect 2000 (vtx stake_block) (db_coins sample_db)).
Proof.
  pose proof (connect_block_refines_map main_params sample_context no_contracts false 8000000 80000 None true true true false stake_block 6 2000 5 100
    sample_cache (db_coins sample_db) sample_agrees sample_utxo_ok) as HT.
  destruct (ConnectBlock _ _ _ _ stake_block _ _ _ _ _) as [[s|r|] m] eqn:E.
  - exists s, m. split; [done|]. apply HT; [lia|done|vm_compute; reflexivity].
  - exfalso. apply (f_equal (fun x => match fst x with Rejected _ => true | _ => false end)) in E. vm_compute in E. discriminate.
  - exfalso. apply (f_equal (fun x => match fst x with Aborted => true | _ => false end)) in E. vm_compute in E. discriminate.
Defined.

(** C1: No inflation.  Connecting a checked block raises the sum of all unspent outputs by at
    most the block subsidy, and the counter [nMoneySupply] by at most the subsidy and at
    least the change of the sum (outputs that can never be spent are counted); for a
    proof-of-stake block always, for a proof-of-work block if none of its transactions has
    the form of a coinstake. *)
Theorem no_inflation {K : Crypto} {V} `{CCoinsViewLaws V} p k others dlgt w sigops reason t sg sig root b hash h prev prev_supply
    (c : CCoinsViewCache V) u s nMoneySupply :
  agrees c u -> 0 <= nBaseBlockReward p -> hash <> hashGenesisBlock k -> CheckBlock w sigops reason t sg sig root b = None ->
  (IsProofOfStake (Block.header b) = false -> Forall (fun tx => IsCoinStake tx = false) (vtx b)) ->
  ConnectBlock p k others dlgt b hash h prev prev_supply c = (Connected s, nMoneySupply) ->
  let u' := u_connect h (vtx b) u in
  agrees (view s) u' /\ supply u' <= supply u + GetBlockSubsidy h p /\
  exists minted, minted <= GetBlockSubsidy h p /\ supply u' <= supply u + minted /\ nMoneySupply = u64 (prev_supply + minted).
Proof.
  intros Hc Hr Hg [Hb _]%CheckBlock_shape Hp E. pose proof (ConnectBlock_spec p k others dlgt w b hash h prev prev_supply c u Hc Hb Hg) as HS.
  rewrite E in HS. destruct HS as [A _ _ F S C _ R (refund & vouts & pv & CR)]. cbv zeta.
  pose proof (CheckReward_bound _ _ _ _ _ _ _ _ _ _ _ _ CR (proj1 F) Hr) as HB.
  destruct (created_bound w b h u (nActualStakeReward s) Hb R Hp) as (cb & rest & Ev & EC).
  assert (all_created h (vtx b) u <= nFees s + GetBlockSubsidy h p) as HL.
  { rewrite EC. destruct (IsProofOfStake _); [done|]. destruct HB as (tx & v & Et & Eo & Hv). rewrite Ev in Et. injection Et as <-.
    pose proof (s_valid _ _ Hb) as HV. rewrite Ev in HV. apply Forall_cons in HV as [Hv' _]. destruct (GetValueOut_spec w cb Hv') as (Eo' & _).
    rewrite Eo in Eo'. injection Eo' as <-. done. }
  split; [done|]. split; [lia|]. exists (all_created h (vtx b) u - nFees s). split_and!; [lia|lia|]. rewrite C. f_equal. lia.
Qed.

Lemma no_inflation_witness :
  exists s m, ConnectBlock main_params sample_context no_contracts false stake_block 6 2000 5 100 sample_cache = (Connected s, m) /\
    supply (u_connect 2000 (vtx stake_block) (db_coins sample_db)) <= supply (db_coins sample_db) + 8333333.
Proof.
  destruct (ConnectBlock main_params sample_context no_contracts false stake_block 6 2000 5 100 sample_cache) as [[s|r|] m] eqn:E.
  - exists s, m. split; [done|]. change 8333333 with (GetBlockSubsidy 2000 main_params).
    refine (proj1 (proj2 (no_inflation main_params sample_context no_contracts false 8000000 80000 None true true true false stake_block 6 2000 5 100
      sample_cache (db_coins sample_db) s m sample_agrees _ _ _ _ E))); [done|done|vm_compute; reflexivity|intros [=]].
  - exfalso. apply (f_equal (fun x => match fst x with Rejected _ => true | _ => false end)) in E. vm_compute in E. discriminate.
  - exfalso. apply (f_equal (fun x => match fst x with Aborted => true | _ => false end)) in E. vm_compute in E. discriminate.
Defined.

(** C2: Disconnecting undoes connecting.  From any cache that shows the coins after a block,
    [DisconnectBlock] with the undo data that [ConnectBlock] left reports
    [DISCONNECT_OK], shows the coins before the block again, and is at the previous
    block. *)
Theorem disconnect_undoes_connect {K : Crypto} {V} `{CCoinsViewLaws V} p k others dlgt w sigops reason t sg sig root b hash h prev prev_supply
    (c c' : CCoinsViewCache V) u s nMoneySupply max_outputs bip30 :
  agrees c u -> utxo_ok u -> 0 < h < 1073741824 -> hash <> hashGenesisBlock k -> CheckBlock w sigops reason t sg sig root b = None ->
  ConnectBlock p k others dlgt b hash h prev prev_supply c = (Connected s, nMoneySupply) ->
  agrees c' (u_connect h (vtx b) u) ->
  exists c'', DisconnectBlock max_outputs (vtx b) (vtxundo s) h bip30 prev c' = Some (DISCONNECT_OK, c'') /\ agrees c'' u /\ hashBlock c'' = prev.
Proof.
  intros Hc Hu Hh Hg [Hb _]%CheckBlock_shape E Hc'. pose proof (ConnectBlock_spec p k others dlgt w b hash h prev prev_supply c u Hc Hb Hg) as HS.
  rewrite E in HS. destruct (bc_undo _ _ _ _ _ _ _ _ _ _ _ HS) as (cb & rest & Ev & HU). destruct (s_coinbase _ _ Hb) as (cb' & rest' & Ev' & Hcb & HC & _).
  rewrite Ev in Ev'. injection Ev' as <- <-. pose proof (s_valid _ _ Hb) as HV. pose proof (bc_new _ _ _ _ _ _ _ _ _ _ _ HS) as HN. rewrite Ev in *.
  by eapply DisconnectBlock_spec.
Qed.

Lemma disconnect_undoes_connect_witness :
  exists s m c'', ConnectBlock main_params sample_context no_contracts false stake_block 6 2000 5 100 sample_cache = (Connected s, m) /\
    DisconnectBlock 10 (vtx stake_block) (vtxundo s) 2000 true 5 (view s) = Some (DISCONNECT_OK, c'') /\
    coins c'' (mkOutPoint 1 0) = Some (sample_coin 10).
Proof.
  pose proof (ConnectBlock_spec main_params sample_context no_contracts false 8000000 stake_block 6 2000 5 100 sample_cache (db_coins sample_db) sample_agrees) as HS.
  destruct (CheckBlock_shape 8000000 80000 None true true true false stake_block) as [Hb _]; [vm_compute; reflexivity|]. specialize (HS Hb ltac:(done)).
  destruct (ConnectBlock main_params sample_context no_contracts false stake_block 6 2000 5 100 sample_cache) as [[s|r|] m] eqn:E.
  - destruct (disconnect_undoes_connect main_params sample_context no_contracts false 8000000 80000 None true true true false stake_block 6 2000 5 100
      sample_cache (view s) (db_coins sample_db) s m 10 true sample_agrees sample_utxo_ok) as (c'' & E'' & A & _);
      [lia|done|vm_compute; reflexivity|exact E|apply HS|].
    exists s, m, c''. split; [done|]. split; [exact E''|]. rewrite (proj2 A). vm_compute. reflexivity.
  - exfalso. apply (f_equal (fun x => match fst x with Rejected _ => true | _ => false end)) in E. vm_compute in E. discriminate.
  - exfalso. apply (f_equal (fun x => match fst x with Aborted => true | _ => false end)) in E. vm_compute in E. discriminate.
Defined.

(** A proof-of-work block can mint beyond its subsidy.  A transaction of the form of a
    coinstake is exempt from the rule that outputs may not exceed inputs, [CheckBlock]
    refuses such transactions only in proof-of-stake blocks, and [CheckReward] looks only at
    the coinbase of a proof-of-work block: this block, at a height with a subsidy of
    8333333, is accepted and turns a coin of value 10 into one of [MAX_MONEY]. *)
Theorem pow_coinstake_mints :
  IsProofOfStake (Block.header minting_block) = false /\ GetBlockSubsidy 500 main_params = 8333333 /\
  CheckBlock 8000000 80000 None true true true false minting_block = None /\
  match ConnectBlock main_params sample_context no_contracts false minting_block 6 500 5 100 sample_cache with
  | (Connected s, nMoneySupply) =>
      nMoneySupply = 100 + 8333333 + MAX_MONEY - 10 /\
      coins (view s) (mkOutPoint (GetHash minting_tx) 1) = Some (mkCoin (mkTxOut MAX_MONEY [81]) false true 500)
  | _ => False
  end.
Proof.
  split; [done|]. split; [vm_compute; reflexivity|]. split; [vm_compute; reflexivity|].
  vm_compute. split; reflexivity.
Qed.

(** The check of the money supply against the expected supply.  Up to height 511875911
    the limit is the number the source means to compute, and the issue of the main schedule
    is far below it; from height 511875912, inside the schedule of 882000000 blocks, the
    32-bit sum in it overflows, and where it has wrapped to zero (height 1048746824) no
    block with a positive supply can be connected on the main network. *)
Theorem money_supply_limit {K : Crypto} {V} `{CCoinsView V} :
  (forall h, 5000 < h <= 511875911 -> expected_supply h = (100000000 + (h - 5000) * 4) * COIN /\ issued_by h < expected_supply h) /\
  expected_supply 511875912 <> (100000000 + (511875912 - 5000) * 4) * COIN /\
  forall k others dlgt b hash prev prev_supply (c : CCoinsViewCache V) s nMoneySupply,
    MineBlocksOnDemand k = false -> hash <> hashGenesisBlock k ->
    ConnectBlock main_params k others dlgt b hash 1048746824 prev prev_supply c = (Connected s, nMoneySupply) -> nMoneySupply = 0.
Proof.
  split; [|split; [vm_compute; discriminate|]].
  - intros h Hh. pose proof (issued_by_bounds h). unfold expected_supply, COIN. rewrite (i32_id ((h - 5000) * 4)), i32_id by (unfold in_i32; lia).
    rewrite (u64_id (100000000 + _)), u64_id by (unfold in_u64; lia). split; lia.
  - intros k others dlgt b hash prev ps c s m Hd Hg. unfold ConnectBlock. destruct (GetBestBlock c) as [best c1]. destruct (negb _); [done|].
    rewrite (proj2 (N.eqb_neq _ _) Hg). destruct (overwrites (vtx b) false c1) as [found c2]. destruct (stake_value b c2) as [[v|] c3]; [|done]. destruct found; [done|].
    destruct (connect_txs _ _ _ _ _ _) as [s'| |]; [|done|done]. destruct (_ <? gasRefunds s'); [done|]. destruct (CheckReward _ _ _ _ _ _ _ _ _ _ _ _); [done|].
    rewrite Hd. change (expected_supply 1048746824) with 0. change (5000 <? 1048746824) with true. cbn [negb andb].
    destruct (Z.ltb_spec 0 (u64 (ps + nValueOut s' - nValueIn s'))) as [|Hle]; [done|]. intros [= _ <-].
    pose proof (Z.mod_pos_bound (ps + nValueOut s' - nValueIn s') 18446744073709551616 ltac:(lia)). unfold u64 in *. lia.
Qed.

Lemma money_supply_limit_witness : expected_supply 6000 = 100004000 * COIN /\ issued_by 6000 < expected_supply 6000.
Proof. apply (proj1 (money_supply_limit (V := CCoinsViewDB)) 6000). lia. Defined.
End Connect.
